(* ===== verification/_CoqProject ===== *)
-Q . S2P
Prelude.v
Lexer.v
Float64.v
GoValue.v
Parser.v
ExprCache.v
Eval.v
Engine.v
Tasks.v
PriorityQueue.v
BinHeap.v
TimerQueue.v
Limiter.v
WorkerPool.v
TaskQueue.v
DepGraph.v
Registry.v
InitOrder.v
Lifecycle.v
Base64.v
Paging.v
MetricsStore.v
Collector.v
GoStrings.v
FileStore.v
Dispatcher.v
ServiceCall.v
Discovery.v
Sorting.v
Trees.v
Replicas.v
Sha256.v
Sandbox.v
EventRouting.v
Desensitizer.v
Json.v
OAuthState.v
OAuthConfig.v
FloatText.v
OAuthClient.v
Search.v
Drivers.v
DataLayer.v
DataMetrics.v
RedisCache.v
SnapshotText.v
RedisMetrics.v
Utils.v
CtxUtil.v
ClientInfo.v
Responses.v
Cookies.v
ManagerHttp.v
MongoManager.v
JsonText.v
SearchAdapters.v
Subsystems.v
Convert.v
Tokens.v
ObjectStore.v
Brokers.v
RedisDriver.v
ExtConfig.v
Settings.v
