(* ===== verification/Prelude.v ===== *)
(** * Verification of the ncore framework

    This library models the parts of the ncore Go modules that carry logic of
    their own and proves what makes them correct, or what they do instead.  The
    names below are files of this library, and each says in its own header which
    file under src/ it models.  Definitions have the names of the Go functions
    they translate.

    ** The expression engine (src/validation/expression)

    [Lexer] is the tokenizer, [Parser] the precedence-climbing parser,
    [GoValue] the dynamic values with the operators and argument validators of
    helper.go, [Float64] the IEEE arithmetic and [strconv.ParseFloat] they use,
    [Eval] the evaluation of trees and the built-in functions, [ExprCache] the
    LRU result cache with expiry, and [Engine] the public type that validates,
    looks in the cache, tokenizes, parses, evaluates and stores.  The state of
    the engine is its tables and its cache; everything else is a function of the
    text.

    Theorems: printing and tokenizing, and printing and parsing, are inverse
    ([tokenize_roundtrip], [parse_roundtrip]); both phases terminate, the lexer
    except on operator pairs such as "+-", on which it loops
    ([tokenize_terminates], [parse_total], [tokenize_diverges_on_bad_pair]);
    well-typed expressions do not go wrong ([evaluate_type_sound]), and which
    ill-typed calls panic is stated exactly ([numeric_builtin_cases],
    [coalesce_first_only]); the cache refines a least-recently-used list for
    every sequence of calls ([cache_refines_lru]) but not across the window in
    [Get] ([get_expired_race]); the engine with the cache returns what it would
    return without, but for results larger than the cache in strict mode
    ([evaluate_cache_transparent]; with variables, [evaluate_same_key]); and what
    the validation passes accept ([validate_accepts_printed],
    [strict_syntax_parens], [parse_ignores_trailing]).

    ** Queues and workers (src/messaging/queue, src/concurrency)

    [Tasks] is the task object, shared by pointer through a heap of tasks;
    [PriorityQueue] the array of FIFO lists; [BinHeap] and [TimerQueue] the
    delay queue over container/heap; [WorkerPool] the pool of workers and
    [Limiter] the counting semaphore, both as machines whose events are the
    atomic steps of their goroutines (class [Machine] below); [TaskQueue] the
    queue that routes tasks to the three sub-queues, its timer and metrics loops
    and its retry loop, with the pool as a channel.

    Theorems: the priority queue refines one ordered list
    ([priority_queue_refines]); the timer queue is a heap with an exact index
    in every reachable state, and hands out exactly the due tasks in order
    ([timer_queue_invariant], [due_tasks_exact], [timer_pop_cancel]); in every
    interleaving the pool loses no task and respects its bounds
    ([pool_accounting]) until it is stopped or a processor panics
    ([stop_abandons_tasks], [processor_panic_is_fatal]); the limiter never
    exceeds its limit and its counters are right when nobody is inside
    ([limiter_safe], [limiter_decides], [available_can_be_negative]); retries
    are exact ([retry_loop_exact]); and tasks without a trigger time are never
    run ([untimed_tasks_starve], [start_needs_metrics_window]).

    ** Extensions (src/extension/registry, src/extension/manager)

    [DepGraph] has the graphs and topological lists; [Registry] the registry
    with its depth-first cycle search and its cycle resolution; [InitOrder] the
    computation of the initialisation order; [Lifecycle] the manager's maps, its
    non-reentrant mutex, initialisation in three phases, built-in plugins,
    unloading and clean-up.  Go's unspecified map iteration order and unstable
    sort are arguments, and the theorems hold for all of them.

    Theorems: the cycle search is right ([detect_circular_correct]); an order is
    found exactly when one exists, and respects the dependencies
    ([get_init_order_correct]); [InitExtensions] runs the phases in that order or
    stops where it says ([init_extensions_correct]); what resolution removes and
    what it leaves ([resolve_breaks_pairs], [resolve_keeps_long_cycles],
    [strong_dependency_dropped]); and the defects of the lifecycle
    ([unload_plugin_deadlocks], [builtin_plugins_initialised_twice],
    [direct_registration_ignores_dependencies]).

    ** Pagination (src/paging)

    [Base64] has the URL-safe base64 and the decimal integers of the Go library,
    [Paging] the cursors and [Paginate] over a data source given by the class
    [KeysetSource].  Theorems: a client that follows the cursors sees every item
    once ([forward_paging_complete]); what each field of a page is, forward and
    backward ([paginate_page]); cursors round trip ([cursor_roundtrip]).

    ** Metrics, events, calls and discovery (src/extension)

    [MetricsStore] is the in-memory storage of metric snapshots with its
    queries, [Collector] the collector that buffers and flushes them, a machine
    whose events are the steps of callers, of the flush goroutine and of [Stop].
    [Dispatcher] is the event dispatcher, also a machine.  [ServiceCall] finds
    services of other extensions and calls them by reflection, locally or
    remotely; [Discovery] is the service cache over a Consul agent, given by the
    class [Consul].

    Theorems: the storage refines a log ([storage_refines_log]) and queries are
    exact ([query_raw_exact], [query_interval_exact], [get_latest_exact]); the
    collector loses nothing while it runs ([collector_keeps_snapshots]), and what
    [Stop] does to it ([stop_returns_iff], [stop_discards_buffer]); each
    subscriber runs once per event ([dispatcher_delivers_once]) and the rate
    window is exact ([recent_events_exact]); which calls panic
    ([invoke_panics_iff]) and what each strategy returns ([strategies_exact],
    [local_error_masked]); discovery answers are fresh ([answers_are_fresh]), but
    services are registered under another key than they are looked up by
    ([registered_not_found], [deregister_leaves_service]).

    ** Files, trees and sorting (src/oss, src/types)

    [GoStrings] has the functions of strings and path/filepath, [FileStore] the
    local file store over a model of a file system; [Sorting] stable sorting and
    the sorter by several criteria, [Trees] the forest built from a flat list.
    Theorems: the store stays inside its folder ([full_path_contained],
    [store_confined]) and is a map of places to contents ([store_file_map],
    [put_succeeds]); sorting is right ([sort_correct]); so is the forest
    ([build_tree_correct]), unless the parents form a cycle
    ([build_tree_cycle_diverges]).

    ** Data access, plugins, events and logs (src/data, src/extension, src/logging)

    [Replicas] is the database manager with its three balancers over a master
    and read replicas.  [Sandbox], with the hash in [Sha256], is the sandbox for
    plugin files and the loading of plugins through it.  [EventRouting] decides
    whether an event goes to the dispatcher, to a message broker or to both; the
    brokers are given by a class [Queue], with an instance in memory; what a
    queue keeps for a later consumer is not followed.
    [Desensitizer] masks sensitive log fields.

    Theorems: the balancers are fair ([balancer_fair]) and a read finds a live
    replica ([slave_finds_live]), but the weighted one may panic
    ([weight_safe_iff]) and a replica that fails once is gone
    ([failed_replica_is_dropped]); only checked plugins are started
    ([loads_guarded]), what the checks accept ([sandbox_accepts_iff],
    [signature_accepts_iff], [resource_check_ignores_use]) and how loading goes
    wrong ([misnamed_plugin_restarts]); how often subscribers get an event
    ([event_delivered_again], [failover_reaches_nobody],
    [queue_target_without_queue]); and that secrets do not reach the log
    with masks of a fixed length ([secrets_hidden]), but for containers of some
    types ([typed_containers_unmasked]).

    ** Identity, tokens and search (src/security, src/data/search)

    [Json] is the text format of encoding/json and [FloatText] the printing of
    floats, both of the Go library.  [OAuthState] makes and checks the state of
    an authorization and the PKCE pair; [OAuthConfig] loads, completes and
    validates provider settings; [OAuthClient] builds the authorization address,
    exchanges codes and reads profiles, over an HTTP client that is an argument.
    [Tokens] is the JWT manager and its helpers; claims are written and read as
    JSON texts, with the numbers of [Float64], and the class [Signer] signs a text
    and checks the times of its claims.  [Search] is the client of the search
    engines, which are given by the class [Backend]; it has no laws, so that other
    programs may delete indices and engines may make them late, and the theorems
    are about what the engines are asked and what they answered.

    Theorems: which states are accepted ([state_accepted_iff]) and what PKCE data
    are ([pkce_well_formed]); which configurations pass ([loaded_config_valid])
    and equal their copies ([clone_equal_iff]); what the address says
    ([auth_url_exact]), which tokens are called valid ([token_valid_iff]), when
    they expire, and how the time overflows ([token_expiry]), and where addresses
    get lost ([github_null_email]); tokens round trip, large integers as float64
    ([token_roundtrip]), but sessions do not end ([session_never_ends]) and the
    checks of times differ ([timing_checks_disagree],
    [configured_lifetimes_ignored]); writes go to indices the engine confirmed
    ([written_index_confirmed]), once and for all ([never_checked_again]), at an
    engine chosen once ([engine_never_fails_over],
    [writes_credit_engine_in_use]).

    ** Connections, caches and their metrics (src/data, src/extension/metrics)

    [Drivers] has the tables of drivers, [DataLayer] opens and closes the
    connections and has the transactions, the MongoDB calls and the health
    report; a client is an object with the set of methods its type has, so that
    type assertions are decided.  [DataMetrics] is the collector of these calls,
    a machine of interleaved calls and flushes.  [RedisCache] is the cache of
    values over keys or hashes of a Redis server, given by the class [Redis] with
    the meaning of its commands (times to live in the whole seconds or
    milliseconds that the client sends), [SnapshotText] the JSON text of a metric
    snapshot, over a class for the texts of times, and [RedisMetrics] the storage
    of these texts in its sorted sets.

    Theorems: look-ups find what was registered ([drivers_found],
    [init_order_irrelevant]); what is opened ([connecting_opens]), what is never
    closed ([brokers_never_closed], [shared_instance_stays_closed]);
    transactions are nested ([transactions_nested]); what the health report
    means ([health_status_iff]) and what MongoDB calls answer
    ([mongo_database_unavailable]); no metric is lost ([metrics_kept]) and
    queries are exact ([query_exact]); caches give back what was put
    ([cache_returns_set], [cache_returns_items]), but for several items in
    hashes ([hash_items_lost]); snapshots are read back from their texts, but for
    empty maps of labels ([snapshot_text_roundtrip]); the sorted sets are the log
    of the snapshots ([redis_keeps_log]) under keys that are read back
    ([parse_metric_key]).

    ** MongoDB and the search engines (src/data)

    [MongoManager] is the manager of a MongoDB master and its slaves, with the
    balancers of [Replicas] on another type of client.  [JsonText] has the JSON
    texts that programs write by hand, with white space and without escapes, and
    what they decode to; [SearchAdapters] the three adapters behind the client of
    [Search], with the texts they send.

    Theorems: reads are served by a client that answered or by the master
    ([mongo_reads_served]), but by weight they may panic
    ([mongo_weight_safe_iff]), and dropped slaves are never disconnected
    ([mongo_close_exact]); queries, settings and bulk requests say what was asked
    ([search_query_exact], [index_settings_exact], [es_bulk_exact]), but queries
    are not escaped ([search_query_injected]); what deletions reach
    ([os_bulk_delete_prefix]); Elasticsearch is never searched
    ([es_search_never_answers]), and what Meilisearch does differently
    ([ms_index_created], [ms_index_marks_document]).

    ** Identifiers and addresses (src/utils, src/validation/validator)

    [Utils] has keys, short UUIDs, lists of strings and addresses.  Theorems:
    what keys are and how they are spread ([primary_key_generated],
    [primary_key_biased]), what short UUIDs keep ([short_uuid_equal_iff]), what
    removing duplicates does ([remove_duplicates_exact]) and which addresses are
    valid ([url_valid_iff]).

    ** Requests, responses and cookies (src/ctxutil, src/net, src/ecode, src/extension/manager)

    [CtxUtil] has the values that contexts carry, those of gin contexts being
    shared by a request, and business codes; [ClientInfo] what a request says
    about its client; [Responses] the answers in JSON over a class of response
    writers and the error codes; [Cookies] the cookies for tokens and sessions,
    over a class of browsers; [ManagerHttp] the routes and handlers of the
    extension manager.

    Theorems: contexts behave as a record shared by the request
    ([accessors_are_a_record], [request_values_shared], [trace_id_stable]),
    senders are remembered or not ([sender_remembered_iff]) and codes are unique
    in every interleaving of goroutines in which no call is overtaken at the end
    of a month ([business_codes_distinct]), and otherwise not ([codes_race]); which address is the client's
    ([client_ip_exact]), what a private one is ([public_address_iff],
    [parse_dotted]), and what is read back ([client_info_roundtrip],
    [referer_not_read], [agent_systems]); what is sent ([response_exact],
    [json_type_not_sent], [abort_adds_newline], [status_code_answer],
    [named_errors_exact], [text_of_codes]); cookies are protected
    ([cookies_protected]), but not all are cleared ([logout_keeps_tokens]) or
    checked ([register_token_unchecked]); the reports of the manager
    ([system_healthy_iff], [health_rate_exact], [summary_exact],
    [grouping_exact], [limits_bounded], [register_routes_exact]) and where they
    go wrong ([health_status_hidden], [plugin_file_anywhere], [history_panics],
    [system_config_panics_iff]).

    ** The manager over its parts (src/extension/manager, src/extension/plugin)

    [Subsystems] sets the manager up over [Collector], [Discovery], [Sandbox] and
    a data layer, reports on them and cleans up, where the functions of an
    extension return, panic or hang.  Theorems: how often the data
    layer is tried ([data_layer_retried]) and when metrics go to Redis
    ([storage_upgraded_iff]); what cleaning up does, however extensions end
    ([cleanup_exact]), that
    nothing of it is recorded ([unloading_not_recorded]) and that it edits the
    configuration ([cleanup_edits_configuration], [plugin_configs_shared]); and
    where the reports go wrong ([services_reported_none],
    [data_status_uninformative], [reports_panic_iff]).

    ** Brokers, object stores and conversions (src/data/kafka, src/data/rabbitmq, src/data/redis, src/oss, src/utils/convert)

    [Brokers] has the services and drivers of Kafka and RabbitMQ, with the answers
    of their clients as arguments, [RedisDriver] the driver of Redis and the
    storage of the metrics of [DataMetrics] over the server of [RedisCache],
    [ObjectStore] the configuration and choice of object stores, the local one
    being that of [FileStore], and [Convert] values of type any and their texts,
    over [Json] and [FloatText].

    Theorems: what a service opens it closes once ([kafka_closes_once]), but for
    a writer made after closing ([writer_after_close]) and what RabbitMQ's driver
    connects ([rabbit_driver_never_closes]); how publishing is retried
    ([kafka_publish_retries]) and confirmed ([rabbit_publish_exact]); what is
    committed ([kafka_consumed_exact]) and that failed messages are lost
    ([kafka_failed_skipped], [rabbit_failed_acked]); stored metrics are found
    ([stored_metrics_queried]), longer than meant ([retention_of_the_type]);
    which configurations of stores are accepted ([accepted_iff]), that validating
    them again changes nothing ([revalidation]) but for some buckets
    ([tencent_full_name], [tencent_validated_twice]), and which store they
    choose ([new_storage_by_kind], [registry_exact]); values round trip
    ([container_roundtrip], [string_array_roundtrip], [sync_map_roundtrip],
    [milliseconds_roundtrip]), and what is refused ([first_bad_element],
    [boolean_texts], [narrow_ints]).

    ** Configuration (src/config, src/data/config, src/logging/logger/config, src/extension/config)

    [ExtConfig] reads the configuration of the extensions from a source of
    settings, a record of what viper answers, with [ParseDuration] of package
    time and the days and weeks added to it; [Settings] reads every other part,
    with its defaults and older names, and keeps the global configuration
    ([Init], [GetConfig], [Reload], [Watch]).  The theorems say which durations
    days give and how they wrap ([parse_days_exact], [retention_wraps]), when
    reading panics ([ext_config_panics_iff], [reload_panics_iff]), which
    configuration is the global one after any calls ([last_loaded],
    [nil_after_failure]), and what the parts are ([ext_config_defaults],
    [mongo_slaves_exact], [masking_defaults_differ], [production_iff],
    [messaging_defaults]).

    ** Conventions

    A Go function that can fail or panic has the result type [res] of this file.
    Loops whose termination is not structural take fuel and answer [NoFuel] when
    it runs out; the theorems show how much is enough: [lex_fuel] is one more
    than the length of the text (each iteration of the tokenizer consumes a
    byte), [parse_fuel] is linear in the number of tokens (each nested call of
    the parser consumes a token or descends a precedence level), the eviction
    loop of the cache and the loop of [DueTasks] get one unit per stored
    element, the sift loops of the heap one per level or more, the cycle search
    one per name in the graph (its recursion marks a new name each time) and
    [getInitOrder] one per waiting extension.  Integers are [Z], wrapped to
    their width where overflow can be reached; byte counts, counters and cursor
    timestamps are bounded.  Clock readings, map iteration orders, what user
    callbacks return and the events of other goroutines are arguments.

    ** Not modelled, and planned

    Code that only calls drivers, SDKs, brokers, HTTP or logging libraries
    (the other drivers under src/data, the cloud stores of src/oss, most of
    src/logging, src/security/crypto, src/extension/grpc), generated code and
    the example programs are left out.  [EvaluateParallel]
    and the statistics counters of the caches and queues that no decision reads
    are not modelled. *)

From stdpp Require Import base tactics option list gmap strings numbers.
From Stdlib Require Import ZArith Lia.

(** ** Outcome of a Go computation

    A Go function that can fail returns a value and an [error]; it can also
    panic (nil dereference, index out of range, failed type assertion, division
    by zero) and it can fail to terminate.  [Ok], [Err] and [Panic] are the
    first three; [NoFuel] is the outcome of a loop whose fuel argument ran out,
    so that a theorem about termination is a theorem that [NoFuel] is not the
    outcome for some explicit amount of fuel, and divergence is a theorem that
    it is the outcome for every amount. *)
Inductive res (E A : Type) : Type :=
| Ok (a : A)
| Err (e : E)
| Panic
| NoFuel.
Arguments Ok {E A} a.
Arguments Err {E A} e.
Arguments Panic {E A}.
Arguments NoFuel {E A}.

Definition rbind {E A B : Type} (c : res E A) (k : A → res E B) : res E B :=
  match c with
  | Ok a => k a
  | Err e => Err e
  | Panic => Panic
  | NoFuel => NoFuel
  end.

(** Wrap the error of a computation ([fmt.Errorf("...: %w", err)]). *)
Definition rmap_err {E F A : Type} (f : E → F) (c : res E A) : res F A :=
  match c with
  | Ok a => Ok a
  | Err e => Err (f e)
  | Panic => Panic
  | NoFuel => NoFuel
  end.

Definition of_opt {E A : Type} (o : option A) (e : E) : res E A :=
  match o with Some a => Ok a | None => Err e end.

Declare Scope go_scope.
Delimit Scope go_scope with go.
Notation "'let!' x ':=' c 'in' k" := (rbind c (λ x, k))
  (at level 10, x pattern, c at level 200, k at level 200) : go_scope.
Notation "'guard!' b 'else' e 'in' k" := (if b then k else Err e)
  (at level 10, b at level 200, e at level 200, k at level 200) : go_scope.

Definition is_Ok {E A} (r : res E A) : bool := match r with Ok _ => true | _ => false end.
Definition is_Err {E A} (r : res E A) : bool := match r with Err _ => true | _ => false end.
Definition is_Panic {E A} (r : res E A) : bool := match r with Panic => true | _ => false end.

#[global] Instance res_eq_dec {E A} `{EqDecision E, EqDecision A} : EqDecision (res E A).
Proof. solve_decision. Defined.

Lemma rbind_Ok_inv {E A B} (c : res E A) (k : A → res E B) b :
  rbind c k = Ok b → ∃ a, c = Ok a ∧ k a = Ok b.
Proof. destruct c; simpl; intros; simplify_eq; eauto. Qed.

Lemma rbind_NoFuel_inv {E A B} (c : res E A) (k : A → res E B) :
  rbind c k = NoFuel → c = NoFuel ∨ ∃ a, c = Ok a ∧ k a = NoFuel.
Proof. destruct c; simpl; intros; simplify_eq; eauto. Qed.

Lemma rbind_Panic_inv {E A B} (c : res E A) (k : A → res E B) :
  rbind c k = Panic → c = Panic ∨ ∃ a, c = Ok a ∧ k a = Panic.
Proof. destruct c; simpl; intros; simplify_eq; eauto. Qed.

Lemma rmap_err_Ok_inv {E F A} (f : E → F) (c : res E A) a :
  rmap_err f c = Ok a → c = Ok a.
Proof. destruct c; simpl; intros; simplify_eq; eauto. Qed.

Definition is_some_b {A} (o : option A) : bool := match o with Some _ => true | None => false end.

(** [inv_res] takes a successful [let!] chain apart, one binding at a time. *)
Ltac inv_res :=
  repeat match goal with
  | H : rbind _ _ = Ok _ |- _ =>
      let a := fresh "a" in let H1 := fresh "H" in
      apply rbind_Ok_inv in H as (a & H1 & H)
  | H : rmap_err _ _ = Ok _ |- _ => apply rmap_err_Ok_inv in H
  | H : Ok _ = Ok _ |- _ => injection H; clear H; intros; subst
  | H : Err _ = Ok _ |- _ => discriminate H
  | H : Panic = Ok _ |- _ => discriminate H
  | H : NoFuel = Ok _ |- _ => discriminate H
  end.

(** Case analysis on every [match]/[if] scrutinee of the hypotheses and goal,
    keeping the equations. *)
Ltac case_all :=
  repeat (case_match; simplify_eq/=; try done).

(** ** Machine integers

    [int] and [int64] are 64-bit two's complement on the platforms the module
    targets; an operation whose overflow matters wraps its result with
    [wrap64]. *)
Definition wrap64 (z : Z) : Z := (z + 2 ^ 63) `mod` 2 ^ 64 - 2 ^ 63.
Definition wrapu64 (z : Z) : Z := z `mod` 2 ^ 64.
Definition wrap32 (z : Z) : Z := (z + 2 ^ 31) `mod` 2 ^ 32 - 2 ^ 31.
Definition max_int32 : Z := 2 ^ 31 - 1.
Definition max_int64 : Z := 2 ^ 63 - 1.
Definition min_int64 : Z := - 2 ^ 63.

Lemma wrap64_id z : (min_int64 ≤ z ≤ max_int64)%Z → wrap64 z = z.
Proof.
  unfold wrap64, min_int64, max_int64. intros ?.
  rewrite Z.mod_small; lia.
Qed.

Lemma wrap64_range z : (min_int64 ≤ wrap64 z ≤ max_int64)%Z.
Proof.
  unfold wrap64, min_int64, max_int64.
  pose proof (Z.mod_pos_bound (z + 2 ^ 63) (2 ^ 64)). lia.
Qed.

Lemma wrap32_id z : (- 2 ^ 31 ≤ z ≤ max_int32)%Z → wrap32 z = z.
Proof. unfold wrap32, max_int32. intros ?. rewrite Z.mod_small; lia. Qed.

(** Wrapping commutes with addition, so a counter updated one step at a time is
    the wrapped total. *)
Lemma wrap32_add a b : wrap32 (wrap32 a + b) = wrap32 (a + b).
Proof.
  unfold wrap32.
  replace ((a + 2 ^ 31) `mod` 2 ^ 32 - 2 ^ 31 + b + 2 ^ 31)%Z with ((a + 2 ^ 31) `mod` 2 ^ 32 + b)%Z by lia.
  rewrite Z.add_mod_idemp_l by lia. do 2 f_equal. lia.
Qed.

Lemma wrap64_add a b : wrap64 (wrap64 a + b) = wrap64 (a + b).
Proof.
  unfold wrap64.
  replace ((a + 2 ^ 63) `mod` 2 ^ 64 - 2 ^ 63 + b + 2 ^ 63)%Z with ((a + 2 ^ 63) `mod` 2 ^ 64 + b)%Z by lia.
  rewrite Z.add_mod_idemp_l by lia. do 2 f_equal. lia.
Qed.

(** ** Strings as byte sequences

    A Go string is a sequence of bytes; [ascii] is one byte.  [str_drop n s] is
    the slice [s[n:]] for [n <= len(s)] and the empty string beyond it. *)
Fixpoint str_drop (n : nat) (s : string) : string :=
  match n, s with
  | O, _ => s
  | S n', String _ s' => str_drop n' s'
  | S _, EmptyString => EmptyString
  end.

Lemma str_drop_get n s c :
  String.get n s = Some c → str_drop n s = String c (str_drop (S n) s).
Proof.
  revert n; induction s as [|a s IH]; intros [|n]; simpl; intros; simplify_eq; try done.
  rewrite (IH n) by done. by destruct n.
Qed.

Lemma str_drop_nil n : str_drop n EmptyString = EmptyString.
Proof. by destruct n. Qed.

Lemma str_get_drop n m s : String.get n (str_drop m s) = String.get (m + n) s.
Proof.
  revert s; induction m as [|m IH]; intros s; [done|].
  destruct s; simpl; [by destruct n|]. apply IH.
Qed.

Lemma str_length_drop n s : String.length (str_drop n s) = String.length s - n.
Proof. revert s; induction n; intros [|? s]; simpl; auto with lia. Qed.

Lemma str_get_None n s : String.length s ≤ n → String.get n s = None.
Proof. revert n; induction s; intros [|n]; simpl; intros; auto with lia. Qed.

Lemma str_get_Some n s : n < String.length s → ∃ c, String.get n s = Some c.
Proof.
  revert n; induction s as [|c s IH]; intros [|n]; simpl; intros; try lia; eauto.
  apply IH; lia.
Qed.

Lemma str_get_lt n s c : String.get n s = Some c → n < String.length s.
Proof.
  revert n; induction s as [|a s IH]; intros [|n]; simpl; intros; simplify_eq; try lia.
  apply IH in H. lia.
Qed.

Lemma str_drop_drop n m s : str_drop n (str_drop m s) = str_drop (m + n) s.
Proof.
  revert s; induction m as [|m IH]; intros s; [done|].
  destruct s; simpl; [by rewrite str_drop_nil|]. apply IH.
Qed.

(** Every byte satisfies [f]. *)
Fixpoint str_all (f : Ascii.ascii → bool) (s : string) : bool :=
  match s with EmptyString => true | String c s' => f c && str_all f s' end.

Lemma str_app_cons x a b : String x a +:+ b = String x (a +:+ b).
Proof. done. Qed.

Lemma str_app_nil_l b : EmptyString +:+ b = b.
Proof. done. Qed.

Lemma str_app_nil_r a : a +:+ EmptyString = a.
Proof. induction a as [|x a IH]; [done|]. rewrite str_app_cons. by rewrite IH. Qed.

Lemma str_drop_app a b : str_drop (String.length a) (a +:+ b) = b.
Proof. induction a as [|x a IH]; [done|]. rewrite str_app_cons. apply IH. Qed.

Lemma str_app_assoc a b c : (a +:+ b) +:+ c = a +:+ (b +:+ c).
Proof. induction a as [|x a IH]; [done|]. rewrite !str_app_cons. by rewrite IH. Qed.

Lemma str_length_app a b : String.length (a +:+ b) = String.length a + String.length b.
Proof. induction a as [|x a IH]; [done|]. rewrite str_app_cons. simpl. by rewrite IH. Qed.

Lemma str_substring_drop n m s : String.substring n m s = String.substring 0 m (str_drop n s).
Proof.
  revert s; induction n as [|n IH]; intros s; [done|].
  destruct s as [|c s]; [by destruct m|]. apply IH.
Qed.

Lemma str_drop_S k s c t : str_drop k s = String c t → str_drop (S k) s = t.
Proof. intros H. replace (S k) with (k + 1) by lia. by rewrite <- str_drop_drop, H. Qed.

(** ** Lists *)

Lemma forallb_Forall {A} (f : A → bool) (l : list A) :
  forallb f l = true → Forall (λ x, f x = true) l.
Proof.
  induction l as [|x l IH]; simpl; [by constructor|].
  intros [Hx Hl]%andb_true_iff. by constructor; auto.
Qed.

Lemma list_filter_all {A} (P : A → Prop) `{!∀ x, Decision (P x)} (l : list A) :
  (∀ x, x ∈ l → P x) → filter P l = l.
Proof.
  induction l as [|x l IH]; intros Hall; [done|]. rewrite filter_cons, decide_True by (apply Hall; left).
  f_equal. apply IH. intros y Hy. apply Hall. by right.
Qed.

Lemma list_filter_ext_elem {A} (P Q : A → Prop) `{!∀ x, Decision (P x), !∀ x, Decision (Q x)} (l : list A) :
  (∀ x, x ∈ l → P x ↔ Q x) → filter P l = filter Q l.
Proof.
  induction l as [|x l IH]; intros Hall; [done|]. rewrite !filter_cons.
  assert (P x ↔ Q x) as Hx by (apply Hall; left).
  rewrite IH by (intros y Hy; apply Hall; by right).
  destruct (decide (P x)), (decide (Q x)); tauto.
Qed.

(** Filtering one element out of a list of distinct keys removes one element. *)
Lemma filter_one_out {A} (l : list (nat * A)) i a :
  (i, a) ∈ l → NoDup l.*1 → length l = S (length (filter (λ p, p.1 ≠ i) l)).
Proof.
  induction l as [|[j b] l IH]; intros Hin Hnd; [by apply not_elem_of_nil in Hin|].
  rewrite fmap_cons in Hnd. apply list.NoDup_cons in Hnd as [Hni Hnd]. rewrite filter_cons. simpl in *.
  destruct (decide (j ≠ i)) as [n|n].
  - simpl. f_equal. apply IH; [|done]. apply elem_of_cons in Hin as [Hin|Hin]; [by simplify_eq|done].
  - apply dec_stable in n as ->. rewrite list_filter_all; [done|].
    intros [y d] Hx. simpl. intros ->. apply Hni. by apply (list_elem_of_fmap_2 fst l (i, d)).
Qed.

Lemma filter_split_length {A} (f : A → bool) (l : list A) :
  length (filter (λ x, f x = true) l) + length (filter (λ x, f x = false) l) = length l.
Proof.
  induction l as [|x l IH]; [done|]. rewrite !filter_cons.
  destruct (f x); [rewrite decide_True, decide_False by done|rewrite decide_False, decide_True by done];
    simpl; lia.
Qed.

(** Counting the elements that satisfy a boolean predicate. *)
Definition count {A} (f : A → bool) (l : list A) : nat := length (filter (λ x, f x = true) l).

Definition b2n (b : bool) : nat := if b then 1 else 0.

Lemma count_insert {A} (f : A → bool) (l : list A) i x y :
  l !! i = Some x → count f (<[i := y]> l) + b2n (f x) = count f l + b2n (f y).
Proof.
  intros Hi. unfold count. rewrite <- (take_drop_middle l i x Hi) at 2.
  assert (length (take i l) = i) as Hlen by (apply length_take_le; apply lookup_lt_Some in Hi; lia).
  rewrite <- (take_drop_middle l i x Hi) at 1. rewrite insert_app_r_alt by lia.
  rewrite Hlen, Nat.sub_diag. simpl. rewrite !list.filter_app, !filter_cons, !length_app. simpl.
  repeat case_decide; repeat destruct (f _); simpl in *; try done; lia.
Qed.

Lemma count_le {A} (f : A → bool) (l : list A) : count f l ≤ length l.
Proof. apply length_filter. Qed.

Lemma count_replicate {A} (f : A → bool) n x : f x = false → count f (replicate n x) = 0.
Proof. intros Hf. unfold count. induction n; [done|]. simpl. rewrite filter_cons, decide_False; [done|congruence]. Qed.

Lemma count_pos {A} (f : A → bool) (l : list A) i x : l !! i = Some x → f x = true → 0 < count f l.
Proof.
  intros Hi Hf. unfold count. assert (x ∈ filter (λ x, f x = true) l) as H.
  { apply list_elem_of_filter. split; [done|]. by eapply list_elem_of_lookup_2. }
  destruct (filter _ l); [by apply not_elem_of_nil in H|]. simpl. lia.
Qed.

Lemma count_app {A} (f : A → bool) (l k : list A) : count f (l ++ k) = count f l + count f k.
Proof. unfold count. by rewrite list.filter_app, length_app. Qed.

Lemma count_elem {A} (f : A → bool) (l : list A) x : x ∈ l → f x = true → 0 < count f l.
Proof. intros [i Hi]%list_elem_of_lookup_1 Hf. by eapply count_pos. Qed.

Lemma count_ext {A} (f g : A → bool) (l : list A) :
  (∀ x, x ∈ l → f x = g x) → count f l = count g l.
Proof. intros H. unfold count. f_equal. apply list_filter_ext_elem. intros x Hx. by rewrite (H x Hx). Qed.

(** Permutations by counting, for goals that only move elements between parts
    of lists. *)
Lemma perm_count {A} `{EqDecision A} (l k : list A) :
  l ≡ₚ k ↔ ∀ x, count (λ y, bool_decide (y = x)) l = count (λ y, bool_decide (y = x)) k.
Proof.
  split; [intros Hp x; unfold count; by rewrite Hp|]. revert k. induction l as [|a l IH]; intros k Hk.
  - destruct k as [|b k]; [done|]. specialize (Hk b). unfold count in Hk. rewrite filter_cons, decide_True in Hk; [done|].
    by apply bool_decide_eq_true_2.
  - assert (a ∈ k) as Ha.
    { specialize (Hk a). unfold count in Hk. rewrite filter_cons, decide_True in Hk by (by apply bool_decide_eq_true_2).
      destruct (filter (λ x, bool_decide (x = a) = true) k) as [|b k'] eqn:E; [done|].
      assert (b ∈ filter (λ x, bool_decide (x = a) = true) k) as [Hb Hin]%list_elem_of_filter by (rewrite E; left).
      by apply bool_decide_eq_true_1 in Hb as ->. }
    apply list_elem_of_split in Ha as (k1 & k2 & ->). rewrite <- Permutation_middle. apply perm_skip, IH. intros x.
    specialize (Hk x). unfold count in *. rewrite list.filter_app, length_app in *. rewrite !filter_cons in Hk.
    case_decide; simpl in *; lia.
Qed.

Lemma count_cons {A} (f : A → bool) x (l : list A) : count f (x :: l) = b2n (f x) + count f l.
Proof. unfold count. rewrite filter_cons. by destruct (f x). Qed.

Lemma count_nil {A} (f : A → bool) : count f [] = 0.
Proof. done. Qed.

(** [perm_lia]: a permutation from permutations, by counting each element. *)
Ltac perm_lia :=
  apply perm_count; intros ?x;
  repeat match goal with H : _ ≡ₚ _ |- _ => rewrite perm_count in H; specialize (H x) end;
  repeat (rewrite ?count_app, ?count_cons, ?count_nil in *); lia.

(** Replacing one element of a list of lists. *)
Lemma concat_insert {A B} (f : A → list B) (l : list A) i x y :
  l !! i = Some x → f x ++ concat (f <$> <[i := y]> l) ≡ₚ f y ++ concat (f <$> l).
Proof.
  revert i. induction l as [|a l IH]; intros [|i] Hi; [done|done|..].
  - injection Hi as ->. cbn [insert list_insert]. rewrite !fmap_cons. cbn [concat]. rewrite !app_assoc.
    apply Permutation_app_tail, Permutation_app_comm.
  - cbn [insert list_insert]. rewrite !fmap_cons. cbn [concat]. rewrite !app_assoc, !(Permutation_app_comm _ (f a)), <- !app_assoc.
    apply Permutation_app_head. by apply IH.
Qed.

(** Elements of a list with distinct images are told apart by them. *)
Lemma NoDup_fmap_elem {A B} (f : A → B) (l : list A) x y : NoDup (f <$> l) → x ∈ l → y ∈ l → f x = f y → x = y.
Proof.
  induction l as [|a l IH]; intros Hnd Hx Hy Heq; [by apply not_elem_of_nil in Hx|].
  rewrite fmap_cons in Hnd. apply list.NoDup_cons in Hnd as [Ha Hl].
  apply elem_of_cons in Hx as [->|Hx]; apply elem_of_cons in Hy as [->|Hy]; [done|..|by apply IH]; exfalso; apply Ha.
  - rewrite Heq. by apply list_elem_of_fmap_2.
  - rewrite <- Heq. by apply list_elem_of_fmap_2.
Qed.

(** Splitting a list by a key, over a list of keys that covers it, loses and
    repeats nothing. *)
Lemma partition_step {A K} `{EqDecision K} (f : A → K) (ks : list K) (x : A) (l : list A) :
  NoDup ks → f x ∈ ks →
  concat ((λ k, filter (λ y, f y = k) (x :: l)) <$> ks) ≡ₚ x :: concat ((λ k, filter (λ y, f y = k) l) <$> ks).
Proof.
  intros Hnd Hin. induction ks as [|k ks IH]; [by apply not_elem_of_nil in Hin|].
  apply list.NoDup_cons in Hnd as [Hk Hnd]. rewrite !fmap_cons. cbn [concat]. rewrite filter_cons.
  destruct (decide (f x = k)) as [Hf|Hf].
  - cbn [app]. apply perm_skip, Permutation_app_head. clear IH Hin. subst k.
    assert ((λ k, filter (λ y, f y = k) (x :: l)) <$> ks = (λ k, filter (λ y, f y = k) l) <$> ks) as ->; [|done].
    apply list_fmap_ext. intros i k Hi. rewrite filter_cons, decide_False; [done|].
    intros <-. apply Hk. by eapply list_elem_of_lookup_2.
  - apply elem_of_cons in Hin as [Hin|Hin]; [done|]. rewrite (IH Hnd Hin). by rewrite Permutation_middle.
Qed.

Lemma partition_concat {A K} `{EqDecision K} (f : A → K) (ks : list K) (l : list A) :
  NoDup ks → (∀ x, x ∈ l → f x ∈ ks) → concat ((λ k, filter (λ y, f y = k) l) <$> ks) ≡ₚ l.
Proof.
  intros Hnd. induction l as [|x l IH]; intros Hin.
  - clear. induction ks as [|k ks IH]; [done|]. by rewrite fmap_cons.
  - rewrite partition_step; [|done|apply Hin; left]. apply perm_skip, IH. intros y Hy. apply Hin. by right.
Qed.

(** A property every step of a left fold keeps holds of the result. *)
Lemma foldl_ind {A B} (P : A → Prop) (f : A → B → A) (l : list B) (a : A) :
  P a → (∀ a x, x ∈ l → P a → P (f a x)) → P (foldl f a l).
Proof.
  revert a; induction l as [|x l IH]; intros a Ha Hf; [done|]. simpl. apply IH; [apply Hf; [left|done]|].
  intros a' y Hy. apply Hf. by right.
Qed.

Lemma foldl_id {A B} (f : A → B → A) (l : list B) (a : A) :
  (∀ x, x ∈ l → f a x = a) → foldl f a l = a.
Proof.
  induction l as [|x l IH]; intros Hf; [done|]. simpl. rewrite Hf by left. apply IH. intros y Hy. apply Hf. by right.
Qed.

(** ** Concurrent components as machines

    A component used by several goroutines is a machine: an event is one atomic
    step of one of them, and [mstep] is the state after it, or [None] when the
    event is not possible in the state.  A run is any sequence of events. *)
Class Machine (ev st : Type) := mstep : ev → st → option st.

Fixpoint mrun `{Machine ev st} (es : list ev) (s : st) : option st :=
  match es with
  | [] => Some s
  | e :: es' => match mstep e s with Some s' => mrun es' s' | None => None end
  end.

Section MachineLemmas.
Context `{Machine ev st}.

(** What every step keeps, every run keeps. *)
Lemma mrun_inv (P : st → Prop) es s s' :
  (∀ e s s', P s → mstep e s = Some s' → P s') → P s → mrun es s = Some s' → P s'.
Proof.
  intros Hstep. revert s. induction es as [|e es IH]; intros s Hs Hr; simpl in Hr; [by simplify_eq|].
  destruct (mstep e s) as [s1|] eqn:E; [|done]. eauto.
Qed.

(** The same, for what the steps of this run keep. *)
Lemma mrun_inv_in (P : st → Prop) es s s' :
  (∀ e s s', e ∈ es → P s → mstep e s = Some s' → P s') → P s → mrun es s = Some s' → P s'.
Proof.
  intros Hstep. revert s Hstep. induction es as [|e es IH]; intros s Hstep Hs Hr; simpl in Hr; [by simplify_eq|].
  destruct (mstep e s) as [s1|] eqn:E; [|done]. apply (IH s1); [|eapply Hstep; eauto; left|done].
  intros e' s2 s3 He'. apply Hstep. by right.
Qed.

(** What every step leaves alone, every run leaves alone. *)
Lemma mrun_const {A} (f : st → A) es s s' :
  (∀ e s s', mstep e s = Some s' → f s' = f s) → mrun es s = Some s' → f s' = f s.
Proof. intros Hstep. apply (mrun_inv (λ s1, f s1 = f s)); [|done]. intros e s1 s2 <- Hs. by eapply Hstep. Qed.
End MachineLemmas.
