(* ===== verification/Lexer.v ===== *)
(** * The tokenizer of the expression engine

    Models the tokenizer half of src/validation/expression: the token types of
    types.go, the character classes of helper.go and [tokenize] with its
    [readNumber], [readIdentifier], [readString] and [readOperator] of
    expression.go.  A Go string is a byte sequence; a loop
    [for current < len(input)] that only looks at [input[current]] is a
    recursion on the suffix [input[current:]]. *)

From stdpp Require Import base tactics option list strings numbers.
From Stdlib Require Import Ascii Lia.
From S2P Require Import Prelude.
Open Scope go_scope.

(** ** Tokens (types.go) *)

Inductive TokenType :=
| TokenEOF | TokenNumber | TokenString | TokenIdentifier | TokenOperator
| TokenLParen | TokenRParen | TokenDot | TokenComma | TokenFunction.

#[global] Instance TokenType_eq_dec : EqDecision TokenType.
Proof. solve_decision. Defined.

Record Token := mkToken {
  tType : TokenType;
  tValue : string;
  tLine : nat;
  tCol : nat;
}.

#[global] Instance Token_eq_dec : EqDecision Token.
Proof. solve_decision. Defined.

(** The three errors [tokenize] reports, with the line and column they print. *)
Inductive lex_error :=
| UnexpectedCharacter (line col : nat) (c : ascii)
| InvalidEscape (line col : nat) (c : ascii)
| UnterminatedString (line col : nat).

#[global] Instance lex_error_eq_dec : EqDecision lex_error.
Proof. solve_decision. Defined.

(** ** Character classes (helper.go) *)

Definition byte_between (lo hi c : ascii) : bool :=
  (N_of_ascii lo <=? N_of_ascii c)%N && (N_of_ascii c <=? N_of_ascii hi)%N.

Definition newline : ascii := "010"%char.
Definition dquote : ascii := "034"%char.
Definition squote : ascii := "039"%char.
Definition backslash : ascii := "092"%char.
Definition isWhitespace (c : ascii) : bool :=
  Ascii.eqb c " " || Ascii.eqb c "009" || Ascii.eqb c newline || Ascii.eqb c "013".

Definition isDigit (c : ascii) : bool := byte_between "0" "9" c.

Definition isLetter (c : ascii) : bool := byte_between "a" "z" c || byte_between "A" "Z" c.

Definition isOperator (c : ascii) : bool :=
  existsb (Ascii.eqb c) ["+"; "-"; "*"; "/"; "%"; "="; "!"; "<"; ">"; "|"; "&"]%char.

Definition tokenType (c : ascii) : TokenType :=
  if Ascii.eqb c "(" then TokenLParen
  else if Ascii.eqb c ")" then TokenRParen
  else if Ascii.eqb c "." then TokenDot
  else if Ascii.eqb c "," then TokenComma
  else TokenOperator.

(** ** Readers (expression.go) *)

(** The scanning loops return the text they collected and the number of bytes
    they consumed. *)
Fixpoint scanNumber (s : string) (hasDot : bool) : string * nat :=
  match s with
  | EmptyString => (EmptyString, 0)
  | String char s' =>
      if isDigit char then
        let '(v, n) := scanNumber s' hasDot in (String char v, S n)
      else if Ascii.eqb char "." && negb hasDot then
        let '(v, n) := scanNumber s' true in (String char v, S n)
      else (EmptyString, 0)
  end.

Definition readNumber (input : string) (start line col : nat) : Token * nat :=
  let '(v, n) := scanNumber (str_drop start input) false in
  (mkToken TokenNumber v line col, start + n).

Definition isIdentChar (char : ascii) : bool :=
  isLetter char || isDigit char || Ascii.eqb char "_".

Fixpoint scanIdentifier (s : string) : string * nat :=
  match s with
  | EmptyString => (EmptyString, 0)
  | String char s' =>
      if isIdentChar char then
        let '(v, n) := scanIdentifier s' in (String char v, S n)
      else (EmptyString, 0)
  end.

Definition readIdentifier (input : string) (start line col : nat) : Token * nat :=
  let '(v, n) := scanIdentifier (str_drop start input) in
  (mkToken TokenIdentifier v line col, start + n).

(** The character an escape sequence stands for, [None] for the [default] case. *)
Definition escape_char (c : ascii) : option ascii :=
  if Ascii.eqb c "n" then Some newline
  else if Ascii.eqb c "t" then Some "009"%char
  else if Ascii.eqb c "r" then Some "013"%char
  else if Ascii.eqb c backslash || Ascii.eqb c dquote || Ascii.eqb c squote then Some c
  else None.

(** [scanString quote line col n s] is the loop of [readString] on the suffix
    [s = input[current:]], where [n = current - start]. *)
Fixpoint scanString (quote : ascii) (line col n : nat) (s : string)
    : res lex_error (string * nat) :=
  match s with
  | EmptyString => Err (UnterminatedString line col)
  | String char s1 =>
      if Ascii.eqb char quote then Ok (EmptyString, S n)
      else
        match Ascii.eqb char backslash, s1 with
        | true, String char2 s2 =>
            match escape_char char2 with
            | Some e =>
                let! (v, m) := scanString quote line col (S (S n)) s2 in Ok (String e v, m)
            | None => Err (InvalidEscape line (col + S n) char2)
            end
        | _, _ => let! (v, m) := scanString quote line col (S n) s1 in Ok (String char v, m)
        end
  end.

Definition readString (input : string) (start line col : nat) : res lex_error (Token * nat) :=
  match String.get start input with
  | None => Panic
  | Some quote =>
      let! (v, n) := scanString quote line col 1 (str_drop (S start) input) in
      Ok (mkToken TokenString v line col, start + n)
  end.

Definition compoundOps : list string := ["=="; "!="; ">="; "<="; "&&"; "||"]%string.
Definition simpleOps : list string :=
  ["+"; "-"; "*"; "/"; "%"; "="; "!"; "<"; ">"; "&"; "|"]%string.

(** The loop that reads at most [maxOperatorLen = 2] operator characters. *)
Fixpoint scanOperator (s : string) (budget : nat) : string :=
  match s, budget with
  | String char s', S b => if isOperator char then String char (scanOperator s' b) else EmptyString
  | _, _ => EmptyString
  end.

(** A Go [*Token] result: [None] is the nil pointer. *)
Definition readOperator (input : string) (start line col : nat) : option Token * nat :=
  let compound := String.substring start 2 input in
  if (S start <? String.length input) && existsb (String.eqb compound) compoundOps
  then (Some (mkToken TokenOperator compound line col), start + 2)
  else
    let op := scanOperator (str_drop start input) 2 in
    let current := start + String.length op in
    if String.length op =? 0 then (None, current)
    else if existsb (String.eqb op) simpleOps
    then (Some (mkToken TokenOperator op line col), current)
    else (None, start).

(** ** The tokenizer loop *)

Record lex_state := mkLex {
  lx_current : nat;
  lx_line : nat;
  lx_col : nat;
  lx_tokens : list (option Token);
}.

(** [tokens = append(tokens, token); col += newPos - current; current = newPos] *)
Definition lx_push (st : lex_state) (t : option Token) (newPos : nat) : lex_state :=
  mkLex newPos (lx_line st) (lx_col st + (newPos - lx_current st)) (lx_tokens st ++ [t]).

(** One iteration of the loop body, [char] being [expr[current]]. *)
Definition tokenize_step (expr : string) (char : ascii) (st : lex_state)
    : res lex_error lex_state :=
  let '(mkLex current line col tokens) := st in
  if isWhitespace char then
    if Ascii.eqb char newline
    then Ok (mkLex (S current) (S line) 1 tokens)
    else Ok (mkLex (S current) line (S col) tokens)
  else if isDigit char then
    let '(token, newPos) := readNumber expr current line col in
    Ok (lx_push st (Some token) newPos)
  else if isLetter char then
    let '(token, newPos) := readIdentifier expr current line col in
    Ok (lx_push st (Some token) newPos)
  else if Ascii.eqb char dquote || Ascii.eqb char squote then
    let! (token, newPos) := readString expr current line col in
    Ok (lx_push st (Some token) newPos)
  else if isOperator char then
    let '(token, newPos) := readOperator expr current line col in
    Ok (lx_push st token newPos)
  else if existsb (Ascii.eqb char) ["("; ")"; "."; ","]%char then
    Ok (lx_push st (Some (mkToken (tokenType char) (String char EmptyString) line col)) (S current))
  else Err (UnexpectedCharacter line col char).

(** [for current < len(expr)]; [fuel] bounds the number of iterations. *)
Fixpoint tokenize_loop (fuel : nat) (expr : string) (st : lex_state) : res lex_error lex_state :=
  match String.get (lx_current st) expr with
  | None => Ok st
  | Some char =>
      match fuel with
      | O => NoFuel
      | S fuel' => let! st' := tokenize_step expr char st in tokenize_loop fuel' expr st'
      end
  end.

Definition tokenize (fuel : nat) (expr : string) : res lex_error (list (option Token)) :=
  let! st := tokenize_loop fuel expr (mkLex 0 1 1 []) in
  Ok (lx_tokens st ++ [Some (mkToken TokenEOF EmptyString (lx_line st) (lx_col st))]).

(** ** Progress of one iteration *)

Section Progress.
Context (expr : string).

(** The one situation in which an iteration leaves [current] where it is: an
    operator character on which [readOperator] returns the nil token. *)
Definition stuck_at (k : nat) : bool :=
  match String.get k expr with
  | Some char =>
      isOperator char && negb (is_some_b (fst (readOperator expr k 0 0)))
  | None => false
  end.

Lemma scanNumber_bound s d : snd (scanNumber s d) ≤ String.length s.
Proof.
  revert d; induction s as [|c s IH]; intros d; simpl; [lia|].
  specialize (IH d) as IH1. specialize (IH true) as IH2.
  repeat case_match; simplify_eq/=; lia.
Qed.

Lemma scanIdentifier_bound s : snd (scanIdentifier s) ≤ String.length s.
Proof.
  induction s as [|c s IH]; simpl; [lia|]. repeat case_match; simplify_eq/=; lia.
Qed.

Lemma scanString_bound q l c n s v m :
  scanString q l c n s = Ok (v, m) → n < m ≤ n + String.length s.
Proof.
  revert n v m; induction s as [s IH] using (induction_ltof1 _ String.length).
  unfold ltof in IH. intros n v m. destruct s as [|a s1]; simpl; [done|].
  destruct (Ascii.eqb a q); [intros; simplify_eq; lia|].
  assert (∀ s2 k v m, String.length s2 ≤ String.length s1 → k ≤ S n + (String.length s1 - String.length s2) →
     S n ≤ k → scanString q l c k s2 = Ok (v, m) → n < m ≤ n + S (String.length s1)) as Hrec.
  { intros s2 k v' m' ? ? ? H. apply IH in H; simpl; lia. }
  destruct (Ascii.eqb a backslash); [destruct s1 as [|a2 s2]|]; intros H.
  - by inv_res.
  - destruct (escape_char a2); [|done]. inv_res. destruct a1; simplify_eq.
    eapply (Hrec s2); [..|done]; simpl; lia.
  - inv_res. destruct a0; simplify_eq. eapply (Hrec s1); [..|done]; simpl; lia.
Qed.

Lemma scanOperator_bound s b : String.length (scanOperator s b) ≤ String.length s.
Proof. revert b; induction s as [|c s IH]; intros [|b]; simpl; try lia.
  case_match; simpl; [|lia]. specialize (IH b). lia. Qed.

(** Operator characters start no other token. *)
Lemma isOperator_disjoint c :
  isOperator c = true →
  isWhitespace c = false ∧ isDigit c = false ∧ isLetter c = false ∧
  Ascii.eqb c dquote = false ∧ Ascii.eqb c squote = false.
Proof.
  unfold isOperator. simpl. intros H.
  repeat (apply orb_prop in H as [H|H]; [apply Ascii.eqb_eq in H; subst; by vm_compute|]). done.
Qed.

(** Line and column do not influence where [readOperator] ends. *)
Lemma readOperator_pos k l c l' c' :
  snd (readOperator expr k l c) = snd (readOperator expr k l' c') ∧
  is_some_b (fst (readOperator expr k l c)) = is_some_b (fst (readOperator expr k l' c')).
Proof. unfold readOperator. by repeat case_match. Qed.

Lemma readOperator_progress k char l c tok p :
  String.get k expr = Some char → isOperator char = true →
  readOperator expr k l c = (tok, p) →
  match tok with
  | Some _ => k < p ≤ String.length expr
  | None => p = k
  end.
Proof.
  intros Hg Hop. unfold readOperator.
  pose proof (str_drop_get _ _ _ Hg) as Hd.
  pose proof (str_get_lt _ _ _ Hg) as Hlt.
  assert (k + String.length (scanOperator (str_drop k expr) 2) ≤ String.length expr) as Hb.
  { pose proof (scanOperator_bound (str_drop k expr) 2) as H.
    rewrite str_length_drop in H. lia. }
  assert (String.length (scanOperator (str_drop k expr) 2) ≠ 0) as Hnz.
  { rewrite Hd. simpl. rewrite Hop. simpl. lia. }
  destruct (_ && _) eqn:E1.
  - intros; simplify_eq. apply andb_prop in E1 as [E1 _]. apply Nat.ltb_lt in E1. lia.
  - rewrite (proj2 (Nat.eqb_neq _ _) Hnz).
    destruct (existsb _ simpleOps); intros; simplify_eq; lia.
Qed.

Lemma readNumber_progress k char l c :
  String.get k expr = Some char → isDigit char = true →
  k < snd (readNumber expr k l c) ≤ String.length expr.
Proof.
  intros Hg Hd. unfold readNumber.
  pose proof (str_get_lt _ _ _ Hg) as Hlt.
  pose proof (scanNumber_bound (str_drop k expr) false) as Hb.
  rewrite str_length_drop in Hb. rewrite (str_drop_get _ _ _ Hg) in *.
  cbn [scanNumber] in *. rewrite Hd in *.
  destruct (scanNumber (str_drop (S k) expr) false); cbn [snd] in *; lia.
Qed.

Lemma readIdentifier_progress k char l c :
  String.get k expr = Some char → isLetter char = true →
  k < snd (readIdentifier expr k l c) ≤ String.length expr.
Proof.
  intros Hg Hd. unfold readIdentifier.
  pose proof (str_get_lt _ _ _ Hg) as Hlt.
  pose proof (scanIdentifier_bound (str_drop k expr)) as Hb.
  rewrite str_length_drop in Hb. rewrite (str_drop_get _ _ _ Hg) in *.
  cbn [scanIdentifier] in *. unfold isIdentChar in *. rewrite Hd in *. cbn [orb] in *.
  destruct (scanIdentifier (str_drop (S k) expr)); cbn [snd] in *; lia.
Qed.

Lemma readString_progress k char l c t p :
  String.get k expr = Some char → readString expr k l c = Ok (t, p) →
  k < p ≤ String.length expr.
Proof.
  intros Hg. unfold readString. rewrite Hg. intros H. inv_res. destruct a as [v n]. simplify_eq.
  apply scanString_bound in H0. rewrite str_length_drop in H0.
  pose proof (str_get_lt _ _ _ Hg). lia.
Qed.

(** One iteration either moves [current] forward, within the expression, or is
    the stuck case, which only appends a nil token. *)
Lemma tokenize_step_progress char st st' :
  String.get (lx_current st) expr = Some char →
  tokenize_step expr char st = Ok st' →
  (lx_current st < lx_current st' ≤ String.length expr ∧ stuck_at (lx_current st) = false) ∨
  (stuck_at (lx_current st) = true ∧
   lx_current st' = lx_current st ∧ lx_line st' = lx_line st ∧ lx_col st' = lx_col st ∧
   lx_tokens st' = lx_tokens st ++ [None]).
Proof.
  destruct st as [k l c toks]. unfold tokenize_step, stuck_at. simpl. intros Hg. rewrite Hg.
  pose proof (str_get_lt _ _ _ Hg) as Hlt.
  destruct (isOperator char) eqn:Hop.
  - destruct (isOperator_disjoint _ Hop) as (-> & -> & -> & -> & ->). simpl.
    destruct (readOperator expr k l c) as [tok p] eqn:Hr. intros; simplify_eq/=.
    pose proof (readOperator_progress _ _ _ _ _ _ Hg Hop Hr) as Hp.
    destruct (readOperator_pos k l c 0 0) as [_ <-]. rewrite Hr. simpl.
    destruct tok; simpl; [left|right]; [done|]. subst. repeat split; lia.
  - intros H. left. split; [|done]. revert H.
    case_match; [case_match; intros; simplify_eq/=; lia|].
    case_match.
    { pose proof (readNumber_progress _ _ l c Hg H0).
      destruct (readNumber expr k l c). intros; by simplify_eq/=. }
    case_match.
    { pose proof (readIdentifier_progress _ _ l c Hg H1).
      destruct (readIdentifier expr k l c). intros; by simplify_eq/=. }
    case_match.
    { intros Hs. inv_res. destruct a. simplify_eq/=. by eapply readString_progress. }
    case_match; intros; simplify_eq/=; lia.
Qed.

(** A stuck iteration is repeated for ever. *)
Lemma tokenize_loop_stuck fuel st :
  stuck_at (lx_current st) = true → tokenize_loop fuel expr st = NoFuel.
Proof.
  revert st; induction fuel as [|fuel IH]; intros [k l c toks] Hs;
    pose proof Hs as Hs0; unfold stuck_at in Hs0; simpl in *;
    destruct (String.get k expr) as [char|] eqn:Hg; try done.
  apply andb_prop in Hs0 as [Hop Hn].
  destruct (isOperator_disjoint _ Hop) as (H1 & H2 & H3 & H4 & H5).
  unfold tokenize_step. rewrite H1, H2, H3, H4, H5, Hop. simpl.
  destruct (readOperator expr k l c) as [tok p] eqn:Hr.
  pose proof (readOperator_progress _ _ _ _ _ _ Hg Hop Hr) as Hp.
  destruct (readOperator_pos k l c 0 0) as [_ Hz]. rewrite Hr in Hz. simpl in Hz.
  rewrite <- Hz in Hn. destruct tok; [done|]. subst p. simpl. by apply IH.
Qed.

(** The step itself needs no fuel. *)
Lemma scanString_fuel q l c n s : scanString q l c n s ≠ NoFuel.
Proof.
  revert n; induction s as [s IH] using (induction_ltof1 _ String.length).
  unfold ltof in IH. intros n. destruct s as [|x s1]; simpl; [done|].
  repeat case_match; try done;
    intros H'; apply rbind_NoFuel_inv in H' as [H'|([] & _ & H')]; try done;
    revert H'; apply IH; simpl; lia.
Qed.

Lemma tokenize_step_fuel char st : tokenize_step expr char st ≠ NoFuel.
Proof.
  destruct st as [k l c toks]. unfold tokenize_step, readString.
  repeat case_match; simpl; try done;
    intros H'; apply rbind_NoFuel_inv in H' as [H'|([] & _ & H')]; try done;
    apply rbind_NoFuel_inv in H' as [H'|([] & _ & H')]; try done; by apply scanString_fuel in H'.
Qed.

Lemma tokenize_loop_decides fuel st :
  String.length expr - lx_current st < fuel →
  tokenize_loop fuel expr st = NoFuel → ∀ f, tokenize_loop f expr st = NoFuel.
Proof.
  revert st; induction fuel as [|fuel IH]; intros st Hf; [lia|]. simpl.
  destruct (String.get (lx_current st) expr) as [char|] eqn:Hg; [|done].
  destruct (tokenize_step expr char st) as [st'| | |] eqn:Hs; simpl; try done.
  - destruct (tokenize_step_progress _ _ _ Hg Hs) as [[Hp _]|[Hp _]].
    + intros Hn. assert (∀ f, tokenize_loop f expr st' = NoFuel) as Hall by (apply IH; [lia|done]).
      intros [|f]; simpl; rewrite Hg; [done|]. rewrite Hs. simpl. apply Hall.
    + intros _ f. by apply tokenize_loop_stuck.
  - by apply tokenize_step_fuel in Hs.
Qed.

Lemma tokenize_loop_mono f f' st r :
  tokenize_loop f expr st = r → r ≠ NoFuel → f ≤ f' → tokenize_loop f' expr st = r.
Proof.
  revert f' st; induction f as [|f IH]; intros [|f'] st; simpl; try lia;
    destruct (String.get (lx_current st) expr) eqn:Hg; intros Hr Hn Hf; subst; try done.
  destruct (tokenize_step expr a st); simpl in *; try done. apply IH; [done|done|lia].
Qed.

End Progress.

(** ** Tokens of a successful run *)

Definition real_token (t : option Token) : Prop :=
  match t with Some t => tType t ≠ TokenEOF | None => False end.

Lemma tokenize_step_real expr char st st' :
  tokenize_step expr char st = Ok st' → stuck_at expr (lx_current st) = false →
  String.get (lx_current st) expr = Some char →
  Forall real_token (lx_tokens st) → Forall real_token (lx_tokens st').
Proof.
  destruct st as [k l c toks]. unfold tokenize_step, stuck_at. simpl. intros H Hs Hg Hall.
  rewrite Hg in Hs. revert H.
  assert (∀ t p, real_token t → Forall real_token (lx_tokens (lx_push (mkLex k l c toks) t p))) as Hpush.
  { intros. simpl. by apply Forall_app; split; [|constructor]. }
  case_match; [case_match; intros; by simplify_eq/=|].
  case_match.
  { destruct (readNumber expr k l c) as [t p] eqn:E. intros; simplify_eq. apply Hpush.
    unfold readNumber in E. by case_match; simplify_eq/=. }
  case_match.
  { destruct (readIdentifier expr k l c) as [t p] eqn:E. intros; simplify_eq. apply Hpush.
    unfold readIdentifier in E. by case_match; simplify_eq/=. }
  case_match.
  { intros H'. inv_res. destruct a as [t p]. simplify_eq. apply Hpush.
    unfold readString in H3. rewrite Hg in H3. inv_res. destruct a. by simplify_eq/=. }
  case_match.
  { destruct (readOperator expr k l c) as [t p] eqn:Hr. intros; simplify_eq.
    destruct (readOperator_pos expr k l c 0 0) as [_ Hz]. rewrite Hr in Hz. simpl in Hz.
    rewrite <- Hz in Hs. destruct t as [t|]; [|done]. apply Hpush. simpl.
    unfold readOperator in Hr. by repeat case_match; simplify_eq/=. }
  case_match; [|done]. intros; simplify_eq. apply Hpush. simpl.
  unfold tokenType. by repeat case_match.
Qed.

Lemma tokenize_loop_real fuel expr st st' :
  tokenize_loop fuel expr st = Ok st' →
  Forall real_token (lx_tokens st) → Forall real_token (lx_tokens st').
Proof.
  revert st; induction fuel as [|fuel IH]; intros st; simpl;
    destruct (String.get (lx_current st) expr) as [char|] eqn:Hg; intros H Hall; simplify_eq; try done.
  inv_res. destruct (stuck_at expr (lx_current st)) eqn:Hs.
  - pose proof (tokenize_loop_stuck expr (S fuel) st Hs) as Hn. simpl in Hn.
    rewrite Hg, H0 in Hn. simpl in Hn. congruence.
  - eapply IH; [done|]. by eapply tokenize_step_real.
Qed.

Lemma tokenize_NoFuel fuel expr : tokenize fuel expr = NoFuel ↔ tokenize_loop fuel expr (mkLex 0 1 1 []) = NoFuel.
Proof. unfold tokenize. by destruct (tokenize_loop _ _ _). Qed.

(** The fuel that decides whether the loop terminates at all. *)
Definition lex_fuel (expr : string) : nat := S (String.length expr).

Lemma tokenize_stable fuel expr r :
  tokenize fuel expr = r → r ≠ NoFuel → tokenize (lex_fuel expr) expr = r.
Proof.
  assert (String.length expr - lx_current (mkLex 0 1 1 []) < lex_fuel expr) as lex_fuel_gt
    by (unfold lex_fuel; simpl; lia).
  intros Hr Hn. destruct (tokenize_loop (lex_fuel expr) expr (mkLex 0 1 1 [])) as [st| | |] eqn:Hl;
    unfold tokenize in Hr |- *; rewrite Hl; simpl.
  4: { rewrite (tokenize_loop_decides expr (lex_fuel expr) _ lex_fuel_gt Hl) in Hr.
       by subst. }
  all: destruct (tokenize_loop fuel expr _) eqn:Hf; simpl in Hr; subst; try done;
    (apply (tokenize_loop_mono expr _ (max fuel (lex_fuel expr))) in Hl; [|done|lia]);
    (apply (tokenize_loop_mono expr _ (max fuel (lex_fuel expr))) in Hf; [|done|lia]); congruence.
Qed.

(** ** Printing lexemes *)

Abbreviation lexeme := (TokenType * string)%type.
Definition lexeme_of (t : Token) : lexeme := (tType t, tValue t).

Fixpoint str_forallb (f : ascii → bool) (s : string) : bool :=
  match s with EmptyString => true | String c s' => f c && str_forallb f s' end.

Fixpoint number_tail (v : string) (hasDot : bool) : bool :=
  match v with
  | EmptyString => true
  | String c v' =>
      if isDigit c then number_tail v' hasDot
      else Ascii.eqb c "." && negb hasDot && number_tail v' true
  end.

Definition wf_lexeme (l : lexeme) : bool :=
  match l with
  | (TokenNumber, String c v) => isDigit c && number_tail v false
  | (TokenIdentifier, String c v) => isLetter c && str_forallb isIdentChar v
  | (TokenString, _) => true
  | (TokenOperator, v) => existsb (String.eqb v) (compoundOps ++ simpleOps)
  | (TokenLParen, v) => String.eqb v "("
  | (TokenRParen, v) => String.eqb v ")"
  | (TokenDot, v) => String.eqb v "."
  | (TokenComma, v) => String.eqb v ","
  | _ => false
  end.

Fixpoint quote_body (v : string) : string :=
  match v with
  | EmptyString => EmptyString
  | String c v' =>
      if Ascii.eqb c dquote || Ascii.eqb c backslash then String backslash (String c (quote_body v'))
      else if Ascii.eqb c newline then String backslash (String "n" (quote_body v'))
      else if Ascii.eqb c "009" then String backslash (String "t" (quote_body v'))
      else if Ascii.eqb c "013" then String backslash (String "r" (quote_body v'))
      else String c (quote_body v')
  end.

Definition show_lexeme (l : lexeme) : string :=
  match l with
  | (TokenString, v) => String dquote (quote_body v +:+ String dquote EmptyString)
  | (_, v) => v
  end.

(** Lexemes separated by one space each. *)
Fixpoint show_lexemes (ls : list lexeme) : string :=
  match ls with
  | [] => EmptyString
  | l :: ls' => show_lexeme l +:+ String " " (show_lexemes ls')
  end.

Lemma scanNumber_show v d rest :
  number_tail v d = true → scanNumber (v +:+ String " " rest) d = (v, String.length v).
Proof.
  revert d; induction v as [|c v IH]; intros d; [done|]. rewrite str_app_cons. simpl.
  destruct (isDigit c) eqn:Hc; [intros H; by rewrite IH|].
  intros H. destruct (Ascii.eqb c ".") eqn:E; simpl in *; [|done].
  destruct d; simpl in *; [done|]. by rewrite IH.
Qed.

Lemma scanIdentifier_show v rest :
  str_forallb isIdentChar v = true → scanIdentifier (v +:+ String " " rest) = (v, String.length v).
Proof.
  induction v as [|c v IH]; [done|]. rewrite str_app_cons. simpl.
  intros H. apply andb_prop in H as [-> H]. by rewrite IH.
Qed.

Lemma scanString_show v l c n rest :
  scanString dquote l c n (quote_body v +:+ String dquote rest) =
  Ok (v, n + S (String.length (quote_body v))).
Proof.
  revert n; induction v as [|x v IH]; intros n; cbn [quote_body]; [simpl; do 2 f_equal; lia|].
  destruct (Ascii.eqb x dquote) eqn:E1; [apply Ascii.eqb_eq in E1; subst|];
  [|destruct (Ascii.eqb x backslash) eqn:E2; [apply Ascii.eqb_eq in E2; subst|];
  [|destruct (Ascii.eqb x newline) eqn:E3; [apply Ascii.eqb_eq in E3; subst|];
  [|destruct (Ascii.eqb x "009") eqn:E4; [apply Ascii.eqb_eq in E4; subst|];
  [|destruct (Ascii.eqb x "013") eqn:E5; [apply Ascii.eqb_eq in E5; subst|]]]]];
    cbn [orb]; rewrite !str_app_cons; cbn [scanString];
    rewrite ?E1, ?E2; cbn -[scanString Nat.add String.append quote_body]; rewrite IH; simpl; do 2 f_equal; lia.
Qed.

(** ** Reading back one lexeme *)

Section ShowStep.
Context (expr : string).

Lemma get_of_drop k c s : str_drop k expr = String c s → String.get k expr = Some c.
Proof.
  intros H. rewrite <- (Nat.add_0_r k), <- str_get_drop, H. done.
Qed.

Lemma letter_not_blank c : isLetter c = true → isWhitespace c = false ∧ isDigit c = false.
Proof.
  destruct c as [[] [] [] [] [] [] [] []]; vm_compute; intros; done.
Qed.

Lemma digit_not_blank c : isDigit c = true → isWhitespace c = false.
Proof. destruct c as [[] [] [] [] [] [] [] []]; vm_compute; intros; done. Qed.

Lemma step_number c v rest st :
  isDigit c = true → number_tail v false = true →
  str_drop (lx_current st) expr = String c v +:+ String " " rest →
  ∃ t, lexeme_of t = (TokenNumber, String c v) ∧
    tokenize_step expr c st = Ok (lx_push st (Some t) (lx_current st + String.length (String c v))).
Proof.
  intros Hd Hv Hs. destruct st as [k l col toks]. simpl in *. unfold tokenize_step.
  rewrite (digit_not_blank _ Hd), Hd. unfold readNumber. rewrite Hs, scanNumber_show.
  - eexists; split; [|reflexivity]; reflexivity.
  - simpl. by rewrite Hd.
Qed.

Lemma step_identifier c v rest st :
  isLetter c = true → str_forallb isIdentChar v = true →
  str_drop (lx_current st) expr = String c v +:+ String " " rest →
  ∃ t, lexeme_of t = (TokenIdentifier, String c v) ∧
    tokenize_step expr c st = Ok (lx_push st (Some t) (lx_current st + String.length (String c v))).
Proof.
  intros Hd Hv Hs. destruct st as [k l col toks]. simpl in *. unfold tokenize_step.
  destruct (letter_not_blank _ Hd) as [-> ->]. rewrite Hd.
  unfold readIdentifier. rewrite Hs, scanIdentifier_show.
  - eexists; split; [|reflexivity]; reflexivity.
  - simpl. unfold isIdentChar at 1. by rewrite Hd.
Qed.

Lemma step_string v rest st :
  str_drop (lx_current st) expr = show_lexeme (TokenString, v) +:+ String " " rest →
  ∃ t, lexeme_of t = (TokenString, v) ∧
    tokenize_step expr dquote st =
      Ok (lx_push st (Some t) (lx_current st + String.length (show_lexeme (TokenString, v)))).
Proof.
  intros Hs. destruct st as [k l col toks]. simpl in *. unfold tokenize_step.
  change (isWhitespace dquote) with false. change (isDigit dquote) with false.
  change (isLetter dquote) with false. cbn [Ascii.eqb orb].
  change (Ascii.eqb dquote dquote) with true. cbn [orb].
  rewrite str_app_cons, str_app_assoc, str_app_cons, str_app_nil_l in Hs.
  unfold readString. pose proof (get_of_drop _ _ _ Hs) as Hg. rewrite Hg.
  rewrite (str_drop_S _ _ _ _ Hs), scanString_show.
  exists (mkToken TokenString v l col). split; [done|]. cbn [rbind]. do 2 f_equal.
  cbn [show_lexeme String.length]. rewrite str_length_app. simpl. lia.
Qed.

Lemma step_operator v rest st :
  existsb (String.eqb v) (compoundOps ++ simpleOps) = true →
  str_drop (lx_current st) expr = v +:+ String " " rest →
  ∃ c t, String.get (lx_current st) expr = Some c ∧ lexeme_of t = (TokenOperator, v) ∧
    tokenize_step expr c st = Ok (lx_push st (Some t) (lx_current st + String.length v)).
Proof.
  intros Hv Hs. destruct st as [k l col toks]. simpl lx_current in *. unfold tokenize_step.
  assert ((S k <? String.length expr) = true) as Hlen.
  { apply Nat.ltb_lt. pose proof (str_length_drop k expr) as H. rewrite Hs in H.
    rewrite str_length_app in H. simpl in H, Hv.
    repeat (apply orb_prop in Hv as [Hv|Hv]; [apply String.eqb_eq in Hv; subst; simpl in H; lia|]). done. }
  assert (∃ c t, existsb (Ascii.eqb c) (map (λ s, match s with String c _ => c | _ => " "%char end) simpleOps) = true ∧
     (∃ v', v = String c v') ∧ readOperator expr k l col = (Some t, k + String.length v) ∧
     lexeme_of t = (TokenOperator, v)) as (c & t & Hc & [v' Hv'] & Hr & Ht).
  { unfold readOperator. rewrite str_substring_drop, Hs, Hlen. simpl in Hv.
    repeat (apply orb_prop in Hv as [Hv|Hv];
      [apply String.eqb_eq in Hv; subst; rewrite !str_app_cons, ?str_app_nil_l;
       eexists _, (mkToken TokenOperator _ l col);
       split; [|split; [eexists; reflexivity|split; reflexivity]]; reflexivity|]).
    done. }
  exists c, t. split; [|split; [done|]].
  { rewrite Hv', str_app_cons in Hs. by eapply get_of_drop. }
  assert (isOperator c = true) as Hop.
  { simpl in Hc. repeat (apply orb_prop in Hc as [Hc|Hc]; [apply Ascii.eqb_eq in Hc; subst; done|]). done. }
  destruct (isOperator_disjoint _ Hop) as (-> & -> & -> & -> & ->).
  rewrite Hop. simpl. by rewrite Hr.
Qed.

Lemma step_punct ty c rest st :
  ty ≠ TokenOperator → tokenType c = ty → existsb (Ascii.eqb c) ["("; ")"; "."; ","]%char = true →
  str_drop (lx_current st) expr = String c EmptyString +:+ String " " rest →
  ∃ t, lexeme_of t = (ty, String c EmptyString) ∧
    tokenize_step expr c st = Ok (lx_push st (Some t) (lx_current st + 1)).
Proof.
  intros _ <- Hp _. destruct st as [k l col toks]. simpl in *.
  replace (k + 1) with (S k) by lia.
  repeat (apply orb_prop in Hp as [Hp|Hp];
    [apply Ascii.eqb_eq in Hp; subst; eexists; split; [|reflexivity]; done|]). done.
Qed.

Lemma tokenize_step_show l rest st :
  wf_lexeme l = true →
  str_drop (lx_current st) expr = show_lexeme l +:+ String " " rest →
  ∃ c t, String.get (lx_current st) expr = Some c ∧ lexeme_of t = l ∧
    tokenize_step expr c st = Ok (lx_push st (Some t) (lx_current st + String.length (show_lexeme l))).
Proof.
  destruct l as [ty v]. intros Hw Hs.
  destruct ty; simpl in Hw; try done.
  - destruct v as [|c v]; [done|]. apply andb_prop in Hw as [Hc Hv].
    destruct (step_number c v rest st Hc Hv Hs) as (t & ? & ?).
    exists c, t. split; [eapply get_of_drop; exact Hs|]. done.
  - destruct (step_string v rest st Hs) as (t & ? & ?).
    exists dquote, t. split; [eapply get_of_drop; exact Hs|]. done.
  - destruct v as [|c v]; [done|]. apply andb_prop in Hw as [Hc Hv].
    destruct (step_identifier c v rest st Hc Hv Hs) as (t & ? & ?).
    exists c, t. split; [eapply get_of_drop; exact Hs|]. done.
  - by apply (step_operator v rest st).
  - apply String.eqb_eq in Hw as ->. destruct (step_punct TokenLParen "(" rest st) as (t & ? & ?); try done.
    exists "("%char, t. split; [eapply get_of_drop; exact Hs|]. done.
  - apply String.eqb_eq in Hw as ->. destruct (step_punct TokenRParen ")" rest st) as (t & ? & ?); try done.
    exists ")"%char, t. split; [eapply get_of_drop; exact Hs|]. done.
  - apply String.eqb_eq in Hw as ->. destruct (step_punct TokenDot "." rest st) as (t & ? & ?); try done.
    exists "."%char, t. split; [eapply get_of_drop; exact Hs|]. done.
  - apply String.eqb_eq in Hw as ->. destruct (step_punct TokenComma "," rest st) as (t & ? & ?); try done.
    exists ","%char, t. split; [eapply get_of_drop; exact Hs|]. done.
Qed.

(** The loop reads a printed list of lexemes and stands at what follows it. *)
Lemma tokenize_loop_show ls tail st :
  Forall (λ l, wf_lexeme l = true) ls →
  str_drop (lx_current st) expr = show_lexemes ls +:+ tail →
  ∃ st' ts, (∀ fuel, tokenize_loop (2 * length ls + fuel) expr st = tokenize_loop fuel expr st') ∧
    str_drop (lx_current st') expr = tail ∧
    lx_tokens st' = lx_tokens st ++ map Some ts ∧ map lexeme_of ts = ls.
Proof.
  intros Hw. revert st; induction Hw as [|l ls Hl Hw IH]; intros st Hs; simpl in Hs.
  - exists st, []. rewrite app_nil_r. done.
  - rewrite str_app_assoc, str_app_cons in Hs.
    destruct (tokenize_step_show l (show_lexemes ls +:+ tail) st Hl Hs) as (c & t & Hg & Ht & Hstep).
    set (st1 := lx_push st (Some t) (lx_current st + String.length (show_lexeme l))) in *.
    assert (str_drop (lx_current st1) expr = String " " (show_lexemes ls +:+ tail)) as Hs1.
    { simpl. rewrite <- str_drop_drop, Hs. apply str_drop_app. }
    pose proof (get_of_drop _ _ _ Hs1) as Hg1.
    set (st2 := mkLex (S (lx_current st1)) (lx_line st1) (S (lx_col st1)) (lx_tokens st1)).
    destruct (IH st2) as (st' & ts & Hl' & Hd & Ht' & Hm).
    { exact (str_drop_S _ _ _ _ Hs1). }
    exists st', (t :: ts). split; [|split; [done|split]].
    + intros fuel. rewrite <- Hl'. replace (2 * length (l :: ls) + fuel)
        with (S (S (2 * length ls + fuel))) by (simpl; lia).
      cbn [tokenize_loop]. rewrite Hg, Hstep. cbn [rbind]. rewrite Hg1. reflexivity.
    + rewrite Ht'. simpl. by rewrite <- app_assoc.
    + simpl. by rewrite Ht, Hm.
Qed.

End ShowStep.

(** ** Where the loop cannot advance *)

(** Two adjacent operator characters that are none of the six compound operators. *)
Definition bad_pair (c1 c2 : ascii) : bool :=
  isOperator c1 && isOperator c2 &&
  negb (existsb (String.eqb (String c1 (String c2 EmptyString))) compoundOps).

Fixpoint has_bad_pair (s : string) : bool :=
  match s with
  | String c1 (String c2 _ as s') => bad_pair c1 c2 || has_bad_pair s'
  | _ => false
  end.

Lemma isOperator_cases c :
  isOperator c = true →
  c ∈ ["+"; "-"; "*"; "/"; "%"; "="; "!"; "<"; ">"; "|"; "&"]%char.
Proof.
  unfold isOperator. intros H. apply existsb_exists in H as (x & Hx & ->%Ascii.eqb_eq).
  by apply list_elem_of_In.
Qed.

Lemma scanOperator_two c1 c2 s :
  isOperator c1 = true → isOperator c2 = true →
  scanOperator (String c1 (String c2 s)) 2 = String c1 (String c2 EmptyString).
Proof. intros H1 H2. cbn [scanOperator]. rewrite H1, H2. by destruct s. Qed.

Lemma two_ops_not_simple c1 c2 :
  existsb (String.eqb (String c1 (String c2 EmptyString))) simpleOps = false.
Proof. simpl. repeat (destruct (Ascii.eqb c1 _); simpl); done. Qed.

Lemma stuck_at_bad_pair expr k c1 c2 s :
  str_drop k expr = String c1 (String c2 s) → bad_pair c1 c2 = true → stuck_at expr k = true.
Proof.
  intros Hd Hb. unfold bad_pair in Hb. apply andb_prop in Hb as [Hb Hc].
  apply andb_prop in Hb as [H1 H2]. apply negb_true_iff in Hc.
  unfold stuck_at. rewrite (get_of_drop _ _ _ _ Hd), H1. unfold readOperator.
  rewrite str_substring_drop, Hd, scanOperator_two, two_ops_not_simple by done.
  change (String.substring 0 2 (String c1 (String c2 s)))
    with (String c1 (String c2 (String.substring 0 0 s))).
  replace (String.substring 0 0 s) with EmptyString by (by destruct s).
  rewrite Hc, andb_false_r. done.
Qed.

Lemma stuck_at_inv expr k :
  stuck_at expr k = true →
  ∃ c1 c2 s, str_drop k expr = String c1 (String c2 s) ∧ bad_pair c1 c2 = true.
Proof.
  unfold stuck_at. destruct (String.get k expr) as [c1|] eqn:Hg; [|done].
  intros H. apply andb_prop in H as [H1 Hn]. apply str_drop_get in Hg as Hd.
  unfold readOperator in Hn. rewrite str_substring_drop, Hd in Hn.
  pose proof (str_length_drop k expr) as Hlen. rewrite Hd in Hlen. cbn [String.length] in Hlen.
  destruct (str_drop (S k) expr) as [|c2 s].
  - exfalso. cbn [scanOperator] in Hn. rewrite H1 in Hn. revert Hn.
    apply isOperator_cases in H1. apply list_elem_of_In in H1. simpl in H1. clear -H1.
    repeat destruct H1 as [<-|H1]; try done; simpl; rewrite ?andb_false_r; done.
  - exists c1, c2, s. split; [done|]. unfold bad_pair. rewrite H1.
    cbn [String.length] in Hlen.
    assert ((S k <? String.length expr) = true) as Hl by (apply Nat.ltb_lt; lia).
    rewrite Hl in Hn.
    change (String.substring 0 2 (String c1 (String c2 s)))
      with (String c1 (String c2 (String.substring 0 0 s))) in Hn.
    replace (String.substring 0 0 s) with EmptyString in Hn by (by destruct s).
    destruct (existsb _ compoundOps) eqn:Hc; cbn [andb] in Hn; [discriminate Hn|].
    destruct (isOperator c2) eqn:H2; [done|].
    cbn [scanOperator] in Hn. rewrite H1, H2 in Hn. revert Hn. apply isOperator_cases in H1. apply list_elem_of_In in H1. simpl in H1. clear -H1.
    repeat destruct H1 as [<-|H1]; try done; done.
Qed.

Lemma has_bad_pair_drop expr k c1 c2 s :
  str_drop k expr = String c1 (String c2 s) → bad_pair c1 c2 = true → has_bad_pair expr = true.
Proof.
  revert expr; induction k as [|k IH]; intros expr Hd Hb.
  - simpl in Hd. subst. simpl. by rewrite Hb.
  - destruct expr as [|x expr]; [done|]. simpl in Hd.
    pose proof (IH _ Hd Hb) as H. destruct expr as [|y expr]; [done|].
    change (bad_pair x y || has_bad_pair (String y expr) = true). rewrite H. apply orb_true_r.
Qed.

(** The tokens of a printed list of lexemes, whatever follows it. *)
Lemma tokenize_show (ls : list lexeme) :
  Forall (λ l, wf_lexeme l = true) ls →
  ∃ toks, tokenize (lex_fuel (show_lexemes ls)) (show_lexemes ls) = Ok toks ∧
    map (fmap lexeme_of) toks = map Some (ls ++ [(TokenEOF, EmptyString)]).
Proof.
  intros Hw. set (expr := show_lexemes ls).
  destruct (tokenize_loop_show expr ls EmptyString (mkLex 0 1 1 []) Hw) as (st & ts & Hl & Hd & Ht & Hm).
  { subst expr. simpl. clear. induction (show_lexemes ls) as [|c s IH]; [done|].
    rewrite str_app_cons. by rewrite <- IH. }
  specialize (Hl 0).
  assert (tokenize_loop 0 expr st = Ok st) as H0.
  { simpl. destruct (String.get (lx_current st) expr) as [c|] eqn:Hg; [|done].
    by rewrite (str_drop_get _ _ _ Hg) in Hd. }
  exists (lx_tokens st ++ [Some (mkToken TokenEOF EmptyString (lx_line st) (lx_col st))]). split.
  - eapply (tokenize_stable (2 * length ls + 0)); [|done]. unfold tokenize. by rewrite Hl, H0.
  - rewrite Ht. simpl. rewrite !map_app, map_map, <- Hm, map_map. done.
Qed.

(** ** Properties *)

(** C11: Tokenizing what the printer wrote gives the lexemes back: for every
    list of well-formed lexemes (numbers, identifiers, strings with any bytes,
    operators, punctuation) printed with separating spaces, [tokenize] returns
    exactly those token types and values, in order, followed by one EOF token. *)
Theorem tokenize_roundtrip (ls : list lexeme) :
  Forall (λ l, wf_lexeme l = true) ls →
  ∃ toks, tokenize (lex_fuel (show_lexemes ls)) (show_lexemes ls) = Ok toks ∧
    map (fmap lexeme_of) toks = map Some (ls ++ [(TokenEOF, EmptyString)]).
Proof. apply tokenize_show. Qed.

Lemma tokenize_roundtrip_witness :
  ∃ toks, tokenize (lex_fuel "foo ( 3.5 , 'a' ) >= x ") "foo ( 3.5 , 'a' ) >= x " = Ok toks ∧
    length toks = 9.
Proof.
  destruct (tokenize_roundtrip
    [(TokenIdentifier, "foo"); (TokenLParen, "("); (TokenNumber, "3.5"); (TokenComma, ",");
     (TokenString, "a"); (TokenRParen, ")"); (TokenOperator, ">="); (TokenIdentifier, "x")]%string)
    as (toks & H & Hm); [by repeat constructor|].
  exists toks. split; [exact H|]. apply (f_equal length) in Hm. by rewrite !length_map in Hm.
Defined.

(** The tokenizer terminates on every expression in which no two adjacent
    operator characters fail to form a compound operator: one iteration per
    byte is enough for it to return tokens or an error. *)
Theorem tokenize_terminates (expr : string) (fuel : nat) :
  has_bad_pair expr = false → lex_fuel expr ≤ fuel → tokenize fuel expr ≠ NoFuel.
Proof.
  intros Hb Hf Hn. apply tokenize_NoFuel in Hn.
  assert (∀ f st, String.length expr - lx_current st < f → tokenize_loop f expr st ≠ NoFuel) as Hall.
  { clear -Hb. induction f as [|f IH]; intros st Hlt; [lia|]. simpl.
    destruct (String.get (lx_current st) expr) as [c|] eqn:Hg; [|done].
    destruct (tokenize_step expr c st) as [st'| | |] eqn:Hs; simpl; try done.
    - destruct (tokenize_step_progress _ _ _ _ Hg Hs) as [[Hp _]|[Hp _]].
      + apply str_get_lt in Hg. apply IH. lia.
      + apply stuck_at_inv in Hp as (c1 & c2 & s & Hd & Hp).
        by rewrite (has_bad_pair_drop _ _ _ _ _ Hd Hp) in Hb.
    - by apply tokenize_step_fuel in Hs. }
  revert Hn. apply Hall. simpl. unfold lex_fuel in Hf. lia.
Qed.

Lemma tokenize_terminates_witness :
  has_bad_pair "a >= -1" = false ∧ tokenize 10 "a >= -1" ≠ NoFuel.
Proof.
  split; [by vm_compute|]. apply (tokenize_terminates "a >= -1" 10); [by vm_compute|].
  unfold lex_fuel. simpl. lia.
Defined.

(** After any well-formed prefix, two adjacent operator characters that are
    not one of the six compound operators send the tokenizer into an infinite
    loop: no amount of iterations lets it return ([readOperator] returns a nil
    token and the position it started at, and [tokenize] appends the token and
    tries again). *)
Theorem tokenize_diverges_on_bad_pair (ls : list lexeme) (c1 c2 : ascii) (rest : string) :
  Forall (λ l, wf_lexeme l = true) ls → bad_pair c1 c2 = true →
  ∀ fuel, tokenize fuel (show_lexemes ls +:+ String c1 (String c2 rest)) = NoFuel.
Proof.
  intros Hw Hb. set (expr := _ +:+ _).
  destruct (tokenize_loop_show expr ls (String c1 (String c2 rest)) (mkLex 0 1 1 []) Hw eq_refl)
    as (st & ts & Hl & Hd & _).
  assert (∀ f, tokenize_loop f expr st = NoFuel) as Hst.
  { intros f. apply tokenize_loop_stuck. by eapply stuck_at_bad_pair. }
  intros fuel. apply tokenize_NoFuel.
  destruct (tokenize_loop fuel expr (mkLex 0 1 1 [])) eqn:Hf; try done;
    eapply (tokenize_loop_mono _ _ (2 * length ls + fuel)) in Hf; try done; try lia;
    rewrite Hl, Hst in Hf; done.
Qed.

Lemma tokenize_diverges_on_bad_pair_witness :
  tokenize 1000 "1 +-2" = NoFuel.
Proof.
  apply (tokenize_diverges_on_bad_pair [(TokenNumber, "1"%string)] "+" "-" "2");
    [by repeat constructor|by vm_compute].
Defined.
