(* ===== verification/Float64.v ===== *)
(** * IEEE-754 double precision and [strconv.ParseFloat]

    What the expression engine uses of Go's [float64]: the arithmetic operators,
    comparisons, conversions from the integer types, [math.Mod], [math.Floor],
    [math.Ceil], [math.Round], [math.Abs] and [strconv.ParseFloat(s, 64)].  The
    numbers are the executable [spec_float] of the standard library at precision
    53 and maximal exponent 1024, so no axioms about primitive floats are used. *)

From stdpp Require Import base tactics option list strings numbers.
From Stdlib Require Import ZArith SpecFloat Ascii.
From S2P Require Import Prelude Lexer.

Abbreviation float64 := spec_float.

#[global] Instance spec_float_eq_dec : EqDecision spec_float.
Proof. solve_decision. Defined.

Definition prec : Z := 53.
Definition emax : Z := 1024.

Definition f_add : float64 → float64 → float64 := SFadd prec emax.
Definition f_sub : float64 → float64 → float64 := SFsub prec emax.
Definition f_mul : float64 → float64 → float64 := SFmul prec emax.
Definition f_div : float64 → float64 → float64 := SFdiv prec emax.
Definition f_eqb : float64 → float64 → bool := SFeqb.
Definition f_ltb : float64 → float64 → bool := SFltb.
Definition f_leb : float64 → float64 → bool := SFleb.
Definition f_abs : float64 → float64 := SFabs.
Definition f_zero : float64 := S754_zero false.

(** [float64(n)] of an integer. *)
Definition f_of_Z (n : Z) : float64 := binary_normalize prec emax n 0 false.

(** The rational [num / den], rounded to nearest even, [num] and [den] positive. *)
Definition f_of_ratio (neg : bool) (num den : positive) : float64 :=
  let '(mz, ez, lz) := SFdiv_core_binary prec emax (Zpos num) 0 (Zpos den) 0 in
  binary_round_aux prec emax neg mz ez lz.

Definition f_is_inf (f : float64) : bool :=
  match f with S754_infinity _ => true | _ => false end.

(** [math.Mod(x, y)]: the exact remainder, with the sign of [x]. *)
Definition f_mod (x y : float64) : float64 :=
  match x, y with
  | S754_nan, _ | _, S754_nan | S754_infinity _, _ | _, S754_zero _ => S754_nan
  | _, S754_infinity _ => x
  | S754_zero _, _ => x
  | S754_finite sx mx ex, S754_finite _ my ey =>
      let e := Z.min ex ey in
      let r := (Z.shiftl (Zpos mx) (ex - e) `mod` Z.shiftl (Zpos my) (ey - e))%Z in
      binary_normalize prec emax (if sx then - r else r) e sx
  end.

(** Integer part and whether anything was cut off. *)
Definition f_trunc_parts (m : positive) (e : Z) : Z * Z :=
  if (0 <=? e)%Z then (Z.shiftl (Zpos m) e, 0%Z)
  else (Z.shiftr (Zpos m) (- e), (Zpos m `mod` 2 ^ (- e))%Z).

Definition f_map_integer (up : bool → Z → Z → Z → bool) (f : float64) : float64 :=
  match f with
  | S754_finite s m e =>
      let '(q, r) := f_trunc_parts m e in
      let q' := if up s q r (2 ^ (- e))%Z then (q + 1)%Z else q in
      binary_normalize prec emax (if s then - q' else q') 0 s
  | _ => f
  end.

(** [math.Floor], [math.Ceil] and [math.Round] (halves away from zero) decide
    whether the magnitude of the integer part is increased. *)
Definition f_floor : float64 → float64 := f_map_integer (λ s _ r _, s && negb (r =? 0)%Z).
Definition f_ceil : float64 → float64 := f_map_integer (λ s _ r _, negb s && negb (r =? 0)%Z).
Definition f_round : float64 → float64 :=
  f_map_integer (λ _ _ r d, negb (r =? 0)%Z && (d <=? 2 * r)%Z).

(** ** [strconv.ParseFloat(s, 64)] *)

Definition lower_ascii (c : ascii) : ascii :=
  if byte_between "A" "Z" c then ascii_of_N (N_of_ascii c + 32) else c.

Fixpoint str_map (f : ascii → ascii) (s : string) : string :=
  match s with EmptyString => EmptyString | String c s' => String (f c) (str_map f s') end.

Definition digit_val (c : ascii) : Z := Z.of_N (N_of_ascii c) - 48.
Definition isHexLetter (c : ascii) : bool := byte_between "a" "f" (lower_ascii c).
Definition hex_val (c : ascii) : Z :=
  if isDigit c then digit_val c else Z.of_N (N_of_ascii (lower_ascii c)) - 87.

(** The mantissa loop of [readFloat]: value of the digits, digits after the
    point, whether a digit, a point or an underscore was seen, and the rest. *)
Record mantissa := mkMant {
  mt_val : Z; mt_frac : Z; mt_digits : bool; mt_dot : bool; mt_under : bool;
}.

Fixpoint read_mantissa (hex : bool) (s : string) (m : mantissa) : mantissa * string :=
  match s with
  | EmptyString => (m, s)
  | String c s' =>
      let base := if hex then 16%Z else 10%Z in
      if Ascii.eqb c "_" then
        read_mantissa hex s' (mkMant (mt_val m) (mt_frac m) (mt_digits m) (mt_dot m) true)
      else if Ascii.eqb c "." then
        if mt_dot m then (m, s)
        else read_mantissa hex s' (mkMant (mt_val m) (mt_frac m) (mt_digits m) true (mt_under m))
      else if isDigit c || hex && isHexLetter c then
        read_mantissa hex s'
          (mkMant (mt_val m * base + hex_val c)%Z
             (if mt_dot m then mt_frac m + 1 else mt_frac m)%Z true (mt_dot m) (mt_under m))
      else (m, s)
  end.

(** Exponent digits, capped as the code caps them; the rest must be empty. *)
Fixpoint read_exponent (s : string) (e : Z) (under : bool) : option (Z * bool) :=
  match s with
  | EmptyString => Some (e, under)
  | String c s' =>
      if Ascii.eqb c "_" then read_exponent s' e true
      else if isDigit c then
        read_exponent s' (if (e <? 10000)%Z then e * 10 + digit_val c else e)%Z under
      else None
  end.

Definition signed_exponent (s : string) : option (Z * bool) :=
  let '(sgn, s1) :=
    match s with
    | String "+" s' => (1%Z, s')
    | String "-" s' => ((-1)%Z, s')
    | _ => (1%Z, s)
    end in
  match s1 with
  | String c _ => if isDigit c then '(e, u) ← read_exponent s1 0 false; Some (sgn * e, u)%Z else None
  | EmptyString => None
  end.

(** [underscoreOK]: an underscore only between digits, or after a base prefix. *)
Fixpoint underscore_scan (hex : bool) (i : ascii) (s : string) : bool :=
  match s with
  | EmptyString => negb (Ascii.eqb i "_")
  | String c s' =>
      if isDigit c || hex && isHexLetter c then underscore_scan hex "0" s'
      else if Ascii.eqb c "_" then
        if Ascii.eqb i "0" then underscore_scan hex "_" s' else false
      else if Ascii.eqb i "_" then false
      else underscore_scan hex "!" s'
  end.

Definition drop_sign (s : string) : bool * string :=
  match s with
  | String "+" s' => (false, s')
  | String "-" s' => (true, s')
  | _ => (false, s)
  end.

Definition base_prefix (s : string) : option string :=
  match s with
  | String "0" (String x s') => if Ascii.eqb (lower_ascii x) "x" then Some s' else None
  | _ => None
  end.

Definition underscoreOK (s : string) : bool :=
  let s1 := snd (drop_sign s) in
  match s1 with
  | String "0" (String x s') =>
      if Ascii.eqb (lower_ascii x) "x" then underscore_scan true "0" s'
      else if existsb (Ascii.eqb (lower_ascii x)) ["b"; "o"]%char then underscore_scan false "0" s'
      else underscore_scan false "^" s1
  | _ => underscore_scan false "^" s1
  end.

Definition special_float (s : string) : option float64 :=
  let '(neg, s1) := drop_sign s in
  let l := str_map lower_ascii s1 in
  if String.eqb l "inf" || String.eqb l "infinity" then Some (S754_infinity neg)
  else if String.eqb (str_map lower_ascii s) "nan" then Some S754_nan
  else None.

Definition assemble (neg hex : bool) (m : mantissa) (e : Z) : float64 :=
  match mt_val m with
  | Z0 => S754_zero neg
  | Zneg _ => S754_nan
  | Zpos d =>
      if hex then binary_normalize prec emax (if neg then Zneg d else Zpos d) (e - 4 * mt_frac m) neg
      else
        let k := (e - mt_frac m)%Z in
        match k with
        | Zneg p => f_of_ratio neg d (Pos.pow 10 p)
        | _ => binary_normalize prec emax ((if neg then Zneg d else Zpos d) * 10 ^ k) 0 neg
        end
  end.

(** [None] is a non-nil error, syntax or range. *)
Definition ParseFloat (s : string) : option float64 :=
  match special_float s with
  | Some f => Some f
  | None =>
      let '(neg, s1) := drop_sign s in
      let '(hex, s2) := match base_prefix s1 with Some s' => (true, s') | None => (false, s1) end in
      let '(m, s3) := read_mantissa hex s2 (mkMant 0 0 false false false) in
      if negb (mt_digits m) then None
      else
        let exponent :=
          match s3 with
          | EmptyString => if hex then None else Some (0%Z, false)
          | String c s4 =>
              if Ascii.eqb (lower_ascii c) (if hex then "p" else "e")%char
              then signed_exponent s4 else None
          end in
        '(e, u) ← exponent;
        if (mt_under m || u) && negb (underscoreOK s) then None
        else
          let f := assemble neg hex m e in
          if f_is_inf f then None else Some f
  end.

Example parse_ex1 : ParseFloat "0.1" = Some (S754_finite false 7205759403792794 (-56)).
Proof. reflexivity. Qed.
Example parse_ex2 : ParseFloat "1e400" = None.
Proof. reflexivity. Qed.
Example parse_ex3 : ParseFloat "1." = Some (f_of_Z 1).
Proof. reflexivity. Qed.
Example parse_ex4 : ParseFloat "-0x1.8p1" = Some (f_of_Z (-3)).
Proof. reflexivity. Qed.
Example parse_ex5 : ParseFloat "1_000" = Some (f_of_Z 1000) ∧ ParseFloat "1__0" = None.
Proof. split; reflexivity. Qed.
Example parse_ex6 : ParseFloat "1.5x" = None ∧ ParseFloat "" = None ∧ ParseFloat "." = None.
Proof. repeat split; reflexivity. Qed.
Example mod_ex : f_mod (f_of_Z (-7)) (f_of_Z 3) = f_of_Z (-1).
Proof. reflexivity. Qed.
Example round_ex : f_round (f_div (f_of_Z (-5)) (f_of_Z 2)) = f_of_Z (-3) ∧
  f_floor (f_div (f_of_Z (-5)) (f_of_Z 2)) = f_of_Z (-3) ∧
  f_ceil (f_div (f_of_Z 5) (f_of_Z 2)) = f_of_Z 3.
Proof. repeat split; reflexivity. Qed.
