(* ===== verification/GoValue.v ===== *)
(** * Dynamic values and the operators of the expression engine

    Models src/validation/expression/helper.go: the values an expression works
    on (Go's [any]), [estimateSize], [toNumber], the operator handlers [add] to
    [not] and the argument validators.  Values are those of the types the engine
    itself inspects; a slice or map carries the address of its backing store
    because [reflect.DeepEqual] compares it (0 is the nil slice or map). *)

From stdpp Require Import base tactics option list strings numbers.
From Stdlib Require Import ZArith SpecFloat Ascii.
From S2P Require Import Prelude Lexer Float64.
Open Scope go_scope.
Set Warnings "-register-all".

Inductive IntKind :=
| KInt | KInt8 | KInt16 | KInt32 | KInt64 | KUint | KUint8 | KUint16 | KUint32 | KUint64.

#[global] Instance IntKind_eq_dec : EqDecision IntKind.
Proof. solve_decision. Defined.

(** The three fields of [time.Time]; [tm_loc] identifies the [*Location] up to
    deep equality. *)
Record GoTime := mkTime { tm_wall : Z; tm_ext : Z; tm_loc : N }.

#[global] Instance GoTime_eq_dec : EqDecision GoTime.
Proof. solve_decision. Defined.

Inductive Value :=
| VNil
| VBool (b : bool)
| VInt (k : IntKind) (n : Z)
| VFloat32 (f : spec_float)
| VFloat64 (f : float64)
| VString (s : string)
| VTime (t : GoTime)
| VBytes (ptr : N) (b : string)
| VStrings (ptr : N) (l : list string)
| VSlice (ptr : N) (l : list Value)
| VMap (ptr : N) (m : list (string * Value)).

(** The type name [%T] prints. *)
Definition typeName (v : Value) : string :=
  match v with
  | VNil => "<nil>"
  | VBool _ => "bool"
  | VInt k _ =>
      match k with
      | KInt => "int" | KInt8 => "int8" | KInt16 => "int16" | KInt32 => "int32" | KInt64 => "int64"
      | KUint => "uint" | KUint8 => "uint8" | KUint16 => "uint16" | KUint32 => "uint32"
      | KUint64 => "uint64"
      end
  | VFloat32 _ => "float32"
  | VFloat64 _ => "float64"
  | VString _ => "string"
  | VTime _ => "time.Time"
  | VBytes _ _ => "[]uint8"
  | VStrings _ _ => "[]string"
  | VSlice _ _ => "[]interface {}"
  | VMap _ _ => "map[string]interface {}"
  end.

(** Every error value the evaluator can return, wrapping included. *)
Inductive eval_error :=
| InvalidOperands (op left_type right_type : string)
| InvalidOperand (op right_type : string)
| DivisionByZero
| ModuloByZero
| ExpectedArguments (want got : nat)
| ExpectedType (what got_type : string)
| FirstArgumentBool (got_type : string)
| CannotConvert (src_type : string)
| UndefinedVariable (name : string)
| LeftOperandError (e : eval_error)
| RightOperandError (e : eval_error)
| OperatorError (op : string) (e : eval_error)
| FunctionNotRegistered (name : string)
| ArgumentError (i : nat) (name : string) (e : eval_error)
| InvalidArguments (name : string) (e : eval_error)
| NotEnoughArguments (name : string) (want got : nat)
| NoReturnValue
| HandlerError (msg : string)
| ContextDone.

#[global] Instance eval_error_eq_dec : EqDecision eval_error.
Proof. solve_decision. Defined.

(** ** [estimateSize] *)

Fixpoint estimateSize (v : Value) : Z :=
  match v with
  | VString s => Z.of_nat (String.length s)
  | VBytes _ b => Z.of_nat (String.length b)
  | VSlice _ l => (fix sum l := match l with [] => 0 | x :: l' => estimateSize x + sum l' end)%Z l
  | VMap _ m =>
      (fix sum m := match m with
         | [] => 0
         | (k, x) :: m' => Z.of_nat (String.length k) + estimateSize x + sum m'
         end)%Z m
  | _ => 8%Z
  end.

(** ** [reflect.DeepEqual] on these values *)

Fixpoint assoc {A} (k : string) (m : list (string * A)) : option A :=
  match m with [] => None | (k', x) :: m' => if String.eqb k k' then Some x else assoc k m' end.

Lemma assoc_elem {A} k (m : list (string * A)) x : assoc k m = Some x → (k, x) ∈ m.
Proof.
  induction m as [|[k' y] m IH]; simpl; [done|].
  destruct (String.eqb k k') eqn:E; intros; simplify_eq; [|right; auto].
  apply String.eqb_eq in E as ->. left.
Qed.

Fixpoint deepEqual (v w : Value) : bool :=
  match v, w with
  | VNil, VNil => true
  | VBool a, VBool b => Bool.eqb a b
  | VInt k a, VInt k' b => bool_decide (k = k') && (a =? b)%Z
  | VFloat32 a, VFloat32 b => f_eqb a b
  | VFloat64 a, VFloat64 b => f_eqb a b
  | VString a, VString b => String.eqb a b
  | VTime a, VTime b => bool_decide (a = b)
  | VBytes p a, VBytes q b => Bool.eqb (p =? 0)%N (q =? 0)%N && String.eqb a b
  | VStrings p a, VStrings q b => Bool.eqb (p =? 0)%N (q =? 0)%N && bool_decide (a = b)
  | VSlice p a, VSlice q b =>
      Bool.eqb (p =? 0)%N (q =? 0)%N && (length a =? length b) &&
      ((p =? q)%N ||
       (fix all a b := match a, b with
          | x :: a', y :: b' => deepEqual x y && all a' b'
          | [], [] => true
          | _, _ => false
          end) a b)
  | VMap p a, VMap q b =>
      Bool.eqb (p =? 0)%N (q =? 0)%N && (length a =? length b) &&
      ((p =? q)%N ||
       (fix all a := match a with
          | (k, x) :: a' =>
              match assoc k b with Some y => deepEqual x y | None => false end && all a'
          | [] => true
          end) a)
  | _, _ => false
  end.

(** ** Conversions *)

Definition toNumber (v : Value) : option float64 :=
  match v with
  | VInt _ n => Some (f_of_Z n)
  | VFloat32 f => Some f
  | VFloat64 f => Some f
  | VString s => ParseFloat s
  | _ => None
  end.

(** [strconv.ParseBool] *)
Definition ParseBool (s : string) : option bool :=
  if existsb (String.eqb s) ["1"; "t"; "T"; "TRUE"; "true"; "True"]%string then Some true
  else if existsb (String.eqb s) ["0"; "f"; "F"; "FALSE"; "false"; "False"]%string then Some false
  else None.

Definition toBoolean (v : Value) : res eval_error bool :=
  match v with
  | VBool b => Ok b
  | VString s => of_opt (ParseBool s) (HandlerError s)
  | VInt KInt n => Ok (negb (n =? 0)%Z)
  | VFloat64 f => Ok (negb (f_eqb f f_zero))
  | _ => Err (CannotConvert (typeName v))
  end.

(** ** Operator handlers *)

Definition numeric (op : string) (f : float64 → float64 → res eval_error Value) (left right : Value)
    : res eval_error Value :=
  match toNumber left, toNumber right with
  | Some ln, Some rn => f ln rn
  | _, _ => Err (InvalidOperands op (typeName left) (typeName right))
  end.

Definition add (left right : Value) : res eval_error Value :=
  match left, right with
  | VString ls, VString rs => Ok (VString (ls +:+ rs))
  | _, _ => numeric "+" (λ ln rn, Ok (VFloat64 (f_add ln rn))) left right
  end.

Definition subtract : Value → Value → res eval_error Value :=
  numeric "-" (λ ln rn, Ok (VFloat64 (f_sub ln rn))).

Definition multiply : Value → Value → res eval_error Value :=
  numeric "*" (λ ln rn, Ok (VFloat64 (f_mul ln rn))).

Definition divide : Value → Value → res eval_error Value :=
  numeric "/" (λ ln rn, if f_eqb rn f_zero then Err DivisionByZero else Ok (VFloat64 (f_div ln rn))).

Definition modulo : Value → Value → res eval_error Value :=
  numeric "%" (λ ln rn, if f_eqb rn f_zero then Err ModuloByZero else Ok (VFloat64 (f_mod ln rn))).

Definition equal (left right : Value) : res eval_error Value := Ok (VBool (deepEqual left right)).
Definition notEqual (left right : Value) : res eval_error Value :=
  Ok (VBool (negb (deepEqual left right))).

Definition greater : Value → Value → res eval_error Value :=
  numeric ">" (λ ln rn, Ok (VBool (f_ltb rn ln))).
Definition greaterEqual : Value → Value → res eval_error Value :=
  numeric ">=" (λ ln rn, Ok (VBool (f_leb rn ln))).
Definition less : Value → Value → res eval_error Value :=
  numeric "<" (λ ln rn, Ok (VBool (f_ltb ln rn))).
Definition lessEqual : Value → Value → res eval_error Value :=
  numeric "<=" (λ ln rn, Ok (VBool (f_leb ln rn))).

Definition and_op (left right : Value) : res eval_error Value :=
  match left, right with
  | VBool lb, VBool rb => Ok (VBool (lb && rb))
  | _, _ => Err (InvalidOperands "&&" (typeName left) (typeName right))
  end.

Definition or_op (left right : Value) : res eval_error Value :=
  match left, right with
  | VBool lb, VBool rb => Ok (VBool (lb || rb))
  | _, _ => Err (InvalidOperands "||" (typeName left) (typeName right))
  end.

Definition not_op (_ right : Value) : res eval_error Value :=
  match right with
  | VBool b => Ok (VBool (negb b))
  | _ => Err (InvalidOperand "!" (typeName right))
  end.

(** ** Argument validators

    The kind of a nil [any] is asked of a nil [reflect.Type], which panics. *)

Definition expect_len (n : nat) (args : list Value) : res eval_error () :=
  if length args =? n then Ok tt else Err (ExpectedArguments n (length args)).

Definition validateOneNumber (args : list Value) : res eval_error () :=
  let! _ := expect_len 1 args in
  match args with
  | a :: _ => if is_some_b (toNumber a) then Ok tt else Err (ExpectedType "number" (typeName a))
  | [] => Panic
  end.

Definition validateOneString (args : list Value) : res eval_error () :=
  let! _ := expect_len 1 args in
  match args with
  | VString _ :: _ => Ok tt
  | a :: _ => Err (ExpectedType "string" (typeName a))
  | [] => Panic
  end.

Definition validateOneArray (args : list Value) : res eval_error () :=
  let! _ := expect_len 1 args in
  match args with
  | VNil :: _ | [] => Panic
  | (VBytes _ _ | VStrings _ _ | VSlice _ _) :: _ => Ok tt
  | a :: _ => Err (ExpectedType "array" (typeName a))
  end.

Definition validateThreeArgs (args : list Value) : res eval_error () :=
  let! _ := expect_len 3 args in
  match args with
  | VBool _ :: _ => Ok tt
  | a :: _ => Err (FirstArgumentBool (typeName a))
  | [] => Panic
  end.

(** ** The operator table ([registerDefaultOperators]) *)

Record Operator := mkOperator {
  op_Name : string;
  op_Precedence : Z;
  op_Handler : Value → Value → res eval_error Value;
}.

Definition default_operators : list (string * Operator) :=
  let entry name prec h := (name, mkOperator name prec h) in
  [entry "+" 10 add; entry "-" 10 subtract;
   entry "*" 20 multiply; entry "/" 20 divide; entry "%" 20 modulo;
   entry "==" 7 equal; entry "!=" 7 notEqual;
   entry ">" 8 greater; entry ">=" 8 greaterEqual; entry "<" 8 less; entry "<=" 8 lessEqual;
   entry "&&" 5 and_op; entry "||" 4 or_op; entry "!" 3 not_op]%string%Z.

(** ** Facts about the handlers *)

Lemma numeric_total op f l r :
  (∀ a b, is_Panic (f a b) = false) → is_Panic (numeric op f l r) = false.
Proof. intros H. unfold numeric. repeat case_match; try done; apply H. Qed.

(** No default handler panics or loops. *)
Lemma default_handlers_safe name o l r :
  (name, o) ∈ default_operators →
  is_Panic (op_Handler o l r) = false ∧ op_Handler o l r ≠ NoFuel.
Proof.
  intros H. apply list_elem_of_In in H. simpl in H.
  repeat destruct H as [H|H]; simplify_eq; try done; cbn [op_Handler];
    unfold add, subtract, multiply, divide, modulo, equal, notEqual, greater, greaterEqual,
      less, lessEqual, and_op, or_op, not_op, numeric;
    repeat case_match; done.
Qed.

Lemma less_greater l r v : less l r = Ok v ↔ greater r l = Ok v.
Proof. unfold less, greater, numeric. by destruct (toNumber l), (toNumber r). Qed.

(** Structural induction with the element hypothesis for slices and maps. *)
Lemma Value_ind' (P : Value → Prop)
  (Hnil : P VNil) (Hbool : ∀ b, P (VBool b)) (Hint : ∀ k n, P (VInt k n))
  (Hf32 : ∀ f, P (VFloat32 f)) (Hf64 : ∀ f, P (VFloat64 f)) (Hstr : ∀ s, P (VString s))
  (Htime : ∀ t, P (VTime t)) (Hbytes : ∀ p b, P (VBytes p b)) (Hstrs : ∀ p l, P (VStrings p l))
  (Hslice : ∀ p l, Forall P l → P (VSlice p l))
  (Hmap : ∀ p m, Forall (λ e, P (snd e)) m → P (VMap p m)) : ∀ v, P v.
Proof.
  fix IH 1. intros v. destruct v as [|b|k n|f|f|s|t|p b|p l|p l|p m].
  1: exact Hnil. 1: apply Hbool. 1: apply Hint. 1: apply Hf32. 1: apply Hf64. 1: apply Hstr.
  1: apply Htime. 1: apply Hbytes. 1: apply Hstrs.
  - apply Hslice. induction l as [|x l IHl]; constructor; [apply IH|exact IHl].
  - apply Hmap. induction m as [|[k x] m IHm]; constructor; [apply IH|exact IHm].
Qed.

Lemma estimateSize_nonneg v : (0 ≤ estimateSize v)%Z.
Proof.
  induction v using Value_ind'; simpl; try lia.
  - induction H; lia.
  - induction H as [|[k x] m Hx _ IH]; simpl in *; lia.
Qed.
