(* ===== verification/Parser.v ===== *)
(** * The parser of the expression engine

    Models the precedence-climbing parser of src/validation/expression/expression.go:
    the AST nodes and [parse] with [parseExpression], [parseBinaryExpression],
    [parsePrimaryExpression] and [parseFunctionCall].  The parser object is
    [pstate] (its mutable fields [current] and [depth]); the token slice, the
    operator table and [MaxDepth] do not change during a parse. *)

From stdpp Require Import base tactics option list gmap strings numbers.
From Stdlib Require Import ZArith Lia.
From S2P Require Import Prelude Lexer Float64 GoValue.
Open Scope go_scope.
Set Warnings "-register-all".

Inductive Node :=
| NumberNode (value : float64)
| StringNode (value : string)
| IdentifierNode (name : string)
| BinaryOpNode (left : Node) (op : Operator) (right : Node)
| FunctionCallNode (name : string) (args : list Node).

Inductive parse_error :=
| MaxDepthExceeded
| InvalidNumber (text : string)
| UnexpectedToken (t : Token)
| ExpectedRParen
| UnexpectedEnd
| ExpectedComma.

#[global] Instance parse_error_eq_dec : EqDecision parse_error.
Proof. solve_decision. Defined.

Record pstate := mkP { current : nat; depth : Z }.

Section Parser.
Context (tokens : list (option Token)) (operators : gmap string Operator) (MaxDepth : Z).

(** [p.tokens[i]] dereferenced: out of range and nil both panic. *)
Definition tok_at (i : nat) : res parse_error Token :=
  match tokens !! i with Some (Some t) => Ok t | _ => Panic end.

Definition advance (st : pstate) : pstate := mkP (S (current st)) (depth st).

Fixpoint parseExpression (fuel : nat) (st : pstate) {struct fuel} : res parse_error (Node * pstate) :=
  match fuel with
  | O => NoFuel
  | S fuel =>
      let st1 := mkP (current st) (depth st + 1) in
      if (0 <? MaxDepth)%Z && (MaxDepth <? depth st1)%Z then Err MaxDepthExceeded
      else
        let! (n, st2) := parseBinaryExpression fuel 0 st1 in
        Ok (n, mkP (current st2) (depth st2 - 1))
  end

with parseBinaryExpression (fuel : nat) (precedence : Z) (st : pstate) {struct fuel}
    : res parse_error (Node * pstate) :=
  match fuel with
  | O => NoFuel
  | S fuel =>
      let! (lhs, st1) := parsePrimaryExpression fuel st in
      binaryLoop fuel precedence lhs st1
  end

(** The [for] loop of [parseBinaryExpression]. *)
with binaryLoop (fuel : nat) (precedence : Z) (left : Node) (st : pstate) {struct fuel}
    : res parse_error (Node * pstate) :=
  match fuel with
  | O => NoFuel
  | S fuel =>
      if length tokens <=? current st then Ok (left, st)
      else
        let! token := tok_at (current st) in
        if bool_decide (tType token = TokenOperator) then
          match operators !! tValue token with
          | Some op =>
              if (op_Precedence op <? precedence)%Z then Ok (left, st)
              else
                let! (rhs, st1) := parseBinaryExpression fuel (op_Precedence op + 1) (advance st) in
                binaryLoop fuel precedence (BinaryOpNode left op rhs) st1
          | None => Ok (left, st)
          end
        else Ok (left, st)
  end

with parsePrimaryExpression (fuel : nat) (st : pstate) {struct fuel}
    : res parse_error (Node * pstate) :=
  match fuel with
  | O => NoFuel
  | S fuel =>
      let! token := tok_at (current st) in
      let st1 := advance st in
      match tType token with
      | TokenNumber =>
          match ParseFloat (tValue token) with
          | Some value => Ok (NumberNode value, st1)
          | None => Err (InvalidNumber (tValue token))
          end
      | TokenString => Ok (StringNode (tValue token), st1)
      | TokenIdentifier =>
          if current st1 <? length tokens then
            let! next := tok_at (current st1) in
            if bool_decide (tType next = TokenLParen)
            then parseFunctionCall fuel (tValue token) st1
            else Ok (IdentifierNode (tValue token), st1)
          else Ok (IdentifierNode (tValue token), st1)
      | TokenLParen =>
          let! (expr, st2) := parseExpression fuel st1 in
          if length tokens <=? current st2 then Err ExpectedRParen
          else
            let! close := tok_at (current st2) in
            if bool_decide (tType close = TokenRParen) then Ok (expr, advance st2)
            else Err ExpectedRParen
      | _ => Err (UnexpectedToken token)
      end
  end

with parseFunctionCall (fuel : nat) (name : string) (st : pstate) {struct fuel}
    : res parse_error (Node * pstate) :=
  match fuel with
  | O => NoFuel
  | S fuel =>
      let! (args, st1) := argsLoop fuel [] (advance st) in
      Ok (FunctionCallNode name args, st1)
  end

(** The [for] loop of [parseFunctionCall]. *)
with argsLoop (fuel : nat) (args : list Node) (st : pstate) {struct fuel}
    : res parse_error (list Node * pstate) :=
  match fuel with
  | O => NoFuel
  | S fuel =>
      if length tokens <=? current st then Err UnexpectedEnd
      else
        let! token := tok_at (current st) in
        if bool_decide (tType token = TokenRParen) then Ok (args, advance st)
        else
          let! st1 :=
            (if 0 <? length args then
               if bool_decide (tType token = TokenComma) then Ok (advance st) else Err ExpectedComma
             else Ok st) in
          let! (arg, st2) := parseExpression fuel st1 in
          argsLoop fuel (args ++ [arg]) st2
  end.

Definition parse (fuel : nat) : res parse_error Node :=
  let! (n, _) := parseExpression fuel (mkP 0 0) in Ok n.

(** Fuel that is always enough: every token is consumed through at most four
    nested calls. *)
Definition parse_fuel : nat := 4 * length tokens + 5.

End Parser.

Definition op_table (l : list (string * Operator)) : gmap string Operator := list_to_map l.
Definition default_table : gmap string Operator := op_table default_operators.

Definition parse_string (depth : Z) (s : string) : res parse_error Node :=
  match tokenize (lex_fuel s) s with
  | Ok toks => parse toks default_table depth (parse_fuel toks)
  | _ => NoFuel
  end.

Example parse_example :
  match parse_string 10 "a - b * (c - 1) - d" with
  | Ok (BinaryOpNode
          (BinaryOpNode (IdentifierNode "a") m1
             (BinaryOpNode (IdentifierNode "b") t (BinaryOpNode (IdentifierNode "c") m2 (NumberNode _))))
          m3 (IdentifierNode "d")) =>
      map op_Name [m1; t; m2; m3] = ["-"; "*"; "-"; "-"]%string
  | _ => False
  end.
Proof. vm_compute. reflexivity. Qed.

(** ** Safety and termination *)

(** What [tokenize] returns: non-nil tokens, the last one EOF and no other. *)
Definition wf_tokens (tokens : list (option Token)) (n : nat) : Prop :=
  length tokens = S n ∧
  ∀ i, i ≤ n → ∃ t, tokens !! i = Some (Some t) ∧ (tType t ≠ TokenEOF → i < n).

Definition okres {A} (lo hi : nat) (d : Z) (r : res parse_error (A * pstate)) : Prop :=
  match r with
  | Ok (_, st) => lo ≤ current st ≤ hi ∧ depth st = d
  | Err _ => True
  | Panic | NoFuel => False
  end.

Lemma okres_bind {A B} lo lo' hi d d' (c : res parse_error (A * pstate)) (k : A * pstate → res parse_error (B * pstate)) :
  okres lo hi d c →
  (∀ a st, lo ≤ current st ≤ hi → depth st = d → okres lo' hi d' (k (a, st))) →
  okres lo' hi d' (rbind c k).
Proof. destruct c as [[a st]| | |]; simpl; try done. intros [Hlo Hd] Hk. by apply Hk. Qed.

Lemma okres_weaken {A} lo lo' hi d (c : res parse_error (A * pstate)) :
  okres lo hi d c → lo' ≤ lo → okres lo' hi d c.
Proof. destruct c as [[a st]| | |]; simpl; try done. intros [Hlo Hd] Hle. split; [lia|done]. Qed.

Section Safety.
Context (tokens : list (option Token)) (operators : gmap string Operator) (MaxDepth : Z).
Context (N : nat) (Hwf : wf_tokens tokens N).

Lemma tok_at_wf i : i ≤ N → ∃ t, tok_at tokens i = Ok t ∧ (tType t ≠ TokenEOF → i < N).
Proof.
  intros Hi. destruct Hwf as [_ H]. destruct (H i Hi) as (t & Ht & Hlt).
  exists t. unfold tok_at. by rewrite Ht.
Qed.

Lemma length_tokens_leb i : i ≤ N → (length tokens <=? i) = false.
Proof. destruct Hwf as [-> _]. intros. apply Nat.leb_gt. lia. Qed.

(** With four units of fuel per remaining token no call runs out of fuel, reads
    outside the token slice or leaves [depth] changed, and every successful call
    makes progress. *)
Lemma parser_safe fuel :
  (∀ st, current st ≤ N → 4 * (N - current st) + 4 ≤ fuel →
     okres (S (current st)) N (depth st) (parseExpression tokens operators MaxDepth fuel st)) ∧
  (∀ p st, current st ≤ N → 4 * (N - current st) + 3 ≤ fuel →
     okres (S (current st)) N (depth st) (parseBinaryExpression tokens operators MaxDepth fuel p st)) ∧
  (∀ p l st, current st ≤ N → 4 * (N - current st) + 2 ≤ fuel →
     okres (current st) N (depth st) (binaryLoop tokens operators MaxDepth fuel p l st)) ∧
  (∀ st, current st ≤ N → 4 * (N - current st) + 2 ≤ fuel →
     okres (S (current st)) N (depth st) (parsePrimaryExpression tokens operators MaxDepth fuel st)) ∧
  (∀ nm st, current st < N → 4 * (N - current st) + 2 ≤ fuel →
     okres (S (current st)) N (depth st) (parseFunctionCall tokens operators MaxDepth fuel nm st)) ∧
  (∀ args st, current st ≤ N → 4 * (N - current st) + 5 ≤ fuel →
     okres (S (current st)) N (depth st) (argsLoop tokens operators MaxDepth fuel args st)).
Proof.
  induction fuel as [|fuel (IHE & IHB & IHL & IHP & IHF & IHA)]; [repeat split; intros; lia|].
  repeat split.
  - intros st Hc Hf. simpl. destruct (_ && _); [done|].
    eapply okres_bind; [apply IHB; simpl; lia|].
    intros n st2 Hc2 Hd2. simpl in *. lia.
  - intros p st Hc Hf. simpl. eapply okres_bind; [apply IHP; lia|].
    intros n st2 Hc2 Hd2. rewrite <- Hd2. eapply okres_weaken; [apply IHL; lia|lia].
  - intros p l st Hc Hf. simpl. rewrite (length_tokens_leb _ Hc).
    destruct (tok_at_wf _ Hc) as (t & -> & Ht). simpl.
    case_bool_decide as Hop; [|simpl; lia].
    assert (current st < N) as Hlt by (apply Ht; congruence).
    destruct (operators !! tValue t) as [op|]; [|simpl; lia].
    destruct (_ <? _)%Z; [simpl; lia|].
    eapply okres_bind; [apply IHB; simpl; lia|].
    intros n st2 Hc2 Hd2. simpl in *. rewrite <- Hd2. eapply okres_weaken; [apply IHL; lia|lia].
  - intros st Hc Hf. simpl. destruct (tok_at_wf _ Hc) as (t & -> & Ht). simpl.
    destruct (decide (tType t = TokenEOF)) as [->|Hne]; [done|].
    assert (current st < N) as Hlt by auto.
    destruct (tType t) eqn:Hty; try done; simpl.
    + destruct (ParseFloat (tValue t)); simpl; lia.
    + destruct (_ <? _) eqn:E; [|simpl; lia]. apply Nat.ltb_lt in E.
      destruct (tok_at_wf (S (current st))) as (t' & -> & Ht'); [lia|]. simpl.
      case_bool_decide as Hlp; [|simpl; lia].
      assert (S (current st) < N) by (apply Ht'; congruence).
      apply (okres_weaken (S (current (advance st)))); [apply (IHF _ (advance st)); simpl; lia|simpl; lia].
    + eapply okres_bind; [apply IHE; simpl; lia|].
      intros n st2 Hc2 Hd2. simpl in *. rewrite length_tokens_leb by lia.
      destruct (tok_at_wf (current st2)) as (t' & -> & Ht'); [lia|]. simpl.
      case_bool_decide as Hrp; [|done]. simpl.
      assert (current st2 < N) by (apply Ht'; congruence). lia.
  - intros nm st Hc Hf. simpl. eapply okres_bind; [apply IHA; simpl; lia|].
    intros n st2 Hc2 Hd2. simpl in *. lia.
  - intros args st Hc Hf. simpl. rewrite (length_tokens_leb _ Hc).
    destruct (tok_at_wf _ Hc) as (t & -> & Ht). simpl.
    case_bool_decide as Hrp.
    { assert (current st < N) by (apply Ht; congruence). simpl. lia. }
    assert (∀ st1, current st ≤ current st1 ≤ N → depth st1 = depth st →
      okres (S (current st)) N (depth st)
        (let! (arg, st2) := parseExpression tokens operators MaxDepth fuel st1 in
         argsLoop tokens operators MaxDepth fuel (args ++ [arg]) st2)) as Hgo.
    { intros st1 Hc1 Hd1. eapply okres_bind; [apply IHE; lia|].
      intros n st2 Hc2 Hd2. rewrite <- Hd1, <- Hd2. eapply okres_weaken; [apply IHA; lia|lia]. }
    destruct (0 <? length args); [|apply Hgo; [lia|done]].
    case_bool_decide as Hcm; [|done]. simpl. apply Hgo; [|done]. simpl.
    assert (current st < N) by (apply Ht; congruence). lia.
Qed.

End Safety.

(** More fuel does not change a result. *)
Section Mono.
Context (tokens : list (option Token)) (operators : gmap string Operator) (MaxDepth : Z).

Local Abbreviation stable x y := (x ≠ NoFuel → y = x).

Lemma rbind_stable {A B} (c c' : res parse_error A) (k k' : A → res parse_error B) :
  stable c c' → (∀ a, stable (k a) (k' a)) → stable (rbind c k) (rbind c' k').
Proof.
  intros Hc Hk Hn. destruct c as [a|e| |]; simpl in *; try done; rewrite Hc by done; simpl; auto.
Qed.

Lemma parser_mono fuel : ∀ fuel', fuel ≤ fuel' →
  (∀ st, stable (parseExpression tokens operators MaxDepth fuel st)
                (parseExpression tokens operators MaxDepth fuel' st)) ∧
  (∀ p st, stable (parseBinaryExpression tokens operators MaxDepth fuel p st)
                  (parseBinaryExpression tokens operators MaxDepth fuel' p st)) ∧
  (∀ p l st, stable (binaryLoop tokens operators MaxDepth fuel p l st)
                    (binaryLoop tokens operators MaxDepth fuel' p l st)) ∧
  (∀ st, stable (parsePrimaryExpression tokens operators MaxDepth fuel st)
                (parsePrimaryExpression tokens operators MaxDepth fuel' st)) ∧
  (∀ nm st, stable (parseFunctionCall tokens operators MaxDepth fuel nm st)
                   (parseFunctionCall tokens operators MaxDepth fuel' nm st)) ∧
  (∀ args st, stable (argsLoop tokens operators MaxDepth fuel args st)
                     (argsLoop tokens operators MaxDepth fuel' args st)).
Proof.
  induction fuel as [|fuel IH]; intros fuel' Hle; [repeat split; done|].
  destruct fuel' as [|fuel']; [lia|].
  destruct (IH fuel' ltac:(lia)) as (IHE & IHB & IHL & IHP & IHF & IHA). clear IH Hle.
  repeat split.
  - intros st. cbn [parseExpression].
    destruct (_ && _); [done|]. apply rbind_stable; [apply IHB|]. by intros [].
  - intros p st. cbn [parseBinaryExpression].
    apply rbind_stable; [apply IHP|]. intros []. apply IHL.
  - intros p l st. cbn [binaryLoop].
    destruct (_ <=? _); [done|]. apply rbind_stable; [done|]. intros t.
    case_bool_decide; [|done]. destruct (operators !! _) as [op|]; [|done].
    destruct (_ <? _)%Z; [done|]. apply rbind_stable; [apply IHB|]. intros []. apply IHL.
  - intros st. cbn [parsePrimaryExpression].
    apply rbind_stable; [done|]. intros t. destruct (tType t); try done.
    + destruct (_ <? _); [|done]. apply rbind_stable; [done|]. intros t'.
      case_bool_decide; [|done]. apply IHF.
    + apply rbind_stable; [apply IHE|]. by intros [].
  - intros nm st. cbn [parseFunctionCall]. apply rbind_stable; [apply IHA|]. by intros [].
  - intros args st. cbn [argsLoop].
    destruct (_ <=? _); [done|]. apply rbind_stable; [done|]. intros t.
    case_bool_decide; [done|]. apply rbind_stable; [done|]. intros st1.
    apply rbind_stable; [apply IHE|]. intros []. apply IHA.
Qed.

Lemma parseExpression_mono f f' st r :
  parseExpression tokens operators MaxDepth f st = r → r ≠ NoFuel → f ≤ f' →
  parseExpression tokens operators MaxDepth f' st = r.
Proof. intros <- Hn Hle. by apply (parser_mono f f' Hle). Qed.

End Mono.

(** ** Surface expressions and the minimal-parentheses printer *)

(** An expression as a user writes it, literals kept as text. *)
Inductive sexpr :=
| SNum (text : string)
| SStr (text : string)
| SIdent (name : string)
| SBin (l : sexpr) (op : string) (r : sexpr)
| SCall (name : string) (args : list sexpr).

Lemma sexpr_ind' (P : sexpr → Prop)
  (Hnum : ∀ t, P (SNum t)) (Hstr : ∀ t, P (SStr t)) (Hid : ∀ x, P (SIdent x))
  (Hbin : ∀ l op r, P l → P r → P (SBin l op r))
  (Hcall : ∀ f args, Forall P args → P (SCall f args)) : ∀ e, P e.
Proof.
  fix IH 1. intros e. destruct e as [t|t|x|l op r|f args].
  1: apply Hnum. 1: apply Hstr. 1: apply Hid.
  - apply Hbin; apply IH.
  - apply Hcall. induction args as [|a args IHa]; constructor; [apply IH|exact IHa].
Qed.

Section Printer.
Context (operators : gmap string Operator).

(** The tree an expression stands for. *)
Fixpoint denote (e : sexpr) : option Node :=
  match e with
  | SNum t => NumberNode <$> ParseFloat t
  | SStr t => Some (StringNode t)
  | SIdent x => Some (IdentifierNode x)
  | SBin l op r =>
      match operators !! op, denote l, denote r with
      | Some o, Some nl, Some nr => Some (BinaryOpNode nl o nr)
      | _, _, _ => None
      end
  | SCall f args =>
      FunctionCallNode f <$>
        (fix all (args : list sexpr) : option (list Node) := match args with
           | [] => Some []
           | a :: args' =>
               match denote a, all args' with Some n, Some ns => Some (n :: ns) | _, _ => None end
           end) args
  end.

Definition precedence_of (op : string) : Z :=
  match operators !! op with Some o => op_Precedence o | None => 0%Z end.

Definition parens (b : bool) (ls : list lexeme) : list lexeme :=
  if b then ls else [(TokenLParen, "("%string)] ++ ls ++ [(TokenRParen, ")"%string)].

Definition comma : lexeme := (TokenComma, ","%string).

(** [pp p e]: the lexemes of [e] where an operator of precedence at least [p] is
    expected; parentheses only around operators that bind more loosely. *)
Fixpoint pp (p : Z) (e : sexpr) : list lexeme :=
  match e with
  | SNum t => [(TokenNumber, t)]
  | SStr t => [(TokenString, t)]
  | SIdent x => [(TokenIdentifier, x)]
  | SBin l op r =>
      let q := precedence_of op in
      parens (p <=? q)%Z (pp q l ++ [(TokenOperator, op)] ++ pp (q + 1) r)
  | SCall f args =>
      [(TokenIdentifier, f); (TokenLParen, "("%string)] ++
      (fix sep (first : bool) (args : list sexpr) : list lexeme := match args with
         | [] => []
         | a :: args' => (if first then [] else [comma]) ++ pp 0 a ++ sep false args'
         end) true args ++
      [(TokenRParen, ")"%string)]
  end.

(** How many nested [parseExpression] calls its parentheses and calls need. *)
Fixpoint pp_depth (p : Z) (e : sexpr) : Z :=
  match e with
  | SBin l op r =>
      let q := precedence_of op in
      let inner := Z.max (pp_depth q l) (pp_depth (q + 1) r) in
      if (p <=? q)%Z then inner else (1 + inner)%Z
  | SCall _ args =>
      (fix deep (args : list sexpr) : Z := match args with
         | [] => 0
         | a :: args' => Z.max (1 + pp_depth 0 a) (deep args')
         end)%Z args
  | _ => 0%Z
  end.

Fixpoint denote_list (args : list sexpr) : option (list Node) :=
  match args with
  | [] => Some []
  | a :: args' =>
      match denote a, denote_list args' with Some n, Some ns => Some (n :: ns) | _, _ => None end
  end.

Fixpoint pp_args (first : bool) (args : list sexpr) : list lexeme :=
  match args with
  | [] => []
  | a :: args' => (if first then [] else [comma]) ++ pp 0 a ++ pp_args false args'
  end.

Fixpoint pp_depth_args (args : list sexpr) : Z :=
  match args with
  | [] => 0
  | a :: args' => Z.max (1 + pp_depth 0 a) (pp_depth_args args')
  end%Z.

Lemma denote_call f args : denote (SCall f args) = FunctionCallNode f <$> denote_list args.
Proof. reflexivity. Qed.

Lemma pp_call p f args :
  pp p (SCall f args) =
  [(TokenIdentifier, f); (TokenLParen, "("%string)] ++ pp_args true args ++ [(TokenRParen, ")"%string)].
Proof. reflexivity. Qed.

Lemma pp_depth_call p f args : pp_depth p (SCall f args) = pp_depth_args args.
Proof. reflexivity. Qed.

Lemma pp_depth_nonneg p e : (0 ≤ pp_depth p e)%Z.
Proof.
  revert p; induction e using sexpr_ind'; intros p; simpl; try lia.
  - specialize (IHe1 (precedence_of op)). destruct (_ <=? _)%Z; lia.
  - fold (pp_depth_args args). induction H; simpl; lia.
Qed.

End Printer.

(** ** The parser reads the printer's output back *)

Section RoundTrip.
Context (tokens : list (option Token)) (operators : gmap string Operator) (MaxDepth : Z).
Context (Hnonneg : ∀ x o, operators !! x = Some o → (0 ≤ op_Precedence o)%Z).

Local Abbreviation pp := (pp operators).
Local Abbreviation denote := (denote operators).
Local Abbreviation pp_depth := (pp_depth operators).

(** The tokens from index [i] on are the lexemes [ls]. *)
Definition At (i : nat) (ls : list lexeme) : Prop :=
  drop i (map (option_map lexeme_of) tokens) = map Some ls.

Lemma At_cons i l ls :
  At i (l :: ls) → (∃ t, tok_at tokens i = Ok t ∧ lexeme_of t = l) ∧ i < length tokens ∧ At (S i) ls.
Proof.
  unfold At. intros H.
  assert (drop i (map (option_map lexeme_of) tokens) !! 0 = Some (Some l)) as H0 by (by rewrite H).
  rewrite lookup_drop, Nat.add_0_r in H0. change map with (@fmap list _) in H0.
  rewrite list_lookup_fmap in H0.
  destruct (tokens !! i) as [[t|]|] eqn:Ht; simplify_eq/=.
  split; [|split].
  - exists t. unfold tok_at. by rewrite Ht.
  - by eapply lookup_lt_Some.
  - replace (S i) with (i + 1) by lia. rewrite <- drop_drop, H. done.
Qed.

Lemma At_length i ls : At i ls → i ≤ length tokens → length tokens = i + length ls.
Proof.
  unfold At. intros H Hle. apply (f_equal length) in H.
  rewrite length_drop, !length_map in H. lia.
Qed.

(** [rest] cannot be taken into an expression whose context is [q]. *)
Definition follow (q : Z) (rest : list lexeme) : Prop :=
  match rest with
  | (TokenOperator, v) :: _ =>
      match operators !! v with Some o => (op_Precedence o ≤ q)%Z | None => True end
  | (TokenLParen, _) :: _ => False
  | _ => True
  end.

Lemma follow_mono q q' rest : follow q rest → (q ≤ q')%Z → follow q' rest.
Proof.
  unfold follow. repeat case_match; try done. lia.
Qed.

Definition depth_ok (d n : Z) : Prop := (MaxDepth ≤ 0 ∨ d + n ≤ MaxDepth)%Z.

Local Abbreviation pB := (parseBinaryExpression tokens operators MaxDepth).
Local Abbreviation pE := (parseExpression tokens operators MaxDepth).
Local Abbreviation pP := (parsePrimaryExpression tokens operators MaxDepth).
Local Abbreviation loop := (binaryLoop tokens operators MaxDepth).

(** The loop stops where the context ends. *)
Lemma loop_stop f p q n i d rest :
  (q < p)%Z → follow q rest → At i rest → i ≤ length tokens → 
  loop (S f) p n (mkP i d) = Ok (n, mkP i d).
Proof.
  intros Hlt Hfol Hat Hi. simpl. destruct (_ <=? _) eqn:E; [done|]. apply Nat.leb_gt in E.
  destruct rest as [|l rest].
  { apply At_length in Hat; simpl in *; lia. }
  apply At_cons in Hat as ((t & -> & <-) & _ & _). simpl.
  case_bool_decide as Hop; [|done]. unfold follow, lexeme_of in Hfol. rewrite Hop in Hfol.
  destruct (operators !! tValue t) as [o|]; [|done].
  by rewrite (proj2 (Z.ltb_lt _ _)) by lia.
Qed.

(** One round of the loop. *)
Lemma loop_step f p l i d tok o nr st2 :
  i < length tokens → tok_at tokens i = Ok tok → tType tok = TokenOperator →
  operators !! tValue tok = Some o → (p ≤ op_Precedence o)%Z →
  pB f (op_Precedence o + 1) (mkP (S i) d) = Ok (nr, st2) →
  loop (S f) p l (mkP i d) = loop f p (BinaryOpNode l o nr) st2.
Proof.
  intros Hlt Htok Hty Ho Hp Hr. simpl. unfold advance; simpl.
  apply Nat.leb_gt in Hlt as ->. rewrite Htok. simpl.
  rewrite bool_decide_true, Ho by done. apply Z.ltb_ge in Hp as ->. by rewrite Hr.
Qed.

(** What it means that the printed form of [e] is read back in any context. *)
Definition reads (e : sexpr) : Prop :=
  ∀ n p q i d rest, denote e = Some n → (p ≤ q)%Z → At i (pp q e ++ rest) → i ≤ length tokens →
    follow q rest → depth_ok d (pp_depth q e) →
    ∃ i' k F, At i' rest ∧ i' ≤ length tokens ∧
      ∀ f, F ≤ f → pB (k + f) p (mkP i d) = loop f p n (mkP i' d).

(** An atom: one primary expression, then the loop. *)
Lemma reads_primary n p i i' d F :
  (∀ f, F ≤ f → pP f (mkP i d) = Ok (n, mkP i' d)) →
  ∀ f, F ≤ f → pB (1 + f) p (mkP i d) = loop f p n (mkP i' d).
Proof. intros H f Hf. simpl. by rewrite H. Qed.

(** [parseExpression] around a binary expression that ends at a closing token. *)
Lemma expression_of_binary n i i' d k F rest :
  (∀ f, F ≤ f → pB (k + f) 0 (mkP i (d + 1)) = loop f 0 n (mkP i' (d + 1))) →
  (MaxDepth ≤ 0 ∨ d + 1 ≤ MaxDepth)%Z → At i' rest → i' ≤ length tokens → follow (-1) rest →
  ∀ f, S (k + S F) ≤ f → pE f (mkP i d) = Ok (n, mkP i' d).
Proof.
  intros Hf Hd Hat Hi Hfol [|f] Hle; [lia|]. cbn [parseExpression]. simpl depth; simpl current.
  replace ((0 <? MaxDepth)%Z && (MaxDepth <? d + 1)%Z) with false.
  2:{ symmetry. apply andb_false_iff. destruct Hd; [left|right]; apply Z.ltb_ge; lia. }
  replace f with (k + S (f - k - 1)) by lia. rewrite Hf by lia.
  rewrite (loop_stop _ 0 (-1) n i' (d + 1) rest) by (done || lia). simpl.
  do 3 f_equal. lia.
Qed.

(** A complete sub-expression: [parseExpression] up to a closing token. *)
Lemma reads_expression e n i d rest :
  reads e → denote e = Some n → At i (pp 0 e ++ rest) → i ≤ length tokens →
  follow (-1) rest → depth_ok (d + 1) (pp_depth 0 e) →
  ∃ i' F, At i' rest ∧ i' ≤ length tokens ∧ ∀ f, F ≤ f → pE f (mkP i d) = Ok (n, mkP i' d).
Proof.
  intros He Hn Hat Hi Hfol Hd. pose proof (pp_depth_nonneg operators 0 e).
  assert (follow 0 rest) as Hfol0 by (eapply follow_mono; [done|lia]).
  destruct (He n 0%Z 0%Z i (d + 1)%Z rest) as (i' & k & F & Hat' & Hi' & Hf); [done..|].
  exists i', (S (k + S F)). split; [done|]. split; [done|].
  eapply expression_of_binary; try done. unfold depth_ok in Hd. lia.
Qed.

Lemma reads_bin_body l op r o nl nr p i d rest :
  reads l → reads r → operators !! op = Some o → denote l = Some nl → denote r = Some nr →
  (p ≤ op_Precedence o)%Z → i ≤ length tokens →
  At i (pp (op_Precedence o) l ++ [(TokenOperator, op)] ++ pp (op_Precedence o + 1) r ++ rest) →
  follow (op_Precedence o) rest →
  depth_ok d (Z.max (pp_depth (op_Precedence o) l) (pp_depth (op_Precedence o + 1) r)) →
  ∃ i' k F, At i' rest ∧ i' ≤ length tokens ∧
    ∀ f, F ≤ f → pB (k + f) p (mkP i d) = loop f p (BinaryOpNode nl o nr) (mkP i' d).
Proof.
  intros Hl Hr Ho Hnl Hnr Hp Hi Hat Hfol Hd. set (t := op_Precedence o) in *.
  destruct (Hl nl p t i d ([(TokenOperator, op)] ++ pp (t + 1) r ++ rest)) as (i1 & k1 & F1 & Hat1 & Hi1 & Hf1);
    [done..| | |].
  { simpl. rewrite Ho. unfold t. lia. }
  { unfold depth_ok in *. lia. }
  apply At_cons in Hat1 as ((tok & Htok & Hlex) & Hlt & Hat2).
  destruct (Hr nr (t + 1)%Z (t + 1)%Z (S i1) d rest) as (i2 & k2 & F2 & Hat3 & Hi2 & Hf2); [done|lia|done|lia|..].
  { eapply follow_mono; [done|lia]. }
  { unfold depth_ok in *. lia. }
  exists i2, (k1 + 1), (F1 + k2 + F2 + 1). split; [done|]. split; [done|]. intros f Hle.
  replace (k1 + 1 + f) with (k1 + S f) by lia. rewrite Hf1 by lia.
  injection Hlex as Hty Hval. eapply loop_step; try done; [by rewrite Hval|].
  fold t. replace f with (k2 + S (f - k2 - 1)) by lia. rewrite Hf2 by lia.
  apply (loop_stop _ _ t _ _ _ rest); try done; lia.
Qed.

Lemma reads_args args ns acc i d rest :
  Forall reads args → denote_list operators args = Some ns →
  At i (pp_args operators (match acc with [] => true | _ => false end) args ++
        (TokenRParen, ")"%string) :: rest) → i ≤ length tokens →
  depth_ok d (pp_depth_args operators args) →
  ∃ i' F, At i' rest ∧ i' ≤ length tokens ∧
    ∀ f, F ≤ f → argsLoop tokens operators MaxDepth f acc (mkP i d) = Ok (acc ++ ns, mkP i' d).
Proof.
  intros Hargs. revert ns acc i. induction Hargs as [|a args Ha Hargs IH]; intros ns acc i Hns Hat Hi Hd; simpl in *.
  - simplify_eq. apply At_cons in Hat as ((t & Ht & Hlex) & Hlt & Hat).
    exists (S i), 1. split; [done|]. split; [lia|]. intros [|f] Hf; [lia|]. simpl.
    rewrite (proj2 (Nat.leb_gt _ _) Hlt), Ht. simpl. unfold lexeme_of in Hlex. injection Hlex as Hty _.
    rewrite bool_decide_true by done. by rewrite app_nil_r.
  - destruct (denote a) as [n|] eqn:Hn; [|done].
    destruct (denote_list operators args) as [ns'|] eqn:Hns'; [|done]. simplify_eq.
    assert (∃ i0 (hd : Token), tok_at tokens i = Ok hd ∧ tType hd ≠ TokenRParen ∧ i < length tokens ∧
       i0 ≤ length tokens ∧ At i0 (pp 0 a ++ pp_args operators false args ++ (TokenRParen, ")"%string) :: rest) ∧
       (if 0 <? length acc then
          if bool_decide (tType hd = TokenComma) then Ok (advance (mkP i d)) else Err ExpectedComma
        else Ok (mkP i d)) = Ok (E:=parse_error) (mkP i0 d)) as (i0 & hd & Hhd & Hnr & Hlt & Hi0 & Hat0 & Hcomma).
    { destruct acc as [|x acc]; simpl in Hat.
      - rewrite <- app_assoc in Hat. pose proof Hat as Hat0.
        assert (∃ l ls, pp 0 a = l :: ls ∧ fst l ≠ TokenRParen) as (l & ls & Hpp & Hl).
        { clear. generalize 0%Z. induction a as [t|t|x|l IHl op r _|f args]; intros p; simpl; try by eauto.
          unfold parens. destruct (_ <=? _)%Z; [|simpl; by eauto].
          destruct (IHl (precedence_of operators op)) as (l0 & ls & -> & ?). simpl. eauto. }
        rewrite Hpp in Hat0. apply At_cons in Hat0 as ((t & Ht & <-) & Hlt & _).
        exists i, t. split_and!; try done.
      - rewrite <- app_assoc in Hat. apply At_cons in Hat as ((t & Ht & Hlex) & Hlt & Hat).
        injection Hlex as Hty _. exists (S i), t. split_and!; try done; try congruence.
        simpl. by rewrite bool_decide_true. }
    assert (follow (-1) (pp_args operators false args ++ (TokenRParen, ")"%string) :: rest)) as Hfol.
    { by destruct args. }
    destruct (reads_expression a n i0 d _ Ha Hn Hat0 Hi0 Hfol) as (i1 & F1 & Hat1 & Hi1 & Hf1).
    { unfold depth_ok in *. lia. }
    destruct (IH ns' (acc ++ [n]) i1) as (i2 & F2 & Hat2 & Hi2 & Hf2); [done| |done| |].
    { by destruct acc. }
    { unfold depth_ok in *. lia. }
    exists i2, (S (F1 + F2)). split; [done|]. split; [done|]. intros [|f] Hf; [lia|]. simpl.
    rewrite (proj2 (Nat.leb_gt _ _) Hlt), Hhd. simpl. rewrite bool_decide_false by done.
    rewrite Hcomma. simpl. rewrite Hf1 by lia. simpl. rewrite Hf2 by lia.
    by rewrite <- app_assoc.
Qed.

Lemma tok_at_lexeme i ty v ls :
  At i ((ty, v) :: ls) →
  ∃ t, tok_at tokens i = Ok t ∧ tType t = ty ∧ tValue t = v ∧ i < length tokens ∧ At (S i) ls.
Proof.
  intros ((t & Ht & Hlex) & Hlt & Hat)%At_cons. injection Hlex as Hty Hv. by exists t.
Qed.

Lemma reads_atom ty v n p i d rest :
  (∀ t f, tok_at tokens i = Ok t → tType t = ty → tValue t = v →
     pP (S f) (mkP i d) = Ok (n, mkP (S i) d)) →
  At i ((ty, v) :: rest) → i ≤ length tokens →
  ∃ i' k F, At i' rest ∧ i' ≤ length tokens ∧
    ∀ f, F ≤ f → pB (k + f) p (mkP i d) = loop f p n (mkP i' d).
Proof.
  intros Hp Hat Hi. apply tok_at_lexeme in Hat as (t & Ht & Hty & Hv & Hlt & Hat).
  exists (S i), 1, 1. split_and!; [done|lia|]. apply reads_primary.
  intros [|f] Hf; [lia|]. by eapply Hp.
Qed.

Lemma reads_all e : reads e.
Proof.
  induction e as [txt|txt|x|l op r IHl IHr|fn args IH] using sexpr_ind';
    intros n p q i d rest Hn Hpq Hat Hi Hfol Hd.
  - simpl in Hn. destruct (ParseFloat txt) as [v|] eqn:Hv; simplify_eq/=.
    eapply reads_atom; [|exact Hat|done]. intros t f Ht Hty Htv. simpl. by rewrite Ht; simpl; rewrite Htv, Hv, Hty.
  - simplify_eq/=. eapply reads_atom; [|exact Hat|done]. intros t f Ht Hty Htv. simpl.
    by rewrite Ht; simpl; rewrite Hty, ?Htv.
  - simplify_eq/=. pose proof Hat as (t0 & _ & _ & _ & _ & Hat1)%tok_at_lexeme.
    eapply reads_atom; [|exact Hat|done]. intros t f Ht Hty Htv. simpl.
    rewrite Ht; simpl; rewrite Hty, ?Htv. simpl. destruct (S i <? length tokens) eqn:Hlt; [|done].
    apply Nat.ltb_lt in Hlt. destruct rest as [|[ty v] rest'].
    { apply At_length in Hat1; simpl in *; lia. }
    apply tok_at_lexeme in Hat1 as (t1 & Ht1 & Hty1 & _). rewrite Ht1. simpl.
    rewrite bool_decide_false; [done|]. intros Hlp. by rewrite <- Hty1, Hlp in Hfol.
  - simpl in Hn, Hat, Hd. destruct (operators !! op) as [o|] eqn:Ho; [|done].
    destruct (denote l) as [nl|] eqn:Hl; [|done]. destruct (denote r) as [nr|] eqn:Hr; [|done].
    simplify_eq. unfold precedence_of in Hat, Hd. rewrite Ho in Hat, Hd.
    pose proof (Hnonneg _ _ Ho). destruct (q <=? _)%Z eqn:E; unfold parens in Hat.
    + apply Z.leb_le in E. rewrite <- !app_assoc in Hat.
      eapply (reads_bin_body l op r); try (done || lia || by eapply follow_mono).

    + simpl in Hat. rewrite <- !app_assoc in Hat.
      apply tok_at_lexeme in Hat as (t & Ht & Hty & _ & Hlt & Hat).
      destruct (reads_bin_body l op r o nl nr 0 (S i) (d + 1) ((TokenRParen, ")"%string) :: rest))
        as (i1 & k & F & Hat1 & Hi1 & Hf1); try (done || lia).
      { unfold depth_ok in *. lia. }
      pose proof (pp_depth_nonneg operators (op_Precedence o) l).
      pose proof Hat1 as (t1 & Ht1 & Hty1 & _ & Hlt1 & Hat2)%tok_at_lexeme.
      exists (S i1), 1, (S (S (k + S F))). split_and!; [done|lia|]. apply reads_primary.
      intros [|f] Hle; [lia|]. simpl. rewrite Ht. simpl. rewrite Hty.
      change (advance (mkP i d)) with (mkP (S i) d).
      rewrite (expression_of_binary _ _ _ _ _ _ ((TokenRParen, ")"%string) :: rest) Hf1)
        by (done || lia || (unfold depth_ok in *; lia)).
      simpl. apply Nat.leb_gt in Hlt1 as ->. rewrite Ht1. simpl. by rewrite bool_decide_true.
  - rewrite denote_call in Hn. rewrite pp_call in Hat. rewrite pp_depth_call in Hd.
    destruct (denote_list operators args) as [ns|] eqn:Hns; simplify_eq/=.
    apply tok_at_lexeme in Hat as (t & Ht & Hty & Htv & Hlt & Hat).
    apply tok_at_lexeme in Hat as (t1 & Ht1 & Hty1 & _ & Hlt1 & Hat).
    rewrite <- app_assoc in Hat. destruct (reads_args args ns [] (S (S i)) d rest) as
      (i' & F & Hat' & Hi' & Hf); try done.
    exists i', 1, (S (S F)). split_and!; [done|done|]. apply reads_primary.
    intros [|[|f]] Hle; [lia|lia|]. cbn [parsePrimaryExpression]. simpl current.
    rewrite Ht. cbn [rbind]. rewrite Hty. simpl current. apply Nat.ltb_lt in Hlt1 as ->.
    rewrite Ht1. simpl. rewrite bool_decide_true by done. unfold advance; simpl.
    rewrite Hf by lia. by rewrite Htv.
Qed.

End RoundTrip.

(** ** Tokens of the tokenizer *)

(** What [tokenize] returns is well formed for the parser. *)
Lemma tokenize_wf fuel expr toks :
  tokenize fuel expr = Ok toks → ∃ n, wf_tokens toks n.
Proof.
  unfold tokenize. intros H. inv_res.
  rename a into st. pose proof (tokenize_loop_real _ _ _ _ H0 (Forall_nil_2 _)) as Hreal.
  set (eof := mkToken TokenEOF EmptyString (lx_line st) (lx_col st)).
  exists (length (lx_tokens st)). split; [rewrite length_app; simpl; lia|].
  intros i Hi. destruct (decide (i < length (lx_tokens st))) as [Hlt|Hge].
  - destruct (lookup_lt_is_Some_2 _ _ Hlt) as [t Ht]. rewrite lookup_app_l by done.
    rewrite Forall_lookup in Hreal. apply Hreal in Ht as Hr. destruct t as [t|]; [|done]. eauto.
  - exists eof. split; [|done]. assert (i = length (lx_tokens st)) as -> by lia. by apply list_lookup_middle.
Qed.

Lemma parse_wf toks n operators MaxDepth fuel :
  wf_tokens toks n → parse_fuel toks ≤ fuel →
  parse toks operators MaxDepth fuel ≠ Panic ∧ parse toks operators MaxDepth fuel ≠ NoFuel.
Proof.
  intros Hwf Hf. destruct Hwf as [Hlen Hall]. unfold parse_fuel in Hf.
  destruct (parser_safe toks operators MaxDepth n (conj Hlen Hall) fuel) as (HE & _).
  specialize (HE (mkP 0 0)). unfold okres, parse in *. simpl in HE.
  destruct (parseExpression _ _ _ _ _) as [[m st]| | |]; simpl; try done; destruct HE; lia.
Qed.

Definition nonneg_table (operators : gmap string Operator) : Prop :=
  ∀ x o, operators !! x = Some o → (0 ≤ op_Precedence o)%Z.

(** Precedences in the default table are not negative. *)
Lemma default_table_nonneg : nonneg_table default_table.
Proof.
  intros x o H. unfold default_table, op_table in H. apply elem_of_list_to_map_2 in H.
  assert (Forall (λ xo, (0 ≤ op_Precedence xo.2)%Z) default_operators) as Hall
    by (repeat constructor; simpl; lia).
  rewrite List.Forall_forall in Hall. by apply (Hall (x, o)), list_elem_of_In.
Qed.

(** The parse of a printed expression followed by anything that cannot continue it. *)
Lemma parse_show toks operators MaxDepth e n rest N :
  nonneg_table operators → wf_tokens toks N → denote operators e = Some n →
  (MaxDepth ≤ 0 ∨ 1 + pp_depth operators 0 e ≤ MaxDepth)%Z →
  map (fmap lexeme_of) toks = map Some (pp operators 0 e ++ rest) → follow operators (-1) rest →
  parse toks operators MaxDepth (parse_fuel toks) = Ok n.
Proof.
  intros Hnn Hwf Hn Hd Hmap Hfol.
  destruct (reads_expression toks operators MaxDepth e n 0 0 rest) as (i' & F & _ & _ & Hf); try done.
  { by apply reads_all. } { lia. }
  specialize (Hf (max F (parse_fuel toks)) ltac:(lia)).
  destruct (parse_wf toks N operators MaxDepth (parse_fuel toks) Hwf (le_n _)) as [_ HNF].
  unfold parse in *. destruct (parseExpression _ _ _ (parse_fuel toks) _) as [[m st]|err| |] eqn:E; try done;
    eapply parseExpression_mono in E; try rewrite E in Hf; try (done || lia); by simplify_eq/=.
Qed.

(** ** Properties *)

(** C1: Printing and parsing an expression are inverse.  For every expression
    tree [e] with literals, identifiers, calls and operators of the table,
    printed with only the parentheses its precedences and left associativity
    require, [tokenize] followed by [parse] returns the tree [e] denotes: every
    operator binds by its table precedence, equal precedences associate to the
    left, parentheses and call arguments delimit, up to the [MaxDepth] limit. *)
Theorem parse_roundtrip (operators : gmap string Operator) (MaxDepth : Z) (e : sexpr) (n : Node) :
  nonneg_table operators → denote operators e = Some n →
  Forall (λ l, wf_lexeme l = true) (pp operators 0 e) →
  (MaxDepth ≤ 0 ∨ 1 + pp_depth operators 0 e ≤ MaxDepth)%Z →
  let src := show_lexemes (pp operators 0 e) in
  ∃ toks, tokenize (lex_fuel src) src = Ok toks ∧
    parse toks operators MaxDepth (parse_fuel toks) = Ok n.
Proof.
  intros Hnn Hn Hw Hd src. destruct (tokenize_show _ Hw) as (toks & Ht & Hm).
  exists toks. split; [exact Ht|]. destruct (tokenize_wf _ _ _ Ht) as [N Hwf].
  by eapply parse_show.
Qed.

Lemma parse_roundtrip_witness :
  let e := SBin (SBin (SIdent "a") "-" (SBin (SIdent "b") "-" (SIdent "c"))) "<"
             (SCall "f" [SIdent "x"; SBin (SNum "1") "+" (SNum "2.5")]) in
  show_lexemes (pp default_table 0 e) = "a - ( b - c ) < f ( x , 1 + 2.5 ) "%string ∧
  ∃ toks n, denote default_table e = Some n ∧
    tokenize (lex_fuel "a - ( b - c ) < f ( x , 1 + 2.5 ) ")
      "a - ( b - c ) < f ( x , 1 + 2.5 ) " = Ok toks ∧
    parse toks default_table 2 (parse_fuel toks) = Ok n.
Proof.
  intros e. split; [vm_compute; reflexivity|].
  assert (is_some_b (denote default_table e) = true) as Hs by (vm_compute; reflexivity).
  destruct (denote default_table e) as [n|] eqn:Hn; [|discriminate Hs].
  destruct (parse_roundtrip default_table 2 e n default_table_nonneg Hn) as (toks & Ht & Hp).
  { apply forallb_Forall. vm_compute. reflexivity. }
  { right. vm_compute. discriminate. }
  exists toks, n. split; [reflexivity|]. split; [exact Ht|exact Hp].
Defined.

(** C40: Parsing what the tokenizer returns always terminates with a tree or an
    error.  Whatever the expression text, operator table and depth limit, the
    parser never indexes outside the token slice, never meets a nil token and
    needs no more nested calls than a linear function of the number of tokens. *)
Theorem parse_total (expr : string) (lexfuel : nat) (toks : list (option Token))
    (operators : gmap string Operator) (MaxDepth : Z) :
  tokenize lexfuel expr = Ok toks →
  (∃ n, parse toks operators MaxDepth (parse_fuel toks) = Ok n) ∨
  (∃ e, parse toks operators MaxDepth (parse_fuel toks) = Err e).
Proof.
  intros [N Hwf]%tokenize_wf.
  destruct (parse_wf toks N operators MaxDepth (parse_fuel toks) Hwf (le_n _)) as [HP HN].
  destruct (parse toks operators MaxDepth (parse_fuel toks)); eauto; done.
Qed.

Lemma parse_total_witness :
  ∃ toks, tokenize 9 "f(1, )(" = Ok toks ∧
  ((∃ n, parse toks default_table 3 (parse_fuel toks) = Ok n) ∨
   (∃ e, parse toks default_table 3 (parse_fuel toks) = Err e)).
Proof.
  destruct (tokenize 9 "f(1, )(") as [toks| | |] eqn:H; try (by vm_compute in H).
  exists toks. split; [done|]. exact (parse_total _ _ _ default_table 3 H).
Defined.

(** Text after a complete expression is ignored.  If a printed expression is
    followed by any lexemes that start with neither a table operator nor a left
    parenthesis, [parse] succeeds with the tree of the first expression alone,
    so ["1 2"] or ["a ) ) ,"] are accepted by the non-strict engine. *)
Theorem parse_ignores_trailing (operators : gmap string Operator) (MaxDepth : Z) (e : sexpr) (n : Node)
    (junk : list lexeme) :
  nonneg_table operators → denote operators e = Some n →
  Forall (λ l, wf_lexeme l = true) (pp operators 0 e ++ junk) →
  follow operators (-1) (junk ++ [(TokenEOF, EmptyString)]) →
  (MaxDepth ≤ 0 ∨ 1 + pp_depth operators 0 e ≤ MaxDepth)%Z →
  let src := show_lexemes (pp operators 0 e ++ junk) in
  ∃ toks, tokenize (lex_fuel src) src = Ok toks ∧
    parse toks operators MaxDepth (parse_fuel toks) = Ok n.
Proof.
  intros Hnn Hn Hw Hfol Hd src. destruct (tokenize_show _ Hw) as (toks & Ht & Hm).
  exists toks. split; [exact Ht|]. destruct (tokenize_wf _ _ _ Ht) as [N Hwf].
  rewrite <- app_assoc in Hm. by eapply parse_show.
Qed.

Lemma parse_ignores_trailing_witness :
  ∃ toks n, tokenize (lex_fuel "a ) , 2 ") "a ) , 2 " = Ok toks ∧
    parse toks default_table 100 (parse_fuel toks) = Ok (IdentifierNode n) ∧ n = "a"%string.
Proof.
  destruct (parse_ignores_trailing default_table 100 (SIdent "a") (IdentifierNode "a")
    [(TokenRParen, ")"); (TokenComma, ","); (TokenNumber, "2")]%string default_table_nonneg eq_refl)
    as (toks & Ht & Hp); [repeat constructor|done|right; by vm_compute|].
  exists toks, "a"%string. split; [exact Ht|]. split; [exact Hp|done].
Defined.
