(* ===== verification/ExprCache.v ===== *)
(** * The result cache of the expression engine

    Models src/validation/expression/cache.go: the LRU list and the key map as
    they are (the map holds list elements, the elements live in a heap and keep
    their entry when removed), byte accounting in 64-bit arithmetic, expiry and
    the counters.  [time.Now] is an argument, a critical section is one step, and
    a [range] over the map visits its entries in an order that is an argument.
    [LruSpec] is the contract: a list of entries, most recently used first. *)

From stdpp Require Import base tactics option list gmap strings numbers.
From Stdlib Require Import ZArith Lia.
From S2P Require Import Prelude GoValue.
Open Scope go_scope.

Record CacheConfig := mkCacheConfig { MaxSize : Z; TTL : Z; OnEvict : bool }.

(** Times are nanoseconds; no expiry is [None] (the zero [time.Time]). *)
Record cacheEntry := mkEntry {
  ce_key : string; ce_value : Value; ce_size : Z; ce_timestamp : Z; ce_expiry : option Z }.

Definition touch (now : Z) (e : cacheEntry) : cacheEntry :=
  mkEntry (ce_key e) (ce_value e) (ce_size e) now (ce_expiry e).

Inductive cache_error := ItemTooLarge (size : Z) | CannotMakeRoom (size : Z).

#[global] Instance cache_error_eq_dec : EqDecision cache_error.
Proof. solve_decision. Defined.

(** [elems] is the heap of list elements, [evictList] the linked list from its
    front; [evicted] records the calls of the [OnEvict] callback, newest first. *)
Record Cache := mkCache {
  items : gmap string nat; evictList : list nat; elems : gmap nat cacheEntry; next_elem : nat;
  Hits : Z; Misses : Z; Evictions : Z; Size : Z; evicted : list (string * Value) }.

Definition NewCache : Cache := mkCache ∅ [] ∅ 0 0 0 0 0 [].

Section Cache.
Context (config : CacheConfig).

Definition expired (now : Z) (e : cacheEntry) : bool :=
  match ce_expiry e with None => false | Some x => (x <? now)%Z end.

(** A list element dereferenced; every element handed around is in the heap. *)
Definition the_entry (c : Cache) (i : nat) : cacheEntry :=
  default (mkEntry "" VNil 0 0 None) (elems c !! i).

Definition callback (k : string) (v : Value) (log : list (string * Value)) : list (string * Value) :=
  if OnEvict config then (k, v) :: log else log.

Definition removeElement (i : nat) (c : Cache) : Cache :=
  let entry := the_entry c i in
  mkCache (delete (ce_key entry) (items c)) (filter (λ j, j ≠ i) (evictList c)) (elems c) (next_elem c)
    (Hits c) (Misses c) (Evictions c + 1) (wrap64 (Size c - ce_size entry))
    (callback (ce_key entry) (ce_value entry) (evicted c)).

Definition count_miss (c : Cache) : Cache :=
  mkCache (items c) (evictList c) (elems c) (next_elem c) (Hits c) (Misses c + 1) (Evictions c) (Size c)
    (evicted c).

(** The first critical section of [Get]: a hit or a miss is final, an expired
    element is handed to the second section, which runs under another lock. *)
Inductive get_result := GotHit (v : Value) | GotMiss | GotExpired (ent : nat).

Definition Get_locked (now : Z) (key : string) (c : Cache) : get_result * Cache :=
  match items c !! key with
  | Some ent =>
      let entry := the_entry c ent in
      if expired now entry then (GotExpired ent, c)
      else
        (GotHit (ce_value entry),
         mkCache (items c) (ent :: filter (λ j, j ≠ ent) (evictList c))
           (<[ent := touch now entry]> (elems c)) (next_elem c) (Hits c + 1) (Misses c) (Evictions c)
           (Size c) (evicted c))
  | None => (GotMiss, count_miss c)
  end.

Definition Get_expired (ent : nat) (c : Cache) : Cache := count_miss (removeElement ent c).

(** [Get] with no other thread between its two sections. *)
Definition Get (now : Z) (key : string) (c : Cache) : option Value * Cache :=
  match Get_locked now key c with
  | (GotHit v, c1) => (Some v, c1)
  | (GotMiss, c1) => (None, c1)
  | (GotExpired ent, c1) => (None, Get_expired ent c1)
  end.

Definition evictOldest (c : Cache) : option Cache :=
  match list.last (evictList c) with Some ent => Some (removeElement ent c) | None => None end.

(** The [for] loop of [Set]. *)
Fixpoint makeRoom (fuel : nat) (size : Z) (c : Cache) : res cache_error unit * Cache :=
  match fuel with
  | O => (NoFuel, c)
  | S fuel =>
      if (MaxSize config <? wrap64 (Size c + size))%Z then
        match evictOldest c with
        | Some c1 => makeRoom fuel size c1
        | None => (Err (CannotMakeRoom size), c)
        end
      else (Ok tt, c)
  end.

Definition new_entry (now : Z) (key : string) (value : Value) : cacheEntry :=
  mkEntry key value (estimateSize value) now
    (if (0 <? TTL config)%Z then Some (now + TTL config)%Z else None).

Definition Set_ (now : Z) (key : string) (value : Value) (c : Cache) : res cache_error unit * Cache :=
  let size := estimateSize value in
  if (MaxSize config <? size)%Z then (Err (ItemTooLarge size), c)
  else
    let c1 := match items c !! key with Some ent => removeElement ent c | None => c end in
    match makeRoom (S (length (evictList c1))) size c1 with
    | (Ok _, c2) =>
        let element := next_elem c2 in
        let entry := new_entry now key value in
        (Ok tt,
         mkCache (<[key := element]> (items c2)) (element :: evictList c2)
           (<[element := entry]> (elems c2)) (S element) (Hits c2) (Misses c2) (Evictions c2)
           (wrap64 (Size c2 + ce_size entry)) (evicted c2))
    | (e, c2) => (e, c2)
    end.

Definition Remove (key : string) (c : Cache) : bool * Cache :=
  match items c !! key with
  | Some ent => (true, removeElement ent c)
  | None => (false, c)
  end.

(** The body of [for _, ent := range c.items] with deletion. *)
Fixpoint purge_loop (now : Z) (ents : list nat) (count : nat) (c : Cache) : nat * Cache :=
  match ents with
  | [] => (count, c)
  | ent :: ents' =>
      if expired now (the_entry c ent) then purge_loop now ents' (S count) (removeElement ent c)
      else purge_loop now ents' count c
  end.

Definition PurgeExpired (order : list nat) (now : Z) (c : Cache) : nat * Cache :=
  purge_loop now order 0 c.

Definition cleanupExpired (order : list nat) (now : Z) (c : Cache) : Cache :=
  snd (purge_loop now order 0 c).

Fixpoint clear_loop (c : Cache) (ents : list nat) (log : list (string * Value)) : list (string * Value) :=
  match ents with
  | [] => log
  | ent :: ents' =>
      clear_loop c ents' (callback (ce_key (the_entry c ent)) (ce_value (the_entry c ent)) log)
  end.

Definition Clear (order : list nat) (c : Cache) : Cache :=
  mkCache ∅ [] (elems c) (next_elem c) 0 0 0 0 (clear_loop c order (evicted c)).

Definition Len (c : Cache) : nat := size (items c).

(** The order of a [range] over the map: its elements, each once. *)
Definition range_order (c : Cache) (order : list nat) : Prop :=
  Permutation order (snd <$> map_to_list (items c)).

End Cache.

(** ** The contract: a bounded list of entries, most recently used first *)
Module LruSpec.

Definition total (es : list cacheEntry) : Z := foldr (λ e s, (ce_size e + s)%Z) 0%Z es.

(** The longest prefix of [es] whose sizes sum to at most [room]. *)
Fixpoint fit (room : Z) (es : list cacheEntry) : list cacheEntry :=
  match es with
  | [] => []
  | e :: es' => if (ce_size e <=? room)%Z then e :: fit (room - ce_size e) es' else []
  end.

Definition without (k : string) (es : list cacheEntry) : list cacheEntry :=
  filter (λ e, ce_key e ≠ k) es.

Definition find (k : string) (es : list cacheEntry) : option cacheEntry :=
  snd <$> list_find (λ e, ce_key e = k) es.

Definition get (now : Z) (k : string) (es : list cacheEntry) : option Value * list cacheEntry :=
  match find k es with
  | Some e =>
      if expired now e then (None, without k es)
      else (Some (ce_value e), touch now e :: without k es)
  | None => (None, es)
  end.

Definition set (cfg : CacheConfig) (now : Z) (k : string) (v : Value) (es : list cacheEntry)
    : res cache_error unit * list cacheEntry :=
  let size := estimateSize v in
  if (MaxSize cfg <? size)%Z then (Err (ItemTooLarge size), es)
  else (Ok tt, new_entry cfg now k v :: fit (MaxSize cfg - size) (without k es)).

Definition remove (k : string) (es : list cacheEntry) : bool * list cacheEntry :=
  (is_some_b (find k es), without k es).

Definition purge (now : Z) (es : list cacheEntry) : nat * list cacheEntry :=
  (length (filter (λ e, expired now e = true) es), filter (λ e, expired now e = false) es).

End LruSpec.

(** ** The invariant *)

(** The cache represents the entries [ies] (paired with their list elements):
    the list is in their order, the heap holds them, the map has exactly their
    keys, and [Size] is the sum of their sizes, within [MaxSize]. *)
Record represents (cfg : CacheConfig) (c : Cache) (ies : list (nat * cacheEntry)) : Prop := {
  rep_list : evictList c = ies.*1;
  rep_heap : ∀ i e, (i, e) ∈ ies → elems c !! i = Some e;
  rep_nodup : NoDup ies.*1;
  rep_keys : NoDup (ce_key <$> ies.*2);
  rep_items : ∀ k i, items c !! k = Some i ↔ ∃ e, (i, e) ∈ ies ∧ ce_key e = k;
  rep_next : ∀ i, i ∈ ies.*1 → i < next_elem c;
  rep_sizes : Forall (λ e, ce_size e = estimateSize (ce_value e)) ies.*2;
  rep_size : Size c = LruSpec.total ies.*2;
  rep_bound : (LruSpec.total ies.*2 ≤ MaxSize cfg)%Z }.

Definition cache_inv (cfg : CacheConfig) (c : Cache) (es : list cacheEntry) : Prop :=
  ∃ ies, represents cfg c ies ∧ es = ies.*2.

(** [MaxSize] leaves room for the sum [Size + size] of two bounded sizes. *)
Definition sane (cfg : CacheConfig) : Prop := (0 ≤ MaxSize cfg < 2 ^ 62)%Z.

Lemma filter_fmap_fst {A} (i : nat) (l : list (nat * A)) :
  filter (λ j, j ≠ i) l.*1 = (filter (λ p, p.1 ≠ i) l).*1.
Proof.
  induction l as [|[j a] l IH]; [done|]. rewrite fmap_cons, !filter_cons. simpl.
  destruct (decide (j ≠ i)); [|done]. rewrite fmap_cons. by rewrite IH.
Qed.

Lemma fst_unique {A} (l : list (nat * A)) i a b :
  NoDup l.*1 → (i, a) ∈ l → (i, b) ∈ l → a = b.
Proof.
  intros Hnd Ha Hb. induction l as [|[j c] l IH]; [by apply not_elem_of_nil in Ha|].
  rewrite fmap_cons in Hnd. apply list.NoDup_cons in Hnd as [Hni Hnd].
  assert (∀ x, (j, x) ∈ l → False) as Hno.
  { intros x Hx. apply Hni. by apply (list_elem_of_fmap_2 fst l (j, x)). }
  apply elem_of_cons in Ha as [Ha|Ha], Hb as [Hb|Hb]; simplify_eq; eauto; by exfalso; eauto.
Qed.

Lemma key_unique (ies : list (nat * cacheEntry)) i j a b :
  NoDup (ce_key <$> ies.*2) → (i, a) ∈ ies → (j, b) ∈ ies → ce_key a = ce_key b → (i, a) = (j, b).
Proof.
  intros Hnd Ha Hb Hk. induction ies as [|[x e] l IH]; [by apply not_elem_of_nil in Ha|].
  rewrite !fmap_cons in Hnd. apply list.NoDup_cons in Hnd as [Hni Hnd].
  assert (∀ y d, (y, d) ∈ l → ce_key d ≠ ce_key e) as Hno.
  { intros y d Hx Hke. apply Hni. simpl. rewrite <- Hke.
    by apply list_elem_of_fmap_2, (list_elem_of_fmap_2 snd l (y, d)). }
  apply elem_of_cons in Ha as [Ha|Ha], Hb as [Hb|Hb]; simplify_eq; auto;
    by exfalso; eapply Hno; eauto.
Qed.

(** Removing an element from the list is removing its key from the entries. *)
Lemma filter_elem_key (ies : list (nat * cacheEntry)) i e :
  NoDup ies.*1 → NoDup (ce_key <$> ies.*2) → (i, e) ∈ ies →
  (filter (λ p, p.1 ≠ i) ies).*2 = LruSpec.without (ce_key e) ies.*2.
Proof.
  intros H1 H2 He.
  assert (∀ j d, (j, d) ∈ ies → (j ≠ i ↔ ce_key d ≠ ce_key e)) as Hiff.
  { intros j d Hd. split; intros Hn Heq; apply Hn.
    - pose proof (key_unique _ _ _ _ _ H2 Hd He Heq) as Hq. by injection Hq.
    - subst. by rewrite (fst_unique _ _ _ _ H1 Hd He). }
  clear H1 H2 He. induction ies as [|[j d] l IH]; [done|].
  rewrite fmap_cons. unfold LruSpec.without. rewrite !filter_cons. simpl.
  assert (j ≠ i ↔ ce_key d ≠ ce_key e) as Hj by (apply Hiff; left).
  unfold LruSpec.without in IH.
  destruct (decide (j ≠ i)) as [n|n], (decide (ce_key d ≠ ce_key e)) as [m|m]; try tauto.
  - rewrite fmap_cons, IH; [done|]. intros. apply Hiff. by right.
  - apply IH. intros. apply Hiff. by right.
Qed.

Lemma total_filter (P : cacheEntry → Prop) `{!∀ e, Decision (P e)} es :
  Forall (λ e, ce_size e = estimateSize (ce_value e)) es →
  (0 ≤ LruSpec.total (filter P es) ≤ LruSpec.total es)%Z.
Proof.
  induction 1 as [|e es He Hes IH]; [done|]. rewrite filter_cons.
  pose proof (estimateSize_nonneg (ce_value e)).
  destruct (decide (P e)); simpl; lia.
Qed.

Lemma total_nonneg es :
  Forall (λ e, ce_size e = estimateSize (ce_value e)) es → (0 ≤ LruSpec.total es)%Z.
Proof.
  induction 1 as [|e es He Hes IH]; [done|]. simpl.
  pose proof (estimateSize_nonneg (ce_value e)). lia.
Qed.

Lemma total_without (ies : list (nat * cacheEntry)) i e :
  NoDup (ce_key <$> ies.*2) → (i, e) ∈ ies →
  LruSpec.total (LruSpec.without (ce_key e) ies.*2) = (LruSpec.total ies.*2 - ce_size e)%Z.
Proof.
  intros Hnd He. unfold LruSpec.without. induction ies as [|[j d] l IH]; [by apply not_elem_of_nil in He|].
  rewrite !fmap_cons in *. rewrite filter_cons. simpl in *.
  apply list.NoDup_cons in Hnd as [Hni Hnd].
  apply elem_of_cons in He as [He|He]; [simplify_eq|].
  - rewrite decide_False by naive_solver.
    rewrite list_filter_all; [lia|].
    intros x Hx Hk. apply Hni. rewrite <- Hk. by apply list_elem_of_fmap_2.
  - rewrite decide_True; [simpl; rewrite IH; auto; lia|].
    intros Hk. apply Hni. rewrite Hk.
    by apply list_elem_of_fmap_2, (list_elem_of_fmap_2 snd l (i, e)).
Qed.

(** ** Each operation against the contract *)

Section Refine.
Context (cfg : CacheConfig) (Hsane : sane cfg).

Lemma rep_total_bounds c ies : represents cfg c ies → (0 ≤ LruSpec.total ies.*2 ≤ MaxSize cfg)%Z.
Proof. intros H. split; [apply total_nonneg, (rep_sizes _ _ _ H)|apply (rep_bound _ _ _ H)]. Qed.

Lemma the_entry_rep c ies i e : represents cfg c ies → (i, e) ∈ ies → the_entry c i = e.
Proof. intros H He. unfold the_entry. by rewrite (rep_heap _ _ _ H _ _ He). Qed.

Lemma lookup_rep_Some c ies k i :
  represents cfg c ies → items c !! k = Some i →
  ∃ e, (i, e) ∈ ies ∧ ce_key e = k ∧ the_entry c i = e.
Proof.
  intros H Hk. apply (rep_items _ _ _ H) in Hk as (e & He & Hk). exists e. split_and!; try done.
  by eapply the_entry_rep.
Qed.

Lemma find_rep c ies k :
  represents cfg c ies →
  LruSpec.find k ies.*2 = match items c !! k with Some i => Some (the_entry c i) | None => None end.
Proof.
  intros H. unfold LruSpec.find. destruct (items c !! k) as [i|] eqn:Hk.
  - destruct (lookup_rep_Some _ _ _ _ H Hk) as (e & He & Hke & ->).
    destruct (list_find_elem_of (λ e, ce_key e = k) ies.*2 e) as [[n d] Hd]; [by apply (list_elem_of_fmap_2 snd ies (i, e))|done|].
    rewrite Hd. apply list_find_Some in Hd as (Hn & Hkd & _). simpl.
    apply list_elem_of_lookup_2, list_elem_of_fmap in Hn as ([j d'] & -> & Hj). simpl in *.
    pose proof (key_unique _ _ _ _ _ (rep_keys _ _ _ H) Hj He) as Hq.
    rewrite Hkd, Hke in Hq. specialize (Hq eq_refl). by simplify_eq.
  - destruct (list_find _ _) as [[n d]|] eqn:Hd; [|done]. exfalso.
    apply list_find_Some in Hd as (Hn & Hkd & _).
    apply list_elem_of_lookup_2, list_elem_of_fmap in Hn as ([j d'] & -> & Hj). simpl in *.
    assert (items c !! k = Some j) by (apply (rep_items _ _ _ H); eauto). congruence.
Qed.

Lemma removeElement_rep c ies i e :
  represents cfg c ies → (i, e) ∈ ies →
  represents cfg (removeElement cfg i c) (filter (λ p, p.1 ≠ i) ies) ∧
  (filter (λ p, p.1 ≠ i) ies).*2 = LruSpec.without (ce_key e) ies.*2.
Proof.
  intros H He. pose proof (the_entry_rep _ _ _ _ H He) as Hent.
  pose proof (filter_elem_key _ _ _ (rep_nodup _ _ _ H) (rep_keys _ _ _ H) He) as Hf.
  split; [|done]. pose proof (rep_total_bounds _ _ H) as Hb.
  pose proof (total_filter (λ d, ce_key d ≠ ce_key e) ies.*2 (rep_sizes _ _ _ H)) as Hb'.
  pose proof (total_without _ _ _ (rep_keys _ _ _ H) He) as Ht. fold (LruSpec.without (ce_key e) ies.*2) in Hb'.
  constructor; rewrite ?Hf.
  - simpl. rewrite (rep_list _ _ _ H). apply filter_fmap_fst.
  - intros j d [_ Hj]%list_elem_of_filter. simpl. by apply (rep_heap _ _ _ H).
  - rewrite <- filter_fmap_fst. apply list.NoDup_filter, (rep_nodup _ _ _ H).
  - eapply sublist_NoDup; [apply (rep_keys _ _ _ H)|]. apply fmap_sublist, sublist_filter.
  - intros k j. simpl. rewrite Hent, lookup_delete_Some, (rep_items _ _ _ H). split.
    + intros (Hk & d & Hd & <-). exists d. split; [|done]. apply list_elem_of_filter. split; [|done].
      simpl. intros ->. apply Hk. by rewrite (fst_unique _ _ _ _ (rep_nodup _ _ _ H) Hd He).
    + intros (d & [Hn Hd]%list_elem_of_filter & <-). simpl in Hn. split; [|by exists d].
      intros Hk. apply Hn. pose proof (key_unique _ _ _ _ _ (rep_keys _ _ _ H) He Hd Hk). by simplify_eq.
  - intros j. rewrite <- filter_fmap_fst. intros [_ Hj]%list_elem_of_filter. by apply (rep_next _ _ _ H).
  - apply list.Forall_forall. intros d [_ Hd]%list_elem_of_filter.
    by eapply (proj1 (list.Forall_forall _ _) (rep_sizes _ _ _ H)).
  - simpl. rewrite (rep_size _ _ _ H), Hent, Ht. apply wrap64_id.
    unfold sane in Hsane. unfold min_int64, max_int64. lia.
  - lia.
Qed.

Lemma fit_all room es : 
  Forall (λ e, ce_size e = estimateSize (ce_value e)) es →
  (LruSpec.total es ≤ room)%Z → LruSpec.fit room es = es.
Proof.
  intros Hs. revert room; induction Hs as [|e es He Hs IH]; intros room Ht; [done|]. simpl in *.
  pose proof (total_nonneg _ Hs). rewrite (proj2 (Z.leb_le _ _)) by lia. f_equal. apply IH. lia.
Qed.

Lemma fit_drop_last room es e :
  Forall (λ e, ce_size e = estimateSize (ce_value e)) (es ++ [e]) →
  (room < LruSpec.total (es ++ [e]))%Z → LruSpec.fit room (es ++ [e]) = LruSpec.fit room es.
Proof.
  revert room; induction es as [|d es IH]; intros room Hs Ht; simpl in *.
  - by rewrite (proj2 (Z.leb_gt _ _)) by lia.
  - destruct (_ <=? _)%Z; [|done]. f_equal. apply IH; [by inversion Hs|]. lia.
Qed.

Lemma fit_sublist room es : LruSpec.fit room es `sublist_of` es.
Proof.
  revert room; induction es as [|e es IH]; intros room; simpl; [done|].
  destruct (_ <=? _)%Z; [by constructor|]. apply sublist_nil_l.
Qed.

Lemma without_last es e :
  NoDup (ce_key <$> es ++ [e]) → LruSpec.without (ce_key e) (es ++ [e]) = es.
Proof.
  rewrite fmap_app. intros (_ & Hd & _)%list.NoDup_app. unfold LruSpec.without.
  rewrite list.filter_app, filter_cons, decide_False by auto. rewrite app_nil_r.
  apply list_filter_all. intros x Hx Hk. apply (Hd (ce_key x)); [by apply list_elem_of_fmap_2|].
  rewrite Hk. simpl. left.
Qed.

Lemma evictOldest_rep c ies i e :
  represents cfg c (ies ++ [(i, e)]) →
  ∃ c' ies', evictOldest cfg c = Some c' ∧ represents cfg c' ies' ∧ ies'.*2 = ies.*2 ∧
    next_elem c' = next_elem c.
Proof.
  intros H. unfold evictOldest. rewrite (rep_list _ _ _ H), fmap_app. simpl. rewrite last_snoc.
  destruct (removeElement_rep _ _ i e H) as [Hr He]; [apply elem_of_app; right; left|].
  eexists _, _. split; [done|]. split; [done|]. split; [|done].
  rewrite He, fmap_app. apply without_last. pose proof (rep_keys _ _ _ H) as Hk.
  by rewrite fmap_app in Hk.
Qed.

(** The eviction loop always makes room, and keeps the longest prefix that fits. *)
Lemma makeRoom_rep fuel sz c ies :
  represents cfg c ies → (0 ≤ sz ≤ MaxSize cfg)%Z → length ies < fuel →
  ∃ c' ies', makeRoom cfg fuel sz c = (Ok tt, c') ∧ represents cfg c' ies' ∧
    ies'.*2 = LruSpec.fit (MaxSize cfg - sz) ies.*2 ∧ next_elem c' = next_elem c.
Proof.
  revert c ies; induction fuel as [|fuel IH]; intros c ies H Hsz Hf; [lia|]. simpl.
  pose proof (rep_total_bounds _ _ H) as Hb.
  assert (wrap64 (Size c + sz) = (LruSpec.total ies.*2 + sz)%Z) as ->.
  { rewrite (rep_size _ _ _ H). apply wrap64_id. unfold sane in Hsane.
    unfold min_int64, max_int64. lia. }
  destruct (_ <? _)%Z eqn:E.
  - apply Z.ltb_lt in E. destruct ies as [|[i e] ies0 _] using rev_ind; [simpl in *; lia|].
    destruct (evictOldest_rep _ _ _ _ H) as (c1 & ies1 & -> & H1 & He1 & Hn1).
    rewrite length_app in Hf. simpl in Hf.
    destruct (IH c1 ies1 H1 Hsz) as (c2 & ies2 & -> & H2 & He2 & Hn2).
    { apply (f_equal length) in He1. rewrite !length_fmap in He1. lia. }
    exists c2, ies2. split_and!; try done; [|congruence].
    rewrite He2, He1, fmap_app. symmetry. pose proof (rep_sizes _ _ _ H) as Hs.
    rewrite fmap_app in Hs, E. apply fit_drop_last; [done|]. simpl in *. lia.
  - apply Z.ltb_ge in E. exists c, ies. split_and!; try done.
    symmetry. apply fit_all; [apply (rep_sizes _ _ _ H)|lia].
Qed.

Lemma insert_rep c ies now k v :
  represents cfg c ies → k ∉ (ce_key <$> ies.*2) →
  (LruSpec.total ies.*2 + estimateSize v ≤ MaxSize cfg)%Z →
  let element := next_elem c in
  let entry := new_entry cfg now k v in
  represents cfg
    (mkCache (<[k := element]> (items c)) (element :: evictList c)
       (<[element := entry]> (elems c)) (S element) (Hits c) (Misses c) (Evictions c)
       (wrap64 (Size c + ce_size entry)) (evicted c)) ((element, entry) :: ies).
Proof.
  intros H Hk Ht element entry.
  assert (element ∉ ies.*1) as Hnew by (intros Hin%(rep_next _ _ _ H); unfold element in *; lia).
  constructor; simpl.
  - by rewrite (rep_list _ _ _ H).
  - intros i e [Hi|Hi]%elem_of_cons; simplify_eq; [by rewrite lookup_insert_eq|].
    rewrite lookup_insert_ne; [by apply (rep_heap _ _ _ H)|]. intros ->.
    apply Hnew. by apply (list_elem_of_fmap_2 fst ies (i, e)).
  - constructor; [done|apply (rep_nodup _ _ _ H)].
  - constructor; [done|apply (rep_keys _ _ _ H)].
  - intros k' i. rewrite lookup_insert_Some, (rep_items _ _ _ H). split.
    + intros [[-> <-]|(Hn & e & He & <-)]; [exists entry; split; [left|done]|].
      exists e. split; [by right|done].
    + intros (e & [He|He]%elem_of_cons & <-); [simplify_eq; by left|]. right.
      split; [|by exists e]. intros Hk'. apply Hk. simpl in Hk'. rewrite Hk'.
      by apply list_elem_of_fmap_2, (list_elem_of_fmap_2 snd ies (i, e)).
  - intros i [->|Hi]%elem_of_cons; [lia|]. apply (rep_next _ _ _ H) in Hi. unfold element. lia.
  - constructor; [done|apply (rep_sizes _ _ _ H)].
  - change (ce_size entry) with (estimateSize v). rewrite (rep_size _ _ _ H). pose proof (rep_total_bounds _ _ H).
    pose proof (estimateSize_nonneg v). rewrite wrap64_id; [apply Z.add_comm|].
    unfold sane in Hsane. unfold min_int64, max_int64. lia.
  - by rewrite Z.add_comm in Ht.
Qed.

Lemma fit_total room es : (0 ≤ room)%Z → (LruSpec.total (LruSpec.fit room es) ≤ room)%Z.
Proof.
  revert room; induction es as [|e es IH]; intros room Hr; simpl; [done|].
  destruct (_ <=? _)%Z eqn:E; simpl; [|done]. apply Z.leb_le in E.
  specialize (IH (room - ce_size e)%Z). lia.
Qed.

Lemma without_key k es : k ∉ (ce_key <$> LruSpec.without k es).
Proof. intros (e & He & [Hn _]%list_elem_of_filter)%list_elem_of_fmap. by subst. Qed.

Lemma without_absent k es : k ∉ (ce_key <$> es) → LruSpec.without k es = es.
Proof.
  intros Hk. apply list_filter_all. intros x Hx <-. apply Hk. by apply list_elem_of_fmap_2.
Qed.

Lemma absent_rep c ies k : represents cfg c ies → items c !! k = None → k ∉ (ce_key <$> ies.*2).
Proof.
  intros H Hk (e & -> & ([i e'] & -> & Hi)%list_elem_of_fmap)%list_elem_of_fmap. simpl in Hk.
  assert (items c !! ce_key e' = Some i) by (apply (rep_items _ _ _ H); eauto). congruence.
Qed.

(** Dropping the present entry of [k], if there is one. *)
Lemma drop_key_rep c ies k :
  represents cfg c ies →
  ∃ ies', represents cfg (match items c !! k with Some ent => removeElement cfg ent c | None => c end) ies' ∧
    ies'.*2 = LruSpec.without k ies.*2.
Proof.
  intros H. destruct (items c !! k) as [i|] eqn:Hk.
  - destruct (lookup_rep_Some _ _ _ _ H Hk) as (e & He & <- & _).
    destruct (removeElement_rep _ _ _ _ H He) as [Hr Hw]. by eexists.
  - exists ies. split; [done|]. symmetry. eapply without_absent, absent_rep; done.
Qed.

Lemma count_miss_rep c ies : represents cfg c ies → represents cfg (count_miss c) ies.
Proof. intros []. by constructor. Qed.

Lemma Get_rep now k c ies :
  represents cfg c ies →
  ∃ ies', represents cfg (snd (Get cfg now k c)) ies' ∧
    LruSpec.get now k ies.*2 = (fst (Get cfg now k c), ies'.*2).
Proof.
  intros H. unfold Get, Get_locked, LruSpec.get. rewrite (find_rep _ _ _ H).
  destruct (items c !! k) as [i|] eqn:Hk; [|by exists ies; split; [apply count_miss_rep|]].
  destruct (lookup_rep_Some _ _ _ _ H Hk) as (e & He & <- & ->).
  destruct (removeElement_rep _ _ _ _ H He) as [Hr Hw].
  destruct (expired now e) eqn:Hx; simpl.
  - exists (filter (λ p, p.1 ≠ i) ies). split; [|by rewrite <- Hw]. by apply count_miss_rep.
  - exists ((i, touch now e) :: filter (λ p, p.1 ≠ i) ies). split.
    2:{ by rewrite fmap_cons, Hw. }
    pose proof (rep_total_bounds _ _ H) as Hb.
    pose proof (total_without _ _ _ (rep_keys _ _ _ H) He) as Ht.
    destruct Hr as [H1 H2 H3 H4 H5 H6 H7 H8 H9].
    constructor; cbn [evictList elems items next_elem Size]; rewrite ?fmap_cons.
    + by rewrite <- H1.
    + intros j d [Hd|Hd]%elem_of_cons; simplify_eq; [by rewrite lookup_insert_eq|].
      apply list_elem_of_filter in Hd as Hd'. destruct Hd' as [Hn _]. simpl in Hn.
      rewrite lookup_insert_ne by done. by apply H2.
    + constructor; [|done]. rewrite <- filter_fmap_fst. intros [Hn _]%list_elem_of_filter. done.
    + constructor; [|done]. rewrite Hw. apply without_key.
    + intros k j. rewrite (rep_items _ _ _ H). split.
      * intros (d & Hd & <-). destruct (decide (j = i)) as [->|Hn].
        { exists (touch now e). split; [left|]. by rewrite (fst_unique _ _ _ _ (rep_nodup _ _ _ H) Hd He). }
        exists d. split; [|done]. right. by apply list_elem_of_filter.
      * intros (d & [Hd|[_ Hd]%list_elem_of_filter]%elem_of_cons & <-); simplify_eq; eauto.
    + intros j [->|Hj]%elem_of_cons; [|by apply H6].
      simpl. apply (rep_next _ _ _ H). by apply (list_elem_of_fmap_2 fst ies (i, e)).
    + constructor; [|done]. change (ce_size e = estimateSize (ce_value e)). apply (proj1 (list.Forall_forall _ _) (rep_sizes _ _ _ H)).
      by apply (list_elem_of_fmap_2 snd ies (i, e)).
    + rewrite (rep_size _ _ _ H), Hw. simpl. rewrite Ht. lia.
    + rewrite Hw. simpl. rewrite Ht. lia.
Qed.

Lemma Set_rep now k v c ies :
  represents cfg c ies →
  ∃ ies', represents cfg (snd (Set_ cfg now k v c)) ies' ∧
    LruSpec.set cfg now k v ies.*2 = (fst (Set_ cfg now k v c), ies'.*2).
Proof.
  intros H. unfold Set_, LruSpec.set. destruct (_ <? _)%Z eqn:E; [by exists ies|].
  apply Z.ltb_ge in E. pose proof (estimateSize_nonneg v) as Hv.
  destruct (drop_key_rep _ _ k H) as (ies1 & H1 & He1).
  set (c1 := match items c !! k with Some ent => removeElement cfg ent c | None => c end) in *.
  destruct (makeRoom_rep (S (length (evictList c1))) (estimateSize v) c1 ies1 H1 ltac:(lia))
    as (c2 & ies2 & -> & H2 & He2 & Hn2).
  { rewrite (rep_list _ _ _ H1), length_fmap. lia. }
  exists ((next_elem c2, new_entry cfg now k v) :: ies2). simpl. split.
  - apply insert_rep; [done| |].
    + rewrite He2, He1. intros Hin. apply (without_key k ies.*2).
      eapply elem_of_sublist; [exact Hin|]. apply fmap_sublist, fit_sublist.
    + rewrite He2. pose proof (fit_total (MaxSize cfg - estimateSize v) ies1.*2). lia.
  - rewrite <- He1, <- He2. done.
Qed.

Lemma Remove_rep k c ies :
  represents cfg c ies →
  ∃ ies', represents cfg (snd (Remove cfg k c)) ies' ∧
    LruSpec.remove k ies.*2 = (fst (Remove cfg k c), ies'.*2).
Proof.
  intros H. unfold Remove, LruSpec.remove. rewrite (find_rep _ _ _ H).
  destruct (drop_key_rep _ _ k H) as (ies1 & H1 & He1).
  destruct (items c !! k) as [i|]; exists ies1; by rewrite <- He1.
Qed.

Lemma purge_loop_rep now ents count c ies :
  represents cfg c ies → NoDup ents → (∀ i, i ∈ ents → i ∈ ies.*1) →
  ∃ ies', represents cfg (snd (purge_loop cfg now ents count c)) ies' ∧
    ies' = filter (λ p, ¬ (p.1 ∈ ents ∧ expired now p.2 = true)) ies ∧
    fst (purge_loop cfg now ents count c) + length ies' = count + length ies.
Proof.
  revert count c ies; induction ents as [|i ents IH]; intros count c ies H Hnd Hin; simpl.
  - exists ies. split; [done|]. split; [|done]. symmetry. apply list_filter_all.
    intros x _ [Hx _]. by apply not_elem_of_nil in Hx.
  - apply list.NoDup_cons in Hnd as [Hni Hnd].
    assert (∃ e, (i, e) ∈ ies) as [e He].
    { pose proof (Hin i (list_elem_of_here _ _)) as ([j e] & -> & He)%list_elem_of_fmap. by exists e. }
    rewrite (the_entry_rep _ _ _ _ H He). destruct (expired now e) eqn:Hx.
    + destruct (removeElement_rep _ _ _ _ H He) as [Hr Hw].
      destruct (IH (S count) _ _ Hr Hnd) as (ies' & H' & He' & Hc).
      { intros j Hj. rewrite <- filter_fmap_fst. apply list_elem_of_filter. split; [by intros ->|].
        apply Hin. by right. }
      exists ies'. split; [done|]. split.
      * rewrite He', list_filter_filter. apply list_filter_ext_elem. intros [j d] Hd. simpl.
        rewrite elem_of_cons. split; [tauto|]. intros Hn. split; [tauto|]. intros ->.
        apply Hn. rewrite (fst_unique _ _ _ _ (rep_nodup _ _ _ H) Hd He). auto.
      * rewrite Hc. assert (length ies = S (length (filter (λ p, p.1 ≠ i) ies))) as ->; [|lia].
        clear -He H. apply filter_one_out in He; [done|apply (rep_nodup _ _ _ H)].
    + destruct (IH count _ _ H Hnd) as (ies' & H' & He' & Hc).
      { intros j Hj. apply Hin. by right. }
      exists ies'. split; [done|]. split; [|done].
      rewrite He'. apply list_filter_ext_elem. intros [j d] Hd. simpl. rewrite elem_of_cons.
      split; [|tauto]. intros Hn [[->|Hj] Hxd]; [|tauto].
      rewrite (fst_unique _ _ _ _ (rep_nodup _ _ _ H) Hd He) in Hxd. congruence.
Qed.

Lemma range_order_rep c ies order :
  represents cfg c ies → range_order c order → NoDup order ∧ ∀ i, i ∈ order ↔ i ∈ ies.*1.
Proof.
  intros H Hord. unfold range_order in Hord.
  assert (∀ i, i ∈ order ↔ i ∈ ies.*1) as Hiff.
  { intros i. rewrite Hord, !list_elem_of_fmap. split.
    - intros ([k j] & -> & (e & He & <-)%elem_of_map_to_list%(rep_items _ _ _ H)). by exists (j, e).
    - intros ([j e] & -> & He). exists (ce_key e, j). split; [done|].
      apply elem_of_map_to_list, (rep_items _ _ _ H). eauto. }
  split; [|done]. rewrite Hord. apply NoDup_fmap_2_strong; [|apply NoDup_map_to_list].
  intros [k i] [k' i'] (e & He & <-)%elem_of_map_to_list%(rep_items _ _ _ H)
    (e' & He' & <-)%elem_of_map_to_list%(rep_items _ _ _ H). simpl. intros ->.
  by rewrite (fst_unique _ _ _ _ (rep_nodup _ _ _ H) He He').
Qed.

Lemma PurgeExpired_rep order now c ies :
  represents cfg c ies → range_order c order →
  ∃ ies', represents cfg (snd (PurgeExpired cfg order now c)) ies' ∧
    LruSpec.purge now ies.*2 = (fst (PurgeExpired cfg order now c), ies'.*2).
Proof.
  intros H Hord. destruct (range_order_rep _ _ _ H Hord) as [Hnd Hids].
  destruct (purge_loop_rep now order 0 c ies H Hnd) as (ies' & H' & He & Hc).
  { intros i. by rewrite Hids. }
  assert (ies'.*2 = filter (λ e, expired now e = false) ies.*2) as He2.
  { rewrite He. clear He Hc H'. assert (∀ p, p ∈ ies → p.1 ∈ order) as Hall.
    { intros p Hp. rewrite Hids. by apply list_elem_of_fmap_2. }
    clear -Hall. induction ies as [|[i e] l IH]; [done|]. rewrite fmap_cons, !filter_cons. simpl.
    assert (i ∈ order) by (apply (Hall (i, e)); left).
    rewrite <- IH by (intros p Hp; apply Hall; by right).
    destruct (expired now e); [rewrite decide_False, decide_False by naive_solver; done|].
    rewrite decide_True by (by intros [_ ?]). by rewrite decide_True. }
  exists ies'. split; [exact H'|]. unfold LruSpec.purge, PurgeExpired. f_equal; [|done].
  pose proof (filter_split_length (expired now) ies.*2) as Hl. rewrite <- He2 in Hl.
  rewrite !length_fmap in Hl. lia.
Qed.

Lemma Clear_rep order c ies : represents cfg c ies → represents cfg (Clear cfg order c) [].
Proof.
  intros H. unfold sane in Hsane. constructor; simpl; try done; try constructor; try lia.
  - intros i e Hi. by apply not_elem_of_nil in Hi.
  - by rewrite lookup_empty.
  - by intros (e & Hi%not_elem_of_nil & _).
  - intros i Hi. by apply not_elem_of_nil in Hi.
Qed.

End Refine.

(** ** Runs of the cache *)

Inductive cache_op :=
| OGet (key : string) | OSet (key : string) (value : Value) | ORemove (key : string)
| OPurge | OCleanup | OClear | OLen | OSize.

Inductive cache_out :=
| RGet (r : option Value) | RSet (r : res cache_error unit) | RRemove (b : bool)
| RCount (n : nat) | RSize (n : Z) | RUnit.

(** One call at time [now]; the map order of a [range] is any order. *)
Inductive cache_step (cfg : CacheConfig) (now : Z) (c : Cache) : cache_op → cache_out → Cache → Prop :=
| step_Get k : cache_step cfg now c (OGet k) (RGet (fst (Get cfg now k c))) (snd (Get cfg now k c))
| step_Set k v :
    cache_step cfg now c (OSet k v) (RSet (fst (Set_ cfg now k v c))) (snd (Set_ cfg now k v c))
| step_Remove k : cache_step cfg now c (ORemove k) (RRemove (fst (Remove cfg k c))) (snd (Remove cfg k c))
| step_Purge order :
    range_order c order →
    cache_step cfg now c OPurge (RCount (fst (PurgeExpired cfg order now c))) (snd (PurgeExpired cfg order now c))
| step_Cleanup order :
    range_order c order → cache_step cfg now c OCleanup RUnit (cleanupExpired cfg order now c)
| step_Clear order : range_order c order → cache_step cfg now c OClear RUnit (Clear cfg order c)
| step_Len : cache_step cfg now c OLen (RCount (Len c)) c
| step_Size : cache_step cfg now c OSize (RSize (Size c)) c.

Inductive cache_run (cfg : CacheConfig) : Cache → list (Z * cache_op) → list cache_out → Cache → Prop :=
| run_nil c : cache_run cfg c [] [] c
| run_cons now op out outs c c1 c2 ops :
    cache_step cfg now c op out c1 → cache_run cfg c1 ops outs c2 →
    cache_run cfg c ((now, op) :: ops) (out :: outs) c2.

(** The same calls on the contract. *)
Definition spec_step (cfg : CacheConfig) (now : Z) (op : cache_op) (es : list cacheEntry)
    : cache_out * list cacheEntry :=
  match op with
  | OGet k => let (r, es') := LruSpec.get now k es in (RGet r, es')
  | OSet k v => let (r, es') := LruSpec.set cfg now k v es in (RSet r, es')
  | ORemove k => let (b, es') := LruSpec.remove k es in (RRemove b, es')
  | OPurge => let (n, es') := LruSpec.purge now es in (RCount n, es')
  | OCleanup => (RUnit, snd (LruSpec.purge now es))
  | OClear => (RUnit, [])
  | OLen => (RCount (length es), es)
  | OSize => (RSize (LruSpec.total es), es)
  end.

Fixpoint spec_run (cfg : CacheConfig) (ops : list (Z * cache_op)) (es : list cacheEntry)
    : list cache_out * list cacheEntry :=
  match ops with
  | [] => ([], es)
  | (now, op) :: ops' =>
      let (out, es1) := spec_step cfg now op es in
      let (outs, es2) := spec_run cfg ops' es1 in (out :: outs, es2)
  end.

Lemma Len_rep cfg c ies : represents cfg c ies → Len c = length ies.
Proof.
  intros H. unfold Len. rewrite <- length_map_to_list.
  destruct (range_order_rep cfg c ies ((map_to_list (items c)).*2) H (Permutation_refl _)) as [Hnd Hids].
  rewrite <- (length_fmap fst ies).
  rewrite <- (length_fmap snd (map_to_list (items c))).
  apply Permutation_length, NoDup_Permutation; [done|apply (rep_nodup _ _ _ H)|done].
Qed.

Lemma cache_step_refines cfg now op out c c' ies :
  sane cfg → represents cfg c ies → cache_step cfg now c op out c' →
  ∃ ies', represents cfg c' ies' ∧ spec_step cfg now op ies.*2 = (out, ies'.*2).
Proof.
  intros Hs H Hstep. destruct Hstep as [k|k v|k|order Hord|order Hord|order Hord| |]; cbn [spec_step].
  - destruct (Get_rep cfg Hs now k c ies H) as (ies' & H' & ->). by exists ies'.
  - destruct (Set_rep cfg Hs now k v c ies H) as (ies' & H' & ->). by exists ies'.
  - destruct (Remove_rep cfg Hs k c ies H) as (ies' & H' & ->). by exists ies'.
  - destruct (PurgeExpired_rep cfg Hs order now c ies H Hord) as (ies' & H' & ->). by exists ies'.
  - destruct (PurgeExpired_rep cfg Hs order now c ies H Hord) as (ies' & H' & ->). by exists ies'.
  - exists []. split; [by apply Clear_rep with ies|done].
  - exists ies. split; [done|]. by rewrite (Len_rep _ _ _ H), length_fmap.
  - exists ies. split; [done|]. by rewrite (rep_size _ _ _ H).
Qed.

Lemma NewCache_rep cfg : sane cfg → represents cfg NewCache [].
Proof.
  intros Hs. unfold sane in Hs. constructor; simpl; try done; try constructor; try lia.
  - intros i e Hi. by apply not_elem_of_nil in Hi.
  - by rewrite lookup_empty.
  - by intros (e & Hi%not_elem_of_nil & _).
  - intros i Hi. by apply not_elem_of_nil in Hi.
Qed.

Lemma cache_run_refines cfg c ops outs c' ies :
  sane cfg → represents cfg c ies → cache_run cfg c ops outs c' →
  ∃ ies', represents cfg c' ies' ∧ spec_run cfg ops ies.*2 = (outs, ies'.*2).
Proof.
  intros Hs H Hrun. revert ies H. induction Hrun as [c|now op out outs c c1 c2 ops Hstep _ IH]; intros ies H.
  - by exists ies.
  - destruct (cache_step_refines _ _ _ _ _ _ _ Hs H Hstep) as (ies1 & H1 & Hsp).
    destruct (IH ies1 H1) as (ies2 & H2 & Hsp2). exists ies2. split; [done|].
    simpl. by rewrite Hsp, Hsp2.
Qed.

(** ** Properties *)

(** C4: The cache implements its contract.  In every run of calls from a new
    cache with a sane size limit, whatever the clock readings and the map
    iteration orders, each call returns what the same call returns on a plain
    list of entries, most recently used first: [Get] hits exactly the unexpired
    stored keys and makes them most recent, [Set] stores the value unless it
    alone exceeds [MaxSize] and evicts exactly the least recently used entries
    that no longer fit, [Remove], [PurgeExpired], [Clear] and [Len] act on the
    stored entries, and [Size] is the sum of the stored sizes. *)
Theorem cache_refines_lru (cfg : CacheConfig) (ops : list (Z * cache_op)) (outs : list cache_out) (c' : Cache) :
  sane cfg → cache_run cfg NewCache ops outs c' →
  fst (spec_run cfg ops []) = outs ∧
  (∃ ies, represents cfg c' ies ∧ snd (spec_run cfg ops []) = ies.*2) ∧ (0 ≤ Size c' ≤ MaxSize cfg)%Z.
Proof.
  intros Hs Hrun.
  destruct (cache_run_refines cfg NewCache ops outs c' [] Hs (NewCache_rep _ Hs) Hrun) as (ies & H & Hsp).
  change ([].*2) with (@nil cacheEntry) in Hsp. rewrite Hsp. split; [done|]. split; [by exists ies|].
  rewrite (rep_size _ _ _ H). by apply rep_total_bounds with c'.
Qed.

Lemma cache_refines_lru_witness :
  let cfg := mkCacheConfig 20 5 true in
  let ops := [(1, OSet "a" (VString "12345678")); (2, OSet "b" (VInt KInt 7)); (3, OGet "a");
              (4, OSet "c" VNil); (5, OGet "b"); (6, OGet "a"); (9, OGet "c"); (10, OLen)]%Z%string in
  ∃ outs c', cache_run cfg NewCache ops outs c' ∧
    outs = [RSet (Ok tt); RSet (Ok tt); RGet (Some (VString "12345678")); RSet (Ok tt); RGet None;
            RGet (Some (VString "12345678")); RGet (Some VNil); RCount 2]%string ∧
    fst (spec_run cfg ops []) = outs ∧ (0 ≤ Size c' ≤ 20)%Z.
Proof.
  intros cfg ops.
  assert (∃ c', cache_run cfg NewCache ops
    [RSet (Ok tt); RSet (Ok tt); RGet (Some (VString "12345678")); RSet (Ok tt); RGet None;
     RGet (Some (VString "12345678")); RGet (Some VNil); RCount 2]%string c') as [c' Hrun].
  { eexists. repeat (eapply run_cons; [econstructor|]). apply run_nil. }
  eexists _, c'. split; [exact Hrun|]. split; [reflexivity|].
  destruct (cache_refines_lru cfg ops _ c' ltac:(vm_compute; split; [discriminate|reflexivity]) Hrun)
    as (H1 & _ & H3). split; [exact H1|exact H3].
Defined.

Lemma makeRoom_elems cfg fuel sz c :
  elems (snd (makeRoom cfg fuel sz c)) = elems c ∧ next_elem (snd (makeRoom cfg fuel sz c)) = next_elem c.
Proof.
  revert c; induction fuel as [|fuel IH]; intros c; simpl; [done|].
  destruct (_ <? _)%Z; [|done]. unfold evictOldest.
  destruct (list.last (evictList c)) as [i|]; [|done]. by destruct (IH (removeElement cfg i c)) as [-> ->].
Qed.

(** [Get] of an expired key is not atomic, and a [Set] of the same key that
    runs between its two critical sections is undone.  When goroutine A's [Get]
    has found key [k] expired and released the read lock, and goroutine B's
    [Set] then stores a new value under [k] successfully, A's [removeElement] of
    the stale element deletes B's key from the map: the new value is unreachable
    while its element stays in the LRU list, and the stale entry's size is
    subtracted from [Size] a second time. *)
Theorem get_expired_race (cfg : CacheConfig) (c c1 : Cache) (ies : list (nat * cacheEntry))
    (now now' : Z) (k : string) (v : Value) (ent : nat) :
  represents cfg c ies → Get_locked now k c = (GotExpired ent, c) → Set_ cfg now' k v c = (Ok tt, c1) →
  let c2 := Get_expired cfg ent c1 in
  items c2 !! k = None ∧
  (∃ j, j ∈ evictList c2 ∧ elems c2 !! j = Some (new_entry cfg now' k v)) ∧
  Size c2 = wrap64 (Size c1 - ce_size (the_entry c ent)).
Proof.
  intros H Hget Hset. unfold Get_locked in Hget.
  destruct (items c !! k) as [i|] eqn:Hk; [|done].
  destruct (lookup_rep_Some _ _ _ _ _ H Hk) as (e & He & <- & Hent).
  rewrite Hent in Hget. destruct (expired now e); simplify_eq.
  unfold Set_ in Hset. rewrite Hk in Hset. destruct (_ <? _)%Z; [done|].
  pose proof (makeRoom_elems cfg (S (length (evictList (removeElement cfg ent c)))) (estimateSize v)
    (removeElement cfg ent c)) as [Hel Hnx].
  destruct (makeRoom _ _ _ _) as [[[]| | |] cr]; simplify_eq. simpl in Hel, Hnx.
  assert (ent < next_elem c) as Hlt.
  { apply (rep_next _ _ _ H). by apply (list_elem_of_fmap_2 fst ies (ent, the_entry c ent)). }
  assert (∀ m, the_entry (mkCache m (next_elem cr :: evictList cr)
    (<[next_elem cr := new_entry cfg now' (ce_key (the_entry c ent)) v]> (elems cr)) (S (next_elem cr))
    (Hits cr) (Misses cr) (Evictions cr)
    (wrap64 (Size cr + ce_size (new_entry cfg now' (ce_key (the_entry c ent)) v))) (evicted cr)) ent =
    the_entry c ent) as Hstale.
  { intros m. unfold the_entry at 1. cbn [elems]. rewrite lookup_insert_ne by lia.
    rewrite Hel, (rep_heap _ _ _ H _ _ He). done. }
  unfold Get_expired, removeElement, count_miss.
  cbn [items evictList elems next_elem Size evicted Hits Misses Evictions]. rewrite Hstale.
  split; [by rewrite lookup_delete_eq|]. split; [|done].
  exists (next_elem cr). split; [|by rewrite lookup_insert_eq].
  apply list_elem_of_filter. split; [lia|]. left.
Qed.

Lemma get_expired_race_witness :
  let cfg := mkCacheConfig 100 5 false in
  let c := snd (Set_ cfg 0 "k" (VString "old") NewCache) in
  let c1 := snd (Set_ cfg 10 "k" (VString "new") c) in
  let c2 := Get_expired cfg 0 c1 in
  fst (Get cfg 11 "k" c2) = None ∧ Size c2 = 0%Z ∧ evictList c2 = [1].
Proof.
  intros cfg c c1 c2.
  destruct (Set_rep cfg ltac:(vm_compute; split; [discriminate|reflexivity]) 0 "k" (VString "old") NewCache []
    (NewCache_rep cfg ltac:(vm_compute; split; [discriminate|reflexivity]))) as (ies & H & _).
  destruct (get_expired_race cfg c c1 ies 10 10 "k" (VString "new") 0 H eq_refl eq_refl) as (H1 & _ & H3).
  split; [|split; [exact H3|reflexivity]].
  unfold Get, Get_locked. fold c2 in H1. rewrite H1. reflexivity.
Defined.
