(* ===== verification/Eval.v ===== *)
(** * Evaluation of expression trees

    Models the [Evaluate] methods of the AST nodes and the built-in functions of
    src/validation/expression/expression.go.  A Go function held in a [Function]
    is its parameter types and its behaviour, so that [reflect.Value.Call] can
    check the arguments; [ctx.Value("engine")] is an optional function table.
    The clock is an argument.  The Unicode tables behind [strings.ToLower],
    [strings.ToUpper] and [strings.TrimSpace] on non-ASCII text and
    [time.Parse] are parameters. *)

From stdpp Require Import base tactics option list gmap strings numbers.
From Stdlib Require Import ZArith Lia SpecFloat Ascii.
From S2P Require Import Prelude Lexer Float64 GoValue Parser.
Open Scope go_scope.
Set Warnings "-register-all".

(** ** Functions and [reflect] calls *)

Inductive GoType := TFloat64 | TString | TBool | TAnySlice | TAny.

(** [AssignableTo] for the parameter types the engine's functions use. *)
Definition assignable (v : Value) (t : GoType) : bool :=
  match t, v with
  | TAny, _ | TFloat64, VFloat64 _ | TString, VString _ | TBool, VBool _ | TAnySlice, VSlice _ _ => true
  | _, _ => false
  end.

Definition is_nil (v : Value) : bool := match v with VNil => true | _ => false end.

(** What a Go function returned: nothing, or a value and an error that is nil
    when there is no second result. *)
Inductive call_result := NoResults | Results (v : Value) (err : option eval_error).

(** A handler of type [any]: a function (parameter types, whether the last is
    variadic, behaviour at a time; [None] is a panic) or any other value. *)
Inductive handler :=
| HFunc (ins : list GoType) (variadic : bool) (call : Z → list Value → option call_result)
| HNotFunc.

Record Function := mkFunction {
  fn_Name : string; fn_Handler : handler; fn_Validator : option (list Value → res eval_error ()) }.

(** [reflect.Value.Call]: an argument that is the zero [reflect.Value] (a nil
    [any]) or is not assignable to its parameter panics. *)
Definition reflect_call (now : Z) (ins : list GoType) (call : Z → list Value → option call_result)
    (params : list Value) : res eval_error call_result :=
  if forallb (λ vt, negb (is_nil (fst vt)) && assignable (fst vt) (snd vt)) (zip params ins)
  then match call now params with Some r => Ok r | None => Panic end
  else Panic.

(** The second half of [FunctionCallNode.Evaluate], after the arguments. *)
Definition call_function (now : Z) (name : string) (function : Function) (args : list Value)
    : res eval_error Value :=
  let! _ :=
    match fn_Validator function with
    | Some validator =>
        match validator args with
        | Ok _ => Ok tt
        | Err e => Err (InvalidArguments name e)
        | Panic => Panic
        | NoFuel => NoFuel
        end
    | None => Ok tt
    end in
  match fn_Handler function with
  | HNotFunc => Panic
  | HFunc ins _ call =>
      if length args <? length ins then Err (NotEnoughArguments name (length ins) (length args))
      else
        let! results := reflect_call now ins call (take (length ins) args) in
        match results with
        | NoResults => Err NoReturnValue
        | Results _ (Some e) => Err e
        | Results v None => Ok v
        end
  end.

(** ** [Evaluate] on each node *)

Section Evaluate.
Context (now : Z) (engine : option (gmap string Function)) (variables : gmap string Value).

Fixpoint Evaluate (n : Node) : res eval_error Value :=
  match n with
  | NumberNode value => Ok (VFloat64 value)
  | StringNode value => Ok (VString value)
  | IdentifierNode name => of_opt (variables !! name) (UndefinedVariable name)
  | BinaryOpNode lhs op rhs =>
      let! leftVal := rmap_err LeftOperandError (Evaluate lhs) in
      let! rightVal := rmap_err RightOperandError (Evaluate rhs) in
      rmap_err (OperatorError (op_Name op)) (op_Handler op leftVal rightVal)
  | FunctionCallNode name args =>
      match engine with
      | None => Panic
      | Some functions =>
          match functions !! name with
          | None => Err (FunctionNotRegistered name)
          | Some function =>
              let! vals :=
                (fix evalArgs (i : nat) (args : list Node) : res eval_error (list Value) :=
                   match args with
                   | [] => Ok []
                   | a :: args' =>
                       let! v := rmap_err (ArgumentError i name) (Evaluate a) in
                       let! vs := evalArgs (S i) args' in
                       Ok (v :: vs)
                   end) 0 args in
              call_function now name function vals
          end
      end
  end.

Fixpoint evalArgs (name : string) (i : nat) (args : list Node) : res eval_error (list Value) :=
  match args with
  | [] => Ok []
  | a :: args' =>
      let! v := rmap_err (ArgumentError i name) (Evaluate a) in
      let! vs := evalArgs name (S i) args' in
      Ok (v :: vs)
  end.

Lemma Evaluate_call name args :
  Evaluate (FunctionCallNode name args) =
  match engine with
  | None => Panic
  | Some functions =>
      match functions !! name with
      | None => Err (FunctionNotRegistered name)
      | Some function => let! vals := evalArgs name 0 args in call_function now name function vals
      end
  end.
Proof.
  cbn [Evaluate]. destruct engine as [functions|]; [|done]. destruct (functions !! name) as [f|]; [|done].
  f_equal. generalize 0. induction args as [|a args IH]; intros i; [done|]. simpl. by rewrite IH.
Qed.

End Evaluate.

(** Induction on nodes with the hypothesis for call arguments. *)
Lemma Node_ind' (P : Node → Prop)
  (Hnum : ∀ v, P (NumberNode v)) (Hstr : ∀ s, P (StringNode s)) (Hid : ∀ x, P (IdentifierNode x))
  (Hbin : ∀ l op r, P l → P r → P (BinaryOpNode l op r))
  (Hcall : ∀ f args, Forall P args → P (FunctionCallNode f args)) : ∀ n, P n.
Proof.
  fix IH 1. intros n. destruct n as [v|s|x|l op r|f args].
  1: apply Hnum. 1: apply Hstr. 1: apply Hid.
  - apply Hbin; apply IH.
  - apply Hcall. induction args as [|a args IHa]; constructor; [apply IH|exact IHa].
Qed.

(** ** The built-in functions ([registerDefaultFunctions]) *)

Section Defaults.
Context (unicode_ToLower unicode_ToUpper unicode_TrimSpace : string → string)
        (time_Parse : string → option GoTime) (time_Now : Z → GoTime).

Fixpoint str_map (f : ascii → ascii) (s : string) : string :=
  match s with EmptyString => EmptyString | String c s' => String (f c) (str_map f s') end.

Definition is_ascii (c : ascii) : bool := (N_of_ascii c <? 128)%N.

Definition lower_byte (c : ascii) : ascii :=
  if byte_between "A" "Z" c then ascii_of_N (N_of_ascii c + 32) else c.
Definition upper_byte (c : ascii) : ascii :=
  if byte_between "a" "z" c then ascii_of_N (N_of_ascii c - 32) else c.

(** [strings.ToLower] and [ToUpper]: bytewise when the string is ASCII. *)
Definition ToLower (s : string) : string :=
  if str_forallb is_ascii s then str_map lower_byte s else unicode_ToLower s.
Definition ToUpper (s : string) : string :=
  if str_forallb is_ascii s then str_map upper_byte s else unicode_ToUpper s.

(** The six ASCII white space bytes of [strings.TrimSpace]. *)
Definition is_space (c : ascii) : bool :=
  existsb (Ascii.eqb c) [" "; "009"; "010"; "011"; "012"; "013"]%char.

Fixpoint trim_left (s : string) : string :=
  match s with
  | String c s' => if is_space c then trim_left s' else s
  | EmptyString => EmptyString
  end.

Fixpoint str_rev (s acc : string) : string :=
  match s with EmptyString => acc | String c s' => str_rev s' (String c acc) end.

Definition TrimSpace (s : string) : string :=
  if str_forallb is_ascii s
  then str_rev (trim_left (str_rev (trim_left s) EmptyString)) EmptyString
  else unicode_TrimSpace s.

(** A function of one float64, one string or one []any. *)
Definition float_fn (f : float64 → float64) : handler :=
  HFunc [TFloat64] false (λ _ args,
    match args with [VFloat64 x] => Some (Results (VFloat64 (f x)) None) | _ => None end).
Definition string_fn (f : string → Value) : handler :=
  HFunc [TString] false (λ _ args,
    match args with [VString s] => Some (Results (f s) None) | _ => None end).
Definition array_fn (f : list Value → Value) : handler :=
  HFunc [TAnySlice] false (λ _ args,
    match args with [VSlice _ l] => Some (Results (f l) None) | _ => None end).

(** The loop of the [sum] handler. *)
Definition sum (arr : list Value) : float64 :=
  fold_left (λ s v, match toNumber v with Some num => f_add s num | None => s end) arr f_zero.

Definition now_fn : handler := HFunc [] false (λ now _, Some (Results (VTime (time_Now now)) None)).

Definition date_fn : handler :=
  HFunc [TString] false (λ _ args,
    match args with
    | [VString s] =>
        match time_Parse s with
        | Some t => Some (Results (VTime t) None)
        | None => Some (Results VNil (Some (HandlerError s)))
        end
    | _ => None
    end).

Definition if_fn : handler :=
  HFunc [TBool; TAny; TAny] false (λ _ args,
    match args with [VBool cond; t; f] => Some (Results (if cond then t else f) None) | _ => None end).

(** Variadic: [NumIn] is 1, so [reflect] passes the first argument only. *)
Definition coalesce_fn : handler :=
  HFunc [TAny] true (λ _ args, Some (Results (default VNil (list.head (filter (λ v, is_nil v = false) args))) None)).

Definition default_functions : list (string * Function) :=
  let entry name h v := (name, mkFunction name h v) in
  [entry "abs" (float_fn f_abs) (Some validateOneNumber);
   entry "round" (float_fn f_round) (Some validateOneNumber);
   entry "ceil" (float_fn f_ceil) (Some validateOneNumber);
   entry "floor" (float_fn f_floor) (Some validateOneNumber);
   entry "len" (string_fn (λ s, VInt KInt (Z.of_nat (String.length s)))) (Some validateOneString);
   entry "lower" (string_fn (λ s, VString (ToLower s))) (Some validateOneString);
   entry "upper" (string_fn (λ s, VString (ToUpper s))) (Some validateOneString);
   entry "trim" (string_fn (λ s, VString (TrimSpace s))) (Some validateOneString);
   entry "count" (array_fn (λ l, VInt KInt (Z.of_nat (length l)))) (Some validateOneArray);
   entry "sum" (array_fn (λ l, VFloat64 (sum l))) (Some validateOneArray);
   entry "now" now_fn None;
   entry "date" date_fn (Some validateOneString);
   entry "if" if_fn (Some validateThreeArgs);
   entry "coalesce" coalesce_fn None]%string.

Definition default_function_table : gmap string Function := list_to_map default_functions.

End Defaults.

(** ** A type system for expressions over the default tables *)

Inductive vtype := YFloat | YInt | YString | YBool | YArray | YTime.

#[global] Instance vtype_eq_dec : EqDecision vtype.
Proof. solve_decision. Defined.

Definition value_has (v : Value) (t : vtype) : bool :=
  match t, v with
  | YFloat, VFloat64 _ | YInt, VInt KInt _ | YString, VString _ | YBool, VBool _
  | YArray, VSlice _ _ | YTime, VTime _ => true
  | _, _ => false
  end.

Definition is_num (t : vtype) : bool := match t with YFloat | YInt => true | _ => false end.

Definition op_type (op : string) (tl tr : vtype) : option vtype :=
  if String.eqb op "+" then
    if is_num tl && is_num tr then Some YFloat
    else if bool_decide (tl = YString ∧ tr = YString) then Some YString else None
  else if existsb (String.eqb op) ["-"; "*"; "/"; "%"]%string then
    if is_num tl && is_num tr then Some YFloat else None
  else if existsb (String.eqb op) ["=="; "!="]%string then Some YBool
  else if existsb (String.eqb op) [">"; ">="; "<"; "<="]%string then
    if is_num tl && is_num tr then Some YBool else None
  else if existsb (String.eqb op) ["&&"; "||"]%string then
    if bool_decide (tl = YBool ∧ tr = YBool) then Some YBool else None
  else if bool_decide (tr = YBool) then Some YBool else None.

Definition fn_type (f : string) (targs : list vtype) : option vtype :=
  if existsb (String.eqb f) ["abs"; "round"; "ceil"; "floor"]%string then
    match targs with [YFloat] => Some YFloat | _ => None end
  else if String.eqb f "len" then match targs with [YString] => Some YInt | _ => None end
  else if existsb (String.eqb f) ["lower"; "upper"; "trim"]%string then
    match targs with [YString] => Some YString | _ => None end
  else if String.eqb f "count" then match targs with [YArray] => Some YInt | _ => None end
  else if String.eqb f "sum" then match targs with [YArray] => Some YFloat | _ => None end
  else if String.eqb f "now" then Some YTime
  else if String.eqb f "date" then match targs with [YString] => Some YTime | _ => None end
  else if String.eqb f "if" then
    match targs with [YBool; t1; t2] => if decide (t1 = t2) then Some t1 else None | _ => None end
  else if String.eqb f "coalesce" then match targs with t :: _ => Some t | [] => None end
  else None.

Inductive has_type (Γ : gmap string vtype) : Node → vtype → Prop :=
| HT_number v : has_type Γ (NumberNode v) YFloat
| HT_string s : has_type Γ (StringNode s) YString
| HT_ident x t : Γ !! x = Some t → has_type Γ (IdentifierNode x) t
| HT_binary l o r tl tr t :
    has_type Γ l tl → has_type Γ r tr → (op_Name o, o) ∈ default_operators →
    op_type (op_Name o) tl tr = Some t → has_type Γ (BinaryOpNode l o r) t
| HT_call f args targs t :
    Forall2 (has_type Γ) args targs → fn_type f targs = Some t → has_type Γ (FunctionCallNode f args) t.

(** The error an evaluation error wraps. *)
Fixpoint root_cause (e : eval_error) : eval_error :=
  match e with
  | LeftOperandError e | RightOperandError e | OperatorError _ e | ArgumentError _ _ e => root_cause e
  | _ => e
  end.

(** The run-time failures typing does not exclude. *)
Definition benign (e : eval_error) : bool :=
  match root_cause e with DivisionByZero | ModuloByZero | HandlerError _ => true | _ => false end.

Definition sound (t : vtype) (r : res eval_error Value) : Prop :=
  match r with
  | Ok v => value_has v t = true
  | Err e => benign e = true
  | Panic | NoFuel => False
  end.

Lemma value_num v t : value_has v t = true → is_num t = true → ∃ x, toNumber v = Some x.
Proof. destruct t, v; try done; simpl; eauto; by destruct k; eauto. Qed.

Ltac eval_numeric Hl Hr Hnl Hnr :=
  destruct (value_num _ _ Hl Hnl) as [?x Hx], (value_num _ _ Hr Hnr) as [?y Hy];
  unfold subtract, multiply, divide, modulo, greater, greaterEqual, less, lessEqual, numeric;
  rewrite Hx, Hy.

Lemma op_sound o vl vr tl tr t :
  (op_Name o, o) ∈ default_operators → op_type (op_Name o) tl tr = Some t →
  value_has vl tl = true → value_has vr tr = true → sound t (op_Handler o vl vr).
Proof.
  intros Hin Ht Hl Hr. apply list_elem_of_In in Hin. simpl in Hin.
  repeat destruct Hin as [Hin|Hin]; try done; injection Hin; intros <-; unfold op_type in Ht; simpl in Ht |- *; simplify_eq/=.
  1: { destruct (is_num tl && is_num tr) eqn:E; simplify_eq.
       - apply andb_true_iff in E as [E1 E2]. destruct (value_num _ _ Hl E1) as [x Hx].
         destruct (value_num _ _ Hr E2) as [y Hy]. unfold add, numeric. rewrite Hx, Hy.
         destruct tl; try discriminate E1; destruct vl; try discriminate Hl; reflexivity.
       - case_bool_decide as Hs; [|done]. destruct Hs as [-> ->]. simplify_eq. by destruct vl, vr. }
  all: try done.
  all: try (destruct (is_num tl && is_num tr) eqn:E; [|done]; simplify_eq;
            apply andb_true_iff in E as [E1 E2]; eval_numeric Hl Hr E1 E2; simpl;
            try done; by destruct (f_eqb _ _)).
  all: case_bool_decide as Hb; [|done]; simplify_eq.
  1, 2: destruct Hb as [-> ->]; by destruct vl, vr.
  by destruct vr.
Qed.

Lemma value_not_nil v t : value_has v t = true → is_nil v = false.
Proof. by destruct v, t. Qed.

Section TypeSound.
Context (uL uU uT : string → string) (tP : string → option GoTime) (tN : Z → GoTime).
Local Abbreviation table := (default_function_table uL uU uT tP tN).

Lemma table_lookup f fn : assoc f (default_functions uL uU uT tP tN) = Some fn → table !! f = Some fn.
Proof. intros H. by apply elem_of_list_to_map_1, assoc_elem; [apply (bool_decide_unpack _)|]. Qed.

(** One goal per built-in function and argument types. *)
Ltac fn_cases Ht :=
  unfold fn_type in Ht;
  repeat match type of Ht with
  | (if ?b then _ else _) = _ =>
      let E := fresh "E" in destruct b eqn:E;
      [simpl in E; rewrite ?orb_false_r in E; rewrite ?orb_true_iff, ?String.eqb_eq in E|clear E]
  end; try done;
  repeat match goal with H : _ ∨ _ |- _ => destruct H end; subst;
  repeat match type of Ht with match ?x with _ => _ end = _ => destruct x; try done end; simplify_eq.

Lemma fn_known f targs t : fn_type f targs = Some t → ∃ fn, table !! f = Some fn.
Proof. intros Ht. fn_cases Ht; eexists; apply table_lookup; reflexivity. Qed.

Lemma call_sound now f args targs t :
  Forall2 (λ v t, value_has v t = true) args targs → fn_type f targs = Some t →
  ∃ fn, table !! f = Some fn ∧ sound t (call_function now f fn args).
Proof.
  intros Hargs Ht. fn_cases Ht.
  all: repeat match goal with
       | H : Forall2 _ _ (_ :: _) |- _ => inversion H; clear H; subst
       | H : Forall2 _ _ [] |- _ => inversion H; clear H; subst
       end.
  all: eexists; split; [apply table_lookup; reflexivity|].
  all: try (match goal with H : value_has ?v ?t = true |- _ => destruct v; try discriminate H end; done).
  - by destruct args.
  - destruct x; try discriminate. unfold call_function. simpl. unfold reflect_call; simpl. destruct (tP s); reflexivity.
  - destruct x; try discriminate. unfold call_function, reflect_call. simpl.
    repeat match goal with H : value_has _ t = true |- _ => rewrite ?(value_not_nil _ _ H); revert H end.
    intros. simpl. by destruct b.
  - match goal with H : value_has x t = true |- _ =>
      destruct x; try (exfalso; clear -H; by destruct t); exact H end.
Qed.

Lemma has_type_ind' (Γ : gmap string vtype) (P : Node → vtype → Prop)
  (Hnum : ∀ v, P (NumberNode v) YFloat) (Hstr : ∀ s, P (StringNode s) YString)
  (Hid : ∀ x t, Γ !! x = Some t → P (IdentifierNode x) t)
  (Hbin : ∀ l o r tl tr t, P l tl → P r tr → (op_Name o, o) ∈ default_operators →
     op_type (op_Name o) tl tr = Some t → P (BinaryOpNode l o r) t)
  (Hcall : ∀ f args targs t, Forall2 P args targs → fn_type f targs = Some t →
     P (FunctionCallNode f args) t) :
  ∀ n t, has_type Γ n t → P n t.
Proof.
  fix IH 3. intros n t [v|s|x t' Hx|l o r tl tr t' Hl Hr Ho Ht|f args targs t' Hargs Ht].
  - apply Hnum.
  - apply Hstr.
  - by apply Hid.
  - eapply Hbin; [apply (IH _ _ Hl)|apply (IH _ _ Hr)|exact Ho|exact Ht].
  - eapply Hcall; [|exact Ht]. clear Ht. induction Hargs as [|a ta args targs Ha Hargs IHargs]; constructor;
      [apply (IH _ _ Ha)|exact IHargs].
Qed.

Definition vars_typed (Γ : gmap string vtype) (variables : gmap string Value) : Prop :=
  ∀ x t, Γ !! x = Some t → ∃ v, variables !! x = Some v ∧ value_has v t = true.

Lemma eval_args_sound now variables f i args targs :
  Forall2 (λ n t, sound t (Evaluate now (Some table) variables n)) args targs →
  match evalArgs now (Some table) variables f i args with
  | Ok vs => Forall2 (λ v t, value_has v t = true) vs targs
  | Err e => benign e = true
  | Panic | NoFuel => False
  end.
Proof.
  intros Hall. revert i. induction Hall as [|a t args targs Ha Hall IH]; intros i; simpl; [constructor|].
  destruct (Evaluate now (Some table) variables a) as [v| | |]; simpl in *; try done.
  specialize (IH (S i)). destruct (evalArgs now (Some table) variables f (S i) args); simpl; try done.
  by constructor.
Qed.

Lemma evaluate_sound now Γ variables n t :
  has_type Γ n t → vars_typed Γ variables → sound t (Evaluate now (Some table) variables n).
Proof.
  intros Ht Hv. induction Ht as [v|s|x t Hx|l o r tl tr t IHl IHr Ho Hop|f args targs t Hargs Ht]
    using has_type_ind'; [done|done|..].
  - cbn [Evaluate]. destruct (Hv _ _ Hx) as (v & -> & Hval). done.
  - cbn [Evaluate]. destruct (Evaluate now (Some table) variables l) as [vl| | |]; simpl in *; try done.
    destruct (Evaluate now (Some table) variables r) as [vr| | |]; simpl in *; try done.
    pose proof (op_sound o vl vr tl tr t Ho Hop IHl IHr) as Hs.
    by destruct (op_Handler o vl vr).
  - change (sound t (Evaluate now (Some table) variables (FunctionCallNode f args))).
    rewrite Evaluate_call. pose proof (eval_args_sound now variables f 0 args targs Hargs) as Ha.
    destruct (evalArgs now (Some table) variables f 0 args) as [vs| | |] eqn:E.
    + destruct (call_sound now f vs targs t Ha Ht) as (fn & -> & Hs). done.
    + destruct (fn_known _ _ _ Ht) as [fn ->]. exact Ha.
    + destruct Ha.
    + destruct Ha.
Qed.

End TypeSound.

(** ** Properties *)

Section EvalProperties.
Context (uL uU uT : string → string) (tP : string → option GoTime) (tN : Z → GoTime).
Local Abbreviation table := (default_function_table uL uU uT tP tN).

(** C2: Well-typed expressions do not go wrong.  An expression over the default
    operators and built-in functions that has type [t], evaluated with variables
    of the declared types, yields a value of type [t] or one of three errors
    (division by zero, modulo by zero, an unparsable date) under the messages
    that say where it happened; it never panics (a panic would end the process,
    because evaluation runs in a goroutine of its own), and no operator,
    argument-count or argument-type error is possible. *)
Theorem evaluate_type_sound (now : Z) (Γ : gmap string vtype) (variables : gmap string Value)
    (n : Node) (t : vtype) :
  has_type Γ n t → vars_typed Γ variables →
  (∃ v, Evaluate now (Some table) variables n = Ok v ∧ value_has v t = true) ∨
  (∃ e, Evaluate now (Some table) variables n = Err e ∧
     (root_cause e = DivisionByZero ∨ root_cause e = ModuloByZero ∨ ∃ s, root_cause e = HandlerError s)).
Proof.
  intros Ht Hv. pose proof (evaluate_sound uL uU uT tP tN now Γ variables n t Ht Hv) as Hs.
  destruct (Evaluate now (Some table) variables n) as [v|e| |]; simpl in Hs; try done; [eauto|].
  right. exists e. split; [done|]. unfold benign in Hs. destruct (root_cause e); try done; eauto.
Qed.

(** What the numeric built-ins do with each argument.  [abs], [round],
    [ceil] and [floor] of a float64 apply the function; of a value that is not a
    number they are an error; but of any other value the validator accepts as a
    number (an integer, a float32, a numeric string) they panic, because the
    handler takes a float64 and [reflect.Value.Call] does not convert. *)
Theorem numeric_builtin_cases (now : Z) (variables : gmap string Value) (f : string)
    (op : float64 → float64) (a : Node) :
  (f, op) ∈ [("abs", f_abs); ("round", f_round); ("ceil", f_ceil); ("floor", f_floor)]%string →
  Evaluate now (Some table) variables (FunctionCallNode f [a]) =
  match Evaluate now (Some table) variables a with
  | Ok (VFloat64 x) => Ok (VFloat64 (op x))
  | Ok v =>
      if is_some_b (toNumber v) then Panic
      else Err (InvalidArguments f (ExpectedType "number" (typeName v)))
  | Err e => Err (ArgumentError 0 f e)
  | Panic => Panic
  | NoFuel => NoFuel
  end.
Proof.
  intros Hf. rewrite Evaluate_call.
  assert (table !! f = Some (mkFunction f (float_fn op) (Some validateOneNumber))) as ->.
  { apply list_elem_of_In in Hf. simpl in Hf.
    repeat destruct Hf as [Hf|Hf]; try done; simplify_eq; apply table_lookup; reflexivity. }
  simpl. destruct (Evaluate now (Some table) variables a) as [v| | |]; simpl; try done.
  unfold call_function, reflect_call, validateOneNumber. simpl.
  destruct v; try done; simpl. by destruct (ParseFloat s).
Qed.

(** [coalesce] looks at its first argument only.  When all its arguments
    evaluate, the result is the first value if that is not nil, whatever follows;
    a nil first argument panics instead of being skipped (the variadic handler
    has one parameter, so one argument is passed, and a nil [any] cannot be). *)
Theorem coalesce_first_only (now : Z) (variables : gmap string Value) (args : list Node)
    (v : Value) (vs : list Value) :
  evalArgs now (Some table) variables "coalesce" 0 args = Ok (v :: vs) →
  Evaluate now (Some table) variables (FunctionCallNode "coalesce" args) =
  if is_nil v then Panic else Ok v.
Proof.
  intros Ha. rewrite Evaluate_call, Ha.
  rewrite (table_lookup uL uU uT tP tN "coalesce" (mkFunction "coalesce" coalesce_fn None) eq_refl).
  unfold call_function, reflect_call. simpl. by destruct v.
Qed.

End EvalProperties.

Definition id_string (s : string) : string := s.
Definition no_time (_ : string) : option GoTime := None.
Definition clock (now : Z) : GoTime := mkTime 0 now 0.

Lemma evaluate_type_sound_witness :
  let Γ := {["x" := YFloat]} : gmap string vtype in
  let vars := {["x" := VFloat64 (f_of_Z 3)]} : gmap string Value in
  let n := BinaryOpNode (FunctionCallNode "abs" [IdentifierNode "x"]) (mkOperator "<" 8 less)
             (FunctionCallNode "len" [StringNode "four"]) in
  has_type Γ n YBool ∧
  ∃ v, Evaluate 0 (Some (default_function_table id_string id_string id_string no_time clock)) vars n = Ok v.
Proof.
  intros Γ vars n.
  assert (has_type Γ n YBool) as Ht.
  { eapply HT_binary with (tl := YFloat) (tr := YInt).
    - eapply HT_call with (targs := [YFloat]); [|reflexivity]. repeat constructor.
    - eapply HT_call with (targs := [YString]); [|reflexivity]. repeat constructor.
    - unfold default_operators. simpl. by repeat (apply list_elem_of_here || apply list_elem_of_further).
    - reflexivity. }
  split; [exact Ht|].
  destruct (evaluate_type_sound id_string id_string id_string no_time clock 0 Γ vars n YBool Ht)
    as [(v & Hv & _)|(e & He & _)].
  - intros x t Hx. unfold Γ in Hx. apply lookup_singleton_Some in Hx as [<- <-].
    eexists. split; reflexivity.
  - exists v. exact Hv.
  - vm_compute in He. discriminate He.
Defined.

Lemma numeric_builtin_cases_witness :
  Evaluate 0 (Some (default_function_table id_string id_string id_string no_time clock))
    {["n" := VInt KInt 5]} (FunctionCallNode "abs" [IdentifierNode "n"]) = Panic.
Proof.
  rewrite (numeric_builtin_cases id_string id_string id_string no_time clock 0 _ "abs" f_abs
             (IdentifierNode "n") (list_elem_of_here _ _)).
  reflexivity.
Defined.

Lemma coalesce_first_only_witness :
  Evaluate 0 (Some (default_function_table id_string id_string id_string no_time clock))
    {["a" := VNil; "b" := VInt KInt 5]} (FunctionCallNode "coalesce" [IdentifierNode "a"; IdentifierNode "b"]) =
  Panic.
Proof.
  rewrite (coalesce_first_only id_string id_string id_string no_time clock 0 _ _ VNil [VInt KInt 5]);
    reflexivity.
Defined.
