(* ===== verification/Engine.v ===== *)
(** * The expression engine

    Models the [Expression] type of src/validation/expression/expression.go: the
    validation passes, [ValidateSyntax] with its strict checks, the cache key,
    registration and the public [Evaluate], which ties the tokenizer, the parser,
    the evaluator and the cache together.  How [%v] prints floats and times is a
    parameter; clock readings and whether the context fired are arguments. *)

From stdpp Require Import base tactics option list gmap strings numbers pretty.
From Stdlib Require Import ZArith Lia Ascii.
From S2P Require Import Prelude Lexer Float64 GoValue Parser ExprCache Eval.
Open Scope go_scope.
Set Warnings "-register-all".

Record Config := mkConfig {
  MaxDepth : Z; Timeout : Z; AllowCustom : bool; StrictMode : bool; CacheEnabled : bool;
  CacheSize : Z; CacheTTL : Z; MaxStringLength : Z; MaxArrayLength : Z }.

Definition second : Z := 1000000000.

Definition DefaultConfig : Config :=
  mkConfig 10 5000 true true true (1024 * 1024) (3600 * second) (1024 * 1024) 10000.

Inductive engine_error :=
| EmptyExpression
| TooLong (len max : Z)
| TooDeep (depth max : Z)
| ConsecutiveOperators (line col : nat)
| UnmatchedParenthesis (line col : nat)
| UnmatchedParentheses
| StrictError (position : nat) (what : string)
| LexError (e : lex_error)
| ParseError (e : parse_error)
| EvaluationError (e : eval_error)
| CacheError (e : cache_error)
| ValidationError (e : engine_error)
| AlreadyRegistered (name : string)
| NilHandler (name : string).

Record Expression := mkExpression {
  functions : gmap string Function; operators : gmap string Operator; cache : Cache }.

(** ** Validation *)

(** [range] over the string: parentheses are single bytes in UTF-8. *)
Fixpoint depthLoop (expr : string) (depth maxDepth : Z) : Z :=
  match expr with
  | EmptyString => maxDepth
  | String char expr' =>
      if Ascii.eqb char "(" then
        depthLoop expr' (depth + 1) (if (maxDepth <? depth + 1)%Z then depth + 1 else maxDepth)%Z
      else if Ascii.eqb char ")" then depthLoop expr' (depth - 1) maxDepth
      else depthLoop expr' depth maxDepth
  end.

Definition getExpressionDepth (expr : string) : Z := depthLoop expr 0 0.

(** The [for] loop of [validateOperators]; a nil token would be dereferenced. *)
Fixpoint operatorsLoop (tokens : list (option Token)) (lastWasOperator : bool) (parenCount : Z)
    : res engine_error Z :=
  match tokens with
  | [] => Ok parenCount
  | None :: _ => Panic
  | Some token :: tokens' =>
      match tType token with
      | TokenOperator =>
          if lastWasOperator then Err (ConsecutiveOperators (tLine token) (tCol token))
          else operatorsLoop tokens' true parenCount
      | TokenLParen => operatorsLoop tokens' lastWasOperator (parenCount + 1)
      | TokenRParen =>
          if (parenCount - 1 <? 0)%Z then Err (UnmatchedParenthesis (tLine token) (tCol token))
          else operatorsLoop tokens' lastWasOperator (parenCount - 1)
      | _ => operatorsLoop tokens' false parenCount
      end
  end.

Definition check_tokens (tokens : list (option Token)) : res engine_error () :=
  let! parenCount := operatorsLoop tokens false 0 in
  if (parenCount =? 0)%Z then Ok tt else Err UnmatchedParentheses.

Definition validateOperators (lexfuel : nat) (expr : string) : res engine_error () :=
  let! tokens := rmap_err LexError (tokenize lexfuel expr) in check_tokens tokens.

Definition validateExpression (config : Config) (lexfuel : nat) (expr : string) : res engine_error () :=
  if String.eqb expr EmptyString then Err EmptyExpression
  else if (MaxStringLength config <? Z.of_nat (String.length expr))%Z then
    Err (TooLong (Z.of_nat (String.length expr)) (MaxStringLength config))
  else
    let depth := getExpressionDepth expr in
    if (MaxDepth config <? depth)%Z then Err (TooDeep depth (MaxDepth config))
    else validateOperators lexfuel expr.

(** ** Strict syntax *)

Definition isUnaryOperator (op : string) : bool := existsb (String.eqb op) ["+"; "-"; "!"]%string.

Definition is_value_type (t : TokenType) : bool :=
  match t with TokenNumber | TokenString | TokenIdentifier => true | _ => false end.

Definition isValidEndToken (t : TokenType) : bool :=
  match t with TokenNumber | TokenString | TokenIdentifier | TokenRParen => true | _ => false end.

(** [prev.Type] of a nil [prev] panics, in every case that reads it. *)
Definition validateTokenSequence (i : nat) (prev : option Token) (curr : Token) : res engine_error () :=
  let bad what := Err (StrictError i what) in
  let with_prev (k : TokenType → res engine_error ()) :=
    match prev with Some p => k (tType p) | None => Panic end in
  match tType curr with
  | TokenOperator => with_prev (λ p,
      if bool_decide (p = TokenOperator) then bad "consecutive operators not allowed"%string
      else if bool_decide (p = TokenLParen) && negb (isUnaryOperator (tValue curr))
      then bad "binary operator cannot follow left parenthesis"%string else Ok tt)
  | TokenRParen => with_prev (λ p,
      if bool_decide (p = TokenOperator) then bad "right parenthesis cannot follow operator"%string
      else if bool_decide (p = TokenLParen) then bad "empty parentheses not allowed"%string else Ok tt)
  | TokenNumber | TokenString | TokenIdentifier => with_prev (λ p,
      if is_value_type p then bad "consecutive values not allowed"%string
      else if bool_decide (p = TokenRParen) then bad "value cannot follow right parenthesis"%string
      else Ok tt)
  | TokenLParen => with_prev (λ p,
      if is_value_type p || bool_decide (p = TokenRParen)
      then bad "left parenthesis cannot follow value or right parenthesis"%string else Ok tt)
  | TokenComma => with_prev (λ p,
      if bool_decide (p = TokenOperator ∨ p = TokenLParen ∨ p = TokenComma)
      then bad "invalid token sequence near comma"%string else Ok tt)
  | _ => bad "invalid token sequence"%string
  end.

(** The [for] loop of [validateStrictSyntax]; tokens that are not parentheses
    [continue] past the sequence check and past the update of [lastToken]. *)
Fixpoint strictLoop (i : nat) (tokens : list (option Token)) (parenCount : Z) (lastToken : option Token)
    : res engine_error (Z * option Token) :=
  let check token parenCount tokens' :=
    let! _ := (if 0 <? i then validateTokenSequence i lastToken token else Ok tt) in
    strictLoop (S i) tokens' parenCount (Some token) in
  match tokens with
  | [] => Ok (parenCount, lastToken)
  | None :: _ => Panic
  | Some token :: tokens' =>
      match tType token with
      | TokenLParen => check token (parenCount + 1)%Z tokens'
      | TokenRParen =>
          if (parenCount - 1 <? 0)%Z then Err (StrictError i "unmatched closing parenthesis"%string)
          else check token (parenCount - 1)%Z tokens'
      | _ => strictLoop (S i) tokens' parenCount lastToken
      end
  end.

Definition validateStrictSyntax (tokens : list (option Token)) : res engine_error () :=
  if length tokens =? 0 then Err EmptyExpression
  else
    let! (parenCount, lastToken) := strictLoop 0 tokens 0 None in
    if negb (parenCount =? 0)%Z then Err UnmatchedParentheses
    else
      match lastToken with
      | Some t => if isValidEndToken (tType t) then Ok tt else Err (StrictError 0 "end"%string)
      | None => Ok tt
      end.

Definition ValidateSyntax (config : Config) (e : Expression) (lexfuel : nat) (expr : string)
    : res engine_error () :=
  let depth := getExpressionDepth expr in
  if (MaxDepth config <? depth)%Z then Err (TooDeep depth (MaxDepth config))
  else
    let! _ := rmap_err ValidationError (validateOperators lexfuel expr) in
    let! tokens := rmap_err LexError (tokenize lexfuel expr) in
    let! _ := rmap_err ParseError (parse tokens (operators e) (MaxDepth config) (parse_fuel tokens)) in
    if StrictMode config then validateStrictSyntax tokens else Ok tt.

(** ** The cache key *)

Fixpoint insert_key (k : string) (ks : list string) : list string :=
  match ks with
  | [] => [k]
  | k' :: ks' => if String.leb k k' then k :: ks else k' :: insert_key k ks'
  end.

(** [sort.Strings] *)
Definition sort_strings (ks : list string) : list string := foldr insert_key [] ks.

Section CacheKey.
Context (format_float : float64 → string) (format_float32 : SpecFloat.spec_float → string)
        (format_time : GoTime → string).

Fixpoint join (sep : string) (ss : list string) : string :=
  match ss with
  | [] => EmptyString
  | [s] => s
  | s :: ss' => s +:+ sep +:+ join sep ss'
  end.

(** [fmt.Sprintf("%v", v)] *)
Fixpoint sprintV (v : Value) : string :=
  match v with
  | VNil => "<nil>"
  | VBool b => if b then "true" else "false"
  | VInt _ n => pretty n
  | VFloat32 f => format_float32 f
  | VFloat64 f => format_float f
  | VString s => s
  | VTime t => format_time t
  | VBytes _ b =>
      "[" +:+ join " " ((λ c, pretty (Z.of_N (N_of_ascii c))) <$> String.list_ascii_of_string b) +:+ "]"
  | VStrings _ l => "[" +:+ join " " l +:+ "]"
  | VSlice _ l =>
      "[" +:+ join " " ((fix all l := match l with [] => [] | x :: l' => sprintV x :: all l' end) l) +:+ "]"
  | VMap _ m =>
      let entries := (fix all m := match m with [] => [] | (k, x) :: m' => (k, sprintV x) :: all m' end) m in
      "map[" +:+ join " "
        ((λ k, k +:+ ":" +:+ default EmptyString (assoc k entries)) <$> sort_strings entries.*1) +:+ "]"
  end%string.

Definition sorted_vars (variables : gmap string Value) : list string :=
  sort_strings (map_to_list variables).*1.

Definition generateCacheKey (expr : string) (variables : gmap string Value) : string :=
  if size variables =? 0 then expr
  else
    foldl (λ key k, key +:+ k +:+ "=" +:+ sprintV (default VNil (variables !! k)) +:+ ";")
      (expr +:+ ":") (sorted_vars variables).

(** ** [Evaluate] *)

Definition cacheConfig (config : Config) : CacheConfig :=
  mkCacheConfig (CacheSize config) (CacheTTL config) false.

(** [evaluateWithRecovery]: the tree is evaluated in another goroutine, where a
    panic is not recovered; when the context fires the result is dropped after
    that goroutine is done. *)
Definition evaluateWithRecovery (ctx_done : bool) (now : Z) (fs : gmap string Function)
    (ast : Node) (variables : gmap string Value) : res eval_error Value :=
  match Evaluate now (Some fs) variables ast with
  | Panic => Panic
  | NoFuel => NoFuel
  | r => if ctx_done then Err ContextDone else r
  end.

(** Everything [Evaluate] does after a cache miss and before storing. *)
Definition compute (config : Config) (ctx_done : bool) (now : Z) (lexfuel : nat)
    (fs : gmap string Function) (ops : gmap string Operator) (expr : string) (variables : gmap string Value)
    : res engine_error Value :=
  let! tokens := rmap_err LexError (tokenize lexfuel expr) in
  let! ast := rmap_err ParseError (parse tokens ops (MaxDepth config) (parse_fuel tokens)) in
  rmap_err EvaluationError (evaluateWithRecovery ctx_done now fs ast variables).

Definition set_cache (e : Expression) (c : Cache) : Expression :=
  mkExpression (functions e) (operators e) c.

(** [t1], [now] and [t2] are the clock at the cache lookup, during evaluation and
    at the store. *)
Definition EngineEvaluate (config : Config) (ctx_done : bool) (t1 now t2 : Z) (lexfuel : nat)
    (expr : string) (variables : gmap string Value) (e : Expression)
    : res engine_error Value * Expression :=
  match rmap_err ValidationError (validateExpression config lexfuel expr) with
  | Err err => (Err err, e)
  | Panic => (Panic, e)
  | NoFuel => (NoFuel, e)
  | Ok _ =>
      let cacheKey := generateCacheKey expr variables in
      let (hit, e1) :=
        if CacheEnabled config then
          let (v, c1) := Get (cacheConfig config) t1 cacheKey (cache e) in (v, set_cache e c1)
        else (None, e) in
      match hit with
      | Some value => (Ok value, e1)
      | None =>
          match compute config ctx_done now lexfuel (functions e1) (operators e1) expr variables with
          | Ok result =>
              if CacheEnabled config then
                match Set_ (cacheConfig config) t2 cacheKey result (cache e1) with
                | (Ok _, c2) => (Ok result, set_cache e1 c2)
                | (Err err, c2) =>
                    if StrictMode config then (Err (CacheError err), set_cache e1 c2)
                    else (Ok result, set_cache e1 c2)
                | (Panic, c2) => (Panic, set_cache e1 c2)
                | (NoFuel, c2) => (NoFuel, set_cache e1 c2)
                end
              else (Ok result, e1)
          | r => (r, e1)
          end
      end
  end.

(** [EvaluateWithMetrics]: no validation, no cache, and the engine comes from
    the caller's context. *)
Definition EvaluateWithMetrics (config : Config) (ctx_engine : option (gmap string Function)) (now : Z)
    (lexfuel : nat) (expr : string) (variables : gmap string Value) (e : Expression)
    : res engine_error Value :=
  let! tokens := rmap_err LexError (tokenize lexfuel expr) in
  let! ast := rmap_err ParseError (parse tokens (operators e) (MaxDepth config) (parse_fuel tokens)) in
  rmap_err EvaluationError (Evaluate now ctx_engine variables ast).

(** ** Registration *)

Definition RegisterFunction (name : string) (h : option handler)
    (validator : option (list Value → res eval_error ())) (e : Expression)
    : res engine_error () * Expression :=
  match functions e !! name, h with
  | Some _, _ => (Err (AlreadyRegistered name), e)
  | None, None => (Err (NilHandler name), e)
  | None, Some h =>
      (Ok tt, mkExpression (<[name := mkFunction name h validator]> (functions e)) (operators e) (cache e))
  end.

Definition RegisterOperator (name : string) (precedence : Z)
    (h : option (Value → Value → res eval_error Value)) (e : Expression) : res engine_error () * Expression :=
  match operators e !! name, h with
  | Some _, _ => (Err (AlreadyRegistered name), e)
  | None, None => (Err (NilHandler name), e)
  | None, Some h =>
      (Ok tt, mkExpression (functions e) (<[name := mkOperator name precedence h]> (operators e)) (cache e))
  end.

End CacheKey.

Definition NewExpression (uL uU uT : string → string) (tP : string → option GoTime) (tN : Z → GoTime)
    : Expression :=
  mkExpression (default_function_table uL uU uT tP tN) default_table NewCache.

(** ** The strict checks *)

Definition is_paren (t : option Token) : bool :=
  match t with
  | Some t => match tType t with TokenLParen | TokenRParen => true | _ => false end
  | None => false
  end.

Lemma strict_no_last i tokens pc r :
  0 < i → strictLoop i tokens pc None = Ok r → Forall (λ t, is_paren t = false) tokens.
Proof.
  revert i pc; induction tokens as [|[t|] tokens IH]; intros i pc Hi H; simpl in H; [constructor| |done].
  rewrite (proj2 (Nat.ltb_lt 0 i) Hi) in H.
  destruct (tType t) eqn:E; try (constructor; [by simpl; rewrite E|eapply IH; [|exact H]; lia]).
  - unfold validateTokenSequence in H. by rewrite E in H.
  - destruct (_ <? 0)%Z; [done|]. unfold validateTokenSequence in H. by rewrite E in H.
Qed.

Lemma strict_from_lparen i tokens pc t pc' last' :
  tType t = TokenLParen → 0 < i → (0 < pc)%Z → strictLoop i tokens pc (Some t) = Ok (pc', last') →
  (0 < pc')%Z.
Proof.
  revert i pc t; induction tokens as [|[u|] tokens IH]; intros i pc t Ht Hi Hpc H; simpl in H;
    [by simplify_eq| |done].
  rewrite (proj2 (Nat.ltb_lt 0 i) Hi) in H.
  destruct (tType u) eqn:E; try (eapply IH; [exact Ht| | |exact H]; lia).
  - unfold validateTokenSequence in H. rewrite E, Ht in H. simpl in H.
    eapply IH; [exact E| | |exact H]; lia.
  - destruct (_ <? 0)%Z; [done|]. unfold validateTokenSequence in H. rewrite E, Ht in H. done.
Qed.

Lemma strict_no_paren i tokens pc :
  Forall (λ t, t ≠ None) tokens → Forall (λ t, is_paren t = false) tokens →
  strictLoop i tokens pc None = Ok (pc, None).
Proof.
  intros Hn Hp. revert i. induction Hn as [|[t|] tokens Ht Hn IH]; intros i; [done| |done].
  apply list.Forall_cons in Hp as [Hp Hps]. simpl in *. destruct (tType t); try done; by apply IH.
Qed.

Lemma strict_iff tokens :
  tokens ≠ [] → Forall (λ t, t ≠ None) tokens →
  validateStrictSyntax tokens = Ok tt ↔ Forall (λ t, is_paren t = false) tokens.
Proof.
  intros Hne Hn. unfold validateStrictSyntax.
  assert ((length tokens =? 0) = false) as -> by (destruct tokens; done). split.
  - intros H. inv_res. destruct a as [pc last]. destruct (pc =? 0)%Z eqn:Hpc; [|done].
    apply Z.eqb_eq in Hpc as ->. clear H. destruct tokens as [|[t|] tokens]; [done| |done]. simpl in H0.
    destruct (tType t) eqn:E; try (constructor; [by simpl; rewrite E|by eapply strict_no_last in H0; [|lia]]).
    + apply (strict_from_lparen _ _ _ _ _ _ E) in H0; lia.
    + done.
  - intros Hp. by rewrite strict_no_paren.
Qed.

(** ** The pre-validation accepts every printed expression *)

Local Abbreviation lexes toks ls := (map (fmap lexeme_of) toks = map Some ls).

Lemma lexes_cons toks ty v ls :
  lexes toks ((ty, v) :: ls) → ∃ t toks', toks = Some t :: toks' ∧ tType t = ty ∧ lexes toks' ls.
Proof.
  destruct toks as [|[t|] toks]; simpl; intros H; inversion H; subst. by exists t, toks.
Qed.

Lemma pp_bin ops q l op r :
  pp ops q (SBin l op r) =
  parens (q <=? precedence_of ops op)%Z
    (pp ops (precedence_of ops op) l ++ [(TokenOperator, op)] ++ pp ops (precedence_of ops op + 1) r).
Proof. reflexivity. Qed.

Lemma operators_pp ops e :
  ∀ q b pc ls toks, lexes toks (pp ops q e ++ ls) → (0 ≤ pc)%Z →
    ∃ toks', lexes toks' ls ∧ operatorsLoop toks b pc = operatorsLoop toks' false pc.
Proof.
  induction e as [txt|txt|x|l op r IHl IHr|f args IH] using sexpr_ind'; intros q b pc ls toks H Hpc.
  1-3: simpl in H; apply lexes_cons in H as (t & toks' & -> & Hty & H);
       exists toks'; split; [exact H|]; simpl; by rewrite Hty.
  - assert (∀ b pc ls toks, lexes toks ((pp ops (precedence_of ops op) l ++ [(TokenOperator, op)] ++
        pp ops (precedence_of ops op + 1) r) ++ ls) → (0 ≤ pc)%Z →
      ∃ toks', lexes toks' ls ∧ operatorsLoop toks b pc = operatorsLoop toks' false pc) as Hbody.
    { clear H Hpc. intros b0 pc0 ls0 toks0 H Hpc. rewrite <- !app_assoc in H.
      destruct (IHl _ b0 pc0 _ _ H Hpc) as (t1 & H1 & ->).
      apply lexes_cons in H1 as (t & t2 & -> & Hty & H2).
      destruct (IHr _ true pc0 _ _ H2 Hpc) as (t3 & H3 & Heq).
      exists t3. split; [exact H3|]. simpl. by rewrite Hty. }
    rewrite pp_bin in H. unfold parens in H. destruct (_ <=? _)%Z; [by apply Hbody|].
    rewrite <- (app_assoc [_]) in H. apply lexes_cons in H as (t & t1 & -> & Hty & H1).
    rewrite <- (app_assoc _ [_]) in H1.
    destruct (Hbody b (pc + 1)%Z _ _ H1 ltac:(lia)) as (t2 & H2 & Heq).
    apply lexes_cons in H2 as (t' & t3 & -> & Hty' & H3). exists t3. split; [exact H3|].
    simpl. rewrite Hty, Heq. simpl. rewrite Hty', (proj2 (Z.ltb_ge _ _)) by lia.
    f_equal. lia.
  - rewrite pp_call, <- !app_assoc in H. apply lexes_cons in H as (t & t1 & -> & Hty & H).
    apply lexes_cons in H as (t' & t2 & -> & Hty' & H).
    assert (∀ first toks, lexes toks (pp_args ops first args ++ (TokenRParen, ")"%string) :: ls) →
      ∃ toks', lexes toks' ((TokenRParen, ")"%string) :: ls) ∧
        operatorsLoop toks false (pc + 1) = operatorsLoop toks' false (pc + 1)) as Hargs.
    { clear H. induction IH as [|a args Ha _ IHargs]; intros first toks H; simpl in H; [by exists toks|].
      assert (∃ toks1, lexes toks1 (pp ops 0 a ++ pp_args ops false args ++ (TokenRParen, ")"%string) :: ls) ∧
        operatorsLoop toks false (pc + 1) = operatorsLoop toks1 false (pc + 1)) as (toks1 & H1 & ->).
      { destruct first; simpl in H; rewrite <- app_assoc in H; [by exists toks|].
        apply lexes_cons in H as (tc & toks1 & -> & Htc & H1). exists toks1. split; [exact H1|].
        simpl. by rewrite Htc. }
      destruct (Ha _ false (pc + 1)%Z _ _ H1 ltac:(lia)) as (toks2 & H2 & ->). by apply IHargs in H2. }
    destruct (Hargs true t2 H) as (t3 & H3 & Heq).
    apply lexes_cons in H3 as (tr & t4 & -> & Htr & H4). exists t4. split; [exact H4|].
    simpl. rewrite Hty. simpl. rewrite Hty', Heq. simpl. rewrite Htr, (proj2 (Z.ltb_ge _ _)) by lia.
    f_equal. lia.
Qed.

Lemma check_tokens_pp ops e toks :
  lexes toks (pp ops 0 e ++ [(TokenEOF, EmptyString)]) → check_tokens toks = Ok tt.
Proof.
  intros H. destruct (operators_pp ops e 0 false 0 _ _ H ltac:(lia)) as (toks' & H' & Heq).
  unfold check_tokens. rewrite Heq. apply lexes_cons in H' as (t & toks2 & -> & Hty & H2).
  apply map_eq_nil in H2 as ->. simpl. by rewrite Hty.
Qed.

(** ** The cache under the engine *)

Lemma set_then_get cfg t t' k v c c' :
  Set_ cfg t k v c = (Ok tt, c') → (TTL cfg ≤ 0 ∨ t' ≤ t + TTL cfg)%Z → fst (Get cfg t' k c') = Some v.
Proof.
  unfold Set_. destruct (_ <? _)%Z; [done|].
  destruct (makeRoom _ _ _ _) as [[[]| | |] c2]; intros H Ht; simplify_eq.
  unfold Get, Get_locked. cbn [items]. rewrite lookup_insert_eq. unfold the_entry. cbn [elems].
  rewrite lookup_insert_eq. simpl. unfold expired, new_entry. cbn [ce_expiry].
  destruct (0 <? TTL cfg)%Z eqn:E; [|done]. apply Z.ltb_lt in E.
  by rewrite (proj2 (Z.ltb_ge _ _)) by lia.
Qed.

(** Two evaluations at different times agree when no handler reads the clock. *)
Definition time_independent (fs : gmap string Function) : Prop :=
  ∀ f fn ins var call, fs !! f = Some fn → fn_Handler fn = HFunc ins var call →
    ∀ t t' args, call t args = call t' args.

Lemma call_function_time fs f fn args t t' :
  time_independent fs → fs !! f = Some fn → call_function t f fn args = call_function t' f fn args.
Proof.
  intros Hti Hf. unfold call_function. f_equal. destruct (fn_Handler fn) as [ins var call|] eqn:Hh; [|done].
  unfold reflect_call. by rewrite (Hti _ _ _ _ _ Hf Hh t t').
Qed.

Lemma Evaluate_time fs vars n t t' :
  time_independent fs → Evaluate t (Some fs) vars n = Evaluate t' (Some fs) vars n.
Proof.
  intros Hti. induction n as [v|s|x|l op r IHl IHr|f args IH] using Node_ind'; try done.
  - simpl. by rewrite IHl, IHr.
  - rewrite !Evaluate_call. destruct (fs !! f) as [fn|] eqn:Hf; [|done].
    assert (∀ i, evalArgs t (Some fs) vars f i args = evalArgs t' (Some fs) vars f i args) as Hargs.
    { induction IH as [|a args Ha _ IHargs]; intros i; simpl; [done|]. by rewrite Ha, IHargs. }
    rewrite Hargs. destruct (evalArgs _ _ _ _ _ _); simpl; try done. by eapply call_function_time.
Qed.

Section Transparent.
Context (format_float : float64 → string) (format_float32 : SpecFloat.spec_float → string)
        (format_time : GoTime → string).
Context (config : Config) (lexfuel : nat).
Context (Hsane : sane (cacheConfig config)).

Local Abbreviation reference fs ops now expr := (compute config false now lexfuel fs ops expr ∅).

(** Every stored entry holds what evaluating its key would give, and fits. *)
Definition holds_result (fs : gmap string Function) (ops : gmap string Operator) (en : cacheEntry) : Prop :=
  reference fs ops 0 (ce_key en) = Ok (ce_value en) ∧ (estimateSize (ce_value en) ≤ CacheSize config)%Z.
Definition coherent (fs : gmap string Function) (ops : gmap string Operator) (es : list cacheEntry) : Prop :=
  Forall (holds_result fs ops) es.

Lemma compute_time fs ops now now' expr :
  time_independent fs → reference fs ops now expr = reference fs ops now' expr.
Proof.
  intros Hti. unfold compute. destruct (rmap_err LexError (tokenize lexfuel expr)); simpl; try done.
  destruct (rmap_err ParseError _) as [ast| | |]; simpl; try done. unfold evaluateWithRecovery.
  by rewrite (Evaluate_time fs ∅ ast now now' Hti).
Qed.

Lemma coherent_get fs ops now k es :
  coherent fs ops es →
  coherent fs ops (snd (LruSpec.get now k es)) ∧
  ∀ v, fst (LruSpec.get now k es) = Some v → reference fs ops 0 k = Ok v ∧ (estimateSize v ≤ CacheSize config)%Z.
Proof.
  intros Hc. unfold coherent in *. rewrite list.Forall_forall in Hc.
  assert (Forall (holds_result fs ops) (LruSpec.without k es)) as Hw.
  { apply list.Forall_forall. intros x [_ Hx]%list_elem_of_filter. by apply Hc. }
  unfold LruSpec.get, LruSpec.find.
  destruct (list_find (λ e, ce_key e = k) es) as [[i e]|] eqn:Hf; simpl.
  - apply list_find_Some in Hf as (Hi & Hk & _). apply list_elem_of_lookup_2 in Hi.
    apply Hc in Hi as He. destruct (expired now e); simpl; [by split|]. split.
    + constructor; [exact He|exact Hw].
    + intros v [= <-]. unfold holds_result in He. by rewrite <- Hk.
  - split; [|done]. by apply list.Forall_forall.
Qed.

Lemma coherent_set fs ops now k v es :
  coherent fs ops es → reference fs ops 0 k = Ok v →
  coherent fs ops (snd (LruSpec.set (cacheConfig config) now k v es)).
Proof.
  intros Hc Hk. unfold coherent, LruSpec.set in *. destruct (Z.ltb_spec (MaxSize (cacheConfig config)) (estimateSize v)) as [|Hsz]; [done|].
  constructor; [by split|]. rewrite list.Forall_forall in Hc |- *. intros x Hx. apply Hc.
  eapply elem_of_sublist in Hx; [|apply fit_sublist]. by apply list_elem_of_filter in Hx as [_ Hx].
Qed.

Definition engine_ok (e : Expression) : Prop :=
  ∃ ies, represents (cacheConfig config) (cache e) ies ∧ coherent (functions e) (operators e) ies.*2.

(** The answer of the engine without a cache. *)
Definition uncached (e : Expression) (now : Z) (expr : string) : res engine_error Value :=
  let! _ := rmap_err ValidationError (validateExpression config lexfuel expr) in
  reference (functions e) (operators e) now expr.

(** What the engine answers: in strict mode a result that is larger than the
    whole cache is an error. *)
Definition answer (e : Expression) (now : Z) (expr : string) : res engine_error Value :=
  match uncached e now expr with
  | Ok v =>
      if CacheEnabled config && StrictMode config && (CacheSize config <? estimateSize v)%Z
      then Err (CacheError (ItemTooLarge (estimateSize v))) else Ok v
  | r => r
  end.

Lemma engine_step (e : Expression) (t1 now t2 : Z) (expr : string) :
  engine_ok e → time_independent (functions e) →
  let (r, e') := EngineEvaluate format_float format_float32 format_time config false t1 now t2 lexfuel expr ∅ e in
  engine_ok e' ∧ functions e' = functions e ∧ operators e' = operators e ∧
  r = answer e now expr.
Proof.
  intros He Hti. unfold EngineEvaluate, answer, uncached.
  assert (generateCacheKey format_float format_float32 format_time expr ∅ = expr) as -> by done.
  destruct (validateExpression config lexfuel expr) as [[]| | |]; simpl; try (by split_and!; auto).
  pose proof (compute_time (functions e) (operators e) now 0 expr Hti) as Hnow.
  destruct (CacheEnabled config).
  - destruct He as (ies & Hrep & Hcoh).
    destruct (Get_rep _ Hsane t1 expr (cache e) ies Hrep) as (ies1 & Hrep1 & Hget).
    destruct (coherent_get _ _ t1 expr _ Hcoh) as [Hcoh1 Hhit]. rewrite Hget in Hcoh1, Hhit. simpl in Hcoh1, Hhit.
    destruct (Get (cacheConfig config) t1 expr (cache e)) as [[v|] c1]; simpl in *.
    { destruct (Hhit v eq_refl) as [Hv Hsz]. rewrite Hnow, Hv. rewrite (proj2 (Z.ltb_ge _ _) Hsz), andb_false_r.
      split_and!; [exists ies1; by split|done..]. }
    assert (engine_ok (set_cache e c1)) as Hok1 by (exists ies1; by split).
    destruct (reference (functions e) (operators e) now expr) as [v| | |] eqn:Hv;
      try (by split_and!; auto).
    destruct (Set_rep _ Hsane t2 expr v c1 ies1 Hrep1) as (ies2 & Hrep2 & Hset).
    pose proof (coherent_set _ _ t2 expr v _ Hcoh1 (eq_sym Hnow)) as Hcoh2.
    rewrite Hset in Hcoh2. simpl in Hcoh2.
    assert (∀ c2, c2 = snd (Set_ (cacheConfig config) t2 expr v c1) → engine_ok (set_cache e c2)) as Hok2.
    { intros c2 ->. exists ies2. by split. }
    destruct (Set_ (cacheConfig config) t2 expr v c1) as [sr c2] eqn:HS. simpl in Hok2.
    assert (sr = if (CacheSize config <? estimateSize v)%Z then Err (ItemTooLarge (estimateSize v)) else Ok tt) as ->.
    { unfold LruSpec.set in Hset. cbn [MaxSize cacheConfig] in Hset. by destruct (_ <? _)%Z; simplify_eq. }
    destruct (CacheSize config <? estimateSize v)%Z, (StrictMode config); (split_and!; [by apply Hok2|done..]).
  - destruct (reference (functions e) (operators e) now expr) as [v| | |] eqn:Hv; by split_and!; auto.
Qed.

Fixpoint run_engine (calls : list (Z * Z * Z * string)) (e : Expression) : list (res engine_error Value) :=
  match calls with
  | [] => []
  | (t1, now, t2, expr) :: calls' =>
      let (r, e') := EngineEvaluate format_float format_float32 format_time config false t1 now t2 lexfuel expr ∅ e in
      r :: run_engine calls' e'
  end.

Lemma engine_runs calls e :
  engine_ok e → time_independent (functions e) →
  Forall2 (λ (call : Z * Z * Z * string) r,
     let '(t1, now, t2, expr) := call in
     r = answer e now expr) calls (run_engine calls e).
Proof.
  revert e; induction calls as [|[[[t1 now] t2] expr] calls IH]; intros e He Hti; simpl; [constructor|].
  pose proof (engine_step e t1 now t2 expr He Hti) as Hstep.
  destruct (EngineEvaluate _ _ _ _ _ _ _ _ _ _ _ _) as [r e'].
  destruct Hstep as (He' & Hf & Ho & Hr). constructor; [exact Hr|].
  specialize (IH e' He'). rewrite Hf in IH. specialize (IH Hti).
  unfold answer, uncached in IH |- *. by rewrite Hf, Ho in IH.
Qed.

End Transparent.

(** ** Properties *)

(** C39: The result cache is transparent for expressions without variables.
    Starting from an engine with a new cache and any tables whose functions do
    not read the clock, each call in any sequence of [Evaluate] calls, at any
    clock readings (so whatever has been evicted or has expired), returns
    exactly what validating, tokenizing, parsing and evaluating the expression
    anew gives, with one exception, which does not depend on the cache either: in
    strict mode, with caching on, an expression whose result is estimated larger
    than the whole cache fails with [ItemTooLarge], every time. *)
Theorem evaluate_cache_transparent (format_float : float64 → string) (format_float32 : SpecFloat.spec_float → string)
    (format_time : GoTime → string) (config : Config) (lexfuel : nat)
    (fs : gmap string Function) (ops : gmap string Operator) (calls : list (Z * Z * Z * string)) :
  sane (cacheConfig config) → time_independent fs →
  let e := mkExpression fs ops NewCache in
  Forall2 (λ (call : Z * Z * Z * string) r,
      let '(t1, now, t2, expr) := call in
      r = match uncached config lexfuel e now expr with
          | Ok v =>
              if CacheEnabled config && StrictMode config && (CacheSize config <? estimateSize v)%Z
              then Err (CacheError (ItemTooLarge (estimateSize v))) else Ok v
          | r => r
          end)
    calls (run_engine format_float format_float32 format_time config lexfuel calls e).
Proof.
  intros Hs Hti e. apply (engine_runs _ _ _ _ _ Hs); [|exact Hti].
  exists []. split; [by apply NewCache_rep|constructor].
Qed.

(** The second call is a hit; a cache of four bytes refuses the result. *)
Lemma evaluate_cache_transparent_witness :
  let e := mkExpression ∅ default_table NewCache in
  let run config := run_engine (λ _, EmptyString) (λ _, EmptyString) (λ _, EmptyString) config 50 [(1, 1, 1, "2+2*3"); (2, 2, 2, "2+2*3")]%Z%string e in
  let tiny := mkConfig 10 5000 true true true 4 (3600 * second) (1024 * 1024) 10000 in
  (∃ r, run DefaultConfig = [r; Ok (VFloat64 (f_of_Z 8))]) ∧ (∃ r, run tiny = [r; Err (CacheError (ItemTooLarge 8))]).
Proof.
  intros e run tiny. split.
  - pose proof (evaluate_cache_transparent (λ _, EmptyString) (λ _, EmptyString) (λ _, EmptyString) DefaultConfig 50
      ∅ default_table [(1, 1, 1, "2+2*3"); (2, 2, 2, "2+2*3")]%Z%string
      ltac:(vm_compute; split; [discriminate|reflexivity])
      ltac:(intros f fn ins var call Hf; rewrite lookup_empty in Hf; discriminate Hf)) as H.
    apply Forall2_cons_inv_l in H as (r1 & l1 & _ & H & E). apply Forall2_cons_inv_l in H as (r2 & l2 & H2 & H & E2).
    apply Forall2_nil_inv_l in H. exists r1. refine (eq_trans E _). rewrite E2, H, H2. vm_compute. reflexivity.
  - pose proof (evaluate_cache_transparent (λ _, EmptyString) (λ _, EmptyString) (λ _, EmptyString) tiny 50
      ∅ default_table [(1, 1, 1, "2+2*3"); (2, 2, 2, "2+2*3")]%Z%string
      ltac:(vm_compute; split; [discriminate|reflexivity])
      ltac:(intros f fn ins var call Hf; rewrite lookup_empty in Hf; discriminate Hf)) as H.
    apply Forall2_cons_inv_l in H as (r1 & l1 & _ & H & E). apply Forall2_cons_inv_l in H as (r2 & l2 & H2 & H & E2).
    apply Forall2_nil_inv_l in H. exists r1. refine (eq_trans E _). rewrite E2, H, H2. vm_compute. reflexivity.
Defined.

(** Two evaluations with the same cache key share a result.  After [Evaluate]
    of [expr] with [vars] has computed and stored [v], every valid [expr'] with
    variables [vars'] and an equal key is answered with [v] until the entry
    expires, without being evaluated; and keys do not determine the variables,
    because values are printed with [%v] (the number 1 and the string "1" print
    alike) and nothing is escaped. *)
Theorem evaluate_same_key (format_float : float64 → string) (format_float32 : SpecFloat.spec_float → string)
    (format_time : GoTime → string) (config : Config) (lexfuel : nat) (e : Expression)
    (expr expr' : string) (vars vars' : gmap string Value) (t1 now t2 t1' now' t2' : Z) (done' : bool) (v : Value) :
  let key := generateCacheKey format_float format_float32 format_time in
  let eval := EngineEvaluate format_float format_float32 format_time config in
  CacheEnabled config = true → key expr vars = key expr' vars' →
  validateExpression config lexfuel expr = Ok tt → validateExpression config lexfuel expr' = Ok tt →
  fst (Get (cacheConfig config) t1 (key expr vars) (cache e)) = None →
  compute config false now lexfuel (functions e) (operators e) expr vars = Ok v →
  (estimateSize v ≤ CacheSize config)%Z → sane (cacheConfig config) →
  (∃ ies, represents (cacheConfig config) (cache e) ies) →
  (CacheTTL config ≤ 0 ∨ t1' ≤ t2 + CacheTTL config)%Z →
  let e1 := snd (eval false t1 now t2 lexfuel expr vars e) in
  fst (eval done' t1' now' t2' lexfuel expr' vars' e1) = Ok v.
Proof.
  intros key eval Hen Hkey Hval Hval' Hmiss Hv Hsz Hs (ies & Hrep) Httl e1.
  unfold e1, eval, EngineEvaluate. rewrite Hval, Hval', Hen. cbn [rmap_err].
  fold (key expr vars) (key expr' vars').
  destruct (Get_rep _ Hs t1 (key expr vars) (cache e) ies Hrep) as (ies1 & Hrep1 & _).
  destruct (Get _ t1 (key expr vars) (cache e)) as [[w|] c1]; [done|]. cbn [functions operators set_cache].
  rewrite Hv. cbn [cache set_cache].
  destruct (Set_rep _ Hs t2 (key expr vars) v c1 ies1 Hrep1) as (ies2 & _ & Hset).
  destruct (Set_ (cacheConfig config) t2 (key expr vars) v c1) as [r c2] eqn:HS. simpl in Hset.
  unfold LruSpec.set in Hset. rewrite (proj2 (Z.ltb_ge _ _)) in Hset by (simpl; lia). simplify_eq.
  pose proof (set_then_get _ t2 t1' _ _ _ _ HS Httl) as Hget. rewrite Hkey in Hget.
  cbn [snd cache set_cache]. by destruct (Get _ t1' (key expr' vars') c2) as [[w|] c3]; simplify_eq/=.
Qed.

Lemma evaluate_same_key_witness :
  let vars := {["x" := VInt KInt 1]} : gmap string Value in
  let vars' := {["x" := VString "1"]} : gmap string Value in
  let eval := EngineEvaluate (λ _, EmptyString) (λ _, EmptyString) (λ _, EmptyString) DefaultConfig in
  let e := mkExpression ∅ default_table NewCache in
  let e1 := snd (eval false 0%Z 0%Z 0%Z 5 "x" vars e) in
  fst (eval false 1%Z 1%Z 1%Z 5 "x" vars' e1) = Ok (VInt KInt 1).
Proof.
  intros vars vars' eval e e1.
  apply (evaluate_same_key (λ _, EmptyString) (λ _, EmptyString) (λ _, EmptyString) DefaultConfig 5 e "x" "x" vars vars');
    try reflexivity.
  - vm_compute. discriminate.
  - vm_compute. split; [discriminate|reflexivity].
  - exists []. apply NewCache_rep. vm_compute. split; [discriminate|reflexivity].
  - right. vm_compute. discriminate.
Defined.

(** The strict checks accept exactly the expressions without parentheses.
    On the tokens of any expression [validateStrictSyntax] succeeds if and only
    if no token is a parenthesis, so in strict mode (the default)
    [ValidateSyntax] refuses every call and every grouping; and when the first
    parenthesis is a left one that is not the first token it panics instead of
    returning an error, because the previous token was never recorded. *)
Theorem strict_syntax_parens (expr : string) (lexfuel : nat) (toks : list (option Token)) :
  tokenize lexfuel expr = Ok toks →
  (validateStrictSyntax toks = Ok tt ↔ Forall (λ t, is_paren t = false) toks) ∧
  (∀ pre t rest, toks = pre ++ Some t :: rest → pre ≠ [] → Forall (λ t, is_paren t = false) pre →
     tType t = TokenLParen → validateStrictSyntax toks = Panic).
Proof.
  intros Htok. destruct (tokenize_wf _ _ _ Htok) as [n [Hlen Hall]].
  assert (Forall (λ t, t ≠ None) toks) as Hnn.
  { apply Forall_lookup_2. intros i t Hi. destruct (Hall i) as (u & Hu & _); [|congruence].
    apply lookup_lt_Some in Hi. lia. }
  split; [apply strict_iff; [by destruct toks|done]|].
  intros pre t rest -> Hpre Hp Ht. unfold validateStrictSyntax.
  assert ((length (pre ++ Some t :: rest) =? 0) = false) as -> by by rewrite Hlen.
  assert (∀ i pc, 0 < i ∨ pre ≠ [] → strictLoop i (pre ++ Some t :: rest) pc None = Panic) as Hpanic.
  { clear Hlen Hall Htok Hpre. apply list.Forall_app in Hnn as [Hnn _].
    induction Hnn as [|[u|] pre Hu Hnn IH]; intros i pc Hi; [| |done].
    - destruct Hi as [Hi|]; [|done]. simpl. rewrite Ht, (proj2 (Nat.ltb_lt 0 i) Hi).
      unfold validateTokenSequence. by rewrite Ht.
    - apply list.Forall_cons in Hp as [Hu' Hp]. simpl in *.
      destruct (tType u); try done; apply IH; auto with lia. }
  by rewrite Hpanic by auto.
Qed.

Lemma strict_syntax_parens_witness :
  ∃ toks, tokenize 10 "f(x)" = Ok toks ∧ validateStrictSyntax toks = Panic ∧
    validateStrictSyntax toks ≠ Ok tt.
Proof.
  destruct (tokenize 10 "f(x)") as [toks| | |] eqn:H; [|vm_compute in H; discriminate H..].
  destruct (strict_syntax_parens _ _ _ H) as [_ H2]. exists toks. split; [reflexivity|].
  assert (validateStrictSyntax toks = Panic) as Hp.
  { vm_compute in H. injection H as <-.
    eapply (H2 [Some _] _ _ eq_refl); [discriminate|repeat constructor|reflexivity]. }
  split; [exact Hp|]. rewrite Hp. discriminate.
Defined.

(** The pre-validation accepts every well-formed expression.  For every
    printed expression, whatever its nesting, operators, calls and arguments,
    [validateOperators] succeeds: the check for consecutive operators and
    unbalanced parentheses refuses nothing the parser would read completely. *)
Theorem validate_accepts_printed (ops : gmap string Operator) (e : sexpr) :
  Forall (λ l, wf_lexeme l = true) (pp ops 0 e) →
  let src := show_lexemes (pp ops 0 e) in validateOperators (lex_fuel src) src = Ok tt.
Proof.
  intros Hw src. destruct (tokenize_show _ Hw) as (toks & Htok & Hm).
  unfold validateOperators. fold src in Htok. rewrite Htok. by eapply check_tokens_pp.
Qed.

Lemma validate_accepts_printed_witness :
  validateOperators 30 "( a + f ( 1 , b ) ) * c " = Ok tt.
Proof.
  pose proof (validate_accepts_printed default_table
    (SBin (SBin (SIdent "a") "+" (SCall "f" [SNum "1"; SIdent "b"])) "*" (SIdent "c"))) as H.
  etransitivity; [|apply H; apply forallb_Forall; vm_compute; reflexivity]. reflexivity.
Defined.
