(* ===== verification/Tasks.v ===== *)
(** * Tasks of the message queues

    The [QueuedTask] object of src/messaging/queue/queue.go, its status values and
    the queue errors.  A task is handed around by pointer: a queue holds pointers
    into a [task_heap], so that what one component writes to a task is what the
    others read. *)

From stdpp Require Import base tactics option list gmap strings numbers.
From Stdlib Require Import ZArith.
From S2P Require Import Prelude.

Inductive TaskStatus :=
| TaskStatusNone | TaskStatusPending | TaskStatusRunning | TaskStatusCompleted | TaskStatusFailed
| TaskStatusCanceled | TaskStatusRetrying.

#[global] Instance TaskStatus_eq_dec : EqDecision TaskStatus.
Proof. solve_decision. Defined.

(** The queue errors, and what [isRetryableError] asks of any other error: does
    it wrap one of the [RetryableErrors], what its [Temporary] methods say when
    it has them, and its text. *)
Inductive task_error :=
| ErrInvalidTask | ErrQueueFull | ErrTaskTimeout | ErrDuplicateTask | ErrTaskExists | ErrTemporaryFailure
| ErrDeadlineExceeded | ErrCanceled | ErrWorkerQueueFull | ErrWorkerStopped
| ErrOther (wraps_retryable : bool) (retryable : option bool) (net_temporary : option bool) (msg : string).

#[global] Instance task_error_eq_dec : EqDecision task_error.
Proof. solve_decision. Defined.

(** [TriggerAt] is [None] when it is the zero time; [Canceled] is the state of
    the task's own context; [Data] is opaque to the queues. *)
Record QueuedTask := mkTask {
  ID : string; Priority : Z; Data : nat; TriggerAt : option Z;
  RetryCount : Z; MaxRetries : Z; RetryDelay : Z; LastRetryTime : option Z;
  Status : TaskStatus; LastError : option task_error; Canceled : bool }.

#[global] Instance QueuedTask_eq_dec : EqDecision QueuedTask.
Proof. solve_decision. Defined.

Abbreviation task_ptr := nat.
Abbreviation task_heap := (gmap nat QueuedTask).

Definition set_Priority (p : Z) (t : QueuedTask) : QueuedTask :=
  mkTask (ID t) p (Data t) (TriggerAt t) (RetryCount t) (MaxRetries t) (RetryDelay t) (LastRetryTime t)
    (Status t) (LastError t) (Canceled t).

Definition set_Status (s : TaskStatus) (t : QueuedTask) : QueuedTask :=
  mkTask (ID t) (Priority t) (Data t) (TriggerAt t) (RetryCount t) (MaxRetries t) (RetryDelay t)
    (LastRetryTime t) s (LastError t) (Canceled t).

Definition set_LastError (e : task_error) (t : QueuedTask) : QueuedTask :=
  mkTask (ID t) (Priority t) (Data t) (TriggerAt t) (RetryCount t) (MaxRetries t) (RetryDelay t)
    (LastRetryTime t) (Status t) (Some e) (Canceled t).

(** A new task object as a caller builds it. *)
Definition new_task (id : string) (priority : Z) (triggerAt : option Z) : QueuedTask :=
  mkTask id priority 0 triggerAt 0 0 0 None TaskStatusNone None false.
