(* ===== verification/PriorityQueue.v ===== *)
(** * The priority queue

    Models src/messaging/queue/priority.go: one FIFO list of task pointers per
    priority level and a map from task IDs to tasks.  The task objects live in
    the shared [task_heap], which [Push] and [UpdatePriority] write.  [PrioSpec]
    is the contract: one list of tasks, highest priority first and first in,
    first out within a priority. *)

From stdpp Require Import base tactics option list gmap strings numbers.
From Stdlib Require Import ZArith Lia.
From S2P Require Import Prelude Tasks.
Open Scope go_scope.

Record PriorityLevel := mkLevel { tasks : list task_ptr; lastEmpty : Z }.

Record PriorityQueue := mkPQ {
  capacity : Z; maxPrio : nat; levels : list PriorityLevel; lookup_id : gmap string task_ptr;
  pq_size : Z; enqueueCount : Z; dequeueCount : Z }.

Definition NewPriorityQueue (now capacity maxPriority : Z) : PriorityQueue :=
  let maxPriority := if (maxPriority <? 1)%Z then 1%Z else maxPriority in
  mkPQ capacity (Z.to_nat maxPriority) (replicate (S (Z.to_nat maxPriority)) (mkLevel [] now)) ∅ 0 0 0.

(** [priority] clamped to the levels. *)
Definition clamp (pq : PriorityQueue) (priority : Z) : Z :=
  let priority := if (priority <? 0)%Z then 0%Z else priority in
  if (Z.of_nat (maxPrio pq) <? priority)%Z then Z.of_nat (maxPrio pq) else priority.

(** A slice with the tasks [ts]; the time it became empty is recorded. *)
Definition remaining_level (now : Z) (old : PriorityLevel) (ts : list task_ptr) : PriorityLevel :=
  mkLevel ts (if length ts =? 0 then now else lastEmpty old).

Definition set_levels (ls : list PriorityLevel) (lk : gmap string task_ptr) (size enq deq : Z)
    (pq : PriorityQueue) : PriorityQueue :=
  mkPQ (capacity pq) (maxPrio pq) ls lk size enq deq.

(** [pq.levels[i]] with [i] an [int]; out of range panics. *)
Definition level_at (pq : PriorityQueue) (i : Z) : option (nat * PriorityLevel) :=
  if (i <? 0)%Z then None else l ← levels pq !! Z.to_nat i; Some (Z.to_nat i, l).

Definition Push (task : option task_ptr) (h : task_heap) (pq : PriorityQueue)
    : res task_error () * task_heap * PriorityQueue :=
  match task with
  | None => (Err ErrInvalidTask, h, pq)
  | Some task =>
      match h !! task with
      | None => (Panic, h, pq)
      | Some t =>
          if (capacity pq <=? pq_size pq)%Z then (Err ErrQueueFull, h, pq)
          else if is_some_b (lookup_id pq !! ID t) then (Err ErrDuplicateTask, h, pq)
          else
            let priority := clamp pq (Priority t) in
            let h1 := <[task := set_Priority priority t]> h in
            match level_at pq priority with
            | None => (Panic, h1, pq)
            | Some (i, level) =>
                (Ok tt, h1,
                 set_levels (<[i := mkLevel (tasks level ++ [task]) (lastEmpty level)]> (levels pq))
                   (<[ID t := task]> (lookup_id pq)) (pq_size pq + 1) (enqueueCount pq + 1) (dequeueCount pq) pq)
            end
      end
  end.

(** The task ID behind a pointer. *)
Definition id_of (h : task_heap) (t : task_ptr) : string :=
  match h !! t with Some t => ID t | None => EmptyString end.

(** The [for] loop of [Pop] from level [i - 1] down to level 0. *)
Fixpoint popLoop (now : Z) (h : task_heap) (i : nat) (pq : PriorityQueue) : option task_ptr * PriorityQueue :=
  match i with
  | O => (None, pq)
  | S i' =>
      match levels pq !! i' with
      | Some level =>
          match tasks level with
          | task :: rest =>
              (Some task,
               set_levels (<[i' := remaining_level now level rest]> (levels pq))
                 (delete (id_of h task) (lookup_id pq)) (pq_size pq - 1) (enqueueCount pq)
                 (dequeueCount pq + 1) pq)
          | [] => popLoop now h i' pq
          end
      | None => (None, pq)
      end
  end.

Definition Pop (now : Z) (h : task_heap) (pq : PriorityQueue) : option task_ptr * PriorityQueue :=
  if (pq_size pq =? 0)%Z then (None, pq) else popLoop now h (S (maxPrio pq)) pq.

Definition delete_ids (h : task_heap) (ts : list task_ptr) (lk : gmap string task_ptr) : gmap string task_ptr :=
  foldl (λ lk t, delete (id_of h t) lk) lk ts.

(** The [for] loop of [PopBatch]. *)
Fixpoint popBatchLoop (now : Z) (h : task_heap) (i : nat) (remaining : nat) (acc : list task_ptr)
    (pq : PriorityQueue) : list task_ptr * PriorityQueue :=
  match i with
  | O => (acc, pq)
  | S i' =>
      if remaining =? 0 then (acc, pq)
      else
        match levels pq !! i' with
        | Some level =>
            let count := length (tasks level) in
            if count =? 0 then popBatchLoop now h i' remaining acc pq
            else
              let n := if remaining <? count then remaining else count in
              let taken := take n (tasks level) in
              popBatchLoop now h i' (remaining - n) (acc ++ taken)
                (set_levels (<[i' := remaining_level now level (drop n (tasks level))]> (levels pq))
                   (delete_ids h taken (lookup_id pq)) (pq_size pq - Z.of_nat n) (enqueueCount pq)
                   (dequeueCount pq + Z.of_nat n) pq)
        | None => (acc, pq)
        end
  end.

Definition PopBatch (now : Z) (h : task_heap) (n : Z) (pq : PriorityQueue) : list task_ptr * PriorityQueue :=
  if (n <=? 0)%Z then ([], pq)
  else if (pq_size pq =? 0)%Z then ([], pq)
  else popBatchLoop now h (S (maxPrio pq)) (Z.to_nat n) [] pq.

(** [for i, t := range tasks { if t.ID == taskID {...} }]: the slice without the
    first task that has the ID. *)
Fixpoint cut_id (h : task_heap) (taskID : string) (ts : list task_ptr) : option (list task_ptr) :=
  match ts with
  | [] => None
  | t :: ts' =>
      if String.eqb (id_of h t) taskID then Some ts'
      else rest ← cut_id h taskID ts'; Some (t :: rest)
  end.

Definition Cancel (now : Z) (h : task_heap) (taskID : string) (pq : PriorityQueue)
    : res task_error bool * PriorityQueue :=
  match lookup_id pq !! taskID with
  | None => (Ok false, pq)
  | Some task =>
      match h !! task with
      | None => (Panic, pq)
      | Some t =>
          match level_at pq (Priority t) with
          | None => (Panic, pq)
          | Some (i, level) =>
              match cut_id h taskID (tasks level) with
              | Some rest =>
                  (Ok true,
                   set_levels (<[i := remaining_level now level rest]> (levels pq))
                     (delete taskID (lookup_id pq)) (pq_size pq - 1) (enqueueCount pq) (dequeueCount pq) pq)
              | None => (Ok false, pq)
              end
          end
      end
  end.

Definition UpdatePriority (now : Z) (h : task_heap) (taskID : string) (newPriority : Z) (pq : PriorityQueue)
    : res task_error bool * task_heap * PriorityQueue :=
  match lookup_id pq !! taskID with
  | None => (Ok false, h, pq)
  | Some task =>
      match h !! task with
      | None => (Panic, h, pq)
      | Some t =>
          let newPriority := clamp pq newPriority in
          if (Priority t =? newPriority)%Z then (Ok true, h, pq)
          else
            match level_at pq (Priority t) with
            | None => (Panic, h, pq)
            | Some (i, oldLevel) =>
                match cut_id h taskID (tasks oldLevel) with
                | None => (Ok false, h, pq)
                | Some rest =>
                    let ls := <[i := remaining_level now oldLevel rest]> (levels pq) in
                    let h1 := <[task := set_Priority newPriority t]> h in
                    match ls !! Z.to_nat newPriority with
                    | None => (Panic, h1, pq)
                    | Some newLevel =>
                        (Ok true, h1,
                         set_levels
                           (<[Z.to_nat newPriority :=
                                mkLevel (tasks newLevel ++ [task]) (lastEmpty newLevel)]> ls)
                           (lookup_id pq) (pq_size pq) (enqueueCount pq) (dequeueCount pq) pq)
                    end
                end
            end
      end
  end.

Definition GetTask (taskID : string) (pq : PriorityQueue) : option task_ptr := lookup_id pq !! taskID.

Fixpoint peekLoop (i : nat) (pq : PriorityQueue) : option task_ptr :=
  match i with
  | O => None
  | S i' =>
      match levels pq !! i' with
      | Some level => match tasks level with task :: _ => Some task | [] => peekLoop i' pq end
      | None => None
      end
  end.

Definition Peek (pq : PriorityQueue) : option task_ptr := peekLoop (S (maxPrio pq)) pq.

Fixpoint peekBatchLoop (i remaining : nat) (acc : list task_ptr) (pq : PriorityQueue) : list task_ptr :=
  match i with
  | O => acc
  | S i' =>
      if remaining =? 0 then acc
      else
        match levels pq !! i' with
        | Some level =>
            let count := length (tasks level) in
            if count =? 0 then peekBatchLoop i' remaining acc pq
            else
              let n := if remaining <? count then remaining else count in
              peekBatchLoop i' (remaining - n) (acc ++ take n (tasks level)) pq
        | None => acc
        end
  end.

Definition PeekBatch (n : Z) (pq : PriorityQueue) : list task_ptr :=
  if (n <=? 0)%Z then [] else peekBatchLoop (S (maxPrio pq)) (Z.to_nat n) [] pq.

Definition Len (pq : PriorityQueue) : Z := pq_size pq.

Definition LenAtPriority (priority : Z) (pq : PriorityQueue) : nat :=
  if (priority <? 0)%Z || (Z.of_nat (maxPrio pq) <? priority)%Z then 0
  else match levels pq !! Z.to_nat priority with Some l => length (tasks l) | None => 0 end.

Definition Clear (now : Z) (pq : PriorityQueue) : PriorityQueue :=
  set_levels ((λ _, mkLevel [] now) <$> levels pq) ∅ 0 (enqueueCount pq) (dequeueCount pq) pq.

(** ** The contract *)
Module PrioSpec.

Record entry := mkEntry { e_ptr : task_ptr; e_id : string; e_prio : Z }.

(** After every task of the same or a higher priority. *)
Fixpoint insert (x : entry) (q : list entry) : list entry :=
  match q with
  | [] => [x]
  | y :: q' => if (e_prio x <=? e_prio y)%Z then y :: insert x q' else x :: q
  end.

Definition without (id : string) (q : list entry) : list entry := filter (λ y, e_id y ≠ id) q.

Definition find (id : string) (q : list entry) : option entry :=
  list.head (filter (λ y, e_id y = id) q).

End PrioSpec.

(** ** The representation *)

Import PrioSpec.

(** The entries of the levels [qls], in the order they will be popped. *)
Definition queue_of (qls : list (list entry)) : list entry := concat (reverse qls).

(** The queue represents, level by level, the entries [qls]. *)
Record reps (h : task_heap) (pq : PriorityQueue) (qls : list (list entry)) : Prop := {
  r_len : length qls = S (maxPrio pq);
  r_levels : tasks <$> levels pq = (λ es, e_ptr <$> es) <$> qls;
  r_prio : ∀ i es x, qls !! i = Some es → x ∈ es → e_prio x = Z.of_nat i;
  r_heap : ∀ x, x ∈ queue_of qls →
    ∃ t, h !! e_ptr x = Some t ∧ ID t = e_id x ∧ Priority t = e_prio x;
  r_ids : NoDup (e_id <$> queue_of qls);
  r_lookup : ∀ id t, lookup_id pq !! id = Some t ↔
    ∃ x, x ∈ queue_of qls ∧ e_id x = id ∧ e_ptr x = t;
  r_size : pq_size pq = Z.of_nat (length (queue_of qls)) }.

Lemma queue_of_app lo es hi :
  queue_of (lo ++ es :: hi) = queue_of hi ++ es ++ queue_of lo.
Proof.
  unfold queue_of. rewrite reverse_app, reverse_cons, !concat_app. simpl.
  by rewrite app_nil_r, <- app_assoc.
Qed.

(** The queue around level [i]. *)
Lemma level_split qls i es :
  qls !! i = Some es →
  ∃ lo hi, qls = lo ++ es :: hi ∧ length lo = i ∧
    ∀ es', <[i := es']> qls = lo ++ es' :: hi ∧ queue_of (<[i := es']> qls) = queue_of hi ++ es' ++ queue_of lo.
Proof.
  intros Hi. exists (take i qls), (drop (S i) qls).
  assert (length (take i qls) = i) as Hlen by (apply length_take_le; apply lookup_lt_Some in Hi; lia).
  rewrite take_drop_middle by done. split_and!; [done..|]. intros es'.
  assert (<[i := es']> qls = take i qls ++ es' :: drop (S i) qls) as Heq.
  { rewrite <- (take_drop_middle qls i es) at 1 by done.
    rewrite insert_app_r_alt by lia. rewrite Hlen, Nat.sub_diag. done. }
  split; [done|]. by rewrite Heq, queue_of_app.
Qed.

Lemma level_lookup h pq qls i l :
  reps h pq qls → levels pq !! i = Some l → ∃ es, qls !! i = Some es ∧ tasks l = e_ptr <$> es.
Proof.
  intros H Hi. pose proof (f_equal (λ ls, ls !! i) (r_levels _ _ _ H)) as Hl. simpl in Hl.
  rewrite !list_lookup_fmap, Hi in Hl. destruct (qls !! i) as [es|]; simplify_eq/=. eauto.
Qed.

Lemma level_exists h pq qls i : reps h pq qls → i ≤ maxPrio pq → ∃ l, levels pq !! i = Some l.
Proof.
  intros H Hi. apply lookup_lt_is_Some_2.
  pose proof (f_equal length (r_levels _ _ _ H)) as Hl. rewrite !length_fmap in Hl.
  rewrite Hl, (r_len _ _ _ H). lia.
Qed.

Lemma elem_queue_of qls x : x ∈ queue_of qls ↔ ∃ i es, qls !! i = Some es ∧ x ∈ es.
Proof.
  unfold queue_of. rewrite list_elem_of_In, in_concat. split.
  - intros (es & Hes & Hx). apply list_elem_of_In in Hes. apply list_elem_of_In in Hx. rewrite elem_of_reverse in Hes.
    apply list_elem_of_lookup in Hes as [i Hi]. eauto.
  - intros (i & es & Hi & Hx). exists es. split; apply list_elem_of_In; [|done].
    rewrite elem_of_reverse. by eapply list_elem_of_lookup_2.
Qed.

Lemma id_of_rep h pq qls x : reps h pq qls → x ∈ queue_of qls → id_of h (e_ptr x) = e_id x.
Proof. intros H Hx. unfold id_of. by destruct (r_heap _ _ _ H x Hx) as (t & -> & -> & _). Qed.

Lemma id_unique (q : list entry) x y : NoDup (e_id <$> q) → x ∈ q → y ∈ q → e_id x = e_id y → x = y.
Proof.
  intros Hnd Hx Hy Hid. apply list_elem_of_lookup in Hx as [i Hi]. apply list_elem_of_lookup in Hy as [j Hj].
  assert (i = j) as ->; [|congruence].
  eapply (NoDup_lookup (e_id <$> q)); [done| |]; rewrite list_lookup_fmap; [by rewrite Hi|by rewrite Hj; simpl; rewrite Hid].
Qed.

Lemma lookup_delete_ids h ts lk id t :
  delete_ids h ts lk !! id = Some t ↔ lk !! id = Some t ∧ id ∉ (id_of h <$> ts).
Proof.
  revert lk; induction ts as [|a ts IH]; intros lk; simpl.
  - split; [intros ?; split; [done|apply not_elem_of_nil]|by intros [? _]].
  - unfold delete_ids in *. simpl. rewrite IH, lookup_delete_Some, not_elem_of_cons. intuition congruence.
Qed.

(** Removing the entries [removed] from one level. *)
Lemma remove_rep h pq qls i es es' removed tm enq deq :
  reps h pq qls → qls !! i = Some es → Permutation es (removed ++ es') →
  reps h
    (set_levels (<[i := mkLevel (e_ptr <$> es') tm]> (levels pq))
       (delete_ids h (e_ptr <$> removed) (lookup_id pq)) (pq_size pq - Z.of_nat (length removed)) enq deq pq)
    (<[i := es']> qls) ∧
  Permutation (queue_of qls) (removed ++ queue_of (<[i := es']> qls)).
Proof.
  intros H Hi Hperm. destruct (level_split _ _ _ Hi) as (lo & hi & Hq & Hlo & Hupd).
  destruct (Hupd es') as [_ Hq'].
  assert (Permutation (queue_of qls) (removed ++ queue_of (<[i := es']> qls))) as HP.
  { rewrite Hq', Hq, queue_of_app, Hperm, <- app_assoc. apply Permutation_app_swap_app. }
  split; [|exact HP].
  assert (∀ x, x ∈ queue_of qls ↔ x ∈ removed ∨ x ∈ queue_of (<[i := es']> qls)) as Hmem.
  { intros x. by rewrite HP, elem_of_app. }
  pose proof (r_ids _ _ _ H) as Hids. rewrite HP, fmap_app in Hids.
  apply list.NoDup_app in Hids as (_ & Hdis & Hnd).
  constructor; cbn [set_levels levels maxPrio lookup_id pq_size].
  - rewrite length_insert. apply (r_len _ _ _ H).
  - rewrite !list_fmap_insert. by rewrite (r_levels _ _ _ H).
  - intros j es0 x Hj Hx. apply list_lookup_insert_Some in Hj as [(-> & <- & _)|[_ Hj]].
    + apply (r_prio _ _ _ H j es x Hi). rewrite Hperm. apply elem_of_app. by right.
    + by eapply (r_prio _ _ _ H).
  - intros x Hx. apply (r_heap _ _ _ H), Hmem. by right.
  - exact Hnd.
  - intros id t. rewrite lookup_delete_ids, (r_lookup _ _ _ H). split.
    + intros ((x & Hx & <- & <-) & Hn). exists x. split; [|done]. apply Hmem in Hx as [Hx|Hx]; [|done].
      destruct Hn. rewrite <- (id_of_rep _ _ _ x H) by (by apply Hmem; left).
      by apply list_elem_of_fmap_2, list_elem_of_fmap_2.
    + intros (x & Hx & <- & <-). split; [exists x; split; [apply Hmem; by right|done]|].
      intros (p & Hp & (y & -> & Hy)%list_elem_of_fmap)%list_elem_of_fmap.
      rewrite (id_of_rep _ _ _ y H) in Hp by (by apply Hmem; left).
      apply (Hdis (e_id y)); [by apply list_elem_of_fmap_2|]. rewrite <- Hp. by apply list_elem_of_fmap_2.
  - rewrite (r_size _ _ _ H), HP, length_app. lia.
Qed.

Lemma insert_app x a b :
  Forall (λ y, (e_prio x ≤ e_prio y)%Z) a → Forall (λ y, (e_prio y < e_prio x)%Z) b →
  insert x (a ++ b) = a ++ x :: b.
Proof.
  intros Ha Hb. induction Ha as [|y a Hy Ha IH]; simpl.
  - destruct Hb as [|y b Hy Hb]; simpl; [done|]. by rewrite (proj2 (Z.leb_gt _ _)).
  - rewrite (proj2 (Z.leb_le _ _)) by done. by rewrite IH.
Qed.

Lemma queue_of_Forall (P : entry → Prop) qls :
  (∀ i es x, qls !! i = Some es → x ∈ es → P x) → Forall P (queue_of qls).
Proof. intros HP. apply list.Forall_forall. intros x (i & es & Hi & Hx)%elem_queue_of. eauto. Qed.

(** Appending a task to the level of its priority is inserting it. *)
Lemma add_queue h pq qls p es x :
  reps h pq qls → qls !! p = Some es → e_prio x = Z.of_nat p →
  queue_of (<[p := es ++ [x]]> qls) = insert x (queue_of qls).
Proof.
  intros H Hp Hx. destruct (level_split _ _ _ Hp) as (lo & hi & Hq & Hlo & Hupd).
  destruct (Hupd (es ++ [x])) as [_ ->]. rewrite Hq, queue_of_app, (app_assoc (queue_of hi) es).
  rewrite insert_app; [by rewrite <- !app_assoc| |].
  - apply list.Forall_app. split.
    + apply queue_of_Forall. intros i es' y Hi Hy. rewrite Hx.
      rewrite (r_prio _ _ _ H (S (p + i)) es' y); [lia| |done].
      rewrite Hq, lookup_app_r, Hlo by lia. replace (S (p + i) - p) with (S i) by lia. done.
    + apply list.Forall_forall. intros y Hy. rewrite Hx, (r_prio _ _ _ H p es y Hp Hy). lia.
  - apply queue_of_Forall. intros i es' y Hi Hy. rewrite Hx.
    rewrite (r_prio _ _ _ H i es' y); [|by rewrite Hq, lookup_app_l by (by eapply lookup_lt_Some)|done].
    apply lookup_lt_Some in Hi. lia.
Qed.

Lemma elem_of_insert x y q : y ∈ insert x q ↔ y = x ∨ y ∈ q.
Proof.
  induction q as [|z q IH]; simpl; [set_solver|].
  destruct (_ <=? _)%Z; rewrite !elem_of_cons, ?IH; tauto.
Qed.

Lemma insert_Permutation x q : Permutation (insert x q) (x :: q).
Proof.
  induction q as [|y q IH]; simpl; [done|]. destruct (_ <=? _)%Z; [|done]. rewrite IH. constructor.
Qed.

(** A task that is not queued is added at the end of its level. *)
Lemma add_rep h pq qls p es l t task enq deq :
  reps h pq qls → qls !! p = Some es → levels pq !! p = Some l → h !! task = Some t →
  lookup_id pq !! ID t = None →
  let x := mkEntry task (ID t) (Z.of_nat p) in
  reps (<[task := set_Priority (Z.of_nat p) t]> h)
    (set_levels (<[p := mkLevel (tasks l ++ [task]) (lastEmpty l)]> (levels pq))
       (<[ID t := task]> (lookup_id pq)) (pq_size pq + 1) enq deq pq) (<[p := es ++ [x]]> qls) ∧
  queue_of (<[p := es ++ [x]]> qls) = insert x (queue_of qls).
Proof.
  intros H Hp Hl Ht Hnone x.
  assert (queue_of (<[p := es ++ [x]]> qls) = insert x (queue_of qls)) as Hins by (by eapply add_queue).
  split; [|exact Hins]. destruct (level_lookup _ _ _ _ _ H Hl) as (es' & Hes' & Htasks). simplify_eq.
  assert (∀ y, y ∈ queue_of qls → e_id y ≠ ID t) as Hfresh.
  { intros y Hy Hid. assert (lookup_id pq !! ID t = Some (e_ptr y)) by (apply (r_lookup _ _ _ H); eauto).
    congruence. }
  assert (∀ y, y ∈ queue_of qls → e_ptr y ≠ task) as Hptr.
  { intros y Hy <-. destruct (r_heap _ _ _ H y Hy) as (t' & Ht' & Hid & _). simplify_eq.
    by apply (Hfresh y). }
  constructor; cbn [set_levels levels maxPrio lookup_id pq_size]; rewrite ?Hins.
  - rewrite length_insert. apply (r_len _ _ _ H).
  - rewrite !list_fmap_insert, (r_levels _ _ _ H). simpl. by rewrite Htasks, fmap_app.
  - intros j es0 y Hj Hy. apply list_lookup_insert_Some in Hj as [(-> & <- & _)|[_ Hj]].
    + apply elem_of_app in Hy as [Hy|Hy%list_elem_of_singleton]; [by eapply (r_prio _ _ _ H)|by subst].
    + by eapply (r_prio _ _ _ H).
  - intros y [->|Hy]%elem_of_insert.
    + exists (set_Priority (Z.of_nat p) t). split; [apply lookup_insert_eq|done].
    + rewrite lookup_insert_ne by (apply not_eq_sym; by apply Hptr). by apply (r_heap _ _ _ H).
  - rewrite insert_Permutation, fmap_cons. constructor; [|apply (r_ids _ _ _ H)].
    intros (y & Hid & Hy)%list_elem_of_fmap. by apply (Hfresh y).
  - intros id t'. rewrite lookup_insert_Some, (r_lookup _ _ _ H). split.
    + intros [[<- <-]|(_ & y & Hy & <- & <-)].
      * exists x. split; [apply elem_of_insert; by left|done].
      * exists y. split; [apply elem_of_insert; by right|done].
    + intros (y & [->|Hy]%elem_of_insert & <- & <-); [by left|]. right.
      split; [apply not_eq_sym; by apply Hfresh|eauto].
  - rewrite insert_Permutation, (r_size _ _ _ H). simpl. lia.
Qed.

(** ** The operations against the contract *)

Lemma clamp_range pq p : (0 ≤ clamp pq p ≤ Z.of_nat (maxPrio pq))%Z.
Proof. unfold clamp. repeat case_match; lia. Qed.

Lemma reps_counts h pq qls enq deq :
  reps h pq qls → reps h (set_levels (levels pq) (lookup_id pq) (pq_size pq) enq deq pq) qls.
Proof. intros []. by constructor. Qed.

Lemma level_at_rep h pq qls p :
  reps h pq qls → (0 ≤ p ≤ Z.of_nat (maxPrio pq))%Z →
  ∃ l es, level_at pq p = Some (Z.to_nat p, l) ∧ levels pq !! Z.to_nat p = Some l ∧
    qls !! Z.to_nat p = Some es ∧ tasks l = e_ptr <$> es.
Proof.
  intros H Hp. destruct (level_exists _ _ _ (Z.to_nat p) H) as [l Hl]; [lia|].
  destruct (level_lookup _ _ _ _ _ H Hl) as (es & Hes & Ht). exists l, es. split_and!; try done.
  unfold level_at. rewrite (proj2 (Z.ltb_ge _ _)) by lia. by rewrite Hl.
Qed.

Lemma Push_rep h pq qls task t :
  reps h pq qls → h !! task = Some t →
  let '(r, h', pq') := Push (Some task) h pq in
  ∃ qls', reps h' pq' qls' ∧ capacity pq' = capacity pq ∧ maxPrio pq' = maxPrio pq ∧
    if (capacity pq <=? Z.of_nat (length (queue_of qls)))%Z then r = Err ErrQueueFull ∧ qls' = qls ∧ h' = h
    else if bool_decide (ID t ∈ e_id <$> queue_of qls) then r = Err ErrDuplicateTask ∧ qls' = qls ∧ h' = h
    else r = Ok tt ∧ h' = <[task := set_Priority (clamp pq (Priority t)) t]> h ∧
      queue_of qls' = insert (mkEntry task (ID t) (clamp pq (Priority t))) (queue_of qls).
Proof.
  intros H Ht. unfold Push. rewrite Ht, (r_size _ _ _ H).
  destruct (_ <=? _)%Z; [by exists qls|].
  assert (is_some_b (lookup_id pq !! ID t) = bool_decide (ID t ∈ e_id <$> queue_of qls)) as ->.
  { destruct (lookup_id pq !! ID t) as [p|] eqn:E; simpl; symmetry.
    - apply (r_lookup _ _ _ H) in E as (x & Hx & <- & _). apply bool_decide_eq_true.
      by apply list_elem_of_fmap_2.
    - apply bool_decide_eq_false. intros (x & Hid & Hx)%list_elem_of_fmap.
      assert (lookup_id pq !! ID t = Some (e_ptr x)) by (apply (r_lookup _ _ _ H); eauto). congruence. }
  case_bool_decide as Hdup; [by exists qls|].
  pose proof (clamp_range pq (Priority t)) as Hc.
  destruct (level_at_rep _ _ _ _ H Hc) as (l & es & -> & Hl & Hes & _).
  destruct (add_rep h pq qls (Z.to_nat (clamp pq (Priority t))) es l t task (enqueueCount pq + 1) (dequeueCount pq)
    H Hes Hl Ht) as [Hr Hins].
  { destruct (lookup_id pq !! ID t) as [p|] eqn:E; [|done].
    apply (r_lookup _ _ _ H) in E as (x & Hx & Hid & _). destruct Hdup. rewrite <- Hid.
    by apply list_elem_of_fmap_2. }
  rewrite Z2Nat.id in Hr, Hins by lia. eexists. split; [rewrite <- (r_size _ _ _ H); exact Hr|]. done.
Qed.

(** [i] levels remain to be looked at: the levels above are empty. *)
Definition above_empty (i : nat) (qls : list (list entry)) : Prop :=
  ∀ j es, i ≤ j → qls !! j = Some es → es = [].

(** The highest non-empty level holds the front of the queue. *)
Lemma top_level i qls es :
  above_empty (S i) qls → qls !! i = Some es →
  ∃ lo, queue_of qls = es ++ queue_of lo ∧
    (∀ es', queue_of (<[i := es']> qls) = es' ++ queue_of lo) ∧ (es = [] → above_empty i qls).
Proof.
  intros Habove Hi. destruct (level_split _ _ _ Hi) as (lo & hi & Hq & Hlo & Hupd).
  assert (queue_of hi = []) as Hhi.
  { destruct (queue_of hi) as [|x q] eqn:E; [done|]. exfalso.
    assert (x ∈ queue_of hi) as (j & es' & Hj & Hx)%elem_queue_of by (rewrite E; left).
    rewrite (Habove (S (i + j)) es') in Hx; [by apply not_elem_of_nil in Hx|lia|].
    rewrite Hq, lookup_app_r by lia. replace (S (i + j) - length lo) with (S j) by lia. done. }
  exists lo. split; [by rewrite Hq, queue_of_app, Hhi|]. split.
  - intros es'. destruct (Hupd es') as [_ ->]. by rewrite Hhi.
  - intros -> j es' Hj Hes'. destruct (decide (j = i)) as [->|]; [congruence|].
    apply (Habove j); [lia|done].
Qed.

Lemma popLoop_rep now h pq qls i :
  reps h pq qls → i ≤ S (maxPrio pq) → above_empty i qls →
  let (r, pq') := popLoop now h i pq in
  ∃ qls', reps h pq' qls' ∧ capacity pq' = capacity pq ∧ maxPrio pq' = maxPrio pq ∧
    r = e_ptr <$> list.head (queue_of qls) ∧ queue_of qls' = tail (queue_of qls).
Proof.
  intros H. induction i as [|i IH]; intros Hi Habove; simpl.
  - exists qls. assert (queue_of qls = []) as Hnil.
    { destruct (queue_of qls) as [|x q] eqn:E; [done|]. exfalso.
      assert (x ∈ queue_of qls) as (j & es & Hj & Hx)%elem_queue_of by (rewrite E; left).
      rewrite (Habove j es) in Hx; [by apply not_elem_of_nil in Hx|lia|done]. }
    by rewrite Hnil.
  - destruct (level_exists _ _ _ i H) as [l Hl]; [lia|]. rewrite Hl.
    destruct (level_lookup _ _ _ _ _ H Hl) as (es & Hes & ->).
    destruct (top_level i qls es Habove Hes) as (lo & Hq & Hupd & Hempty).
    destruct es as [|x es]; simpl; [apply IH; [lia|by apply Hempty]|].
    destruct (remove_rep h pq qls i (x :: es) es [x] (if length (e_ptr <$> es) =? 0 then now else lastEmpty l)
      (enqueueCount pq) (dequeueCount pq + 1) H Hes) as [Hr _]; [done|].
    exists (<[i := es]> qls). split; [exact Hr|]. rewrite Hupd, Hq. done.
Qed.

Lemma Pop_rep now h pq qls :
  reps h pq qls →
  let (r, pq') := Pop now h pq in
  ∃ qls', reps h pq' qls' ∧ capacity pq' = capacity pq ∧ maxPrio pq' = maxPrio pq ∧
    r = e_ptr <$> list.head (queue_of qls) ∧ queue_of qls' = tail (queue_of qls).
Proof.
  intros H. unfold Pop. destruct (_ =? _)%Z eqn:E.
  - apply Z.eqb_eq in E. rewrite (r_size _ _ _ H) in E. exists qls.
    destruct (queue_of qls) eqn:Hq; [|simpl in E; lia]. done.
  - apply popLoop_rep; [done|lia|]. intros j es Hj Hes. apply lookup_lt_Some in Hes.
    rewrite (r_len _ _ _ H) in Hes. lia.
Qed.

Lemma popBatchLoop_rep now h i remaining acc pq qls :
  reps h pq qls → i ≤ S (maxPrio pq) → above_empty i qls →
  let (r, pq') := popBatchLoop now h i remaining acc pq in
  ∃ qls', reps h pq' qls' ∧ capacity pq' = capacity pq ∧ maxPrio pq' = maxPrio pq ∧
    r = acc ++ (e_ptr <$> take remaining (queue_of qls)) ∧ queue_of qls' = drop remaining (queue_of qls).
Proof.
  revert remaining acc pq qls. induction i as [|i IH]; intros remaining acc pq qls H Hi Habove; cbn [popBatchLoop]; cbv zeta.
  - exists qls. assert (queue_of qls = []) as ->.
    { destruct (queue_of qls) as [|x q] eqn:E; [done|]. exfalso.
      assert (x ∈ queue_of qls) as (j & es & Hj & Hx)%elem_queue_of by (rewrite E; left).
      rewrite (Habove j es) in Hx; [by apply not_elem_of_nil in Hx|lia|done]. }
    by rewrite take_nil, drop_nil, app_nil_r.
  - destruct (remaining =? 0) eqn:Er.
    { apply Nat.eqb_eq in Er as ->. exists qls. by rewrite app_nil_r. }
    destruct (level_exists _ _ _ i H) as [l Hl]; [lia|]. rewrite Hl.
    destruct (level_lookup _ _ _ _ _ H Hl) as (es & Hes & ->). rewrite length_fmap.
    destruct (top_level i qls es Habove Hes) as (lo & Hq & Hupd & Hempty).
    destruct (length es =? 0) eqn:Ec.
    { apply Nat.eqb_eq, nil_length_inv in Ec. apply IH; [done|lia|by apply Hempty]. }
    set (n := if remaining <? length es then remaining else length es).
    assert (n = min remaining (length es)) as Hn.
    { unfold n. destruct (_ <? _) eqn:E; [apply Nat.ltb_lt in E|apply Nat.ltb_ge in E]; lia. }
    destruct (remove_rep h pq qls i es (drop n es) (take n es)
      (if length (drop n (e_ptr <$> es)) =? 0 then now else lastEmpty l)
      (enqueueCount pq) (dequeueCount pq + Z.of_nat n) H Hes) as [Hr _]; [by rewrite take_drop|].
    rewrite !fmap_take, !fmap_drop, length_take_le in Hr by lia.
    set (pq1 := set_levels _ _ _ _ _ pq) in Hr.
    destruct (decide (remaining ≤ length es)) as [Hle|Hgt].
    + assert (n = remaining) as Hnr by lia. clearbody n. clear Hn. subst n. rewrite Nat.sub_diag.
      assert (∀ a b, popBatchLoop now h i 0 a b = (a, b)) as H0 by (intros; by destruct i).
      rewrite H0. exists (<[i := drop remaining es]> qls). split; [exact Hr|].
      rewrite Hupd, Hq, take_app_le, drop_app_le by lia. by rewrite fmap_take.
    + assert (n = length es) as Hnl by lia. clearbody n. clear Hn. subst n.
      specialize (IH (remaining - length es) (acc ++ take (length es) (e_ptr <$> es)) pq1 _ Hr).
      rewrite (drop_ge es) in IH by lia.
      destruct (popBatchLoop now h i _ _ _) as [r pq']. destruct IH as (qls' & Hr' & Hc & Hm & -> & Hq').
      { simpl. lia. }
      { intros j es' Hj Hes'. apply list_lookup_insert_Some in Hes' as [(-> & <- & _)|[Hne Hes']]; [done|].
        apply (Habove j); [lia|done]. }
      exists qls'. split; [done|]. split; [done|]. split; [done|].
      rewrite Hq', Hupd, Hq. simpl. rewrite take_app_ge, drop_app_ge by lia.
      split; [|done]. rewrite fmap_app, <- app_assoc. f_equal. by rewrite take_ge by (rewrite length_fmap; lia).
Qed.

Lemma PopBatch_rep now h n pq qls :
  reps h pq qls →
  let (r, pq') := PopBatch now h n pq in
  ∃ qls', reps h pq' qls' ∧ capacity pq' = capacity pq ∧ maxPrio pq' = maxPrio pq ∧
    r = e_ptr <$> take (Z.to_nat n) (queue_of qls) ∧ queue_of qls' = drop (Z.to_nat n) (queue_of qls).
Proof.
  intros H. unfold PopBatch. destruct (n <=? 0)%Z eqn:En.
  { apply Z.leb_le in En. replace (Z.to_nat n) with 0 by lia. by exists qls. }
  destruct (_ =? _)%Z eqn:E.
  - apply Z.eqb_eq in E. rewrite (r_size _ _ _ H) in E. exists qls.
    destruct (queue_of qls) eqn:Hq; [|simpl in E; lia]. by rewrite take_nil, drop_nil.
  - apply (popBatchLoop_rep now h _ _ [] pq qls H); [lia|]. intros j es Hj Hes. apply lookup_lt_Some in Hes.
    rewrite (r_len _ _ _ H) in Hes. lia.
Qed.

Lemma cut_id_rep h (es : list entry) id :
  (∀ x, x ∈ es → id_of h (e_ptr x) = e_id x) → NoDup (e_id <$> es) →
  cut_id h id (e_ptr <$> es) =
  if bool_decide (id ∈ e_id <$> es) then Some (e_ptr <$> without id es) else None.
Proof.
  induction es as [|x es IH]; intros Hid Hnd; [done|]. rewrite fmap_cons in *. simpl.
  apply list.NoDup_cons in Hnd as [Hni Hnd]. rewrite (Hid x) by left. unfold without.
  destruct (String.eqb (e_id x) id) eqn:E.
  - apply String.eqb_eq in E. rewrite bool_decide_eq_true_2 by (rewrite E; left).
    rewrite filter_cons, decide_False by auto. rewrite list_filter_all; [done|].
    intros y Hy Heq. apply Hni. rewrite E, <- Heq. by apply list_elem_of_fmap_2.
  - apply String.eqb_neq in E. rewrite filter_cons, decide_True by done.
    rewrite IH by (try done; intros; apply Hid; by right).
    destruct (decide (id ∈ e_id <$> es)) as [Hin|Hin].
    + rewrite !bool_decide_eq_true_2; [done|by right|done].
    + rewrite !bool_decide_eq_false_2; [done| |done].
      intros [->|?]%elem_of_cons; done.
Qed.

Lemma find_in id (q : list entry) x : NoDup (e_id <$> q) → x ∈ q → e_id x = id → find id q = Some x.
Proof.
  unfold find. induction q as [|y q IH]; intros Hnd Hx Hid; [by apply not_elem_of_nil in Hx|].
  rewrite fmap_cons in Hnd. apply list.NoDup_cons in Hnd as [Hni Hnd]. rewrite filter_cons.
  apply elem_of_cons in Hx as [->|Hx]; [by rewrite decide_True|].
  rewrite decide_False; [by apply IH|]. intros Heq. apply Hni. rewrite Heq, <- Hid. by apply list_elem_of_fmap_2.
Qed.

Lemma find_none id (q : list entry) : (∀ x, x ∈ q → e_id x ≠ id) → find id q = None.
Proof.
  unfold find. induction q as [|y q IH]; intros H; [done|]. rewrite filter_cons, decide_False by (apply H; left).
  apply IH. intros x Hx. apply H. by right.
Qed.

Lemma without_none id (q : list entry) : (∀ x, x ∈ q → e_id x ≠ id) → without id q = q.
Proof. intros H. apply list_filter_all, H. Qed.

Lemma without_app id a b : without id (a ++ b) = without id a ++ without id b.
Proof. apply list.filter_app. Qed.

(** A queued ID: its entry, its level, and the queue without it. *)
Lemma queued_level h pq qls id task :
  reps h pq qls → lookup_id pq !! id = Some task →
  ∃ x es l t, find id (queue_of qls) = Some x ∧ x ∈ es ∧ e_id x = id ∧ e_ptr x = task ∧
    (0 ≤ e_prio x ≤ Z.of_nat (maxPrio pq))%Z ∧
    h !! task = Some t ∧ ID t = id ∧ Priority t = e_prio x ∧
    qls !! Z.to_nat (e_prio x) = Some es ∧ levels pq !! Z.to_nat (e_prio x) = Some l ∧
    cut_id h id (tasks l) = Some (e_ptr <$> without id es) ∧
    Permutation es ([x] ++ without id es) ∧
    queue_of (<[Z.to_nat (e_prio x) := without id es]> qls) = without id (queue_of qls).
Proof.
  intros H Hlk. apply (r_lookup _ _ _ H) in Hlk as (x & Hx & Hid & Hptr).
  destruct (r_heap _ _ _ H x Hx) as (t & Ht & Htid & Htp). rewrite Hptr in Ht.
  pose proof Hx as (i & es & Hi & Hxes)%elem_queue_of.
  pose proof (r_prio _ _ _ H i es x Hi Hxes) as Hp.
  pose proof (lookup_lt_Some _ _ _ Hi) as Hlt. rewrite (r_len _ _ _ H) in Hlt.
  destruct (level_exists _ _ _ i H) as [l Hl]; [lia|].
  destruct (level_lookup _ _ _ _ _ H Hl) as (es' & Hes' & Htasks). simplify_eq.
  assert (Z.to_nat (e_prio x) = i) as Hidx by lia.
  destruct (level_split _ _ _ Hi) as (lo & hi & Hq & Hlo & Hupd).
  pose proof (r_ids _ _ _ H) as Hids. rewrite Hq, queue_of_app, !fmap_app in Hids.
  apply list.NoDup_app in Hids as (_ & Hd1 & [Hnd [Hd2 _]]%list.NoDup_app).
  assert (∀ y, y ∈ es → id_of h (e_ptr y) = e_id y) as Hids'.
  { intros y Hy. apply (id_of_rep _ _ _ _ H), elem_queue_of. eauto. }
  exists x, es, l, t. rewrite Hidx. split_and!; try (done || lia).
  - apply find_in; [apply (r_ids _ _ _ H)|done|done].
  - rewrite Htasks, cut_id_rep by done. rewrite bool_decide_eq_true_2; [done|by apply list_elem_of_fmap_2].
  - clear -Hxes Hnd. induction es as [|y es IH]; [by apply not_elem_of_nil in Hxes|].
    rewrite fmap_cons in Hnd. apply list.NoDup_cons in Hnd as [Hni Hnd]. unfold without. rewrite filter_cons.
    apply elem_of_cons in Hxes as [->|Hxes].
    + rewrite decide_False by auto. rewrite list_filter_all; [done|].
      intros z Hz Heq. apply Hni. rewrite <- Heq. by apply list_elem_of_fmap_2.
    + rewrite decide_True.
      2:{ intros Heq. apply Hni. rewrite Heq. by apply list_elem_of_fmap_2. }
      unfold without in IH. rewrite (IH Hxes Hnd) at 1. apply perm_swap.
  - destruct (Hupd (without (e_id x) es)) as [_ ->]. rewrite Hq, queue_of_app, !without_app.
    f_equal; [|f_equal]; symmetry; apply without_none.
    + intros y Hy Heq. apply (Hd1 (e_id y)); [by apply list_elem_of_fmap_2|]. rewrite Heq.
      apply elem_of_app. left. by apply list_elem_of_fmap_2.
    + intros y Hy Heq. apply (Hd2 (e_id x)); [by apply list_elem_of_fmap_2|]. rewrite <- Heq.
      by apply list_elem_of_fmap_2.
Qed.

Lemma not_queued h pq qls id :
  reps h pq qls → lookup_id pq !! id = None → ∀ x, x ∈ queue_of qls → e_id x ≠ id.
Proof.
  intros H Hn x Hx Hid. assert (lookup_id pq !! id = Some (e_ptr x)) by (apply (r_lookup _ _ _ H); eauto).
  congruence.
Qed.

Lemma Cancel_rep now h id pq qls :
  reps h pq qls →
  let (r, pq') := Cancel now h id pq in
  ∃ qls', reps h pq' qls' ∧ capacity pq' = capacity pq ∧ maxPrio pq' = maxPrio pq ∧
    r = Ok (is_some_b (find id (queue_of qls))) ∧ queue_of qls' = without id (queue_of qls).
Proof.
  intros H. unfold Cancel. destruct (lookup_id pq !! id) as [task|] eqn:Hlk.
  - destruct (queued_level _ _ _ _ _ H Hlk) as (x & es & l & t & Hf & Hx & Hid & Hptr & Hrange & Ht & Htid & Htp &
      Hes & Hl & Hcut & Hperm & Hq).
    rewrite Ht, Htp. unfold level_at. rewrite (proj2 (Z.ltb_ge _ _)) by lia. rewrite Hl. simpl.
    rewrite Hcut, Hf.
    destruct (remove_rep h pq qls _ es (without id es) [x]
      (if length (e_ptr <$> without id es) =? 0 then now else lastEmpty l)
      (enqueueCount pq) (dequeueCount pq) H Hes Hperm) as [Hr _].
    eexists. split; [|split_and!; [done..|exact Hq]].
    unfold delete_ids in Hr. simpl in Hr. unfold id_of in Hr. rewrite Hptr, Ht, Htid in Hr. exact Hr.
  - exists qls. pose proof (not_queued _ _ _ _ H Hlk) as Hn.
    by rewrite find_none, without_none by done.
Qed.

Definition reprioritise (id : string) (p : Z) (q : list entry) : list entry :=
  match find id q with
  | Some x => if (e_prio x =? p)%Z then q else insert (mkEntry (e_ptr x) id p) (without id q)
  | None => q
  end.

Lemma UpdatePriority_rep now h id p pq qls :
  reps h pq qls →
  let '(r, h', pq') := UpdatePriority now h id p pq in
  ∃ qls', reps h' pq' qls' ∧ capacity pq' = capacity pq ∧ maxPrio pq' = maxPrio pq ∧
    r = Ok (is_some_b (find id (queue_of qls))) ∧
    queue_of qls' = reprioritise id (clamp pq p) (queue_of qls) ∧
    (∀ t, id_of h' t = id_of h t) ∧ dom h' = dom h.
Proof.
  intros H. unfold UpdatePriority, reprioritise. destruct (lookup_id pq !! id) as [task|] eqn:Hlk.
  2:{ exists qls. pose proof (not_queued _ _ _ _ H Hlk) as Hn. by rewrite find_none by done. }
  destruct (queued_level _ _ _ _ _ H Hlk) as (x & es & l & t & Hf & Hx & Hid & Hptr & Hrange & Ht & Htid & Htp &
    Hes & Hl & Hcut & Hperm & Hq).
  rewrite Ht, Htp, Hf. destruct (e_prio x =? clamp pq p)%Z eqn:Heq; [by exists qls|].
  unfold level_at. rewrite (proj2 (Z.ltb_ge _ _)) by lia. rewrite Hl. simpl. rewrite Hcut.
  destruct (remove_rep h pq qls _ es (without id es) [x]
    (if length (e_ptr <$> without id es) =? 0 then now else lastEmpty l)
    (enqueueCount pq) (dequeueCount pq) H Hes Hperm) as [Hr _].
  set (pq1 := set_levels _ _ _ _ _ pq) in Hr.
  pose proof (clamp_range pq p) as Hc.
  destruct (level_at_rep _ _ _ _ Hr Hc) as (nl & nes & _ & Hnl & Hnes & _).
  change (levels pq1) with (<[Z.to_nat (e_prio x) := remaining_level now l (e_ptr <$> without id es)]> (levels pq))
    in Hnl.
  rewrite Hnl.
  assert (lookup_id pq1 = delete id (lookup_id pq)) as Hlk1.
  { unfold pq1, delete_ids. simpl. unfold id_of. by rewrite Hptr, Ht, Htid. }
  destruct (add_rep h pq1 _ _ nes nl t task (enqueueCount pq) (dequeueCount pq) Hr Hnes Hnl Ht) as [Hr2 Hins].
  { by rewrite Htid, Hlk1, lookup_delete_eq. }
  rewrite Z2Nat.id in Hr2, Hins by lia. rewrite Hlk1, Htid in Hr2. rewrite Htid in Hins.
  rewrite insert_delete_eq, (insert_id (lookup_id pq)) in Hr2 by done.
  replace (pq_size pq1 + 1)%Z with (pq_size pq) in Hr2 by (simpl; lia).
  eexists. split; [exact Hr2|]. split_and!; [done|done|done| | |].
  - rewrite Hins, Hq, Hptr. done.
  - intros t'. unfold id_of. destruct (decide (t' = task)) as [->|Hn].
    + by rewrite lookup_insert_eq, Ht.
    + by rewrite lookup_insert_ne.
  - rewrite dom_insert_L. apply elem_of_dom_2 in Ht. by apply subseteq_union_1_L, singleton_subseteq_l.
Qed.

Lemma empty_below h pq qls : reps h pq qls → above_empty 0 qls → queue_of qls = [].
Proof.
  intros H Habove. destruct (queue_of qls) as [|x q] eqn:E; [done|]. exfalso.
  assert (x ∈ queue_of qls) as (j & es & Hj & Hx)%elem_queue_of by (rewrite E; left).
  rewrite (Habove j es) in Hx; [by apply not_elem_of_nil in Hx|lia|done].
Qed.

Lemma above_all h pq qls : reps h pq qls → above_empty (S (maxPrio pq)) qls.
Proof.
  intros H j es Hj Hes. apply lookup_lt_Some in Hes. rewrite (r_len _ _ _ H) in Hes. lia.
Qed.

Lemma peekLoop_rep h pq qls i :
  reps h pq qls → i ≤ S (maxPrio pq) → above_empty i qls →
  peekLoop i pq = e_ptr <$> list.head (queue_of qls).
Proof.
  intros H. induction i as [|i IH]; intros Hi Habove; simpl.
  - by rewrite (empty_below _ _ _ H Habove).
  - destruct (level_exists _ _ _ i H) as [l Hl]; [lia|]. rewrite Hl.
    destruct (level_lookup _ _ _ _ _ H Hl) as (es & Hes & ->).
    destruct (top_level i qls es Habove Hes) as (lo & Hq & _ & Hempty).
    destruct es as [|x es]; simpl; [apply IH; [lia|by apply Hempty]|]. by rewrite Hq.
Qed.

Lemma peekBatchLoop_rep h i remaining acc pq qls :
  reps h pq qls → i ≤ S (maxPrio pq) →
  ∀ q, q = queue_of (take i qls) →
  peekBatchLoop i remaining acc pq = acc ++ (e_ptr <$> take remaining q).
Proof.
  intros H. revert remaining acc. induction i as [|i IH]; intros remaining acc Hi q ->; cbn [peekBatchLoop]; cbv zeta.
  - change (queue_of (take 0 qls)) with (@nil entry). by rewrite take_nil, app_nil_r.
  - destruct (remaining =? 0) eqn:Er.
    { apply Nat.eqb_eq in Er as ->. by rewrite app_nil_r. }
    destruct (level_exists _ _ _ i H) as [l Hl]; [lia|]. rewrite Hl.
    destruct (level_lookup _ _ _ _ _ H Hl) as (es & Hes & ->). rewrite length_fmap.
    assert (queue_of (take (S i) qls) = es ++ queue_of (take i qls)) as ->.
    { rewrite (take_S_r _ _ _ Hes). unfold queue_of. by rewrite reverse_snoc. }
    destruct (length es =? 0) eqn:Ec.
    { apply Nat.eqb_eq, nil_length_inv in Ec as ->. by apply IH; [lia|]. }
    destruct (remaining <? length es) eqn:E.
    + apply Nat.ltb_lt in E. rewrite Nat.sub_diag, take_app_le, <- fmap_take by lia.
      assert (∀ a, peekBatchLoop i 0 a pq = a) as H0 by (intros; by destruct i). by rewrite H0.
    + apply Nat.ltb_ge in E. rewrite (IH _ _ ltac:(lia) _ eq_refl), take_app_ge by lia.
      rewrite fmap_app, <- app_assoc. by rewrite take_ge by (rewrite length_fmap; lia).
Qed.

Lemma PeekBatch_rep h n pq qls :
  reps h pq qls → PeekBatch n pq = e_ptr <$> take (Z.to_nat n) (queue_of qls).
Proof.
  intros H. unfold PeekBatch. destruct (n <=? 0)%Z eqn:En.
  { apply Z.leb_le in En. by replace (Z.to_nat n) with 0 by lia. }
  apply (peekBatchLoop_rep h _ _ [] pq qls H); [lia|]. rewrite take_ge; [done|]. rewrite (r_len _ _ _ H). lia.
Qed.

Lemma queue_of_empties n : queue_of (replicate n []) = [].
Proof. unfold queue_of. rewrite reverse_replicate. by induction n. Qed.

Lemma empty_reps h pq n :
  n = S (maxPrio pq) → tasks <$> levels pq = replicate n [] → lookup_id pq = ∅ → pq_size pq = 0%Z →
  reps h pq (replicate n []).
Proof.
  intros Hn Hl Hk Hs. constructor; rewrite ?queue_of_empties, ?length_replicate; try done.
  - rewrite Hl. by rewrite fmap_replicate.
  - intros i es x [-> _]%lookup_replicate Hx. by apply not_elem_of_nil in Hx.
  - intros x Hx. by apply not_elem_of_nil in Hx.
  - constructor.
  - intros id t. rewrite Hk, lookup_empty. split; [done|]. by intros (x & Hx%not_elem_of_nil & _).
Qed.

(** ** Runs *)

Inductive pq_op :=
| OPush (task : task_ptr) (t : QueuedTask) | OPop | OPopBatch (n : Z) | OCancel (id : string)
| OUpdate (id : string) (p : Z) | OPeek | OPeekBatch (n : Z) | OGetTask (id : string) | OLen | OClear | OPushNil.

Inductive pq_out :=
| ORes (r : res task_error ()) | OTask (t : option task_ptr) | OTasks (l : list task_ptr)
| OBool (r : res task_error bool) | ONum (n : Z) | OUnit.

(** One call at time [now].  [Push] is given a task object that is not queued,
    whose fields the caller has set. *)
Definition pq_step (now : Z) (op : pq_op) (s : task_heap * PriorityQueue)
    : pq_out * (task_heap * PriorityQueue) :=
  let (h, pq) := s in
  match op with
  | OPush task t => let '(r, h', pq') := Push (Some task) (<[task := t]> h) pq in (ORes r, (h', pq'))
  | OPop => let (r, pq') := Pop now h pq in (OTask r, (h, pq'))
  | OPopBatch n => let (r, pq') := PopBatch now h n pq in (OTasks r, (h, pq'))
  | OCancel id => let (r, pq') := Cancel now h id pq in (OBool r, (h, pq'))
  | OUpdate id p => let '(r, h', pq') := UpdatePriority now h id p pq in (OBool r, (h', pq'))
  | OPeek => (OTask (Peek pq), s)
  | OPeekBatch n => (OTasks (PeekBatch n pq), s)
  | OGetTask id => (OTask (GetTask id pq), s)
  | OLen => (ONum (Len pq), s)
  | OClear => (OUnit, (h, Clear now pq))
  | OPushNil => let '(r, h', pq') := Push None h pq in (ORes r, (h', pq'))
  end.

Fixpoint pq_run (ops : list (Z * pq_op)) (s : task_heap * PriorityQueue)
    : list pq_out * (task_heap * PriorityQueue) :=
  match ops with
  | [] => ([], s)
  | (now, op) :: ops' =>
      let (o, s1) := pq_step now op s in let (os, s2) := pq_run ops' s1 in (o :: os, s2)
  end.

(** The same calls on the contract. *)
Definition prio_step (cap : Z) (maxp : Z) (op : pq_op) (q : list entry) : pq_out * list entry :=
  let clamp p := Z.min maxp (Z.max 0 p) in
  match op with
  | OPush task t =>
      if (cap <=? Z.of_nat (length q))%Z then (ORes (Err ErrQueueFull), q)
      else if bool_decide (ID t ∈ e_id <$> q) then (ORes (Err ErrDuplicateTask), q)
      else (ORes (Ok tt), insert (mkEntry task (ID t) (clamp (Priority t))) q)
  | OPop => (OTask (e_ptr <$> list.head q), tail q)
  | OPopBatch n => (OTasks (e_ptr <$> take (Z.to_nat n) q), drop (Z.to_nat n) q)
  | OCancel id => (OBool (Ok (is_some_b (find id q))), without id q)
  | OUpdate id p => (OBool (Ok (is_some_b (find id q))), reprioritise id (clamp p) q)
  | OPeek => (OTask (e_ptr <$> list.head q), q)
  | OPeekBatch n => (OTasks (e_ptr <$> take (Z.to_nat n) q), q)
  | OGetTask id => (OTask (e_ptr <$> find id q), q)
  | OLen => (ONum (Z.of_nat (length q)), q)
  | OClear => (OUnit, [])
  | OPushNil => (ORes (Err ErrInvalidTask), q)
  end.

Fixpoint prio_run (cap maxp : Z) (ops : list (Z * pq_op)) (q : list entry) : list pq_out * list entry :=
  match ops with
  | [] => ([], q)
  | (_, op) :: ops' =>
      let (o, q1) := prio_step cap maxp op q in let (os, q2) := prio_run cap maxp ops' q1 in (o :: os, q2)
  end.

(** No operation pushes a task object that is in the queue at that moment. *)
Fixpoint fresh_pushes (cap maxp : Z) (ops : list (Z * pq_op)) (q : list entry) : Prop :=
  match ops with
  | [] => True
  | (_, op) :: ops' =>
      match op with OPush task _ => task ∉ e_ptr <$> q | _ => True end ∧
      fresh_pushes cap maxp ops' (snd (prio_step cap maxp op q))
  end.

Lemma clamp_minmax pq p : clamp pq p = Z.min (Z.of_nat (maxPrio pq)) (Z.max 0 p).
Proof.
  unfold clamp. destruct (p <? 0)%Z eqn:E1; [apply Z.ltb_lt in E1|apply Z.ltb_ge in E1];
    (destruct (_ <? _)%Z eqn:E2; [apply Z.ltb_lt in E2|apply Z.ltb_ge in E2]); lia.
Qed.

Lemma heap_write_reps h pq qls task t :
  reps h pq qls → task ∉ e_ptr <$> queue_of qls → reps (<[task := t]> h) pq qls.
Proof.
  intros [H1 H2 H3 H4 H5 H6 H7] Hn. constructor; try done. intros x Hx.
  rewrite lookup_insert_ne; [by apply H4|]. intros ->. apply Hn. by apply list_elem_of_fmap_2.
Qed.

Lemma GetTask_rep h pq qls id : reps h pq qls → GetTask id pq = e_ptr <$> find id (queue_of qls).
Proof.
  intros H. unfold GetTask. destruct (lookup_id pq !! id) as [task|] eqn:E.
  - apply (r_lookup _ _ _ H) in E as (x & Hx & Hid & <-). by rewrite (find_in id _ x (r_ids _ _ _ H) Hx Hid).
  - rewrite find_none; [done|]. by eapply not_queued.
Qed.

Lemma pq_step_refines now op h pq qls :
  reps h pq qls → match op with OPush task _ => task ∉ e_ptr <$> queue_of qls | _ => True end →
  let '(o, (h', pq')) := pq_step now op (h, pq) in
  ∃ qls', reps h' pq' qls' ∧ capacity pq' = capacity pq ∧ maxPrio pq' = maxPrio pq ∧
    prio_step (capacity pq) (Z.of_nat (maxPrio pq)) op (queue_of qls) = (o, queue_of qls').
Proof.
  intros H Hfresh. destruct op as [task t| |n|id|id p| |n|id| | |]; cbn [pq_step prio_step].
  - pose proof (heap_write_reps _ _ _ _ t H Hfresh) as H1.
    pose proof (Push_rep _ _ _ task t H1 (lookup_insert_eq _ _ _)) as HP.
    destruct (Push _ _ _) as [[r h'] pq']. destruct HP as (qls' & Hr & Hc & Hm & Hcase).
    exists qls'. split_and!; try done. rewrite <- clamp_minmax.
    destruct (_ <=? _)%Z; [by destruct Hcase as (-> & -> & _)|].
    case_bool_decide; [by destruct Hcase as (-> & -> & _)|]. by destruct Hcase as (-> & _ & ->).
  - pose proof (Pop_rep now _ _ _ H) as HP. destruct (Pop _ _ _) as [r pq'].
    destruct HP as (qls' & Hr & Hc & Hm & -> & Hq). exists qls'. by rewrite Hq.
  - pose proof (PopBatch_rep now _ n _ _ H) as HP. destruct (PopBatch _ _ _ _) as [r pq'].
    destruct HP as (qls' & Hr & Hc & Hm & -> & Hq). exists qls'. by rewrite Hq.
  - pose proof (Cancel_rep now _ id _ _ H) as HP. destruct (Cancel _ _ _ _) as [r pq'].
    destruct HP as (qls' & Hr & Hc & Hm & -> & Hq). exists qls'. by rewrite Hq.
  - pose proof (UpdatePriority_rep now _ id p _ _ H) as HP. destruct (UpdatePriority _ _ _ _ _) as [[r h'] pq'].
    destruct HP as (qls' & Hr & Hc & Hm & -> & Hq & _). exists qls'. by rewrite Hq, clamp_minmax.
  - exists qls. unfold Peek. by rewrite (peekLoop_rep _ _ _ _ H (le_n _) (above_all _ _ _ H)).
  - exists qls. by rewrite (PeekBatch_rep _ _ _ _ H).
  - exists qls. by rewrite (GetTask_rep _ _ _ _ H).
  - exists qls. unfold Len. by rewrite (r_size _ _ _ H).
  - exists (replicate (S (maxPrio pq)) []). rewrite queue_of_empties. split_and!; try done.
    apply empty_reps; try done. cbn [Clear set_levels levels]. rewrite <- list_fmap_compose.
    pose proof (f_equal length (r_levels _ _ _ H)) as Hlen. rewrite !length_fmap, (r_len _ _ _ H) in Hlen.
    rewrite <- Hlen. clear. induction (levels pq); [done|]. simpl. by f_equal.
  - by exists qls.
Qed.

Lemma pq_run_refines ops h pq qls :
  reps h pq qls → fresh_pushes (capacity pq) (Z.of_nat (maxPrio pq)) ops (queue_of qls) →
  let '(os, (h', pq')) := pq_run ops (h, pq) in
  ∃ qls', reps h' pq' qls' ∧
    prio_run (capacity pq) (Z.of_nat (maxPrio pq)) ops (queue_of qls) = (os, queue_of qls').
Proof.
  revert h pq qls. induction ops as [|[now op] ops IH]; intros h pq qls H Hf; cbn [pq_run prio_run]; [by exists qls|].
  destruct Hf as [Hop Hf]. pose proof (pq_step_refines now op h pq qls H Hop) as Hstep.
  destruct (pq_step now op (h, pq)) as [o [h1 pq1]]. destruct Hstep as (qls1 & H1 & Hc & Hm & Hs).
  rewrite Hs in Hf |- *. rewrite <- Hc, <- Hm in Hf |- *. specialize (IH h1 pq1 qls1 H1 Hf).
  destruct (pq_run ops (h1, pq1)) as [os [h2 pq2]]. destruct IH as (qls2 & H2 & ->). by exists qls2.
Qed.

(** ** Properties *)

(** C3: The priority queue implements its contract.  In every sequence of calls
    on a new queue, whatever the clock readings, each call returns what the same
    call returns on one list kept highest priority first and first-in-first-out
    within a priority: [Push] clamps the priority, refuses when the queue is full,
    refuses an ID that is queued and refuses a nil task; [Pop], [PopBatch], [Peek] and [PeekBatch]
    take or show the front; [Cancel] removes exactly that ID; [UpdatePriority]
    moves the task behind its new peers; no task is lost or duplicated and no
    call panics. *)
Theorem priority_queue_refines (now cap maxPriority : Z) (h : task_heap) (ops : list (Z * pq_op)) :
  let maxp := Z.max 1 maxPriority in
  fresh_pushes cap maxp ops [] →
  let '(os, (h', pq')) := pq_run ops (h, NewPriorityQueue now cap maxPriority) in
  let (os', q') := prio_run cap maxp ops [] in
  os = os' ∧ ∃ qls, reps h' pq' qls ∧ queue_of qls = q'.
Proof.
  intros maxp Hf. set (pq := NewPriorityQueue now cap maxPriority).
  assert (Z.of_nat (maxPrio pq) = maxp) as Hm.
  { unfold pq, NewPriorityQueue. cbn [maxPrio]. unfold maxp.
    destruct (_ <? 1)%Z eqn:E; [apply Z.ltb_lt in E|apply Z.ltb_ge in E]; lia. }
  assert (reps h pq (replicate (S (maxPrio pq)) [])) as H.
  { apply empty_reps; try done. unfold pq, NewPriorityQueue. cbn [levels maxPrio]. by rewrite fmap_replicate. }
  pose proof (pq_run_refines ops h pq _ H) as Hrun. rewrite queue_of_empties, Hm in Hrun.
  change (capacity pq) with cap in Hrun.
  specialize (Hrun Hf). destruct (pq_run ops (h, pq)) as [os [h' pq']].
  destruct Hrun as (qls' & Hr & ->). split; [done|]. by exists qls'.
Qed.

Lemma priority_queue_refines_witness :
  let t id p := new_task id p None in
  let ops := [(1, OPush 1 (t "a" 2)); (2, OPush 2 (t "b" 9)); (3, OPush 3 (t "c" 2)); (4, OPush 4 (t "a" 1));
              (5, OUpdate "a" (-7)); (6, OPeekBatch 3); (7, OCancel "c"); (8, OPop); (9, OPop); (10, OPop)]%Z%string in
  let '(os, _) := pq_run ops (∅, NewPriorityQueue 0 3 5) in
  os = [ORes (Ok tt); ORes (Ok tt); ORes (Ok tt); ORes (Err ErrQueueFull); OBool (Ok true);
        OTasks [2; 3; 1]; OBool (Ok true); OTask (Some 2); OTask (Some 1); OTask None] ∧
  os = fst (prio_run 3 5 ops []).
Proof.
  intros t ops. pose proof (priority_queue_refines 0 3 5 ∅ ops) as H. cbv zeta in H.
  assert (fresh_pushes 3 (5 `max` 1) ops []) as Hf.
  { assert ((2 ∉ [1]) ∧ (3 ∉ [2; 1]) ∧ (4 ∉ [2; 1; 3])) as (H2 & H3 & H4).
    { split; [|split]; intros Hx; apply list_elem_of_In in Hx; simpl in Hx; lia. }
    repeat split; try exact I; try apply not_elem_of_nil; assumption. }
  specialize (H Hf). destruct (pq_run ops (∅, NewPriorityQueue 0 3 5)) as [os [h' pq']] eqn:E.
  destruct (prio_run 3 (1 `max` 5) ops []) as [os' q'] eqn:E'. destruct H as [-> _].
  split; [vm_compute in E'; injection E' as <- _; reflexivity|].
  change (1 `max` 5)%Z with 5%Z in E'. rewrite E'. reflexivity.
Defined.
