(* ===== verification/BinHeap.v ===== *)
(** * Binary heaps in a slice

    The sift operations of Go's [container/heap] as the timer queue uses them
    (src/messaging/queue/timer.go, [timerHeap] with [Less], [Swap], [Push] and
    [Pop]): a list of pointers ordered by a key, kept in the shape of an implicit
    binary tree. *)

From stdpp Require Import base tactics option list numbers.
From Stdlib Require Import ZArith Lia.
From S2P Require Import Prelude.

Section BinHeap.
Context (key : nat → Z).

(** [h.Less(i, j)] and [h.Swap(i, j)] with indices in range. *)
Definition Less (l : list nat) (i j : nat) : bool := (key (l !!! i) <? key (l !!! j))%Z.
Definition Swap (l : list nat) (i j : nat) : list nat := <[i := l !!! j]> (<[j := l !!! i]> l).

Definition parent (j : nat) : nat := (j - 1) / 2.

(** [heap.up] *)
Fixpoint up (fuel : nat) (l : list nat) (j : nat) : list nat :=
  match fuel with
  | O => l
  | S fuel =>
      let i := parent j in
      if (i =? j) || negb (Less l j i) then l else up fuel (Swap l i j) i
  end.

(** [heap.down]: the slice and the index where the element ended. *)
Fixpoint down (fuel : nat) (l : list nat) (i n : nat) : list nat * nat :=
  match fuel with
  | O => (l, i)
  | S fuel =>
      let j1 := 2 * i + 1 in
      if n <=? j1 then (l, i)
      else
        let j2 := j1 + 1 in
        let j := if (j2 <? n) && Less l j2 j1 then j2 else j1 in
        if negb (Less l j i) then (l, i) else down fuel (Swap l i j) j n
  end.

Definition heap_Push (l : list nat) (x : nat) : list nat :=
  let l1 := l ++ [x] in up (length l1) l1 (length l1 - 1).

(** [heap.Pop]: swap the ends, sift down, cut the last. *)
Definition heap_Pop (l : list nat) : nat * list nat :=
  let n := length l - 1 in
  let l1 := fst (down (length l) (Swap l 0 n) 0 n) in
  (l1 !!! n, take n l1).

(** [heap.Remove] *)
Definition heap_Remove (l : list nat) (i : nat) : nat * list nat :=
  let n := length l - 1 in
  let l1 :=
    if n =? i then l
    else
      let l0 := Swap l i n in
      let (l2, i2) := down (length l) l0 i n in
      if i <? i2 then l2 else up (length l) l2 i in
  (l1 !!! n, take n l1).

(** ** The heap order *)

Definition ok (l : list nat) (k : nat) : Prop := (key (l !!! parent k) ≤ key (l !!! k))%Z.
Definition heap_to (l : list nat) (n : nat) : Prop := ∀ k, 0 < k → k < n → ok l k.
Definition is_heap (l : list nat) : Prop := heap_to l (length l).

Lemma parent_lt k : 0 < k → parent k < k.
Proof. intros. unfold parent. apply Nat.Div0.div_lt_upper_bound. lia. Qed.

Lemma parent_children k i : 0 < k → parent k = i ↔ k = 2 * i + 1 ∨ k = 2 * i + 2.
Proof.
  intros Hk. unfold parent. pose proof (Nat.div_mod_eq (k - 1) 2).
  pose proof (Nat.mod_upper_bound (k - 1) 2 ltac:(lia)). lia.
Qed.

Lemma Swap_lookup l i j k :
  i < length l → j < length l →
  Swap l i j !!! k = if decide (k = i) then l !!! j else if decide (k = j) then l !!! i else l !!! k.
Proof.
  intros Hi Hj. unfold Swap. destruct (decide (k = i)) as [->|Hki].
  - apply list_lookup_total_insert_eq. by rewrite length_insert.
  - rewrite list_lookup_total_insert_ne by done. destruct (decide (k = j)) as [->|Hkj].
    + by apply list_lookup_total_insert_eq.
    + by apply list_lookup_total_insert_ne.
Qed.

Lemma Swap_length l i j : length (Swap l i j) = length l.
Proof. unfold Swap. by rewrite !length_insert. Qed.

Lemma Swap_Permutation l i j : i < length l → j < length l → Permutation (Swap l i j) l.
Proof.
  intros Hi Hj. unfold Swap. apply Permutation_insert_swap; by apply list_lookup_lookup_total_lt.
Qed.

Lemma parent_half k : 0 < k → 2 * parent k + 1 ≤ k ≤ 2 * parent k + 2.
Proof. intros Hk. pose proof (proj1 (parent_children k (parent k) Hk) eq_refl). lia. Qed.

Lemma Less_spec l i j : Less l i j = true ↔ (key (l !!! i) < key (l !!! j))%Z.
Proof. apply Z.ltb_lt. Qed.

Lemma Less_false l i j : Less l i j = false ↔ (key (l !!! j) ≤ key (l !!! i))%Z.
Proof. apply Z.ltb_ge. Qed.

(** What every sift preserves: the elements, and the slice from [n] on. *)
Definition same_from (n : nat) (l l' : list nat) : Prop :=
  length l' = length l ∧ Permutation l' l ∧ ∀ k, n ≤ k → l' !!! k = l !!! k.

Lemma same_refl n l : same_from n l l.
Proof. done. Qed.

Lemma same_swap n l l' i j :
  i < n → j < n → n ≤ length l → same_from n (Swap l i j) l' → same_from n l l'.
Proof.
  intros Hi Hj Hn (H1 & H2 & H3). split_and!.
  - by rewrite H1, Swap_length.
  - rewrite H2. apply Swap_Permutation; lia.
  - intros k Hk. rewrite H3, Swap_lookup by lia. by rewrite !decide_False by lia.
Qed.

Ltac swap_at := rewrite ?Swap_lookup by lia; repeat case_decide; subst; try lia.

Lemma up_correct fuel l j n :
  j < n → n ≤ length l → j < fuel →
  (∀ k, 0 < k → k < n → k ≠ j → ok l k) →
  (∀ c, 0 < c → c < n → parent c = j → 0 < j → (key (l !!! parent j) ≤ key (l !!! c))%Z) →
  heap_to (up fuel l j) n ∧ same_from n l (up fuel l j).
Proof.
  revert l j. induction fuel as [|fuel IH]; intros l j Hj Hn Hf Hok Hc; [lia|]. simpl.
  destruct (decide (j = 0)) as [->|Hj0].
  { simpl. split; [|apply same_refl]. intros k Hk Hkn. apply Hok; lia. }
  assert (parent j < j) as Hp by (apply parent_lt; lia).
  rewrite (proj2 (Nat.eqb_neq _ _)) by lia. destruct (Less l j (parent j)) eqn:E; simpl.
  - apply Less_spec in E.
    destruct (IH (Swap l (parent j) j) (parent j)) as [Hh Hs]; try lia.
    + by rewrite Swap_length.
    + intros k Hk Hkn Hkp. unfold ok. pose proof (parent_lt k Hk).
      destruct (decide (k = j)) as [->|Hkj]; [swap_at|].
      pose proof (Hok k Hk Hkn Hkj) as Hokk. unfold ok in Hokk.
      destruct (decide (parent k = j)) as [Hpk|Hpk]; [pose proof (Hc k Hk Hkn Hpk ltac:(lia)); rewrite Hpk|].
      * swap_at.
      * destruct (decide (parent k = parent j)) as [Hpp|Hpp]; [rewrite Hpp in Hokk |- *|]; swap_at.
    + intros c Hc0 Hcn Hpc Hi. pose proof (Hok (parent j) Hi ltac:(lia) ltac:(lia)) as Hokp. unfold ok in Hokp.
      pose proof (parent_lt (parent j) Hi).
      destruct (decide (c = j)) as [->|Hcj]; [swap_at|].
      pose proof (Hok c Hc0 Hcn Hcj) as Hokc. unfold ok in Hokc. rewrite Hpc in Hokc.
      pose proof (parent_lt c Hc0). swap_at.
    + split; [exact Hh|]. eapply same_swap; [..|exact Hs]; lia.
  - apply Less_false in E. split; [|apply same_refl]. intros k Hk Hkn.
    destruct (decide (k = j)) as [->|]; [exact E|by apply Hok].
Qed.

(** The child [down] compares with. *)
Definition small_child (l : list nat) (i n : nat) : nat :=
  if (2 * i + 1 + 1 <? n) && Less l (2 * i + 1 + 1) (2 * i + 1) then 2 * i + 1 + 1 else 2 * i + 1.

Lemma small_child_spec l i n :
  2 * i + 1 < n →
  small_child l i n < n ∧ 0 < small_child l i n ∧ parent (small_child l i n) = i ∧ i < small_child l i n ∧
  ∀ c, 0 < c → c < n → parent c = i → (key (l !!! small_child l i n) ≤ key (l !!! c))%Z.
Proof.
  intros Hn. unfold small_child.
  destruct (_ && _) eqn:E.
  - apply andb_true_iff in E as [E1 E2]. apply Nat.ltb_lt in E1. apply Less_spec in E2.
    split_and!; try lia; [apply parent_children; lia|].
    intros c Hc Hcn Hp. apply parent_children in Hp as [->| ->]; [lia| |lia].
    by replace (2 * i + 2) with (2 * i + 1 + 1) by lia.
  - split_and!; try lia; [apply parent_children; lia|].
    intros c Hc Hcn Hp. apply parent_children in Hp as [->| ->]; [lia| |lia].
    apply andb_false_iff in E as [E|E]; [apply Nat.ltb_ge in E; lia|]. apply Less_false in E.
    by replace (2 * i + 2) with (2 * i + 1 + 1) by lia.
Qed.

Lemma down_step fuel l i n :
  down (S fuel) l i n =
  if n <=? 2 * i + 1 then (l, i)
  else if negb (Less l (small_child l i n) i) then (l, i)
  else down fuel (Swap l i (small_child l i n)) (small_child l i n) n.
Proof. reflexivity. Qed.

(** After one swap downwards the order can fail below the child only. *)
Lemma swap_down l i n :
  2 * i + 1 < n → n ≤ length l →
  let j := small_child l i n in
  (key (l !!! j) < key (l !!! i))%Z →
  (∀ k, 0 < k → k < n → k ≠ i → parent k ≠ i → ok l k) →
  (∀ c, 0 < c → c < n → parent c = i → 0 < i → (key (l !!! parent i) ≤ key (l !!! c))%Z) →
  (∀ k, 0 < k → k < n → parent k ≠ j → ok (Swap l i j) k) ∧
  (∀ c, 0 < c → c < n → parent c = j → 0 < j →
     (key (Swap l i j !!! parent j) ≤ key (Swap l i j !!! c))%Z).
Proof.
  intros Hi Hn j Hlt Hok Hc. destruct (small_child_spec l i n Hi) as (Hjn & Hj0 & Hpj & Hij & Hmin).
  fold j in Hjn, Hj0, Hpj, Hij, Hmin. clearbody j. split.
  - intros k Hk Hkn Hpk. unfold ok. pose proof (parent_lt k Hk).
    destruct (decide (k = j)) as [Hkj|Hkj]; [rewrite Hkj, Hpj; swap_at|].
    destruct (decide (k = i)) as [->|Hki].
    + pose proof (Hc j Hj0 Hjn Hpj Hk). swap_at.
    + destruct (decide (parent k = i)) as [Hpi|Hpi].
      * pose proof (Hmin k Hk Hkn Hpi). rewrite Hpi. swap_at.
      * pose proof (Hok k Hk Hkn Hki Hpi) as Hokk. unfold ok in Hokk. swap_at.
  - intros c Hc0 Hcn Hpc _. rewrite Hpj. pose proof (parent_lt c Hc0).
    pose proof (Hok c Hc0 Hcn ltac:(lia) ltac:(lia)) as Hokc. unfold ok in Hokc. rewrite Hpc in Hokc.
    swap_at.
Qed.

Lemma down_correct fuel l i n :
  n ≤ length l → n - i < fuel →
  (∀ k, 0 < k → k < n → parent k ≠ i → ok l k) →
  (∀ c, 0 < c → c < n → parent c = i → 0 < i → (key (l !!! parent i) ≤ key (l !!! c))%Z) →
  heap_to (fst (down fuel l i n)) n ∧ same_from n l (fst (down fuel l i n)) ∧ i ≤ snd (down fuel l i n).
Proof.
  revert l i. induction fuel as [|fuel IH]; intros l i Hn Hf Hok Hc; [lia|]. rewrite down_step.
  destruct (n <=? 2 * i + 1) eqn:E.
  { apply Nat.leb_le in E. simpl. split_and!; [|apply same_refl|done]. intros k Hk Hkn. apply Hok; try done.
    intros Hp. apply parent_children in Hp; lia. }
  apply Nat.leb_gt in E. destruct (small_child_spec l i n E) as (Hjn & Hj0 & Hpj & Hij & Hmin).
  set (j := small_child l i n) in *. destruct (Less l j i) eqn:EL; simpl.
  - apply Less_spec in EL. destruct (swap_down l i n E Hn EL) as [H1 H2].
    { intros k Hk Hkn _. by apply Hok. } { exact Hc. }
    destruct (IH (Swap l i j) j) as (Hh & Hs & Hle); [by rewrite Swap_length|lia|exact H1|exact H2|].
    split_and!; [exact Hh| |fold j in Hle |- *; lia]. eapply same_swap; [..|exact Hs]; lia.
  - apply Less_false in EL. split_and!; [|apply same_refl|done]. intros k Hk Hkn.
    destruct (decide (parent k = i)) as [Hp|Hp]; [|by apply Hok].
    unfold ok. rewrite Hp. pose proof (Hmin k Hk Hkn Hp). fold j in H. lia.
Qed.

(** ** The heap operations *)

Lemma is_heap_min l k : is_heap l → k < length l → (key (l !!! 0%nat) ≤ key (l !!! k))%Z.
Proof.
  intros Hh. induction k as [k IH] using lt_wf_ind. intros Hk.
  destruct (decide (k = 0)) as [->|Hk0]; [done|]. pose proof (parent_lt k ltac:(lia)).
  pose proof (Hh k ltac:(lia) Hk) as Hok. unfold ok in Hok. specialize (IH (parent k) H ltac:(lia)). lia.
Qed.

Lemma take_heap l l' n : is_heap l → length l' = n → (∀ k, k < n → l' !!! k = l !!! k) → n ≤ length l → is_heap l'.
Proof.
  intros Hh Hlen Heq Hn k Hk Hkn. unfold ok. pose proof (parent_lt k Hk). rewrite !Heq by lia. apply Hh; lia.
Qed.

Lemma heap_to_take l n : heap_to l n → n ≤ length l → is_heap (take n l).
Proof.
  intros Hh Hn k Hk Hkn. rewrite length_take_le in Hkn by done. unfold ok. pose proof (parent_lt k Hk).
  rewrite !list_lookup_total_alt, !lookup_take_lt, <- !list_lookup_total_alt by lia. by apply Hh.
Qed.

Lemma heap_Push_correct l x : is_heap l → is_heap (heap_Push l x) ∧ Permutation (heap_Push l x) (x :: l).
Proof.
  intros Hh. unfold heap_Push. rewrite length_app. simpl. replace (length l + 1 - 1) with (length l) by lia.
  destruct (up_correct (length l + 1) (l ++ [x]) (length l) (length l + 1)) as [H1 (H2 & H3 & _)];
    rewrite ?length_app; simpl; try lia.
  - intros k Hk Hkn Hne. unfold ok. pose proof (parent_lt k Hk).
    rewrite !list_lookup_total_alt, !lookup_app_l, <- !list_lookup_total_alt by lia. apply Hh; lia.
  - intros c Hc Hcn Hp _. pose proof (parent_lt c Hc). lia.
  - split; [|by rewrite H3, Permutation_app_comm]. unfold is_heap. rewrite H2, length_app. exact H1.
Qed.

Lemma split_last (l : list nat) : l ≠ [] → Permutation l (l !!! (length l - 1) :: take (length l - 1) l).
Proof.
  intros Hne. assert (0 < length l) by (destruct l; simpl in *; [done|lia]).
  rewrite <- (take_drop (length l - 1) l) at 1. rewrite Permutation_app_comm.
  assert (∃ y, l !! (length l - 1) = Some y) as [y Hy] by (apply lookup_lt_is_Some_2; lia).
  rewrite (drop_S _ _ _ Hy), drop_ge by lia. by rewrite (list_lookup_total_correct _ _ _ Hy).
Qed.

(** [heap.Pop] takes a smallest element and leaves a heap of the others. *)
Lemma heap_Pop_correct l :
  l ≠ [] → is_heap l →
  let (x, l') := heap_Pop l in
  x = l !!! 0 ∧ is_heap l' ∧ Permutation l (x :: l') ∧ ∀ y, y ∈ l → (key x ≤ key y)%Z.
Proof.
  intros Hne Hh. unfold heap_Pop. set (n := length l - 1).
  assert (0 < length l) as Hlen by (destruct l; simpl in *; [done|lia]).
  set (l0 := Swap l 0 n).
  assert (length l0 = length l) as Hl0 by apply Swap_length.
  destruct (down_correct (length l) l0 0 n) as (H1 & (H2 & H3 & H4) & _); try lia.
  { intros k Hk Hkn Hp. unfold ok. pose proof (parent_lt k Hk).
    assert (parent k ≠ 0) by done. unfold l0. rewrite !Swap_lookup by lia.
    rewrite !decide_False by lia. apply Hh; lia. }
  set (l1 := fst (down (length l) l0 0 n)) in *.
  assert (l1 !!! n = l !!! 0) as Hx.
  { rewrite H4 by lia. unfold l0. rewrite Swap_lookup by lia.
    case_decide as Hd; [by rewrite Hd|]. by rewrite decide_True. }
  split_and!.
  - exact Hx.
  - apply heap_to_take; [exact H1|lia].
  - assert (length l1 - 1 = n) as Hn1 by lia. rewrite <- Hn1 at 1 2. rewrite <- split_last.
    + rewrite H3. symmetry. apply Swap_Permutation; lia.
    + intros Hnil. rewrite Hnil in H2. simpl in H2. lia.
  - intros y [k Hk]%list_elem_of_lookup. rewrite Hx, <- (list_lookup_total_correct _ _ _ Hk).
    apply is_heap_min; [done|]. by eapply lookup_lt_Some.
Qed.

(** [heap.Remove(i)] takes the element at [i] and leaves a heap of the others. *)
Lemma heap_Remove_correct l i :
  i < length l → is_heap l →
  let (x, l') := heap_Remove l i in x = l !!! i ∧ is_heap l' ∧ Permutation l (x :: l').
Proof.
  intros Hi Hh. unfold heap_Remove. set (n := length l - 1).
  assert (∀ l1, same_from n (Swap l i n) l1 → heap_to l1 n →
    l1 !!! n = l !!! i ∧ is_heap (take n l1) ∧ Permutation l (l1 !!! n :: take n l1)) as Hfin.
  { intros l1 (H2 & H3 & H4) H1. rewrite Swap_length in H2. assert (length l1 - 1 = n) as Hn1 by lia. split_and!.
    - rewrite H4, Swap_lookup by lia. case_decide as Hd; [by rewrite Hd|]. by rewrite decide_True.
    - apply heap_to_take; [done|lia].
    - rewrite <- Hn1 at 1 2. rewrite <- split_last; [rewrite H3; symmetry; apply Swap_Permutation; lia|].
      intros Hnil. rewrite Hnil in H2. simpl in H2. lia. }
  destruct (n =? i) eqn:E.
  { apply Nat.eqb_eq in E. subst i. apply Hfin.
    - unfold Swap. rewrite list_insert_insert_eq, list_insert_id; [done|]. by apply list_lookup_lookup_total_lt.
    - intros k Hk Hkn. apply Hh; lia. }
  apply Nat.eqb_neq in E. set (l0 := Swap l i n).
  assert (length l0 = length l) as Hl0 by apply Swap_length.
  assert (∀ k, k < n → k ≠ i → l0 !!! k = l !!! k) as Hsame.
  { intros k Hk Hki. unfold l0. rewrite Swap_lookup by lia. by rewrite !decide_False by lia. }
  assert (∀ k, 0 < k → k < n → k ≠ i → parent k ≠ i → ok l0 k) as Hok.
  { intros k Hk Hkn Hki Hp. unfold ok. pose proof (parent_lt k Hk). rewrite !Hsame by lia. apply Hh; lia. }
  assert (∀ c, 0 < c → c < n → parent c = i → 0 < i → (key (l0 !!! parent i) ≤ key (l0 !!! c))%Z) as Hc.
  { intros c Hc Hcn Hp Hi0. pose proof (parent_lt c Hc). pose proof (parent_lt i Hi0). rewrite !Hsame by lia.
    pose proof (Hh c Hc ltac:(lia)) as H1. pose proof (Hh i Hi0 ltac:(lia)) as H2. unfold ok in *.
    rewrite Hp in H1. lia. }
  destruct (length l) as [|m] eqn:Hm; [lia|]. rewrite down_step.
  assert (∀ l', (n <= 2 * i + 1 ∨ (key (l0 !!! i) ≤ key (l0 !!! small_child l0 i n))%Z) →
    l' = up (S m) l0 i →
    l' !!! n = l !!! i ∧ is_heap (take n l') ∧ Permutation l (l' !!! n :: take n l')) as Hup.
  { intros l' Hcase ->. destruct (up_correct (S m) l0 i n) as [H1 H2]; try lia; [|exact Hc|by apply Hfin].
    intros k Hk Hkn Hki. destruct (decide (parent k = i)) as [Hp|Hp]; [|by apply Hok].
    destruct Hcase as [Hle|Hle]; [apply parent_children in Hp; lia|].
    destruct (decide (2 * i + 1 < n)) as [Hlt|Hge]; [|apply parent_children in Hp; lia].
    destruct (small_child_spec l0 i n Hlt) as (_ & _ & _ & _ & Hmin).
    unfold ok. rewrite Hp. pose proof (Hmin k Hk Hkn Hp). lia. }
  destruct (n <=? 2 * i + 1) eqn:E1.
  { rewrite Nat.ltb_irrefl. apply Nat.leb_le in E1. apply Hup; [by left|done]. }
  apply Nat.leb_gt in E1. destruct (Less l0 (small_child l0 i n) i) eqn:E2; simpl.
  2:{ rewrite Nat.ltb_irrefl. apply Less_false in E2. apply Hup; [by right|done]. }
  apply Less_spec in E2. destruct (swap_down l0 i n E1 ltac:(lia) E2 Hok Hc) as [H1 H2].
  destruct (small_child_spec l0 i n E1) as (Hjn & Hj0 & Hpj & Hij & _).
  destruct (down_correct m (Swap l0 i (small_child l0 i n)) (small_child l0 i n) n) as (Hh' & Hs & Hle);
    [rewrite Swap_length; lia|lia|exact H1|exact H2|].
  destruct (down m _ _ n) as [l2 i2]. simpl in *. rewrite (proj2 (Nat.ltb_lt _ _)) by lia.
  apply Hfin; [|exact Hh']. eapply (same_swap n l0); [..|exact Hs]; lia.
Qed.

End BinHeap.
