(* ===== verification/TimerQueue.v ===== *)
(** * The timer queue

    Models src/messaging/queue/timer.go: a min-heap of task pointers ordered by
    [TriggerAt], with a map from task IDs and the metrics.  The heap operations
    and their correctness are in BinHeap. *)

From stdpp Require Import base tactics option list gmap strings numbers sorting.
From Stdlib Require Import ZArith Lia.
From S2P Require Import Prelude Tasks BinHeap.
Open Scope go_scope.

Record TimerMetrics := mkTM { EnqueueCount : Z; DequeueCount : Z; CancelCount : Z; TimeoutCount : Z; OverdueCount : Z }.

Record TimerQueue := mkTQ {
  items : list task_ptr; capacity : Z; lookup_id : gmap string task_ptr; metrics : TimerMetrics }.

Definition NewTimerQueue (capacity : Z) : TimerQueue :=
  mkTQ [] (if (capacity <=? 0)%Z then 1000%Z else capacity) ∅ (mkTM 0 0 0 0 0).

(** [task.TriggerAt] of a queued task; [Push] accepts no task without one. *)
Definition trigger (h : task_heap) (t : task_ptr) : Z :=
  match h !! t with Some t => default 0%Z (TriggerAt t) | None => 0%Z end.

Definition id_of (h : task_heap) (t : task_ptr) : string :=
  match h !! t with Some t => ID t | None => EmptyString end.

Definition Push (now : Z) (task : option task_ptr) (h : task_heap) (tq : TimerQueue)
    : res task_error () * task_heap * TimerQueue :=
  match task with
  | None => (Err ErrInvalidTask, h, tq)
  | Some p =>
      match h !! p with
      | None => (Panic, h, tq)
      | Some t =>
          if String.eqb (ID t) EmptyString then (Err ErrInvalidTask, h, tq)
          else
            match TriggerAt t with
            | None => (Err ErrInvalidTask, h, tq)
            | Some at_ =>
                if (capacity tq <=? Z.of_nat (length (items tq)))%Z then (Err ErrQueueFull, h, tq)
                else if is_some_b (lookup_id tq !! ID t) then (Err ErrTaskExists, h, tq)
                else
                  let h1 := <[p := set_Status TaskStatusPending t]> h in
                  let m := metrics tq in
                  (Ok tt, h1,
                   mkTQ (heap_Push (trigger h1) (items tq) p) (capacity tq) (<[ID t := p]> (lookup_id tq))
                     (mkTM (EnqueueCount m + 1) (DequeueCount m) (CancelCount m) (TimeoutCount m)
                        (OverdueCount m + if (at_ <? now)%Z then 1 else 0)))
            end
      end
  end.

Definition count_dequeue (m : TimerMetrics) : TimerMetrics :=
  mkTM (EnqueueCount m) (DequeueCount m + 1) (CancelCount m) (TimeoutCount m) (OverdueCount m).

(** [heap.Pop] and the removal from [lookup]. *)
Definition take_first (h : task_heap) (tq : TimerQueue) : task_ptr * TimerQueue :=
  let (task, rest) := heap_Pop (trigger h) (items tq) in
  (task, mkTQ rest (capacity tq) (delete (id_of h task) (lookup_id tq)) (count_dequeue (metrics tq))).

Definition Pop (h : task_heap) (tq : TimerQueue) : option task_ptr * TimerQueue :=
  match items tq with
  | [] => (None, tq)
  | _ => let (task, tq1) := take_first h tq in (Some task, tq1)
  end.

(** [for i, t := range *tq.items { if t.ID == taskID { ... } }] *)
Fixpoint index_of (h : task_heap) (taskID : string) (ts : list task_ptr) : option nat :=
  match ts with
  | [] => None
  | t :: ts' => if String.eqb (id_of h t) taskID then Some 0 else S <$> index_of h taskID ts'
  end.

Definition Cancel (taskID : string) (h : task_heap) (tq : TimerQueue) : bool * task_heap * TimerQueue :=
  match lookup_id tq !! taskID with
  | None => (false, h, tq)
  | Some task =>
      match index_of h taskID (items tq) with
      | None => (false, h, tq)
      | Some i =>
          let (_, rest) := heap_Remove (trigger h) (items tq) i in
          let m := metrics tq in
          (true, alter (set_Status TaskStatusCanceled) task h,
           mkTQ rest (capacity tq) (delete taskID (lookup_id tq))
             (mkTM (EnqueueCount m) (DequeueCount m) (CancelCount m + 1) (TimeoutCount m) (OverdueCount m)))
      end
  end.

(** The [for] loop of [DueTasks]. *)
Fixpoint dueLoop (fuel : nat) (now : Z) (h : task_heap) (acc : list task_ptr) (tq : TimerQueue)
    : res task_error (list task_ptr * TimerQueue) :=
  match fuel with
  | O => NoFuel
  | S fuel =>
      match items tq with
      | first :: _ =>
          if (trigger h first <? now)%Z then
            let (task, tq1) := take_first h tq in dueLoop fuel now h (acc ++ [task]) tq1
          else Ok (acc, tq)
      | [] => Ok (acc, tq)
      end
  end.

Definition DueTasks (now : Z) (h : task_heap) (tq : TimerQueue) : res task_error (list task_ptr * TimerQueue) :=
  dueLoop (S (length (items tq))) now h [] tq.

Definition GetTask (taskID : string) (tq : TimerQueue) : option task_ptr := lookup_id tq !! taskID.

Definition Peek (tq : TimerQueue) : option task_ptr := list.head (items tq).

(** A duration in nanoseconds; -1 when the queue is empty.  [time.Time.Sub]
    saturates. *)
Definition NextDue (now : Z) (h : task_heap) (tq : TimerQueue) : Z :=
  match items tq with
  | [] => -1
  | first :: _ =>
      let next := trigger h first in
      if (next <? now)%Z then 0%Z else Z.min max_int64 (next - now)
  end.

Definition Clear (tq : TimerQueue) : TimerQueue := mkTQ [] (capacity tq) ∅ (metrics tq).

Definition Len (tq : TimerQueue) : nat := length (items tq).

(** ** The invariant *)

(** The queued tasks are [ts] (as a set, each once): the slice is a heap of
    exactly them, they have distinct non-empty IDs and a trigger time, and the map
    has exactly their IDs. *)
Record queued (h : task_heap) (tq : TimerQueue) (ts : list task_ptr) : Prop := {
  q_items : Permutation (items tq) ts;
  q_heap : is_heap (trigger h) (items tq);
  q_task : ∀ p, p ∈ ts → ∃ t, h !! p = Some t ∧ ID t ≠ EmptyString ∧ TriggerAt t ≠ None;
  q_ids : NoDup (id_of h <$> ts);
  q_lookup : ∀ id p, lookup_id tq !! id = Some p ↔ p ∈ ts ∧ id_of h p = id;
  q_capacity : (Z.of_nat (length ts) ≤ capacity tq)%Z }.

Lemma is_heap_ext key key' l :
  (∀ x, x ∈ l → key x = key' x) → is_heap key l → is_heap key' l.
Proof.
  intros Heq Hh k Hk Hkn. unfold ok. pose proof (parent_lt k Hk).
  rewrite <- !Heq by (apply list_elem_of_lookup_total_2; lia). by apply Hh.
Qed.

(** Writing a queued task's status changes no trigger time and no ID. *)
Lemma trigger_status h p s q : trigger (alter (set_Status s) p h) q = trigger h q.
Proof.
  unfold trigger. destruct (decide (p = q)) as [->|Hn]; [|by rewrite lookup_alter_ne].
  rewrite lookup_alter_eq. by destruct (h !! q).
Qed.

Lemma id_status h p s q : id_of (alter (set_Status s) p h) q = id_of h q.
Proof.
  unfold id_of. destruct (decide (p = q)) as [->|Hn]; [|by rewrite lookup_alter_ne].
  rewrite lookup_alter_eq. by destruct (h !! q).
Qed.

Lemma queued_status h tq ts p s : queued h tq ts → queued (alter (set_Status s) p h) tq ts.
Proof.
  intros [H1 H2 H3 H4 H5 H6]. constructor; try done.
  - eapply is_heap_ext; [|exact H2]. intros. by rewrite trigger_status.
  - intros q (t & Ht & Hid & Hat)%H3. destruct (decide (p = q)) as [->|Hn].
    + exists (set_Status s t). by rewrite lookup_alter_eq, Ht.
    + exists t. by rewrite lookup_alter_ne.
  - erewrite list_fmap_ext; [exact H4|]. intros; apply id_status.
  - intros id q. rewrite H5. by rewrite id_status.
Qed.

Lemma queued_perm h tq ts ts' : Permutation ts ts' → queued h tq ts → queued h tq ts'.
Proof.
  intros HP [H1 H2 H3 H4 H5 H6]. constructor; try done.
  - by rewrite H1.
  - intros p. rewrite <- HP. apply H3.
  - by rewrite <- HP.
  - intros id p. by rewrite <- HP.
  - by rewrite <- HP.
Qed.

Lemma id_inj h (ts : list task_ptr) p q :
  NoDup (id_of h <$> ts) → p ∈ ts → q ∈ ts → id_of h p = id_of h q → p = q.
Proof.
  intros Hnd Hp Hq Hid. apply list_elem_of_lookup in Hp as [i Hi]. apply list_elem_of_lookup in Hq as [j Hj].
  assert (i = j) as ->; [|congruence].
  eapply (NoDup_lookup (id_of h <$> ts)); [done| |]; rewrite list_lookup_fmap;
    [by rewrite Hi|by rewrite Hj; simpl; rewrite Hid].
Qed.

(** Taking one task out of the slice and the map. *)
Lemma queued_remove h tq ts p rest cap m :
  queued h tq (p :: ts) → is_heap (trigger h) rest → Permutation (items tq) (p :: rest) → cap = capacity tq →
  queued h (mkTQ rest cap (delete (id_of h p) (lookup_id tq)) m) ts.
Proof.
  intros [H1 H2 H3 H4 H5 H6] Hh HP ->. rewrite fmap_cons in H4. apply list.NoDup_cons in H4 as [Hni H4].
  constructor; cbn [items lookup_id capacity].
  - rewrite H1 in HP. by apply Permutation_cons_inv in HP.
  - exact Hh.
  - intros q Hq. apply H3. by right.
  - exact H4.
  - intros id q. rewrite lookup_delete_Some, H5, elem_of_cons. split.
    + intros (Hne & [->|Hq] & <-); [done|done].
    + intros [Hq <-]. split; [|auto]. intros Heq. apply Hni. rewrite Heq. by apply list_elem_of_fmap_2.
  - simpl in H6. lia.
Qed.

Lemma take_first_correct h tq ts :
  items tq ≠ [] → queued h tq ts →
  let (task, tq1) := take_first h tq in
  ∃ ts1, Permutation ts (task :: ts1) ∧ queued h tq1 ts1 ∧ length (items tq) = S (length (items tq1)) ∧
    Some task = list.head (items tq) ∧ ∀ q, q ∈ ts → (trigger h task ≤ trigger h q)%Z.
Proof.
  intros Hne Hq. unfold take_first. pose proof (heap_Pop_correct (trigger h) _ Hne (q_heap _ _ _ Hq)) as HP.
  destruct (heap_Pop (trigger h) (items tq)) as [task rest]. destruct HP as (Hx & Hh & HP & Hmin).
  exists rest. pose proof (q_items _ _ _ Hq) as Hit. rewrite HP in Hit. split; [done|]. split; [|split_and!].
  - eapply queued_remove; [|done..]. eapply queued_perm; [symmetry; exact Hit|exact Hq].
  - simpl. by rewrite HP.
  - destruct (items tq) as [|x l]; [done|]. simpl in *. by rewrite Hx.
  - intros q Hin. apply Hmin. by rewrite (q_items _ _ _ Hq).
Qed.

(** ** What each operation does *)

Lemma Push_correct now p t h tq ts :
  queued h tq ts → h !! p = Some t →
  let '(r, h', tq') := Push now (Some p) h tq in
  match TriggerAt t with
  | Some _ =>
      if String.eqb (ID t) EmptyString then r = Err ErrInvalidTask ∧ h' = h ∧ queued h' tq' ts
      else if (capacity tq <=? Z.of_nat (length ts))%Z then r = Err ErrQueueFull ∧ h' = h ∧ queued h' tq' ts
      else if bool_decide (ID t ∈ id_of h <$> ts) then r = Err ErrTaskExists ∧ h' = h ∧ queued h' tq' ts
      else r = Ok tt ∧ h' = alter (set_Status TaskStatusPending) p h ∧ queued h' tq' (p :: ts)
  | None => r = Err ErrInvalidTask ∧ h' = h ∧ queued h' tq' ts
  end.
Proof.
  intros H Ht. unfold Push. rewrite Ht. destruct (String.eqb (ID t) EmptyString) eqn:Hid; [by destruct (TriggerAt t)|].
  destruct (TriggerAt t) as [at_|] eqn:Hat; [|done].
  rewrite (Permutation_length (q_items _ _ _ H)). destruct (_ <=? _)%Z eqn:Hcap; [done|].
  assert (is_some_b (lookup_id tq !! ID t) = bool_decide (ID t ∈ id_of h <$> ts)) as ->.
  { destruct (lookup_id tq !! ID t) as [q|] eqn:E; simpl; symmetry.
    - apply (q_lookup _ _ _ H) in E as [Hq <-]. apply bool_decide_eq_true. by apply list_elem_of_fmap_2.
    - apply bool_decide_eq_false. intros (q & Hq & Hin)%list_elem_of_fmap.
      assert (lookup_id tq !! ID t = Some q) by (by apply (q_lookup _ _ _ H)). congruence. }
  case_bool_decide as Hdup; [done|]. split; [done|].
  assert (<[p := set_Status TaskStatusPending t]> h = alter (set_Status TaskStatusPending) p h) as ->.
  { symmetry. apply map_eq. intros q. destruct (decide (p = q)) as [->|Hn].
    - by rewrite lookup_alter_eq, Ht, lookup_insert_eq.
    - by rewrite lookup_alter_ne, lookup_insert_ne. }
  split; [done|]. set (h' := alter _ p h). pose proof (queued_status h tq ts p TaskStatusPending H) as H'. fold h' in H'.
  assert (h' !! p = Some (set_Status TaskStatusPending t)) as Hp by (unfold h'; by rewrite lookup_alter_eq, Ht).
  assert (id_of h' p = ID t) as Hidp by (unfold id_of; by rewrite Hp).
  destruct (heap_Push_correct (trigger h') (items tq) p (q_heap _ _ _ H')) as [Hh HP].
  apply String.eqb_neq in Hid. apply Z.leb_gt in Hcap.
  destruct H' as [H1 H2 H3 H4 H5 H6]. constructor; cbn [items lookup_id capacity].
  - by rewrite HP, H1.
  - exact Hh.
  - intros q [->|Hq]%elem_of_cons; [|by apply H3]. exists (set_Status TaskStatusPending t). simpl. by rewrite Hat.
  - rewrite fmap_cons. constructor; [|exact H4]. rewrite Hidp.
    erewrite list_fmap_ext; [exact Hdup|]. intros; apply id_status.
  - intros id q. rewrite lookup_insert_Some, H5, elem_of_cons, <- Hidp. split.
    + intros [[<- <-]|(Hne & Hq & <-)]; auto.
    + intros [[->|Hq] <-]; [by left|]. right. split; [|done]. intros Heq.
      apply Hdup. rewrite <- Hidp, Heq. unfold h'; rewrite id_status. by apply list_elem_of_fmap_2.
  - simpl. lia.
Qed.

Lemma Pop_correct h tq ts :
  queued h tq ts →
  let (r, tq') := Pop h tq in
  match r with
  | Some task => ∃ ts', Permutation ts (task :: ts') ∧ queued h tq' ts' ∧
      ∀ q, q ∈ ts → (trigger h task ≤ trigger h q)%Z
  | None => ts = [] ∧ tq' = tq
  end.
Proof.
  intros H. unfold Pop. destruct (items tq) as [|x l] eqn:E.
  - pose proof (q_items _ _ _ H) as HP. rewrite E in HP. by apply Permutation_nil_l in HP.
  - pose proof (take_first_correct h tq ts ltac:(by rewrite E) H) as HT.
    destruct (take_first h tq) as [task tq1]. destruct HT as (ts1 & HP & Hq & _ & _ & Hmin). eauto.
Qed.

Lemma index_of_spec h id ts : 
  match index_of h id ts with
  | Some i => ∃ p, ts !! i = Some p ∧ id_of h p = id
  | None => ∀ p, p ∈ ts → id_of h p ≠ id
  end.
Proof.
  induction ts as [|p ts IH]; simpl; [by intros p Hp%not_elem_of_nil|].
  destruct (String.eqb (id_of h p) id) eqn:E; [apply String.eqb_eq in E; eauto|].
  apply String.eqb_neq in E. destruct (index_of h id ts) as [i|]; simpl; [exact IH|].
  intros q [->|Hq]%elem_of_cons; auto.
Qed.

Lemma Cancel_correct id h tq ts :
  queued h tq ts →
  let '(r, h', tq') := Cancel id h tq in
  r = bool_decide (id ∈ id_of h <$> ts) ∧
  queued h' tq' (filter (λ p, id_of h p ≠ id) ts) ∧
  (∀ p, p ∈ ts → id_of h p = id → r = true → h' = alter (set_Status TaskStatusCanceled) p h).
Proof.
  intros H. unfold Cancel. destruct (lookup_id tq !! id) as [p|] eqn:E.
  - apply (q_lookup _ _ _ H) in E as [Hp <-]. pose proof (index_of_spec h (id_of h p) (items tq)) as Hi.
    destruct (index_of h (id_of h p) (items tq)) as [i|].
    2:{ destruct (Hi p); [by rewrite (q_items _ _ _ H)|done]. }
    destruct Hi as (q & Hiq & Hid).
    assert (q ∈ ts) as Hq by (rewrite <- (q_items _ _ _ H); by eapply list_elem_of_lookup_2).
    rewrite (id_inj h ts q p (q_ids _ _ _ H) Hq Hp Hid) in Hiq.
    pose proof (heap_Remove_correct (trigger h) (items tq) i (lookup_lt_Some _ _ _ Hiq) (q_heap _ _ _ H)) as HR.
    destruct (heap_Remove (trigger h) (items tq) i) as [x rest]. destruct HR as (Hx & Hh & HP).
    rewrite (list_lookup_total_correct _ _ _ Hiq) in Hx. subst x.
    assert (Permutation ts (p :: filter (λ q, id_of h q ≠ id_of h p) ts)) as HPt.
    { pose proof (q_ids _ _ _ H) as Hnd. clear -Hp Hnd.
      induction ts as [|q ts IH]; [by apply not_elem_of_nil in Hp|]. rewrite fmap_cons in Hnd.
      apply list.NoDup_cons in Hnd as [Hni Hnd]. rewrite filter_cons. apply elem_of_cons in Hp as [->|Hp].
      - rewrite decide_False by auto. rewrite list_filter_all; [done|].
        intros z Hz Heq. apply Hni. rewrite <- Heq. by apply list_elem_of_fmap_2.
      - rewrite decide_True.
        2:{ intros Heq. apply Hni. rewrite Heq. by apply list_elem_of_fmap_2. }
        rewrite (IH Hp Hnd) at 1. apply perm_swap. }
    split_and!.
    + symmetry. apply bool_decide_eq_true. by apply list_elem_of_fmap_2.
    + apply queued_status. eapply queued_remove; [|done..]. by eapply queued_perm.
    + intros q' Hq' Hid' _. by rewrite (id_inj h ts q' p (q_ids _ _ _ H) Hq' Hp Hid').
  - assert (∀ p, p ∈ ts → id_of h p ≠ id) as Hn.
    { intros p Hp Hid. assert (lookup_id tq !! id = Some p) by (by apply (q_lookup _ _ _ H)). congruence. }
    split_and!.
    + symmetry. apply bool_decide_eq_false. intros (p & Hid & Hp)%list_elem_of_fmap. by apply (Hn p).
    + by rewrite list_filter_all.
    + done.
Qed.

Lemma dueLoop_correct fuel now h acc tq ts :
  length (items tq) < fuel → queued h tq ts →
  ∃ due tq', dueLoop fuel now h acc tq = Ok (acc ++ due, tq') ∧
    queued h tq' (filter (λ p, ¬ (trigger h p < now)%Z) ts) ∧
    Permutation due (filter (λ p, (trigger h p < now)%Z) ts) ∧
    StronglySorted (λ p q, (trigger h p ≤ trigger h q)%Z) due.
Proof.
  revert acc tq ts. induction fuel as [|fuel IH]; intros acc tq ts Hf H; [lia|]. cbn [dueLoop].
  destruct (items tq) as [|first l] eqn:E.
  - exists [], tq. rewrite app_nil_r. pose proof (q_items _ _ _ H) as HP. rewrite E in HP.
    apply Permutation_nil_l in HP as <-. split_and!; [done|exact H|done|constructor].
  - destruct (trigger h first <? now)%Z eqn:Ht.
    + apply Z.ltb_lt in Ht. pose proof (take_first_correct h tq ts ltac:(by rewrite E) H) as HT.
      destruct (take_first h tq) as [task tq1]. destruct HT as (ts1 & HP & Hq & Hlen & Hhd & Hmin).
      rewrite E in Hhd, Hlen. simpl in Hhd. simplify_eq. simpl in Hf, Hlen.
      destruct (IH (acc ++ [first]) tq1 ts1 ltac:(lia) Hq) as (due & tq' & Hd & Hq' & HPd & Hs).
      exists (first :: due), tq'. split_and!.
      * rewrite Hd. by rewrite <- app_assoc.
      * eapply queued_perm; [|exact Hq']. rewrite HP, filter_cons, decide_False by (by intros n; apply n). done.
      * rewrite HPd, HP, filter_cons, decide_True by done. done.
      * constructor; [done|]. apply list.Forall_forall. intros q Hin. apply Hmin. rewrite HP. right.
        rewrite HPd in Hin. by apply list_elem_of_filter in Hin as [_ Hin].
    + apply Z.ltb_ge in Ht. exists [], tq. rewrite app_nil_r.
      assert (∀ p, p ∈ ts → (now ≤ trigger h p)%Z) as Hall.
      { intros p Hp. rewrite <- (q_items _ _ _ H) in Hp. apply list_elem_of_lookup in Hp as [k Hk].
        pose proof (is_heap_min (trigger h) (items tq) k (q_heap _ _ _ H) (lookup_lt_Some _ _ _ Hk)) as Hm.
        rewrite (list_lookup_total_correct _ _ _ Hk), E in Hm. simpl in Hm. lia. }
      split_and!; [done| | |constructor].
      * rewrite list_filter_all; [done|]. intros p Hp. specialize (Hall p Hp). lia.
      * rewrite (list_filter_ext_elem _ (λ _, False)); [|intros p Hp; specialize (Hall p Hp); lia].
        clear. induction ts as [|q ts IH]; [done|]. rewrite filter_cons, decide_False by tauto. done.
Qed.

(** ** Reachable states *)

(** What a program can do with a timer queue: build or change task objects that
    are not queued, and call the queue's operations in any order. *)
Inductive reachable : task_heap → TimerQueue → Prop :=
| tr_new h c : reachable h (NewTimerQueue c)
| tr_write h tq p t : reachable h tq → p ∉ items tq → reachable (<[p := t]> h) tq
| tr_push now p t h tq r h' tq' :
    reachable h tq → h !! p = Some t → Push now (Some p) h tq = (r, h', tq') → reachable h' tq'
| tr_pop h tq r tq' : reachable h tq → Pop h tq = (r, tq') → reachable h tq'
| tr_cancel id h tq r h' tq' : reachable h tq → Cancel id h tq = (r, h', tq') → reachable h' tq'
| tr_due now h tq due tq' : reachable h tq → DueTasks now h tq = Ok (due, tq') → reachable h tq'
| tr_clear h tq : reachable h tq → reachable h (Clear tq).

Lemma queued_items h tq ts : queued h tq ts → queued h tq (items tq).
Proof. intros H. eapply queued_perm; [|exact H]. symmetry. apply (q_items _ _ _ H). Qed.

Lemma queued_write h tq ts p t : queued h tq ts → p ∉ ts → queued (<[p := t]> h) tq ts.
Proof.
  intros [H1 H2 H3 H4 H5 H6] Hp.
  assert (∀ q, q ∈ ts → <[p := t]> h !! q = h !! q) as Hsame.
  { intros q Hq. apply lookup_insert_ne. by intros ->. }
  assert (∀ q, q ∈ ts → id_of (<[p := t]> h) q = id_of h q) as Hid.
  { intros q Hq. unfold id_of. by rewrite Hsame. }
  constructor; try done.
  - eapply is_heap_ext; [|exact H2]. intros q Hq. unfold trigger. rewrite Hsame; [done|]. by rewrite <- H1.
  - intros q Hq. rewrite Hsame by done. by apply H3.
  - replace (id_of (<[p := t]> h) <$> ts) with (id_of h <$> ts); [done|].
    apply list_fmap_ext. intros i q Hq. symmetry. apply Hid. by eapply list_elem_of_lookup_2.
  - intros id q. rewrite H5. split; intros [Hq Heq]; split; try done; by rewrite <- Heq, ?Hid.
Qed.

Lemma queued_empty h tq : items tq = [] → lookup_id tq = ∅ → (0 ≤ capacity tq)%Z → queued h tq [].
Proof.
  intros Hi Hl Hc. constructor; rewrite ?Hi; try done.
  - intros k Hk Hkn. simpl in Hkn. lia.
  - by intros p Hp%not_elem_of_nil.
  - constructor.
  - intros id p. rewrite Hl, lookup_empty. split; [done|]. by intros [Hp%not_elem_of_nil _].
Qed.

Lemma DueTasks_correct now h tq :
  queued h tq (items tq) →
  ∃ due tq', DueTasks now h tq = Ok (due, tq') ∧
    queued h tq' (filter (λ p, ¬ (trigger h p < now)%Z) (items tq)) ∧
    Permutation due (filter (λ p, (trigger h p < now)%Z) (items tq)) ∧
    StronglySorted (λ p q, (trigger h p ≤ trigger h q)%Z) due.
Proof.
  intros H. apply (dueLoop_correct (S (length (items tq))) now h [] tq (items tq)); [lia|done].
Qed.

Lemma reachable_queued h tq : reachable h tq → queued h tq (items tq).
Proof.
  induction 1 as [h c|h tq p t _ IH Hp|now p t h tq r h' tq' _ IH Hp HP|h tq r tq' _ IH HP
    |id h tq r h' tq' _ IH HC|now h tq due tq' _ IH HD|h tq _ IH].
  - apply queued_empty; [done..|]. simpl. destruct (_ <=? _)%Z eqn:E; [done|]. apply Z.leb_gt in E. lia.
  - by apply queued_write.
  - pose proof (Push_correct now p t h tq _ IH Hp) as H. rewrite HP in H.
    destruct (TriggerAt t); [|by destruct H as (_ & _ & ?%queued_items)].
    destruct (String.eqb _ _); [by destruct H as (_ & _ & ?%queued_items)|].
    destruct (_ <=? _)%Z; [by destruct H as (_ & _ & ?%queued_items)|].
    case_bool_decide; by destruct H as (_ & _ & ?%queued_items).
  - pose proof (Pop_correct h tq _ IH) as H. rewrite HP in H.
    destruct r as [task|]; [by destruct H as (ts' & _ & ?%queued_items & _)|by destruct H as [_ ->]].
  - pose proof (Cancel_correct id h tq _ IH) as H. rewrite HC in H. by destruct H as (_ & ?%queued_items & _).
  - destruct (DueTasks_correct now h tq IH) as (due' & tq2 & Heq & Hq & _). rewrite HD in Heq. simplify_eq.
    by eapply queued_items.
  - apply queued_empty; try done. pose proof (q_capacity _ _ _ IH). simpl. lia.
Qed.

(** ** Properties *)

(** C15: The timer queue is well formed in every reachable state.  Whatever
    sequence of [Push], [Pop], [Cancel], [DueTasks] and [Clear] led to it, the
    slice is a binary heap by trigger time, every queued task has a non-empty ID
    and a trigger time, the IDs are distinct, [lookup] maps exactly the queued
    IDs to their tasks, and the length is within the capacity. *)
Theorem timer_queue_invariant (h : task_heap) (tq : TimerQueue) :
  reachable h tq →
  (∀ k, 0 < k → k < length (items tq) →
     (trigger h (items tq !!! ((k - 1) / 2)%nat) ≤ trigger h (items tq !!! k))%Z) ∧
  (∀ p, p ∈ items tq → ∃ t at_, h !! p = Some t ∧ ID t ≠ EmptyString ∧ TriggerAt t = Some at_) ∧
  NoDup (id_of h <$> items tq) ∧
  (∀ id p, lookup_id tq !! id = Some p ↔ p ∈ items tq ∧ id_of h p = id) ∧
  (Z.of_nat (length (items tq)) ≤ capacity tq)%Z.
Proof.
  intros [H1 H2 H3 H4 H5 H6]%reachable_queued. split_and!; try done.
  intros p (t & Ht & Hid & Hat)%H3. destruct (TriggerAt t) as [at_|] eqn:E; [|done]. by exists t, at_.
Qed.

(** [DueTasks] takes exactly the tasks that are due.  In every reachable
    state it terminates and returns, in order of trigger time, every queued task
    whose trigger time is before [now] and no other, each once, and leaves
    exactly the other tasks queued. *)
Theorem due_tasks_exact (now : Z) (h : task_heap) (tq : TimerQueue) :
  reachable h tq →
  ∃ due tq', DueTasks now h tq = Ok (due, tq') ∧
    Permutation due (filter (λ p, (trigger h p < now)%Z) (items tq)) ∧
    StronglySorted (λ p q, (trigger h p ≤ trigger h q)%Z) due ∧
    Permutation (items tq') (filter (λ p, ¬ (trigger h p < now)%Z) (items tq)) ∧ NoDup due.
Proof.
  intros H%reachable_queued. destruct (DueTasks_correct now h tq H) as (due & tq' & Hd & Hq & HP & Hs).
  exists due, tq'. split_and!; [done..|apply (q_items _ _ _ Hq)|].
  rewrite HP. apply list.NoDup_filter. eapply NoDup_fmap_1, (q_ids _ _ _ H).
Qed.

(** [Pop] takes a task no other queued task precedes, and [Cancel] removes
    exactly the task with the given ID.  In every reachable state [Pop] returns a
    task of minimal trigger time and leaves the others, or nil exactly when the
    queue is empty; [Cancel] reports whether the ID was queued, leaves exactly
    the tasks with other IDs, and marks the removed task canceled. *)
Theorem timer_pop_cancel (h : task_heap) (tq : TimerQueue) (id : string) :
  reachable h tq →
  (let (r, tq') := Pop h tq in
   match r with
   | Some task => Permutation (items tq) (task :: items tq') ∧
       ∀ q, q ∈ items tq → (trigger h task ≤ trigger h q)%Z
   | None => items tq = []
   end) ∧
  (let '(r, h', tq') := Cancel id h tq in
   r = bool_decide (id ∈ id_of h <$> items tq) ∧
   Permutation (items tq') (filter (λ p, id_of h p ≠ id) (items tq)) ∧
   ∀ p t, p ∈ items tq → h !! p = Some t → ID t = id → h' !! p = Some (set_Status TaskStatusCanceled t)).
Proof.
  intros H%reachable_queued. split.
  - pose proof (Pop_correct h tq _ H) as HP. destruct (Pop h tq) as [[task|] tq'].
    + destruct HP as (ts' & HP & Hq & Hmin). split; [|done]. by rewrite (q_items _ _ _ Hq).
    + by destruct HP.
  - pose proof (Cancel_correct id h tq _ H) as HC. destruct (Cancel id h tq) as [[r h'] tq'].
    destruct HC as (Hr & Hq & Hh). split_and!; [done|apply (q_items _ _ _ Hq)|].
    intros p t Hp Ht Hid. assert (id_of h p = id) as Hidp by (unfold id_of; by rewrite Ht).
    rewrite (Hh p Hp Hidp), lookup_alter_eq, Ht; [done|]. rewrite Hr. apply bool_decide_eq_true. rewrite <- Hidp.
    by apply list_elem_of_fmap_2.
Qed.

(** A queue with three timers, for the witnesses. *)
Definition push_timer (p : task_ptr) (id : string) (at_ : Z) (s : task_heap * TimerQueue) : task_heap * TimerQueue :=
  let '(_, h, tq) := Push 0 (Some p) (<[p := new_task id 0 (Some at_)]> (fst s)) (snd s) in (h, tq).

Lemma push_timer_reachable p id at_ s :
  reachable (fst s) (snd s) → p ∉ items (snd s) →
  reachable (fst (push_timer p id at_ s)) (snd (push_timer p id at_ s)).
Proof.
  intros H Hp. unfold push_timer. destruct (Push _ _ _ _) as [[r h] tq] eqn:E.
  eapply tr_push; [|apply lookup_insert_eq|exact E]. by apply tr_write.
Qed.

Definition three_timers : task_heap * TimerQueue :=
  push_timer 3 "c" 20 (push_timer 2 "b" 10 (push_timer 1 "a" 30 (∅, NewTimerQueue 3))).

Lemma three_timers_reachable : reachable (fst three_timers) (snd three_timers).
Proof.
  repeat apply push_timer_reachable; [apply tr_new|..]; apply (bool_decide_unpack _); vm_compute; exact I.
Qed.

Lemma timer_queue_invariant_witness :
  items (snd three_timers) = [2; 1; 3] ∧ (Z.of_nat (length (items (snd three_timers))) ≤ 3)%Z.
Proof.
  split; [reflexivity|].
  destruct (timer_queue_invariant _ _ three_timers_reachable) as (_ & _ & _ & _ & H). exact H.
Defined.

Lemma due_tasks_exact_witness :
  ∃ tq', DueTasks 25 (fst three_timers) (snd three_timers) = Ok ([2; 3], tq') ∧ Permutation (items tq') [1].
Proof.
  destruct (due_tasks_exact 25 _ _ three_timers_reachable) as (due & tq' & H & _ & _ & HP & _).
  exists tq'. split; [|exact HP]. rewrite H. f_equal. f_equal.
  vm_compute in H. by injection H as <-.
Defined.

Lemma timer_pop_cancel_witness :
  let '(r, _, tq') := Cancel "a" (fst three_timers) (snd three_timers) in
  r = true ∧ Permutation (items tq') [2; 3].
Proof.
  destruct (timer_pop_cancel _ _ "a" three_timers_reachable) as [_ H].
  destruct (Cancel "a" (fst three_timers) (snd three_timers)) as [[r h'] tq'].
  destruct H as (Hr & HP & _). split; [exact Hr|exact HP].
Defined.
