(* ===== verification/Limiter.v ===== *)
(** * The concurrency limiter

    Models src/concurrency/concurrency.go as a transition system: the buffered
    channel used as a semaphore, the atomic counters at their widths, and the
    program point of every goroutine that uses the limiter.  One step is one
    channel operation or one atomic add, so that a reader can see the window
    between taking a slot and counting it. *)

From stdpp Require Import base tactics option list numbers.
From Stdlib Require Import ZArith Lia.
From S2P Require Import Prelude.

(** Where a goroutine is: outside; inside [Acquire]/[TryAcquire] after the
    channel send; after [current.Add(1)]; holding its slot, all counted; inside
    [Release] after the channel receive. *)
Inductive pc := POut | PSent | PCounted | PHeld | PRecvd.

Record Manager := mkManager {
  maxConcurrent : Z; sem : nat; current : Z; totalExecutions : Z; rejectedCount : Z;
  procs : list pc; panicked : bool }.

Inductive new_error := ENonPositive (max : Z).

(** [NewManager], used by [n] goroutines, none of them inside yet. *)
Definition NewManager (max : Z) (n : nat) : res new_error Manager :=
  if (max <=? 0)%Z then Err (ENonPositive max)
  else Ok (mkManager max 0 0 0 0 (replicate n POut) false).

Definition cap (m : Manager) : nat := Z.to_nat (maxConcurrent m).

Definition Available (m : Manager) : Z := wrap32 (maxConcurrent m - current m).

(** [GetMetrics]: current, total_executions, rejected_count. *)
Definition GetMetrics (m : Manager) : Z * Z * Z := (current m, totalExecutions m, rejectedCount m).

Definition move (i : nat) (p : pc) (s : nat) (cur tot rej : Z) (m : Manager) : Manager :=
  mkManager (maxConcurrent m) s (wrap32 (current m + cur)) (wrap64 (totalExecutions m + tot))
    (wrap64 (rejectedCount m + rej)) (<[i := p]> (procs m)) (panicked m).

Definition panic (m : Manager) : Manager :=
  mkManager (maxConcurrent m) (sem m) (current m) (totalExecutions m) (rejectedCount m) (procs m) true.

(** The steps: the send of [Acquire] or [TryAcquire] and its two counter
    updates; [Acquire] refused by its context; [TryAcquire] finding no slot;
    the receive of [Release] and its counter update. *)
Inductive event :=
| ESend (i : nat) | ECurrent (i : nat) | ETotal (i : nat) | EReject (i : nat) | ETryFail (i : nat)
| ERelease (i : nat) | EUncount (i : nat).

Definition step (e : event) (m : Manager) : option Manager :=
  if panicked m then None
  else
    match e with
    | ESend i =>
        match procs m !! i with
        | Some POut => if sem m <? cap m then Some (move i PSent (S (sem m)) 0 0 0 m) else None
        | _ => None
        end
    | ECurrent i =>
        match procs m !! i with Some PSent => Some (move i PCounted (sem m) 1 0 0 m) | _ => None end
    | ETotal i =>
        match procs m !! i with Some PCounted => Some (move i PHeld (sem m) 0 1 0 m) | _ => None end
    | EReject i =>
        match procs m !! i with Some POut => Some (move i POut (sem m) 0 0 1 m) | _ => None end
    | ETryFail i =>
        match procs m !! i with
        | Some POut => if sem m <? cap m then None else Some m
        | _ => None
        end
    | ERelease i =>
        match procs m !! i with
        | Some POut | Some PHeld =>
            match sem m with
            | S s => Some (move i PRecvd s 0 0 0 m)
            | O => Some (panic m)
            end
        | _ => None
        end
    | EUncount i =>
        match procs m !! i with Some PRecvd => Some (move i POut (sem m) (-1) 0 0 m) | _ => None end
    end.

#[global] Instance limiter_machine : Machine event Manager := step.
Abbreviation run := (mrun (ev:=event) (st:=Manager)).

(** The documented use: only a goroutine that holds a slot calls [Release]. *)
Definition proper (e : event) (m : Manager) : bool :=
  match e with
  | ERelease i => match procs m !! i with Some PHeld => true | _ => false end
  | _ => true
  end.

Fixpoint proper_run (es : list event) (m : Manager) : bool :=
  match es with
  | [] => true
  | e :: es' => proper e m && match mstep e m with Some m' => proper_run es' m' | None => true end
  end.

(** Goroutines that have a slot of the channel, and goroutines [current] counts. *)
Definition holds (p : pc) : bool := match p with PSent | PCounted | PHeld => true | _ => false end.
Definition counted (p : pc) : bool := match p with PCounted | PHeld | PRecvd => true | _ => false end.
Definition releasing (p : pc) : bool := match p with PRecvd => true | _ => false end.
Definition settled (p : pc) : bool := match p with POut | PHeld => true | _ => false end.

Definition is_total (e : event) : bool := match e with ETotal _ => true | _ => false end.
Definition is_reject (e : event) : bool := match e with EReject _ => true | _ => false end.

(** ** The invariant *)

Record lim_inv (m : Manager) : Prop := {
  li_sem : sem m = count holds (procs m);
  li_cap : sem m ≤ cap m;
  li_current : current m = wrap32 (Z.of_nat (count counted (procs m)));
  li_fine : panicked m = false }.

Lemma new_inv max n m : NewManager max n = Ok m → lim_inv m ∧ maxConcurrent m = max ∧ (0 < max)%Z.
Proof.
  unfold NewManager. destruct (Z.leb_spec max 0); intros; simplify_eq/=. split; [|done].
  constructor; simpl; rewrite ?count_replicate by done; [done|lia|done|done].
Qed.

Lemma move_inv i p0 p s cur tot rej m :
  lim_inv m → procs m !! i = Some p0 →
  s + b2n (holds p0) = sem m + b2n (holds p) → s ≤ cap m →
  (cur + Z.of_nat (b2n (counted p0)) = Z.of_nat (b2n (counted p)))%Z →
  lim_inv (move i p s cur tot rej m).
Proof.
  intros [H1 H2 H3 H4] Hi Hs Hc Hcur.
  pose proof (count_insert holds _ _ _ p Hi). pose proof (count_insert counted _ _ _ p Hi).
  constructor; cbn [move maxConcurrent sem current procs panicked cap]; [lia|done| |done].
  rewrite H3, wrap32_add. f_equal. lia.
Qed.

Lemma lim_step_inv e m m' :
  lim_inv m → proper e m = true → step e m = Some m' → lim_inv m' ∧ maxConcurrent m' = maxConcurrent m.
Proof.
  intros Hinv Hp Hs. pose proof Hinv as [H1 H2 H3 H4]. unfold step in Hs. rewrite H4 in Hs.
  destruct e as [i|i|i|i|i|i|i]; destruct (procs m !! i) as [[]|] eqn:Hi; simpl in Hp; rewrite ?Hi in Hp;
    simplify_eq/=; try done.
  - destruct (Nat.ltb_spec (sem m) (cap m)); simplify_eq. split; [|done]. eapply move_inv; eauto; simpl; lia.
  - split; [|done]. eapply move_inv; eauto; simpl; lia.
  - split; [|done]. eapply move_inv; eauto; simpl; lia.
  - split; [|done]. eapply move_inv; eauto; simpl; lia.
  - destruct (Nat.ltb_spec (sem m) (cap m)); simplify_eq. done.
  - destruct (sem m) as [|s] eqn:Es; simplify_eq.
    + pose proof (count_pos holds _ _ _ Hi eq_refl). lia.
    + split; [|done]. eapply move_inv; eauto; simpl; lia.
  - split; [|done]. eapply move_inv; eauto; simpl; lia.
Qed.

Lemma lim_run_inv es m m' :
  lim_inv m → proper_run es m = true → run es m = Some m' → lim_inv m' ∧ maxConcurrent m' = maxConcurrent m.
Proof.
  revert m; induction es as [|e es IH]; intros m Hinv Hp Hr; simpl in *; [by simplify_eq|].
  apply andb_true_iff in Hp as [Hp Hps]. destruct (mstep e m) as [m1|] eqn:Hs; [|done].
  destruct (lim_step_inv _ _ _ Hinv Hp Hs) as [Hinv1 <-]. eauto.
Qed.

(** The two event counters. *)
Lemma step_counters e m m' a b :
  step e m = Some m' → totalExecutions m = wrap64 a → rejectedCount m = wrap64 b →
  totalExecutions m' = wrap64 (a + Z.of_nat (b2n (is_total e))) ∧
  rejectedCount m' = wrap64 (b + Z.of_nat (b2n (is_reject e))).
Proof.
  intros Hs Ha Hb. unfold step in Hs.
  repeat (case_match; simplify_eq; try done);
    cbn [move panic totalExecutions rejectedCount is_total is_reject b2n];
    rewrite ?Ha, ?Hb, ?wrap64_add; rewrite ?Z.add_0_r; done.
Qed.

Lemma run_counters es m m' a b :
  run es m = Some m' → totalExecutions m = wrap64 a → rejectedCount m = wrap64 b →
  totalExecutions m' = wrap64 (a + Z.of_nat (count is_total es)) ∧
  rejectedCount m' = wrap64 (b + Z.of_nat (count is_reject es)).
Proof.
  revert m a b; induction es as [|e es IH]; intros m a b Hr Ha Hb; simpl in Hr.
  - simplify_eq. by rewrite !Z.add_0_r.
  - destruct (mstep e m) as [m1|] eqn:Hs; [|done].
    destruct (step_counters _ _ _ _ _ Hs Ha Hb) as [Ha1 Hb1].
    destruct (IH _ _ _ Hr Ha1 Hb1) as [-> ->]. unfold count. rewrite !filter_cons.
    split; f_equal; destruct e; simpl; lia.
Qed.

(** The slots counted, those taken and those being given back. *)
Lemma counted_bound l : count counted l ≤ count holds l + count releasing l.
Proof.
  unfold count. induction l as [|p l IH]; [done|]. rewrite !filter_cons. destruct p; simpl; lia.
Qed.

(** ** Properties *)

(** C34: The limiter limits.  In any interleaving of goroutines that only release
    what they acquired: the goroutines between acquiring and releasing are
    exactly the slots taken and never more than [maxConcurrent]; [Release]
    never panics; [current] is at most [maxConcurrent] plus the releases in
    flight; [totalExecutions] and [rejectedCount] count the completed
    acquisitions and the refusals (modulo 2^64); and when no goroutine is
    inside a call, [current] is the number of holders and [Available] the
    number of free slots. *)
Theorem limiter_safe (max : Z) (n : nat) (es : list event) (m0 m : Manager) :
  (max ≤ max_int32)%Z → (Z.of_nat n ≤ max_int32)%Z →
  NewManager max n = Ok m0 → proper_run es m0 = true → run es m0 = Some m →
  count holds (procs m) = sem m ∧ (Z.of_nat (sem m) ≤ max)%Z ∧ panicked m = false ∧
  (0 ≤ current m ≤ max + Z.of_nat (count releasing (procs m)))%Z ∧
  totalExecutions m = wrap64 (Z.of_nat (count is_total es)) ∧
  rejectedCount m = wrap64 (Z.of_nat (count is_reject es)) ∧
  (forallb settled (procs m) = true →
     current m = Z.of_nat (sem m) ∧ Available m = (max - Z.of_nat (sem m))%Z).
Proof.
  intros Hmax Hn Hnew Hp Hr. destruct (new_inv _ _ _ Hnew) as (Hi0 & Hmx & Hpos).
  destruct (lim_run_inv _ _ _ Hi0 Hp Hr) as [[H1 H2 H3 H4] Hmx'].
  assert (length (procs m) = n) as Hlen.
  { assert (length (procs m0) = n) as <-.
    { unfold NewManager in Hnew. destruct (max <=? 0)%Z; [done|]. injection Hnew as <-. apply length_replicate. }
    apply (mrun_const (λ m, length (procs m))) in Hr; [done|]. clear. intros e m m' Hs.
    unfold mstep, limiter_machine, step in Hs.
    repeat (case_match; simplify_eq; try done); cbn [move panic procs]; by rewrite ?length_insert. }
  assert (totalExecutions m0 = wrap64 0 ∧ rejectedCount m0 = wrap64 0) as [Ht0 Hr0].
  { unfold NewManager in Hnew. destruct (max <=? 0)%Z; [done|]. by injection Hnew as <-. }
  destruct (run_counters _ _ _ _ _ Hr Ht0 Hr0) as [Ht Hrj].
  assert (Z.of_nat (sem m) ≤ max)%Z by (unfold cap in H2; rewrite Hmx', Hmx in H2; lia).
  pose proof (count_le counted (procs m)). pose proof (counted_bound (procs m)).
  rewrite wrap32_id in H3 by (unfold max_int32 in *; lia).
  split_and!; [by symmetry|done|done|lia|lia|exact Ht|exact Hrj|].
  intros Hset%forallb_Forall. rewrite list.Forall_forall in Hset.
  assert (count counted (procs m) = count holds (procs m)) as Heq.
  { apply count_ext. intros x Hx. specialize (Hset x Hx). by destruct x. }
  split; [lia|]. unfold Available. rewrite Hmx', Hmx, wrap32_id by (unfold max_int32 in *; lia). lia.
Qed.

Lemma limiter_safe_witness :
  let es := [ESend 0; ECurrent 0; ETotal 0; ESend 1; ETryFail 2; EReject 2; ECurrent 1; ETotal 1;
             ERelease 0; EUncount 0] in
  ∃ m0 m, NewManager 2 3 = Ok m0 ∧ run es m0 = Some m ∧ current m = 1%Z ∧ Available m = 1%Z ∧
    GetMetrics m = (1, 2, 1)%Z.
Proof.
  intros es. destruct (NewManager 2 3) as [m0| | |] eqn:E0; [|vm_compute in E0; discriminate E0..].
  destruct (run es m0) as [m|] eqn:E; [|vm_compute in E0; injection E0 as <-; vm_compute in E; discriminate E].
  destruct (limiter_safe 2 3 es m0 m) as (_ & _ & _ & _ & _ & _ & H);
    [vm_compute; discriminate|vm_compute; discriminate|exact E0| |exact E|].
  { vm_compute in E0. injection E0 as <-. vm_compute. reflexivity. }
  exists m0, m. split; [reflexivity|]. split; [exact E|].
  vm_compute in E0. injection E0 as <-. vm_compute in E. injection E as <-.
  destruct H as [H1 H2]; [reflexivity|]. split; [exact H1|]. split; [exact H2|reflexivity].
Defined.

(** [Available] can be negative.  With one slot there is a run of
    documented use after which [Available] is -1: a goroutine has given its slot
    back but not yet counted it, and another has already taken and counted the
    slot.  No goroutine is over the limit. *)
Theorem available_can_be_negative :
  ∃ es m0 m, NewManager 1 2 = Ok m0 ∧ proper_run es m0 = true ∧ run es m0 = Some m ∧
    Available m = (-1)%Z ∧ count holds (procs m) = 1.
Proof.
  exists [ESend 0; ECurrent 0; ETotal 0; ERelease 0; ESend 1; ECurrent 1].
  do 2 eexists. split; [vm_compute; reflexivity|]. split; [vm_compute; reflexivity|].
  split; [vm_compute; reflexivity|]. split; reflexivity.
Qed.

(** A slot is handed out whenever one is free, and [Release] panics exactly
    when nothing is held.  In every state reached by documented use, a goroutine
    outside can take a slot if and only if fewer than [maxConcurrent] are
    taken, [TryAcquire] fails if and only if all are, and a [Release] by a
    goroutine that holds nothing panics if and only if nobody holds a slot
    (otherwise it gives back a slot of somebody else). *)
Theorem limiter_decides (max : Z) (n : nat) (es : list event) (m0 m : Manager) (i : nat) :
  NewManager max n = Ok m0 → proper_run es m0 = true → run es m0 = Some m → procs m !! i = Some POut →
  (is_some_b (step (ESend i) m) = true ↔ (Z.of_nat (count holds (procs m)) < max)%Z) ∧
  (step (ETryFail i) m = Some m ↔ Z.of_nat (count holds (procs m)) = max) ∧
  ∃ m', step (ERelease i) m = Some m' ∧ (panicked m' = true ↔ count holds (procs m) = 0) ∧
    (panicked m' = false → S (sem m') = count holds (procs m) ∧ count holds (procs m') = count holds (procs m)).
Proof.
  intros Hnew Hp Hr Hi. destruct (new_inv _ _ _ Hnew) as (Hi0 & Hmx & Hpos).
  destruct (lim_run_inv _ _ _ Hi0 Hp Hr) as [[H1 H2 H3 H4] Hmx'].
  unfold step. rewrite H4, Hi. unfold cap in *. rewrite Hmx', Hmx in *.
  destruct (Nat.ltb_spec (sem m) (Z.to_nat max)).
  - split_and!; [split; [lia|done]|split; [done|lia]|].
    destruct (sem m) as [|s]; eexists; (split; [done|]); simpl.
    + split; [split; [lia|done]|done].
    + rewrite H4. split; [split; [done|lia]|]. intros _. split; [lia|].
      pose proof (count_insert holds _ _ _ PRecvd Hi). simpl in *. lia.
  - split_and!; [split; [done|lia]|split; [lia|done]|].
    destruct (sem m) as [|s]; eexists; (split; [done|]); simpl.
    + split; [split; [lia|done]|done].
    + rewrite H4. split; [split; [done|lia]|]. intros _. split; [lia|].
      pose proof (count_insert holds _ _ _ PRecvd Hi). simpl in *. lia.
Qed.

Lemma limiter_decides_witness :
  ∃ m0 m m', NewManager 1 2 = Ok m0 ∧ run [ESend 0; ECurrent 0; ETotal 0] m0 = Some m ∧
    step (ETryFail 1) m = Some m ∧ step (ERelease 1) m = Some m' ∧ panicked m' = false.
Proof.
  destruct (NewManager 1 2) as [m0| | |] eqn:E0; [|vm_compute in E0; discriminate E0..].
  destruct (run [ESend 0; ECurrent 0; ETotal 0] m0) as [m|] eqn:E;
    [|vm_compute in E0; injection E0 as <-; vm_compute in E; discriminate E].
  destruct (limiter_decides 1 2 [ESend 0; ECurrent 0; ETotal 0] m0 m 1) as (_ & H2 & m' & H3 & H4 & _).
  - exact E0.
  - vm_compute in E0. injection E0 as <-. vm_compute. reflexivity.
  - exact E.
  - vm_compute in E0. injection E0 as <-. vm_compute in E. injection E as <-. reflexivity.
  - exists m0, m, m'. split; [reflexivity|]. split; [exact E|].
    vm_compute in E0. injection E0 as <-. vm_compute in E. injection E as <-.
    split; [apply H2; reflexivity|]. split; [exact H3|].
    destruct (panicked m'); [destruct H4 as [H4 _]; specialize (H4 eq_refl); discriminate H4|reflexivity].
Defined.
