(* ===== verification/WorkerPool.v ===== *)
(** * The worker pool

    Models src/concurrency/worker/worker.go as a transition system: the task
    channel, the pool context, the workers' program points between two atomic
    operations, the goroutines that run the processor, the submitters between
    the channel send and the counter update, and the metrics.  One step is one
    channel operation or one atomic add; any interleaving is a run. *)

From stdpp Require Import base tactics option list numbers.
From Stdlib Require Import ZArith Lia.
From S2P Require Import Prelude.

(** ** Configuration *)

Record Config := mkConfig { MaxWorkers : Z; QueueSize : Z; TaskTimeout : Z }.

Inductive config_error := BadMaxWorkers | BadQueueSize | BadTaskTimeout.

Definition DefaultConfig : Config := mkConfig 10 1000 60000000000.

Definition Validate (cfg : Config) : res config_error () :=
  if (MaxWorkers cfg <? 1)%Z then Err BadMaxWorkers
  else if (QueueSize cfg <? 1)%Z then Err BadQueueSize
  else if (TaskTimeout cfg <? 0)%Z then Err BadTaskTimeout
  else Ok tt.

(** ** The pool *)

(** Where a worker is: waiting in its [select]; holding a task just received;
    after [ActiveWorkers.Add(1)]; after [PendingTasks.Add(-1)], waiting for the
    processor or the timeout; after counting the outcome; returned. *)
Inductive wstate :=
| WIdle | WGot (t : nat) | WActive (t : nat) | WRunning (t : nat) | WCounted (t : nat) | WExited.

(** [submitters]: calls of [Submit] that have sent their task and not yet
    counted it.  [orphans]: processor goroutines whose worker has timed out.
    [accepted]: tasks sent to the channel so far.  [crashed]: the process died
    of a panic. *)
Record Pool := mkPool {
  maxWorkers : nat; queueSize : nat;
  tasks : list nat; closed : bool; cancelled : bool;
  workers : list wstate; submitters : nat; orphans : list nat; accepted : nat; crashed : bool;
  ActiveWorkers : Z; PendingTasks : Z; CompletedTasks : Z; FailedTasks : Z }.

(** A negative size of the queue, which [make] panics on, is not covered. *)
Definition NewPool (maxWorkers queueSize : nat) : Pool :=
  mkPool maxWorkers queueSize [] false false [] 0 [] 0 false 0 0 0 0.

(** [Start]: one goroutine per worker. *)
Definition Start (p : Pool) : Pool :=
  mkPool (maxWorkers p) (queueSize p) (tasks p) (closed p) (cancelled p)
    (workers p ++ replicate (maxWorkers p) WIdle) (submitters p) (orphans p) (accepted p) (crashed p)
    (ActiveWorkers p) (PendingTasks p) (CompletedTasks p) (FailedTasks p).

Definition set_worker (i : nat) (w : wstate) (p : Pool) : Pool :=
  mkPool (maxWorkers p) (queueSize p) (tasks p) (closed p) (cancelled p)
    (<[i := w]> (workers p)) (submitters p) (orphans p) (accepted p) (crashed p)
    (ActiveWorkers p) (PendingTasks p) (CompletedTasks p) (FailedTasks p).

Definition add_metrics (a pe c f : Z) (p : Pool) : Pool :=
  mkPool (maxWorkers p) (queueSize p) (tasks p) (closed p) (cancelled p) (workers p) (submitters p) (orphans p)
    (accepted p) (crashed p)
    (ActiveWorkers p + a) (PendingTasks p + pe) (CompletedTasks p + c) (FailedTasks p + f).

Definition set_channel (ts : list nat) (cl ca : bool) (p : Pool) : Pool :=
  mkPool (maxWorkers p) (queueSize p) ts cl ca (workers p) (submitters p) (orphans p) (accepted p) (crashed p)
    (ActiveWorkers p) (PendingTasks p) (CompletedTasks p) (FailedTasks p).

Definition set_submit (s acc : nat) (p : Pool) : Pool :=
  mkPool (maxWorkers p) (queueSize p) (tasks p) (closed p) (cancelled p) (workers p) s (orphans p) acc (crashed p)
    (ActiveWorkers p) (PendingTasks p) (CompletedTasks p) (FailedTasks p).

Definition set_orphans (o : list nat) (p : Pool) : Pool :=
  mkPool (maxWorkers p) (queueSize p) (tasks p) (closed p) (cancelled p) (workers p) (submitters p) o (accepted p)
    (crashed p) (ActiveWorkers p) (PendingTasks p) (CompletedTasks p) (FailedTasks p).

Definition crash (p : Pool) : Pool :=
  mkPool (maxWorkers p) (queueSize p) (tasks p) (closed p) (cancelled p) (workers p) (submitters p) (orphans p)
    (accepted p) true (ActiveWorkers p) (PendingTasks p) (CompletedTasks p) (FailedTasks p).

(** [Submit] up to its channel operation: accepted, refused, or a panic because
    the channel is closed. *)
Definition Submit_send (t : nat) (p : Pool) : option bool * Pool :=
  if closed p then (None, crash p)
  else if length (tasks p) <? queueSize p then
    (Some true, set_submit (S (submitters p)) (S (accepted p)) (set_channel (tasks p ++ [t]) (closed p) (cancelled p) p))
  else (Some false, p).

(** [Submit] on a channel without a buffer: a worker in its [select] takes the
    task as it is sent. *)
Definition Submit_handoff (t i : nat) (p : Pool) : option Pool :=
  match workers p !! i with
  | Some WIdle =>
      if (queueSize p =? 0) && negb (closed p)
      then Some (set_worker i (WGot t) (set_submit (S (submitters p)) (S (accepted p)) p)) else None
  | _ => None
  end.

Definition IsBusy (p : Pool) : bool :=
  (Z.of_nat (maxWorkers p) <=? ActiveWorkers p)%Z || (Z.of_nat (queueSize p) <=? PendingTasks p)%Z.
Definition IsIdle (p : Pool) : bool := (ActiveWorkers p =? 0)%Z.
Definition IsEmpty (p : Pool) : bool := (PendingTasks p =? 0)%Z.

(** What happened, for runs as data. *)
Inductive event :=
| ESubmit (t : nat) | ECount | ETake (i : nat) | EActivate (i : nat) | EUnpend (i : nat)
| EDone (i : nat) (ok : bool) | ETimeout (i : nat) | ERetire (i : nat) | EExit (i : nat)
| EOrphanEnds (t : nat) | EProcessorPanics (i : nat) | EStopCancel | EStopClose | EHandoff (t i : nat).

(** One atomic step of one goroutine; [None]: the event is not enabled. *)
Definition step (e : event) (p : Pool) : option Pool :=
  if crashed p then None
  else
    match e with
    | ESubmit t => Some (snd (Submit_send t p))
    | ECount =>
        match submitters p with
        | S s => Some (add_metrics 0 1 0 0 (set_submit s (accepted p) p))
        | O => None
        end
    | ETake i =>
        match workers p !! i, tasks p with
        | Some WIdle, t :: ts => Some (set_worker i (WGot t) (set_channel ts (closed p) (cancelled p) p))
        | _, _ => None
        end
    | EActivate i =>
        match workers p !! i with
        | Some (WGot t) => Some (add_metrics 1 0 0 0 (set_worker i (WActive t) p))
        | _ => None
        end
    | EUnpend i =>
        match workers p !! i with
        | Some (WActive t) => Some (add_metrics 0 (-1) 0 0 (set_worker i (WRunning t) p))
        | _ => None
        end
    | EDone i ok =>
        match workers p !! i with
        | Some (WRunning t) =>
            Some (if ok then add_metrics 0 0 1 0 (set_worker i (WCounted t) p)
                  else add_metrics 0 0 0 1 (set_worker i (WCounted t) p))
        | _ => None
        end
    | ETimeout i =>
        match workers p !! i with
        | Some (WRunning t) =>
            Some (add_metrics 0 0 0 1 (set_worker i (WCounted t) (set_orphans (t :: orphans p) p)))
        | _ => None
        end
    | ERetire i =>
        match workers p !! i with
        | Some (WCounted t) => Some (add_metrics (-1) 0 0 0 (set_worker i WIdle p))
        | _ => None
        end
    | EExit i =>
        match workers p !! i with
        | Some WIdle =>
            if cancelled p || (closed p && (length (tasks p) =? 0)) then Some (set_worker i WExited p) else None
        | _ => None
        end
    | EOrphanEnds t =>
        if bool_decide (t ∈ orphans p) then Some (set_orphans (remove Nat.eq_dec t (orphans p)) p) else None
    | EProcessorPanics i =>
        match workers p !! i with
        | Some (WRunning _) => Some (crash p)
        | _ => None
        end
    | EStopCancel => Some (set_channel (tasks p) (closed p) true p)
    | EStopClose => Some (if closed p then crash p else set_channel (tasks p) true (cancelled p) p)
    | EHandoff t i => Submit_handoff t i p
    end.

#[global] Instance pool_machine : Machine event Pool := step.
Abbreviation run := (mrun (ev:=event) (st:=Pool)).

(** ** Counting workers *)

Definition received (w : wstate) : bool := match w with WGot _ | WActive _ => true | _ => false end.
Definition active (w : wstate) : bool := match w with WActive _ | WRunning _ | WCounted _ => true | _ => false end.
Definition in_hand (w : wstate) : bool := match w with WGot _ | WActive _ | WRunning _ => true | _ => false end.

(** ** The accounting invariant *)

Record pool_inv (p : Pool) : Prop := {
  inv_channel : length (tasks p) ≤ queueSize p;
  inv_workers : length (workers p) = maxWorkers p;
  inv_active : ActiveWorkers p = Z.of_nat (count active (workers p));
  inv_pending : (PendingTasks p + Z.of_nat (submitters p) =
                 Z.of_nat (length (tasks p)) + Z.of_nat (count received (workers p)))%Z;
  inv_account : (Z.of_nat (accepted p) =
                 Z.of_nat (length (tasks p)) + Z.of_nat (count in_hand (workers p)) +
                 CompletedTasks p + FailedTasks p)%Z;
  inv_nonneg : (0 ≤ CompletedTasks p ∧ 0 ≤ FailedTasks p)%Z }.

Lemma start_inv m q : pool_inv (Start (NewPool m q)).
Proof. constructor; simpl; rewrite ?length_replicate, ?count_replicate by done; lia. Qed.

Ltac count_worker H w' :=
  pose proof (count_insert received _ _ _ w' H);
  pose proof (count_insert active _ _ _ w' H);
  pose proof (count_insert in_hand _ _ _ w' H).

Lemma step_inv e p p' : pool_inv p → step e p = Some p' → pool_inv p'.
Proof.
  intros [H1 H2 H3 H4 H5 H6] Hs. unfold step in Hs. destruct (crashed p); [done|].
  destruct e as [t| |i|i|i|i ok|i|i|i|t|i| | |t i].
  - unfold Submit_send in Hs. destruct (closed p); simplify_eq/=; [by constructor|].
    destruct (length (tasks p) <? queueSize p) eqn:E; simplify_eq/=; [|by constructor].
    apply Nat.ltb_lt in E. constructor; simpl; rewrite ?length_app; simpl; lia.
  - destruct (submitters p) eqn:E; simplify_eq/=. constructor; simpl; lia.
  - destruct (workers p !! i) as [[]|] eqn:Hw; try done. destruct (tasks p) as [|t ts] eqn:Ht; [done|].
    simplify_eq/=. count_worker Hw (WGot t). simpl in *. constructor; simpl; rewrite ?length_insert; lia.
  - destruct (workers p !! i) as [[]|] eqn:Hw; try done. simplify_eq/=. count_worker Hw (WActive t).
    simpl in *. constructor; simpl; rewrite ?length_insert; lia.
  - destruct (workers p !! i) as [[]|] eqn:Hw; try done. simplify_eq/=. count_worker Hw (WRunning t).
    simpl in *. constructor; simpl; rewrite ?length_insert; lia.
  - destruct (workers p !! i) as [[]|] eqn:Hw; try done. count_worker Hw (WCounted t).
    destruct ok; simplify_eq/=; constructor; simpl; rewrite ?length_insert; lia.
  - destruct (workers p !! i) as [[]|] eqn:Hw; try done. simplify_eq/=. count_worker Hw (WCounted t).
    simpl in *. constructor; simpl; rewrite ?length_insert; lia.
  - destruct (workers p !! i) as [[]|] eqn:Hw; try done. simplify_eq/=. count_worker Hw WIdle.
    simpl in *. constructor; simpl; rewrite ?length_insert; lia.
  - destruct (workers p !! i) as [[]|] eqn:Hw; try done. destruct (_ || _); simplify_eq/=. count_worker Hw WExited.
    simpl in *. constructor; simpl; rewrite ?length_insert; lia.
  - case_bool_decide; simplify_eq/=. by constructor.
  - destruct (workers p !! i) as [[]|]; simplify_eq/=. by constructor.
  - simplify_eq/=. by constructor.
  - destruct (closed p); simplify_eq/=; by constructor.
  - unfold Submit_handoff in Hs. destruct (workers p !! i) as [[]|] eqn:Hw; try done. destruct (_ && _); [|done]. simplify_eq/=. count_worker Hw (WGot t).
    simpl in *. constructor; simpl; rewrite ?length_insert; lia.
Qed.

(** ** Properties *)

(** C16: The pool loses no task and its metrics add up.  After any interleaving
    of submissions, workers, timeouts and [Stop] on a started pool: every
    accepted task is in the channel, in a worker's hands, or counted once as
    completed or failed; [ActiveWorkers] is the number of workers between their
    two updates and never exceeds [MaxWorkers]; the channel never exceeds
    [QueueSize] (with none, a task goes from hand to hand); and [PendingTasks] differs from the tasks waiting only by the
    submissions that are sent and not yet counted, so when none is in flight it
    is at least the channel length. *)
Theorem pool_accounting (m q : nat) (es : list event) (p : Pool) :
  run es (Start (NewPool m q)) = Some p →
  (Z.of_nat (accepted p) = Z.of_nat (length (tasks p)) + Z.of_nat (count in_hand (workers p)) +
     CompletedTasks p + FailedTasks p)%Z ∧
  ActiveWorkers p = Z.of_nat (count active (workers p)) ∧ (0 ≤ ActiveWorkers p ≤ Z.of_nat m)%Z ∧
  length (tasks p) ≤ q ∧
  (PendingTasks p = Z.of_nat (length (tasks p)) + Z.of_nat (count received (workers p)) -
     Z.of_nat (submitters p))%Z ∧
  (submitters p = 0 → Forall (λ w, w = WIdle ∨ w = WExited) (workers p) →
     PendingTasks p = Z.of_nat (length (tasks p)) ∧ ActiveWorkers p = 0%Z).
Proof.
  intros Hr. pose proof (mrun_inv pool_inv _ _ _ step_inv (start_inv m q) Hr) as [H1 H2 H3 H4 H5 H6].
  assert (maxWorkers p = m ∧ queueSize p = q) as [<- <-].
  { apply (mrun_const (λ p, (maxWorkers p, queueSize p))) in Hr; [by injection Hr|]. clear.
    intros e p p' Hs. unfold mstep, pool_machine, step, Submit_send, Submit_handoff in Hs.
    repeat (case_match; simplify_eq/=; try done). }
  pose proof (count_le active (workers p)). split_and!; try lia.
  intros Hs Hidle.
  assert (count received (workers p) = 0 ∧ count active (workers p) = 0) as [Hr0 Ha0].
  { clear -Hidle. unfold count. induction Hidle as [|w ws Hw _ [IH1 IH2]]; [done|].
    by destruct Hw as [-> | ->]. }
  lia.
Qed.

Lemma pool_accounting_witness :
  let es := [ESubmit 7; ECount; ESubmit 8; ETake 0; EActivate 0; EUnpend 0; ECount; ETimeout 0; ERetire 0] in
  ∃ p, run es (Start (NewPool 1 2)) = Some p ∧ FailedTasks p = 1%Z ∧ orphans p = [7] ∧
    PendingTasks p = Z.of_nat (length (tasks p)) ∧ ActiveWorkers p = 0%Z.
Proof.
  intros es. destruct (run es (Start (NewPool 1 2))) as [p|] eqn:E; [|vm_compute in E; discriminate E].
  destruct (pool_accounting 1 2 es p E) as (_ & _ & _ & _ & _ & H).
  exists p. vm_compute in E. injection E as <-. split; [reflexivity|]. split; [reflexivity|]. split; [reflexivity|].
  apply H; [reflexivity|]. repeat constructor.
Defined.

(** [PendingTasks] can be negative.  A worker that receives a task before its
    submitter has counted it takes one from the counter first, so a reader of
    the metrics can see -1 pending tasks while one task is being processed. *)
Theorem pending_can_be_negative :
  ∃ es p, run es (Start (NewPool 1 1)) = Some p ∧ PendingTasks p = (-1)%Z ∧ IsEmpty p = false ∧
    CompletedTasks p = 0%Z ∧ count in_hand (workers p) = 1.
Proof.
  exists [ESubmit 7; ETake 0; EActivate 0; EUnpend 0]. eexists. split; [vm_compute; reflexivity|]. repeat split.
Qed.

(** A panic in the processor ends the process.  Whatever the state, when a
    worker's processor panics the process is gone (no later step of any
    goroutine exists): the recovery in [processTask] is in another goroutine
    than the processor; and [Submit] after [Stop] panics as well. *)
Theorem processor_panic_is_fatal (p : Pool) (i t : nat) (es : list event) :
  crashed p = false → workers p !! i = Some (WRunning t) →
  ∃ p', step (EProcessorPanics i) p = Some p' ∧ crashed p' = true ∧ (es ≠ [] → run es p' = None) ∧
    (closed p = true → ∃ p'', step (ESubmit t) p = Some p'' ∧ crashed p'' = true).
Proof.
  intros Hc Hw. exists (crash p). unfold step at 1. rewrite Hc, Hw. split_and!; [done..| |].
  - by destruct es.
  - intros Hcl. exists (crash p). unfold step, Submit_send. by rewrite Hc, Hcl.
Qed.

Lemma processor_panic_is_fatal_witness :
  ∃ p p', run [ESubmit 7; ETake 0; EActivate 0; EUnpend 0] (Start (NewPool 1 1)) = Some p ∧
    step (EProcessorPanics 0) p = Some p' ∧ run [ECount] p' = None.
Proof.
  destruct (run [ESubmit 7; ETake 0; EActivate 0; EUnpend 0] (Start (NewPool 1 1))) as [p|] eqn:E;
    [|vm_compute in E; discriminate E].
  assert (crashed p = false ∧ workers p !! 0 = Some (WRunning 7)) as [Hc Hw]
    by (vm_compute in E; injection E as <-; split; reflexivity).
  destruct (processor_panic_is_fatal p 0 7 [ECount] Hc Hw) as (p' & H1 & _ & H2 & _).
  exists p, p'. split; [reflexivity|]. split; [exact H1|]. apply H2. discriminate.
Defined.

(** [Stop] abandons queued tasks.  From any state of the pool in which every worker is idle and the channel is open, the run "cancel the
    context, close the channel, every worker leaves" is possible: no worker is
    left, and exactly the tasks that were in the channel are still in it, neither
    completed nor failed. *)
Theorem stop_abandons_tasks (m : nat) (p : Pool) :
  crashed p = false → closed p = false → workers p = replicate m WIdle →
  ∃ p', run (EStopCancel :: EStopClose :: (EExit <$> seq 0 m)) p = Some p' ∧
    workers p' = replicate m WExited ∧ tasks p' = tasks p ∧ closed p' = true ∧
    CompletedTasks p' = CompletedTasks p ∧ FailedTasks p' = FailedTasks p.
Proof.
  intros Hcr Hcl Hw. cbn [mrun]. unfold mstep at 1, pool_machine, step at 1. rewrite Hcr. cbn [mrun].
  unfold mstep at 1, pool_machine, step at 1. simpl. rewrite Hcr, Hcl.
  set (p1 := set_channel (tasks p) true true (set_channel (tasks p) false true p)).
  assert (∀ n k p0, workers p0 = replicate k WExited ++ replicate n WIdle → crashed p0 = false →
    cancelled p0 = true → closed p0 = true →
    ∃ p', run (EExit <$> seq k n) p0 = Some p' ∧ workers p' = replicate (k + n) WExited ∧ tasks p' = tasks p0 ∧
      closed p' = true ∧ CompletedTasks p' = CompletedTasks p0 ∧ FailedTasks p' = FailedTasks p0) as Hexit.
  { clear. induction n as [|n IH]; intros k p0 Hw Hcr Hca Hcl; simpl.
    - exists p0. rewrite Hw, Nat.add_0_r, app_nil_r. done.
    - unfold mstep, pool_machine, step. rewrite Hcr, Hw, lookup_app_r, length_replicate, Nat.sub_diag by (rewrite length_replicate; lia).
      simpl. rewrite Hca. simpl.
      destruct (IH (S k) (set_worker k WExited p0)) as (p' & Hr & H1 & H2 & H3 & H4 & H5); try done.
      { cbn [set_worker workers]. rewrite Hw, insert_app_r_alt, length_replicate, Nat.sub_diag
          by (rewrite length_replicate; lia). by rewrite (replicate_S_end k), <- app_assoc. }
      exists p'. split; [exact Hr|]. rewrite H1. split; [f_equal; lia|done]. }
  destruct (Hexit m 0 p1) as (p' & Hr & H1 & H2 & H3 & H4 & H5); try done.
  exists p'. by split_and!.
Qed.

Lemma stop_abandons_tasks_witness :
  ∃ p p', run [ESubmit 7; ECount] (Start (NewPool 2 4)) = Some p ∧
    run (EStopCancel :: EStopClose :: (EExit <$> seq 0 2)) p = Some p' ∧ tasks p' = [7] ∧
    workers p' = [WExited; WExited].
Proof.
  destruct (run [ESubmit 7; ECount] (Start (NewPool 2 4))) as [p|] eqn:E; [|vm_compute in E; discriminate E].
  assert (crashed p = false ∧ closed p = false ∧ workers p = replicate 2 WIdle ∧ tasks p = [7]) as (H1 & H2 & H3 & H4)
    by (vm_compute in E; injection E as <-; repeat split).
  destruct (stop_abandons_tasks 2 p H1 H2 H3) as (p' & Hr & Hw & Ht & _).
  exists p, p'. split; [reflexivity|]. split; [exact Hr|]. split; [by rewrite Ht|exact Hw].
Defined.
