(* ===== verification/TaskQueue.v ===== *)
(** * The unified task queue

    Models src/messaging/queue/queue.go: [Push] to the three sub-queues, the
    timer loop that feeds the worker pool, [executeTask] with its retry loop,
    [Cancel], the metrics and [Stop].  The worker pool is its task channel here
    (WorkerPool has its inside); a pool worker is a step that takes the first
    task and runs [Process].  What the user's processor returns on each attempt,
    and whether the task's context fires during a wait, are arguments. *)

From stdpp Require Import base tactics option list gmap strings numbers.
From Stdlib Require Import ZArith Lia.
From S2P Require Import Prelude Tasks PriorityQueue TimerQueue.
Open Scope go_scope.

(** ** Configuration *)

Record Config := mkConfig {
  Workers : Z; QueueSize : Z; TaskTimeout : Z; cfg_MaxRetries : Z; cfg_RetryDelay : Z; MaxPriority : Z;
  MetricsWindow : Z }.

Inductive config_error := BadWorkers | BadQueueSize | BadTaskTimeout | BadMaxRetries | BadRetryDelay.

Definition Validate (c : Config) : res config_error () :=
  if (Workers c <=? 0)%Z then Err BadWorkers
  else if (QueueSize c <=? 0)%Z then Err BadQueueSize
  else if (TaskTimeout c <=? 0)%Z then Err BadTaskTimeout
  else if (cfg_MaxRetries c <? 0)%Z then Err BadMaxRetries
  else if (cfg_RetryDelay c <=? 0)%Z then Err BadRetryDelay
  else Ok tt.

Definition sec : Z := 1000000000.

Definition DefaultConfig : Config := mkConfig 10 1000 (60 * sec) 3 (5 * sec) 10 (60 * sec).

(** [WithConfig]: an invalid configuration is ignored. *)
Definition WithConfig (cfg current : Config) : Config :=
  match Validate cfg with Ok _ => cfg | _ => current end.

(** ** Retryable errors *)

Definition contains (sub s : string) : bool := is_some_b (String.index 0 sub s).

Definition isRetryableError (err : option task_error) : bool :=
  match err with
  | None => false
  | Some ErrDeadlineExceeded | Some ErrTaskTimeout | Some ErrTemporaryFailure => true
  | Some (ErrOther wraps retryable net_temporary msg) =>
      if wraps then true
      else
        match retryable, net_temporary with
        | Some temporary, _ => temporary
        | None, Some temporary => temporary
        | None, None =>
            if contains "connection refused" msg then true
            else if contains "no such host" msg then false
            else contains "timeout" msg
        end
  | Some _ => false
  end.

(** ** The queue *)

Record Metrics := mkMetrics {
  m_EnqueueCount : Z; m_DequeueCount : Z; m_ProcessCount : Z; m_SuccessCount : Z; m_FailureCount : Z;
  m_RetryCount : Z; m_CancelCount : Z; m_QueueLength : Z; m_ActiveTasks : Z }.

(** [poolTasks] is the channel of the worker pool; [executed] records, newest
    first, the tasks whose processing has ended. *)
Record TaskQueue := mkQ {
  normalQueue : list task_ptr; normalClosed : bool; priorityQueue : PriorityQueue; timerQueue : TimerQueue;
  poolTasks : list task_ptr; poolClosed : bool; processing : gmap string task_ptr;
  ctxCanceled : bool; q_metrics : Metrics; executed : list task_ptr }.

Section Queue.
Context (config : Config).

Definition NewTaskQueue (now : Z) : TaskQueue :=
  mkQ [] false (NewPriorityQueue now (QueueSize config) (MaxPriority config)) (NewTimerQueue (QueueSize config))
    [] false ∅ false (mkMetrics 0 0 0 0 0 0 0 0 0) [].

Definition with_metrics (m : Metrics) (q : TaskQueue) : TaskQueue :=
  mkQ (normalQueue q) (normalClosed q) (priorityQueue q) (timerQueue q) (poolTasks q) (poolClosed q)
    (processing q) (ctxCanceled q) m (executed q).

Definition with_queues (nq : list task_ptr) (pq : PriorityQueue) (tq : TimerQueue) (q : TaskQueue) : TaskQueue :=
  mkQ nq (normalClosed q) pq tq (poolTasks q) (poolClosed q) (processing q) (ctxCanceled q) (q_metrics q)
    (executed q).

Definition add_counts (enq proc succ fail retry canc len act : Z) (m : Metrics) : Metrics :=
  mkMetrics (m_EnqueueCount m + enq) (m_DequeueCount m) (m_ProcessCount m + proc) (m_SuccessCount m + succ)
    (m_FailureCount m + fail) (m_RetryCount m + retry) (m_CancelCount m + canc) (m_QueueLength m + len)
    (m_ActiveTasks m + act).

(** What [Push] writes to the task before it is queued. *)
Definition prepare (ctx_canceled : bool) (t : QueuedTask) : QueuedTask :=
  mkTask (ID t) (Priority t) (Data t) (TriggerAt t) (RetryCount t)
    (if (MaxRetries t =? 0)%Z then cfg_MaxRetries config else MaxRetries t)
    (if (RetryDelay t =? 0)%Z then cfg_RetryDelay config else RetryDelay t)
    (LastRetryTime t) TaskStatusPending (LastError t) ctx_canceled.

Definition Push (now : Z) (task : option task_ptr) (h : task_heap) (q : TaskQueue)
    : res task_error () * task_heap * TaskQueue :=
  match task with
  | None => (Err ErrInvalidTask, h, q)
  | Some p =>
      match h !! p with
      | None => (Panic, h, q)
      | Some t =>
          let t1 := prepare (ctxCanceled q) t in
          let h1 := <[p := t1]> h in
          let q1 := with_metrics (add_counts 1 0 0 0 0 0 0 0 (q_metrics q)) q in
          let '(err, h2, q2) :=
            match TriggerAt t1 with
            | Some _ =>
                let '(err, h2, tq) := TimerQueue.Push now (Some p) h1 (timerQueue q1) in
                (err, h2, with_queues (normalQueue q1) (priorityQueue q1) tq q1)
            | None =>
                if (0 <? Priority t1)%Z then
                  let '(err, h2, pq) := PriorityQueue.Push (Some p) h1 (priorityQueue q1) in
                  (err, h2, with_queues (normalQueue q1) pq (timerQueue q1) q1)
                else if normalClosed q1 then (Panic, h1, q1)
                else if (Z.of_nat (length (normalQueue q1)) <? QueueSize config)%Z then
                  (Ok tt, h1, with_queues (normalQueue q1 ++ [p]) (priorityQueue q1) (timerQueue q1) q1)
                else (Err ErrQueueFull, h1, q1)
            end in
          match err with
          | Ok _ => (Ok tt, h2, with_metrics (add_counts 0 0 0 0 0 0 1 0 (q_metrics q2)) q2)
          | e => (e, h2, q2)
          end
      end
  end.

Fixpoint PushBatch (now : Z) (tasks : list (option task_ptr)) (h : task_heap) (q : TaskQueue)
    : list (res task_error ()) * task_heap * TaskQueue :=
  match tasks with
  | [] => ([], h, q)
  | t :: ts =>
      let '(e, h1, q1) := Push now t h q in
      let '(es, h2, q2) := PushBatch now ts h1 q1 in (e :: es, h2, q2)
  end.

(** [Cancel] of a task that is being processed. *)
Definition Cancel (taskID : string) (h : task_heap) (q : TaskQueue) : bool * task_heap * TaskQueue :=
  match processing q !! taskID with
  | Some p =>
      (true,
       alter (λ t, mkTask (ID t) (Priority t) (Data t) (TriggerAt t) (RetryCount t) (MaxRetries t) (RetryDelay t)
                     (LastRetryTime t) TaskStatusCanceled (LastError t) true) p h,
       with_metrics (add_counts 0 0 0 0 0 1 0 0 (q_metrics q)) q)
  | None => (false, h, q)
  end.

(** ** Execution *)

Section Execute.
Context (processor : nat → option task_error) (ctx_fires : nat → bool) (clock : nat → Z).

(** The task object after the wait before attempt [attempt]. *)
Definition note_retry (attempt : nat) (t : QueuedTask) : QueuedTask :=
  mkTask (ID t) (Priority t) (Data t) (TriggerAt t) (RetryCount t + 1) (MaxRetries t) (RetryDelay t)
    (Some (clock attempt)) TaskStatusRetrying (LastError t) (Canceled t).

(** The [for] loop of [processTaskWithRetry] from [attempt] on, with [fuel]
    attempts left: the error, the task object, the retries counted and the
    attempts made. *)
Fixpoint retryLoop (fuel attempt : nat) (lastErr : option task_error) (t : QueuedTask) (retries attempts : Z)
    : option task_error * QueuedTask * Z * Z :=
  match fuel with
  | O => (lastErr, t, retries, attempts)
  | S fuel =>
      if (0 <? attempt) && ctx_fires attempt then (Some ErrCanceled, t, retries, attempts)
      else
        let t1 := if 0 <? attempt then note_retry attempt t else t in
        let retries1 := if 0 <? attempt then (retries + 1)%Z else retries in
        match processor attempt with
        | None => (None, t1, retries1, attempts + 1)%Z
        | Some err =>
            if negb (isRetryableError (Some err)) then (Some err, t1, retries1, attempts + 1)%Z
            else retryLoop fuel (S attempt) (Some err) t1 retries1 (attempts + 1)%Z
        end
  end.

(** Attempts [0 .. MaxRetries]; none when [MaxRetries] is negative. *)
Definition processTaskWithRetry (t : QueuedTask) : option task_error * QueuedTask * Z * Z :=
  retryLoop (Z.to_nat (MaxRetries t + 1)) 0 None t 0 0.

Definition executeTask (p : task_ptr) (h : task_heap) (q : TaskQueue)
    : res task_error (option task_error) * task_heap * TaskQueue :=
  match h !! p with
  | None => (Panic, h, q)
  | Some t =>
      let '(err, t1, retries, _) := processTaskWithRetry (set_Status TaskStatusRunning t) in
      let t2 := match err with
                | Some e => set_Status TaskStatusFailed (set_LastError e t1)
                | None => set_Status TaskStatusCompleted t1
                end in
      let m := add_counts 0 1 (if is_some_b err then 0 else 1) (if is_some_b err then 1 else 0) retries 0 0 0
                 (q_metrics q) in
      (Ok err, <[p := t2]> h,
       mkQ (normalQueue q) (normalClosed q) (priorityQueue q) (timerQueue q) (poolTasks q) (poolClosed q)
         (delete (ID t) (processing q)) (ctxCanceled q) m (p :: executed q))
  end.

End Execute.

(** ** Background loops *)

(** [workerPool.Submit]: full channel or closed channel. *)
Definition Submit (p : task_ptr) (q : TaskQueue) : res task_error () * TaskQueue :=
  if poolClosed q then (Panic, q)
  else if (Z.of_nat (length (poolTasks q)) <? QueueSize config)%Z then
    (Ok tt,
     mkQ (normalQueue q) (normalClosed q) (priorityQueue q) (timerQueue q) (poolTasks q ++ [p]) (poolClosed q)
       (processing q) (ctxCanceled q) (q_metrics q) (executed q))
  else (Err ErrWorkerQueueFull, q).

Fixpoint submitAll (due : list task_ptr) (h : task_heap) (q : TaskQueue) : res task_error () * task_heap * TaskQueue :=
  match due with
  | [] => (Ok tt, h, q)
  | p :: due' =>
      match Submit p q with
      | (Ok _, q1) => submitAll due' h q1
      | (Err e, q1) =>
          submitAll due' (alter (λ t, set_LastError e (set_Status TaskStatusFailed t)) p h)
            (with_metrics (add_counts 0 0 0 1 0 0 0 0 (q_metrics q1)) q1)
      | (r, q1) => (r, h, q1)
      end
  end.

(** One tick of [processTimers]. *)
Definition timerTick (now : Z) (h : task_heap) (q : TaskQueue) : res task_error () * task_heap * TaskQueue :=
  match DueTasks now h (timerQueue q) with
  | Ok (due, tq) => submitAll due h (with_queues (normalQueue q) (priorityQueue q) tq q)
  | Err e => (Err e, h, q)
  | Panic => (Panic, h, q)
  | NoFuel => (NoFuel, h, q)
  end.

(** One tick of [collectMetrics]. *)
Definition metricsTick (q : TaskQueue) : TaskQueue :=
  let m := q_metrics q in
  let len := (Z.of_nat (length (normalQueue q)) + PriorityQueue.Len (priorityQueue q) +
              Z.of_nat (TimerQueue.Len (timerQueue q)))%Z in
  with_metrics
    (mkMetrics (m_EnqueueCount m) (m_DequeueCount m) (m_ProcessCount m) (m_SuccessCount m) (m_FailureCount m)
       (m_RetryCount m) (m_CancelCount m) len (m_ActiveTasks m)) q.

(** [Start] launches the pool, the timer loop and the metrics loop;
    [time.NewTicker] panics on a period that is not positive. *)
Definition Start (q : TaskQueue) : res task_error TaskQueue :=
  if (MetricsWindow config <=? 0)%Z then Panic else Ok q.

Definition Stop (q : TaskQueue) : res task_error TaskQueue :=
  if normalClosed q || poolClosed q then Panic
  else
    Ok (mkQ (normalQueue q) true (priorityQueue q) (timerQueue q) (poolTasks q) true (processing q) true
          (q_metrics q) (executed q)).

(** ** Runs: everything that ever touches the queue *)

Inductive qstep : task_heap * TaskQueue → task_heap * TaskQueue → Prop :=
| q_push now p t h q r h' q' :
    h !! p = None → Push now (Some p) (<[p := t]> h) q = (r, h', q') → r ≠ Panic → qstep (h, q) (h', q')
| q_cancel id h q r h' q' : Cancel id h q = (r, h', q') → qstep (h, q) (h', q')
| q_timers now h q r h' q' :
    ctxCanceled q = false → timerTick now h q = (r, h', q') → r ≠ Panic → qstep (h, q) (h', q')
| q_collect h q : ctxCanceled q = false → qstep (h, q) (h, metricsTick q)
| q_receive p rest t h q :
    poolTasks q = p :: rest → h !! p = Some t →
    qstep (h, q)
      (h, mkQ (normalQueue q) (normalClosed q) (priorityQueue q) (timerQueue q) rest (poolClosed q)
            (<[ID t := p]> (processing q)) (ctxCanceled q) (q_metrics q) (executed q))
| q_execute processor fires clock p t h q r h' q' :
    processing q !! ID t = Some p → h !! p = Some t →
    executeTask processor fires clock p h q = (r, h', q') → qstep (h, q) (h', q')
| q_stop h q q' : Stop q = Ok q' → qstep (h, q) (h, q').

Inductive qreach (now : Z) : task_heap * TaskQueue → Prop :=
| qr_new : qreach now (∅, NewTaskQueue now)
| qr_step s s' : qreach now s → qstep s s' → qreach now s'.

End Queue.

(** ** The retry loop *)

Lemma retryLoop_spec processor fires clock fuel a lastErr t retries attempts :
  0 < fuel →
  ∃ k, a ≤ k < a + fuel ∧ (∀ j, a ≤ j < k → ∃ e, processor j = Some e ∧ isRetryableError (Some e) = true) ∧
    let '(err, t', retries', attempts') := retryLoop processor fires clock fuel a lastErr t retries attempts in
    ID t' = ID t ∧ TriggerAt t' = TriggerAt t ∧ MaxRetries t' = MaxRetries t ∧
    ((0 < k ∧ fires k = true ∧ err = Some ErrCanceled ∧ (attempts' = attempts + Z.of_nat (k - a))%Z ∧
      (retries' = retries + Z.of_nat (k - a) - if decide (a = 0%nat ∧ (0 < k)%nat) then 1 else 0)%Z) ∨
     (err = processor k ∧ (attempts' = attempts + Z.of_nat (k - a) + 1)%Z ∧
      (retries' = retries + Z.of_nat (k - a) + if decide (a = 0%nat) then 0 else 1)%Z ∧
      (k = a + fuel - 1 ∨ isRetryableError (processor k) = false))).
Proof.
  revert a lastErr t retries attempts. induction fuel as [|fuel IH]; intros a lastErr t retries attempts Hf; [lia|].
  cbn [retryLoop]. destruct ((0 <? a) && fires a) eqn:Efire.
  { apply andb_true_iff in Efire as [Ha Hfa]. apply Nat.ltb_lt in Ha. exists a.
    split; [lia|]. split; [lia|]. do 3 (split; [done|]). left.
    rewrite decide_False by lia. split_and!; try done; lia. }
  set (t1 := if 0 <? a then note_retry clock a t else t).
  set (r1 := (if 0 <? a then (retries + 1)%Z else retries)).
  assert (ID t1 = ID t ∧ TriggerAt t1 = TriggerAt t ∧ MaxRetries t1 = MaxRetries t) as (Hid & Htr & Hmr)
    by (unfold t1; by destruct (0 <? a)).
  assert (r1 = (retries + if decide (a = 0%nat) then 0 else 1)%Z) as Hr1.
  { unfold r1. destruct a; simpl; lia. }
  clearbody r1. destruct (processor a) as [err|] eqn:Ep.
  2:{ exists a. split; [lia|]. split; [lia|]. do 3 (split; [done|]). right.
      rewrite Ep, Nat.sub_diag. split_and!; try done; try lia. by right. }
  destruct (isRetryableError (Some err)) eqn:Er; simpl.
  2:{ exists a. split; [lia|]. split; [lia|]. do 3 (split; [done|]). right.
      rewrite Ep, Nat.sub_diag. split_and!; try done; try lia. by right. }
  destruct fuel as [|fuel].
  { simpl. exists a. split; [lia|]. split; [lia|]. do 3 (split; [done|]). right.
    rewrite Ep, Nat.sub_diag. split_and!; try done; try lia. }
  destruct (IH (S a) (Some err) t1 r1 (attempts + 1)%Z ltac:(lia)) as (k & Hk & Hall & Hres).
  exists k. split; [lia|]. split.
  { intros j Hj. destruct (decide (j = a)) as [->|]; [eauto|]. apply Hall. lia. }
  destruct (retryLoop _ _ _ _ _ _ _ _ _) as [[[err' t'] retries'] attempts'].
  destruct Hres as (H1 & H2 & H3 & Hcase). split_and!; try congruence.
  destruct Hcase as [(Hk0 & Hfire & -> & -> & ->)|(-> & -> & -> & Hend)].
  - left. split_and!; try done; [lia|]. rewrite Hr1. rewrite (decide_False (P := S a = 0 ∧ _)) by lia.
    destruct (decide (a = 0)); [rewrite decide_True by lia|rewrite decide_False by lia]; lia.
  - right. split_and!; try done; [lia| |by destruct Hend; [left; lia|right]].
    rewrite Hr1, (decide_False (P := S a = 0)) by lia. destruct (decide (a = 0)); lia.
Qed.

(** ** What changes in the task heap *)

(** Tasks stay where they are and keep their ID and trigger time. *)
Definition evolves (h h' : task_heap) : Prop :=
  ∀ p t, h !! p = Some t → ∃ t', h' !! p = Some t' ∧ ID t' = ID t ∧ TriggerAt t' = TriggerAt t.

#[export] Instance evolves_preorder : PreOrder evolves.
Proof.
  split; [intros h p t Ht; eauto|]. intros h1 h2 h3 H12 H23 p t Ht.
  destruct (H12 p t Ht) as (t2 & Ht2 & Hi2 & Ha2). destruct (H23 p t2 Ht2) as (t3 & Ht3 & Hi3 & Ha3).
  exists t3. split_and!; congruence.
Qed.

Lemma evolves_insert h p t t' :
  h !! p = Some t → ID t' = ID t → TriggerAt t' = TriggerAt t → evolves h (<[p := t']> h).
Proof.
  intros Ht Hid Hat q u Hu. destruct (decide (p = q)) as [->|Hn].
  - exists t'. rewrite lookup_insert_eq. simplify_eq. done.
  - exists u. by rewrite lookup_insert_ne.
Qed.

Lemma evolves_fresh h p t : h !! p = None → evolves h (<[p := t]> h).
Proof.
  intros Hn q u Hu. exists u. rewrite lookup_insert_ne; [done|]. intros ->. congruence.
Qed.

Lemma evolves_alter h p f : (∀ t, ID (f t) = ID t ∧ TriggerAt (f t) = TriggerAt t) → evolves h (alter f p h).
Proof.
  intros Hf q u Hu. destruct (decide (p = q)) as [->|Hn].
  - exists (f u). rewrite lookup_alter_eq, Hu. split; [done|apply Hf].
  - exists u. by rewrite lookup_alter_ne.
Qed.

Lemma queued_evolves h h' tq ts : evolves h h' → queued h tq ts → queued h' tq ts.
Proof.
  intros He [H1 H2 H3 H4 H5 H6].
  assert (∀ q, q ∈ ts → trigger h' q = trigger h q ∧ TimerQueue.id_of h' q = TimerQueue.id_of h q) as Hsame.
  { intros q Hq. destruct (H3 q Hq) as (t & Ht & _ & _). destruct (He q t Ht) as (t' & Ht' & Hid & Hat).
    unfold trigger, TimerQueue.id_of. rewrite Ht, Ht', Hid, Hat. done. }
  constructor; try done.
  - eapply is_heap_ext; [|exact H2]. intros q Hq. symmetry. apply Hsame. by rewrite <- H1.
  - intros q Hq. destruct (H3 q Hq) as (t & Ht & Hid & Hat). destruct (He q t Ht) as (t' & Ht' & Hid' & Hat').
    exists t'. by rewrite Hid', Hat'.
  - replace (TimerQueue.id_of h' <$> ts) with (TimerQueue.id_of h <$> ts); [done|].
    apply list_fmap_ext. intros i q Hq. symmetry. apply Hsame. by eapply list_elem_of_lookup_2.
  - intros id q. rewrite H5. split; intros [Hq <-]; split; try done; [|symmetry]; by apply Hsame.
Qed.

(** ** Which tasks can reach a worker *)

Definition timed (h : task_heap) (p : task_ptr) : Prop := ∃ t, h !! p = Some t ∧ TriggerAt t ≠ None.

Lemma timed_evolves h h' p : evolves h h' → timed h p → timed h' p.
Proof. intros He (t & Ht & Hat). destruct (He p t Ht) as (t' & Ht' & _ & Hat'). exists t'. by rewrite Hat'. Qed.

(** The timer queue is well formed, and only tasks with a trigger time are with
    the pool, in processing or executed. *)
Record queue_inv (h : task_heap) (q : TaskQueue) : Prop := {
  i_timer : queued h (timerQueue q) (items (timerQueue q));
  i_pool : ∀ p, p ∈ poolTasks q → timed h p;
  i_processing : ∀ id p, processing q !! id = Some p → timed h p;
  i_executed : ∀ p, p ∈ executed q → timed h p;
  i_dequeue : m_DequeueCount (q_metrics q) = 0%Z }.

Lemma inv_evolves h h' q : evolves h h' → queue_inv h q → queue_inv h' q.
Proof.
  intros He [H1 H2 H3 H4 H5]. constructor; try done; eauto using queued_evolves, timed_evolves.
Qed.

Lemma inv_queues h q nq pq tq :
  queue_inv h q → queued h tq (items tq) → queue_inv h (with_queues nq pq tq q).
Proof. intros [H1 H2 H3 H4 H5] Hq. by constructor. Qed.

Lemma inv_counts h q a b c d e f g i :
  queue_inv h q → queue_inv h (with_metrics (add_counts a b c d e f g i (q_metrics q)) q).
Proof. intros [H1 H2 H3 H4 H5]. by constructor. Qed.

Lemma pq_push_evolves p h pq r h' pq' :
  PriorityQueue.Push (Some p) h pq = (r, h', pq') → evolves h h' ∧ PriorityQueue.lookup_id pq ⊆ PriorityQueue.lookup_id pq'.
Proof.
  unfold PriorityQueue.Push. destruct (h !! p) as [t|] eqn:Ht; [|by intros; simplify_eq].
  destruct (_ <=? _)%Z; [by intros; simplify_eq|].
  destruct (PriorityQueue.lookup_id pq !! ID t) as [x|] eqn:Hlk; simpl; [by intros; simplify_eq|].
  destruct (level_at _ _) as [[i l]|]; intros; simplify_eq; (split; [by eapply evolves_insert|]); [|done].
  simpl. by apply insert_subseteq.
Qed.

Lemma tq_push_ok now p t h tq r h' tq' :
  queued h tq (items tq) → h !! p = Some t → TimerQueue.Push now (Some p) h tq = (r, h', tq') →
  evolves h h' ∧ queued h' tq' (items tq').
Proof.
  intros H Ht HP. pose proof (TimerQueue.Push_correct now p t h tq _ H Ht) as HC. rewrite HP in HC.
  destruct (TriggerAt t); [|by destruct HC as (_ & -> & ?%queued_items)].
  destruct (String.eqb _ _); [by destruct HC as (_ & -> & ?%queued_items)|].
  destruct (_ <=? _)%Z; [by destruct HC as (_ & -> & ?%queued_items)|].
  case_bool_decide; [by destruct HC as (_ & -> & ?%queued_items)|].
  destruct HC as (_ & -> & Hq%queued_items). split; [by apply evolves_alter|done].
Qed.

Lemma push_inv config now p t h q r h' q' :
  queue_inv h q → h !! p = Some t → Push config now (Some p) h q = (r, h', q') →
  queue_inv h' q' ∧ evolves h h' ∧ normalQueue q `prefix_of` normalQueue q' ∧
  PriorityQueue.lookup_id (priorityQueue q) ⊆ PriorityQueue.lookup_id (priorityQueue q').
Proof.
  intros H Ht HP. unfold Push in HP. rewrite Ht in HP.
  set (t1 := prepare config (ctxCanceled q) t) in HP. set (h1 := <[p := t1]> h) in HP.
  set (q1 := with_metrics (add_counts 1 0 0 0 0 0 0 0 (q_metrics q)) q) in HP.
  assert (evolves h h1) as He1 by (by eapply evolves_insert).
  assert (queue_inv h1 q1) as H1 by (apply inv_counts; by eapply inv_evolves).
  assert (h1 !! p = Some t1) as Hp by apply lookup_insert_eq.
  assert (∀ err h2 q2, queue_inv h2 q2 ∧ evolves h1 h2 ∧ normalQueue q `prefix_of` normalQueue q2 ∧
      PriorityQueue.lookup_id (priorityQueue q) ⊆ PriorityQueue.lookup_id (priorityQueue q2) →
    match err with
    | Ok _ => (Ok tt, h2, with_metrics (add_counts 0 0 0 0 0 0 1 0 (q_metrics q2)) q2)
    | e => (e, h2, q2)
    end = (r, h', q') →
    queue_inv h' q' ∧ evolves h h' ∧ normalQueue q `prefix_of` normalQueue q' ∧
    PriorityQueue.lookup_id (priorityQueue q) ⊆ PriorityQueue.lookup_id (priorityQueue q')) as Hfin.
  { intros err h2 q2 (Hi & He & Hn & Hl) Heq. destruct err; simplify_eq;
      (split_and!; [try by apply inv_counts|by etransitivity|done|done]); done. }
  destruct (TriggerAt t1) eqn:Hat.
  - destruct (TimerQueue.Push now (Some p) h1 (timerQueue q1)) as [[err h2] tq] eqn:E.
    destruct (tq_push_ok _ _ _ _ _ _ _ _ (i_timer _ _ H1) Hp E) as [He2 Hq2].
    eapply Hfin; [|exact HP]. split_and!; try done. apply inv_queues; [by eapply inv_evolves|done].
  - destruct (0 <? Priority t1)%Z.
    + destruct (PriorityQueue.Push (Some p) h1 (priorityQueue q1)) as [[err h2] pq] eqn:E.
      destruct (pq_push_evolves _ _ _ _ _ _ E) as [He2 Hl].
      eapply Hfin; [|exact HP]. split_and!; try done. apply inv_queues; [by eapply inv_evolves|].
      eapply queued_evolves; [exact He2|apply (i_timer _ _ H1)].
    + destruct (normalClosed q1); [eapply (Hfin Panic); [|exact HP]; by split_and!|].
      destruct (_ <? _)%Z; [eapply (Hfin (Ok tt))|eapply (Hfin (Err _))]; try exact HP; split_and!; try done.
      * apply inv_queues; [done|apply (i_timer _ _ H1)].
      * simpl. by apply prefix_app_r.
Qed.

Lemma submitAll_inv config due h q r h' q' :
  queue_inv h q → (∀ p, p ∈ due → timed h p) → submitAll config due h q = (r, h', q') →
  queue_inv h' q' ∧ normalQueue q' = normalQueue q ∧ priorityQueue q' = priorityQueue q.
Proof.
  revert h q. induction due as [|p due IH]; intros h q H Hdue Hs; simpl in Hs; [by simplify_eq|].
  unfold Submit in Hs. destruct (poolClosed q); [by simplify_eq|].
  destruct (_ <? _)%Z.
  - eapply IH in Hs as (Hi & Hn & Hp); [split_and!; [exact Hi|by rewrite Hn|by rewrite Hp]| |].
    + destruct H as [H1 H2 H3 H4 H5]. constructor; try done. simpl.
      intros q0 [Hq|Hq%list_elem_of_singleton]%elem_of_app; [by apply H2|]. subst. apply Hdue. left.
    + intros q0 Hq. apply Hdue. by right.
  - assert (evolves h (alter (λ t, set_LastError ErrWorkerQueueFull (set_Status TaskStatusFailed t)) p h)) as He
      by by apply evolves_alter.
    eapply IH in Hs as (Hi & Hn & Hp); [split_and!; [exact Hi|by rewrite Hn|by rewrite Hp]| |].
    + apply inv_counts. by eapply inv_evolves.
    + intros q0 Hq. eapply timed_evolves; [exact He|]. apply Hdue. by right.
Qed.

Lemma execute_inv processor fires clock p h q r h' q' :
  queue_inv h q → timed h p → executeTask processor fires clock p h q = (r, h', q') →
  queue_inv h' q' ∧ normalQueue q' = normalQueue q ∧ priorityQueue q' = priorityQueue q.
Proof.
  intros H Hp Hs. unfold executeTask in Hs. destruct Hp as (t & Ht & Hat). rewrite Ht in Hs.
  destruct (processTaskWithRetry processor fires clock (set_Status TaskStatusRunning t)) as [[[err t1] retries] n] eqn:E.
  assert (ID t1 = ID t ∧ TriggerAt t1 = TriggerAt t) as [Hid1 Hat1].
  { unfold processTaskWithRetry in E. destruct (Z.to_nat _) as [|fuel]; [by simpl in E; simplify_eq|].
    destruct (retryLoop_spec processor fires clock (S fuel) 0 None (set_Status TaskStatusRunning t) 0 0 ltac:(lia))
      as (k & _ & _ & Hr). rewrite E in Hr. by destruct Hr as (-> & -> & _). }
  simplify_eq. set (t2 := match err with Some e => _ | None => _ end).
  assert (evolves h (<[p := t2]> h)) as He.
  { eapply evolves_insert; [done| |]; unfold t2; by destruct err. }
  split; [|done]. destruct (inv_evolves _ _ _ He H) as [H1 H2 H3 H4 H5]. constructor; simpl; try done.
  - intros id q0 Hq. apply lookup_delete_Some in Hq as [_ Hq]. by apply (H3 id).
  - intros q0 [->|Hq]%elem_of_cons; [|by apply H4]. eapply timed_evolves; [exact He|]. by exists t.
Qed.

Lemma qstep_inv config s s' :
  qstep config s s' → queue_inv (fst s) (snd s) →
  queue_inv (fst s') (snd s') ∧ normalQueue (snd s) `prefix_of` normalQueue (snd s') ∧
  PriorityQueue.lookup_id (priorityQueue (snd s)) ⊆ PriorityQueue.lookup_id (priorityQueue (snd s')).
Proof.
  destruct 1 as [now p t h q r h' q' Hn HP _|id h q r h' q' HC|now h q r h' q' _ HT _|h q _|p rest t h q Hpool Ht
    |processor fires clock p t h q r h' q' Hp Ht HE|h q q' HS]; cbn [fst snd]; intros H.
  - assert (queue_inv (<[p := t]> h) q) as H1 by (eapply inv_evolves; [by apply evolves_fresh|done]).
    destruct (push_inv _ _ _ t _ _ _ _ _ H1 (lookup_insert_eq _ _ _) HP) as (Hi & _ & Hpre & Hl). by split_and!.
  - unfold Cancel in HC. destruct (processing q !! id) as [p|]; simplify_eq; [|by split_and!].
    split_and!; try done. apply inv_counts. eapply inv_evolves; [|exact H]. by apply evolves_alter.
  - unfold timerTick in HT. destruct (DueTasks_correct now h _ (i_timer _ _ H)) as (due & tq & Hd & Hq & HPd & _).
    rewrite Hd in HT. eapply submitAll_inv in HT as (Hi & Hn & Hp).
    + split_and!; [done|by rewrite Hn|by rewrite Hp].
    + apply inv_queues; [done|by eapply queued_items].
    + intros p Hin. rewrite HPd in Hin. apply list_elem_of_filter in Hin as [_ Hin].
      destruct (q_task _ _ _ (i_timer _ _ H) p Hin) as (t & Ht & _ & Hat). by exists t.
  - destruct H as [H1 H2 H3 H4 H5]. by split_and!.
  - destruct H as [H1 H2 H3 H4 H5]. split_and!; try done. constructor; simpl; try done.
    + intros p' Hp'. apply H2. rewrite Hpool. by right.
    + intros id p' [[<- <-]|[_ Hp']]%lookup_insert_Some; [|by apply (H3 id)]. apply H2. rewrite Hpool. left.
  - destruct (execute_inv _ _ _ _ _ _ _ _ _ H (i_processing _ _ H _ _ Hp) HE) as (Hi & Hn & Hpq).
    split_and!; [done|by rewrite Hn|by rewrite Hpq].
  - unfold Stop in HS. destruct (_ || _); simplify_eq. destruct H as [H1 H2 H3 H4 H5]. by split_and!.
Qed.

Lemma qreach_inv config now s : qreach config now s → queue_inv (fst s) (snd s).
Proof.
  induction 1 as [|s s' _ IH Hs]; [|by apply (qstep_inv _ _ _ Hs)].
  constructor; simpl; try done; try (by intros p Hp%not_elem_of_nil).
  apply queued_empty; try done. simpl. destruct (_ <=? _)%Z eqn:E; [done|]. apply Z.leb_gt in E. lia.
Qed.

(** ** Properties *)

(** The retry loop makes exactly the attempts it should.  With a
    non-negative [MaxRetries], the processor is called on attempts 0, 1, 2, ...
    as long as each fails with a retryable error: the loop ends at the first
    attempt that succeeds or fails with another error, or at attempt
    [MaxRetries], and returns that attempt's outcome; or it ends before an
    attempt because the task's context fired during the wait, and returns
    [context.Canceled].  [RetryCount] grows by the number of retries made.  With a
    negative [MaxRetries] the processor is never called and the result is nil. *)
Theorem retry_loop_exact (processor : nat → option task_error) (fires : nat → bool) (clock : nat → Z)
    (t : QueuedTask) :
  let '(err, t', retries, attempts) := processTaskWithRetry processor fires clock t in
  if (MaxRetries t <? 0)%Z then err = None ∧ t' = t ∧ attempts = 0%Z
  else
    ∃ k, (Z.of_nat k ≤ MaxRetries t)%Z ∧
      (∀ j, j < k → ∃ e, processor j = Some e ∧ isRetryableError (Some e) = true) ∧
      ((0 < k ∧ fires k = true ∧ err = Some ErrCanceled ∧
        (attempts = Z.of_nat k ∧ retries = Z.of_nat k - 1)%Z) ∨
       (err = processor k ∧ (attempts = Z.of_nat k + 1 ∧ retries = Z.of_nat k)%Z) ∧
       (Z.of_nat k = MaxRetries t ∨ isRetryableError (processor k) = false)).
Proof.
  unfold processTaskWithRetry. destruct (MaxRetries t <? 0)%Z eqn:E.
  - apply Z.ltb_lt in E. by replace (Z.to_nat (MaxRetries t + 1)) with 0 by lia.
  - apply Z.ltb_ge in E.
    destruct (retryLoop_spec processor fires clock (Z.to_nat (MaxRetries t + 1)) 0 None t 0 0 ltac:(lia))
      as (k & Hk & Hall & Hr).
    destruct (retryLoop _ _ _ _ _ _ _ _ _) as [[[err t'] retries] attempts].
    destruct Hr as (_ & _ & _ & Hcase). exists k. split; [lia|]. split; [intros j Hj; apply Hall; lia|].
    rewrite Nat.sub_0_r in Hcase. destruct Hcase as [(Hk0 & Hfire & -> & -> & ->)|(-> & -> & -> & Hend)].
    + left. rewrite decide_True by lia. split_and!; try done; lia.
    + right. rewrite decide_True by done. split; [split_and!; try done; lia|]. destruct Hend; [left; lia|by right].
Qed.

(** Only tasks with a trigger time are ever executed.  In every state the
    queue can reach, each executed task had a trigger time and the dequeue count
    is zero; and no step of the queue, its loops or its workers ever takes a task
    out of the normal queue or the priority queue, so a task pushed without a
    trigger time waits forever: [Start] launches no consumer for those queues. *)
Theorem untimed_tasks_starve (config : Config) (now : Z) (h : task_heap) (q : TaskQueue) :
  qreach config now (h, q) →
  (∀ p, p ∈ executed q → ∃ t, h !! p = Some t ∧ TriggerAt t ≠ None) ∧
  m_DequeueCount (q_metrics q) = 0%Z ∧
  (∀ h' q', qstep config (h, q) (h', q') →
     normalQueue q `prefix_of` normalQueue q' ∧
     PriorityQueue.lookup_id (priorityQueue q) ⊆ PriorityQueue.lookup_id (priorityQueue q')).
Proof.
  intros H%qreach_inv. split_and!; [apply (i_executed _ _ H)|apply (i_dequeue _ _ H)|].
  intros h' q' Hs. apply (qstep_inv _ _ _ Hs H).
Qed.

Lemma untimed_tasks_starve_witness :
  ∃ h q, qreach DefaultConfig 0 (h, q) ∧ normalQueue q = [1] ∧ m_DequeueCount (q_metrics q) = 0%Z ∧
    ∀ h' q', qstep DefaultConfig (h, q) (h', q') → 1 ∈ normalQueue q'.
Proof.
  destruct (Push DefaultConfig 5 (Some 1) (<[1 := new_task "job" 0 None]> ∅) (NewTaskQueue DefaultConfig 0))
    as [[r h] q] eqn:E.
  assert (r = Ok tt ∧ normalQueue q = [1]) as [Hr Hn]
    by (vm_compute in E; injection E as <- <- <-; split; reflexivity).
  assert (qreach DefaultConfig 0 (h, q)) as H.
  { eapply qr_step; [apply qr_new|]. eapply (q_push _ 5 1 (new_task "job" 0 None)); [reflexivity|exact E|].
    rewrite Hr. discriminate. }
  destruct (untimed_tasks_starve _ _ _ _ H) as (_ & Hd & Hstep).
  exists h, q. split; [exact H|]. split; [exact Hn|]. split; [exact Hd|].
  intros h' q' Hs. destruct (Hstep h' q' Hs) as [[l Hl] _]. rewrite Hl, Hn. left.
Defined.

(** The configuration printed in the usage comment of [NewTaskQueue] cannot
    be started.  Any valid configuration without a positive [MetricsWindow]
    (the usage comment sets none) passes [Validate] and is installed by
    [WithConfig], and then [Start] panics: [collectMetrics] creates a ticker with
    that period. *)
Theorem start_needs_metrics_window (config : Config) (q : TaskQueue) :
  Validate config = Ok tt → (MetricsWindow config ≤ 0)%Z →
  WithConfig config DefaultConfig = config ∧ Start config q = Panic.
Proof.
  intros Hv Hw. unfold WithConfig, Start. rewrite Hv. split; [done|].
  by rewrite (proj2 (Z.leb_le _ _)).
Qed.

Lemma start_needs_metrics_window_witness :
  let config := mkConfig 10 1000 (60 * sec) 3 (5 * sec) 5 0 in
  Validate config = Ok tt ∧ Start config (NewTaskQueue config 0) = Panic.
Proof.
  intros config. split; [reflexivity|].
  apply (start_needs_metrics_window config (NewTaskQueue config 0)); [reflexivity|vm_compute; discriminate].
Defined.
