(* ===== verification/DepGraph.v ===== *)
(** * Dependency graphs

    The adjacency maps the extension registry and the extension manager work
    on (src/extension/registry/registry.go, src/extension/manager/utils.go):
    edges, acyclicity, and lists in which every node comes after its
    dependencies.  The algorithms of the two files are in [Registry] and
    [InitOrder]; this file has what both use. *)

From stdpp Require Import base tactics option list gmap strings relations.
From S2P Require Import Prelude.

(** [map[string][]string]; [graph[n]] of an absent key is the empty slice. *)
Abbreviation graph := (gmap string (list string)).
Definition deps_of (g : graph) (n : string) : list string := default [] (g !! n).

(** [n] depends on [d]. *)
Definition edge (g : graph) (n d : string) : Prop := d ∈ deps_of g n.

Definition acyclic (g : graph) : Prop := ∀ n, ¬ tc (edge g) n n.

(** [topo g L]: the nodes of [L] are distinct and every node's dependencies are
    further down the list (a finishing order of a depth-first search, or an
    initialisation order read backwards). *)
Inductive topo (g : graph) : list string → Prop :=
| topo_nil : topo g []
| topo_cons n L : n ∉ L → (∀ d, edge g n d → d ∈ L) → topo g L → topo g (n :: L).

Lemma edge_dom g n d : edge g n d → n ∈ dom g.
Proof. unfold edge, deps_of. intros H. apply elem_of_dom. destruct (g !! n) as [ds|]; simpl in H; [by exists ds|by apply not_elem_of_nil in H]. Qed.

Lemma topo_closed g L n d : topo g L → n ∈ L → edge g n d → d ∈ L.
Proof.
  induction 1 as [|m L Hm Hd HL IH]; intros Hn He; [by apply not_elem_of_nil in Hn|].
  apply elem_of_cons in Hn as [-> |Hn]; right; auto.
Qed.

Lemma topo_tc_closed g L n d : topo g L → n ∈ L → tc (edge g) n d → d ∈ L.
Proof. intros HL Hn Ht. revert Hn. induction Ht as [n d He|n m d He Ht IH]; intros Hn; eauto using topo_closed. Qed.

Lemma topo_acyclic_in g L n : topo g L → n ∈ L → ¬ tc (edge g) n n.
Proof.
  induction 1 as [|m L Hm Hd HL IH]; intros Hn Ht; [by apply not_elem_of_nil in Hn|].
  apply elem_of_cons in Hn as [-> |Hn]; [|by apply IH].
  apply Hm. inversion Ht; subst; eauto using topo_tc_closed.
Qed.

(** A list in that order that has every key shows the graph acyclic. *)
Lemma topo_acyclic g L : topo g L → (∀ n, n ∈ dom g → n ∈ L) → acyclic g.
Proof.
  intros HL Hall n Ht. eapply (topo_acyclic_in g L n); [done| |done].
  apply Hall. inversion Ht; subst; eauto using edge_dom.
Qed.

Lemma topo_NoDup g L : topo g L → NoDup L.
Proof. induction 1; constructor; auto. Qed.

(** Of the nodes of such a list that satisfy a predicate, one has no dependency
    that satisfies it. *)
Lemma topo_minimal g L (P : string → Prop) `{!∀ n, Decision (P n)} :
  topo g L → (∃ n, n ∈ L ∧ P n) → ∃ n, n ∈ L ∧ P n ∧ ∀ d, edge g n d → ¬ P d.
Proof.
  induction 1 as [|m L Hm Hd HL IH]; intros (n & Hn & Hp); [by apply not_elem_of_nil in Hn|].
  destruct (decide (Exists P L)) as [Hex|Hno].
  - apply Exists_exists in Hex as (k & Hk & Hpk). destruct IH as (k' & ? & ? & ?); [eauto|].
    exists k'. split; [by right|done].
  - assert (∀ k, k ∈ L → ¬ P k) as Hno' by (intros k Hk Hpk; apply Hno, Exists_exists; eauto).
    apply elem_of_cons in Hn as [-> |Hn]; [|by apply Hno' in Hn].
    exists m. split; [left|]. split; [done|]. intros d He. apply Hno'. auto.
Qed.

(** Fewer dependencies keep a graph acyclic. *)
Definition subgraph (g' g : graph) : Prop := ∀ n d, edge g' n d → edge g n d.

#[global] Instance subgraph_preorder : PreOrder subgraph.
Proof. split; [by intros g n d|]. intros g1 g2 g3 H12 H23 n d He. auto. Qed.

Lemma tc_subgraph g g' n m : subgraph g' g → tc (edge g') n m → tc (edge g) n m.
Proof.
  intros Hs Ht. induction Ht as [n m He|n k m He Ht IH]; [by apply tc_once, Hs|]. eapply tc_l; [apply Hs; exact He|exact IH].
Qed.

Lemma acyclic_subgraph g g' : subgraph g' g → acyclic g → acyclic g'.
Proof. intros Hs Ha n Ht. by eapply Ha, tc_subgraph. Qed.

(** [graph[n] = those of graph[n] other than d]. *)
Definition drop_dep (d : string) (ds : list string) : list string := filter (λ x, x ≠ d) ds.
Definition remove_edge (g : graph) (n d : string) : graph := <[n := drop_dep d (deps_of g n)]> g.

Lemma edge_remove g n d x y : edge (remove_edge g n d) x y ↔ edge g x y ∧ ¬ (x = n ∧ y = d).
Proof.
  unfold edge, remove_edge, deps_of at 1. destruct (decide (x = n)) as [-> |Hx].
  - rewrite lookup_insert_eq. simpl. unfold drop_dep. rewrite list_elem_of_filter. tauto.
  - rewrite lookup_insert_ne by done. unfold deps_of. tauto.
Qed.

Lemma remove_edge_subgraph g n d : subgraph (remove_edge g n d) g.
Proof. intros x y He. by apply edge_remove in He as [He _]. Qed.
