(* ===== verification/Registry.v ===== *)
(** * The extension registry

    Models src/extension/registry/registry.go: the registry map, its
    registration and lookup functions, the depth-first search for circular
    dependencies and the resolution of the cycles it finds.  Go iterates over a
    map in an unspecified order and [sort.Slice] is not stable, so every order
    the result can depend on is an argument; [valid_orders] says which
    arguments are possible. *)

From stdpp Require Import base tactics option list gmap strings relations sorting.
From S2P Require Import Prelude DepGraph.

(** ** Registration *)

(** The methods of [ext.Interface] the registry calls. *)
Record Ext := mkExt { Name : string; Dependencies : list string }.
Record Entry := mkEntry { Instance : Ext; Group : string; WeakDependencies : list string }.
Abbreviation registry := (gmap string Entry).

Definition RegisterToGroup (e : Ext) (group : string) (r : registry) : registry :=
  <[Name e := mkEntry e group []]> r.
Definition Register (e : Ext) (r : registry) : registry := RegisterToGroup e "" r.
Definition RegisterToGroupWithWeakDeps (e : Ext) (group : string) (weak : list string) (r : registry) : registry :=
  <[Name e := mkEntry e group weak]> r.
Definition RegisterWithWeakDeps (e : Ext) (weak : list string) (r : registry) : registry :=
  RegisterToGroupWithWeakDeps e "" weak r.
Definition GetExtensions (r : registry) : registry := r.
Definition GetExtensionsByGroup (group : string) (r : registry) : registry :=
  filter (λ kv, Group kv.2 = group) r.
Definition Clear (r : registry) : registry := ∅.

(** ** [detectCircularDependencies] *)

(** The variables of the closure: [visited] (0 for an absent key, 1 while on
    the path, 2 when done), [path] and [cycles]. *)
Record dfs_state := mkDfs { visited : gmap string nat; path : list string; cycles : list string }.

Definition mark (st : dfs_state) (n : string) : nat := default 0 (visited st !! n).

Definition enter (n : string) (st : dfs_state) : dfs_state :=
  mkDfs (<[n := 1]> (visited st)) (path st ++ [n]) (cycles st).
Definition leave (n : string) (st : dfs_state) : dfs_state :=
  mkDfs (<[n := 2]> (visited st)) (take (length (path st) - 1) (path st)) (cycles st).
Definition cycle_msg (n d : string) : string := "Cycle detected: " +:+ n +:+ " -> " +:+ d.
Definition found (n d : string) (st : dfs_state) : dfs_state :=
  mkDfs (visited st) (path st) (cycles st ++ [cycle_msg n d]).

(** The loop over the dependencies of [node], [rec] being the search itself;
    [None]: out of fuel. *)
Fixpoint visitDeps (rec : string → dfs_state → option (bool * dfs_state)) (node : string) (ds : list string)
    (st : dfs_state) : option (bool * dfs_state) :=
  match ds with
  | [] => Some (false, leave node st)
  | d :: ds' =>
      if mark st d =? 0 then
        match rec d st with
        | None => None
        | Some (true, st') => Some (true, st')
        | Some (false, st') => visitDeps rec node ds' st'
        end
      else if mark st d =? 1 then Some (true, found node d st)
      else visitDeps rec node ds' st
  end.

Fixpoint dfs (fuel : nat) (g : graph) (node : string) (st : dfs_state) : option (bool * dfs_state) :=
  match fuel with
  | O => None
  | S f => visitDeps (dfs f g) node (deps_of g node) (enter node st)
  end.

Fixpoint detectLoop (fuel : nat) (g : graph) (nodes : list string) (st : dfs_state) : option (bool * list string) :=
  match nodes with
  | [] => Some (false, [])
  | n :: ns =>
      if mark st n =? 0 then
        match dfs fuel g n st with
        | None => None
        | Some (true, st') => Some (true, cycles st')
        | Some (false, st') => detectLoop fuel g ns st'
        end
      else detectLoop fuel g ns st
  end.

(** Every name in the graph, as a node or as a dependency: the recursion is
    never deeper than their number. *)
Definition nodes_of (g : graph) : gset string := dom g ∪ list_to_set (concat (map_to_list g).*2).

Definition detectCircularDependencies (order : list string) (g : graph) : option (bool * list string) :=
  detectLoop (size (nodes_of g)) g order (mkDfs ∅ [] []).

(** ** [resolveDependencyGraph] *)

(** The body of the two outer loops for one entry and one node. *)
Definition breakWeakDep (entry : Entry) (node dep : string) (g : graph) : graph :=
  if bool_decide (dep = Name (Instance entry)) && bool_decide (dep ∈ WeakDependencies entry)
  then remove_edge g node dep else g.

Definition coreModules : gset string := ∅.

Definition breakWeakNode (entry : Entry) (g : graph) (node : string) : graph :=
  if bool_decide (node ∈ coreModules) then g
  else foldl (λ g' dep, breakWeakDep entry node dep g') g (deps_of g node).

Definition breakWeak (reg : registry) (ext_order : list string) (node_order : string → list string)
    (g : graph) : graph :=
  foldl (λ g' e, match reg !! e with
                 | Some entry => foldl (breakWeakNode entry) g' (node_order e)
                 | None => g'
                 end) g ext_order.

(** The second phase: [nodes] is the slice of names and dependency counts. *)
Definition breakPair (a : string * nat) (g : graph) (b : string * nat) : graph :=
  if bool_decide (b.1 ∈ deps_of g a.1) && bool_decide (a.1 ∈ deps_of g b.1)
  then if a.2 <=? b.2 then remove_edge g b.1 a.1 else remove_edge g a.1 b.1
  else g.

Fixpoint breakPairs (nodes : list (string * nat)) (g : graph) : graph :=
  match nodes with
  | [] => g
  | a :: rest => breakPairs rest (foldl (breakPair a) g rest)
  end.

(** The orders: of the two cycle searches, of the two nested loops over the
    registry and the graph, and of the sorted slice. *)
Record orders := mkOrders {
  o_detect1 : list string; o_detect2 : list string;
  o_exts : list string; o_nodes : string → list string; o_sorted : list (string * nat) }.

Record valid_orders (o : orders) (reg : registry) (g : graph) : Prop := {
  vo_detect1 : o_detect1 o ≡ₚ elements (dom g);
  vo_detect2 : o_detect2 o ≡ₚ elements (dom g);
  vo_exts : o_exts o ≡ₚ elements (dom reg);
  vo_nodes e : o_nodes o e ≡ₚ elements (dom g);
  vo_sorted : o_sorted o ≡ₚ (λ n, (n, length (deps_of g n))) <$> elements (dom g);
  vo_le : StronglySorted (λ a b, a.2 ≤ b.2) (o_sorted o) }.

Definition resolveDependencyGraph (o : orders) (reg : registry) (g : graph) : option graph :=
  match detectCircularDependencies (o_detect1 o) g with
  | None => None
  | Some (false, _) => Some g
  | Some (true, _) =>
      let g1 := breakWeak reg (o_exts o) (o_nodes o) g in
      match detectCircularDependencies (o_detect2 o) g1 with
      | None => None
      | Some (false, _) => Some g1
      | Some (true, _) => Some (breakPairs (o_sorted o) g1)
      end
  end.

(** ** [GetExtensionsAndDependencies] *)

Definition all_deps (reg : registry) (e : Entry) : list string :=
  Dependencies (Instance e) ++ filter (λ d, is_Some (reg !! d)) (WeakDependencies e).
Definition dependencyGraph (reg : registry) : graph := all_deps reg <$> reg.

Definition GetExtensionsAndDependencies (o : orders) (reg : registry) : option (gmap string Ext * graph) :=
  match resolveDependencyGraph o reg (dependencyGraph reg) with
  | Some g => Some (Instance <$> reg, g)
  | None => None
  end.

(** ** The search is right *)

Section Dfs.
Context (g : graph).

Record dfs_inv (st : dfs_state) : Prop := {
  di_path n : mark st n = 1 ↔ n ∈ path st;
  di_nodup : NoDup (path st);
  di_done : ∃ L, topo g L ∧ ∀ n, mark st n = 2 ↔ n ∈ L;
  di_le n : mark st n ≤ 2;
  di_cycles : cycles st = [] }.

Definition whites (st : dfs_state) : gset string := filter (λ n, mark st n = 0) (nodes_of g).

(** A reported cycle: one message, naming an edge whose end leads back to its
    start. *)
Definition reported (cs : list string) : Prop :=
  ∃ n d, cs = [cycle_msg n d] ∧ edge g n d ∧ rtc (edge g) d n.

(** What a call of the search on [node] achieves. *)
Definition dfs_post (st : dfs_state) (node : string) (p : list string) (out : option (bool * dfs_state)) : Prop :=
  match out with
  | None => False
  | Some (true, st') => reported (cycles st')
  | Some (false, st') =>
      dfs_inv st' ∧ path st' = p ∧ mark st' node = 2 ∧
      ∀ n, n ≠ node → mark st n ≠ 0 → mark st' n = mark st n
  end.

Lemma mark_enter st n m : mark (enter n st) m = if decide (m = n) then 1 else mark st m.
Proof. unfold mark, enter. simpl. case_decide; subst; by rewrite ?lookup_insert_eq, ?lookup_insert_ne. Qed.

Lemma mark_leave st n m : mark (leave n st) m = if decide (m = n) then 2 else mark st m.
Proof. unfold mark, leave. simpl. case_decide; subst; by rewrite ?lookup_insert_eq, ?lookup_insert_ne. Qed.

Lemma nodes_of_edge n d : edge g n d → d ∈ nodes_of g.
Proof.
  intros He. unfold nodes_of. apply elem_of_union_r, elem_of_list_to_set.
  pose proof (edge_dom _ _ _ He) as [ds Hds]%elem_of_dom. unfold edge, deps_of in He. rewrite Hds in He.
  apply list_elem_of_In, in_concat. exists ds. split; [|by apply list_elem_of_In].
  apply list_elem_of_In. apply (list_elem_of_fmap_2 snd _ (n, ds)). by apply elem_of_map_to_list.
Qed.

Lemma whites_mono st st' : (∀ n, mark st n ≠ 0 → mark st' n ≠ 0) → size (whites st') ≤ size (whites st).
Proof.
  intros H. apply subseteq_size. intros n. unfold whites. rewrite !elem_of_filter. intros [Hm Hn]. split; [|done].
  destruct (decide (mark st n = 0)); [done|]. by apply H in n0.
Qed.

Lemma whites_enter st n : n ∈ nodes_of g → mark st n = 0 → size (whites (enter n st)) < size (whites st).
Proof.
  intros Hn Hm. apply subset_size. split.
  - intros k. unfold whites. rewrite !elem_of_filter, mark_enter. case_decide; [by intros []|done].
  - intros H. assert (n ∈ whites (enter n st)) as Hin by (apply H, elem_of_filter; done).
    apply elem_of_filter in Hin as [Hin _]. rewrite mark_enter, decide_True in Hin by done. done.
Qed.

Lemma enter_inv st n : dfs_inv st → mark st n = 0 → dfs_inv (enter n st).
Proof.
  intros [H1 H2 (L & HL & HLm) H4 H5] Hm.
  assert (n ∉ path st) by (rewrite <- H1; lia).
  constructor; [| | |intros m; rewrite mark_enter; case_decide; [lia|apply H4]|done].
  - intros m. rewrite mark_enter. simpl. rewrite elem_of_app, list_elem_of_singleton.
    case_decide; [by split; [right|]|]. rewrite H1. tauto.
  - simpl. apply list.NoDup_app. split; [done|]. split; [|apply NoDup_singleton].
    intros x Hx ->%list_elem_of_singleton. done.
  - exists L. split; [done|]. intros m. rewrite mark_enter. case_decide; [subst|apply HLm].
    split; [lia|]. rewrite <- HLm. lia.
Qed.

Lemma leave_inv st n p :
  dfs_inv st → path st = p ++ [n] → (∀ d, edge g n d → mark st d = 2) →
  dfs_inv (leave n st) ∧ path (leave n st) = p.
Proof.
  intros [H1 H2 (L & HL & HLm) H4 H5] Hp Hd.
  assert (path (leave n st) = p) as Hp'.
  { simpl. rewrite Hp, length_app. simpl. rewrite Nat.add_sub. apply take_app_length. }
  split; [|done]. rewrite Hp in H2. apply list.NoDup_app in H2 as (H2 & H2' & _).
  assert (mark st n = 1) as Hn by (apply H1; rewrite Hp; apply elem_of_app; right; by apply list_elem_of_singleton).
  constructor; [| | |intros m; rewrite mark_leave; case_decide; [lia|apply H4]|done].
  - intros m. rewrite mark_leave, Hp'. case_decide as Hmn.
    + subst. split; [lia|]. intros Hm. exfalso. apply (H2' n Hm). by apply list_elem_of_singleton.
    + rewrite H1, Hp, elem_of_app, list_elem_of_singleton. tauto.
  - by rewrite Hp'.
  - exists (n :: L). split.
    + constructor; [rewrite <- HLm; lia| |done]. intros d He. apply HLm. by apply Hd.
    + intros m. rewrite mark_leave, elem_of_cons. case_decide; [tauto|]. rewrite HLm. tauto.
Qed.

(** The contract of the recursive call, with fuel for [f] unvisited nodes. *)
Definition search_spec (f : nat) (rec : string → dfs_state → option (bool * dfs_state)) : Prop :=
  ∀ d st, dfs_inv st → mark st d = 0 → d ∈ nodes_of g → size (whites st) ≤ f →
    (∀ x, x ∈ path st → tc (edge g) x d) → dfs_post st d (path st) (rec d st).

Lemma visitDeps_spec f rec node p ds st :
  search_spec f rec → dfs_inv st → path st = p ++ [node] → (∀ x, x ∈ path st → rtc (edge g) x node) →
  size (whites st) ≤ f → (∀ d, d ∈ ds → edge g node d) →
  (∀ d, edge g node d → d ∈ ds ∨ mark st d = 2) →
  dfs_post st node p (visitDeps rec node ds st).
Proof.
  intros Hrec. revert st. induction ds as [|d ds IH]; intros st Hi Hp Hx Hf Hds Hall; simpl.
  - destruct (leave_inv st node p) as [? ?]; [done..| |].
    { intros d He. destruct (Hall d He) as [Hd|Hd]; [by apply not_elem_of_nil in Hd|done]. }
    split; [done|]. split; [done|]. split; [by rewrite mark_leave, decide_True|].
    intros n Hn _. by rewrite mark_leave, decide_False.
  - assert (edge g node d) as He by (apply Hds; left).
    destruct (Nat.eqb_spec (mark st d) 0) as [H0|H0].
    + specialize (Hrec d st Hi H0 (nodes_of_edge _ _ He) Hf).
      destruct (rec d st) as [[[] st']|]; simpl in Hrec.
      * apply Hrec. intros x Hxp. eapply tc_rtc_l; [by apply Hx|by apply tc_once].
      * destruct Hrec as (Hi' & Hp' & Hd' & Hm').
        { intros x Hxp. eapply tc_rtc_l; [by apply Hx|by apply tc_once]. }
        assert (∀ n, mark st n ≠ 0 → mark st' n = mark st n) as Hmono.
        { intros n Hn. apply Hm'; [by intros ->|done]. }
        assert (dfs_post st' node p (visitDeps rec node ds st')) as Hpost.
        { apply IH; [done|by rewrite Hp'| | | |].
          - intros x. rewrite Hp'. apply Hx.
          - etrans; [|exact Hf]. apply whites_mono. intros n Hn. by rewrite Hmono.
          - intros d' Hd. apply Hds. by right.
          - intros d' Hd. destruct (Hall d' Hd) as [Hin|Hm2]; [|right; rewrite Hmono; lia].
            apply elem_of_cons in Hin as [-> |Hin]; [by right|by left]. }
        destruct (visitDeps rec node ds st') as [[[] st'']|]; simpl in *; [done| |done].
        destruct Hpost as (? & ? & ? & Hm''). split_and!; [done..|].
        intros n Hn Hm0. rewrite Hm''; rewrite ?Hmono; done.
      * apply Hrec. intros x Hxp. eapply tc_rtc_l; [by apply Hx|by apply tc_once].
    + destruct (Nat.eqb_spec (mark st d) 1) as [H1|H1].
      * exists node, d. unfold found; simpl. rewrite (di_cycles _ Hi). split; [done|]. split; [done|].
        apply Hx. by apply (di_path _ Hi).
      * pose proof (di_le _ Hi d). apply IH; [done..| |].
        -- intros d' Hd. apply Hds. by right.
        -- intros d' Hd. destruct (Hall d' Hd) as [Hin|Hm2]; [|by right].
           apply elem_of_cons in Hin as [-> |Hin]; [right; lia|by left].
Qed.

Lemma dfs_spec fuel : search_spec fuel (dfs fuel g).
Proof.
  induction fuel as [|f IH]; intros node st Hi Hm Hn Hf Hp.
  - exfalso. assert (node ∈ whites st) as Hw by (by apply elem_of_filter).
    assert (whites st ≡ ∅) as He by (apply size_empty_inv; lia).
    rewrite He in Hw. by apply not_elem_of_empty in Hw.
  - cbn [dfs]. assert (dfs_post (enter node st) node (path st) (visitDeps (dfs f g) node (deps_of g node) (enter node st))) as H.
    { apply visitDeps_spec with f; [done|by apply enter_inv|done| | | |].
      - intros x. simpl. rewrite elem_of_app, list_elem_of_singleton. intros [Hx| ->]; [|done].
        by apply tc_rtc, Hp.
      - pose proof (whites_enter _ _ Hn Hm). lia.
      - done.
      - intros d He. by left. }
    destruct (visitDeps _ _ _ _) as [[[] st']|]; simpl in *; [done| |done].
    destruct H as (? & ? & ? & Hmk). split_and!; [done..|]. intros n Hne Hn0.
    rewrite Hmk; rewrite ?mark_enter, ?decide_False by done; done.
Qed.

Lemma detectLoop_spec fuel nodes st :
  size (nodes_of g) ≤ fuel → dfs_inv st → path st = [] → (∀ n, n ∈ nodes → n ∈ dom g) →
  match detectLoop fuel g nodes st with
  | None => False
  | Some (true, cs) => reported cs
  | Some (false, cs) => cs = [] ∧ ∃ L, topo g L ∧ (∀ n, n ∈ nodes → n ∈ L) ∧ (∀ n, mark st n = 2 → n ∈ L)
  end.
Proof.
  intros Hf. revert st. induction nodes as [|n ns IH]; intros st Hi Hp Hdom; simpl.
  - split; [done|]. destruct (di_done _ Hi) as (L & HL & HLm). exists L. split; [done|].
    split; [intros n Hn; by apply not_elem_of_nil in Hn|]. intros n. by rewrite HLm.
  - assert (n ∈ dom g) as Hn by (apply Hdom; left).
    assert (∀ m, m ∈ ns → m ∈ dom g) as Hns by (intros m Hm; apply Hdom; by right).
    destruct (Nat.eqb_spec (mark st n) 0) as [H0|H0].
    + assert (dfs_post st n (path st) (dfs fuel g n st)) as Hd.
      { apply dfs_spec; [done|done| | |].
        - unfold nodes_of. by apply elem_of_union_l.
        - etrans; [|exact Hf]. apply subseteq_size. unfold whites. intros k Hk. by apply elem_of_filter in Hk as [_ ?].
        - rewrite Hp. intros x Hx. by apply not_elem_of_nil in Hx. }
      destruct (dfs fuel g n st) as [[[] st']|]; simpl in Hd; [done| |done].
      destruct Hd as (Hi' & Hp' & Hn2 & Hm'). rewrite Hp in Hp'. specialize (IH st' Hi' Hp' Hns).
      destruct (detectLoop fuel g ns st') as [[[] cs]|]; [done| |done].
      destruct IH as (-> & L & HL & Hin & H2). split; [done|]. exists L. split; [done|]. split.
      * intros m [-> |Hm]%elem_of_cons; auto.
      * intros m Hm. apply H2. rewrite Hm'; [done|intros ->; lia|lia].
    + specialize (IH st Hi Hp Hns). destruct (detectLoop fuel g ns st) as [[[] cs]|]; [done| |done].
      destruct IH as (-> & L & HL & Hin & H2). split; [done|]. exists L. split; [done|]. split; [|done].
      intros m [-> |Hm]%elem_of_cons; [|auto]. apply H2.
      pose proof (di_le _ Hi n). destruct (decide (mark st n = 1)) as [H1|]; [|lia].
      apply (di_path _ Hi) in H1. rewrite Hp in H1. by apply not_elem_of_nil in H1.
Qed.

Lemma init_inv : dfs_inv (mkDfs ∅ [] []).
Proof.
  assert (∀ n, mark (mkDfs ∅ [] []) n = 0) as Hm by (intros n; unfold mark; simpl; by rewrite lookup_empty).
  constructor; [|constructor| |intros n; rewrite Hm; lia|done].
  - intros n. rewrite Hm. simpl. split; [done|]. intros Hn. by apply not_elem_of_nil in Hn.
  - exists []. split; [constructor|]. intros n. rewrite Hm. split; [done|]. intros Hn. by apply not_elem_of_nil in Hn.
Qed.

Lemma detect_spec order :
  order ≡ₚ elements (dom g) →
  match detectCircularDependencies order g with
  | None => False
  | Some (true, cs) => reported cs ∧ ¬ acyclic g
  | Some (false, cs) => cs = [] ∧ acyclic g ∧ ∃ L, topo g L ∧ ∀ n, n ∈ dom g → n ∈ L
  end.
Proof.
  intros Hord. unfold detectCircularDependencies.
  assert (∀ n, n ∈ order ↔ n ∈ dom g) as Hin by (intros n; by rewrite Hord, elem_of_elements).
  assert (∀ n, n ∈ order → n ∈ dom g) as Hin' by (intros n; apply Hin).
  pose proof (detectLoop_spec (size (nodes_of g)) order (mkDfs ∅ [] []) (le_n _) init_inv eq_refl Hin') as H.
  destruct (detectLoop _ _ _ _) as [[[] cs]|]; [| |done].
  - destruct H as (n & d & -> & He & Hr). split; [by exists n, d|]. intros Ha. apply (Ha n).
    eapply tc_rtc_r; [by apply tc_once|done].
  - destruct H as (-> & L & HL & HinL & _).
    assert (∀ n, n ∈ dom g → n ∈ L) by (intros n Hn; by apply HinL, Hin).
    split; [done|]. split; [by eapply topo_acyclic|]. by exists L.
Qed.

End Dfs.

(** ** What resolution changes *)

Definition mutual (g : graph) (a b : string) : Prop := edge g a b ∧ edge g b a.

(** [shrunk ok g g']: [g'] is [g] less some edges, each of them one of [ok]. *)
Definition shrunk (ok : string → string → Prop) (g g' : graph) : Prop :=
  dom g' = dom g ∧ subgraph g' g ∧ ∀ x y, edge g x y → edge g' x y ∨ ok x y.

Lemma shrunk_refl ok g : shrunk ok g g.
Proof. split_and!; [done..|]. by left. Qed.

Lemma shrunk_trans ok g1 g2 g3 : shrunk ok g1 g2 → shrunk ok g2 g3 → shrunk ok g1 g3.
Proof.
  intros (Hd & Hs & Ho) (Hd' & Hs' & Ho'). split; [by rewrite Hd'|]. split; [by etrans|].
  intros x y He. destruct (Ho x y He) as [He'|]; [|by right]. by apply Ho'.
Qed.

Lemma shrunk_remove ok g n d : n ∈ dom g → ok n d → shrunk ok g (remove_edge g n d).
Proof.
  intros Hn Hok. split; [|split; [apply remove_edge_subgraph|]].
  - unfold remove_edge. rewrite dom_insert_L. apply subseteq_union_1_L. by apply singleton_subseteq_l.
  - intros x y He. destruct (decide (x = n ∧ y = d)) as [[-> ->]|Hne]; [by right|]. left. by apply edge_remove.
Qed.

Definition self_weak (reg : registry) (y : string) : Prop :=
  ∃ n e, reg !! n = Some e ∧ Name (Instance e) = y ∧ y ∈ WeakDependencies e.

Lemma breakWeak_shrunk reg eo no g :
  (∀ e, no e ≡ₚ elements (dom g)) → shrunk (λ _ y, self_weak reg y) g (breakWeak reg eo no g).
Proof.
  intros Hno. unfold breakWeak. apply foldl_ind; [apply shrunk_refl|]. intros g1 e _ Hg1.
  destruct (reg !! e) as [entry|] eqn:He; [|done].
  apply foldl_ind; [done|]. intros g2 n Hn Hg2. unfold breakWeakNode. case_bool_decide; [done|].
  apply foldl_ind; [done|]. intros g3 d _ Hg3. unfold breakWeakDep.
  case_bool_decide as Hd; [|done]. case_bool_decide as Hw; [|done]. simpl.
  eapply shrunk_trans; [exact Hg3|]. apply shrunk_remove; [|by exists e, entry].
  destruct Hg3 as [-> _]. rewrite Hno in Hn. by apply elem_of_elements in Hn.
Qed.

Lemma breakWeak_id reg eo no g : (∀ y, ¬ self_weak reg y) → breakWeak reg eo no g = g.
Proof.
  intros Hno. unfold breakWeak. apply foldl_id. intros e _. destruct (reg !! e) as [entry|] eqn:He; [|done].
  apply foldl_id. intros n _. unfold breakWeakNode. case_bool_decide; [done|].
  apply foldl_id. intros d _. unfold breakWeakDep.
  case_bool_decide as Hd; [|done]. case_bool_decide as Hw; [|done]. destruct (Hno d). by exists e, entry.
Qed.

Lemma breakPair_shrunk (ok : string → string → Prop) a g b :
  (∀ x y, mutual g x y → ok x y) → shrunk ok g (breakPair a g b).
Proof.
  intros Hok. unfold breakPair. case_bool_decide as Hab; [|apply shrunk_refl].
  case_bool_decide as Hba; [|apply shrunk_refl]. simpl.
  case_match; (apply shrunk_remove; [by eapply edge_dom|by apply Hok]).
Qed.

Lemma breakPair_breaks a g b : ¬ mutual (breakPair a g b) a.1 b.1.
Proof.
  intros [H1 H2]. unfold breakPair in *. repeat case_bool_decide; simpl in *; try done.
  case_match; apply edge_remove in H1 as [_ H1]; apply edge_remove in H2 as [_ H2]; tauto.
Qed.

Lemma mutual_subgraph g g' a b : subgraph g' g → mutual g' a b → mutual g a b.
Proof. intros Hs [H1 H2]. split; by apply Hs. Qed.

Lemma breakRow_shrunk g0 a rest g :
  shrunk (mutual g0) g0 g → shrunk (mutual g0) g0 (foldl (breakPair a) g rest).
Proof.
  intros Hg. apply foldl_ind; [done|]. intros g1 b _ Hg1. eapply shrunk_trans; [exact Hg1|].
  apply breakPair_shrunk. intros x y. apply mutual_subgraph, Hg1.
Qed.

Lemma breakPairs_shrunk g0 nodes g : shrunk (mutual g0) g0 g → shrunk (mutual g0) g0 (breakPairs nodes g).
Proof.
  revert g; induction nodes as [|a rest IH]; intros g Hg; [done|]. cbn [breakPairs]. by apply IH, breakRow_shrunk.
Qed.

Lemma breakPairs_subgraph nodes g : subgraph (breakPairs nodes g) g.
Proof. apply (breakPairs_shrunk g nodes g), shrunk_refl. Qed.

Lemma breakRow_breaks a rest g b : b ∈ rest → ¬ mutual (foldl (breakPair a) g rest) a.1 b.1.
Proof.
  revert g; induction rest as [|c rest IH]; intros g Hb; [by apply not_elem_of_nil in Hb|]. simpl.
  apply elem_of_cons in Hb as [-> |Hb]; [|by apply IH].
  intros Hm. apply (breakPair_breaks a g c). revert Hm. apply mutual_subgraph.
  apply (breakRow_shrunk _ a rest), shrunk_refl.
Qed.

Lemma breakPairs_breaks nodes g a b :
  a ∈ nodes → b ∈ nodes → a ≠ b → ¬ mutual (breakPairs nodes g) a.1 b.1.
Proof.
  revert g; induction nodes as [|c rest IH]; intros g Ha Hb Hne; [by apply not_elem_of_nil in Ha|].
  cbn [breakPairs]. pose proof (breakPairs_subgraph rest (foldl (breakPair c) g rest)) as Hs.
  apply elem_of_cons in Ha as [-> |Ha], Hb as [-> |Hb]; [done| | |by apply IH].
  - intros Hm%(mutual_subgraph _ _ _ _ Hs). by apply breakRow_breaks in Hm.
  - intros [H1 H2]%(mutual_subgraph _ _ _ _ Hs). by apply (breakRow_breaks c rest g a Ha).
Qed.

Lemma breakPairs_id nodes g :
  (∀ a b, a ≠ b → ¬ mutual g a b) → NoDup nodes.*1 → breakPairs nodes g = g.
Proof.
  intros Hno. induction nodes as [|a rest IH]; intros Hnd; [done|]. cbn [breakPairs].
  rewrite fmap_cons in Hnd. apply list.NoDup_cons in Hnd as [Ha Hnd].
  rewrite foldl_id; [by apply IH|]. intros b Hb. unfold breakPair.
  case_bool_decide as H1; [|done]. case_bool_decide as H2; [|done]. exfalso.
  apply (Hno a.1 b.1); [|done]. intros Heq. apply Ha. rewrite Heq. by apply list_elem_of_fmap_2.
Qed.

(** Resolution terminates and keeps the extensions, whatever the orders. *)
Lemma resolve_spec o reg g :
  valid_orders o reg g → ∃ g', resolveDependencyGraph o reg g = Some g' ∧ dom g' = dom g ∧ subgraph g' g.
Proof.
  intros [V1 V2 _ V4 _ _]. unfold resolveDependencyGraph. pose proof (detect_spec g _ V1) as H1.
  destruct (detectCircularDependencies (o_detect1 o) g) as [[[] cs]|]; [|by exists g|done].
  destruct (breakWeak_shrunk reg (o_exts o) _ g V4) as (Hd1 & Hs1 & _).
  set (g1 := breakWeak reg (o_exts o) (o_nodes o) g) in *.
  pose proof (detect_spec g1 (o_detect2 o)) as H2. rewrite Hd1 in H2. specialize (H2 V2).
  destruct (detectCircularDependencies (o_detect2 o) g1) as [[[] cs2]|]; [|by exists g1|done].
  destruct (breakPairs_shrunk g1 (o_sorted o) g1 (shrunk_refl _ _)) as (Hd2 & Hs2 & _).
  eexists. split; [done|]. split; [by rewrite Hd2|by etrans].
Qed.

(** ** Properties *)

(** C12: The cycle search is right.  For every order in which Go may iterate over
    the map, [detectCircularDependencies] terminates; it answers true exactly
    when some extension depends on itself through one or more dependencies;
    and then its single message names an edge that is part of such a cycle. *)
Theorem detect_circular_correct (g : graph) (order : list string) :
  order ≡ₚ elements (dom g) →
  ∃ b cs, detectCircularDependencies order g = Some (b, cs) ∧
    (b = true ↔ ∃ n, tc (edge g) n n) ∧
    (b = false → cs = []) ∧
    (b = true → ∃ n d, cs = [cycle_msg n d] ∧ edge g n d ∧ rtc (edge g) d n).
Proof.
  intros Hord. pose proof (detect_spec g order Hord) as H.
  destruct (detectCircularDependencies order g) as [[[] cs]|]; [| |done].
  - destruct H as ((n & d & -> & He & Hr) & _). exists true, [cycle_msg n d]. split; [done|].
    split; [|split; [done|by exists n, d]]. split; [|done]. intros _. exists n.
    eapply tc_rtc_r; [by apply tc_once|done].
  - destruct H as (-> & Ha & _). exists false, []. split; [done|]. split; [|done].
    split; [done|]. intros (n & Hn). by apply Ha in Hn.
Qed.

Lemma detect_circular_correct_witness :
  let g : graph := {["a" := ["b"]; "b" := ["c"]; "c" := ["b"]]} in
  let order := elements (dom g) in
  order ≡ₚ elements (dom g) ∧ ∃ n, tc (edge g) n n.
Proof.
  intros g order. split; [reflexivity|].
  destruct (detect_circular_correct g order ltac:(reflexivity)) as (b & cs & Hd & Hiff & _).
  apply Hiff. vm_compute in Hd. injection Hd as <- _. reflexivity.
Defined.

(** Resolution removes every cycle of length two and nothing it does not
    need to.  For every order: it terminates; the result has the same
    extensions and only dependencies of the input; an acyclic graph is
    unchanged; no two distinct extensions depend on each other in the result;
    and every dependency that was dropped was on an extension that depended
    back, or on one that lists its own name as a weak dependency. *)
Theorem resolve_breaks_pairs (o : orders) (reg : registry) (g : graph) :
  valid_orders o reg g →
  ∃ g', resolveDependencyGraph o reg g = Some g' ∧ dom g' = dom g ∧ subgraph g' g ∧
    (acyclic g → g' = g) ∧
    (∀ a b, a ≠ b → edge g' a b → ¬ edge g' b a) ∧
    (∀ x y, edge g x y → ¬ edge g' x y → edge g y x ∨ self_weak reg y).
Proof.
  intros [V1 V2 V3 V4 V5 V6]. unfold resolveDependencyGraph.
  assert (∀ g', acyclic g' → ∀ a b, a ≠ b → edge g' a b → ¬ edge g' b a) as Hac.
  { intros g' Ha a b _ H1 H2. apply (Ha a). eapply tc_l; [exact H1|]. by apply tc_once. }
  pose proof (detect_spec g _ V1) as H1. destruct (detectCircularDependencies (o_detect1 o) g) as [[[] cs]|]; [| |done].
  2:{ destruct H1 as (_ & Ha & _). exists g. split_and!; [done..|by apply Hac|done]. }
  destruct H1 as [_ Hcyc]. pose proof (breakWeak_shrunk reg (o_exts o) _ g V4) as (Hd1 & Hs1 & Ho1).
  set (g1 := breakWeak reg (o_exts o) (o_nodes o) g) in *.
  pose proof (detect_spec g1 (o_detect2 o)) as H2. rewrite Hd1 in H2. specialize (H2 V2).
  destruct (detectCircularDependencies (o_detect2 o) g1) as [[[] cs2]|]; [| |done].
  2:{ destruct H2 as (_ & Ha & _). exists g1. split_and!; [done..| |by apply Hac|].
      - by intros ?%Hcyc.
      - intros x y He Hn. destruct (Ho1 x y He); [done|by right]. }
  destruct (breakPairs_shrunk g1 (o_sorted o) g1 (shrunk_refl _ _)) as (Hd2 & Hs2 & Ho2).
  exists (breakPairs (o_sorted o) g1). split_and!; [done|by rewrite Hd2|by etrans|by intros ?%Hcyc| |].
  - intros a b Hne Hab Hba.
    assert (∀ x y, edge (breakPairs (o_sorted o) g1) x y → (x, length (deps_of g x)) ∈ o_sorted o) as Hin.
    { intros x y He%edge_dom. rewrite V5. apply (list_elem_of_fmap_2 (λ n, (n, length (deps_of g n)))).
      apply elem_of_elements. by rewrite <- Hd1, <- Hd2. }
    apply (breakPairs_breaks (o_sorted o) g1 (a, length (deps_of g a)) (b, length (deps_of g b)));
      [by eapply Hin|by eapply Hin|by intros [= ->]|done].
  - intros x y He Hn. destruct (Ho1 x y He) as [He1|]; [|by right]. destruct (Ho2 x y He1) as [|[_ Hyx]]; [done|].
    left. by apply Hs1.
Qed.

(** Longer cycles stay, weak or not.  If no extension lists its own name
    among its weak dependencies and no two depend on each other, resolution
    returns the graph unchanged, for every order: a cycle of three or more
    extensions is not broken even when every dependency on it was registered
    as weak. *)
Theorem resolve_keeps_long_cycles (o : orders) (reg : registry) (g : graph) :
  valid_orders o reg g → (∀ y, ¬ self_weak reg y) → (∀ a b, a ≠ b → ¬ mutual g a b) →
  resolveDependencyGraph o reg g = Some g.
Proof.
  intros [V1 V2 V3 V4 V5 V6] Hw Hm. unfold resolveDependencyGraph. rewrite breakWeak_id by done.
  pose proof (detect_spec g _ V1) as H1. destruct (detectCircularDependencies (o_detect1 o) g) as [[[] cs]|]; [|done..].
  pose proof (detect_spec g _ V2) as H2. destruct (detectCircularDependencies (o_detect2 o) g) as [[[] cs2]|]; [|done..].
  f_equal. apply breakPairs_id; [done|]. rewrite V5, <- list_fmap_compose. simpl. rewrite list_fmap_id.
  apply NoDup_elements.
Qed.

(** ** Concrete runs *)

Definition by_count (a b : string * nat) : Prop := a.2 ≤ b.2.
#[global] Instance by_count_dec : RelDecision by_count := λ a b, decide (a.2 ≤ b.2).
#[global] Instance by_count_trans : Transitive by_count.
Proof. intros a b c. unfold by_count. lia. Qed.
#[global] Instance by_count_total : Total by_count.
Proof. intros a b. unfold by_count. lia. Qed.

(** One possible choice of every order, with a stable sort. *)
Definition canonical (reg : registry) (g : graph) : orders :=
  mkOrders (elements (dom g)) (elements (dom g)) (elements (dom reg)) (λ _, elements (dom g))
    (merge_sort by_count ((λ n, (n, length (deps_of g n))) <$> elements (dom g))).

Lemma canonical_valid reg g : valid_orders (canonical reg g) reg g.
Proof.
  constructor; simpl; [done..| |].
  - apply merge_sort_Permutation.
  - apply (StronglySorted_merge_sort by_count).
Qed.

Lemma resolve_breaks_pairs_witness :
  let g : graph := {["a" := ["b"]; "b" := ["a"]]} in
  ∃ g', resolveDependencyGraph (canonical ∅ g) ∅ g = Some g' ∧ dom g' = dom g ∧ (edge g' "a" "b" → ¬ edge g' "b" "a").
Proof.
  intros g. destruct (resolve_breaks_pairs (canonical ∅ g) ∅ g (canonical_valid ∅ g)) as (g' & H1 & H2 & _ & _ & H3 & _).
  exists g'. split; [exact H1|]. split; [exact H2|]. apply H3. discriminate.
Defined.

(** Three extensions, each registered with a weak dependency on the next. *)
Definition weak_ring : registry :=
  RegisterWithWeakDeps (mkExt "a" []) ["b"]
    (RegisterWithWeakDeps (mkExt "b" []) ["c"] (RegisterWithWeakDeps (mkExt "c" []) ["a"] ∅)).

Lemma weak_ring_deps n : deps_of (dependencyGraph weak_ring) n =
  if decide (n = "a") then ["b"] else if decide (n = "b") then ["c"] else if decide (n = "c") then ["a"] else [].
Proof.
  unfold deps_of, dependencyGraph. rewrite lookup_fmap.
  destruct (decide (n = "a")) as [->|Ha]; [reflexivity|]. destruct (decide (n = "b")) as [->|Hb]; [reflexivity|].
  destruct (decide (n = "c")) as [->|Hc]; [reflexivity|].
  unfold weak_ring, RegisterWithWeakDeps, RegisterToGroupWithWeakDeps. simpl. by rewrite !lookup_insert_ne.
Qed.

Lemma weak_ring_no_pair a b : a ≠ b → ¬ mutual (dependencyGraph weak_ring) a b.
Proof.
  intros _ [H1 H2]. unfold edge in *. rewrite weak_ring_deps in H1, H2.
  repeat case_decide; subst; try done;
    repeat match goal with
    | H : _ ∈ [] |- _ => by apply not_elem_of_nil in H
    | H : _ ∈ [_] |- _ => apply list_elem_of_singleton in H
    end; congruence.
Qed.

Lemma weak_ring_not_self y : ¬ self_weak weak_ring y.
Proof.
  intros (n & e & He & <- & Hy). unfold weak_ring, RegisterWithWeakDeps, RegisterToGroupWithWeakDeps in He.
  simpl in He. rewrite !lookup_insert_Some, lookup_empty in He.
  destruct He as [[_ <-]|[_ [[_ <-]|[_ [[_ <-]|[_ He]]]]]]; [..|done];
    simpl in Hy; apply list_elem_of_singleton in Hy; discriminate Hy.
Qed.

Lemma resolve_keeps_long_cycles_witness :
  let g := dependencyGraph weak_ring in
  resolveDependencyGraph (canonical weak_ring g) weak_ring g = Some g ∧
  fst <$> detectCircularDependencies (elements (dom g)) g = Some true.
Proof.
  intros g. split; [|vm_compute; reflexivity].
  apply (resolve_keeps_long_cycles (canonical weak_ring g) weak_ring g (canonical_valid _ _) weak_ring_not_self weak_ring_no_pair).
Defined.

(** An extension with a dependency and one with a weak dependency back. *)
Definition strong_and_weak : registry :=
  Register (mkExt "app" ["db"]) (RegisterWithWeakDeps (mkExt "db" []) ["app"] ∅).

(** Which side of a two-cycle is dropped does not depend on which is weak.
    For "app" with the dependency "db" and "db" with the weak dependency "app",
    both results are possible, by the order in which Go happens to iterate: the
    weak dependency goes, or the strong one goes and the weak one stays. *)
Theorem strong_dependency_dropped :
  let g := dependencyGraph strong_and_weak in
  (∃ o g', valid_orders o strong_and_weak g ∧ resolveDependencyGraph o strong_and_weak g = Some g' ∧
     deps_of g' "app" = ["db"] ∧ deps_of g' "db" = []) ∧
  (∃ o g', valid_orders o strong_and_weak g ∧ resolveDependencyGraph o strong_and_weak g = Some g' ∧
     deps_of g' "app" = [] ∧ deps_of g' "db" = ["app"]).
Proof.
  intros g. set (c := canonical strong_and_weak g).
  assert (valid_orders c strong_and_weak g) as Hc by apply canonical_valid.
  set (with_sorted := λ s, mkOrders (o_detect1 c) (o_detect2 c) (o_exts c) (o_nodes c) s).
  assert (∀ s, s ≡ₚ o_sorted c → StronglySorted (λ a b, a.2 ≤ b.2) s → valid_orders (with_sorted s) strong_and_weak g) as Hv.
  { intros s Hs Hle. destruct Hc as [V1 V2 V3 V4 V5 V6]. constructor; simpl; [exact V1|exact V2|exact V3|exact V4|by rewrite Hs|exact Hle]. }
  assert (o_sorted c ≡ₚ [("app", 1); ("db", 1)]) as Hp.
  { vm_compute. first [reflexivity|apply perm_swap]. }
  set (deps2 := λ g', (deps_of g' "app", deps_of g' "db")).
  split.
  - assert (deps2 <$> resolveDependencyGraph (with_sorted [("app", 1); ("db", 1)]) strong_and_weak g = Some (["db"], []))
      as (g' & Hr & [= H1 H2])%fmap_Some by (vm_compute; reflexivity).
    exists (with_sorted [("app", 1); ("db", 1)]), g'. split; [|split; [exact Hr|split; [exact (eq_sym H1)|exact (eq_sym H2)]]].
    apply Hv; [by rewrite Hp|]. repeat constructor.
  - assert (deps2 <$> resolveDependencyGraph (with_sorted [("db", 1); ("app", 1)]) strong_and_weak g = Some ([], ["app"]))
      as (g' & Hr & [= H1 H2])%fmap_Some by (vm_compute; reflexivity).
    exists (with_sorted [("db", 1); ("app", 1)]), g'. split; [|split; [exact Hr|split; [exact (eq_sym H1)|exact (eq_sym H2)]]].
    apply Hv; [rewrite Hp; apply perm_swap|]. repeat constructor.
Qed.
