(* ===== verification/InitOrder.v ===== *)
(** * The initialisation order of extensions

    Models [getInitOrder] of src/extension/manager/utils.go: the classification
    of the extensions, the sorted start, and the passes that move every
    extension whose dependencies are initialised.  The slice [remainingDeps]
    shares its array with the slice being iterated, as in the code. *)

From stdpp Require Import base tactics option list gmap strings relations sorting.
From S2P Require Import Prelude DepGraph Registry.

(** ** Definitions *)

Inductive init_error := ECyclic (remaining : list string).

(** The variables of a pass: the array under [withDeps] and [remainingDeps],
    the length of [remainingDeps], [order], [initialized] and [progress]. *)
Record pass_state := mkPass {
  arr : list string; kept : nat; order : list string; initialized : gset string; progress : bool }.

Definition canInitialize (g : graph) (ini : gset string) (name : string) : bool :=
  forallb (λ d, bool_decide (d ∈ ini)) (deps_of g name).

(** Iteration [i] of [for _, name := range withDeps]. *)
Definition passStep (g : graph) (i : nat) (s : pass_state) : pass_state :=
  match arr s !! i with
  | Some name =>
      if canInitialize g (initialized s) name
      then mkPass (arr s) (kept s) (order s ++ [name]) ({[name]} ∪ initialized s) true
      else mkPass (<[kept s := name]> (arr s)) (S (kept s)) (order s) (initialized s) (progress s)
  | None => s
  end.

Definition pass (g : graph) (withDeps : list string) (ord : list string) (ini : gset string) : pass_state :=
  foldl (λ s i, passStep g i s) (mkPass withDeps 0 ord ini false) (seq 0 (length withDeps)).

(** [for len(withDeps) > 0]. *)
Fixpoint passes (fuel : nat) (g : graph) (withDeps ord : list string) (ini : gset string) :
    res init_error (list string) :=
  match withDeps with
  | [] => Ok ord
  | _ :: _ =>
      match fuel with
      | O => NoFuel
      | S f =>
          let s := pass g withDeps ord ini in
          if progress s then passes f g (take (kept s) (arr s)) (order s) (initialized s)
          else Err (ECyclic (take (kept s) (arr s)))
      end
  end.

Definition has_deps (g : graph) (n : string) : bool := match deps_of g n with [] => false | _ => true end.

(** [names]: the keys of [extensions] in the order Go iterates over them;
    [None] for the graph: built from the extensions' own dependencies. *)
Definition getInitOrder (names : list string) (exts : gmap string Ext) (dependencyGraph : option graph) :
    res init_error (list string) :=
  let g := match dependencyGraph with Some g => g | None => Dependencies <$> exts end in
  let noDeps := filter (λ n, has_deps g n = false) names in
  let withDeps := filter (λ n, has_deps g n = true) names in
  passes (length withDeps) g withDeps (merge_sort String.le noDeps) (list_to_set noDeps).

(** ** The in-place pass is a partition *)

Fixpoint split_ready (g : graph) (ns ord : list string) (ini : gset string) : list string * list string * gset string :=
  match ns with
  | [] => ([], ord, ini)
  | n :: ns' =>
      if canInitialize g ini n then split_ready g ns' (ord ++ [n]) ({[n]} ∪ ini)
      else let '(rest, o, i) := split_ready g ns' ord ini in (n :: rest, o, i)
  end.

Lemma split_ready_length g ns ord ini : length (split_ready g ns ord ini).1.1 ≤ length ns.
Proof.
  revert ord ini. induction ns as [|n ns IH]; intros ord ini; simpl; [done|].
  destruct (canInitialize g ini n); [etrans; [apply IH|lia]|].
  specialize (IH ord ini). destruct (split_ready g ns ord ini) as [[rest o] i]. simpl in *. lia.
Qed.

Lemma passStep_loop g ns s i :
  drop i (arr s) = ns → kept s ≤ i → i + length ns = length (arr s) →
  let s' := foldl (λ s i, passStep g i s) s (seq i (length ns)) in
  let '(rest, o, ini) := split_ready g ns (order s) (initialized s) in
  take (kept s') (arr s') = take (kept s) (arr s) ++ rest ∧ order s' = o ∧ initialized s' = ini ∧
  progress s' = progress s || negb (length rest =? length ns).
Proof.
  revert s i. induction ns as [|n ns IH]; intros s i Hd Hk Hl; simpl.
  - rewrite app_nil_r, orb_false_r. done.
  - assert (arr s !! i = Some n) as Hi by (rewrite <- (Nat.add_0_r i), <- lookup_drop, Hd; done).
    assert (drop (S i) (arr s) = ns) as Hd'.
    { replace (S i) with (i + 1) by lia. rewrite <- drop_drop, Hd. done. }
    simpl in Hl.
    destruct (canInitialize g (initialized s) n) eqn:Hc.
    + assert (passStep g i s = mkPass (arr s) (kept s) (order s ++ [n]) ({[n]} ∪ initialized s) true) as ->
        by (unfold passStep; by rewrite Hi, Hc).
      specialize (IH (mkPass (arr s) (kept s) (order s ++ [n]) ({[n]} ∪ initialized s) true) (S i) Hd').
      cbn [arr kept order initialized progress] in IH. pose proof (split_ready_length g ns (order s ++ [n]) ({[n]} ∪ initialized s)) as Hlen.
      destruct (split_ready g ns (order s ++ [n]) ({[n]} ∪ initialized s)) as [[rest o] ini]. simpl in Hlen.
      destruct IH as (-> & -> & -> & ->); [lia|lia|]. split_and!; [done..|]. simpl.
      destruct (Nat.eqb_spec (length rest) (S (length ns))); [lia|]. by rewrite orb_true_r.
    + assert (passStep g i s = mkPass (<[kept s := n]> (arr s)) (S (kept s)) (order s) (initialized s) (progress s)) as ->
        by (unfold passStep; by rewrite Hi, Hc).
      specialize (IH (mkPass (<[kept s := n]> (arr s)) (S (kept s)) (order s) (initialized s) (progress s)) (S i)).
      cbn [arr kept order initialized progress] in IH. rewrite drop_insert_lt, length_insert in IH by lia.
      destruct (split_ready g ns (order s) (initialized s)) as [[rest o] ini].
      destruct IH as (-> & -> & -> & ->); [done|lia|lia|]. split_and!; [|done..].
      erewrite take_S_r by (apply list_lookup_insert_eq; apply lookup_lt_Some in Hi; lia).
      rewrite take_insert_ge by lia. by rewrite <- app_assoc.
Qed.

(** ** Order and progress *)

(** [order] and [initialized] name the same extensions, each after its
    dependencies. *)
Definition ordered (g : graph) (ord : list string) (ini : gset string) : Prop :=
  topo g (reverse ord) ∧ ∀ n, n ∈ ini ↔ n ∈ ord.

Lemma canInitialize_spec g ini n : canInitialize g ini n = true ↔ ∀ d, edge g n d → d ∈ ini.
Proof.
  unfold canInitialize, edge. rewrite forallb_forall. split; intros H d Hd.
  - apply list_elem_of_In, H in Hd. by apply bool_decide_eq_true in Hd.
  - apply bool_decide_eq_true. apply H. by apply list_elem_of_In.
Qed.

Lemma ordered_snoc g ord ini n :
  ordered g ord ini → n ∉ ord → canInitialize g ini n = true → ordered g (ord ++ [n]) ({[n]} ∪ ini).
Proof.
  intros [Ht Hi] Hn Hc. rewrite canInitialize_spec in Hc. split.
  - rewrite reverse_snoc. constructor; [by rewrite elem_of_reverse| |done].
    intros d He. apply elem_of_reverse, Hi. by apply Hc.
  - intros m. rewrite elem_of_union, elem_of_app, elem_of_singleton, list_elem_of_singleton, Hi. tauto.
Qed.

Lemma split_ready_spec g ns ord ini :
  ordered g ord ini → NoDup (ord ++ ns) →
  let '(rest, o, i) := split_ready g ns ord ini in
  ordered g o i ∧ o ++ rest ≡ₚ ord ++ ns ∧ (∃ l, o = ord ++ l) ∧
  (length rest = length ns → rest = ns ∧ o = ord ∧ i = ini ∧ ∀ n, n ∈ ns → canInitialize g ini n = false).
Proof.
  revert ord ini. induction ns as [|n ns IH]; intros ord ini Ho Hnd; simpl.
  - split_and!; try done; [by exists []; rewrite app_nil_r|]. intros _. split_and!; try done. intros n Hn. by apply not_elem_of_nil in Hn.
  - assert (NoDup ((ord ++ [n]) ++ ns)) as Hnd' by (by rewrite <- app_assoc).
    assert (n ∉ ord) as Hn.
    { apply list.NoDup_app in Hnd as (_ & Hx & _). intros Hin. apply (Hx n Hin). left. }
    destruct (canInitialize g ini n) eqn:Hc.
    + pose proof (split_ready_length g ns (ord ++ [n]) ({[n]} ∪ ini)) as Hlen.
      specialize (IH _ _ (ordered_snoc _ _ _ _ Ho Hn Hc) Hnd').
      destruct (split_ready g ns (ord ++ [n]) ({[n]} ∪ ini)) as [[rest o] i]. destruct IH as (Ho' & Hp & (l & ->) & _).
      rewrite <- !app_assoc in *. split_and!; [done..|by eexists|]. simpl in *. lia.
    + assert (NoDup (ord ++ ns)) as Hnd2.
      { rewrite <- Permutation_middle in Hnd. by apply list.NoDup_cons in Hnd as [_ ?]. }
      specialize (IH _ _ Ho Hnd2). destruct (split_ready g ns ord ini) as [[rest o] i].
      destruct IH as (Ho' & Hp & Hpre & Hsame). split; [done|]. split; [by rewrite <- !Permutation_middle, Hp|].
      split; [done|]. simpl. intros [= Hlen]. destruct (Hsame Hlen) as (-> & -> & -> & Hno). split_and!; [done..|].
      intros m [-> |Hm]%elem_of_cons; auto.
Qed.

Lemma pass_spec g ns ord ini :
  ordered g ord ini → NoDup (ord ++ ns) →
  let s := pass g ns ord ini in let rest := take (kept s) (arr s) in
  ordered g (order s) (initialized s) ∧ order s ++ rest ≡ₚ ord ++ ns ∧ (∃ l, order s = ord ++ l) ∧
  (progress s = true → length rest < length ns) ∧
  (progress s = false → rest = ns ∧ ∀ n, n ∈ ns → canInitialize g ini n = false).
Proof.
  intros Ho Hnd. pose proof (passStep_loop g ns (mkPass ns 0 ord ini false) 0 eq_refl (le_n _) eq_refl) as Hl.
  cbv zeta in *. unfold pass. cbn [arr kept order initialized progress] in Hl.
  pose proof (split_ready_spec g ns ord ini Ho Hnd) as Hs. pose proof (split_ready_length g ns ord ini) as Hle.
  destruct (split_ready g ns ord ini) as [[rest o] i]. destruct Hl as (-> & -> & -> & ->).
  destruct Hs as (Ho' & Hp & Hpre & Hsame). simpl in *. split_and!; [done..| |].
  - destruct (Nat.eqb_spec (length rest) (length ns)); [done|lia].
  - destruct (Nat.eqb_spec (length rest) (length ns)) as [He|]; [|done]. intros _.
    destruct (Hsame He) as (? & _ & _ & ?). done.
Qed.

Lemma passes_spec fuel g ns ord ini :
  length ns ≤ fuel → ordered g ord ini → NoDup (ord ++ ns) →
  match passes fuel g ns ord ini with
  | Ok o => topo g (reverse o) ∧ o ≡ₚ ord ++ ns ∧ ∃ l, o = ord ++ l
  | Err (ECyclic rest) => rest ≠ [] ∧ ∀ n, n ∈ rest → n ∈ ord ++ ns ∧ ∃ d, edge g n d ∧ (d ∈ rest ∨ d ∉ ord ++ ns)
  | _ => False
  end.
Proof.
  revert ns ord ini. induction fuel as [|f IH]; intros ns ord ini Hf Ho Hnd; destruct ns as [|n0 ns']; try (simpl in Hf; lia).
  - simpl. rewrite app_nil_r. split; [apply Ho|]. split; [done|]. exists []. by rewrite app_nil_r.
  - simpl. rewrite app_nil_r. split; [apply Ho|]. split; [done|]. exists []. by rewrite app_nil_r.
  - cbn [passes]. set (ns := n0 :: ns') in *. pose proof (pass_spec g ns ord ini Ho Hnd) as Hs. cbv zeta in *.
    destruct Hs as (Ho' & Hp & (l & Hl) & Hprog & Hstop). destruct (progress (pass g ns ord ini)).
    + specialize (Hprog eq_refl). rewrite <- Hp in Hnd.
      specialize (IH (take (kept (pass g ns ord ini)) (arr (pass g ns ord ini))) _ _ ltac:(lia) Ho' Hnd).
      destruct (passes f _ _ _ _) as [o|[rest]| |]; [| |done..].
      * destruct IH as (Ht & Hpo & (l' & ->)). split; [done|]. split; [by rewrite Hpo|].
        rewrite Hl. exists (l ++ l'). by rewrite <- app_assoc.
      * destruct IH as [? IH]. split; [done|]. intros n Hn. destruct (IH n Hn) as (Hn' & d & He & Hd).
        rewrite Hp in Hn', Hd. split; [done|]. by exists d.
    + destruct (Hstop eq_refl) as [-> Hno]. split; [done|]. intros n Hn.
      split; [apply elem_of_app; by right|]. specialize (Hno n Hn).
      assert (∃ d, edge g n d ∧ d ∉ ini) as (d & He & Hd).
      { unfold canInitialize in Hno. clear -Hno. unfold edge. induction (deps_of g n) as [|d ds IH]; [done|].
        simpl in Hno. case_bool_decide as Hd; [|exists d; split; [left|done]].
        destruct IH as (d' & ? & ?); [done|]. exists d'. split; [by right|done]. }
      exists d. split; [done|]. destruct (decide (d ∈ ns)); [by left|right].
      rewrite elem_of_app. destruct Ho as [_ Ho]. rewrite <- Ho. tauto.
Qed.

(** ** Properties *)

Lemma has_deps_false g n : has_deps g n = false ↔ deps_of g n = [].
Proof. unfold has_deps. by destruct (deps_of g n). Qed.

Lemma ordered_start g l :
  NoDup l → (∀ n, n ∈ l → deps_of g n = []) → ordered g l (list_to_set l).
Proof.
  intros Hnd Hno. split; [|intros n; apply elem_of_list_to_set].
  assert (∀ l', l' ⊆ l → NoDup l' → topo g l') as H.
  { induction l' as [|n l' IH]; intros Hs Hd; [constructor|]. apply list.NoDup_cons in Hd as [Hn Hd].
    constructor; [done| |apply IH; [|done]].
    - intros d He. unfold edge in He. rewrite Hno in He by (apply Hs; left). by apply not_elem_of_nil in He.
    - intros x Hx. apply Hs. by right. }
  apply H; [intros x; by rewrite elem_of_reverse|by rewrite reverse_Permutation].
Qed.

Lemma init_order_spec names exts g :
  NoDup names →
  match getInitOrder names exts (Some g) with
  | Ok o => topo g (reverse o) ∧ o ≡ₚ names ∧
      ∃ l, o = merge_sort String.le (filter (λ n, has_deps g n = false) names) ++ l
  | Err (ECyclic rest) => rest ≠ [] ∧ ∀ n, n ∈ rest → n ∈ names ∧ ∃ d, edge g n d ∧ (d ∈ rest ∨ d ∉ names)
  | _ => False
  end.
Proof.
  intros Hnd. unfold getInitOrder.
  set (noDeps := filter (λ n, has_deps g n = false) names). set (withDeps := filter (λ n, has_deps g n = true) names).
  assert (merge_sort String.le noDeps ++ withDeps ≡ₚ names) as Hp.
  { rewrite (merge_sort_Permutation String.le noDeps). unfold noDeps, withDeps. clear. 
    induction names as [|n ns IH]; [done|]. rewrite !filter_cons.
    destruct (has_deps g n); [rewrite decide_False, decide_True by done; by rewrite <- Permutation_middle, IH|].
    rewrite decide_True, decide_False by done. simpl. by rewrite IH. }
  assert (ordered g (merge_sort String.le noDeps) (list_to_set noDeps)) as Ho.
  { destruct (ordered_start g (merge_sort String.le noDeps)) as [Ht Hi].
    - rewrite <- Hp in Hnd. by apply list.NoDup_app in Hnd as (? & _).
    - intros n. rewrite (merge_sort_Permutation String.le noDeps). unfold noDeps.
      rewrite list_elem_of_filter, has_deps_false. tauto.
    - split; [done|]. intros n. rewrite elem_of_list_to_set. by rewrite (merge_sort_Permutation String.le noDeps). }
  pose proof (passes_spec (length withDeps) g withDeps _ _ (le_n _) Ho) as Hs. rewrite Hp in Hs.
  specialize (Hs Hnd). destruct (passes _ _ _ _ _) as [o|[rest]| |]; [| |done..].
  - destruct Hs as (? & Hpo & ?). split; [done|]. split; [by rewrite Hpo|done].
  - destruct Hs as [? Hs]. split; [done|]. intros n Hn. destruct (Hs n Hn) as (Hn' & d & He & Hd).
    rewrite Hp in Hn', Hd. split; [done|]. by exists d.
Qed.

Lemma topo_app_r g l L : topo g (l ++ L) → topo g L.
Proof. induction l as [|n l IH]; [done|]. simpl. inversion 1; auto. Qed.

Lemma topo_before g o l1 n l2 d : topo g (reverse o) → o = l1 ++ n :: l2 → edge g n d → d ∈ l1.
Proof.
  intros Ht -> He. rewrite reverse_app, reverse_cons, <- app_assoc in Ht. apply topo_app_r in Ht.
  inversion Ht as [|? ? _ Hd _]; subst. apply elem_of_reverse. by apply Hd.
Qed.

Lemma init_order_acyclic names exts g o :
  NoDup names → (∀ n, n ∈ dom g → n ∈ names) → getInitOrder names exts (Some g) = Ok o → acyclic g.
Proof.
  intros Hnd Hdom Hr. pose proof (init_order_spec names exts g Hnd) as Hs. rewrite Hr in Hs.
  destruct Hs as (Ht & Hp & _). eapply topo_acyclic; [exact Ht|]. intros n Hn. rewrite elem_of_reverse, Hp. auto.
Qed.

Lemma init_order_succeeds names exts g :
  NoDup names → (∀ n d, n ∈ names → edge g n d → d ∈ names) → acyclic g →
  ∃ o, getInitOrder names exts (Some g) = Ok o.
Proof.
  intros Hnd Hcl Ha. pose proof (init_order_spec names exts g Hnd) as Hs.
  destruct (getInitOrder names exts (Some g)) as [o|[rest]| |]; [by exists o| |done..]. exfalso.
  destruct Hs as [Hne Hs]. pose proof (detect_spec g (elements (dom g)) (reflexivity _)) as Hd.
  destruct (detectCircularDependencies _ g) as [[[] cs]|]; [by destruct Hd| |done].
  destruct Hd as (_ & _ & L & HL & Hcov).
  assert (∀ n, n ∈ rest → n ∈ L) as Hin.
  { intros n Hn. destruct (Hs n Hn) as (_ & d & He & _). apply Hcov. by eapply edge_dom. }
  destruct rest as [|n0 rest]; [done|].
  destruct (topo_minimal g L (λ n, n ∈ n0 :: rest) HL) as (n & _ & Hn & Hmin).
  { exists n0. split; [apply Hin|]; left. }
  destruct (Hs n Hn) as (Hnn & d & He & [Hd|Hd]); [by apply (Hmin d He)|]. apply Hd. by eapply Hcl.
Qed.

(** What a caller that holds the extensions map gets. *)
Lemma init_order_facts (exts : gmap string Ext) (g : graph) (names : list string) :
  names ≡ₚ elements (dom exts) →
  match getInitOrder names exts (Some g) with
  | Ok o => o ≡ₚ names ∧ ∀ l1 n l2 d, o = l1 ++ n :: l2 → edge g n d → d ∈ l1
  | Err (ECyclic rest) =>
      rest ≠ [] ∧ ∀ n, n ∈ rest → n ∈ dom exts ∧ ∃ d, edge g n d ∧ (d ∈ rest ∨ d ∉ dom exts)
  | _ => False
  end.
Proof.
  intros Hp. assert (NoDup names) as Hnd by (rewrite Hp; apply NoDup_elements).
  assert (∀ n, n ∈ names ↔ n ∈ dom exts) as Hin by (intros n; by rewrite Hp, elem_of_elements).
  pose proof (init_order_spec names exts g Hnd) as Hs.
  destruct (getInitOrder names exts (Some g)) as [o|[rest]| |]; [| |done..].
  - destruct Hs as (Ht & Ho & _). split; [done|]. intros l1 n l2 d. by apply topo_before.
  - destruct Hs as [Hne Hs]. split; [done|]. intros n Hn. destruct (Hs n Hn) as (Hnn & d & He & Hd).
    rewrite Hin in Hnn, Hd. split; [done|]. by exists d.
Qed.

(** C13: The initialisation order respects the dependencies, and exists exactly
    when it can.  For every iteration order of the extensions map and every
    graph on them: [getInitOrder] terminates; a returned order names every
    extension exactly once, the extensions without dependencies first and
    sorted, and each extension after all its dependencies; an error names
    extensions that each wait for another of them or for an extension that is
    not there; and if every dependency is one of the extensions, it succeeds if
    and only if the graph is acyclic. *)
Theorem get_init_order_correct (exts : gmap string Ext) (g : graph) (names : list string) :
  names ≡ₚ elements (dom exts) → dom g ⊆ dom exts →
  match getInitOrder names exts (Some g) with
  | Ok o =>
      o ≡ₚ names ∧ NoDup o ∧
      (∃ l, o = merge_sort String.le (filter (λ n, deps_of g n = []) names) ++ l) ∧
      ∀ l1 n l2 d, o = l1 ++ n :: l2 → edge g n d → d ∈ l1
  | Err (ECyclic rest) =>
      rest ≠ [] ∧ ∀ n, n ∈ rest → n ∈ dom exts ∧ ∃ d, edge g n d ∧ (d ∈ rest ∨ d ∉ dom exts)
  | _ => False
  end ∧
  ((∀ n d, edge g n d → d ∈ dom exts) →
     (∃ o, getInitOrder names exts (Some g) = Ok o) ↔ acyclic g).
Proof.
  intros Hp Hdom. assert (NoDup names) as Hnd by (rewrite Hp; apply NoDup_elements).
  assert (∀ n, n ∈ names ↔ n ∈ dom exts) as Hin by (intros n; by rewrite Hp, elem_of_elements).
  split.
  - pose proof (init_order_facts exts g names Hp) as Hf. pose proof (init_order_spec names exts g Hnd) as Hs.
    destruct (getInitOrder names exts (Some g)) as [o|[rest]| |]; [|done..].
    destruct Hs as (_ & Ho & l & Hl), Hf as [_ Hf]. split; [done|]. split; [by rewrite Ho|]. split; [|done].
    exists l. rewrite Hl. do 2 f_equal. apply list_filter_ext_elem. intros n _. apply has_deps_false.
  - intros Hcl. split.
    + intros (o & Ho). eapply init_order_acyclic; [done| |exact Ho]. intros n Hn. apply Hin. by apply Hdom.
    + intros Ha. apply init_order_succeeds; [done| |done]. intros n d _ He. apply Hin. by eapply Hcl.
Qed.

Lemma get_init_order_correct_witness :
  let exts : gmap string Ext := {["web" := mkExt "web" []; "db" := mkExt "db" []; "auth" := mkExt "auth" []]} in
  let g : graph := {["web" := ["auth"; "db"]; "db" := []; "auth" := ["db"]]} in
  getInitOrder ["web"; "auth"; "db"] exts (Some g) = Ok ["db"; "auth"; "web"] ∧
  ∀ l1 n l2 d, ["db"; "auth"; "web"] = l1 ++ n :: l2 → edge g n d → d ∈ l1.
Proof.
  intros exts g. assert (getInitOrder ["web"; "auth"; "db"] exts (Some g) = Ok ["db"; "auth"; "web"]) as E
    by (vm_compute; reflexivity).
  split; [exact E|].
  destruct (get_init_order_correct exts g ["web"; "auth"; "db"]) as [H _].
  - apply (bool_decide_unpack _). vm_compute. exact I.
  - apply (bool_decide_unpack _). vm_compute. exact I.
  - rewrite E in H. apply H.
Defined.
