(* ===== verification/Lifecycle.v ===== *)
(** * The extension manager's lifecycle

    Models src/extension/manager: registration, [InitExtensions] and its three
    phases (lifecycle.go), the built-in plugin loader and [UnloadPlugin]
    (plugin.go), the service map (service_call.go) and the clean-up
    (manager.go).  The state is the manager's maps, its mutex and the sequence
    of calls made on the extensions.  What an extension's method returns is a
    parameter of the development, a function of the calls made so far.
    Logging, events, metrics, service discovery and the optional security
    components have no effect on this state and are left out. *)

From stdpp Require Import base tactics option list gmap strings sorting.
From S2P Require Import Prelude DepGraph Registry InitOrder.

(** ** State *)

Inductive phase := PreInit | Init | PostInit | PreCleanup | CleanupCall.
#[global] Instance phase_eq_dec : EqDecision phase.
Proof. solve_decision. Defined.

(** A call of one of the extension's methods, under the name it is stored at. *)
Abbreviation call := (phase * string)%type.

Record Manager := mkManager {
  extensions : gmap string Ext; initialized : bool; crossServices : gmap string nat;
  mu_locked : bool; trace : list call }.

Definition NewManager : Manager := mkManager ∅ false ∅ false [].

Inductive mgr_error :=
| EAlreadyInitialized | EAfterInit | EDuplicate (name : string) | ENotFound (name : string)
| EMissingDep (name dep : string) | EOrder (e : init_error) | EPhase (p : phase) (name err : string)
| ECleanup (err : string).

(** A computation of one goroutine on the manager.  [None]: it does not return
    (it waits for a lock it holds itself, or the process ended because it
    unlocked a mutex that was not locked). *)
Definition M (A : Type) : Type := Manager → option (A * Manager).
#[global] Instance M_ret : MRet M := λ A a m, Some (a, m).
#[global] Instance M_bind : MBind M := λ A B k c m, match c m with Some (a, m') => k a m' | None => None end.

Definition get : M Manager := λ m, Some (m, m).
Definition set_extensions (e : gmap string Ext) : M () := λ m,
  Some ((), mkManager e (initialized m) (crossServices m) (mu_locked m) (trace m)).
Definition set_initialized (b : bool) : M () := λ m,
  Some ((), mkManager (extensions m) b (crossServices m) (mu_locked m) (trace m)).
Definition set_crossServices (s : gmap string nat) : M () := λ m,
  Some ((), mkManager (extensions m) (initialized m) s (mu_locked m) (trace m)).
Definition set_locked (b : bool) (m : Manager) : Manager :=
  mkManager (extensions m) (initialized m) (crossServices m) b (trace m).

(** [m.mu.Lock()] and [m.mu.Unlock()]; [sync.RWMutex] is not reentrant. *)
Definition Lock : M () := λ m, if mu_locked m then None else Some ((), set_locked true m).
Definition Unlock : M () := λ m, if mu_locked m then Some ((), set_locked false m) else None.

(** [m.mu.Lock(); defer m.mu.Unlock()]. *)
Definition locked {A} (c : M A) : M A := _ ← Lock; a ← c; _ ← Unlock; mret a.

(** ** Operations *)

Definition RegisterExtension (e : Ext) : M (res mgr_error ()) :=
  locked (
    m ← get;
    if initialized m then mret (Err EAfterInit)
    else if bool_decide (is_Some (extensions m !! Name e)) then mret (Err (EDuplicate (Name e)))
    else _ ← set_extensions (<[Name e := e]> (extensions m)); mret (Ok tt)).

Definition GetExtensionByName (name : string) : M (res mgr_error Ext) :=
  locked (m ← get; mret (of_opt (extensions m !! name) (ENotFound name))).

Definition RegisterCrossService (key : string) (service : nat) : M () :=
  locked (m ← get; set_crossServices (<[key := service]> (crossServices m))).

(** [checkDependencies], the maps iterated in the order [names]. *)
Fixpoint firstMissing (exts : gmap string Ext) (name : string) (ds : list string) : option mgr_error :=
  match ds with
  | [] => None
  | d :: ds' => if bool_decide (is_Some (exts !! d)) then firstMissing exts name ds' else Some (EMissingDep name d)
  end.

Fixpoint checkDependencies (exts : gmap string Ext) (names : list string) : option mgr_error :=
  match names with
  | [] => None
  | n :: ns =>
      match exts !! n with
      | Some e =>
          match firstMissing exts n (Dependencies e) with
          | Some err => Some err
          | None => checkDependencies exts ns
          end
      | None => checkDependencies exts ns
      end
  end.

(** [shouldLoadPlugin] with the configured lists. *)
Definition shouldLoadPlugin (includes excludes : list string) (name : string) : bool :=
  match includes with
  | _ :: _ => bool_decide (name ∈ includes)
  | [] => bool_decide (name ∉ excludes)
  end.

(** [removeCrossServicesForExtension]: takes the lock itself. *)
Definition removeCrossServicesForExtension (name : string) : M () :=
  locked (
    m ← get;
    set_crossServices (filter (λ kv, String.prefix (name +:+ ".") kv.1 = false) (crossServices m))).

Section Extensions.
(** What the next call returns: [None] is a nil error. *)
Context (outcome : list call → call → option string).

Definition call_ext (p : phase) (name : string) : M (option string) := λ m,
  Some (outcome (trace m) (p, name),
    mkManager (extensions m) (initialized m) (crossServices m) (mu_locked m) (trace m ++ [(p, name)])).

(** The inner loop of [initializeExtensionsInPhases]. *)
Fixpoint run_phase (p : phase) (order : list string) : M (res mgr_error ()) :=
  match order with
  | [] => mret (Ok tt)
  | n :: ns =>
      r ← call_ext p n;
      match r with
      | Some err => mret (Err (EPhase p n err))
      | None => run_phase p ns
      end
  end.

Fixpoint run_phases (ps : list phase) (order : list string) : M (res mgr_error ()) :=
  match ps with
  | [] => mret (Ok tt)
  | p :: ps' =>
      r ← run_phase p order;
      match r with
      | Ok _ => run_phases ps' order
      | e => mret e
      end
  end.

Definition initializeExtensionsInPhases (order : list string) : M (res mgr_error ()) :=
  run_phases [PreInit; Init; PostInit] order.

(** [initExtensionsInternal]: [reg] is the registry, [o] the orders of its
    resolution, [chk] and [names] those of the two iterations over the
    manager's extensions. *)
Definition InitExtensions (reg : registry) (o : orders) (chk names : gmap string Ext → list string) :
    M (res mgr_error ()) :=
  _ ← Lock; m ← get; _ ← Unlock;
  if initialized m then mret (Err EAlreadyInitialized)
  else
    match GetExtensionsAndDependencies o reg with
    | None => λ _, None
    | Some (registered, graph) =>
        _ ← Lock; m ← get; _ ← set_extensions (extensions m ∪ registered); m ← get;
        match checkDependencies (extensions m) (chk (extensions m)) with
        | Some err => _ ← Unlock; mret (Err err)
        | None =>
            match getInitOrder (names (extensions m)) (extensions m) (Some graph) with
            | Ok order =>
                _ ← Unlock;
                r ← initializeExtensionsInPhases order;
                match r with
                | Ok _ => _ ← Lock; _ ← set_initialized true; _ ← Unlock; mret (Ok tt)
                | e => mret e
                end
            | Err e => _ ← Unlock; mret (Err (EOrder e))
            | Panic => mret Panic
            | NoFuel => mret NoFuel
            end
        end
    end.

(** [initializePlugin] and [loadBuiltInPlugins]. *)
Definition initializePlugin (name : string) : M (res mgr_error ()) := run_phases [PreInit; Init; PostInit] [name].

Fixpoint loadBuiltInPlugins (should : string → bool) (plugins : list Ext) : M () :=
  match plugins with
  | [] => mret tt
  | p :: ps =>
      if should (Name p) then
        r ← initializePlugin (Name p);
        match r with
        | Ok _ =>
            m ← get; _ ← set_extensions (<[Name p := p]> (extensions m)); loadBuiltInPlugins should ps
        | _ => loadBuiltInPlugins should ps
        end
      else loadBuiltInPlugins should ps
  end.

(** [UnloadPlugin]. *)
Definition UnloadPlugin (name : string) : M (res mgr_error ()) :=
  locked (
    m ← get;
    match extensions m !! name with
    | None => mret (Err (ENotFound name))
    | Some _ =>
        _ ← call_ext PreCleanup name;
        r ← call_ext CleanupCall name;
        match r with
        | Some err => mret (Err (ECleanup err))
        | None =>
            _ ← set_extensions (delete name (extensions m));
            _ ← removeCrossServicesForExtension name;
            mret (Ok tt)
        end
    end).

(** [cleanupExtensions], the copied map iterated in the order [names]; and
    [Cleanup]. *)
Fixpoint cleanupExtensions (names : list string) : M () :=
  match names with
  | [] => mret tt
  | n :: ns => _ ← call_ext PreCleanup n; _ ← call_ext CleanupCall n; cleanupExtensions ns
  end.

Definition Cleanup (names : gmap string Ext → list string) : M () :=
  _ ← Lock; m ← get; _ ← Unlock;
  _ ← cleanupExtensions (names (extensions m));
  locked (_ ← set_extensions ∅; _ ← set_crossServices ∅; set_initialized false).

End Extensions.

(** ** What the phases do *)

Definition phase_calls (ps : list phase) (order : list string) : list call :=
  concat ((λ p, (λ n, (p, n)) <$> order) <$> ps).

Definition with_trace (t : list call) (m : Manager) : Manager :=
  mkManager (extensions m) (initialized m) (crossServices m) (mu_locked m) t.

(** The result of running the calls [cs] from the trace [t]: all made and all
    nil, or made up to the first error. *)
Definition calls_result (outcome : list call → call → option string) (t cs : list call)
    (r : res mgr_error ()) (t' : list call) : Prop :=
  match r with
  | Ok _ => t' = t ++ cs
  | Err (EPhase p n err) =>
      ∃ pre suf, cs = pre ++ (p, n) :: suf ∧ t' = t ++ pre ++ [(p, n)] ∧ outcome (t ++ pre) (p, n) = Some err
  | _ => False
  end.

Section PhaseLemmas.
Context (outcome : list call → call → option string).

Lemma calls_result_app t cs1 cs2 r t1 t2 r2 :
  calls_result outcome t cs1 (Ok ()) t1 → calls_result outcome t1 cs2 r2 t2 → r = r2 →
  calls_result outcome t (cs1 ++ cs2) r t2.
Proof.
  simpl. intros -> H ->. destruct r2 as [[]|[]| |]; simpl in *; try done.
  - by rewrite H, app_assoc.
  - destruct H as (pre & suf & -> & -> & He). exists (cs1 ++ pre), suf. rewrite !app_assoc in *.
    split; [by rewrite <- !app_assoc|]. split; [by rewrite <- !app_assoc|done].
Qed.

Lemma calls_result_err t cs1 cs2 p n err t1 :
  calls_result outcome t cs1 (Err (EPhase p n err)) t1 → calls_result outcome t (cs1 ++ cs2) (Err (EPhase p n err)) t1.
Proof. intros (pre & suf & -> & -> & He). exists pre, (suf ++ cs2). by rewrite <- app_assoc. Qed.

Lemma run_phase_spec p order m :
  ∃ r t, run_phase outcome p order m = Some (r, with_trace t m) ∧
    calls_result outcome (trace m) ((λ n, (p, n)) <$> order) r t.
Proof.
  revert m; induction order as [|n ns IH]; intros m; simpl.
  - exists (Ok ()), (trace m). simpl. rewrite app_nil_r. by destruct m.
  - unfold mbind, M_bind, call_ext. destruct (outcome (trace m) (p, n)) as [err|] eqn:Ho.
    + eexists _, _. split; [reflexivity|]. exists [], ((λ n, (p, n)) <$> ns). by rewrite app_nil_r.
    + destruct (IH (with_trace (trace m ++ [(p, n)]) m)) as (r & t & Hr & Hc).
      exists r, t. split; [exact Hr|].
      apply (calls_result_app _ [(p, n)] _ r (trace m ++ [(p, n)]) t r); done.
Qed.

Lemma run_phases_spec ps order m :
  ∃ r t, run_phases outcome ps order m = Some (r, with_trace t m) ∧
    calls_result outcome (trace m) (phase_calls ps order) r t.
Proof.
  revert m; induction ps as [|p ps IH]; intros m; simpl.
  - exists (Ok ()), (trace m). simpl. rewrite app_nil_r. by destruct m.
  - destruct (run_phase_spec p order m) as (r & t & Hr & Hc). unfold mbind, M_bind. rewrite Hr.
    destruct r as [[]|[]| |]; try done.
    + destruct (IH (with_trace t m)) as (r2 & t2 & Hr2 & Hc2). exists r2, t2. split; [exact Hr2|].
      by eapply calls_result_app.
    + eexists _, _. split; [reflexivity|]. by apply calls_result_err.
Qed.

End PhaseLemmas.

Lemma firstMissing_spec exts n ds :
  match firstMissing exts n ds with
  | Some (EMissingDep n' d) => n' = n ∧ d ∈ ds ∧ exts !! d = None
  | Some _ => False
  | None => ∀ d, d ∈ ds → is_Some (exts !! d)
  end.
Proof.
  induction ds as [|d ds IH]; simpl; [intros d Hd; by apply not_elem_of_nil in Hd|].
  case_bool_decide as Hd.
  - destruct (firstMissing exts n ds) as [[]|]; try done.
    + destruct IH as (? & ? & ?). split; [done|]. split; [by right|done].
    + intros d' [-> |Hd']%elem_of_cons; auto.
  - split; [done|]. split; [left|]. by apply eq_None_not_Some.
Qed.

Lemma checkDependencies_spec exts names :
  match checkDependencies exts names with
  | Some (EMissingDep n d) => ∃ e, exts !! n = Some e ∧ d ∈ Dependencies e ∧ exts !! d = None
  | Some _ => False
  | None => ∀ n e d, n ∈ names → exts !! n = Some e → d ∈ Dependencies e → is_Some (exts !! d)
  end.
Proof.
  induction names as [|n ns IH]; simpl; [intros n e d Hn; by apply not_elem_of_nil in Hn|].
  destruct (exts !! n) as [e|] eqn:He.
  - pose proof (firstMissing_spec exts n (Dependencies e)) as Hf.
    destruct (firstMissing exts n (Dependencies e)) as [[]|]; try done.
    + destruct Hf as (-> & ? & ?). by exists e.
    + destruct (checkDependencies exts ns) as [[]|]; try done.
      intros n' e' d [-> |Hn']%elem_of_cons He' Hd; [|eauto]. simplify_eq. auto.
  - destruct (checkDependencies exts ns) as [[]|]; try done.
    intros n' e' d [-> |Hn']%elem_of_cons He' Hd; [congruence|eauto].
Qed.

(** ** Properties *)

(** C5: [InitExtensions] initialises everything, in phases and in dependency
    order, or says why not.  For every manager whose mutex is free, every
    registry, every iteration order and every behaviour of the extensions, it
    returns with the mutex free.  On an initialised manager it is refused and
    changes nothing.  Otherwise the registered extensions are added to the
    manager's, and: on success there is an order of all of them, in which each
    follows its dependencies in the resolved graph, such that every [PreInit]
    was called in that order, then every [Init], then every [PostInit], and
    nothing else; an error of an extension stops the sequence at that call,
    with the manager not initialised; a missing dependency or an impossible
    order is reported before any extension is called. *)
Theorem init_extensions_correct (outcome : list call → call → option string) (reg : registry) (o : orders)
    (chk names : gmap string Ext → list string) (m : Manager) :
  mu_locked m = false → valid_orders o reg (dependencyGraph reg) →
  (∀ e, chk e ≡ₚ elements (dom e)) → (∀ e, names e ≡ₚ elements (dom e)) →
  let exts := extensions m ∪ (Instance <$> reg) in
  ∃ r m' g, InitExtensions outcome reg o chk names m = Some (r, m') ∧ mu_locked m' = false ∧
    resolveDependencyGraph o reg (dependencyGraph reg) = Some g ∧
    if initialized m then r = Err EAlreadyInitialized ∧ m' = m
    else
      extensions m' = exts ∧ crossServices m' = crossServices m ∧
      match r with
      | Ok _ =>
          initialized m' = true ∧ ∃ order, order ≡ₚ elements (dom exts) ∧
            (∀ l1 n l2 d, order = l1 ++ n :: l2 → edge g n d → d ∈ l1) ∧
            trace m' = trace m ++ ((λ n, (PreInit, n)) <$> order) ++ ((λ n, (Init, n)) <$> order) ++
                         ((λ n, (PostInit, n)) <$> order)
      | Err (EPhase p n err) =>
          initialized m' = false ∧ ∃ order pre suf, order ≡ₚ elements (dom exts) ∧
            phase_calls [PreInit; Init; PostInit] order = pre ++ (p, n) :: suf ∧
            trace m' = trace m ++ pre ++ [(p, n)] ∧ outcome (trace m ++ pre) (p, n) = Some err
      | Err (EMissingDep n d) =>
          initialized m' = false ∧ trace m' = trace m ∧
            ∃ e, exts !! n = Some e ∧ d ∈ Dependencies e ∧ exts !! d = None
      | Err (EOrder (ECyclic rest)) =>
          initialized m' = false ∧ trace m' = trace m ∧ rest ≠ [] ∧
            ∀ n, n ∈ rest → ∃ d, edge g n d ∧ (d ∈ rest ∨ d ∉ dom exts)
      | _ => False
      end.
Proof.
  intros Hl Hv Hchk Hnames exts. destruct (resolve_spec o reg _ Hv) as (g & Hg & Hdom & _).
  unfold InitExtensions, mbind, M_bind, Lock, Unlock, get, mret, M_ret, GetExtensionsAndDependencies.
  rewrite Hl. cbn [set_locked mu_locked initialized extensions set_extensions crossServices trace].
  destruct (initialized m) eqn:Hi.
  { exists (Err EAlreadyInitialized), m, g. destruct m; simpl in *; subst. done. }
  rewrite Hg. cbn [set_locked mu_locked initialized extensions set_extensions crossServices trace]. fold exts.
  pose proof (checkDependencies_spec exts (chk exts)) as Hc.
  destruct (checkDependencies exts (chk exts)) as [err|].
  { destruct err; try contradiction. eexists _, _, g. split; [reflexivity|]. simpl. done. }
  assert (names exts ≡ₚ elements (dom exts)) as Hn by apply Hnames.
  pose proof (init_order_facts exts g (names exts) Hn) as Ho.
  destruct (getInitOrder (names exts) exts (Some g)) as [order|[rest]| |]; [| |done..].
  2:{ eexists _, _, g. split; [reflexivity|]. simpl. destruct Ho as [Hne Ho]. split_and!; try done.
      intros n Hin. by destruct (Ho n Hin). }
  destruct Ho as [Hperm Hbef]. set (m1 := mkManager _ _ _ _ _).
  destruct (run_phases_spec outcome [PreInit; Init; PostInit] order (set_locked false m1)) as (r & t & Hr & Hres).
  unfold initializeExtensionsInPhases. cbn [mu_locked m1]. rewrite Hr.
  destruct r as [[]|err| |]; simpl in Hres; [|destruct err; try contradiction|contradiction..].
  - eexists _, _, g. split; [reflexivity|]. simpl. split_and!; try done. exists order.
    split; [by transitivity (names exts)|]. split; [exact Hbef|]. rewrite Hres. unfold phase_calls. simpl. by rewrite app_nil_r.
  - destruct Hres as (pre & suf & Hcs & -> & Hout).
    eexists _, _, g. split; [reflexivity|]. simpl. split_and!; try done. exists order, pre, suf.
    split; [by transitivity (names exts)|]. done.
Qed.

(** A registry of two extensions, one on the other, and behaviours. *)
Definition two_exts : registry := Register (mkExt "app" ["db"]) (Register (mkExt "db" []) ∅).
Definition all_nil : list call → call → option string := λ _ _, None.
Definition map_keys (e : gmap string Ext) : list string := elements (dom e).

Lemma init_extensions_correct_witness :
  ∃ m', InitExtensions all_nil two_exts (canonical two_exts (dependencyGraph two_exts)) map_keys map_keys NewManager =
      Some (Ok (), m') ∧ initialized m' = true ∧ mu_locked m' = false ∧
    trace m' = [(PreInit, "db"); (PreInit, "app"); (Init, "db"); (Init, "app"); (PostInit, "db"); (PostInit, "app")].
Proof.
  destruct (init_extensions_correct all_nil two_exts (canonical two_exts (dependencyGraph two_exts)) map_keys map_keys
    NewManager eq_refl (canonical_valid _ _) (λ e, reflexivity _) (λ e, reflexivity _))
    as (r & m' & g & Hr & Hl & _ & _).
  assert ((λ x, (x.1, initialized x.2, trace x.2)) <$>
    InitExtensions all_nil two_exts (canonical two_exts (dependencyGraph two_exts)) map_keys map_keys NewManager =
    Some (Ok (), true, [(PreInit, "db"); (PreInit, "app"); (Init, "db"); (Init, "app"); (PostInit, "db"); (PostInit, "app")]))
    as Hv by (vm_compute; reflexivity).
  rewrite Hr in Hv. simpl in Hv. injection Hv as -> Hi Ht. exists m'. split; [exact Hr|]. split; [exact Hi|].
  split; [exact Hl|exact Ht].
Defined.

(** [UnloadPlugin] of a loaded plugin never returns.  With the mutex free:
    an unknown name is an error that changes nothing; if the plugin's [Cleanup]
    fails the error is returned and the plugin stays; and if it succeeds, the
    call waits forever for the mutex it holds itself
    ([removeCrossServicesForExtension] locks it again). *)
Theorem unload_plugin_deadlocks (outcome : list call → call → option string) (name : string) (m : Manager) :
  mu_locked m = false →
  match extensions m !! name with
  | None => UnloadPlugin outcome name m = Some (Err (ENotFound name), m)
  | Some _ =>
      match outcome (trace m ++ [(PreCleanup, name)]) (CleanupCall, name) with
      | Some err =>
          UnloadPlugin outcome name m =
            Some (Err (ECleanup err), with_trace (trace m ++ [(PreCleanup, name); (CleanupCall, name)]) m)
      | None => UnloadPlugin outcome name m = None
      end
  end.
Proof.
  intros Hl. unfold UnloadPlugin, locked, mbind, M_bind, Lock, Unlock, get, mret, M_ret, call_ext.
  rewrite Hl. simpl. destruct (extensions m !! name) as [e|].
  - simpl. destruct (outcome _ _) as [err|]; simpl; [|done].
    unfold with_trace, set_locked. simpl. by rewrite Hl, <- app_assoc.
  - simpl. destruct m; simpl in *; by subst.
Qed.

Lemma unload_plugin_deadlocks_witness :
  let m := mkManager {["p" := mkExt "p" []]} true ∅ false [] in UnloadPlugin all_nil "p" m = None.
Proof. intros m. exact (unload_plugin_deadlocks all_nil "p" m eq_refl). Defined.

(** ** Built-in plugins *)

Lemma load_builtin_spec outcome should ps m :
  ∃ m' cs, loadBuiltInPlugins outcome should ps m = Some (tt, m') ∧ trace m' = trace m ++ cs ∧
    initialized m' = initialized m ∧ mu_locked m' = mu_locked m ∧
    (∀ n, is_Some (extensions m !! n) → is_Some (extensions m' !! n)) ∧
    ((∀ t c, outcome t c = None) → ∀ p, p ∈ ps → should (Name p) = true →
       is_Some (extensions m' !! Name p) ∧ (Init, Name p) ∈ cs).
Proof.
  revert m; induction ps as [|p ps IH]; intros m; cbn [loadBuiltInPlugins].
  - exists m, []. rewrite app_nil_r. split_and!; try done. intros _ p Hp. by apply not_elem_of_nil in Hp.
  - destruct (should (Name p)) eqn:Hsh.
    + unfold mbind, M_bind, initializePlugin.
      destruct (run_phases_spec outcome [PreInit; Init; PostInit] [Name p] m) as (r & t & -> & Hc).
      assert (∃ cs1, t = trace m ++ cs1) as (cs1 & ->).
      { destruct r as [[]|[]| |]; simpl in Hc; try contradiction; [by eexists|].
        destruct Hc as (pre & suf & _ & -> & _). by eexists. }
      destruct r as [[]|err| |]; simpl in Hc; [| |contradiction..].
      * unfold get, set_extensions. cbn [extensions initialized crossServices mu_locked trace with_trace].
        destruct (IH (mkManager (<[Name p := p]> (extensions m)) (initialized m) (crossServices m) (mu_locked m)
          (trace m ++ cs1))) as (m' & cs & -> & Ht & Hi & Hl & He & Hall). cbn in Ht, Hi, Hl, He.
        exists m', (cs1 ++ cs). rewrite app_assoc. split_and!; try done.
        { intros n Hn. apply He. destruct (decide (n = Name p)) as [-> |]; [by rewrite lookup_insert_eq|].
          by rewrite lookup_insert_ne. }
        intros Hnil q Hq Hs. apply elem_of_cons in Hq as [-> |Hq].
        -- split; [apply He; by rewrite lookup_insert_eq|]. apply elem_of_app. left.
           apply (app_inv_head (trace m)) in Hc. rewrite Hc. right. left.
        -- destruct (Hall Hnil q Hq Hs) as [? ?]. split; [done|]. apply elem_of_app. by right.
      * destruct (IH (with_trace (trace m ++ cs1) m)) as (m' & cs & -> & Ht & Hi & Hl & He & Hall).
        cbn in Ht, Hi, Hl, He. exists m', (cs1 ++ cs). rewrite app_assoc. split_and!; try done.
        intros Hnil. exfalso. destruct err; try contradiction. destruct Hc as (pre & suf & _ & _ & Ho).
        by rewrite Hnil in Ho.
    + destruct (IH m) as (m' & cs & -> & Ht & Hi & Hl & He & Hall). exists m', cs. split_and!; try done.
      intros Hnil q Hq Hs. apply elem_of_cons in Hq as [-> |Hq]; [congruence|]. by apply Hall.
Qed.

Lemma init_extensions_trace outcome reg o chk names m m' :
  (∀ e, names e ≡ₚ elements (dom e)) →
  InitExtensions outcome reg o chk names m = Some (Ok (), m') →
  ∃ order, order ≡ₚ elements (dom (extensions m ∪ (Instance <$> reg))) ∧
    trace m' = trace m ++ phase_calls [PreInit; Init; PostInit] order.
Proof.
  intros Hnames. unfold InitExtensions, mbind, M_bind, Lock, Unlock, get, mret, M_ret, GetExtensionsAndDependencies.
  destruct (mu_locked m); [done|]. cbn [set_locked mu_locked initialized extensions set_extensions crossServices trace].
  destruct (initialized m); [done|]. destruct (resolveDependencyGraph _ _ _) as [g|]; [|done].
  cbn [set_locked mu_locked initialized extensions set_extensions crossServices trace].
  destruct (checkDependencies _ _); [done|]. set (exts := extensions m ∪ _).
  pose proof (init_order_facts exts g (names exts) (Hnames exts)) as Ho.
  destruct (getInitOrder _ _ _) as [order|[rest]| |]; [|done..]. destruct Ho as [Hperm _].
  set (m1 := mkManager _ _ _ _ _).
  destruct (run_phases_spec outcome [PreInit; Init; PostInit] order (set_locked false m1)) as (r & t & Hr & Hres).
  unfold initializeExtensionsInPhases. cbn [mu_locked m1]. rewrite Hr.
  destruct r as [[]|err| |]; try done. simpl. intros [= <-]. exists order.
  split; [by transitivity (names exts)|exact Hres].
Qed.

Definition is_init (n : string) (c : call) : bool := bool_decide (c = (Init, n)).

(** A built-in plugin is initialised twice.  For every list of plugins whose
    methods never fail: after [loadBuiltInPlugins] and a successful
    [InitExtensions], the [Init] of every loaded plugin has been called at least
    twice (and so have [PreInit] and [PostInit], which run with it): the loader
    initialises it and leaves it in the extensions that [InitExtensions]
    initialises again. *)
Theorem builtin_plugins_initialised_twice (outcome : list call → call → option string) (should : string → bool)
    (ps : list Ext) (reg : registry) (o : orders) (chk names : gmap string Ext → list string)
    (m m1 m2 : Manager) (p : Ext) :
  (∀ t c, outcome t c = None) → (∀ e, names e ≡ₚ elements (dom e)) →
  loadBuiltInPlugins outcome should ps m = Some (tt, m1) →
  InitExtensions outcome reg o chk names m1 = Some (Ok (), m2) →
  p ∈ ps → should (Name p) = true → 2 ≤ count (is_init (Name p)) (trace m2).
Proof.
  intros Hnil Hnames Hload Hinit Hp Hs.
  destruct (load_builtin_spec outcome should ps m) as (m1' & cs & Hload' & Ht & _ & _ & _ & Hall).
  rewrite Hload in Hload'. injection Hload' as <-. destruct (Hall Hnil p Hp Hs) as [Hin Hcs].
  destruct (init_extensions_trace _ _ _ _ _ _ _ Hnames Hinit) as (order & Hord & Ht2).
  assert (Name p ∈ order) as Hpo.
  { rewrite Hord. apply elem_of_elements, elem_of_dom. rewrite lookup_union_is_Some. by left. }
  assert ((Init, Name p) ∈ phase_calls [PreInit; Init; PostInit] order) as Hpc.
  { unfold phase_calls. simpl. rewrite !elem_of_app. right. left. by apply (list_elem_of_fmap_2 (λ n, (Init, n))). }
  assert (is_init (Name p) (Init, Name p) = true) as Hi by (by apply bool_decide_eq_true).
  rewrite Ht2, Ht, !count_app.
  pose proof (count_elem _ _ _ Hcs Hi). pose proof (count_elem _ _ _ Hpc Hi). lia.
Qed.

Definition builtin_run : option (Manager * Manager) :=
  match loadBuiltInPlugins all_nil (shouldLoadPlugin [] []) [mkExt "cache" []] NewManager with
  | Some (_, m1) =>
      match InitExtensions all_nil two_exts (canonical two_exts (dependencyGraph two_exts)) map_keys map_keys m1 with
      | Some (Ok _, m2) => Some (m1, m2)
      | _ => None
      end
  | None => None
  end.

Lemma builtin_plugins_initialised_twice_witness :
  ∃ m1 m2, builtin_run = Some (m1, m2) ∧ 2 ≤ count (is_init "cache") (trace m2).
Proof.
  assert (is_some_b builtin_run = true) as Hb by (vm_compute; reflexivity). unfold builtin_run in *.
  destruct (loadBuiltInPlugins all_nil (shouldLoadPlugin [] []) [mkExt "cache" []] NewManager) as [[[] m1]|] eqn:E1;
    [|discriminate Hb].
  destruct (InitExtensions all_nil two_exts _ map_keys map_keys m1) as [[[[]| | |] m2]|] eqn:E2; try discriminate Hb.
  exists m1, m2. split; [reflexivity|].
  apply (builtin_plugins_initialised_twice all_nil (shouldLoadPlugin [] []) [mkExt "cache" []] two_exts
    (canonical two_exts (dependencyGraph two_exts)) map_keys map_keys NewManager m1 m2 (mkExt "cache" [])).
  - intros t c. reflexivity.
  - intros e. reflexivity.
  - exact E1.
  - exact E2.
  - left.
  - reflexivity.
Defined.

(** An extension added with [RegisterExtension] is not ordered by its
    dependencies.  "api" depends on "db", the manager knows
    "api" only through [RegisterExtension], and "db" is in the registry;
    [InitExtensions] accepts both and calls [Init] of "api" first. *)
Theorem direct_registration_ignores_dependencies :
  ∃ m1 m2, RegisterExtension (mkExt "api" ["db"]) NewManager = Some (Ok (), m1) ∧
    InitExtensions all_nil (Register (mkExt "db" []) ∅)
      (canonical (Register (mkExt "db" []) ∅) (dependencyGraph (Register (mkExt "db" []) ∅))) map_keys map_keys m1 =
      Some (Ok (), m2) ∧
    trace m2 = [(PreInit, "api"); (PreInit, "db"); (Init, "api"); (Init, "db"); (PostInit, "api"); (PostInit, "db")].
Proof.
  set (m1 := mkManager {["api" := mkExt "api" ["db"]]} false ∅ false []).
  set (reg := Register (mkExt "db" []) ∅).
  set (r := InitExtensions all_nil reg (canonical reg (dependencyGraph reg)) map_keys map_keys m1).
  assert ((λ x, (x.1, trace x.2)) <$> r =
    Some (Ok (), [(PreInit, "api"); (PreInit, "db"); (Init, "api"); (Init, "db"); (PostInit, "api"); (PostInit, "db")]))
    as ([r1 m2] & Hr & [= <- Ht])%fmap_Some by (vm_compute; reflexivity).
  exists m1, m2. split; [reflexivity|]. split; [exact Hr|by symmetry].
Qed.
