(* ===== verification/Base64.v ===== *)
(** * URL-safe base64 and decimal integers

    What src/paging/paging.go uses of encoding/base64, strconv and strings:
    [base64.URLEncoding], [strconv.ParseInt(s, 10, 64)], [strings.SplitN(s,
    sep, 2)], with the round trips the cursors rely on. *)

From stdpp Require Import base tactics option list strings numbers pretty.
From Stdlib Require Import ZArith Ascii Lia.
From S2P Require Import Prelude Lexer Float64.

(** ** The alphabet *)

Definition byte_of (z : Z) : ascii := ascii_of_N (Z.to_N z).
Definition code_of (c : ascii) : Z := Z.of_N (N_of_ascii c).

(** [A-Z a-z 0-9 - _], by value. *)
Definition enc_char (v : Z) : ascii :=
  if (v <? 26)%Z then byte_of (v + 65)
  else if (v <? 52)%Z then byte_of (v - 26 + 97)
  else if (v <? 62)%Z then byte_of (v - 52 + 48)
  else if (v =? 62)%Z then "-"%char else "_"%char.

Definition dec_char (c : ascii) : option Z :=
  if byte_between "A" "Z" c then Some (code_of c - 65)%Z
  else if byte_between "a" "z" c then Some (code_of c - 97 + 26)%Z
  else if isDigit c then Some (code_of c - 48 + 52)%Z
  else if Ascii.eqb c "-" then Some 62%Z
  else if Ascii.eqb c "_" then Some 63%Z
  else None.

(** ** Encoding *)

Definition pad : ascii := "="%char.

Fixpoint EncodeToString (s : string) : string :=
  match s with
  | EmptyString => EmptyString
  | String a EmptyString =>
      let v := Z.shiftl (code_of a) 16 in
      String (enc_char (Z.land (Z.shiftr v 18) 63)) (String (enc_char (Z.land (Z.shiftr v 12) 63))
        (String pad (String pad EmptyString)))
  | String a (String b EmptyString) =>
      let v := Z.lor (Z.shiftl (code_of a) 16) (Z.shiftl (code_of b) 8) in
      String (enc_char (Z.land (Z.shiftr v 18) 63)) (String (enc_char (Z.land (Z.shiftr v 12) 63))
        (String (enc_char (Z.land (Z.shiftr v 6) 63)) (String pad EmptyString)))
  | String a (String b (String c s')) =>
      let v := Z.lor (Z.lor (Z.shiftl (code_of a) 16) (Z.shiftl (code_of b) 8)) (code_of c) in
      String (enc_char (Z.land (Z.shiftr v 18) 63)) (String (enc_char (Z.land (Z.shiftr v 12) 63))
        (String (enc_char (Z.land (Z.shiftr v 6) 63)) (String (enc_char (Z.land v 63)) (EncodeToString s'))))
  end.

(** ** Decoding *)

(** Carriage returns and line feeds are skipped wherever they are. *)
Fixpoint strip_newlines (s : string) : string :=
  match s with
  | EmptyString => EmptyString
  | String c s' =>
      if Ascii.eqb c "013" || Ascii.eqb c "010" then strip_newlines s' else String c (strip_newlines s')
  end.

(** The quanta of four characters; padding only ends the text.  The bits of the
    last quantum that no byte uses are not checked. *)
Fixpoint decode_quanta (s : string) : option string :=
  match s with
  | EmptyString => Some EmptyString
  | String c1 (String c2 (String c3 (String c4 s'))) =>
      match dec_char c1, dec_char c2 with
      | Some v1, Some v2 =>
          if Ascii.eqb c3 pad then
            if Ascii.eqb c4 pad && String.eqb s' EmptyString
            then Some (String (byte_of (Z.land (Z.shiftr (Z.lor (Z.shiftl v1 18) (Z.shiftl v2 12)) 16) 255)) EmptyString)
            else None
          else
            match dec_char c3 with
            | Some v3 =>
                let v := Z.lor (Z.lor (Z.shiftl v1 18) (Z.shiftl v2 12)) (Z.shiftl v3 6) in
                if Ascii.eqb c4 pad then
                  if String.eqb s' EmptyString
                  then Some (String (byte_of (Z.land (Z.shiftr v 16) 255))
                         (String (byte_of (Z.land (Z.shiftr v 8) 255)) EmptyString))
                  else None
                else
                  match dec_char c4, decode_quanta s' with
                  | Some v4, Some r =>
                      let v := Z.lor v v4 in
                      Some (String (byte_of (Z.land (Z.shiftr v 16) 255))
                        (String (byte_of (Z.land (Z.shiftr v 8) 255)) (String (byte_of (Z.land v 255)) r)))
                  | _, _ => None
                  end
            | None => None
            end
      | _, _ => None
      end
  | _ => None
  end.

Definition DecodeString (s : string) : option string := decode_quanta (strip_newlines s).

(** ** Round trip *)

Lemma code_range c : (0 ≤ code_of c < 256)%Z.
Proof. unfold code_of. pose proof (N_ascii_bounded c). lia. Qed.

Lemma byte_of_code c : byte_of (code_of c) = c.
Proof. unfold byte_of, code_of. by rewrite N2Z.id, ascii_N_embedding. Qed.

(** Every six-bit value has its own character, which is not the padding. *)
Definition alphabet_ok (v : Z) : bool :=
  bool_decide (dec_char (enc_char v) = Some v) && negb (Ascii.eqb (enc_char v) pad) &&
  negb (Ascii.eqb (enc_char v) "013") && negb (Ascii.eqb (enc_char v) "010").

Lemma alphabet v : (0 ≤ v < 64)%Z → alphabet_ok v = true.
Proof.
  intros Hv. assert (forallb (λ n, alphabet_ok (Z.of_nat n)) (seq 0 64) = true) as H by (vm_compute; reflexivity).
  rewrite forallb_forall in H. rewrite <- (Z2Nat.id v) by lia. apply H. apply in_seq. lia.
Qed.

Lemma dec_enc_char v : (0 ≤ v < 64)%Z → dec_char (enc_char v) = Some v.
Proof. intros Hv%alphabet. unfold alphabet_ok in Hv. rewrite !andb_true_iff, bool_decide_eq_true in Hv. tauto. Qed.

Lemma enc_char_plain v : (0 ≤ v < 64)%Z →
  Ascii.eqb (enc_char v) pad = false ∧ Ascii.eqb (enc_char v) "013" || Ascii.eqb (enc_char v) "010" = false.
Proof.
  intros Hv%alphabet. unfold alphabet_ok in Hv. rewrite !andb_true_iff, !negb_true_iff in Hv.
  destruct Hv as [[[_ H1] H2] H3]. by rewrite H1, H2, H3.
Qed.

(** Disjoint bits: an or is a sum. *)
Lemma lor_low a b n : (0 ≤ n)%Z → (0 ≤ b < 2 ^ n)%Z → Z.lor (Z.shiftl a n) b = (a * 2 ^ n + b)%Z.
Proof.
  intros Hn Hb. rewrite Z.shiftl_mul_pow2 by done.
  assert (Z.land (a * 2 ^ n) b = 0)%Z as Hl.
  { apply Z.bits_inj'. intros m Hm. rewrite Z.land_spec, Z.bits_0. destruct (Z.lt_ge_cases m n).
    - by rewrite Z.mul_pow2_bits_low.
    - rewrite <- (Z.mod_small b (2 ^ n)) by done. by rewrite Z.mod_pow2_bits_high, andb_false_r. }
  rewrite <- Z.lxor_lor by done. symmetry. by apply Z.add_nocarry_lxor.
Qed.

Lemma land_63 v : Z.land v 63 = (v `mod` 64)%Z.
Proof. change 63%Z with (Z.ones 6). by rewrite Z.land_ones. Qed.

Lemma land_255 v : Z.land v 255 = (v `mod` 256)%Z.
Proof. change 255%Z with (Z.ones 8). by rewrite Z.land_ones. Qed.

Lemma lor3 a b c : (0 ≤ a < 256)%Z → (0 ≤ b < 256)%Z → (0 ≤ c < 256)%Z →
  Z.lor (Z.lor (Z.shiftl a 16) (Z.shiftl b 8)) c = (a * 65536 + b * 256 + c)%Z.
Proof.
  intros Ha Hb Hc. rewrite <- Z.lor_assoc, (lor_low b c 8), (lor_low a _ 16); lia.
Qed.

Lemma lor4 w x y z : (0 ≤ w < 64)%Z → (0 ≤ x < 64)%Z → (0 ≤ y < 64)%Z → (0 ≤ z < 64)%Z →
  Z.lor (Z.lor (Z.lor (Z.shiftl w 18) (Z.shiftl x 12)) (Z.shiftl y 6)) z = (w * 262144 + x * 4096 + y * 64 + z)%Z.
Proof.
  intros Hw Hx Hy Hz. rewrite <- !Z.lor_assoc, (lor_low y z 6), (lor_low x _ 12), (lor_low w _ 18); lia.
Qed.

(** The four six-bit fields of a 24-bit value, and back. *)
Definition field (v k : Z) : Z := Z.land (Z.shiftr v k) 63.

Lemma field_range v k : (0 ≤ field v k < 64)%Z.
Proof. unfold field. rewrite land_63. by apply Z.mod_pos_bound. Qed.

Create HintDb base64.
#[export] Hint Resolve field_range code_range : base64.

Lemma fields_join v : (0 ≤ v < 16777216)%Z →
  Z.lor (Z.lor (Z.lor (Z.shiftl (field v 18) 18) (Z.shiftl (field v 12) 12)) (Z.shiftl (field v 6) 6)) (field v 0) = v.
Proof.
  intros Hv. rewrite lor4 by auto with base64. unfold field. rewrite !land_63, !Z.shiftr_div_pow2 by lia.
  change (2 ^ 18)%Z with 262144%Z. change (2 ^ 12)%Z with 4096%Z. change (2 ^ 6)%Z with 64%Z. change (2 ^ 0)%Z with 1%Z.
  Z.to_euclidean_division_equations. lia.
Qed.

(** The bytes of a 24-bit value. *)
Lemma bytes_split a b c v :
  (0 ≤ a < 256)%Z → (0 ≤ b < 256)%Z → (0 ≤ c < 256)%Z → v = (a * 65536 + b * 256 + c)%Z →
  Z.land (Z.shiftr v 16) 255 = a ∧ Z.land (Z.shiftr v 8) 255 = b ∧ Z.land v 255 = c.
Proof.
  intros Ha Hb Hc ->. rewrite !land_255, !Z.shiftr_div_pow2 by lia.
  change (2 ^ 16)%Z with 65536%Z. change (2 ^ 8)%Z with 256%Z.
  split_and!; Z.to_euclidean_division_equations; lia.
Qed.

Lemma field_0 v : Z.land v 63 = field v 0.
Proof. unfold field. by rewrite Z.shiftr_0_r. Qed.

Lemma string_ind3 (P : string → Prop) :
  P EmptyString → (∀ a, P (String a EmptyString)) → (∀ a b, P (String a (String b EmptyString))) →
  (∀ a b c s, P s → P (String a (String b (String c s)))) → ∀ s, P s.
Proof.
  intros H0 H1 H2 H3. fix IH 1. intros [|a [|b [|c s]]]; [exact H0|exact (H1 a)|exact (H2 a b)|apply H3, IH].
Qed.

Lemma strip_char v s : (0 ≤ v < 64)%Z → strip_newlines (String (enc_char v) s) = String (enc_char v) (strip_newlines s).
Proof. intros Hv. cbn [strip_newlines]. by destruct (enc_char_plain v Hv) as [_ ->]. Qed.

Lemma strip_encoded s : strip_newlines (EncodeToString s) = EncodeToString s.
Proof.
  induction s as [|a|a b|a b c s IH] using string_ind3; [done|..]; cbn [EncodeToString]; cbv zeta;
    rewrite ?field_0; fold (field (Z.shiftl (code_of a) 16) 18) (field (Z.shiftl (code_of a) 16) 12).
  - by rewrite !strip_char by auto with base64.
  - set (v := Z.lor _ _). fold (field v 18) (field v 12) (field v 6). by rewrite !strip_char by auto with base64.
  - set (v := Z.lor (Z.lor _ _) _). fold (field v 18) (field v 12) (field v 6).
    rewrite !strip_char by auto with base64. by rewrite IH.
Qed.

Lemma decode_encode_quanta s : decode_quanta (EncodeToString s) = Some s.
Proof.
  induction s as [|a|a b|a b c s IH] using string_ind3; [done|..]; cbn [EncodeToString]; cbv zeta.
  - pose proof (code_range a) as Ha. set (v := Z.shiftl (code_of a) 16). fold (field v 18) (field v 12).
    cbn [decode_quanta]. rewrite !dec_enc_char by auto with base64. cbn [andb Ascii.eqb pad String.eqb].
    change (Ascii.eqb pad pad && String.eqb "" "") with true. cbv iota.
    assert (v = code_of a * 65536 + 0 * 256 + 0)%Z as Hv by (unfold v; rewrite Z.shiftl_mul_pow2 by lia; lia). clearbody v.
    assert (field v 6 = 0 ∧ field v 0 = 0)%Z as [H6 H0].
    { unfold field. rewrite !land_63, !Z.shiftr_div_pow2, Hv by lia.
      change (2 ^ 6)%Z with 64%Z. change (2 ^ 0)%Z with 1%Z. split; Z.to_euclidean_division_equations; lia. }
    pose proof (fields_join v ltac:(lia)) as Hj. rewrite H6, H0, Z.lor_0_r in Hj.
    rewrite Z.shiftl_0_l, Z.lor_0_r in Hj. rewrite Hj.
    destruct (bytes_split (code_of a) 0 0 v Ha ltac:(lia) ltac:(lia) Hv) as (-> & _). by rewrite byte_of_code.
  - pose proof (code_range a) as Ha. pose proof (code_range b) as Hb. set (v := Z.lor _ _).
    fold (field v 18) (field v 12) (field v 6).
    assert (v = code_of a * 65536 + code_of b * 256 + 0)%Z as Hv.
    { rewrite <- (lor3 _ _ 0) by lia. by rewrite Z.lor_0_r. }
    clearbody v. assert (field v 0 = 0)%Z as H0.
    { unfold field. rewrite !land_63, !Z.shiftr_div_pow2, Hv by lia.
      change (2 ^ 0)%Z with 1%Z. Z.to_euclidean_division_equations; lia. }
    cbn [decode_quanta]. rewrite !dec_enc_char by auto with base64.
    destruct (enc_char_plain (field v 6) (field_range v 6)) as [-> _].
    change (Ascii.eqb pad pad) with true. change (String.eqb "" "") with true. cbv iota zeta.
    pose proof (fields_join v ltac:(lia)) as Hj. rewrite H0, Z.lor_0_r in Hj. rewrite Hj.
    destruct (bytes_split (code_of a) (code_of b) 0 v Ha Hb ltac:(lia) Hv) as (-> & -> & _). by rewrite !byte_of_code.
  - pose proof (code_range a) as Ha. pose proof (code_range b) as Hb. pose proof (code_range c) as Hc.
    set (v := Z.lor (Z.lor _ _) _). rewrite (field_0 v). fold (field v 18) (field v 12) (field v 6).
    assert (v = code_of a * 65536 + code_of b * 256 + code_of c)%Z as Hv by (by apply lor3). clearbody v.
    cbn [decode_quanta]. rewrite !dec_enc_char by auto with base64.
    destruct (enc_char_plain (field v 6) (field_range v 6)) as [-> _].
    destruct (enc_char_plain (field v 0) (field_range v 0)) as [-> _].
    rewrite IH. cbv zeta. rewrite fields_join by lia.
    destruct (bytes_split _ _ _ v Ha Hb Hc Hv) as (-> & -> & ->). by rewrite !byte_of_code.
Qed.

Lemma decode_encode s : DecodeString (EncodeToString s) = Some s.
Proof. unfold DecodeString. rewrite strip_encoded. apply decode_encode_quanta. Qed.

#[global] Instance EncodeToString_inj : Inj (=) (=) EncodeToString.
Proof. intros s t H. pose proof (decode_encode s) as Hs. rewrite H, decode_encode in Hs. by simplify_eq. Qed.

(** ** [strconv.ParseInt(s, 10, 64)] and [strings.SplitN(s, ":", 2)] *)

Fixpoint read_digits (s : string) (acc : Z) : option Z :=
  match s with
  | EmptyString => Some acc
  | String c s' => if isDigit c then read_digits s' (acc * 10 + digit_val c) else None
  end.

(** A sign, then at least one digit, then nothing; the value in range. *)
Definition ParseInt (s : string) : option Z :=
  let '(neg, body) :=
    match s with
    | String c s' => if Ascii.eqb c "-" then (true, s') else if Ascii.eqb c "+" then (false, s') else (false, s)
    | EmptyString => (false, s)
    end in
  if String.eqb body EmptyString then None
  else
    match read_digits body 0 with
    | Some un =>
        if neg then if (un <=? 2 ^ 63)%Z then Some (- un)%Z else None
        else if (un <? 2 ^ 63)%Z then Some un else None
    | None => None
    end.

(** The parts before and after the first [sep], [None] when there is none (one
    part only). *)
Fixpoint SplitN2 (sep : ascii) (s : string) : option (string * string) :=
  match s with
  | EmptyString => None
  | String c s' =>
      if Ascii.eqb c sep then Some (EmptyString, s')
      else match SplitN2 sep s' with Some (a, b) => Some (String c a, b) | None => None end
  end.

Fixpoint has_byte (b : ascii) (s : string) : bool :=
  match s with EmptyString => false | String c s' => Ascii.eqb c b || has_byte b s' end.

Lemma SplitN2_spec sep s a b :
  SplitN2 sep s = Some (a, b) ↔ s = a +:+ String sep b ∧ has_byte sep a = false.
Proof.
  revert a. induction s as [|c s IH]; intros a; cbn [SplitN2].
  - split; [done|]. intros [H _]. by destruct a.
  - destruct (Ascii.eqb_spec c sep) as [-> |Hc].
    + split; [by intros [= <- <-]|]. intros [H Hb]. destruct a as [|c' a]; [by injection H as ->|].
      rewrite str_app_cons in H. injection H as -> _. cbn [has_byte] in Hb. by rewrite Ascii.eqb_refl in Hb.
    + split.
      * intros H. destruct (SplitN2 sep s) as [[a' b']|]; [|done]. injection H as <- <-.
        destruct (IH a') as [IH' _]. destruct IH' as [-> Hb]; [done|]. split; [done|]. cbn [has_byte].
        rewrite Hb. destruct (Ascii.eqb_spec c sep); done.
      * intros [H Hb]. destruct a as [|c' a]; [injection H as ->; done|]. rewrite str_app_cons in H.
        injection H as <- ->. cbn [has_byte] in Hb. apply orb_false_iff in Hb as [_ Hb].
        destruct (IH a) as [_ IH']. by rewrite IH'.
Qed.

(** Decimal notation reads back. *)
Lemma pretty_digit d : (d < 10)%N → isDigit (pretty_N_char d) = true ∧ digit_val (pretty_N_char d) = Z.of_N d.
Proof.
  intros Hd. assert (∃ n, d = N.of_nat n ∧ n < 10) as (n & -> & Hn) by (exists (N.to_nat d); lia).
  do 10 (destruct n as [|n]; [by split|]). lia.
Qed.

Lemma read_digits_go x s : read_digits (pretty_N_go x s) 0 = read_digits s (Z.of_N x).
Proof.
  revert s. induction (N.lt_wf_0 x) as [x _ IH]. intros s.
  destruct (decide (x = 0)%N) as [-> |Hx]; [by rewrite pretty_N_go_0|].
  rewrite pretty_N_go_step, IH by (try apply N.div_lt; lia). cbn [read_digits].
  destruct (pretty_digit (x `mod` 10)) as [-> ->]; [by apply N.mod_lt|].
  f_equal. pose proof (N.div_mod' x 10). lia.
Qed.

Lemma pretty_go_digit x s : (0 < x)%N → ∃ c t, pretty_N_go x s = String c t ∧ isDigit c = true.
Proof.
  revert s. induction (N.lt_wf_0 x) as [x _ IH]. intros s Hx. rewrite pretty_N_go_step by done.
  destruct (decide (x `div` 10 = 0)%N) as [-> |Hd].
  - rewrite pretty_N_go_0. eexists _, _. split; [done|]. apply pretty_digit. by apply N.mod_lt.
  - apply IH; [by apply N.div_lt|by apply N.neq_0_lt_0].
Qed.

Lemma ParseInt_pos p : (Z.pos p < 2 ^ 63)%Z → ParseInt (pretty (N.pos p)) = Some (Z.pos p).
Proof.
  intros Hp. unfold ParseInt. change (pretty (N.pos p)) with (pretty_N_go (N.pos p) "").
  pose proof (read_digits_go (N.pos p) "") as Hr. destruct (pretty_go_digit (N.pos p) "") as (c & t & E & Hc); [lia|].
  rewrite E in *. destruct (Ascii.eqb_spec c "-") as [-> |_]; [done|]. destruct (Ascii.eqb_spec c "+") as [-> |_]; [done|].
  cbn [String.eqb]. rewrite Hr. cbn [read_digits]. destruct (Z.ltb_spec (Z.of_N (N.pos p)) (2 ^ 63)); [done|lia].
Qed.

Lemma ParseInt_neg p : (Z.pos p ≤ 2 ^ 63)%Z → ParseInt (String "-" (pretty (N.pos p))) = Some (Z.neg p).
Proof.
  intros Hp. unfold ParseInt. change (pretty (N.pos p)) with (pretty_N_go (N.pos p) "").
  pose proof (read_digits_go (N.pos p) "") as Hr. destruct (pretty_go_digit (N.pos p) "") as (c & t & E & Hc); [lia|].
  rewrite E in *. cbn [Ascii.eqb Bool.eqb String.eqb]. rewrite Hr. cbn [read_digits].
  destruct (Z.leb_spec (Z.of_N (N.pos p)) (2 ^ 63)); [done|lia].
Qed.

(** Decimal notation reads back. *)
Lemma ParseInt_pretty z : (min_int64 ≤ z ≤ max_int64)%Z → ParseInt (pretty z) = Some z.
Proof.
  unfold min_int64, max_int64. destruct z as [|p|p]; intros Hz; [done|apply ParseInt_pos; lia|apply ParseInt_neg; lia].
Qed.
