(* ===== verification/Paging.v ===== *)
(** * Cursor pagination

    Models src/paging/paging.go: normalisation of the parameters, cursors, and
    [Paginate] over a data source that is a parameter. *)

From stdpp Require Import base tactics option list strings numbers pretty.
From Stdlib Require Import ZArith Ascii Lia.
From S2P Require Import Prelude Lexer Float64 Base64.

(** ** [strings.TrimSpace] and [strings.ToLower] *)

(** The UTF-8 encodings of the white space characters. *)
Definition bytes (l : list nat) : string := foldr (λ n s, String (ascii_of_nat n) s) EmptyString l.
Definition spaces : list string :=
  ((λ n, bytes [n]) <$> [9; 10; 11; 12; 13; 32]) ++
  [bytes [194; 133]; bytes [194; 160]; bytes [225; 154; 128]] ++
  ((λ n, bytes [226; 128; n]) <$> seq 128 11) ++
  [bytes [226; 128; 168]; bytes [226; 128; 169]; bytes [226; 128; 175]; bytes [226; 129; 159]; bytes [227; 128; 128]].

(** The rest of [s] after a prefix [p]. *)
Fixpoint strip_prefix (p s : string) : option string :=
  match p, s with
  | EmptyString, _ => Some s
  | String a p', String b s' => if Ascii.eqb a b then strip_prefix p' s' else None
  | _, EmptyString => None
  end.

Fixpoint first_prefix (ps : list string) (s : string) : option string :=
  match ps with
  | [] => None
  | p :: ps' => match strip_prefix p s with Some r => Some r | None => first_prefix ps' s end
  end.

Fixpoint trim_left (fuel : nat) (ps : list string) (s : string) : string :=
  match fuel with
  | O => s
  | S f => match first_prefix ps s with Some r => trim_left f ps r | None => s end
  end.

Fixpoint str_rev (s acc : string) : string :=
  match s with EmptyString => acc | String c s' => str_rev s' (String c acc) end.

Definition TrimSpace (s : string) : string :=
  let l := trim_left (String.length s) spaces s in
  str_rev (trim_left (String.length l) ((λ p, str_rev p "") <$> spaces) (str_rev l "")) "".

(** [ToLower] of ASCII letters and of the two other characters whose lower case
    is an ASCII letter (the Kelvin sign and the dotted capital I); the remaining
    characters stay non-ASCII, which is all that the comparison with "forward"
    and "backward" can tell. *)
Definition is_byte (n : nat) (c : ascii) : bool := Ascii.eqb c (ascii_of_nat n).

Fixpoint ToLower (s : string) : string :=
  match s with
  | EmptyString => EmptyString
  | String a EmptyString => String (lower_ascii a) EmptyString
  | String a (String b s2 as s1) =>
      if is_byte 196 a && is_byte 176 b then String "i" (ToLower s2)
      else
        match s2 with
        | String c s3 =>
            if is_byte 226 a && is_byte 132 b && is_byte 170 c then String "k" (ToLower s3)
            else String (lower_ascii a) (ToLower s1)
        | EmptyString => String (lower_ascii a) (ToLower s1)
        end
  end.

(** ** Cursors *)

Definition EncodeCursor (value : string) : string := EncodeToString value.

Inductive cursor_error := EBadEncoding | EBadFormat | EBadTimestamp.

Definition DecodeCursor (cursor : string) : res cursor_error (string * Z) :=
  match DecodeString cursor with
  | None => Err EBadEncoding
  | Some decoded =>
      match SplitN2 ":" decoded with
      | None => Err EBadFormat
      | Some (id, rest) =>
          match ParseInt rest with
          | None => Err EBadTimestamp
          | Some timestamp => Ok (id, timestamp)
          end
      end
  end.

(** ** Parameters *)

Record Params := mkParams { Cursor : string; Limit : Z; Direction : string }.

Definition NormalizeParams (p : Params) : Params :=
  let d := ToLower (TrimSpace (Direction p)) in
  mkParams (TrimSpace (Cursor p))
    (if (Limit p <=? 0)%Z || (1024 <? Limit p)%Z then 256%Z else Limit p)
    (if negb (String.eqb d "forward") && negb (String.eqb d "backward") then "forward" else d).

(** ** [Paginate] *)

Section Paginate.
Context {T E : Type} (GetCursorValue : T → string).

Record Result := mkResult {
  Items : list T; Total : Z; RCursor : string; NextCursor : string; PrevCursor : string;
  HasNext : bool; HasPrev : bool }.

(** A [PagingFunc]: the items and the total for a cursor, a limit and a
    direction, or an error. *)
Definition PagingFunc : Type := string → Z → string → res E (list T * Z).

Definition cursor_of (o : option T) : string :=
  match o with Some x => EncodeCursor (GetCursorValue x) | None => "" end.

Definition Paginate (params : Params) (paginateFunc : PagingFunc) : res E Result :=
  let params := NormalizeParams params in
  match paginateFunc (Cursor params) (Limit params + 1)%Z (Direction params) with
  | Err e => Err e
  | Panic => Panic
  | NoFuel => NoFuel
  | Ok (items, total) =>
      let hasMoreInDirection := (Limit params <? Z.of_nat (length items))%Z in
      let hasCursor := negb (String.eqb (Cursor params) "") in
      let backward := String.eqb (Direction params) "backward" in
      let hasNextPage := if backward then hasCursor else hasMoreInDirection in
      let hasPrevPage := if backward then hasMoreInDirection else hasCursor in
      let items := if hasMoreInDirection then take (Z.to_nat (Limit params)) items else items in
      let '(nextCursor, prevCursor, items) :=
        match items with
        | [] => ("", "", [])
        | _ :: _ =>
            if String.eqb (Direction params) "forward" || String.eqb (Direction params) "" then
              (if hasNextPage then cursor_of (list.last items) else "",
               if hasPrevPage then cursor_of (list.head items) else "", items)
            else
              (if hasPrevPage then cursor_of (list.last items) else "",
               if hasNextPage then cursor_of (list.head items) else "", reverse items)
        end in
      Ok (mkResult items total (Cursor params) nextCursor prevCursor hasNextPage hasPrevPage)
  end.

(** The client's loop: follow [NextCursor] from the first page until
    [HasNext] is false, collecting the items. *)
Fixpoint follow (fuel : nat) (limit : Z) (paginateFunc : PagingFunc) (cursor : string) (acc : list (list T)) :
    res E (list (list T)) :=
  match fuel with
  | O => NoFuel
  | S f =>
      match Paginate (mkParams cursor limit "forward") paginateFunc with
      | Ok r =>
          if HasNext r then follow f limit paginateFunc (NextCursor r) (acc ++ [Items r]) else Ok (acc ++ [Items r])
      | Err e => Err e
      | Panic => Panic
      | NoFuel => NoFuel
      end
  end.

End Paginate.
Arguments Result : clear implicits.
Arguments PagingFunc : clear implicits.

(** ** Cursors survive normalisation *)

Definition plain (c : ascii) : bool := is_some_b (dec_char c) || Ascii.eqb c pad.

Definition heads_differ (ps : list string) (c : ascii) : bool :=
  forallb (λ p, match p with String a _ => negb (Ascii.eqb a c) | EmptyString => false end) ps.

Lemma plain_not_space c :
  plain c = true → heads_differ spaces c = true ∧ heads_differ ((λ p, str_rev p "") <$> spaces) c = true.
Proof.
  intros Hc.
  assert (forallb (λ n, let c := ascii_of_nat n in
    implb (plain c) (heads_differ spaces c && heads_differ ((λ p, str_rev p "") <$> spaces) c)) (seq 0 256) = true) as H
    by (vm_compute; reflexivity).
  rewrite forallb_forall in H. specialize (H (nat_of_ascii c)). cbv zeta in H.
  rewrite ascii_nat_embedding, Hc in H. apply andb_true_iff, H, in_seq. pose proof (nat_ascii_bounded c). lia.
Qed.

Lemma first_prefix_none ps c s : heads_differ ps c = true → first_prefix ps (String c s) = None.
Proof.
  unfold heads_differ. induction ps as [|p ps IH]; [done|]. simpl. intros [Hp Hps]%andb_true_iff.
  destruct p as [|a p]; [done|]. simpl. apply negb_true_iff in Hp. rewrite Hp. auto.
Qed.

Lemma trim_left_id f ps c s : heads_differ ps c = true → trim_left f ps (String c s) = String c s.
Proof. intros H. destruct f; [done|]. simpl. by rewrite first_prefix_none. Qed.

Lemma str_rev_app s acc : str_rev s acc = str_rev s "" +:+ acc.
Proof.
  revert acc. induction s as [|c s IH]; intros acc; [done|]. cbn [str_rev]. rewrite IH, (IH (String c "")).
  by rewrite str_app_assoc.
Qed.

Lemma str_rev_rev s : str_rev (str_rev s "") "" = s.
Proof.
  assert (∀ a b, str_rev (a +:+ b) "" = str_rev b "" +:+ str_rev a "") as Happ.
  { intros a b. induction a as [|c a IH]; [by rewrite str_app_nil_l, str_app_nil_r|].
    rewrite str_app_cons. cbn [str_rev]. rewrite str_rev_app, IH, (str_rev_app a (String c "")). by rewrite str_app_assoc. }
  induction s as [|c s IH]; [done|]. cbn [str_rev]. rewrite (str_rev_app s (String c "")), Happ, IH. done.
Qed.

Lemma str_forallb_app f a b : str_forallb f (a +:+ b) = str_forallb f a && str_forallb f b.
Proof. induction a as [|c a IH]; [done|]. rewrite str_app_cons. simpl. by rewrite IH, andb_assoc. Qed.

Lemma str_forallb_rev f s : str_forallb f (str_rev s "") = str_forallb f s.
Proof.
  induction s as [|c s IH]; [done|]. cbn [str_rev]. rewrite (str_rev_app s (String c "")), str_forallb_app, IH. simpl.
  by rewrite andb_true_r, andb_comm.
Qed.

Lemma TrimSpace_plain s : str_forallb plain s = true → TrimSpace s = s.
Proof.
  intros Hs. unfold TrimSpace. destruct s as [|c s]; [done|].
  assert (plain c = true) as Hc by (simpl in Hs; apply andb_true_iff in Hs; tauto).
  destruct (plain_not_space c Hc) as [Hsp _]. rewrite (trim_left_id _ spaces c s Hsp). pose proof Hs as Hr. rewrite <- str_forallb_rev in Hr.
  destruct (str_rev (String c s) "") as [|d t] eqn:Er.
  - pose proof (str_rev_rev (String c s)) as H. by rewrite Er in H.
  - rewrite trim_left_id; [by rewrite <- Er, str_rev_rev|]. apply plain_not_space.
    simpl in Hr. apply andb_true_iff in Hr. tauto.
Qed.

Lemma plain_enc v : (0 ≤ v < 64)%Z → plain (enc_char v) = true.
Proof. intros Hv. unfold plain. by rewrite dec_enc_char. Qed.

Lemma encoded_plain s : str_forallb plain (EncodeToString s) = true.
Proof.
  induction s as [|a|a b|a b c s IH] using string_ind3; [done|..]; cbn [EncodeToString str_forallb]; cbv zeta.
  - set (v := Z.shiftl _ _). fold (field v 18) (field v 12). by rewrite !plain_enc by auto with base64.
  - set (v := Z.lor _ _). fold (field v 18) (field v 12) (field v 6). by rewrite !plain_enc by auto with base64.
  - set (v := Z.lor (Z.lor _ _) _). rewrite (field_0 v). fold (field v 18) (field v 12) (field v 6).
    by rewrite !plain_enc by auto with base64.
Qed.

Lemma encoded_nonempty s : s ≠ "" → EncodeToString s ≠ "".
Proof. intros Hs He. apply Hs. apply (inj EncodeToString). by rewrite He. Qed.

Lemma normalize_limit p : (1 ≤ Limit (NormalizeParams p) ≤ 1024)%Z.
Proof.
  unfold NormalizeParams. cbn [Limit]. destruct (Z.leb_spec (Limit p) 0), (Z.ltb_spec 1024 (Limit p)); simpl; lia.
Qed.

Lemma normalize_direction p :
  Direction (NormalizeParams p) = "forward" ∨ Direction (NormalizeParams p) = "backward".
Proof.
  unfold NormalizeParams. cbn [Direction]. set (d := ToLower _).
  destruct (String.eqb_spec d "forward"); [by left|]. destruct (String.eqb_spec d "backward"); [by right|by left].
Qed.

(** ** Pages *)

Section Pages.
Context {T E : Type} (GetCursorValue : T → string).

Lemma forward_page (pf : PagingFunc T E) (c : string) (limit : Z) (suf : list T) (total : Z) :
  TrimSpace c = c → (∀ n, pf c n "forward" = Ok (take (Z.to_nat n) suf, total)) →
  let l := Z.to_nat (Limit (NormalizeParams (mkParams c limit "forward"))) in
  ∃ r, Paginate GetCursorValue (mkParams c limit "forward") pf = Ok r ∧ Items r = take l suf ∧
    HasNext r = (l <? length suf) ∧
    (l < length suf → NextCursor r = cursor_of GetCursorValue (list.last (take l suf))).
Proof.
  intros Hc Hpf l. pose proof (normalize_limit (mkParams c limit "forward")) as Hl.
  unfold Paginate. set (p := NormalizeParams (mkParams c limit "forward")) in *.
  assert (Cursor p = c) as -> by exact Hc. assert (Direction p = "forward") as -> by reflexivity.
  rewrite Hpf. change (String.eqb "forward" "backward") with false. change (String.eqb "forward" "forward") with true.
  cbv zeta iota. cbn [orb]. rewrite length_take.
  assert (Z.to_nat (Limit p + 1) = S l) as -> by (unfold l; lia).
  destruct (Nat.ltb_spec l (length suf)) as [Hlt|Hge].
  - assert ((Limit p <? Z.of_nat (S l `min` length suf))%Z = true) as -> by (apply Z.ltb_lt; unfold l in *; lia).
    fold l. rewrite take_take, Nat.min_l by lia.
    destruct (take l suf) as [|x xs] eqn:Et.
    { apply (f_equal length) in Et. rewrite length_take in Et. simpl in Et. unfold l in *. lia. }
    eexists. split; [reflexivity|]. done.
  - assert ((Limit p <? Z.of_nat (S l `min` length suf))%Z = false) as -> by (apply Z.ltb_ge; unfold l in *; lia).
    rewrite (take_ge suf (S l)), (take_ge suf l) by lia.
    destruct suf as [|x xs]; (eexists; split; [reflexivity|]; split; [done|]; split; [done|lia]).
Qed.

Lemma follow_spec (pf : PagingFunc T E) (limit total : Z) (all : list T) fuel suf c acc :
  (∀ pre x suf n, all = pre ++ x :: suf →
     pf (EncodeCursor (GetCursorValue x)) n "forward" = Ok (take (Z.to_nat n) suf, total)) →
  length suf < fuel → TrimSpace c = c → (∃ pre, all = pre ++ suf) →
  (∀ n, pf c n "forward" = Ok (take (Z.to_nat n) suf, total)) →
  let l := Z.to_nat (Limit (NormalizeParams (mkParams c limit "forward"))) in
  ∃ init lst, follow GetCursorValue fuel limit pf c acc = Ok (acc ++ init ++ [lst]) ∧
    concat (init ++ [lst]) = suf ∧ Forall (λ p, length p = l) init ∧ length lst ≤ l.
Proof.
  intros Hnext. revert suf c acc. induction fuel as [|f IH]; intros suf c acc Hf Hc [pre Hall] Hpf l; [lia|].
  destruct (forward_page pf c limit suf total Hc Hpf) as (r & Hr & Hi & Hh & Hn). fold l in Hi, Hh, Hn.
  cbn [follow]. rewrite Hr, Hh. destruct (Nat.ltb_spec l (length suf)) as [Hlt|Hge].
  - assert (1 ≤ l) as Hl1 by (pose proof (normalize_limit (mkParams c limit "forward")); unfold l; lia).
    destruct (list.last (take l suf)) as [x|] eqn:El.
    2:{ apply list.last_None in El. apply (f_equal length) in El. rewrite length_take in El. simpl in El. lia. }
    apply list.last_Some in El as [pre' Epre]. specialize (Hn Hlt). simpl in Hn.
    assert (suf = pre' ++ x :: drop l suf) as Hsuf.
    { rewrite <- (take_drop l suf) at 1. rewrite Epre, <- app_assoc. done. }
    destruct (IH (drop l suf) (NextCursor r) (acc ++ [Items r])) as (init & lst & Hfo & Hcon & Hin & Hls).
    + rewrite length_drop. lia.
    + rewrite Hn. apply TrimSpace_plain, encoded_plain.
    + exists (pre ++ pre' ++ [x]). rewrite Hall. rewrite Hsuf at 1. by rewrite <- !app_assoc.
    + intros n. rewrite Hn. apply (Hnext (pre ++ pre') x). rewrite Hall. rewrite Hsuf at 1. by rewrite <- app_assoc.
    + exists (Items r :: init), lst. rewrite Hfo, <- app_assoc. split; [done|]. cbn [app concat].
      change (concat ((Items r :: init) ++ [lst])) with (Items r ++ concat (init ++ [lst])).
      rewrite Hcon, Hi, take_drop. split; [done|]. split; [|done]. constructor; [rewrite length_take; lia|done].
  - exists [], (Items r). rewrite Hi, (take_ge suf l) by lia. simpl. rewrite app_nil_r.
    split_and!; [done..|constructor|lia].
Qed.

End Pages.

(** ** Data sources

    What [Paginate] relies on of the [PagingFunc] it is given, for forward
    pages: [all] is what the source holds, in order; the empty cursor stands
    before the first item, and the cursor of an item after it. *)
Class KeysetSource {T E} (GetCursorValue : T → string) (pf : PagingFunc T E) (all : list T) (total : Z) := {
  source_first n : pf "" n "forward" = Ok (take (Z.to_nat n) all, total);
  source_next pre x suf n : all = pre ++ x :: suf →
    pf (EncodeCursor (GetCursorValue x)) n "forward" = Ok (take (Z.to_nat n) suf, total) }.

(** The items of a list after the one a cursor names. *)
Fixpoint after {T} (val : T → string) (v : string) (l : list T) : list T :=
  match l with
  | [] => []
  | x :: xs => if String.eqb (val x) v then xs else after val v xs
  end.

Definition list_source {T} (val : T → string) (all : list T) : PagingFunc T cursor_error := λ cursor limit _,
  if String.eqb cursor "" then Ok (take (Z.to_nat limit) all, Z.of_nat (length all))
  else
    match DecodeString cursor with
    | Some v => Ok (take (Z.to_nat limit) (after val v all), Z.of_nat (length all))
    | None => Err EBadEncoding
    end.

Lemma after_spec {T} (val : T → string) pre x suf :
  val x ∉ val <$> pre → after val (val x) (pre ++ x :: suf) = suf.
Proof.
  induction pre as [|y pre IH]; intros Hx; simpl; [by rewrite String.eqb_refl|].
  rewrite fmap_cons, not_elem_of_cons in Hx. destruct Hx as [Hy Hx].
  destruct (String.eqb_spec (val y) (val x)); [by rewrite e in Hy|]. by apply IH.
Qed.

(** A list whose items have distinct, non-empty cursor values is a source. *)
Lemma list_source_keyset {T} (val : T → string) (all : list T) :
  NoDup (val <$> all) → Forall (λ x, val x ≠ "") all →
  KeysetSource val (list_source val all) all (Z.of_nat (length all)).
Proof.
  intros Hnd Hne. split; [done|]. intros pre x suf n ->. unfold list_source, EncodeCursor.
  assert (val x ≠ "") as Hx by (apply list.Forall_app in Hne as [_ Hne]; by inversion Hne).
  destruct (String.eqb_spec (EncodeToString (val x)) ""); [by apply encoded_nonempty in e|].
  rewrite decode_encode, after_spec; [done|]. rewrite fmap_app, fmap_cons in Hnd.
  apply list.NoDup_app in Hnd as (_ & Hd & _). intros Hin. apply (Hd _ Hin). left.
Qed.

(** ** Properties *)

(** C37: Following [NextCursor] visits every item once.  For a data source that
    answers the empty cursor with the first items and the cursor of an item
    with the items after it, and any page size: the client that follows
    [NextCursor] while [HasNext] is true stops, its pages put together are
    exactly the items in order, every page but the last has the normalised
    limit's number of items and the last at most that many. *)
Theorem forward_paging_complete {T E : Type} (GetCursorValue : T → string) (pf : PagingFunc T E)
    (all : list T) (total limit : Z) (src : KeysetSource GetCursorValue pf all total) :
  let l := Z.to_nat (Limit (NormalizeParams (mkParams "" limit "forward"))) in
  1 ≤ l ≤ 1024 ∧
  ∃ init lst, follow GetCursorValue (S (length all)) limit pf "" [] = Ok (init ++ [lst]) ∧
    concat (init ++ [lst]) = all ∧ Forall (λ p, length p = l) init ∧ length lst ≤ l.
Proof.
  intros l. split; [pose proof (normalize_limit (mkParams "" limit "forward")); unfold l; lia|].
  destruct (follow_spec GetCursorValue pf limit total all (S (length all)) all "" []) as (init & lst & H).
  - apply source_next.
  - lia.
  - done.
  - by exists [].
  - apply source_first.
  - exists init, lst. exact H.
Qed.

Lemma forward_paging_complete_witness :
  ∃ init lst, follow pretty 6 2 (list_source pretty [10; 20; 30; 40; 50]%Z) "" [] = Ok (init ++ [lst]) ∧
    concat (init ++ [lst]) = [10; 20; 30; 40; 50]%Z ∧ Forall (λ p, length p = 2) init.
Proof.
  destruct (forward_paging_complete pretty (list_source pretty [10; 20; 30; 40; 50]%Z) [10; 20; 30; 40; 50]%Z 5 2)
    as (_ & init & lst & H1 & H2 & H3 & _).
  - apply (list_source_keyset pretty [10; 20; 30; 40; 50]%Z); [apply (bool_decide_unpack _); vm_compute; exact I|].
    repeat constructor; vm_compute; discriminate.
  - exists init, lst. split; [exact H1|]. split; [exact H2|exact H3].
Defined.

(** What a page says.  For any parameters and data source, the page has at
    most the normalised limit of items.  Forward: [HasNext] says that the source
    had more, [HasPrev] that a cursor was given, and on a page with items
    [NextCursor] is the last item's exactly when there is a next page and
    [PrevCursor] the first item's exactly when there is a previous one.
    Backward: the source's items are reversed, the two flags change places,
    and the cursors do not: [NextCursor] is the first item's when there is a
    previous page, [PrevCursor] the last item's when there is a next one. *)
Theorem paginate_page {T E : Type} (GetCursorValue : T → string) (params : Params) (pf : PagingFunc T E)
    (items : list T) (total : Z) :
  let p := NormalizeParams params in
  let l := Z.to_nat (Limit p) in
  pf (Cursor p) (Limit p + 1)%Z (Direction p) = Ok (items, total) →
  ∃ r, Paginate GetCursorValue params pf = Ok r ∧ length (Items r) ≤ l ∧ Total r = total ∧
    (Direction p = "forward" →
       Items r = take l items ∧ HasNext r = (l <? length items) ∧ HasPrev r = negb (String.eqb (Cursor p) "") ∧
       NextCursor r = (if HasNext r then cursor_of GetCursorValue (list.last (Items r)) else "") ∧
       PrevCursor r = (if HasPrev r then cursor_of GetCursorValue (list.head (Items r)) else "")) ∧
    (Direction p = "backward" →
       Items r = reverse (take l items) ∧ HasPrev r = (l <? length items) ∧
       HasNext r = negb (String.eqb (Cursor p) "") ∧
       NextCursor r = (if HasPrev r then cursor_of GetCursorValue (list.head (Items r)) else "") ∧
       PrevCursor r = (if HasNext r then cursor_of GetCursorValue (list.last (Items r)) else "")).
Proof.
  intros p l Hpf. pose proof (normalize_limit params) as Hl. unfold Paginate. fold p in Hl |- *. rewrite Hpf.
  assert ((Limit p <? Z.of_nat (length items))%Z = (l <? length items)) as ->.
  { unfold l. destruct (Z.ltb_spec (Limit p) (Z.of_nat (length items))), (Nat.ltb_spec (Z.to_nat (Limit p)) (length items)); lia. }
  assert ((if l <? length items then take (Z.to_nat (Limit p)) items else items) = take l items) as ->.
  { fold l. destruct (Nat.ltb_spec l (length items)); [done|]. by rewrite take_ge. }
  assert (length (take l items) ≤ l) as Htl by (rewrite length_take; lia).
  cbv zeta. destruct (normalize_direction params) as [Hd|Hd]; fold p in Hd; rewrite Hd.
  - change (String.eqb "forward" "backward") with false. change (String.eqb "forward" "forward") with true. cbn [orb].
    destruct (take l items) as [|x xs] eqn:Et; (eexists; split; [reflexivity|]); split_and!; try done.
    intros _. simpl. by repeat case_match.
  - change (String.eqb "backward" "backward") with true. change (String.eqb "backward" "forward") with false.
    change (String.eqb "backward" "") with false. cbn [orb].
    destruct (take l items) as [|x xs] eqn:Et; (eexists; split; [reflexivity|]); split_and!; try done.
    + intros _. simpl. by repeat case_match.
    + simpl Items. by rewrite length_reverse.
    + intros _. cbn [Items HasNext HasPrev NextCursor PrevCursor]. split_and!; try done.
      * by rewrite list.head_reverse.
      * by rewrite list.last_reverse.
Qed.

Lemma paginate_page_witness :
  let src : PagingFunc Z cursor_error := λ _ n _, Ok (take (Z.to_nat n) [30; 20; 10]%Z, 3%Z) in
  ∃ r, Paginate pretty (mkParams (EncodeCursor "40") 2 "Backward") src = Ok r ∧ Items r = [20; 30]%Z ∧
    HasNext r = true ∧ NextCursor r = EncodeCursor "20" ∧ PrevCursor r = EncodeCursor "30".
Proof.
  intros src.
  destruct (paginate_page pretty (mkParams (EncodeCursor "40") 2 "Backward") src [30; 20; 10]%Z 3) as (r & H1 & _ & _ & _ & H2).
  - vm_compute. reflexivity.
  - destruct H2 as (Hi & Hp & Hn & Hnc & Hpc); [vm_compute; reflexivity|].
    exists r. split; [exact H1|]. rewrite Hnc, Hpc, Hi, Hp, Hn. vm_compute. repeat split.
Defined.

Lemma pretty_no_colon (z : Z) : has_byte ":" (pretty z) = false.
Proof.
  assert (∀ x s, has_byte ":" (pretty_N_go x s) = has_byte ":" s) as H.
  { intros x. induction (N.lt_wf_0 x) as [x _ IH]. intros s.
    destruct (decide (x = 0)%N) as [-> |Hx]; [by rewrite pretty_N_go_0|].
    rewrite pretty_N_go_step, IH by (try apply N.div_lt; lia). cbn [has_byte].
    destruct (pretty_digit (x `mod` 10)) as [Hd _]; [by apply N.mod_lt|].
    by destruct (Ascii.eqb_spec (pretty_N_char (x `mod` 10)) ":") as [E|_]; [rewrite E in Hd|]. }
  destruct z as [|p|p]; [done|exact (H (N.pos p) "")|]. exact (H (N.pos p) "").
Qed.

(** Cursors round trip in the order [DecodeCursor] expects.  A cursor made
    of an identifier without a colon, a colon and a timestamp decodes to both;
    a value in the other order, timestamp first, as the package documentation
    builds it, is refused unless the identifier happens to be an integer. *)
Theorem cursor_roundtrip (id : string) (timestamp : Z) :
  (min_int64 ≤ timestamp ≤ max_int64)%Z →
  (has_byte ":" id = false → DecodeCursor (EncodeCursor (id +:+ ":" +:+ pretty timestamp)) = Ok (id, timestamp)) ∧
  (ParseInt id = None →
     DecodeCursor (EncodeCursor (pretty timestamp +:+ ":" +:+ id)) = Err EBadTimestamp).
Proof.
  intros Ht. unfold DecodeCursor, EncodeCursor. rewrite !decode_encode. split.
  - intros Hid. destruct (SplitN2_spec ":" (id +:+ ":" +:+ pretty timestamp) id (pretty timestamp)) as [_ ->]; [|done].
    by rewrite ParseInt_pretty.
  - intros Hid. destruct (SplitN2_spec ":" (pretty timestamp +:+ ":" +:+ id) (pretty timestamp) id) as [_ ->];
      [|by split; [|apply pretty_no_colon]].
    by rewrite Hid.
Qed.

Lemma cursor_roundtrip_witness :
  DecodeCursor (EncodeCursor "user-7:-1700000000") = Ok ("user-7", -1700000000)%Z ∧
  DecodeCursor (EncodeCursor "1700000000:user-7") = Err EBadTimestamp.
Proof.
  split.
  - destruct (cursor_roundtrip "user-7" (-1700000000)) as [H _]; [vm_compute; split; discriminate|].
    exact (H eq_refl).
  - destruct (cursor_roundtrip "user-7" 1700000000) as [_ H]; [vm_compute; split; discriminate|].
    exact (H eq_refl).
Defined.
