(* ===== verification/MetricsStore.v ===== *)
(** * The in-memory metrics storage

    Models src/extension/metrics/memory_storage.go and the query options of
    types.go: snapshots grouped under "extension:type" keys, queries with time
    range, labels, limit and aggregation by interval, the latest snapshots and
    clean-up.  A time is its nanoseconds since 1970; Go's [sort.Slice], which
    does not say how it orders equal elements, is the class [SortSlice]; the
    order of a [range] over the map of keys is an argument. *)

From stdpp Require Import base tactics option list gmap strings numbers sorting.
From Stdlib Require Import ZArith SpecFloat Ascii Lia.
From S2P Require Import Prelude Lexer Float64 Base64.

(** ** Times *)

Definition second : Z := 1000000000.
Definition zero_time : Z := - 62135596800 * second.
Definition IsZero (t : Z) : bool := (t =? zero_time)%Z.
(** [t.Unix()]. *)
Definition Unix (t : Z) : Z := (t / second)%Z.

(** [int64(f)] of a finite float64 within the range of int64. *)
Definition f_to_int64 (f : float64) : Z :=
  match f with
  | S754_finite s m e => let n := (f_trunc_parts m e).1 in if s then (- n)%Z else n
  | _ => 0%Z
  end.

(** [int64(d.Seconds())]. *)
Definition whole_seconds (d : Z) : Z :=
  f_to_int64 (f_add (f_of_Z (Z.quot d second)) (f_div (f_of_Z (Z.rem d second)) (f_of_Z second))).

(** ** [sort.Slice] *)

(** The result is a permutation without descents; equal elements may come in
    any order. *)
Class SortSlice := {
  sort_slice {A : Type} : (A → A → bool) → list A → list A;
  sort_slice_perm {A : Type} (less : A → A → bool) l : sort_slice less l ≡ₚ l;
  sort_slice_sorted {A : Type} (key : A → Z) (less : A → A → bool) l :
    (∀ x y, less x y = (key x <? key y)%Z) → StronglySorted (λ x y, (key x ≤ key y)%Z) (sort_slice less l) }.

(** ** Data *)

(** [Labels] is [None] for a nil map. *)
Record Snapshot := mkSnapshot {
  ExtensionName : string; MetricType : string; Value : Z; Labels : option (gmap string string); Timestamp : Z }.

Record TimeSeriesPoint := mkPoint { p_Timestamp : Z; p_Value : Z }.

Record AggregatedMetrics := mkAgg {
  a_ExtensionName : string; a_MetricType : string; a_Values : list TimeSeriesPoint; a_Aggregation : string }.

Record QueryOptions := mkQuery {
  q_ExtensionName : string; q_MetricType : string; q_Labels : gmap string string;
  q_StartTime : Z; q_EndTime : Z; q_Aggregation : string; q_Interval : Z; q_Limit : Z }.

Inductive metric_error :=
| ENilSnapshot | EEmptyExtension | EEmptyType | ENilQuery | EZeroStart | EZeroEnd | EEndBeforeStart
| ENegativeLimit | ENegativeInterval | EBadAggregation (a : string).

Definition AggregationRaw : string := "raw".
Definition AggregationSum : string := "sum".
Definition AggregationAvg : string := "avg".
Definition AggregationMax : string := "max".
Definition AggregationMin : string := "min".
Definition AggregationCount : string := "count".

Definition Validate (o : option QueryOptions) : res metric_error () :=
  match o with
  | None => Err ENilQuery
  | Some q =>
      if IsZero (q_StartTime q) then Err EZeroStart
      else if IsZero (q_EndTime q) then Err EZeroEnd
      else if (q_EndTime q <? q_StartTime q)%Z then Err EEndBeforeStart
      else if (q_Limit q <? 0)%Z then Err ENegativeLimit
      else if (q_Interval q <? 0)%Z then Err ENegativeInterval
      else if bool_decide (q_Aggregation q ∈
                [""; AggregationRaw; AggregationSum; AggregationAvg; AggregationMax; AggregationMin; AggregationCount])
      then Ok tt else Err (EBadAggregation (q_Aggregation q))
  end.

Record MemoryStorage := mkStore { data : gmap string (list Snapshot); Total : Z }.

Definition NewMemoryStorage : MemoryStorage := mkStore ∅ 0.

(** ** Operations *)

Definition buildKey (extensionName metricType : string) : string := extensionName +:+ ":" +:+ metricType.

Definition parseKey (key : string) : string * string :=
  match SplitN2 ":" key with Some p => p | None => ("", "") end.

Definition append_to (key : string) (s : Snapshot) (d : gmap string (list Snapshot)) : gmap string (list Snapshot) :=
  <[key := default [] (d !! key) ++ [s]]> d.

Definition Store (snapshot : option Snapshot) (m : MemoryStorage) : res metric_error () * MemoryStorage :=
  match snapshot with
  | None => (Err ENilSnapshot, m)
  | Some s =>
      if String.eqb (ExtensionName s) "" then (Err EEmptyExtension, m)
      else if String.eqb (MetricType s) "" then (Err EEmptyType, m)
      else (Ok tt, mkStore (append_to (buildKey (ExtensionName s) (MetricType s)) s (data m)) (wrap64 (Total m + 1)))
  end.

(** The loop of [StoreBatch]: the map and [validCount]. *)
Definition batchStep (st : gmap string (list Snapshot) * Z) (snapshot : option Snapshot) :
    gmap string (list Snapshot) * Z :=
  match snapshot with
  | None => st
  | Some s =>
      if String.eqb (ExtensionName s) "" || String.eqb (MetricType s) "" then st
      else (append_to (buildKey (ExtensionName s) (MetricType s)) s st.1, (st.2 + 1)%Z)
  end.

Definition StoreBatch (snapshots : list (option Snapshot)) (m : MemoryStorage) : MemoryStorage :=
  match snapshots with
  | [] => m
  | _ :: _ =>
      let (d, validCount) := foldl batchStep (data m, 0%Z) snapshots in
      mkStore d (wrap64 (Total m + validCount))
  end.

(** [Cleanup]: what each key keeps, and the number removed. *)
Definition kept (before : Z) (ss : list Snapshot) : list Snapshot := filter (λ s, (before < Timestamp s)%Z) ss.

Definition cleanupKey (before : Z) (ss : list Snapshot) : option (list Snapshot) :=
  match kept before ss with [] => None | l => Some l end.

Definition Cleanup (before : Z) (m : MemoryStorage) : MemoryStorage :=
  let removedCount :=
    map_fold (λ _ ss n, (n + Z.of_nat (length ss - length (kept before ss)))%Z) 0%Z (data m) in
  mkStore (omap (cleanupKey before) (data m)) (wrap64 (Total m - removedCount)).

(** ** Queries *)

Definition isInTimeRange (s : Snapshot) (start end_ : Z) : bool := (start <? Timestamp s)%Z && (Timestamp s <? end_)%Z.

Definition matchesLabels (s : Snapshot) (labels : gmap string string) : bool :=
  if bool_decide (labels = ∅) then true
  else
    match Labels s with
    | None => false
    | Some ls => forallb (λ kv, bool_decide (ls !! kv.1 = Some kv.2)) (map_to_list labels)
    end.

Section Sorting.
Context `{SortSlice}.

Definition sum_values (ss : list Snapshot) : Z := foldl (λ sum s, wrap64 (sum + Value s)) 0%Z ss.

(** [calculateAggregation]. *)
Definition calculateAggregation (ss : list Snapshot) (aggType : string) : Z :=
  match ss with
  | [] => 0%Z
  | s0 :: _ =>
      if String.eqb aggType AggregationSum || String.eqb aggType "" then sum_values ss
      else if String.eqb aggType AggregationAvg then Z.quot (sum_values ss) (Z.of_nat (length ss))
      else if String.eqb aggType AggregationMax then
        foldl (λ mx s, if (mx <? Value s)%Z then Value s else mx) (Value s0) ss
      else if String.eqb aggType AggregationMin then
        foldl (λ mn s, if (Value s <? mn)%Z then Value s else mn) (Value s0) ss
      else if String.eqb aggType AggregationCount then Z.of_nat (length ss)
      else
        match list.last (sort_slice (λ x y, (Timestamp x <? Timestamp y)%Z) ss) with
        | Some s => Value s
        | None => 0%Z
        end
  end.

Definition intervals_of (secs : Z) (ss : list Snapshot) : gmap Z (list Snapshot) :=
  foldl (λ d s, let k := Z.quot (Unix (Timestamp s)) secs in <[k := default [] (d !! k) ++ [s]]> d) ∅ ss.

Definition point_before (x y : TimeSeriesPoint) : bool := (p_Timestamp x <? p_Timestamp y)%Z.

(** [aggregateByInterval]; the timestamps of the points differ, so after the
    sort the order of the iteration over [intervals] does not matter. *)
Definition aggregateByInterval (ss : list Snapshot) (opts : QueryOptions) : res metric_error (option AggregatedMetrics) :=
  match ss with
  | [] => Ok None
  | s0 :: _ =>
      let intervalSeconds := whole_seconds (q_Interval opts) in
      if (intervalSeconds =? 0)%Z then Panic
      else
        let values :=
          (λ kv, mkPoint (kv.1 * intervalSeconds * second) (calculateAggregation kv.2 (q_Aggregation opts)))
            <$> map_to_list (intervals_of intervalSeconds ss) in
        let values := sort_slice point_before values in
        let values :=
          if (0 <? q_Limit opts)%Z && (q_Limit opts <? Z.of_nat (length values))%Z
          then take (Z.to_nat (q_Limit opts)) values else values in
        Ok (Some (mkAgg (ExtensionName s0) (MetricType s0) values
          (if String.eqb (q_Aggregation opts) "" then AggregationAvg else q_Aggregation opts)))
  end.

Definition aggregateSnapshots (ss : list Snapshot) (opts : QueryOptions) : res metric_error (option AggregatedMetrics) :=
  match ss with
  | [] => Ok None
  | first :: _ =>
      if (0 <? q_Interval opts)%Z then aggregateByInterval ss opts
      else
        let values := sort_slice point_before ((λ s, mkPoint (Timestamp s) (Value s)) <$> ss) in
        Ok (Some (mkAgg (ExtensionName first) (MetricType first) values
          (if String.eqb (q_Aggregation opts) "" then AggregationRaw else q_Aggregation opts)))
  end.

(** The filters of [Query] for one key, and its limit before aggregation. *)
Definition key_wanted (opts : QueryOptions) (key : string) : bool :=
  let '(extensionName, metricType) := parseKey key in
  negb (negb (String.eqb (q_ExtensionName opts) "") && negb (String.eqb extensionName (q_ExtensionName opts))) &&
  negb (negb (String.eqb (q_MetricType opts) "") && negb (String.eqb metricType (q_MetricType opts))).

Definition in_query (opts : QueryOptions) (s : Snapshot) : bool :=
  isInTimeRange s (q_StartTime opts) (q_EndTime opts) && matchesLabels s (q_Labels opts).

Definition latest_first (x y : Snapshot) : bool := (Timestamp y <? Timestamp x)%Z.

Definition limit_raw (opts : QueryOptions) (ss : list Snapshot) : list Snapshot :=
  if (q_Interval opts =? 0)%Z && (0 <? q_Limit opts)%Z && (q_Limit opts <? Z.of_nat (length ss))%Z
  then take (Z.to_nat (q_Limit opts)) (sort_slice latest_first ss) else ss.

Definition query_key (opts : QueryOptions) (d : gmap string (list Snapshot)) (key : string) :
    res metric_error (option AggregatedMetrics) :=
  if key_wanted opts key then
    match filter (λ s, in_query opts s = true) (default [] (d !! key)) with
    | [] => Ok None
    | s :: ss => aggregateSnapshots (limit_raw opts (s :: ss)) opts
    end
  else Ok None.

Fixpoint query_keys (opts : QueryOptions) (d : gmap string (list Snapshot)) (keys : list string) :
    res metric_error (list AggregatedMetrics) :=
  match keys with
  | [] => Ok []
  | key :: keys' =>
      match query_key opts d key with
      | Ok r =>
          match query_keys opts d keys' with
          | Ok rs => Ok (match r with Some a => a :: rs | None => rs end)
          | e => e
          end
      | Err e => Err e
      | Panic => Panic
      | NoFuel => NoFuel
      end
  end.

(** [Query], the keys iterated in the order [keys]. *)
Definition Query (keys : list string) (opts : option QueryOptions) (m : MemoryStorage) :
    res metric_error (list AggregatedMetrics) :=
  match opts with
  | None => Err ENilQuery
  | Some q => match Validate opts with Ok _ => query_keys q (data m) keys | Err e => Err e | Panic => Panic | NoFuel => NoFuel end
  end.

(** [GetLatest], likewise. *)
Definition GetLatest (keys : list string) (extensionName : string) (limit : Z) (m : MemoryStorage) :
    res metric_error (list Snapshot) :=
  if String.eqb extensionName "" then Err EEmptyExtension
  else
    let limit := if (limit <=? 0)%Z then 10%Z else limit in
    let all := concat ((λ key, if String.eqb (parseKey key).1 extensionName then default [] (data m !! key) else []) <$> keys) in
    let all := sort_slice latest_first all in
    Ok (if (limit <? Z.of_nat (length all))%Z then take (Z.to_nat limit) all else all).

End Sorting.

(** ** The contract: one log of snapshots *)

Definition named (s : Snapshot) : bool :=
  negb (String.eqb (ExtensionName s) "") && negb (String.eqb (MetricType s) "").
Definition key_of (s : Snapshot) : string := buildKey (ExtensionName s) (MetricType s).

Inductive store_op := OStore (s : option Snapshot) | OBatch (ss : list (option Snapshot)) | OCleanup (before : Z).

Definition store_step (m : MemoryStorage) (o : store_op) : MemoryStorage :=
  match o with
  | OStore s => (Store s m).2
  | OBatch ss => StoreBatch ss m
  | OCleanup before => Cleanup before m
  end.

Definition valid_of (s : option Snapshot) : list Snapshot :=
  match s with Some s => if named s then [s] else [] | None => [] end.

(** What the log is after an operation: valid snapshots are added at the end,
    old ones removed. *)
Definition log_step (log : list Snapshot) (o : store_op) : list Snapshot :=
  match o with
  | OStore s => log ++ valid_of s
  | OBatch ss => log ++ concat (valid_of <$> ss)
  | OCleanup before => kept before log
  end.

(** The storage holds the log, split by key, each part in order. *)
Definition group (key : string) (log : list Snapshot) : list Snapshot := filter (λ s, key_of s = key) log.

Record holds (m : MemoryStorage) (log : list Snapshot) : Prop := {
  h_groups key : default [] (data m !! key) = group key log;
  h_nonempty key : data m !! key ≠ Some [];
  h_total : Total m = wrap64 (Z.of_nat (length log));
  h_named : Forall (λ s, named s = true) log }.

Lemma group_app key l1 l2 : group key (l1 ++ l2) = group key l1 ++ group key l2.
Proof. apply list.filter_app. Qed.

Lemma group_one key s : group key [s] = if decide (key_of s = key) then [s] else [].
Proof. unfold group. rewrite filter_cons. by case_decide. Qed.

(** Adding one snapshot to the map adds it to its group. *)
Lemma append_to_groups d log s :
  (∀ key, default [] (d !! key) = group key log) → (∀ key, d !! key ≠ Some []) →
  (∀ key, default [] (append_to (key_of s) s d !! key) = group key (log ++ [s])) ∧
  (∀ key, append_to (key_of s) s d !! key ≠ Some []).
Proof.
  intros Hg Hn. unfold append_to. split; intros key.
  - rewrite group_app, group_one. destruct (decide (key_of s = key)) as [<-|Hk].
    + by rewrite lookup_insert_eq, Hg.
    + by rewrite lookup_insert_ne, app_nil_r.
  - destruct (decide (key_of s = key)) as [<-|Hk]; [|by rewrite lookup_insert_ne].
    rewrite lookup_insert_eq. intros [= Heq]. by destruct (default [] _).
Qed.

Lemma store_holds m log s : holds m log → holds (Store s m).2 (log ++ valid_of s).
Proof.
  intros [H1 H2 H3 H4]. destruct s as [s|]; simpl; [|by rewrite app_nil_r].
  unfold named. destruct (String.eqb_spec (ExtensionName s) ""); simpl; [by rewrite app_nil_r|].
  destruct (String.eqb_spec (MetricType s) ""); simpl; [by rewrite app_nil_r|].
  destruct (append_to_groups _ _ s H1 H2) as [H1' H2']. constructor; simpl; [done..| |].
  - rewrite H3, wrap64_add, length_app. simpl. f_equal. lia.
  - apply list.Forall_app. split; [done|]. constructor; [|done]. unfold named.
    destruct (String.eqb_spec (ExtensionName s) ""), (String.eqb_spec (MetricType s) ""); done.
Qed.

Lemma batch_groups ss d n log :
  (∀ key, default [] (d !! key) = group key log) → (∀ key, d !! key ≠ Some []) →
  let st := foldl batchStep (d, n) ss in
  (∀ key, default [] (st.1 !! key) = group key (log ++ concat (valid_of <$> ss))) ∧
  (∀ key, st.1 !! key ≠ Some []) ∧ st.2 = (n + Z.of_nat (length (concat (valid_of <$> ss))))%Z.
Proof.
  revert d n log. induction ss as [|s ss IH]; intros d n log Hg Hn; cbn [foldl].
  - simpl. rewrite app_nil_r, Z.add_0_r. done.
  - rewrite fmap_cons. cbn [concat]. destruct s as [s|]; simpl; [|by apply IH].
    unfold named. destruct (String.eqb (ExtensionName s) "") eqn:E1; simpl; [by apply IH|].
    destruct (String.eqb (MetricType s) "") eqn:E2; simpl; [by apply IH|].
    destruct (append_to_groups d log s Hg Hn) as [Hg' Hn'].
    destruct (IH _ (n + 1)%Z (log ++ [s]) Hg' Hn') as (I1 & I2 & I3). rewrite <- app_assoc in I1.
    split; [exact I1|]. split; [exact I2|]. etrans; [exact I3|]. lia.
Qed.

Lemma valid_named ss : Forall (λ s, named s = true) (concat (valid_of <$> ss)).
Proof.
  induction ss as [|s ss IH]; [constructor|]. rewrite fmap_cons. cbn [concat]. apply list.Forall_app. split; [|done].
  destruct s as [s|]; simpl; [|constructor]. destruct (named s) eqn:E; repeat constructor. done.
Qed.

Lemma batch_holds m log ss : holds m log → holds (StoreBatch ss m) (log ++ concat (valid_of <$> ss)).
Proof.
  intros [H1 H2 H3 H4]. unfold StoreBatch. destruct ss as [|s ss]; [simpl; by rewrite app_nil_r|].
  destruct (batch_groups (s :: ss) (data m) 0 log H1 H2) as (I1 & I2 & I3).
  destruct (foldl batchStep (data m, 0%Z) (s :: ss)) as [d n]. cbn [fst snd] in I1, I2, I3.
  constructor; simpl Total; simpl data; [exact I1|exact I2| |].
  - rewrite I3, H3, wrap64_add, length_app. f_equal. lia.
  - apply list.Forall_app. split; [done|apply valid_named].
Qed.

(** All the groups together are the log. *)
Lemma groups_concat (d : gmap string (list Snapshot)) log keys :
  (∀ key, default [] (d !! key) = group key log) → (∀ key, d !! key ≠ Some []) → keys ≡ₚ elements (dom d) →
  concat ((λ key, default [] (d !! key)) <$> keys) ≡ₚ log.
Proof.
  intros Hg Hn Hp.
  assert ((λ key, default [] (d !! key)) <$> keys = (λ key, filter (λ s, key_of s = key) log) <$> keys) as ->.
  { apply list_fmap_ext. intros i key _. apply Hg. }
  apply (partition_concat key_of); [rewrite Hp; apply NoDup_elements|].
  intros s Hs. rewrite Hp, elem_of_elements, elem_of_dom. specialize (Hg (key_of s)).
  assert (s ∈ group (key_of s) log) as Hin by (by apply list_elem_of_filter).
  rewrite <- Hg in Hin. destruct (d !! key_of s) as [ss|]; [by exists ss|]. by apply not_elem_of_nil in Hin.
Qed.

#[global] Instance kept_proper before : Proper ((≡ₚ) ==> (≡ₚ)) (kept before).
Proof. intros l1 l2 Hl. unfold kept. by rewrite Hl. Qed.

Lemma kept_app before l1 l2 : kept before (l1 ++ l2) = kept before l1 ++ kept before l2.
Proof. apply list.filter_app. Qed.

Lemma kept_length before l : length (kept before l) ≤ length l.
Proof. apply length_filter. Qed.

(** The number [Cleanup] removes, over the whole log. *)
Lemma removed_count before (d : gmap string (list Snapshot)) :
  map_fold (λ _ ss n, (n + Z.of_nat (length ss - length (kept before ss)))%Z) 0%Z d =
  (Z.of_nat (length (concat (map_to_list d).*2)) - Z.of_nat (length (kept before (concat (map_to_list d).*2))))%Z.
Proof.
  rewrite map_fold_foldr. induction (map_to_list d) as [|[k ss] l IH]; [done|]. cbn [foldr]. rewrite fmap_cons.
  cbn [concat fst snd]. rewrite kept_app, !length_app. unfold uncurry at 1. rewrite IH.
  pose proof (kept_length before ss). pose proof (kept_length before (concat l.*2)). lia.
Qed.

Lemma cleanup_holds m log before : holds m log → holds (Cleanup before m) (kept before log).
Proof.
  intros [H1 H2 H3 H4]. unfold Cleanup.
  assert (concat (map_to_list (data m)).*2 ≡ₚ log) as Hp.
  { rewrite <- (groups_concat (data m) log (map_to_list (data m)).*1 H1 H2).
    - f_equiv. rewrite <- list_fmap_compose. apply reflexive_eq, list_fmap_ext. intros i [k ss] Hi. simpl.
      apply list_elem_of_lookup_2, elem_of_map_to_list in Hi. by rewrite Hi.
    - apply NoDup_Permutation; [apply NoDup_fst_map_to_list|apply NoDup_elements|].
      intros k. rewrite elem_of_elements, elem_of_dom. split.
      + intros [[k' ss] [-> Hin]]%list_elem_of_fmap. apply elem_of_map_to_list in Hin. by exists ss.
      + intros [ss Hk]. apply list_elem_of_fmap. exists (k, ss). split; [done|]. by apply elem_of_map_to_list. }
  rewrite removed_count. constructor; simpl.
  - intros key. rewrite lookup_omap. specialize (H1 key).
    assert (group key (kept before log) = filter (λ s, (before < Timestamp s)%Z ∧ key_of s = key) log) as ->.
    { unfold group, kept. rewrite list_filter_filter. apply list_filter_ext_elem. tauto. }
    destruct (data m !! key) as [ss|] eqn:Hk; simpl in *.
    + unfold cleanupKey. assert (kept before ss = filter (λ s, (before < Timestamp s)%Z ∧ key_of s = key) log) as <-.
      { rewrite H1. unfold kept, group. rewrite list_filter_filter. apply list_filter_ext_elem. tauto. }
      by destruct (kept before ss).
    + destruct (filter _ log) as [|s l] eqn:E; [done|]. exfalso.
      assert (s ∈ filter (λ s, (before < Timestamp s)%Z ∧ key_of s = key) log) as Hs by (rewrite E; left).
      apply list_elem_of_filter in Hs as [[_ Hks] Hs].
      assert (s ∈ group key log) as Hin by (by apply list_elem_of_filter).
      rewrite <- H1 in Hin. by apply not_elem_of_nil in Hin.
  - intros key. rewrite lookup_omap. destruct (data m !! key) as [ss|]; [|done]. simpl. unfold cleanupKey.
    by destruct (kept before ss).
  - rewrite H3. unfold Z.sub. rewrite wrap64_add. f_equal. pose proof (Permutation_length Hp).
    assert (kept before (concat (map_to_list (data m)).*2) ≡ₚ kept before log) as Hk%Permutation_length by (by rewrite Hp).
    lia.
  - unfold kept. apply list.Forall_forall. intros s [_ Hs]%list_elem_of_filter.
    rewrite list.Forall_forall in H4. by apply H4.
Qed.

Lemma store_step_holds m log o : holds m log → holds (store_step m o) (log_step log o).
Proof. destruct o; [apply store_holds|apply batch_holds|apply cleanup_holds]. Qed.

Lemma store_run_holds ops m log : holds m log → holds (foldl store_step m ops) (foldl log_step log ops).
Proof. revert m log. induction ops as [|o ops IH]; intros m log H; [done|]. simpl. by apply IH, store_step_holds. Qed.

Lemma new_holds : holds NewMemoryStorage [].
Proof. constructor; simpl; [|..|constructor]; intros; rewrite ?lookup_empty; done. Qed.

(** ** What a query finds *)

(** A name without a colon is read back from a key. *)
Definition plain_name (s : Snapshot) : bool := negb (has_byte ":" (ExtensionName s)).

Lemma parseKey_of s : plain_name s = true → parseKey (key_of s) = (ExtensionName s, MetricType s).
Proof.
  intros Hp%negb_true_iff. unfold parseKey, key_of, buildKey.
  destruct (SplitN2_spec ":" (ExtensionName s +:+ ":" +:+ MetricType s) (ExtensionName s) (MetricType s)) as [_ ->]; done.
Qed.

Lemma key_of_inj s s' : plain_name s = true → plain_name s' = true → key_of s = key_of s' →
  ExtensionName s = ExtensionName s' ∧ MetricType s = MetricType s'.
Proof. intros H1%parseKey_of H2%parseKey_of Heq. rewrite Heq, H2 in H1. by injection H1. Qed.

Definition older (x y : Snapshot) : Prop := (Timestamp y ≤ Timestamp x)%Z.

(** [newest k l out]: [out] is [k] elements of [l], latest first, none older
    than an element left out. *)
Definition newest (k : nat) (l out : list Snapshot) : Prop :=
  ∃ rest, l ≡ₚ out ++ rest ∧ length out = k `min` length l ∧ StronglySorted older out ∧
    ∀ x y, x ∈ out → y ∈ rest → older x y.

Lemma sorted_impl {A} (R S : A → A → Prop) l :
  (∀ x y, R x y → S x y) → StronglySorted R l → StronglySorted S l.
Proof. intros HRS. induction 1; constructor; [done|]. eapply Forall_impl; [done|]. intros y. apply HRS. Qed.

Section Properties.
Context `{SortSlice}.

Lemma sorted_latest_first l : StronglySorted older (sort_slice latest_first l).
Proof.
  assert (StronglySorted (λ x y, (- Timestamp x ≤ - Timestamp y)%Z) (sort_slice latest_first l)) as Hs.
  { apply (sort_slice_sorted (λ s, - Timestamp s)%Z). intros x y. unfold latest_first.
    destruct (Z.ltb_spec (Timestamp y) (Timestamp x)), (Z.ltb_spec (- Timestamp x) (- Timestamp y)); lia. }
  revert Hs. apply sorted_impl. unfold older. lia.
Qed.

Lemma strongly_sorted_app {A} (R : A → A → Prop) l1 l2 :
  StronglySorted R (l1 ++ l2) → StronglySorted R l1 ∧ ∀ x y, x ∈ l1 → y ∈ l2 → R x y.
Proof.
  induction l1 as [|a l1 IH]; simpl; intros Hs.
  - split; [constructor|]. intros x y Hx. by apply not_elem_of_nil in Hx.
  - inversion Hs as [|? ? Hl Hf]; subst. apply list.Forall_app in Hf as [Hf1 Hf2]. destruct (IH Hl) as [IH1 IH2].
    split; [by constructor|]. intros x y [->|Hx]%elem_of_cons Hy; [|by apply IH2].
    rewrite list.Forall_forall in Hf2. by apply Hf2.
Qed.

Lemma newest_take k l : newest k l (take k (sort_slice latest_first l)).
Proof.
  exists (drop k (sort_slice latest_first l)). rewrite take_drop. pose proof (sorted_latest_first l) as Hs.
  rewrite <- (take_drop k (sort_slice latest_first l)) in Hs. apply strongly_sorted_app in Hs as [Hs1 Hs2].
  split; [by rewrite sort_slice_perm|]. split; [|done].
  rewrite length_take. by rewrite (Permutation_length (sort_slice_perm latest_first l)).
Qed.

Lemma newest_perm k l1 l2 out : l1 ≡ₚ l2 → newest k l1 out → newest k l2 out.
Proof. intros Hp (rest & H1 & H2 & H3). exists rest. by rewrite <- Hp. Qed.

(** ** Properties *)

(** C10: The storage is a log split by key.  In every sequence of [Store],
    [StoreBatch] and [Cleanup] on a new storage: what each key holds is exactly
    the valid snapshots stored for it and not yet removed, in the order they
    were stored; a key with nothing left is deleted; snapshots without an
    extension or a type are never stored; and the total is their number (as a
    64-bit counter), whatever the mixture of single, batch and clean-up
    calls. *)
Theorem storage_refines_log (ops : list store_op) :
  let m := foldl store_step NewMemoryStorage ops in
  let log := foldl log_step [] ops in
  (∀ key, default [] (data m !! key) = filter (λ s, key_of s = key) log) ∧
  (∀ key, data m !! key ≠ Some []) ∧
  Total m = wrap64 (Z.of_nat (length log)) ∧
  Forall (λ s, ExtensionName s ≠ "" ∧ MetricType s ≠ "") log.
Proof.
  intros m log. destruct (store_run_holds ops _ _ new_holds) as [H1 H2 H3 H4]. split_and!; [done..|].
  eapply Forall_impl; [exact H4|]. intros s Hs. unfold named in Hs.
  destruct (String.eqb_spec (ExtensionName s) ""), (String.eqb_spec (MetricType s) ""); done.
Qed.

(** The snapshots one extension's keys hold are its part of the log. *)
Lemma extension_snapshots m log keys name :
  holds m log → Forall (λ s, plain_name s = true) log → keys ≡ₚ elements (dom (data m)) →
  concat ((λ key, if String.eqb (parseKey key).1 name then default [] (data m !! key) else []) <$> keys) ≡ₚ
  filter (λ s, ExtensionName s = name) log.
Proof.
  intros Hh Hpl Hp. pose proof (h_groups _ _ Hh) as Hg. rewrite list.Forall_forall in Hpl.
  assert ((λ key, if String.eqb (parseKey key).1 name then default [] (data m !! key) else []) <$> keys =
    (λ key, filter (λ s, key_of s = key) (filter (λ s, ExtensionName s = name) log)) <$> keys) as ->.
  { apply list_fmap_ext. intros i key _. rewrite Hg, list_filter_filter. unfold group.
    destruct (String.eqb_spec (parseKey key).1 name) as [E|E].
    - apply list_filter_ext_elem. intros s Hs. split; [|by intros [? _]]. intros <-. split; [done|].
      by rewrite parseKey_of in E by (by apply Hpl).
    - symmetry. destruct (filter _ log) as [|s l] eqn:El; [done|]. exfalso.
      assert (s ∈ filter (λ s, key_of s = key ∧ ExtensionName s = name) log) as [[<- Hn] Hs]%list_elem_of_filter
        by (rewrite El; left).
      rewrite parseKey_of in E by (by apply Hpl). done. }
  apply (partition_concat key_of); [rewrite Hp; apply NoDup_elements|].
  intros s [_ Hs]%list_elem_of_filter. rewrite Hp, elem_of_elements, elem_of_dom.
  assert (s ∈ group (key_of s) log) as Hin by (by apply list_elem_of_filter).
  rewrite <- Hg in Hin. destruct (data m !! key_of s) as [ss|]; [by exists ss|]. by apply not_elem_of_nil in Hin.
Qed.

(** [GetLatest] returns the latest snapshots of the extension.  After any
    operations, if no stored extension name has a colon, for every iteration
    order of the keys and every way [sort.Slice] may order equal times: the
    result is the [limit] (10 when it is not positive) latest snapshots stored
    for exactly that extension, latest first, all of them when there are
    fewer, and none that was left out is later than one returned. *)
Theorem get_latest_exact (ops : list store_op) (keys : list string) (name : string) (limit : Z) :
  let m := foldl store_step NewMemoryStorage ops in
  let log := foldl log_step [] ops in
  Forall (λ s, has_byte ":" (ExtensionName s) = false) log → keys ≡ₚ elements (dom (data m)) → name ≠ "" →
  ∃ out, GetLatest keys name limit m = Ok out ∧
    newest (Z.to_nat (if (limit <=? 0)%Z then 10 else limit)) (filter (λ s, ExtensionName s = name) log) out.
Proof.
  intros m log Hpl Hp Hn. pose proof (store_run_holds ops _ _ new_holds) as Hh.
  unfold GetLatest. destruct (String.eqb_spec name ""); [done|].
  set (lim := if (limit <=? 0)%Z then 10%Z else limit). set (all := concat _). eexists. split; [reflexivity|].
  assert (all ≡ₚ filter (λ s, ExtensionName s = name) log) as Hall.
  { apply (extension_snapshots m log keys name Hh); [|done]. eapply Forall_impl; [exact Hpl|].
    intros s Hs. unfold plain_name. by rewrite Hs. }
  eapply newest_perm; [exact Hall|].
  assert (0 < lim)%Z as Hlim by (unfold lim; destruct (Z.leb_spec limit 0); lia).
  pose proof (newest_take (Z.to_nat lim) all) as Hnew.
  destruct (Z.ltb_spec lim (Z.of_nat (length (sort_slice latest_first all)))); [done|].
  by rewrite take_ge in Hnew by lia.
Qed.

End Properties.

(** ** Query *)

(** What a query asks for: strictly between the two times, with all the labels
    it names, of the extension and the type it names. *)
Definition hit (q : QueryOptions) (s : Snapshot) : Prop :=
  (q_StartTime q < Timestamp s < q_EndTime q)%Z ∧ q_Labels q ⊆ default ∅ (Labels s) ∧
  (q_ExtensionName q = "" ∨ q_ExtensionName q = ExtensionName s) ∧
  (q_MetricType q = "" ∨ q_MetricType q = MetricType s).
#[global] Instance hit_dec q s : Decision (hit q s).
Proof. unfold hit. apply _. Defined.

Definition of_series (ext ty : string) (s : Snapshot) : Prop := ExtensionName s = ext ∧ MetricType s = ty.
#[global] Instance of_series_dec ext ty s : Decision (of_series ext ty s).
Proof. unfold of_series. apply _. Defined.

Definition series_of (a : AggregatedMetrics) : string * string := (a_ExtensionName a, a_MetricType a).

(** The snapshots of one series a query asks for, in the order stored. *)
Definition hits (q : QueryOptions) (log : list Snapshot) (sr : string * string) : list Snapshot :=
  filter (λ s, of_series sr.1 sr.2 s ∧ hit q s) log.

Lemma matchesLabels_spec s labels : matchesLabels s labels = true ↔ labels ⊆ default ∅ (Labels s).
Proof.
  unfold matchesLabels. case_bool_decide as He; [subst; split; [intros _; apply map_empty_subseteq|done]|].
  destruct (Labels s) as [ls|]; simpl.
  - rewrite forallb_forall, map_subseteq_spec. split.
    + intros Hall i x Hi. specialize (Hall (i, x)). simpl in Hall. apply bool_decide_eq_true_1 in Hall; [done|].
      by apply list_elem_of_In, elem_of_map_to_list.
    + intros Hsub [i x] Hin%list_elem_of_In%elem_of_map_to_list. simpl. apply bool_decide_eq_true_2. by apply Hsub.
  - split; [done|]. intros Hs. exfalso. apply He. apply (anti_symm (⊆)); [done|apply map_empty_subseteq].
Qed.

Lemma in_query_spec q s : plain_name s = true →
  (key_wanted q (key_of s) && in_query q s = true ↔ hit q s).
Proof.
  intros Hp. unfold key_wanted, in_query, hit, isInTimeRange. rewrite parseKey_of by done.
  rewrite !andb_true_iff, matchesLabels_spec, !negb_true_iff, !andb_false_iff, !negb_false_iff, !Z.ltb_lt, !String.eqb_eq.
  intuition congruence.
Qed.

Section QueryKeys.
Context `{SortSlice}.
Context (q : QueryOptions) (m : MemoryStorage) (log : list Snapshot).
Hypothesis Hm : holds m log.
Hypothesis Hplain : Forall (λ s, has_byte ":" (ExtensionName s) = false) log.

Lemma plain_in s : s ∈ log → plain_name s = true.
Proof. intros Hs. rewrite list.Forall_forall in Hplain. unfold plain_name. by rewrite Hplain. Qed.

(** The filters of one key select the hits of its series. *)
Lemma query_key_hits s0 : s0 ∈ log →
  query_key q (data m) (key_of s0) =
  match hits q log (ExtensionName s0, MetricType s0) with
  | [] => Ok None
  | s :: ss => aggregateSnapshots (limit_raw q (s :: ss)) q
  end.
Proof.
  intros H0. unfold query_key, hits. cbn [fst snd]. rewrite (h_groups _ _ Hm). unfold group. rewrite list_filter_filter.
  destruct (key_wanted q (key_of s0)) eqn:Ek.
  - rewrite (list_filter_ext_elem _ (λ s, of_series (ExtensionName s0) (MetricType s0) s ∧ hit q s)); [done|].
    intros s Hs. split.
    + intros [Hq Hk]. split; [by apply key_of_inj; [apply plain_in..|]|].
      apply in_query_spec; [by apply plain_in|]. by rewrite Hk, Ek, Hq.
    + intros [[He Ht] Hh%in_query_spec]; [|by apply plain_in]. apply andb_true_iff in Hh as [_ Hh].
      split; [done|]. unfold key_of. by rewrite He, Ht.
  - destruct (filter _ log) as [|s l] eqn:El; [done|]. exfalso.
    assert (s ∈ filter (λ s, of_series (ExtensionName s0) (MetricType s0) s ∧ hit q s) log)
      as [[[He Ht] Hh] Hs]%list_elem_of_filter by (rewrite El; left).
    apply in_query_spec in Hh; [|by apply plain_in].
    unfold key_of in *. rewrite He, Ht, Ek in Hh. done.
Qed.

Lemma key_in keys key : keys ≡ₚ elements (dom (data m)) → (key ∈ keys ↔ ∃ s, s ∈ log ∧ key_of s = key).
Proof.
  intros ->. rewrite elem_of_elements, elem_of_dom. pose proof (h_groups _ _ Hm key) as Hg. split.
  - intros [[|s ss] Hk]; [by apply (h_nonempty _ _ Hm) in Hk|]. exists s. rewrite Hk in Hg. simpl in Hg.
    assert (s ∈ group key log) as [??]%list_elem_of_filter by (rewrite <- Hg; left). done.
  - intros (s & Hs & Hk). assert (s ∈ group key log) as Hin by (by apply list_elem_of_filter).
    rewrite <- Hg in Hin. destruct (data m !! key) as [ss|]; [by exists ss|]. by apply not_elem_of_nil in Hin.
Qed.

End QueryKeys.

(** A complete answer: one result for each series with a hit, and no others;
    the values of each satisfy [P] of the hits of its series. *)
Record answers (q : QueryOptions) (log : list Snapshot) (P : list Snapshot → list TimeSeriesPoint → Prop)
    (rs : list AggregatedMetrics) : Prop := {
  ans_once : NoDup (series_of <$> rs);
  ans_all s : s ∈ log → hit q s → (ExtensionName s, MetricType s) ∈ series_of <$> rs;
  ans_values a : a ∈ rs → hits q log (series_of a) ≠ [] ∧ P (hits q log (series_of a)) (a_Values a) }.

Section QueryRun.
Context `{SortSlice}.
Context (q : QueryOptions) (m : MemoryStorage) (log : list Snapshot).
Hypothesis Hm : holds m log.
Hypothesis Hplain : Forall (λ s, has_byte ":" (ExtensionName s) = false) log.
Context (P : list Snapshot → list TimeSeriesPoint → Prop).
Hypothesis Hagg : ∀ sr, hits q log sr ≠ [] →
  ∃ a, aggregateSnapshots (limit_raw q (hits q log sr)) q = Ok (Some a) ∧ series_of a = sr ∧ P (hits q log sr) (a_Values a).

Lemma query_keys_run keys : NoDup keys → (∀ key, key ∈ keys → ∃ s, s ∈ log ∧ key_of s = key) →
  ∃ rs, query_keys q (data m) keys = Ok rs ∧ NoDup (series_of <$> rs) ∧
    (∀ a, a ∈ rs → buildKey (a_ExtensionName a) (a_MetricType a) ∈ keys) ∧
    (∀ s, s ∈ log → key_of s ∈ keys → hit q s → (ExtensionName s, MetricType s) ∈ series_of <$> rs) ∧
    ∀ a, a ∈ rs → hits q log (series_of a) ≠ [] ∧ P (hits q log (series_of a)) (a_Values a).
Proof.
  induction keys as [|key keys IH]; intros Hnd Hk.
  { exists []. split_and!; [done|constructor|..]; intros x Hx; try by apply not_elem_of_nil in Hx.
    intros Hx'. by apply not_elem_of_nil in Hx'. }
  apply list.NoDup_cons in Hnd as [Hn Hnd].
  destruct IH as (rs & Hrs & Hone & Hin & Hall & Hval); [done|intros k ?; apply Hk; by right|].
  destruct (Hk key) as (s0 & Hs0 & <-); [left|].
  cbn [query_keys]. rewrite (query_key_hits q m log Hm Hplain s0 Hs0), Hrs.
  assert (∀ s, s ∈ log → key_of s = key_of s0 → (ExtensionName s, MetricType s) = (ExtensionName s0, MetricType s0))
    as Hsame.
  { intros s Hs Heq. apply key_of_inj in Heq as [-> ->]; [done|by eapply plain_in..]. }
  destruct (hits q log (ExtensionName s0, MetricType s0)) as [|s ss] eqn:Eh.
  - exists rs. split_and!; [done|done|intros a ?; right; by apply Hin| |done].
    intros s Hs [Hks|Hks]%elem_of_cons Hh; [|by apply Hall]. exfalso.
    assert (s ∈ hits q log (ExtensionName s0, MetricType s0)) as Hx; [|rewrite Eh in Hx; by apply not_elem_of_nil in Hx].
    apply list_elem_of_filter. split; [|done]. split; [|done]. pose proof (Hsame s Hs Hks) as [= ??]. by split.
  - destruct (Hagg (ExtensionName s0, MetricType s0)) as (a & Ha & Hsr & HP); [by rewrite Eh|].
    rewrite Eh in Ha. rewrite Ha. exists (a :: rs). injection Hsr as He Ht.
    split_and!; [done|..].
    + rewrite fmap_cons. apply list.NoDup_cons. split; [|done]. intros (b & Hb & Hbin)%list_elem_of_fmap.
      apply Hn. apply Hin in Hbin. unfold key_of. rewrite <- He, <- Ht. injection Hb as -> ->. done.
    + intros b [->|Hb]%elem_of_cons; [rewrite He, Ht; left|right; by apply Hin].
    + intros s' Hs' [Hks|Hks]%elem_of_cons Hh; [|right; by apply Hall].
      rewrite fmap_cons, (Hsame s' Hs' Hks). unfold series_of at 1. rewrite He, Ht. left.
    + intros b [->|Hb]%elem_of_cons; [|by apply Hval]. unfold series_of. rewrite He, Ht, Eh.
      split; [done|]. by rewrite Eh in HP.
Qed.

Lemma query_answers keys : keys ≡ₚ elements (dom (data m)) → Validate (Some q) = Ok tt →
  ∃ rs, Query keys (Some q) m = Ok rs ∧ answers q log P rs.
Proof.
  intros Hp Hv. pose proof (key_in m log Hm keys) as Hk. unfold Query. rewrite Hv.
  destruct (query_keys_run keys) as (rs & Hrs & Hone & _ & Hall & Hval).
  - rewrite Hp. apply NoDup_elements.
  - intros key. by apply Hk.
  - exists rs. split; [done|]. constructor; [done| |done]. intros s Hs Hh. apply Hall; [done| |done]. apply Hk; eauto.
Qed.

End QueryRun.

(** ** Raw queries *)

Definition point_of (s : Snapshot) : TimeSeriesPoint := mkPoint (Timestamp s) (Value s).
Definition limit_of (q : QueryOptions) (n : nat) : nat := if (0 <? q_Limit q)%Z then Z.to_nat (q_Limit q) else n.

(** The values of a raw result: the latest hits, by time. *)
Definition raw_values (q : QueryOptions) (g : list Snapshot) (values : list TimeSeriesPoint) : Prop :=
  StronglySorted (λ x y, (p_Timestamp x ≤ p_Timestamp y)%Z) values ∧
  ∃ out, newest (limit_of q (length g)) g out ∧ values ≡ₚ point_of <$> out.

(** The values of an aggregated result: one point per interval with a hit,
    strictly by time, the first [Limit] of them. *)
Definition bucket (secs k : Z) (g : list Snapshot) : list Snapshot :=
  filter (λ s, Z.quot (Unix (Timestamp s)) secs = k) g.

Definition interval_values `{SortSlice} (q : QueryOptions) (g : list Snapshot) (values : list TimeSeriesPoint) : Prop :=
  let secs := whole_seconds (q_Interval q) in
  ∃ pts, StronglySorted (λ x y, (p_Timestamp x < p_Timestamp y)%Z) pts ∧
    (∀ p, p ∈ pts ↔ ∃ k, bucket secs k g ≠ [] ∧
      p = mkPoint (k * secs * second) (calculateAggregation (bucket secs k g) (q_Aggregation q))) ∧
    values = take (limit_of q (length pts)) pts.

Lemma hits_series q log sr s : s ∈ hits q log sr → (ExtensionName s, MetricType s) = sr.
Proof. intros [[[-> ->] _] _]%list_elem_of_filter. by destruct sr. Qed.

Lemma newest_all l out : out ≡ₚ l → StronglySorted older out → newest (length l) l out.
Proof.
  intros Hp Hs. exists []. rewrite app_nil_r, Nat.min_id. split_and!; [done|by rewrite Hp|done|].
  intros x y _ Hy. by apply not_elem_of_nil in Hy.
Qed.

Lemma point_before_key x y : point_before x y = (p_Timestamp x <? p_Timestamp y)%Z.
Proof. done. Qed.

Section Aggregates.
Context `{SortSlice}.

Lemma limit_raw_newest q g : q_Interval q = 0%Z → (0 ≤ q_Limit q)%Z →
  ∃ out, newest (limit_of q (length g)) g out ∧ out ≡ₚ limit_raw q g.
Proof.
  intros Hi Hl. unfold limit_raw, limit_of. rewrite Hi. cbn [Z.eqb andb].
  pose proof (sorted_latest_first g) as Hs. pose proof (sort_slice_perm latest_first g) as Hp.
  destruct (Z.ltb_spec 0 (q_Limit q)); cbn [andb].
  - destruct (Z.ltb_spec (q_Limit q) (Z.of_nat (length g))).
    + eexists. split; [apply newest_take|done].
    + exists (take (Z.to_nat (q_Limit q)) (sort_slice latest_first g)). split; [apply newest_take|].
      rewrite take_ge; [done|]. rewrite (Permutation_length Hp). lia.
  - exists (sort_slice latest_first g). split; [by apply newest_all|done].
Qed.

Lemma raw_result q log sr : q_Interval q = 0%Z → (0 ≤ q_Limit q)%Z → hits q log sr ≠ [] →
  ∃ a, aggregateSnapshots (limit_raw q (hits q log sr)) q = Ok (Some a) ∧ series_of a = sr ∧
    raw_values q (hits q log sr) (a_Values a).
Proof.
  intros Hi Hl Hne. destruct (limit_raw_newest q (hits q log sr) Hi Hl) as (out & Hout & Hp).
  assert (∀ s, s ∈ limit_raw q (hits q log sr) → (ExtensionName s, MetricType s) = sr) as Hsr.
  { intros s Hs. rewrite <- Hp in Hs. apply (hits_series q log). destruct Hout as (rest & -> & _).
    apply elem_of_app. by left. }
  destruct (limit_raw q (hits q log sr)) as [|s ss] eqn:El.
  - exfalso. destruct Hout as (rest & Hr & Hlen & _). symmetry in Hp. apply Permutation_nil in Hp as ->. revert Hlen. simpl.
    unfold limit_of. destruct (hits q log sr); [done|]. simpl. destruct (Z.ltb_spec 0 (q_Limit q)); lia.
  - unfold aggregateSnapshots. rewrite Hi. cbn [Z.ltb Z.compare]. eexists. split; [reflexivity|]. split; [apply Hsr; left|].
    split.
    + apply (sort_slice_sorted p_Timestamp). apply point_before_key.
    + exists out. split; [done|]. cbn [a_Values]. by rewrite sort_slice_perm, Hp.
Qed.
End Aggregates.

(** [intervals_of] collects the buckets. *)
Lemma intervals_lookup secs g k :
  intervals_of secs g !! k = match bucket secs k g with [] => None | b => Some b end.
Proof.
  unfold intervals_of. cut (∀ (d : gmap Z (list Snapshot)) g0, (∀ k, d !! k = match bucket secs k g0 with [] => None | b => Some b end) →
    foldl (λ (d : gmap Z (list Snapshot)) s,
      let k := Z.quot (Unix (Timestamp s)) secs in <[k := default [] (d !! k) ++ [s]]> d) d g !! k =
    match bucket secs k (g0 ++ g) with [] => None | b => Some b end).
  { intros Hc. apply (Hc ∅ []). intros k'. by rewrite lookup_empty. }
  induction g as [|s g IH]; intros d g0 Hd; [by rewrite app_nil_r|]. cbn [foldl].
  replace (g0 ++ s :: g) with ((g0 ++ [s]) ++ g) by (by rewrite <- app_assoc). apply IH. intros k'.
  cbv zeta. unfold bucket. rewrite list.filter_app, filter_cons. fold (bucket secs k' g0).
  destruct (decide (Z.quot (Unix (Timestamp s)) secs = k')) as [->|Hk].
  - rewrite lookup_insert_eq, Hd. destruct (bucket secs k' g0); done.
  - rewrite lookup_insert_ne by done. rewrite Hd. rewrite filter_nil, app_nil_r. done.
Qed.

Section Intervals.
Context `{SortSlice}.

Lemma sorted_strict (l : list TimeSeriesPoint) :
  NoDup (p_Timestamp <$> l) → StronglySorted (λ x y, (p_Timestamp x ≤ p_Timestamp y)%Z) l →
  StronglySorted (λ x y, (p_Timestamp x < p_Timestamp y)%Z) l.
Proof.
  intros Hnd. induction 1 as [|x l Hl IH Hx]; [constructor|]. rewrite fmap_cons in Hnd.
  apply list.NoDup_cons in Hnd as [Hn Hnd]. constructor; [by apply IH|].
  rewrite list.Forall_forall in Hx |- *. intros y Hy. specialize (Hx y Hy).
  assert (p_Timestamp x ≠ p_Timestamp y); [|lia]. intros Heq. apply Hn. rewrite Heq. by apply list_elem_of_fmap_2.
Qed.

Lemma interval_result q log sr : (0 < q_Interval q)%Z → whole_seconds (q_Interval q) ≠ 0%Z → hits q log sr ≠ [] →
  ∃ a, aggregateSnapshots (limit_raw q (hits q log sr)) q = Ok (Some a) ∧ series_of a = sr ∧
    interval_values q (hits q log sr) (a_Values a).
Proof.
  intros Hi Hw Hne. set (secs := whole_seconds (q_Interval q)) in *.
  assert (limit_raw q (hits q log sr) = hits q log sr) as ->.
  { unfold limit_raw. by destruct (Z.eqb_spec (q_Interval q) 0); [lia|]. }
  pose proof (hits_series q log sr) as Hsr. destruct (hits q log sr) as [|s ss]; [done|]. set (g := s :: ss) in *.
  unfold aggregateSnapshots, aggregateByInterval, g at 1. fold g secs.
  destruct (Z.ltb_spec 0 (q_Interval q)); [|lia]. unfold g at 1. fold g. destruct (Z.eqb_spec secs 0); [done|].
  eexists. split; [reflexivity|]. split; [apply Hsr; left|]. cbn [a_Values].
  set (raw := _ <$> map_to_list _). exists (sort_slice point_before raw).
  assert (∀ p, p ∈ raw ↔ ∃ k, bucket secs k g ≠ [] ∧
    p = mkPoint (k * secs * second) (calculateAggregation (bucket secs k g) (q_Aggregation q))) as Hraw.
  { intros p. unfold raw. rewrite list_elem_of_fmap. split.
    - intros ([k b] & -> & Hin). apply elem_of_map_to_list in Hin. rewrite intervals_lookup in Hin. exists k.
      simpl. by destruct (bucket secs k g); simplify_eq.
    - intros (k & Hb & ->). exists (k, bucket secs k g). split; [done|]. apply elem_of_map_to_list.
      rewrite intervals_lookup. by destruct (bucket secs k g). }
  split; [apply sorted_strict; [|by apply (sort_slice_sorted p_Timestamp)]|split].
  - rewrite sort_slice_perm. unfold raw. rewrite <- list_fmap_compose.
    replace (p_Timestamp ∘ _) with ((λ k, k * secs * second)%Z ∘ @fst Z (list Snapshot)) by done.
    rewrite list_fmap_compose. apply NoDup_fmap_2_strong; [|apply NoDup_fst_map_to_list].
    intros k1 k2 _ _ Heq. unfold second in Heq. nia.
  - intros p. rewrite sort_slice_perm. apply Hraw.
  - unfold limit_of. destruct (Z.ltb_spec 0 (q_Limit q)); cbn [andb]; [|by rewrite take_ge].
    destruct (Z.ltb_spec (q_Limit q) (Z.of_nat (length (sort_slice point_before raw)))); [done|]. rewrite take_ge; [done|lia].
Qed.
End Intervals.

Lemma valid_limit q : Validate (Some q) = Ok tt → (0 ≤ q_Limit q)%Z.
Proof. unfold Validate. intros Hv. case_all. lia. Qed.

Section QueryTheorems.
Context `{SortSlice}.

Lemma short_interval_key q m log s0 : holds m log → Forall (λ s, has_byte ":" (ExtensionName s) = false) log →
  (0 < q_Interval q)%Z → whole_seconds (q_Interval q) = 0%Z → s0 ∈ log →
  query_key q (data m) (key_of s0) = if decide (hits q log (ExtensionName s0, MetricType s0) = []) then Ok None else Panic.
Proof.
  intros Hm Hpl Hi Hw H0. rewrite (query_key_hits q m log) by done.
  destruct (hits q log _) as [|s ss]; [done|]. rewrite decide_False by done.
  unfold limit_raw. destruct (Z.eqb_spec (q_Interval q) 0); [lia|]. cbn [andb].
  unfold aggregateSnapshots, aggregateByInterval. destruct (Z.ltb_spec 0 (q_Interval q)); [|lia]. by rewrite Hw.
Qed.

(** One hit is enough to panic, wherever its key comes. *)
Lemma short_interval_keys q m log keys : holds m log → Forall (λ s, has_byte ":" (ExtensionName s) = false) log →
  (0 < q_Interval q)%Z → whole_seconds (q_Interval q) = 0%Z →
  (∀ key, key ∈ keys → ∃ s, s ∈ log ∧ key_of s = key) →
  query_keys q (data m) keys = if decide (Exists (λ s, key_of s ∈ keys ∧ hit q s) log) then Panic else Ok [].
Proof.
  intros Hm Hpl Hi Hw. induction keys as [|key keys IH]; intros Hk.
  { rewrite decide_False; [done|]. intros (s & _ & Hs & _)%list.Exists_exists. by apply not_elem_of_nil in Hs. }
  destruct (Hk key) as (s0 & Hs0 & <-); [left|]. cbn [query_keys].
  rewrite (short_interval_key q m log s0), IH by (done || (intros k ?; apply Hk; by right)).
  destruct (decide (hits q log (ExtensionName s0, MetricType s0) = [])) as [He|He].
  - destruct (decide (Exists _ log)) as [Hx|Hx].
    + rewrite decide_True; [done|]. eapply Exists_impl; [exact Hx|]. intros s [? ?]. split; [by right|done].
    + rewrite decide_False; [done|]. intros (s & Hs & [Hks|Hks]%elem_of_cons & Hh)%list.Exists_exists.
      * apply key_of_inj in Hks as [E1 E2]; [|by eapply plain_in..].
        assert (s ∈ hits q log (ExtensionName s0, MetricType s0)) as Hin by (by apply list_elem_of_filter).
        rewrite He in Hin. by apply not_elem_of_nil in Hin.
      * apply Hx, list.Exists_exists. eauto.
  - rewrite decide_True; [done|]. destruct (hits q log (ExtensionName s0, MetricType s0)) as [|s ss] eqn:Eh; [done|].
    assert (s ∈ hits q log (ExtensionName s0, MetricType s0)) as [[[E1 E2] Hh] Hs]%list_elem_of_filter
      by (rewrite Eh; left).
    apply list.Exists_exists. exists s. split; [done|]. split; [|done]. unfold key_of. simpl in E1, E2. rewrite E1, E2. left.
Qed.

(** A raw query is complete and exact.  After any sequence of storage
    operations, if no stored extension name has a colon, a valid query without
    interval answers, for every iteration order of the keys and whatever
    [sort.Slice] does with equal times: one result per (extension, type) that
    has a snapshot with the labels, strictly between the two times, and no
    other result; the values of each result are those of its latest [Limit]
    such snapshots (all of them without a limit), in order of time. *)
Theorem query_raw_exact (ops : list store_op) (keys : list string) (q : QueryOptions) :
  let m := foldl store_step NewMemoryStorage ops in
  let log := foldl log_step [] ops in
  Forall (λ s, has_byte ":" (ExtensionName s) = false) log → keys ≡ₚ elements (dom (data m)) →
  Validate (Some q) = Ok tt → q_Interval q = 0%Z →
  ∃ rs, Query keys (Some q) m = Ok rs ∧ answers q log (raw_values q) rs.
Proof.
  intros m log Hpl Hp Hv Hi. apply query_answers; [apply (store_run_holds ops _ _ new_holds)|done| |done..].
  intros sr Hsr. apply raw_result; [done|by apply valid_limit|done].
Qed.

(** C38: An aggregated query is complete and exact, or the process panics.  With
    an interval of at least a second (more precisely, one whose whole seconds
    are not 0): one result per (extension, type) with a hit; its values are one
    point per interval that has a hit, strictly in order of time, each the
    aggregate of exactly the hits whose second, divided by the interval and
    rounded towards zero, is the point's, in the order they were stored; of
    these points the first [Limit] are kept — the earliest, while the limit of
    a raw query keeps the latest.  With a positive interval of less than a
    second, as soon as there is a hit the query divides by zero. *)
Theorem query_interval_exact (ops : list store_op) (keys : list string) (q : QueryOptions) :
  let m := foldl store_step NewMemoryStorage ops in
  let log := foldl log_step [] ops in
  Forall (λ s, has_byte ":" (ExtensionName s) = false) log → keys ≡ₚ elements (dom (data m)) →
  Validate (Some q) = Ok tt → (0 < q_Interval q)%Z →
  if (whole_seconds (q_Interval q) =? 0)%Z
  then Query keys (Some q) m = if decide (Exists (hit q) log) then Panic else Ok []
  else ∃ rs, Query keys (Some q) m = Ok rs ∧ answers q log (interval_values q) rs.
Proof.
  intros m log Hpl Hp Hv Hi. pose proof (store_run_holds ops _ _ new_holds) as Hm. fold m log in Hm.
  destruct (Z.eqb_spec (whole_seconds (q_Interval q)) 0) as [Hw|Hw].
  - unfold Query. rewrite Hv, (short_interval_keys q m log) by (done || (intros key; by apply (key_in m log))).
    destruct (decide (Exists _ log)) as [Hx|Hx], (decide (Exists (hit q) log)) as [Hy|Hy]; [done|..|done]; exfalso.
    + apply Hy. eapply Exists_impl; [exact Hx|]. by intros s [_ ?].
    + apply Hx. apply list.Exists_exists in Hy as (s & Hs & Hh). apply list.Exists_exists. exists s.
      split; [done|]. split; [|done]. apply (key_in m log Hm keys _ Hp). eauto.
  - apply query_answers; [done..| |done|done]. intros sr Hsr. by apply interval_result.
Qed.
End QueryTheorems.

(** ** At concrete inputs *)

(** A stable merge sort is one possible [sort.Slice]. *)
#[local] Instance less_dec {A} (less : A → A → bool) x y : Decision ((λ x y, less y x = false) x y) :=
  decide (less y x = false).

#[local] Program Instance merge_sort_slice : SortSlice := {|
  sort_slice A less := merge_sort (λ x y, less y x = false) |}.
Next Obligation. intros A less l. apply merge_sort_Permutation. Qed.
Next Obligation.
  intros A key less l Hless.
  assert (∀ x y, less y x = false ↔ (key x ≤ key y)%Z) as Hr.
  { intros x y. rewrite Hless. destruct (Z.ltb_spec (key y) (key x)); split; (done || lia). }
  eapply sorted_impl; [intros x y; apply Hr|]. apply StronglySorted_merge_sort.
  - intros x y z Hx Hy. rewrite Hr in *. lia.
  - intros x y. rewrite !Hr. lia.
Qed.

Definition demo_snapshot (ext ty : string) (v t : Z) : Snapshot := mkSnapshot ext ty v None t.

Lemma get_latest_exact_witness :
  let ops := [OStore (Some (demo_snapshot "auth" "calls" 1 10)); OStore (Some (demo_snapshot "auth" "errors" 2 30));
    OBatch [Some (demo_snapshot "auth" "calls" 3 20); None]] in
  let m := foldl store_step NewMemoryStorage ops in
  ∃ out, GetLatest (elements (dom (data m))) "auth" 2 m = Ok out ∧
    newest 2 (filter (λ s, ExtensionName s = "auth") (foldl log_step [] ops)) out.
Proof.
  intros ops m. apply (get_latest_exact ops (elements (dom (data m))) "auth" 2); [|done..].
  repeat constructor.
Defined.

Definition demo_ops : list store_op :=
  [OStore (Some (demo_snapshot "auth" "calls" 1 (10 * second)));
   OBatch [Some (demo_snapshot "auth" "calls" 3 (20 * second)); None; Some (demo_snapshot "db" "calls" 5 (95 * second))];
   OStore (Some (demo_snapshot "auth" "calls" 2 (70 * second)))].

Definition demo_query (ext agg : string) (interval limit : Z) : QueryOptions :=
  mkQuery ext "" ∅ 1 (100 * second) agg interval limit.

Lemma query_raw_exact_witness :
  let q := demo_query "auth" "raw" 0 2 in
  let m := foldl store_step NewMemoryStorage demo_ops in
  (∃ rs, Query (elements (dom (data m))) (Some q) m = Ok rs ∧ answers q (foldl log_step [] demo_ops) (raw_values q) rs) ∧
  Query ["auth:calls"; "db:calls"] (Some q) m =
    Ok [mkAgg "auth" "calls" [mkPoint (20 * second) 3; mkPoint (70 * second) 2] "raw"].
Proof.
  intros q m. split; [|by vm_compute].
  apply (query_raw_exact demo_ops (elements (dom (data m))) q); [|done..]. repeat constructor.
Defined.

(** One minute, and half a second. *)
Lemma query_interval_exact_witness :
  let q := demo_query "" "sum" (60 * second) 0 in
  let m := foldl store_step NewMemoryStorage demo_ops in
  (∃ rs, Query (elements (dom (data m))) (Some q) m = Ok rs ∧
    answers q (foldl log_step [] demo_ops) (interval_values q) rs) ∧
  Query ["auth:calls"; "db:calls"] (Some q) m =
    Ok [mkAgg "auth" "calls" [mkPoint 0 4; mkPoint (60 * second) 2] "sum";
        mkAgg "db" "calls" [mkPoint (60 * second) 5] "sum"] ∧
  Query ["auth:calls"; "db:calls"] (Some (demo_query "" "sum" 500000000 0)) m = Panic.
Proof.
  intros q m. split_and!; [|by vm_compute..].
  apply (query_interval_exact demo_ops (elements (dom (data m))) q); [|done..]. repeat constructor.
Defined.
