(* ===== verification/Collector.v ===== *)
(** * The extension metrics collector

    Models src/extension/metrics/collector.go as a machine: the collector's
    fields, the metrics objects that extensions share by pointer, the goroutines
    inside a call of the collector and the goroutine that flushes on a ticker.
    One event is one critical section of the mutex, one atomic operation or one
    channel operation, so that any interleaving is a run.  [Stop] is the only
    section that waits while it holds the mutex; [stopping] says who does.
    A channel or ticker field is [true] when it is not nil.  The clock readings
    of one critical section are equal; the storage is the one in memory
    ([MetricsStore]). *)

From stdpp Require Import base tactics option list gmap strings numbers.
From Stdlib Require Import ZArith Lia.
From S2P Require Import Prelude MetricsStore.

(** ** Data *)

Record ExtensionMetrics := mkEM {
  Name : string; LoadTime : Z; InitTime : Z; LoadedAt : Z; InitializedAt : Z; Status : string;
  serviceCalls : Z; serviceErrors : Z; eventsPublished : Z; eventsReceived : Z; circuitBreakerTrips : Z }.

Record SystemMetrics := mkSys {
  MemoryUsageMB : Z; GoroutineCount : Z; GCCycles : Z;
  ServicesRegistered : Z; ServiceCacheHits : Z; ServiceCacheMisses : Z }.

Record Collector := mkColl {
  extensions : gmap string nat; system : SystemMetrics; storage : option MemoryStorage;
  enabled : bool; stopped : bool; batchBuffer : list Snapshot; batchSize : Z; lastFlush : Z;
  flushTicker : bool; stopChan : bool }.

(** [FlushInterval] is what [time.ParseDuration] makes of the text, [None]
    when that is empty or not a duration. *)
Record MetricsConfig := mkMC { Enabled : bool; FlushInterval : option Z; BatchSize : Z }.

Definition disabled_collector : Collector :=
  mkColl ∅ (mkSys 0 0 0 0 0 0) None false false [] 0 zero_time false false.

(** [NewCollector]; [time.NewTicker] panics unless its period is positive. *)
Definition NewCollector (cfg : option MetricsConfig) (now : Z) : res () Collector :=
  match cfg with
  | Some cfg =>
      if Enabled cfg then
        if (default (30 * second) (FlushInterval cfg) <=? 0)%Z then Panic
        else Ok (mkColl ∅ (mkSys 0 0 0 0 0 0) (Some NewMemoryStorage) true false []
          (if (BatchSize cfg <=? 0)%Z then 100%Z else BatchSize cfg) now true true)
      else Ok disabled_collector
  | None => Ok disabled_collector
  end.

Definition set_buffer (st : option MemoryStorage) (b : list Snapshot) (lf : Z) (c : Collector) : Collector :=
  mkColl (extensions c) (system c) st (enabled c) (stopped c) b (batchSize c) lf (flushTicker c) (stopChan c).
Definition set_extensions (e : gmap string nat) (c : Collector) : Collector :=
  mkColl e (system c) (storage c) (enabled c) (stopped c) (batchBuffer c) (batchSize c) (lastFlush c)
    (flushTicker c) (stopChan c).
Definition set_system (s : SystemMetrics) (c : Collector) : Collector :=
  mkColl (extensions c) s (storage c) (enabled c) (stopped c) (batchBuffer c) (batchSize c) (lastFlush c)
    (flushTicker c) (stopChan c).
Definition SetEnabled (b : bool) (c : Collector) : Collector :=
  mkColl (extensions c) (system c) (storage c) b (stopped c) (batchBuffer c) (batchSize c) (lastFlush c)
    (flushTicker c) (stopChan c).
Definition set_stopped (c : Collector) : Collector :=
  mkColl (extensions c) (system c) (storage c) (enabled c) true (batchBuffer c) (batchSize c) (lastFlush c) false false.

Definition IsEnabled (c : Collector) : bool := enabled c && negb (stopped c).

(** ** Buffering *)

Definition flushUnsafe (now : Z) (c : Collector) : Collector :=
  match storage c, batchBuffer c, stopped c with
  | Some m, _ :: _, false => set_buffer (Some (StoreBatch (Some <$> batchBuffer c) m)) [] now c
  | _, _, _ => c
  end.

(** Whether [storeSnapshotUnsafe] takes a snapshot. *)
Definition accepting (c : Collector) : bool := is_some_b (storage c) && negb (stopped c).

Definition storeSnapshotUnsafe (now : Z) (s : Snapshot) (c : Collector) : Collector :=
  if accepting c then
    let c := set_buffer (storage c) (batchBuffer c ++ [s]) (lastFlush c) c in
    if (batchSize c <=? Z.of_nat (length (batchBuffer c)))%Z then flushUnsafe now c else c
  else c.

(** ** Calls *)

Inductive counter := CServiceCall (success : bool) | CEventPublished (ty : string) | CEventReceived (ty : string)
  | CTripped.

Inductive call :=
| CLoaded (name : string) (duration : Z)
| CInitialized (name : string) (duration : Z) (failed : bool)
| CUnloaded (name : string)
| CCount (k : counter) (name : string)
| CUpdateSystem (mem gor gc : Z)
| CDiscovery (registered hits misses : Z)
| CSetEnabled (b : bool)
| CStop.

(** Where a goroutine in a call is: before [IsEnabled]; before the critical
    section of the call; in a counting call, before the look-up, before the
    creation of the object, before the atomic additions, before [storeSnapshot];
    in [Stop], holding the mutex in [wg.Wait]. *)
Inductive pc :=
| PStart (c : call) | PBody (c : call)
| PFind (k : counter) (name : string) | PCreate (k : counter) (name : string)
| PAdd (k : counter) (name : string) (o : nat) | PAddError (k : counter) (name : string) (o : nat)
| PStore (s : Snapshot) | PStopWait.

(** The flush goroutine: before [select] reads the ticker, then the stop
    channel; in [select], with the stop channel it read (or nil); waiting for
    the mutex after a tick; returned. *)
Inductive rstate := RLoop | RRead | RSelect (stop : bool) | RLock | RDone.

(** [recorded]: the snapshots taken by [storeSnapshotUnsafe] so far. *)
Record World := mkWorld {
  coll : Collector; objs : list ExtensionMetrics; threads : gmap nat pc; routine : rstate;
  stopping : option nat; closed : bool; crashed : bool; recorded : list Snapshot }.

(** A new collector, its flush goroutine about to run when there is one. *)
Definition new_world (c : Collector) : World :=
  mkWorld c [] ∅ (if flushTicker c then RLoop else RDone) None false false [].

Definition set_coll (c : Collector) (w : World) : World :=
  mkWorld c (objs w) (threads w) (routine w) (stopping w) (closed w) (crashed w) (recorded w).
Definition set_objs (o : list ExtensionMetrics) (w : World) : World :=
  mkWorld (coll w) o (threads w) (routine w) (stopping w) (closed w) (crashed w) (recorded w).
Definition set_pc (i : nat) (p : option pc) (w : World) : World :=
  mkWorld (coll w) (objs w) (partial_alter (λ _, p) i (threads w)) (routine w) (stopping w) (closed w) (crashed w)
    (recorded w).
Definition set_routine (r : rstate) (w : World) : World :=
  mkWorld (coll w) (objs w) (threads w) r (stopping w) (closed w) (crashed w) (recorded w).
Definition set_stopping (i : option nat) (cl : bool) (w : World) : World :=
  mkWorld (coll w) (objs w) (threads w) (routine w) i cl (crashed w) (recorded w).
Definition crash (w : World) : World :=
  mkWorld (coll w) (objs w) (threads w) (routine w) (stopping w) (closed w) true (recorded w).
Definition record (now : Z) (s : Snapshot) (w : World) : World :=
  mkWorld (storeSnapshotUnsafe now s (coll w)) (objs w) (threads w) (routine w) (stopping w) (closed w) (crashed w)
    (if accepting (coll w) then recorded w ++ [s] else recorded w).

(** ** The critical sections *)

Definition new_metrics (name : string) : ExtensionMetrics := mkEM name 0 0 zero_time zero_time "loading" 0 0 0 0 0.

Definition getOrCreateExtensionMetrics (name : string) (w : World) : nat * World :=
  match extensions (coll w) !! name with
  | Some o => (o, w)
  | None =>
      let o := length (objs w) in
      (o, set_objs (objs w ++ [new_metrics name]) (set_coll (set_extensions (<[name := o]> (extensions (coll w))) (coll w)) w))
  end.

Definition upd_obj (o : nat) (f : ExtensionMetrics → ExtensionMetrics) (w : World) : World :=
  set_objs (alter f o (objs w)) w.

Definition Milliseconds (d : Z) : Z := Z.quot d 1000000.

Definition set_loaded (ms now : Z) (m : ExtensionMetrics) : ExtensionMetrics :=
  mkEM (Name m) ms (InitTime m) now (InitializedAt m) (Status m) (serviceCalls m) (serviceErrors m)
    (eventsPublished m) (eventsReceived m) (circuitBreakerTrips m).
Definition set_initialized (ms now : Z) (status : string) (m : ExtensionMetrics) : ExtensionMetrics :=
  mkEM (Name m) (LoadTime m) ms (LoadedAt m) now status (serviceCalls m) (serviceErrors m)
    (eventsPublished m) (eventsReceived m) (circuitBreakerTrips m).

Definition plain_snapshot (name ty : string) (v now : Z) : Snapshot := mkSnapshot name ty v None now.

(** The bodies between [c.mu.Lock()] and the unlock. *)
Definition ExtensionLoaded (name : string) (duration now : Z) (w : World) : World :=
  let (o, w) := getOrCreateExtensionMetrics name w in
  record now (plain_snapshot name "load_time" (Milliseconds duration) now) (upd_obj o (set_loaded (Milliseconds duration) now) w).

Definition ExtensionInitialized (name : string) (duration : Z) (failed : bool) (now : Z) (w : World) : World :=
  let (o, w) := getOrCreateExtensionMetrics name w in
  record now (plain_snapshot name "init_time" (Milliseconds duration) now)
    (upd_obj o (set_initialized (Milliseconds duration) now (if failed then "failed" else "active")) w).

Definition ExtensionUnloaded (name : string) (now : Z) (w : World) : World :=
  record now (plain_snapshot name "unload_event" 1 now) (set_coll (set_extensions (delete name (extensions (coll w))) (coll w)) w).

Definition UpdateSystemMetrics (mem gor gc now : Z) (w : World) : World :=
  let s := system (coll w) in
  let due := (60 * second <? now - lastFlush (coll w))%Z in
  let w := set_coll (set_system (mkSys mem gor gc (ServicesRegistered s) (ServiceCacheHits s) (ServiceCacheMisses s))
    (coll w)) w in
  if due then
    record now (plain_snapshot "system" "gc_cycles" gc now)
      (record now (plain_snapshot "system" "goroutine_count" gor now)
        (record now (plain_snapshot "system" "memory_usage" mem now) w))
  else w.

Definition UpdateServiceDiscoveryMetrics (registered hits misses now : Z) (w : World) : World :=
  let s := system (coll w) in
  let w := set_coll (set_system (mkSys (MemoryUsageMB s) (GoroutineCount s) (GCCycles s) registered hits misses) (coll w)) w in
  record now (plain_snapshot "system" "service_cache_misses" misses now)
    (record now (plain_snapshot "system" "service_cache_hits" hits now)
      (record now (plain_snapshot "system" "services_registered" registered now) w)).

(** The atomic additions of a counting call; a failed service call also counts
    an error, in a second addition. *)
Definition add_counter (k : counter) (m : ExtensionMetrics) : ExtensionMetrics :=
  let d x b := if b : bool then wrap64 (x + 1) else x in
  mkEM (Name m) (LoadTime m) (InitTime m) (LoadedAt m) (InitializedAt m) (Status m)
    (d (serviceCalls m) (match k with CServiceCall _ => true | _ => false end)) (serviceErrors m)
    (d (eventsPublished m) (match k with CEventPublished _ => true | _ => false end))
    (d (eventsReceived m) (match k with CEventReceived _ => true | _ => false end))
    (d (circuitBreakerTrips m) (match k with CTripped => true | _ => false end)).
Definition add_error (m : ExtensionMetrics) : ExtensionMetrics :=
  mkEM (Name m) (LoadTime m) (InitTime m) (LoadedAt m) (InitializedAt m) (Status m) (serviceCalls m)
    (wrap64 (serviceErrors m + 1)) (eventsPublished m) (eventsReceived m) (circuitBreakerTrips m).

Definition counter_snapshot (k : counter) (name : string) (now : Z) : Snapshot :=
  match k with
  | CServiceCall ok =>
      mkSnapshot name "service_call" (if ok then 1 else 0) (Some {[ "success" := if ok then "true" else "false" ]}) now
  | CEventPublished ty => mkSnapshot name "event_published" 1 (Some {[ "event_type" := ty ]}) now
  | CEventReceived ty => mkSnapshot name "event_received" 1 (Some {[ "event_type" := ty ]}) now
  | CTripped => mkSnapshot name "circuit_breaker_trip" 1 None now
  end.

(** The part of [Stop] before [c.wg.Wait()]. *)
Definition Stop_begin (i : nat) (w : World) : World :=
  if stopped (coll w) then set_pc i None w
  else set_pc i (Some PStopWait) (set_stopping (Some i) (closed w || stopChan (coll w)) (set_coll (set_stopped (coll w)) w)).

(** The part after it. *)
Definition Stop_end (i : nat) (now : Z) (w : World) : World :=
  set_pc i None (set_stopping None (closed w) (set_coll (flushUnsafe now (coll w)) w)).

(** ** Steps *)

(** Whether a call returns at once unless [IsEnabled], and without a name. *)
Definition guarded (c : call) : bool := match c with CSetEnabled _ | CStop => false | _ => true end.
Definition call_name_ok (c : call) : bool :=
  match c with
  | CLoaded n _ | CInitialized n _ _ | CUnloaded n | CCount _ n => negb (String.eqb n "")
  | _ => true
  end.

Definition body (i : nat) (c : call) (now : Z) (w : World) : World :=
  match c with
  | CLoaded n d => set_pc i None (ExtensionLoaded n d now w)
  | CInitialized n d f => set_pc i None (ExtensionInitialized n d f now w)
  | CUnloaded n => set_pc i None (ExtensionUnloaded n now w)
  | CUpdateSystem mem gor gc => set_pc i None (UpdateSystemMetrics mem gor gc now w)
  | CDiscovery r h m => set_pc i None (UpdateServiceDiscoveryMetrics r h m now w)
  | CSetEnabled b => set_pc i None (set_coll (SetEnabled b (coll w)) w)
  | CStop => Stop_begin i w
  | CCount k n => set_pc i (Some (PFind k n)) w
  end.

Definition after_add (k : counter) (name : string) (o : nat) (now : Z) : pc :=
  match k with CServiceCall false => PAddError k name o | _ => PStore (counter_snapshot k name now) end.

(** A section of the mutex can begin when nobody holds it. *)
Definition locked (w : World) (w' : World) : option World :=
  match stopping w with Some _ => None | None => Some w' end.

(** The next step of goroutine [i]. *)
Definition thread_step (i : nat) (p : pc) (now : Z) (w : World) : option World :=
  match p with
  | PStart c =>
      if guarded c then
        locked w (if IsEnabled (coll w) && call_name_ok c
          then set_pc i (Some (match c with CCount k n => PFind k n | _ => PBody c end)) w
          else set_pc i None w)
      else Some (set_pc i (Some (PBody c)) w)
  | PBody c => locked w (body i c now w)
  | PFind k n =>
      locked w (set_pc i (Some (match extensions (coll w) !! n with Some o => PAdd k n o | None => PCreate k n end)) w)
  | PCreate k n =>
      locked w (let (o, w) := getOrCreateExtensionMetrics n w in set_pc i (Some (PAdd k n o)) w)
  | PAdd k n o => Some (set_pc i (Some (after_add k n o now)) (upd_obj o (add_counter k) w))
  | PAddError k n o => Some (set_pc i (Some (PStore (counter_snapshot k n now))) (upd_obj o add_error w))
  | PStore s => locked w (set_pc i None (record now s w))
  | PStopWait => match routine w with RDone => Some (Stop_end i now w) | _ => None end
  end.

Inductive event :=
| ECall (i : nat) (c : call) | EStep (i : nat) (now : Z)
| ERoutine (now : Z) | ETick | EStopSeen | ECleanup (before : Z).

(** The flush goroutine: reading the ticker panics when the field is nil; a
    nil stop channel is never ready; a stopped ticker sends nothing. *)
Definition step (e : event) (w : World) : option World :=
  if crashed w then None
  else
    match e with
    | ECall i c => match threads w !! i with None => Some (set_pc i (Some (PStart c)) w) | Some _ => None end
    | EStep i now => match threads w !! i with Some p => thread_step i p now w | None => None end
    | ERoutine now =>
        match routine w with
        | RLoop => Some (if flushTicker (coll w) then set_routine RRead w else crash w)
        | RRead => Some (set_routine (RSelect (stopChan (coll w))) w)
        | RLock => locked w (set_routine RLoop (if stopped (coll w) then w else set_coll (flushUnsafe now (coll w)) w))
        | _ => None
        end
    | ETick =>
        match routine w with
        | RSelect _ => if flushTicker (coll w) then Some (set_routine RLock w) else None
        | _ => None
        end
    | EStopSeen =>
        match routine w with
        | RSelect true => if closed w then Some (set_routine RDone w) else None
        | _ => None
        end
    | ECleanup before =>
        match storage (coll w) with
        | Some m => Some (set_coll (set_buffer (Some (Cleanup before m)) (batchBuffer (coll w)) (lastFlush (coll w)) (coll w)) w)
        | None => Some w
        end
    end.

#[global] Instance collector_machine : Machine event World := step.

(** ** Queries *)

Definition CQuery `{SortSlice} (keys : list string) (opts : option QueryOptions) (c : Collector) :
    res string (res metric_error (list AggregatedMetrics)) :=
  match storage c, opts with
  | None, _ => Err "storage not configured"
  | Some _, None => Err "query options cannot be nil"
  | Some m, Some _ => Ok (Query keys opts m)
  end.

Definition CGetLatest `{SortSlice} (keys : list string) (name : string) (limit : Z) (c : Collector) :
    res string (res metric_error (list Snapshot)) :=
  match storage c with
  | None => Err "storage not configured"
  | Some m =>
      if String.eqb name "" then Err "extension name cannot be empty"
      else Ok (GetLatest keys name (if (limit <=? 0)%Z then 10%Z else limit) m)
  end.

Definition GetExtensionMetrics (name : string) (w : World) : option ExtensionMetrics :=
  if negb (IsEnabled (coll w)) || String.eqb name "" then None
  else match extensions (coll w) !! name with Some o => objs w !! o | None => None end.

(** ** No snapshot is lost while the collector runs *)

(** What the accounting is about: the buffer, the storage, what was recorded. *)
Definition view (w : World) := (storage (coll w), batchBuffer (coll w), batchSize (coll w), recorded w).

(** [fl]: the snapshots flushed; the storage holds a log of them, from which
    clean-ups have removed none later than [B]. *)
Definition accounted (B : Z) (st : option MemoryStorage) (fl : list Snapshot) : Prop :=
  match st with
  | None => fl = []
  | Some m => ∃ log, holds m log ∧ log `sublist_of` fl ∧ kept B log = kept B fl
  end.

Definition no_loss (B : Z) (v : option MemoryStorage * list Snapshot * Z * list Snapshot) : Prop :=
  let '(st, buffer, size, rec) := v in
  (∃ fl, rec = fl ++ buffer ∧ accounted B st fl) ∧ (st = None → buffer = []) ∧
  (is_Some st → Z.of_nat (length buffer) < size)%Z ∧ Forall (λ s, named s = true) rec.

Lemma valid_named_all ss : Forall (λ s, named s = true) ss → concat (valid_of <$> (Some <$> ss)) = ss.
Proof. induction 1 as [|s ss Hs _ IH]; [done|]. rewrite !fmap_cons. cbn [concat valid_of]. by rewrite Hs, IH. Qed.

(** A flush moves the buffer to the storage. *)
Lemma flush_moves B now c m fl rec size :
  storage c = Some m → stopped c = false → rec = fl ++ batchBuffer c → accounted B (storage c) fl →
  Forall (λ s, named s = true) rec → (0 < size)%Z →
  let c' := flushUnsafe now c in no_loss B (storage c', batchBuffer c', size, rec).
Proof.
  intros Es Est Hrec Hacc Hnm Hsz. unfold flushUnsafe. rewrite Es in *. rewrite Est.
  destruct (batchBuffer c) as [|s b] eqn:Eb.
  - rewrite Es, Eb. split_and!; [by exists fl|done|by intros _|done].
  - cbn [storage batchBuffer set_buffer]. split_and!; [|done|by intros _|done].
    exists rec. rewrite app_nil_r. split; [done|]. destruct Hacc as (log & Hh & Hsub & Hk).
    exists (log ++ (s :: b)). pose proof (batch_holds m log (Some <$> (s :: b)) Hh) as Hb.
    rewrite valid_named_all in Hb by (rewrite Hrec in Hnm; by apply list.Forall_app in Hnm as [_ ?]).
    rewrite Hrec, !kept_app, Hk. split_and!; [done|by apply sublist_app|done].
Qed.

Lemma flush_no_loss B now c rec size :
  (is_Some (storage c) → 0 < size)%Z → no_loss B (storage c, batchBuffer c, size, rec) →
  let c' := flushUnsafe now c in no_loss B (storage c', batchBuffer c', size, rec).
Proof.
  intros Hsz Hn. destruct (storage c) as [m|] eqn:Es; [|unfold flushUnsafe; by rewrite Es, ?Es].
  destruct (stopped c) eqn:Est.
  - unfold flushUnsafe. rewrite Es, Est. by destruct (batchBuffer c) eqn:Eb; rewrite Es, Eb.
  - destruct Hn as ((fl & Hrec & Hacc) & _ & _ & Hnm).
    apply (flush_moves B now c m fl); [done..|by rewrite Es|done|by apply Hsz].
Qed.

Lemma record_no_loss B now s w : named s = true → no_loss B (view w) → no_loss B (view (record now s w)).
Proof.
  intros Hs. unfold record, storeSnapshotUnsafe, accepting, view. cbn [coll recorded].
  destruct (storage (coll w)) as [m|] eqn:Es; cbn [is_some_b andb]; [|by rewrite Es].
  destruct (stopped (coll w)) eqn:Est; cbn [negb]; [by rewrite Es|].
  intros ((fl & Hrec & Hacc) & Hn & Hlen & Hnm). cbn [storage batchBuffer batchSize set_buffer].
  specialize (Hlen ltac:(by eexists)).
  assert (Forall (λ s, named s = true) (recorded w ++ [s])) as Hnm' by (apply list.Forall_app; split; [done|by repeat constructor]).
  assert (recorded w ++ [s] = fl ++ (batchBuffer (coll w) ++ [s])) as Hrec' by (by rewrite Hrec, app_assoc).
  destruct (Z.leb_spec (batchSize (coll w)) (Z.of_nat (length (batchBuffer (coll w) ++ [s])))).
  - set (c1 := set_buffer _ _ _ _).
    assert (batchSize (flushUnsafe now c1) = batchSize (coll w)) as ->.
    { unfold flushUnsafe. by destruct (storage c1), (batchBuffer c1), (stopped c1). }
    by apply (flush_moves B now c1 m fl); [..|lia].
  - cbn [storage batchBuffer batchSize set_buffer]. split_and!; [by exists fl|done|by intros _|done].
Qed.

(** A goroutine past the guards has a name, or a named snapshot, in hand. *)
Definition pc_named (p : pc) : Prop :=
  match p with
  | PBody c => call_name_ok c = true ∨ guarded c = false
  | PFind _ n | PCreate _ n | PAdd _ n _ | PAddError _ n _ => n ≠ ""
  | PStore s => named s = true
  | PStart _ | PStopWait => True
  end.

Record good (B : Z) (w : World) : Prop := {
  g_view : no_loss B (view w);
  g_size : (is_Some (storage (coll w)) → 0 < batchSize (coll w))%Z;
  g_pcs i p : threads w !! i = Some p → pc_named p }.

Lemma good_view B w w' : view w' = view w → threads w' = threads w → good B w → good B w'.
Proof. intros Hv Ht [G1 G2 G3]. pose proof Hv as [= E1 E2 E3 E4]. constructor; rewrite ?Hv, ?Ht, ?E1, ?E3; done. Qed.

Lemma flush_consts now c :
  batchSize (flushUnsafe now c) = batchSize c ∧ (is_Some (storage (flushUnsafe now c)) ↔ is_Some (storage c)).
Proof.
  unfold flushUnsafe. destruct (storage c) eqn:Es, (batchBuffer c), (stopped c); simpl; rewrite ?Es; (split; [done|]);
    (tauto || by split; intros; eexists).
Qed.

Lemma store_consts now s c :
  batchSize (storeSnapshotUnsafe now s c) = batchSize c ∧
  (is_Some (storage (storeSnapshotUnsafe now s c)) ↔ is_Some (storage c)).
Proof. unfold storeSnapshotUnsafe. case_match; [|done]. case_match; [|done].
  apply (flush_consts now (set_buffer (storage c) (batchBuffer c ++ [s]) (lastFlush c) c)). Qed.

Lemma good_record B now s w : named s = true → good B w → good B (record now s w).
Proof.
  intros Hs [G1 G2 G3]. destruct (store_consts now s (coll w)) as [E1 E2].
  constructor; [by apply record_no_loss| |done]. simpl. by rewrite E1, E2.
Qed.

Lemma good_flush B now w : good B w → good B (set_coll (flushUnsafe now (coll w)) w).
Proof.
  intros [G1 G2 G3]. destruct (flush_consts now (coll w)) as [E1 E2].
  constructor; [|simpl; by rewrite E1, E2|done].
  unfold view. cbn [coll set_coll recorded]. rewrite E1. by apply flush_no_loss.
Qed.

Lemma good_set_pc B i p w : (∀ q, p = Some q → pc_named q) → good B w → good B (set_pc i p w).
Proof.
  intros Hp [G1 G2 G3]. constructor; [done..|]. intros j q. simpl. destruct (decide (i = j)) as [<-|Hij].
  - rewrite lookup_partial_alter_eq. apply Hp.
  - rewrite lookup_partial_alter_ne by done. apply G3.
Qed.

Lemma good_get_or_create B n w : good B w → good B (getOrCreateExtensionMetrics n w).2.
Proof. unfold getOrCreateExtensionMetrics. case_match; [done|]. by apply good_view. Qed.

Lemma good_upd_obj B o f w : good B w → good B (upd_obj o f w).
Proof. by apply good_view. Qed.

Lemma named_plain n ty v now : n ≠ "" → ty ≠ "" → named (plain_snapshot n ty v now) = true.
Proof. intros Hn Ht. unfold named. simpl. by rewrite (proj2 (String.eqb_neq _ _) Hn), (proj2 (String.eqb_neq _ _) Ht). Qed.

Lemma named_counter k n now : n ≠ "" → named (counter_snapshot k n now) = true.
Proof. intros Hn. unfold named. destruct k; simpl; by rewrite (proj2 (String.eqb_neq _ _) Hn). Qed.

Create HintDb collector.
#[local] Hint Resolve good_record good_flush good_get_or_create good_upd_obj named_plain named_counter : collector.

Lemma good_body B i c now w : pc_named (PBody c) → good B w → good B (body i c now w).
Proof.
  intros Hc Hg. assert (∀ n, negb (String.eqb n "") = true → n ≠ "") as Hne.
  { intros n Hn%negb_true_iff%String.eqb_neq. done. }
  destruct c as [n d|n d f|n|k n|mem gor gc|r h m|b|]; simpl in Hc |- *.
  1-3: destruct Hc as [Hc%Hne|]; [|done]; apply good_set_pc; [done|].
  - unfold ExtensionLoaded. pose proof (good_get_or_create B n w Hg) as Hg2.
    destruct (getOrCreateExtensionMetrics n w). auto with collector.
  - unfold ExtensionInitialized. pose proof (good_get_or_create B n w Hg) as Hg2.
    destruct (getOrCreateExtensionMetrics n w). auto with collector.
  - apply good_record; [by apply named_plain|]. by apply (good_view B w).
  - destruct Hc as [Hc%Hne|]; [|done]. apply good_set_pc; [by intros q [= <-]|done].
  - apply good_set_pc; [done|]. unfold UpdateSystemMetrics. case_match; [|by apply (good_view B w)].
    do 3 (apply good_record; [done|]). by apply (good_view B w).
  - apply good_set_pc; [done|]. do 3 (apply good_record; [done|]). by apply (good_view B w).
  - apply good_set_pc; [done|]. by apply (good_view B w).
  - unfold Stop_begin. case_match; (apply good_set_pc; [by intros q [= <-]|]); [done|by apply (good_view B w)].
Qed.

Lemma good_thread_step B i p now w w' : pc_named p → good B w → thread_step i p now w = Some w' → good B w'.
Proof.
  intros Hp Hg. assert (∀ n, negb (String.eqb n "") = true → n ≠ "") as Hne.
  { intros n Hn%negb_true_iff%String.eqb_neq. done. }
  unfold thread_step, locked. intros Hs. destruct p as [c|c|k n|k n|k n o|k n o|s|]; simpl in Hp.
  - destruct (guarded c) eqn:Eg.
    + destruct (stopping w); [done|]. injection Hs as <-.
      destruct (IsEnabled (coll w) && call_name_ok c) eqn:E; [|by apply good_set_pc].
      apply andb_true_iff in E as [_ E]. apply good_set_pc; [|done]. intros q [= <-].
      destruct c; simpl in *; auto.
    + injection Hs as <-. apply good_set_pc; [|done]. intros q [= <-]. by right.
  - destruct (stopping w); [done|]. injection Hs as <-. by apply good_body.
  - destruct (stopping w); [done|]. injection Hs as <-. apply good_set_pc; [|done].
    intros q [= <-]. by destruct (extensions (coll w) !! n).
  - destruct (stopping w); [done|]. pose proof (good_get_or_create B n w Hg) as Hg2.
    destruct (getOrCreateExtensionMetrics n w). injection Hs as <-. apply good_set_pc; [by intros q [= <-]|done].
  - injection Hs as <-. apply good_set_pc; [|by apply good_upd_obj]. intros q [= <-].
    unfold after_add. destruct k as [[]| | |]; cbn [pc_named]; auto using named_counter.
  - injection Hs as <-. apply good_set_pc; [|by apply good_upd_obj]. intros q [= <-]. by apply named_counter.
  - destruct (stopping w); [done|]. injection Hs as <-. apply good_set_pc; [done|]. by apply good_record.
  - destruct (routine w); try done. injection Hs as <-. apply good_set_pc; [done|].
    apply (good_view B (set_coll (flushUnsafe now (coll w)) w)); [done..|by apply good_flush].
Qed.

Lemma good_step B e w w' : (∀ before, e = ECleanup before → (before ≤ B)%Z) → good B w → step e w = Some w' → good B w'.
Proof.
  intros Hb Hg. unfold step. destruct (crashed w); [done|]. intros Hs. destruct e as [i c|i now|now| | |before].
  - destruct (threads w !! i); [done|]. injection Hs as <-. by apply good_set_pc; [intros q [= <-]|].
  - destruct (threads w !! i) as [p|] eqn:Ep; [|done]. eapply good_thread_step; [|done..]. by eapply g_pcs.
  - destruct (routine w); try done.
    + destruct (flushTicker (coll w)); injection Hs as <-; by apply (good_view B w).
    + injection Hs as <-; by apply (good_view B w).
    + unfold locked in Hs. destruct (stopping w); [done|]. injection Hs as <-.
      destruct (stopped (coll w)); [by apply (good_view B w)|].
      by apply (good_view B (set_coll (flushUnsafe now (coll w)) w)); [..|apply good_flush].
  - destruct (routine w); try done. destruct (flushTicker (coll w)); [|done]. injection Hs as <-. by apply (good_view B w).
  - destruct (routine w) as [| |[]| |]; try done. destruct (closed w); [|done]. injection Hs as <-. by apply (good_view B w).
  - destruct Hg as [G1 G2 G3]. destruct (storage (coll w)) as [m|] eqn:Es; [|by injection Hs as <-; constructor; rewrite ?Es].
    injection Hs as <-. constructor; [|intros _; apply G2; by eexists|done].
    unfold view in *. simpl in *. rewrite Es in G1. destruct G1 as ((fl & Hrec & log & Hh & Hsub & Hk) & Hn & Hlen & Hnm).
    split_and!; [|done|intros _; apply Hlen; by eexists|done].
    exists fl. split; [done|]. exists (kept before log). split_and!; [by apply cleanup_holds| |].
    + etrans; [apply sublist_filter|done].
    + rewrite <- Hk. unfold kept. rewrite list_filter_filter. apply list_filter_ext_elem.
      specialize (Hb before eq_refl). intros s _. lia.
Qed.

Lemma good_new B cfg now c : NewCollector cfg now = Ok c → good B (new_world c).
Proof.
  unfold NewCollector. intros Hc. destruct cfg as [cfg|]; [destruct (Enabled cfg); [destruct (Z.leb_spec (default (30 * second)%Z (FlushInterval cfg)) 0); [done|]|]|];
    injection Hc as <-; (constructor; [|simpl|done]).
  2: { intros _. destruct (Z.leb_spec (BatchSize cfg) 0); lia. }
  1: { unfold view; simpl. split_and!; [|done| |constructor].
    - exists []. split; [done|]. exists []. split; [apply new_holds|done].
    - intros _. destruct (Z.leb_spec (BatchSize cfg) 0); lia. }
  all: try by intros []. all: split_and!; [by exists []|done|by intros []|constructor].
Qed.

(** C14: While it runs, the collector loses no snapshot.  In every interleaving
    of calls, ticks of the flush goroutine, [Stop] and clean-ups: the snapshots
    recorded so far are, in order, those flushed and those in the buffer; the
    buffer is shorter than the batch size; and the storage is exactly a log of
    flushed snapshots, split by key ([holds] of [MetricsStore]), in which
    everything flushed that is later than every clean-up's limit still is. *)
Theorem collector_keeps_snapshots (cfg : option MetricsConfig) (now : Z) (c : Collector) (es : list event)
    (w : World) (B : Z) :
  NewCollector cfg now = Ok c → mrun es (new_world c) = Some w →
  (∀ before, ECleanup before ∈ es → (before ≤ B)%Z) →
  (∃ flushed, recorded w = flushed ++ batchBuffer (coll w) ∧
    match storage (coll w) with
    | None => recorded w = []
    | Some m =>
        (Z.of_nat (length (batchBuffer (coll w))) < batchSize (coll w))%Z ∧
        ∃ log, holds m log ∧ log `sublist_of` flushed ∧ kept B log = kept B flushed
    end).
Proof.
  intros Hc Hr Hb. assert (good B w) as [((fl & Hrec & Hacc) & Hn & Hlen & _) _ _].
  { apply (mrun_inv_in (good B) es (new_world c) w); [|by eapply good_new|done].
    intros e s s' He. apply good_step. intros before ->. by apply Hb. }
  exists fl. split; [done|]. destruct (storage (coll w)) as [m|]; [|by rewrite Hrec, Hacc, Hn].
  split; [apply Hlen; by eexists|done].
Qed.

(** ** Stop *)

(** What holds of every state once [Stop] has set [stopped]. *)
Record stop_shape (w : World) : Prop := {
  ss_stopped : stopped (coll w) = true → flushTicker (coll w) = false ∧ stopChan (coll w) = false ∧
    (closed w = true ∨ routine w = RDone);
  ss_holder i : stopping w = Some i → stopped (coll w) = true ∧ threads w !! i = Some PStopWait;
  ss_waiter i : threads w !! i = Some PStopWait → stopping w = Some i;
  ss_open : stopped (coll w) = false → (routine w = RDone ∨ stopChan (coll w) = true) }.

(** Calls leave the fields [Stop] decides by alone. *)
Definition stop_view (w : World) :=
  (stopped (coll w), flushTicker (coll w), stopChan (coll w), closed w, routine w, stopping w).

Lemma flush_stop_fields now c :
  stopped (flushUnsafe now c) = stopped c ∧ flushTicker (flushUnsafe now c) = flushTicker c ∧
  stopChan (flushUnsafe now c) = stopChan c.
Proof. unfold flushUnsafe. by destruct (storage c), (batchBuffer c), (stopped c) eqn:E; rewrite ?E. Qed.

Lemma record_stop_view now s w : stop_view (record now s w) = stop_view w.
Proof.
  unfold stop_view, record, storeSnapshotUnsafe. cbn [coll closed routine stopping].
  destruct (accepting (coll w)); [|done]. case_match; [|done].
  by destruct (flush_stop_fields now (set_buffer (storage (coll w)) (batchBuffer (coll w) ++ [s]) (lastFlush (coll w)) (coll w)))
    as (-> & -> & ->).
Qed.

Lemma shape_same w w' : stop_shape w → stop_view w' = stop_view w → threads w' = threads w → stop_shape w'.
Proof.
  intros [S1 S2 S3 S4] Hv Ht. injection Hv as E1 E2 E3 E4 E5 E6.
  constructor; rewrite ?E1, ?E2, ?E3, ?E4, ?E5, ?E6, ?Ht; done.
Qed.

(** A goroutine that neither is nor gets to [wg.Wait] moves. *)
Lemma shape_pc w i p : stop_shape w → threads w !! i ≠ Some PStopWait → p ≠ Some PStopWait → stop_shape (set_pc i p w).
Proof.
  intros [S1 S2 S3 S4] Hi Hp. constructor; [done| | |done]; intros j; simpl; destruct (decide (i = j)) as [<-|Hij].
  - intros Hs. destruct (S2 i Hs) as [_ Hc]. done.
  - rewrite lookup_partial_alter_ne by done. apply S2.
  - by rewrite lookup_partial_alter_eq.
  - rewrite lookup_partial_alter_ne by done. apply S3.
Qed.

Lemma get_or_create_stop_view n w :
  stop_view (getOrCreateExtensionMetrics n w).2 = stop_view w ∧ threads (getOrCreateExtensionMetrics n w).2 = threads w.
Proof. unfold getOrCreateExtensionMetrics. by case_match. Qed.

Lemma body_stop_view i c now w : c ≠ CStop →
  ∃ w1, (body i c now w = set_pc i None w1 ∨ ∃ k n, body i c now w = set_pc i (Some (PFind k n)) w1) ∧
    stop_view w1 = stop_view w ∧ threads w1 = threads w.
Proof.
  intros Hc. destruct c as [n d|n d f|n|k n|mem gor gc|r h m|b|]; [..|done];
    (eexists; split; [first [by left|right; by eexists _, _]|]).
  - unfold ExtensionLoaded. pose proof (get_or_create_stop_view n w) as [<- <-].
    destruct (getOrCreateExtensionMetrics n w) as [o w']. by rewrite record_stop_view.
  - unfold ExtensionInitialized. pose proof (get_or_create_stop_view n w) as [<- <-].
    destruct (getOrCreateExtensionMetrics n w) as [o w']. by rewrite record_stop_view.
  - unfold ExtensionUnloaded. by rewrite record_stop_view.
  - done.
  - unfold UpdateSystemMetrics. case_match; [|done]. by rewrite !record_stop_view.
  - unfold UpdateServiceDiscoveryMetrics. by rewrite !record_stop_view.
  - done.
Qed.

Lemma shape_begin i w : stop_shape w → stopping w = None → threads w !! i ≠ Some PStopWait → stop_shape (Stop_begin i w).
Proof.
  intros Hw Hn Hi. unfold Stop_begin. destruct (stopped (coll w)) eqn:Es; [by apply shape_pc|].
  destruct Hw as [S1 S2 S3 S4]. specialize (S4 Es). constructor; simpl.
  - intros _. split_and!; [done..|]. destruct S4 as [->| ->]; [by right|left; by rewrite orb_true_r].
  - intros j [= <-]. split; [done|by rewrite lookup_partial_alter_eq].
  - intros j. destruct (decide (i = j)) as [<-|Hij]; [done|]. rewrite lookup_partial_alter_ne by done.
    intros Hj%S3. congruence.
  - done.
Qed.

Lemma shape_thread_step i p now w w' : stop_shape w → threads w !! i = Some p → thread_step i p now w = Some w' → stop_shape w'.
Proof.
  intros Hw Hp Hs. unfold thread_step, locked in Hs.
  assert (p ≠ PStopWait → threads w !! i ≠ Some PStopWait) as Hi by congruence.
  destruct p as [c|c|k n|k n|k n o|k n o|s|]; try specialize (Hi ltac:(done)).
  - destruct (guarded c); [destruct (stopping w); [done|]|]; injection Hs as <-; [|by apply shape_pc].
    case_match; apply shape_pc; try done. by destruct c.
  - destruct (stopping w) eqn:Est; [done|]. injection Hs as <-. assert (c = CStop ∨ c ≠ CStop) as [->|Hc] by (destruct c; auto); [by apply shape_begin|].
    destruct (body_stop_view i c now w Hc) as (w1 & [->|(k & n & ->)] & Hv & Ht);
      (apply shape_pc; [by apply (shape_same w)|by rewrite Ht|done]).
  - destruct (stopping w); [done|]. injection Hs as <-. apply shape_pc; [done..|]. by case_match.
  - destruct (stopping w); [done|]. pose proof (get_or_create_stop_view n w) as [Hv Ht].
    destruct (getOrCreateExtensionMetrics n w) as [o w1]. injection Hs as <-.
    apply shape_pc; [by apply (shape_same w)|simpl in Ht; by rewrite Ht|done].
  - injection Hs as <-. apply shape_pc; [by apply (shape_same w)|done|]. by destruct k as [[]| | |].
  - injection Hs as <-. apply shape_pc; [by apply (shape_same w)|done|done].
  - destruct (stopping w); [done|]. injection Hs as <-.
    apply shape_pc; [apply (shape_same w); [done|apply record_stop_view|done]|done|done].
  - destruct (routine w) eqn:Er; try done. injection Hs as <-. destruct Hw as [S1 S2 S3 S4].
    unfold Stop_end. destruct (flush_stop_fields now (coll w)) as (E1 & E2 & E3).
    constructor; simpl; rewrite ?E1, ?E2, ?E3; [done|done| |intros _; by left].
    intros j. destruct (decide (i = j)) as [<-|Hij]; [by rewrite lookup_partial_alter_eq|].
    rewrite lookup_partial_alter_ne by done. intros Hj%S3. pose proof (S3 i Hp). congruence.
Qed.

Lemma shape_routine r w : stop_shape w → routine w ≠ RDone → stop_shape (set_routine r w).
Proof.
  intros [S1 S2 S3 S4] Hr. constructor; simpl; [|done|done|].
  - intros Hs. destruct (S1 Hs) as (? & ? & [?|?]); [|done]. auto.
  - intros Hs. destruct (S4 Hs); [done|]. auto.
Qed.

Lemma shape_flush now w : stop_shape w → stop_shape (set_coll (flushUnsafe now (coll w)) w).
Proof.
  intros Hw. apply (shape_same w); [done| |done]. unfold stop_view. simpl.
  by destruct (flush_stop_fields now (coll w)) as (-> & -> & ->).
Qed.

Lemma shape_step e w w' : stop_shape w → step e w = Some w' → stop_shape w'.
Proof.
  intros Hw. unfold step. destruct (crashed w); [done|]. intros Hs. destruct e as [i c|i now|now| | |before].
  - destruct (threads w !! i) eqn:Ei; [done|]. injection Hs as <-. apply shape_pc; [done|by rewrite Ei|done].
  - destruct (threads w !! i) as [p|] eqn:Ep; [|done]. by eapply shape_thread_step.
  - destruct (routine w) eqn:Er; try done.
    + destruct (flushTicker (coll w)); injection Hs as <-; [apply shape_routine; congruence|by apply (shape_same w)].
    + injection Hs as <-. apply shape_routine; congruence.
    + unfold locked in Hs. destruct (stopping w) eqn:Est; [done|]. injection Hs as <-.
      destruct (stopped (coll w)); apply shape_routine; try (simpl; congruence). by apply shape_flush.
  - destruct (routine w) eqn:Er; try done. destruct (flushTicker (coll w)); [|done].
    injection Hs as <-. apply shape_routine; congruence.
  - destruct (routine w) as [| |[]| |] eqn:Er; try done. destruct (closed w); [|done].
    injection Hs as <-. apply shape_routine; congruence.
  - destruct (storage (coll w)); injection Hs as <-; [by apply (shape_same w)|done].
Qed.

Lemma shape_new cfg now c : NewCollector cfg now = Ok c → stop_shape (new_world c).
Proof.
  unfold NewCollector. intros Hc. destruct cfg as [cfg|]; [destruct (Enabled cfg); [case_match; [done|]|]|];
    injection Hc as <-; (constructor; simpl; [done|done|done|]); intros _; first [by left|by right].
Qed.

Lemma shape_reachable cfg now c es w : NewCollector cfg now = Ok c → mrun es (new_world c) = Some w → stop_shape w.
Proof. intros Hc. apply mrun_inv; [|by eapply shape_new]. intros e s s'. by apply shape_step. Qed.

(** [Stop] has closed the channel but will not see the flush goroutine return. *)
Definition wedged (i : nat) (w : World) : Prop :=
  threads w !! i = Some PStopWait ∧ stopping w = Some i ∧ flushTicker (coll w) = false ∧ stopChan (coll w) = false ∧
  (crashed w = true ∨ routine w ∈ [RLoop; RRead; RSelect false; RLock]).

Lemma wedged_step i e w w' : stop_shape w → wedged i w → step e w = Some w' → wedged i w'.
Proof.
  intros Hsh (Ht & Hst & Hf & Hc & Hr). unfold step. destruct (crashed w) eqn:Ecr; [done|]. intros Hs.
  destruct Hr as [Hr|Hr]; [done|]. rewrite !elem_of_cons, elem_of_nil in Hr.
  assert (∀ j p, j ≠ i → wedged i (set_pc j p w)) as Hpc.
  { intros j p Hj. split_and!; [|done..|right; by rewrite !elem_of_cons, elem_of_nil].
    simpl. by rewrite lookup_partial_alter_ne by done. }
  assert (∀ r, r ∈ [RLoop; RRead; RSelect false; RLock] → wedged i (set_routine r w)) as Hro.
  { intros r Hrr. by split_and!; [..|right]. }
  destruct e as [j c|j now|now| | |before].
  - destruct (decide (j = i)) as [->|Hj]; [by rewrite Ht in Hs|]. destruct (threads w !! j); [done|].
    injection Hs as <-. by apply Hpc.
  - destruct (threads w !! j) as [p|] eqn:Ep; [|done]. unfold thread_step, locked in Hs. rewrite Hst in Hs.
    destruct (decide (j = i)) as [->|Hj].
    { rewrite Ht in Ep. injection Ep as <-. destruct Hr as [Hr|[Hr|[Hr|[Hr|[]]]]]; by rewrite Hr in Hs. }
    destruct p as [c|c|k n|k n|k n o|k n o|s|]; try done.
    + destruct (guarded c); [done|]. injection Hs as <-. by apply Hpc.
    + injection Hs as <-. by apply Hpc.
    + injection Hs as <-. by apply Hpc.
    + pose proof (ss_waiter _ Hsh j Ep). congruence.
  - destruct Hr as [Hr|[Hr|[Hr|[Hr|[]]]]]; rewrite Hr in Hs; try done.
    + rewrite Hf in Hs. injection Hs as <-. split_and!; [done..|by left].
    + injection Hs as <-. apply Hro. rewrite Hc. do 2 right. left.
    + unfold locked in Hs. by rewrite Hst in Hs.
  - destruct (routine w); try done. by rewrite Hf in Hs.
  - destruct Hr as [Hr|[Hr|[Hr|[Hr|[]]]]]; by rewrite Hr in Hs.
  - destruct (storage (coll w)); injection Hs as <-; (split_and!; [done..|right; by rewrite !elem_of_cons, elem_of_nil]).
Qed.

Lemma wait_over i now w : crashed w = false → threads w !! i = Some PStopWait → routine w = RDone →
  mstep (EStep i now) w = Some (Stop_end i now w).
Proof. intros Hc Hi Hr. unfold mstep, collector_machine, step. rewrite Hc, Hi. simpl. by rewrite Hr. Qed.

(** When [Stop] returns.  In any reachable state in which a call of [Stop]
    waits for the flush goroutine, it can still return if and only if that
    goroutine is in its [select] with the stop channel in hand, or has
    returned.  Otherwise [Stop] never returns, whatever happens: the goroutine
    waits for the mutex [Stop] holds (it had received a tick), or finds the
    ticker or the channel nil — reading the nil ticker is a panic of the
    process. *)
Theorem stop_returns_iff (cfg : option MetricsConfig) (now : Z) (c : Collector) (es : list event) (w : World) (i : nat) :
  NewCollector cfg now = Ok c → mrun es (new_world c) = Some w →
  threads w !! i = Some PStopWait → crashed w = false →
  (∃ es' w', mrun es' w = Some w' ∧ threads w' !! i = None) ↔ (routine w = RSelect true ∨ routine w = RDone).
Proof.
  intros Hc Hr Hi Hcr. pose proof (shape_reachable _ _ _ _ _ Hc Hr) as Hsh.
  pose proof (ss_waiter _ Hsh i Hi) as Hst. destruct (ss_holder _ Hsh i Hst) as [Hs _].
  destruct (ss_stopped _ Hsh Hs) as (Hf & Hch & Hcl). split.
  - intros (es' & w' & Hr' & Hn). destruct (routine w) as [| |[]| |] eqn:Er; [..|by right]; try by left.
    all: exfalso; assert (stop_shape w' ∧ wedged i w') as [_ (Ht & _)]; [|congruence].
    all: apply (mrun_inv (λ w, stop_shape w ∧ wedged i w) es' w w'); [| |done].
    all: try (intros e s s' [? ?] ?; split; [by eapply shape_step|by eapply wedged_step]).
    all: (split; [done|]); (split_and!; [done..|right; rewrite Er, !elem_of_cons; tauto]).
  - intros [Er|Er].
    + destruct Hcl as [Hcl|Hcl]; [|congruence]. exists [EStopSeen; EStep i now], (Stop_end i now (set_routine RDone w)).
      split; [|by apply lookup_partial_alter_eq]. cbn [mrun].
      assert (mstep EStopSeen w = Some (set_routine RDone w)) as ->.
      { unfold mstep, collector_machine, step. by rewrite Hcr, Er, Hcl. }
      by rewrite (wait_over i now (set_routine RDone w)).
    + exists [EStep i now], (Stop_end i now w). split; [|by apply lookup_partial_alter_eq].
      cbn [mrun]. by rewrite (wait_over i now w).
Qed.

(** *** After [Stop] nothing moves *)

Definition frozen (w0 w : World) : Prop := stopped (coll w) = true ∧ view w = view w0.

Lemma flush_frozen now c : stopped c = true → flushUnsafe now c = c.
Proof. intros Hs. unfold flushUnsafe. rewrite Hs. by destruct (storage c), (batchBuffer c). Qed.

Lemma record_frozen now s w : stopped (coll w) = true → view (record now s w) = view w ∧ stopped (coll (record now s w)) = true.
Proof.
  intros Hs. unfold view, record, storeSnapshotUnsafe, accepting. cbn [coll recorded]. rewrite Hs, andb_false_r. done.
Qed.

Lemma get_or_create_frozen n w :
  view (getOrCreateExtensionMetrics n w).2 = view w ∧ stopped (coll (getOrCreateExtensionMetrics n w).2) = stopped (coll w).
Proof. unfold getOrCreateExtensionMetrics. by case_match. Qed.

Lemma record_keeps w0 now s w : frozen w0 w → frozen w0 (record now s w).
Proof. intros [Hs Hv]. destruct (record_frozen now s w Hs) as [Hv' Hs']. split; [done|congruence]. Qed.

Lemma get_or_create_keeps w0 n w : frozen w0 w → frozen w0 (getOrCreateExtensionMetrics n w).2.
Proof. intros [Hs Hv]. destruct (get_or_create_frozen n w) as [Hv' Hs']. split; congruence. Qed.

Lemma frozen_step w0 e w w' : (∀ before, e ≠ ECleanup before) → frozen w0 w → step e w = Some w' → frozen w0 w'.
Proof.
  intros Hb Hw. unfold step. destruct (crashed w); [done|]. intros Hs. destruct e as [i c|i now|now| | |before].
  - destruct (threads w !! i); [done|]. by injection Hs as <-.
  - destruct (threads w !! i) as [p|]; [|done]. unfold thread_step, locked in Hs. destruct p as [c|c|k n|k n|k n o|k n o|s|].
    + destruct (guarded c); [destruct (stopping w); [done|]|]; injection Hs as <-; [case_match|]; done.
    + destruct (stopping w); [done|]. injection Hs as <-. destruct c as [n d|n d f|n|k n|mem gor gc|r h m|b|]; cbn [body].
      * change (frozen w0 (ExtensionLoaded n d now w)). unfold ExtensionLoaded. pose proof (get_or_create_keeps w0 n w Hw).
        destruct (getOrCreateExtensionMetrics n w). by apply record_keeps.
      * change (frozen w0 (ExtensionInitialized n d f now w)). unfold ExtensionInitialized.
        pose proof (get_or_create_keeps w0 n w Hw). destruct (getOrCreateExtensionMetrics n w). by apply record_keeps.
      * change (frozen w0 (ExtensionUnloaded n now w)). by apply record_keeps.
      * done.
      * change (frozen w0 (UpdateSystemMetrics mem gor gc now w)). unfold UpdateSystemMetrics.
        case_match; [by repeat apply record_keeps|done].
      * change (frozen w0 (UpdateServiceDiscoveryMetrics r h m now w)). by repeat apply record_keeps.
      * done.
      * destruct Hw as [Hst Hv]. unfold Stop_begin. by rewrite Hst.
    + destruct (stopping w); [done|]. by injection Hs as <-.
    + destruct (stopping w); [done|]. pose proof (get_or_create_keeps w0 n w Hw).
      destruct (getOrCreateExtensionMetrics n w). by injection Hs as <-.
    + by injection Hs as <-.
    + by injection Hs as <-.
    + destruct (stopping w); [done|]. injection Hs as <-. change (frozen w0 (record now s w)). by apply record_keeps.
    + destruct (routine w); try done. injection Hs as <-. destruct Hw as [Hst Hv].
      unfold Stop_end. rewrite flush_frozen by done. done.
  - destruct (routine w); try done.
    + destruct (flushTicker (coll w)); by injection Hs as <-.
    + by injection Hs as <-.
    + unfold locked in Hs. destruct (stopping w); [done|]. injection Hs as <-. destruct Hw as [Hst Hv]. by rewrite Hst.
  - destruct (routine w); try done. destruct (flushTicker (coll w)); [|done]. by injection Hs as <-.
  - destruct (routine w) as [| |[]| |]; try done. destruct (closed w); [|done]. by injection Hs as <-.
  - by destruct (Hb before).
Qed.

(** [Stop] throws the last batch away.  Once [stopped] is set — which
    [Stop] does before its "final flush" — no run changes the buffer or the
    storage again, clean-ups apart: in particular the final flush of [Stop]
    itself stores nothing, so the snapshots in the buffer at that moment (up to
    one less than the batch size) are never stored. *)
Theorem stop_discards_buffer (es : list event) (w w' : World) :
  stopped (coll w) = true → mrun es w = Some w' → Forall (λ e, match e with ECleanup _ => False | _ => True end) es →
  batchBuffer (coll w') = batchBuffer (coll w) ∧ storage (coll w') = storage (coll w) ∧ recorded w' = recorded w ∧
  ∀ i now, batchBuffer (coll (Stop_end i now w')) = batchBuffer (coll w) ∧ storage (coll (Stop_end i now w')) = storage (coll w).
Proof.
  intros Hs Hr Hes. assert (frozen w w') as [Hs' Hv].
  { apply (mrun_inv_in (frozen w) es w w'); [|done..]. intros e s s' He. apply frozen_step.
    intros before ->. rewrite list.Forall_forall in Hes. by apply (Hes _ He). }
  injection Hv as E1 E2 _ E4. split_and!; [done..|]. intros i now. unfold Stop_end. by rewrite flush_frozen.
Qed.

(** ** At concrete inputs *)

Definition demo_config : MetricsConfig := mkMC true None 3.
Definition demo_new : World := new_world
  (mkColl ∅ (mkSys 0 0 0 0 0 0) (Some NewMemoryStorage) true false [] 3 0 true true).

(** Two extensions are loaded and one fails a service call: the batch of three
    is full and flushed; one more snapshot stays in the buffer. *)
Definition demo_calls : list event :=
  [ERoutine 0; ERoutine 0; ECall 0 (CLoaded "auth" 5000000); ECall 1 (CLoaded "db" 7000000); EStep 0 1; EStep 1 2; EStep 1 3;
   EStep 0 4; ECall 2 (CCount (CServiceCall false) "auth"); EStep 2 5; EStep 2 6; EStep 2 7; EStep 2 8; EStep 2 9;
   ECall 3 (CUnloaded "db"); EStep 3 10; EStep 3 11].

Lemma collector_keeps_snapshots_witness :
  ∃ w, mrun demo_calls demo_new = Some w ∧
    length (recorded w) = 4 ∧ length (batchBuffer (coll w)) = 1 ∧
    (∃ flushed, recorded w = flushed ++ batchBuffer (coll w) ∧
      match storage (coll w) with
      | None => recorded w = []
      | Some m =>
          (Z.of_nat (length (batchBuffer (coll w))) < batchSize (coll w))%Z ∧
          ∃ log, holds m log ∧ log `sublist_of` flushed ∧ kept 0 log = kept 0 flushed
      end).
Proof.
  eexists. split; [vm_compute; reflexivity|]. split; [reflexivity|]. split; [reflexivity|].
  apply (collector_keeps_snapshots (Some demo_config) 0 (coll demo_new) demo_calls _ 0); [reflexivity|vm_compute; reflexivity|].
  intros before Hin. exfalso. revert Hin. unfold demo_calls. rewrite !elem_of_cons, elem_of_nil.
  intros Hin. repeat (destruct Hin as [Hin|Hin]; [discriminate Hin|]). exact Hin.
Defined.

(** A tick arrives, then [Stop] takes the mutex: it never returns. *)
Lemma stop_returns_iff_witness :
  ∃ w, mrun (demo_calls ++ [ECall 4 CStop; EStep 4 12; ETick; EStep 4 13]) demo_new = Some w ∧
    ¬ ∃ es' w', mrun es' w = Some w' ∧ threads w' !! 4 = None.
Proof.
  eexists. split; [vm_compute; reflexivity|].
  intros Hex. apply (stop_returns_iff (Some demo_config) 0 (coll demo_new)
    (demo_calls ++ [ECall 4 CStop; EStep 4 12; ETick; EStep 4 13])) in Hex;
    [by destruct Hex|reflexivity|vm_compute; reflexivity|reflexivity|reflexivity].
Defined.

(** [Stop] returns in this run, and the fourth snapshot is gone. *)
Lemma stop_discards_buffer_witness :
  ∃ w w', mrun (demo_calls ++ [ECall 4 CStop; EStep 4 12; EStep 4 13]) demo_new = Some w ∧
    mrun [EStopSeen; EStep 4 14] w = Some w' ∧ threads w' !! 4 = None ∧ length (recorded w') = 4 ∧
    batchBuffer (coll w') = batchBuffer (coll w) ∧ length (batchBuffer (coll w)) = 1.
Proof.
  eexists _, _. split; [vm_compute; reflexivity|]. split; [vm_compute; reflexivity|]. split; [reflexivity|].
  split; [reflexivity|]. split; [|reflexivity].
  refine (proj1 (stop_discards_buffer [EStopSeen; EStep 4 14] _ _ _ _ _)); [reflexivity|vm_compute; reflexivity|].
  repeat constructor.
Defined.
