(* ===== verification/GoStrings.v ===== *)
(** * Strings and file paths of the Go library

    The functions of package strings and of path/filepath (on Unix) that several
    components use.  A cleaned path is described by its components: [Clean] is
    lexical, so that it is a fold of [clean_step] over the parts between the
    separators, "." and empty parts skipped, ".." taking the last part back. *)

From stdpp Require Import base tactics option list strings numbers.
From Stdlib Require Import ZArith Ascii Lia.
From S2P Require Import Prelude Base64.

(** ** Package strings *)

(** [strings.Split(s, sep)] for a separator of one byte: never empty. *)
Fixpoint Split (sep : ascii) (s : string) : list string :=
  match s with
  | EmptyString => [EmptyString]
  | String c s' =>
      if Ascii.eqb c sep then EmptyString :: Split sep s'
      else match Split sep s' with [] => [String c EmptyString] | p :: ps => String c p :: ps end
  end.

Fixpoint Join (sep : string) (ss : list string) : string :=
  match ss with
  | [] => EmptyString
  | [s] => s
  | s :: ss' => s +:+ sep +:+ Join sep ss'
  end.

(** What follows the prefix [p] in [s]. *)
Fixpoint CutPrefix (p s : string) : option string :=
  match p, s with
  | EmptyString, _ => Some s
  | String a p', String b s' => if Ascii.eqb a b then CutPrefix p' s' else None
  | _, EmptyString => None
  end.

Definition HasPrefix (s p : string) : bool := is_some_b (CutPrefix p s).
Definition TrimPrefix (s p : string) : string := default s (CutPrefix p s).

Fixpoint HasSuffix (s x : string) : bool :=
  String.eqb s x || match s with EmptyString => false | String _ s' => HasSuffix s' x end.

Fixpoint Contains (s x : string) : bool :=
  HasPrefix s x || match s with EmptyString => false | String _ s' => Contains s' x end.

Lemma CutPrefix_spec p s r : CutPrefix p s = Some r ↔ s = p +:+ r.
Proof.
  revert s. induction p as [|a p IH]; intros s; cbn [CutPrefix]; [rewrite str_app_nil_l; split; congruence|].
  rewrite str_app_cons. destruct s as [|b s]; [done|]. destruct (Ascii.eqb_spec a b) as [->|Hab].
  - rewrite IH. split; [by intros ->|by intros [= ->]].
  - split; [done|]. intros [= Hb _]. congruence.
Qed.

Lemma HasPrefix_spec s p : HasPrefix s p = true ↔ ∃ r, s = p +:+ r.
Proof.
  unfold HasPrefix. destruct (CutPrefix p s) as [r|] eqn:E.
  - apply CutPrefix_spec in E. split; [by exists r|done].
  - split; [done|]. intros [r Hr%CutPrefix_spec]. congruence.
Qed.

Lemma HasSuffix_spec s x : HasSuffix s x = true ↔ ∃ r, s = r +:+ x.
Proof.
  induction s as [|c s IH]; cbn [HasSuffix].
  - rewrite orb_false_r, String.eqb_eq. split; [intros <-; by exists EmptyString|].
    intros [[|c r] Hr]; [by rewrite str_app_nil_l in Hr|done].
  - rewrite orb_true_iff, String.eqb_eq, IH. split.
    + intros [<-|[r ->]]; [by exists EmptyString|]. by exists (String c r).
    + intros [[|d r] Hr]; [left; by rewrite str_app_nil_l in Hr|]. rewrite str_app_cons in Hr. injection Hr as -> ->.
      right. by exists r.
Qed.

Lemma Contains_spec s x : Contains s x = true ↔ ∃ a b, s = a +:+ x +:+ b.
Proof.
  induction s as [|c s IH]; cbn [Contains]; rewrite orb_true_iff, HasPrefix_spec.
  - split; [intros [[b Hb]|]; [|done]; by exists EmptyString, b|].
    intros ([|c a] & b & H); [|done]. left. exists b. by rewrite str_app_nil_l in H.
  - rewrite IH. split.
    + intros [[b Hb]|(a & b & ->)]; [by exists EmptyString, b|]. by exists (String c a), b.
    + intros ([|d a] & b & H); [left; exists b; by rewrite str_app_nil_l in H|].
      rewrite str_app_cons in H. injection H as -> ->. right. eauto.
Qed.

(** *** [Split] and [Join] are inverse *)

Lemma Split_not_nil sep s : Split sep s ≠ [].
Proof. destruct s as [|c s]; simpl; [done|]. destruct (Ascii.eqb c sep); [done|]. by destruct (Split sep s). Qed.

Lemma Split_app sep a b : Split sep (a +:+ String sep b) = Split sep a ++ Split sep b.
Proof.
  induction a as [|c a IH]; [cbn [Split]; rewrite str_app_nil_l; cbn [Split]; by rewrite Ascii.eqb_refl|].
  rewrite str_app_cons. cbn [Split]. rewrite IH. destruct (Ascii.eqb c sep); [done|].
  pose proof (Split_not_nil sep a). by destruct (Split sep a).
Qed.

Lemma has_byte_app b s t : has_byte b (s +:+ t) = has_byte b s || has_byte b t.
Proof. induction s as [|c s IH]; [done|]. rewrite str_app_cons. cbn [has_byte]. by rewrite IH, orb_assoc. Qed.

Lemma Split_plain sep s : has_byte sep s = false → Split sep s = [s].
Proof.
  induction s as [|c s IH]; [done|]. cbn [has_byte Split]. intros [Hc Hs]%orb_false_iff. by rewrite Hc, IH.
Qed.

Lemma Split_Join sep ss : ss ≠ [] → Forall (λ s, has_byte sep s = false) ss → Split sep (Join (String sep EmptyString) ss) = ss.
Proof.
  intros Hne Hss. induction Hss as [|s ss Hs Hss IH]; [done|]. destruct ss as [|s' ss]; [by apply Split_plain|].
  change (Join (String sep EmptyString) (s :: s' :: ss)) with (s +:+ String sep (Join (String sep EmptyString) (s' :: ss))).
  by rewrite Split_app, Split_plain, IH.
Qed.

Lemma Split_parts sep s : Forall (λ p, has_byte sep p = false) (Split sep s).
Proof.
  induction s as [|c s IH]; cbn [Split]; [by repeat constructor|]. destruct (Ascii.eqb c sep) eqn:E; [by constructor|].
  destruct (Split sep s) as [|p ps]; [by repeat constructor; simpl; rewrite E|].
  inversion IH; subst. constructor; [|done]. cbn [has_byte]. by rewrite E.
Qed.

(** ** Package path/filepath *)

Abbreviation slash := "/"%char.
Abbreviation path_of := (Join "/").

Definition IsAbs (p : string) : bool := HasPrefix p "/".

(** One part of a path on the stack of the parts before it, last first. *)
Definition clean_step (rooted : bool) (st : list string) (c : string) : list string :=
  if String.eqb c "" || String.eqb c "." then st
  else if String.eqb c ".." then
    match st with
    | [] => if rooted then [] else [".."]
    | x :: st' => if String.eqb x ".." then ".." :: st else st'
    end
  else c :: st.

Definition clean_parts (rooted : bool) (cs : list string) : list string := reverse (foldl (clean_step rooted) [] cs).

Definition Clean (p : string) : string :=
  if String.eqb p "" then "."
  else
    let cs := clean_parts (IsAbs p) (Split slash p) in
    if IsAbs p then String slash (path_of cs) else match cs with [] => "." | _ => path_of cs end.

(** [filepath.Join(a, b)]. *)
Definition JoinPath (a b : string) : string :=
  match filter (λ s, s ≠ "") [a; b] with [] => "" | es => Clean (path_of es) end.

(** [filepath.Abs(p)] in the working directory [cwd]. *)
Definition Abs (cwd p : string) : string := if IsAbs p then Clean p else JoinPath cwd p.

(** [filepath.Ext(p)]: from the last dot of the last part. *)
Fixpoint ext_from (s : string) (found : string) : string :=
  match s with
  | EmptyString => found
  | String c s' => ext_from s' (if Ascii.eqb c slash then "" else if Ascii.eqb c "." then s else found)
  end.
Definition Ext (p : string) : string := ext_from p "".

(** *** Cleaned paths *)

(** A part a cleaned rooted path can have. *)
Definition normal (c : string) : bool :=
  negb (String.eqb c "" || String.eqb c "." || String.eqb c ".." || has_byte slash c).

Definition abs_path (cs : list string) : string := String slash (path_of cs).

Lemma normal_parts cs : Forall (λ c, normal c = true) cs → Forall (λ c, has_byte slash c = false) cs.
Proof. apply Forall_impl. intros c Hc%negb_true_iff. apply orb_false_iff in Hc. tauto. Qed.

Lemma clean_step_normal rooted st c : normal c = true → clean_step rooted st c = c :: st.
Proof.
  intros Hc%negb_true_iff. rewrite !orb_false_iff in Hc. destruct Hc as [[[H1 H2] H3] _].
  unfold clean_step. by rewrite H1, H2, H3.
Qed.

Lemma foldl_normal rooted cs st : Forall (λ c, normal c = true) cs → foldl (clean_step rooted) st cs = reverse cs ++ st.
Proof.
  intros Hcs. revert st. induction Hcs as [|c cs Hc Hcs IH]; intros st; [done|]. cbn [foldl].
  rewrite clean_step_normal by done. by rewrite IH, reverse_cons, <- app_assoc.
Qed.

(** The parts of a rooted path stay normal. *)
Lemma rooted_step st c : has_byte slash c = false → Forall (λ c, normal c = true) st →
  Forall (λ c, normal c = true) (clean_step true st c).
Proof.
  intros Hs Hst. unfold clean_step. destruct (String.eqb c "" || String.eqb c ".") eqn:E1; [done|].
  destruct (String.eqb c "..") eqn:E2.
  - destruct st as [|x st]; [done|]. inversion Hst as [|? ? Hx Hst']; subst.
    destruct (String.eqb_spec x "..") as [->|]; [done|done].
  - constructor; [|done]. unfold normal. by rewrite E1, E2, Hs.
Qed.

Lemma rooted_foldl cs st : Forall (λ c, has_byte slash c = false) cs → Forall (λ c, normal c = true) st →
  Forall (λ c, normal c = true) (foldl (clean_step true) st cs).
Proof.
  intros Hcs. revert st. induction Hcs as [|c cs Hc Hcs IH]; intros st Hst; [done|]. cbn [foldl].
  apply IH. by apply rooted_step.
Qed.

Lemma clean_parts_normal cs : Forall (λ c, has_byte slash c = false) cs → Forall (λ c, normal c = true) (clean_parts true cs).
Proof. intros Hcs. unfold clean_parts. apply Forall_reverse. by apply rooted_foldl. Qed.

(** A part is skipped, goes up, or is pushed. *)
Definition skipped (c : string) : bool := String.eqb c "" || String.eqb c ".".
Definition pushed (c : string) : bool := negb (skipped c || String.eqb c "..").

Lemma clean_step_skip r st c : skipped c = true → clean_step r st c = st.
Proof. unfold clean_step, skipped. by intros ->. Qed.

Lemma clean_step_push r st c : pushed c = true → clean_step r st c = c :: st.
Proof. unfold clean_step, pushed, skipped. intros [-> ->]%negb_true_iff%orb_false_iff. done. Qed.

Lemma clean_step_up_down st c : pushed c = true → clean_step true (c :: st) ".." = st.
Proof. unfold pushed. intros [_ Hc]%negb_true_iff%orb_false_iff. unfold clean_step. simpl. by rewrite Hc. Qed.

Lemma part_cases c : skipped c = true ∨ c = ".." ∨ pushed c = true.
Proof.
  unfold pushed. destruct (skipped c); [by left|]. right. destruct (String.eqb_spec c ".."); [by left|by right].
Qed.

(** Cleaning a relative path first does not change where it leads. *)
Lemma clean_first cs st acc : Forall (λ c, c = ".." ∨ pushed c = true) acc →
  foldl (clean_step true) st (reverse (foldl (clean_step false) acc cs)) =
  foldl (clean_step true) (foldl (clean_step true) st (reverse acc)) cs.
Proof.
  revert acc. induction cs as [|c cs IH]; intros acc Hacc; [done|]. cbn [foldl].
  assert (∀ y, foldl (clean_step true) st (reverse (y :: acc)) = clean_step true (foldl (clean_step true) st (reverse acc)) y) as Hrev.
  { intros y. by rewrite reverse_cons, foldl_app. }
  destruct (part_cases c) as [Hc|[->|Hc]].
  - rewrite !clean_step_skip by done. by apply IH.
  - inversion Hacc as [|x acc' Hx Hacc']; subst.
    + cbn [clean_step]. rewrite IH by (repeat constructor; by left). done.
    + destruct Hx as [->|Hx].
      * change (clean_step false (".." :: acc') "..") with (".." :: ".." :: acc').
        rewrite IH by (constructor; [by left|done]). by rewrite Hrev.
      * assert (clean_step false (x :: acc') ".." = acc') as ->.
        { unfold pushed in Hx. apply negb_true_iff, orb_false_iff in Hx as [_ Hx]. unfold clean_step. simpl. by rewrite Hx. }
        rewrite IH by done. rewrite reverse_cons, foldl_app. cbn [foldl].
        by rewrite (clean_step_push true _ x), clean_step_up_down.
  - rewrite !clean_step_push by done. rewrite IH by (constructor; [by right|done]). by rewrite Hrev, clean_step_push.
Qed.

(** The path of a list of normal parts. *)
Lemma abs_path_split cs : cs ≠ [] → Forall (λ c, normal c = true) cs → Split slash (abs_path cs) = "" :: cs.
Proof.
  intros Hne Hcs. unfold abs_path. rewrite <- (str_app_nil_l (String slash (path_of cs))), Split_app.
  rewrite Split_Join; [done..|by apply normal_parts].
Qed.

Lemma abs_path_inj cs ds : Forall (λ c, normal c = true) cs → Forall (λ c, normal c = true) ds →
  abs_path cs = abs_path ds → cs = ds.
Proof.
  intros Hc Hd Heq. destruct cs as [|c cs], ds as [|d ds]; [done|..].
  - apply (f_equal (Split slash)) in Heq. rewrite (abs_path_split (d :: ds)) in Heq by done. injection Heq as <- _.
    by inversion Hd.
  - apply (f_equal (Split slash)) in Heq. rewrite (abs_path_split (c :: cs)) in Heq by done. injection Heq as -> _.
    by inversion Hc.
  - apply (f_equal (Split slash)) in Heq. rewrite !abs_path_split in Heq by done. by injection Heq as -> ->.
Qed.

(** Cleaning a path that starts with a cleaned one. *)
Lemma foldl_abs_path cs st : Forall (λ c, normal c = true) cs →
  foldl (clean_step true) st (Split slash (abs_path cs)) = reverse cs ++ st.
Proof.
  intros Hcs. destruct cs as [|c cs]; [done|]. rewrite abs_path_split by done. cbn [foldl].
  rewrite (clean_step_skip true st "") by done. by apply (foldl_normal true (c :: cs)).
Qed.

Lemma IsAbs_abs cs x : IsAbs (abs_path cs +:+ x) = true.
Proof. done. Qed.

Lemma Clean_abs_path cs : Forall (λ c, normal c = true) cs → Clean (abs_path cs) = abs_path cs.
Proof.
  intros Hcs. unfold Clean. change (IsAbs (abs_path cs)) with true. cbn [String.eqb abs_path].
  unfold clean_parts. fold (abs_path cs). rewrite foldl_abs_path by done. by rewrite app_nil_r, reverse_involutive.
Qed.

(** Joining a cleaned rooted path with [p] cleans [p] from there. *)
Lemma JoinPath_abs cs p : Forall (λ c, normal c = true) cs →
  JoinPath (abs_path cs) p = abs_path (reverse (foldl (clean_step true) (reverse cs) (Split slash p))).
Proof.
  intros Hcs. unfold JoinPath. rewrite !filter_cons, filter_nil. rewrite decide_True by done.
  destruct (decide (p ≠ "")) as [Hp|Hp].
  - cbn [Join]. unfold Clean. change (IsAbs (abs_path cs +:+ "/" +:+ p)) with true.
    change (abs_path cs +:+ "/" +:+ p) with (abs_path cs +:+ String slash p). rewrite Split_app.
    unfold clean_parts. rewrite foldl_app, foldl_abs_path, app_nil_r by done. by destruct (abs_path cs).
  - apply dec_stable in Hp as ->. cbn [Join Split foldl]. rewrite clean_step_skip by done.
    by rewrite reverse_involutive, Clean_abs_path.
Qed.

(** Where [p] leads from a rooted path. *)
Definition resolve (base : list string) (p : string) : list string :=
  reverse (foldl (clean_step true) (reverse base) (Split slash p)).

Lemma resolve_normal base p : Forall (λ c, normal c = true) base → Forall (λ c, normal c = true) (resolve base p).
Proof.
  intros Hb. unfold resolve. apply Forall_reverse, rooted_foldl; [apply Split_parts|by apply Forall_reverse].
Qed.

Lemma Abs_resolve cwd p : Forall (λ c, normal c = true) cwd →
  Abs (abs_path cwd) p = abs_path (resolve (if IsAbs p then [] else cwd) p).
Proof.
  intros Hc. unfold Abs. destruct (IsAbs p) eqn:E; [|by apply JoinPath_abs].
  unfold Clean. rewrite E. by destruct p.
Qed.

(** One rooted path is a string prefix of another, with a separator after it,
    exactly when its parts are a prefix. *)
Lemma abs_path_prefix base r : base ≠ [] → Forall (λ c, normal c = true) base → Forall (λ c, normal c = true) r →
  HasPrefix (abs_path r) (abs_path base +:+ "/") = true ↔ ∃ rest, rest ≠ [] ∧ r = base ++ rest.
Proof.
  intros Hne Hb Hr. rewrite HasPrefix_spec. split.
  - intros [x Hx]. rewrite str_app_assoc in Hx. change ("/" +:+ x) with (String slash x) in Hx.
    apply (f_equal (Split slash)) in Hx. rewrite Split_app, (abs_path_split base) in Hx by done.
    assert (r ≠ []) as Hrne.
    { intros ->. apply (f_equal length) in Hx. pose proof (Split_not_nil slash x). rewrite length_app in Hx.
      destruct base as [|b bs], (Split slash x); simpl in Hx; (done || lia). }
    rewrite abs_path_split in Hx by done. injection Hx as ->. exists (Split slash x). split; [apply Split_not_nil|done].
  - intros (rest & Hrest & ->). exists (path_of rest). unfold abs_path. rewrite str_app_assoc, str_app_cons. f_equal.
    clear Hb Hr. induction base as [|b base IH]; [done|]. destruct base as [|b' base].
    + by destruct rest.
    + change (path_of ((b :: b' :: base) ++ rest)) with (b +:+ "/" +:+ path_of ((b' :: base) ++ rest)).
      rewrite IH by done. change (path_of (b :: b' :: base)) with (b +:+ "/" +:+ path_of (b' :: base)).
      by rewrite !str_app_assoc.
Qed.

(** Appending to a path appends to its last part. *)
Lemma Split_append sep a s ps l x rest : Split sep a = ps ++ [l] → Split sep s = x :: rest →
  Split sep (a +:+ s) = ps ++ (l +:+ x) :: rest.
Proof.
  intros Ha Hs. revert ps l Ha. induction a as [|c a IH]; intros ps l Ha.
  - cbn [Split] in Ha. destruct ps as [|p ps]; [|by destruct ps]. injection Ha as <-. by rewrite str_app_nil_l.
  - rewrite str_app_cons. cbn [Split] in *. destruct (Ascii.eqb c sep).
    + destruct ps as [|p ps]; [injection Ha as _ Ha; by apply Split_not_nil in Ha|]. injection Ha as <- Ha.
      by rewrite (IH _ _ Ha).
    + destruct (Split sep a) as [|y ys] eqn:E; [by apply Split_not_nil in E|]. destruct ps as [|p ps].
      * injection Ha as <- ->. by rewrite (IH [] y eq_refl).
      * injection Ha as <- ->. by rewrite (IH (y :: ps) l eq_refl).
Qed.

(** A rooted path is a string prefix of another exactly when the other is the
    same up to its last part, of which the last part of the first is a prefix. *)
Lemma abs_path_string_prefix cs l r : Forall (λ c, normal c = true) (cs ++ [l]) → Forall (λ c, normal c = true) r →
  HasPrefix (abs_path r) (abs_path (cs ++ [l])) = true ↔ ∃ x rest, r = cs ++ (l +:+ x) :: rest.
Proof.
  intros Hb Hr. rewrite HasPrefix_spec. split.
  - intros [s Hs]. destruct (Split slash s) as [|x rest] eqn:Es; [by apply Split_not_nil in Es|].
    apply (f_equal (Split slash)) in Hs. rewrite (Split_append slash (abs_path (cs ++ [l])) s ("" :: cs) l x rest) in Hs;
      [|rewrite abs_path_split by (done || by destruct cs); done|done].
    destruct r as [|y r]; [|rewrite abs_path_split in Hs by done; injection Hs as Hs; eauto].
    cbn in Hs. injection Hs as Hs. destruct cs as [|c cs]; [|by injection Hs as <- Hs; inversion Hb].
    injection Hs as Hl _. apply Forall_app in Hb as [_ Hl']. inversion Hl' as [|? ? Hn _]; subst. by destruct l.
  - intros (x & rest & ->). clear Hb Hr.
    assert (∃ s, path_of (cs ++ (l +:+ x) :: rest) = path_of (cs ++ [l]) +:+ s) as [s Hs].
    { induction cs as [|c cs [s IH]].
      - exists (x +:+ match rest with [] => "" | _ => "/" +:+ path_of rest end). cbn [app].
        destruct rest; cbn [Join]; [by rewrite str_app_nil_r|by rewrite !str_app_assoc].
      - exists s. destruct (cs ++ [l]) as [|d ds] eqn:E1; [by destruct cs|].
        destruct (cs ++ (l +:+ x) :: rest) as [|e es] eqn:E2; [by destruct cs|].
        rewrite <- !app_comm_cons, E1, E2. change (path_of (c :: d :: ds)) with (c +:+ "/" +:+ path_of (d :: ds)).
        change (path_of (c :: e :: es)) with (c +:+ "/" +:+ path_of (e :: es)). by rewrite IH, !str_app_assoc. }
    exists s. unfold abs_path. by rewrite Hs.
Qed.
