(* ===== verification/FileStore.v ===== *)
(** * The local file store

    Models src/oss/filesystem.go: the paths a store accepts, and its operations
    over a file system of directories and files without symbolic links, whose
    operations fail only for the reasons the paths give.  Modification times
    and permissions are not modelled. *)

From stdpp Require Import base tactics option list gmap strings numbers sorting.
From Stdlib Require Import ZArith Ascii Lia.
From S2P Require Import Prelude Base64 GoStrings.

(** ** The file system (package os) *)

Inductive node := NDir | NFile (data : string).
#[global] Instance node_eq_dec : EqDecision node.
Proof. solve_decision. Defined.

(** Nodes by the parts of their rooted path; the root is [[]]. *)
Abbreviation fsys := (gmap (list string) node).

Inductive fs_error :=
| EEmptyPath | ENilReader | ENotExist | EStat | EIsDir | EMkdir | ECreate | ESeek | ECopy | ERemove.

(** The parts of a rooted path; [""] is no path at all. *)
Definition parts (path : string) : option (list string) :=
  if String.eqb path "" then None else Some (clean_parts true (Split slash path)).

Inductive stat_result := Found (n : node) | NotExist | StatError.

(** A file in the middle of a path is an error other than "does not exist". *)
Definition Stat_ (fs : fsys) (path : string) : stat_result :=
  match parts path with
  | None => NotExist
  | Some cs =>
      match fs !! cs with
      | Some n => Found n
      | None =>
          if existsb (λ k, match fs !! take k cs with Some (NFile _) => true | _ => false end) (seq 0 (length cs))
          then StatError else NotExist
      end
  end.

(** [os.MkdirAll]: every missing directory from the root on. *)
Definition mkdir_prefix (cs : list string) (o : option fsys) (k : nat) : option fsys :=
  match o with
  | Some fs =>
      match fs !! take k cs with
      | Some NDir => Some fs
      | Some (NFile _) => None
      | None => Some (<[take k cs := NDir]> fs)
      end
  | None => None
  end.

Definition MkdirAll (fs : fsys) (cs : list string) : option fsys :=
  foldl (mkdir_prefix cs) (Some fs) (seq 0 (S (length cs))).

(** The directory of a path: all parts but the last. *)
Definition parent (cs : list string) : list string := take (length cs - 1) cs.

(** [os.Create] and the write of all of [data]. *)
Definition Create (fs : fsys) (cs : list string) (data : string) : option fsys :=
  match fs !! parent cs, fs !! cs with
  | Some NDir, Some NDir => None
  | Some NDir, _ => Some (<[cs := NFile data]> fs)
  | _, _ => None
  end.

Definition below (cs ds : list string) : Prop := cs `prefix_of` ds ∧ cs ≠ ds.
#[global] Instance below_dec cs ds : Decision (below cs ds).
Proof. unfold below. apply _. Defined.

(** [os.Remove]: a file or an empty directory. *)
Definition Remove (fs : fsys) (cs : list string) : option fsys :=
  match fs !! cs with
  | Some (NFile _) => Some (delete cs fs)
  | Some NDir =>
      if bool_decide (cs = []) || existsb (λ kv, bool_decide (below cs kv.1)) (map_to_list fs) then None
      else Some (delete cs fs)
  | None => None
  end.

(** ** The store *)

(** [NewFileSystem]: the default folder, made absolute and created. *)
Definition NewFileSystem (cwd folder : string) (fs : fsys) : res fs_error string * fsys :=
  let abs := Abs cwd (if String.eqb folder "" then "./uploads" else folder) in
  match parts abs with
  | Some cs => match MkdirAll fs cs with Some fs' => (Ok abs, fs') | None => (Err EMkdir, fs) end
  | None => (Err EMkdir, fs)
  end.

(** The part of an object the store fills in from the path and the node. *)
Record Object := mkObject { o_Path : string; o_Name : string; o_Size : nat }.

(** A reader: its data, the position it is at, whether it is an [io.Seeker]
    and seeking works, and whether reading fails at the end. *)
Record Reader := mkReader { r_data : string; r_pos : nat; r_seek : option bool; r_fails : bool }.

Section Store.
Context (cwd Folder : string).

Definition GetFullPath (p : string) : string :=
  if String.eqb p "" then Folder
  else
    let p := TrimPrefix (Clean p) "/" in
    let fullPath := JoinPath Folder p in
    let absBase := Abs cwd Folder in
    let absPath := Abs cwd fullPath in
    if negb (HasPrefix absPath (absBase +:+ "/")) && negb (String.eqb absPath absBase) then "" else absPath.

(** [Get]: the file's contents stand for the open file. *)
Definition Get (p : string) (fs : fsys) : res fs_error string :=
  if String.eqb p "" then Err EEmptyPath
  else
    match Stat_ fs (GetFullPath p) with
    | NotExist => Err ENotExist
    | StatError => Err EStat
    | Found NDir => Err EIsDir
    | Found (NFile data) => Ok data
    end.

(** [filepath.Base]. *)
Definition Base (p : string) : string :=
  if String.eqb p "" then "."
  else match list.last (filter (λ c, c ≠ "") (Split slash p)) with Some c => c | None => "/" end.

Definition reader_rest (r : Reader) : string :=
  match r_seek r with Some _ => r_data r | None => str_drop (r_pos r) (r_data r) end.

(** [Put]; a failed copy removes the file, a failed seek leaves it empty. *)
Definition Put (p : string) (r : option Reader) (fs : fsys) : res fs_error Object * fsys :=
  if String.eqb p "" then (Err EEmptyPath, fs)
  else
    match r with
    | None => (Err ENilReader, fs)
    | Some r =>
        let fullPath := GetFullPath p in
        if HasSuffix p "/" || HasSuffix fullPath "/" then (Err EIsDir, fs)
        else
          match parts fullPath with
          | None => (Err ECreate, fs)
          | Some cs =>
              match MkdirAll fs (parent cs) with
              | None => (Err EMkdir, fs)
              | Some fs1 =>
                  match Stat_ fs1 fullPath with
                  | Found NDir => (Err EIsDir, fs1)
                  | _ =>
                      match Create fs1 cs "" with
                      | None => (Err ECreate, fs1)
                      | Some fs2 =>
                          match r_seek r with
                          | Some false => (Err ESeek, fs2)
                          | _ =>
                              if r_fails r then (Err ECopy, delete cs fs2)
                              else (Ok (mkObject p (Base p) (String.length (reader_rest r))), <[cs := NFile (reader_rest r)]> fs2)
                          end
                      end
                  end
              end
          end
    end.

Definition Delete (p : string) (fs : fsys) : res fs_error () * fsys :=
  if String.eqb p "" then (Err EEmptyPath, fs)
  else
    let fullPath := GetFullPath p in
    match Stat_ fs fullPath with
    | NotExist => (Ok (), fs)
    | StatError => (Err EStat, fs)
    | Found _ =>
        match parts fullPath with
        | Some cs => match Remove fs cs with Some fs' => (Ok (), fs') | None => (Err ERemove, fs) end
        | None => (Err ERemove, fs)
        end
    end.

Definition Exists_ (p : string) (fs : fsys) : res fs_error bool :=
  if String.eqb p "" then Err EEmptyPath
  else
    match Stat_ fs (GetFullPath p) with
    | NotExist => Ok false
    | StatError => Err EStat
    | Found NDir => Ok false
    | Found (NFile _) => Ok true
    end.

Definition Stat (p : string) (fs : fsys) : res fs_error Object :=
  if String.eqb p "" then Err EEmptyPath
  else
    match Stat_ fs (GetFullPath p), parts (GetFullPath p) with
    | Found (NFile data), Some cs => Ok (mkObject p (default "/" (list.last cs)) (String.length data))
    | Found NDir, _ => Err EIsDir
    | _, _ => Err EStat
    end.

(** [filepath.Walk] visits the nodes in the order of their parts. *)
Fixpoint parts_le (a b : list string) : bool :=
  match a, b with
  | [], _ => true
  | _ :: _, [] => false
  | x :: a', y :: b' => match String.compare x y with Lt => true | Eq => parts_le a' b' | Gt => false end
  end.
#[local] Instance parts_le_dec x y : Decision ((λ x y : list string * node, parts_le x.1 y.1 = true) x y) :=
  decide (parts_le x.1 y.1 = true).

Definition List_ (p : string) (fs : fsys) : res fs_error (list Object) :=
  let fullPath := GetFullPath p in
  match Stat_ fs fullPath, parts fullPath, parts Folder with
  | NotExist, _, _ => Ok []
  | StatError, _, _ => Err EStat
  | Found _, Some cs, Some base =>
      let nodes := merge_sort (λ x y, parts_le x.1 y.1 = true) (filter (λ kv, below cs kv.1) (map_to_list fs)) in
      Ok (omap (λ kv, match kv.2 with
        | NFile data => Some (mkObject (path_of (drop (length base) kv.1)) (default "/" (list.last kv.1)) (String.length data))
        | NDir => None
        end) nodes)
  | Found _, _, _ => Ok []
  end.

Definition GetURL (p : string) : res fs_error string := if String.eqb p "" then Err EEmptyPath else Ok p.

End Store.

(** ** Containment *)

(** Where a path leads: a rooted path from the folder as its root, a relative
    one from the folder. *)
Definition target (base : list string) (p : string) : list string :=
  if IsAbs p then base ++ resolve [] p else resolve base p.

(** The parts of a cleaned relative path. *)
Definition rel_part (c : string) : bool := negb (skipped c) && negb (has_byte slash c).

Lemma rel_step acc c : has_byte slash c = false → Forall (λ c, rel_part c = true) acc →
  Forall (λ c, rel_part c = true) (clean_step false acc c).
Proof.
  intros Hc Hacc. destruct (part_cases c) as [Hs|[->|Hs]].
  - by rewrite clean_step_skip.
  - destruct Hacc as [|x acc Hx Hacc]; [by repeat constructor|]. unfold clean_step. simpl.
    destruct (String.eqb x ".."); [by repeat constructor|done].
  - rewrite clean_step_push by done. constructor; [|done]. unfold rel_part, pushed in *. rewrite Hc.
    apply negb_true_iff, orb_false_iff in Hs as [-> _]. done.
Qed.

Lemma rel_foldl cs acc : Forall (λ c, has_byte slash c = false) cs → Forall (λ c, rel_part c = true) acc →
  Forall (λ c, rel_part c = true) (foldl (clean_step false) acc cs).
Proof.
  intros Hcs. revert acc. induction Hcs as [|c cs Hc Hcs IH]; intros acc Hacc; [done|]. cbn [foldl]. by apply IH, rel_step.
Qed.

Lemma trim_rel cs : cs ≠ [] → Forall (λ c, rel_part c = true) cs → TrimPrefix (path_of cs) "/" = path_of cs.
Proof.
  intros Hne Hcs. destruct Hcs as [|c cs Hc Hcs]; [done|]. unfold rel_part in Hc. apply andb_true_iff in Hc as [Hs Hb].
  destruct c as [|a c]; [done|]. simpl in Hb. apply negb_true_iff, orb_false_iff in Hb as [Ha _].
  unfold TrimPrefix. assert (∃ x, path_of (String a c :: cs) = String a x) as [x ->].
  { destruct cs; [by exists c|]. by exists (c +:+ "/" +:+ path_of (s :: cs)). }
  cbn [CutPrefix]. destruct (Ascii.eqb_spec "/" a) as [<-|]; [done|done].
Qed.

Lemma split_rel cs : cs ≠ [] → Forall (λ c, rel_part c = true) cs → Split slash (path_of cs) = cs.
Proof.
  intros Hne Hcs. apply Split_Join; [done|]. eapply Forall_impl; [done|]. intros c. simpl. unfold rel_part.
  intros [_ Hb]%andb_true_iff. by apply negb_true_iff.
Qed.

(** What [JoinPath] makes of the cleaned and trimmed path. *)
Lemma join_target base p : p ≠ "" → Forall (λ c, normal c = true) base →
  JoinPath (abs_path base) (TrimPrefix (Clean p) "/") = abs_path (target base p).
Proof.
  intros Hp Hb. rewrite JoinPath_abs by done. f_equal. unfold target, Clean.
  destruct (String.eqb_spec p ""); [done|]. destruct (IsAbs p) eqn:Ea.
  - change (TrimPrefix (String slash ?x) "/") with x. unfold resolve. rewrite reverse_nil. fold (clean_parts true (Split slash p)).
    pose proof (clean_parts_normal (Split slash p) (Split_parts slash p)) as Hn.
    destruct (clean_parts true (Split slash p)) as [|c cs] eqn:Ec.
    + cbn [Join Split foldl]. rewrite clean_step_skip by done. by rewrite reverse_involutive, app_nil_r.
    + rewrite Split_Join by (done || by apply normal_parts). rewrite foldl_normal by done.
      by rewrite reverse_app, !reverse_involutive.
  - unfold resolve. pose proof (clean_first (Split slash p) (reverse base) [] ltac:(constructor)) as Hf.
    rewrite reverse_nil in Hf. cbn [foldl] in Hf. fold (clean_parts false (Split slash p)) in Hf. rewrite <- Hf.
    assert (Forall (λ c, rel_part c = true) (clean_parts false (Split slash p))) as Hr.
    { apply Forall_reverse, rel_foldl; [apply Split_parts|constructor]. }
    destruct (clean_parts false (Split slash p)) as [|c cs]; [done|].
    by rewrite trim_rel, split_rel.
Qed.

Section Contained.
Context (wd : string) (base : list string).
Hypothesis Hbase : Forall (λ c, normal c = true) base.

Lemma target_normal p : Forall (λ c, normal c = true) (target base p).
Proof. unfold target. destruct (IsAbs p); [apply list.Forall_app; split; [done|]|]; by apply resolve_normal. Qed.

Lemma GetFullPath_target p : base ≠ [] → p ≠ "" →
  GetFullPath wd (abs_path base) p =
  if decide (base `prefix_of` target base p) then abs_path (target base p) else "".
Proof.
  intros Hne Hp. unfold GetFullPath. destruct (String.eqb_spec p ""); [done|]. rewrite join_target by done.
  unfold Abs. change (IsAbs (abs_path ?x)) with true. cbn iota.
  pose proof (target_normal p) as Ht. rewrite !Clean_abs_path by done.
  destruct (HasPrefix (abs_path (target base p)) (abs_path base +:+ "/")) eqn:Eh; cbn [negb andb].
  - apply abs_path_prefix in Eh as (rest & _ & Hr); [|done..]. rewrite decide_True; [done|]. by exists rest.
  - destruct (String.eqb_spec (abs_path (target base p)) (abs_path base)) as [Heq|Hneq]; cbn [negb].
    + apply abs_path_inj in Heq; [|done..]. rewrite Heq, decide_True; done.
    + rewrite decide_False; [done|]. intros [rest Hrest]. destruct rest as [|x rest].
      * rewrite app_nil_r in Hrest. by rewrite Hrest in Hneq.
      * assert (HasPrefix (abs_path (target base p)) (abs_path base +:+ "/") = true) as Hc; [|congruence].
        apply abs_path_prefix; [done..|]. by exists (x :: rest).
Qed.

Lemma parts_abs cs : Forall (λ c, normal c = true) cs → parts (abs_path cs) = Some cs.
Proof.
  intros Hcs. unfold parts. cbn [String.eqb abs_path]. fold (abs_path cs). unfold clean_parts.
  by rewrite foldl_abs_path, app_nil_r, reverse_involutive.
Qed.

(** The place in the file system an operation on [p] is about. *)
Lemma parts_full_path p : base ≠ [] → p ≠ "" →
  parts (GetFullPath wd (abs_path base) p) =
  if decide (base `prefix_of` target base p) then Some (target base p) else None.
Proof.
  intros Hne Hp. rewrite GetFullPath_target by done. case_decide; [|done]. by apply parts_abs, target_normal.
Qed.
End Contained.

(** ** What the operations change *)

Lemma mkdir_none cs ks : foldl (mkdir_prefix cs) None ks = None.
Proof. by induction ks. Qed.

Lemma mkdir_fold (fs fs' : fsys) cs ks : foldl (mkdir_prefix cs) (Some fs) ks = Some fs' →
  (∀ ds, fs' !! ds = fs !! ds ∨ (fs !! ds = None ∧ fs' !! ds = Some NDir ∧ ds `prefix_of` cs)) ∧
  ∀ k, k ∈ ks → fs' !! take k cs = Some NDir.
Proof.
  revert fs. induction ks as [|k ks IH]; intros fs; cbn [foldl].
  - intros [= <-]. split; [by left|]. intros k Hk. by apply not_elem_of_nil in Hk.
  - unfold mkdir_prefix at 2. destruct (fs !! take k cs) as [[|d]|] eqn:E; [|by rewrite mkdir_none|].
    + intros H. destruct (IH fs H) as [IH1 IH2]. split; [done|]. intros j [->|Hj]%elem_of_cons; [|by apply IH2].
      destruct (IH1 (take k cs)) as [->|(_ & H2 & _)]; done.
    + intros H. destruct (IH _ H) as [IH1 IH2]. split.
      * intros ds. destruct (decide (ds = take k cs)) as [->|Hne].
        -- right. split_and!; [done| |apply prefix_take]. destruct (IH1 (take k cs)) as [->|(_ & H2 & _)]; [by rewrite lookup_insert_eq|done].
        -- specialize (IH1 ds). by rewrite lookup_insert_ne in IH1 by done.
      * intros j [->|Hj]%elem_of_cons; [|by apply IH2].
        destruct (IH1 (take k cs)) as [->|(_ & H2 & _)]; [by rewrite lookup_insert_eq|done].
Qed.

(** [MkdirAll] adds the missing directories on the way and nothing else. *)
Lemma mkdir_spec fs cs fs' : MkdirAll fs cs = Some fs' →
  (∀ ds, fs' !! ds = fs !! ds ∨ (fs !! ds = None ∧ fs' !! ds = Some NDir ∧ ds `prefix_of` cs)) ∧ fs' !! cs = Some NDir.
Proof.
  intros [H1 H2]%mkdir_fold. split; [done|]. specialize (H2 (length cs)). rewrite take_ge in H2 by done.
  apply H2. apply elem_of_seq. lia.
Qed.

Lemma mkdir_succeeds fs cs : (∀ k d, k ≤ length cs → fs !! take k cs ≠ Some (NFile d)) → is_Some (MkdirAll fs cs).
Proof.
  intros Hk. unfold MkdirAll. assert (∀ k, k ∈ seq 0 (S (length cs)) → k ≤ length cs) as Hs by (intros k Hin%elem_of_seq; lia).
  revert Hs. generalize (seq 0 (S (length cs))) as ks. intros ks. revert fs Hk. induction ks as [|k ks IH]; intros fs Hk Hs; [by eexists|].
  cbn [foldl]. unfold mkdir_prefix at 2. assert (∀ j, j ∈ ks → j ≤ length cs) as Hs' by (intros j Hj; apply Hs; by right).
  destruct (fs !! take k cs) as [[|d]|] eqn:E; [by apply IH|exfalso; eapply Hk; [|done]; apply Hs; left|].
  apply IH; [|done]. intros j d Hj. destruct (decide (take j cs = take k cs)) as [->|Hne]; [by rewrite lookup_insert_eq|].
  rewrite lookup_insert_ne by done. by apply Hk.
Qed.

(** The files, as a map. *)
Definition files (fs : fsys) : gmap (list string) string := omap (λ n, match n with NFile d => Some d | NDir => None end) fs.

Lemma files_lookup fs cs d : files fs !! cs = Some d ↔ fs !! cs = Some (NFile d).
Proof.
  unfold files. rewrite lookup_omap. destruct (fs !! cs) as [[|d']|]; simpl; [done| |done]. split; by intros [= ->].
Qed.

Lemma files_insert fs cs d : files (<[cs := NFile d]> fs) = <[cs := d]> (files fs).
Proof. unfold files. by rewrite (omap_insert_Some _ fs cs (NFile d) d). Qed.

Lemma files_delete fs cs : files (delete cs fs) = delete cs (files fs).
Proof. apply omap_delete. Qed.

Lemma files_mkdir fs cs fs' : MkdirAll fs cs = Some fs' → files fs' = files fs.
Proof.
  intros [H _]%mkdir_spec. apply map_eq. intros ds. unfold files. rewrite !lookup_omap.
  destruct (H ds) as [->|(-> & -> & _)]; done.
Qed.

Lemma create_spec fs cs d fs' : Create fs cs d = Some fs' → fs' = <[cs := NFile d]> fs.
Proof. unfold Create. intros H. destruct (fs !! parent cs) as [[|]|]; [|done|done]. destruct (fs !! cs) as [[|]|]; by simplify_eq. Qed.

Lemma remove_spec fs cs fs' : Remove fs cs = Some fs' → fs' = delete cs fs.
Proof. unfold Remove. intros H. destruct (fs !! cs) as [[|]|]; [|by simplify_eq|done]. case_match; by simplify_eq. Qed.

(** The last part of a cleaned path has no separator at its end. *)
Lemma no_slash_suffix cs : cs ≠ [] → Forall (λ c, normal c = true) cs → HasSuffix (abs_path cs) "/" = false.
Proof.
  intros Hne Hcs. destruct (HasSuffix (abs_path cs) "/") eqn:E; [|done]. apply HasSuffix_spec in E as [r Hr].
  apply (f_equal (Split slash)) in Hr. change (r +:+ "/") with (r +:+ String slash "") in Hr.
  rewrite abs_path_split, Split_app in Hr by done. destruct cs as [|c cs] using rev_ind; [done|]. clear IHcs.
  change ("" :: cs ++ [c]) with (("" :: cs) ++ [c]) in Hr. apply app_inj_tail in Hr as [_ ->].
  apply list.Forall_app in Hcs as [_ Hc]. by inversion Hc.
Qed.

Lemma parent_prefix cs : parent cs `prefix_of` cs.
Proof. apply prefix_take. Qed.

Section Operations.
Context (wd : string) (base : list string).
Hypothesis Hbase : Forall (λ c, normal c = true) base.
Hypothesis Hroot : base ≠ [].

Abbreviation folder := (abs_path base).
Abbreviation inside p := (base `prefix_of` target base p).

(** [Put] and the file map. *)
Lemma put_cases p r fs :
  let '(out, fs') := Put wd folder p r fs in
  (∀ ds, ds ≠ target base p ∨ ¬ inside p → fs' !! ds = fs !! ds ∨ (inside p ∧ fs !! ds = None ∧ fs' !! ds = Some NDir ∧ ds `prefix_of` target base p)) ∧
  match out with
  | Ok o => ∃ rd, r = Some rd ∧ inside p ∧ p ≠ "" ∧ o_Size o = String.length (reader_rest rd) ∧ fs' !! target base p = Some (NFile (reader_rest rd))
  | Err ESeek => inside p ∧ fs' !! target base p = Some (NFile "")
  | Err ECopy => inside p ∧ fs' !! target base p = None
  | _ => files fs' = files fs
  end.
Proof.
  unfold Put. destruct (String.eqb_spec p ""); [split; [by left|done]|]. destruct r as [r|]; [|split; [by left|done]].
  destruct (HasSuffix p "/" || HasSuffix (GetFullPath wd folder p) "/"); [split; [by left|done]|].
  rewrite parts_full_path by done. case_decide as Hin; [|split; [by left|done]].
  destruct (MkdirAll fs (parent (target base p))) as [fs1|] eqn:E1; [|split; [by left|done]].
  pose proof (files_mkdir _ _ _ E1) as Hf1. apply mkdir_spec in E1 as [E1 _].
  assert (∀ ds, fs1 !! ds = fs !! ds ∨ inside p ∧ fs !! ds = None ∧ fs1 !! ds = Some NDir ∧ ds `prefix_of` target base p) as E1'.
  { intros ds. destruct (E1 ds) as [->|(? & ? & ?)]; [by left|right]. split_and!; [done..|]. etrans; [done|apply parent_prefix]. }
  assert (∀ (fs2 : fsys), (∀ ds, ds ≠ target base p → fs2 !! ds = fs1 !! ds) →
    ∀ ds, ds ≠ target base p ∨ ¬ inside p → fs2 !! ds = fs !! ds ∨ inside p ∧ fs !! ds = None ∧ fs2 !! ds = Some NDir ∧ ds `prefix_of` target base p) as Hout.
  { intros fs2 H2 ds [Hds|]; [|done]. rewrite (H2 ds Hds). apply E1'. }
  destruct (Stat_ fs1 (GetFullPath wd folder p)) as [[|]| |] eqn:Es; [split; [intros; apply E1'|done]|..].
  all: destruct (Create fs1 (target base p) "") as [fs2|] eqn:E2; [|split; [intros; apply E1'|done]].
  all: apply create_spec in E2 as ->; destruct (r_seek r) as [[|]|].
  all: try destruct (r_fails r).
  all: (split; [apply Hout; intros ds Hds; rewrite ?lookup_insert_ne, ?lookup_delete_ne, ?lookup_insert_ne by done; done|]).
  all: try (split; [done|]; first [by rewrite lookup_insert_eq|by rewrite lookup_delete_eq]).
  all: exists r; (split_and!; [done..|by rewrite lookup_insert_eq]).
Qed.

Lemma delete_cases p fs : p ≠ "" →
  let '(out, fs') := Delete wd folder p fs in
  match out with
  | Ok _ => fs' = fs ∧ (inside p → fs !! target base p = None) ∨ inside p ∧ fs' = delete (target base p) fs
  | _ => fs' = fs
  end.
Proof.
  intros Hp. unfold Delete. destruct (String.eqb_spec p ""); [done|]. unfold Stat_. rewrite parts_full_path by done.
  case_decide as Hin; [|by left]. destruct (fs !! target base p) as [n0|] eqn:E.
  - destruct (Remove fs (target base p)) as [fs'|] eqn:Er; [|done]. apply remove_spec in Er as ->. by right.
  - destruct (existsb _ _); [done|by left].
Qed.

Lemma put_outside p r fs ds : (∀ k, k < length base → fs !! take k base = Some NDir) → ¬ base `prefix_of` ds →
  (Put wd folder p r fs).2 !! ds = fs !! ds.
Proof.
  intros Hd Hds. pose proof (put_cases p r fs) as Hc. destruct (Put wd folder p r fs) as [out fs']. destruct Hc as [Hc _]. simpl.
  destruct (decide (inside p)) as [Hin|Hin]; [|destruct (Hc ds) as [|(? & _)]; [by right|done..]].
  destruct (Hc ds) as [|(_ & Hn & _ & Hpre)]; [left; by intros ->|done|]. exfalso.
  assert (ds `prefix_of` base) as Hp.
  { destruct (prefix_weak_total ds base (target base p)) as [|]; done. }
  destruct Hp as [x ->]. destruct x as [|c x]; [by rewrite app_nil_r in Hds|].
  specialize (Hd (length ds)). rewrite length_app in Hd. rewrite take_app_length in Hd. rewrite Hd in Hn by (simpl; lia). done.
Qed.

Lemma delete_outside p fs ds : ¬ base `prefix_of` ds → (Delete wd folder p fs).2 !! ds = fs !! ds.
Proof.
  intros Hds. destruct (decide (p = "")) as [->|Hp]; [done|]. pose proof (delete_cases p fs Hp) as Hc.
  destruct (Delete wd folder p fs) as [[u|e| |] fs']; [|by simpl; subst..].
  destruct Hc as [[-> _]|[Hin ->]]; [done|]. simpl. apply lookup_delete_ne. by intros <-.
Qed.
End Operations.

(** ** Properties *)

Inductive file_op := FPut (p : string) (r : option Reader) | FDelete (p : string).

Definition file_step (cwd folder : string) (fs : fsys) (o : file_op) : fsys :=
  match o with
  | FPut p r => (Put cwd folder p r fs).2
  | FDelete p => (Delete cwd folder p fs).2
  end.

Section Theorems.
Context (wd : string) (base : list string).

(** No path leads out of the store.  For a store in an absolute folder
    other than the root, [GetFullPath] of any path is where the path leads,
    read textually — from the folder as its root when it begins with a slash,
    from the folder otherwise — if that is the folder or below it, and the empty
    string, which names nothing, if it is not. *)
Theorem full_path_contained (p : string) :
  Forall (λ c, normal c = true) base → base ≠ [] → p ≠ "" →
  let r := if IsAbs p then base ++ resolve [] p else resolve base p in
  GetFullPath wd (abs_path base) p = if decide (base `prefix_of` r) then abs_path r else "".
Proof. intros Hb Hne Hp r. by apply GetFullPath_target. Qed.

(** C18: The store changes nothing outside its folder.  Whatever sequence of
    [Put] and [Delete] it is given, with any paths and readers, every file and
    directory of the file system that is not the folder or below it stays as it
    was, if the directories above the folder exist. *)
Theorem store_confined (ops : list file_op) (fs : fsys) (ds : list string) :
  Forall (λ c, normal c = true) base → base ≠ [] →
  (∀ k, k < length base → fs !! take k base = Some NDir) → ¬ base `prefix_of` ds →
  foldl (file_step wd (abs_path base)) fs ops !! ds = fs !! ds.
Proof.
  intros Hb Hne Hd Hds.
  assert (∀ o fs, (∀ k, k < length base → fs !! take k base = Some NDir) → ∀ ds, ¬ base `prefix_of` ds →
    file_step wd (abs_path base) fs o !! ds = fs !! ds) as Hstep.
  { intros [p r|p] fs0 Hd0 ds0 Hds0; [by apply put_outside|by apply delete_outside]. }
  revert fs Hd. induction ops as [|o ops IH]; intros fs Hd; [done|]. cbn [foldl]. rewrite IH; [by apply Hstep|].
  intros k Hk. rewrite Hstep; [by apply Hd|done|]. intros Hpre%prefix_length. rewrite length_take in Hpre. lia.
Qed.

(** The store is a map from places to contents.  For any path, with the
    place it leads to: a [Put] that succeeds stores exactly what the reader
    gives (all of it when it can seek, the rest otherwise), reports its size,
    and changes no other file; one whose seek fails leaves the file empty, and
    one whose read fails removes it, also when it existed before; any other
    failure changes no file.  A [Delete] that succeeds removes at most that
    file, and nothing when the path leads outside; one that fails changes
    nothing.  [Get] returns exactly what is stored there. *)
Theorem store_file_map (p : string) (r : option Reader) (fs : fsys) :
  Forall (λ c, normal c = true) base → base ≠ [] → p ≠ "" →
  let place := target base p in
  match Put wd (abs_path base) p r fs with
  | (Ok o, fs') => ∃ rd, r = Some rd ∧ base `prefix_of` place ∧ o_Size o = String.length (reader_rest rd) ∧
      files fs' = <[place := reader_rest rd]> (files fs)
  | (Err ESeek, fs') => files fs' = <[place := ""]> (files fs)
  | (Err ECopy, fs') => files fs' = delete place (files fs)
  | (_, fs') => files fs' = files fs
  end ∧
  match Delete wd (abs_path base) p fs with
  | (Ok _, fs') => files fs' = if decide (base `prefix_of` place) then delete place (files fs) else files fs
  | (_, fs') => fs' = fs
  end ∧
  ∀ d, Get wd (abs_path base) p fs = Ok d ↔ base `prefix_of` place ∧ files fs !! place = Some d.
Proof.
  intros Hb Hne Hp place. split_and!.
  - pose proof (put_cases wd base Hb Hne p r fs) as Hput. destruct (Put _ _ p r fs) as [out fs'].
    destruct Hput as [Hout Hput]. fold place in Hout, Hput.
    assert (∀ ds, ds ≠ place → files fs' !! ds = files fs !! ds) as Hother.
    { intros ds Hds. unfold files. rewrite !lookup_omap. destruct (Hout ds) as [->|(_ & -> & -> & _)]; [by left|done..]. }
    destruct out as [o|[]| |]; try done.
    + destruct Hput as (rd & -> & Hin & _ & Hsz & Hat). exists rd. split_and!; [done..|]. apply map_eq. intros ds.
      destruct (decide (ds = place)) as [->|Hds]; [|by rewrite lookup_insert_ne, Hother].
      rewrite lookup_insert_eq. by apply files_lookup.
    + destruct Hput as [_ Hat]. apply map_eq. intros ds.
      destruct (decide (ds = place)) as [->|Hds]; [|by rewrite lookup_insert_ne, Hother].
      rewrite lookup_insert_eq. by apply files_lookup.
    + destruct Hput as [_ Hat]. apply map_eq. intros ds.
      destruct (decide (ds = place)) as [->|Hds]; [|by rewrite lookup_delete_ne, Hother].
      rewrite lookup_delete_eq. unfold files. by rewrite lookup_omap, Hat.
  - pose proof (delete_cases wd base Hb Hne p fs Hp) as Hdel. fold place in Hdel.
    destruct (Delete _ _ p fs) as [[u|e| |] fs']; [|done..]. case_decide as Hin.
    + destruct Hdel as [[-> Hn]|[_ ->]]; [|apply files_delete]. rewrite delete_id; [done|].
      unfold files. by rewrite lookup_omap, Hn.
    + by destruct Hdel as [[-> _]|[? _]].
  - intros d. rewrite files_lookup. unfold Get. destruct (String.eqb_spec p ""); [done|]. unfold Stat_.
    rewrite parts_full_path by done. fold place. case_decide as Hin; [|split; [done|by intros [? _]]].
    destruct (fs !! place) as [[|d']|]; [split; [done|by intros [_ ?]]|split; [by intros [= ->]|by intros [_ [= ->]]]|].
    destruct (existsb _ _); split; (done || by intros [_ ?]).
Qed.

(** When a [Put] succeeds.  A path without a slash at its end that leads
    into the store, to a place that is not a directory and below no file, and a
    reader that neither fails nor refuses to seek: the file is stored, and a
    [Get] of any path that leads to the same place returns it. *)
Theorem put_succeeds (p q : string) (r : Reader) (fs : fsys) :
  Forall (λ c, normal c = true) base → base ≠ [] →
  p ≠ "" → q ≠ "" → base `prefix_of` target base p → target base q = target base p → HasSuffix p "/" = false →
  fs !! target base p ≠ Some NDir → (∀ k d, k < length (target base p) → fs !! take k (target base p) ≠ Some (NFile d)) →
  r_seek r ≠ Some false → r_fails r = false →
  ∃ o fs', Put wd (abs_path base) p (Some r) fs = (Ok o, fs') ∧ o_Path o = p ∧
    Get wd (abs_path base) q fs' = Ok (reader_rest r).
Proof.
  intros Hb Hne Hp Hq Hin Hpq Hs Hnd Hnf Hseek Hfail. set (place := target base p) in *.
  pose proof (target_normal base Hb p) as Hpl. fold place in Hpl.
  assert (place ≠ []) as Hplne by (intros E; rewrite E in Hin; by apply prefix_nil_inv in Hin).
  assert (1 ≤ length place) as Hlen by (destruct place; [done|simpl; lia]).
  assert (length (parent place) < length place) as Hpar by (unfold parent; rewrite length_take; lia).
  destruct (mkdir_succeeds fs (parent place)) as [fs1 E1].
  { intros k d Hk. unfold parent. rewrite take_take, Nat.min_l by lia. apply Hnf. lia. }
  pose proof (mkdir_spec _ _ _ E1) as [H1 H2].
  assert (fs1 !! place = fs !! place) as H1p.
  { destruct (H1 place) as [|(_ & _ & Hpre%prefix_length)]; [done|lia]. }
  assert (∃ o, Put wd (abs_path base) p (Some r) fs = (Ok o, <[place := NFile (reader_rest r)]> (<[place := NFile ""]> fs1)) ∧ o_Path o = p)
    as (o & HP & Ho).
  { eexists. unfold Put. destruct (String.eqb_spec p ""); [done|].
    rewrite parts_full_path by done. rewrite GetFullPath_target by done. fold place. rewrite !decide_True by done.
    rewrite Hs, no_slash_suffix by done. cbn [orb]. rewrite E1.
    assert (Stat_ fs1 (abs_path place) ≠ Found NDir) as Hst.
    { unfold Stat_. rewrite parts_abs by done. rewrite H1p. destruct (fs !! place) as [[|d]|]; [done|done|]. by destruct (existsb _ _). }
    assert (Create fs1 place "" = Some (<[place := NFile ""]> fs1)) as ->.
    { unfold Create. rewrite H2, H1p. by destruct (fs !! place) as [[|d]|]. }
    destruct (Stat_ fs1 (abs_path place)) as [[|]| |]; [done|..]; rewrite Hfail; destruct (r_seek r) as [[|]|]; done. }
  eexists _, _. split; [exact HP|]. split; [done|]. unfold Get. destruct (String.eqb_spec q ""); [done|].
  unfold Stat_. rewrite parts_full_path by done. rewrite Hpq. fold place. rewrite decide_True by done.
  by rewrite lookup_insert_eq.
Qed.

End Theorems.

(** ** At concrete inputs *)

Definition demo_fs : fsys :=
  list_to_map [([], NDir); (["srv"], NDir); (["srv"; "up"], NDir); (["srv"; "secret"], NFile "key")].
Definition demo_reader : Reader := mkReader "hello" 2 None false.

(** Up and down again, and out. *)
Lemma full_path_contained_witness :
  GetFullPath "/tmp" "/srv/up" "../up/./a//b" = "/srv/up/a/b" ∧ GetFullPath "/tmp" "/srv/up" "a/../../secret" = "".
Proof.
  split.
  - transitivity (if decide (["srv"; "up"] `prefix_of` resolve ["srv"; "up"] "../up/./a//b")
      then abs_path (resolve ["srv"; "up"] "../up/./a//b") else ""); [|vm_compute; reflexivity].
    apply (full_path_contained "/tmp" ["srv"; "up"] "../up/./a//b"); [repeat constructor|done|done].
  - transitivity (if decide (["srv"; "up"] `prefix_of` resolve ["srv"; "up"] "a/../../secret")
      then abs_path (resolve ["srv"; "up"] "a/../../secret") else ""); [|vm_compute; reflexivity].
    apply (full_path_contained "/tmp" ["srv"; "up"] "a/../../secret"); [repeat constructor|done|done].
Defined.

Lemma store_confined_witness :
  foldl (file_step "/tmp" "/srv/up") demo_fs
    [FPut "a/b" (Some demo_reader); FDelete "../secret"; FPut "../secret" (Some demo_reader); FDelete "/../secret"] !!
    ["srv"; "secret"] = Some (NFile "key").
Proof.
  transitivity (demo_fs !! ["srv"; "secret"]); [|vm_compute; reflexivity].
  apply (store_confined "/tmp" ["srv"; "up"]); [repeat constructor|done| |].
  - intros [|[|k]] Hk; [vm_compute; reflexivity|vm_compute; reflexivity|simpl in Hk; lia].
  - intros [x Hx]. discriminate Hx.
Defined.

Lemma store_file_map_witness :
  target ["srv"; "up"] "/srv" = ["srv"; "up"; "srv"] ∧
  ∀ d, Get "/tmp" "/srv/up" "/srv" demo_fs = Ok d ↔
    ["srv"; "up"] `prefix_of` target ["srv"; "up"] "/srv" ∧ files demo_fs !! target ["srv"; "up"] "/srv" = Some d.
Proof.
  split; [reflexivity|]. refine (proj2 (proj2 (store_file_map "/tmp" ["srv"; "up"] "/srv" None demo_fs _ _ _))); [repeat constructor|done|done].
Defined.

Lemma put_succeeds_witness :
  ∃ o fs', Put "/tmp" "/srv/up" "a/b" (Some demo_reader) demo_fs = (Ok o, fs') ∧ o_Path o = "a/b" ∧
    Get "/tmp" "/srv/up" "/x/../a/./b" fs' = Ok "llo".
Proof.
  apply (put_succeeds "/tmp" ["srv"; "up"] "a/b" "/x/../a/./b" demo_reader demo_fs);
    [repeat constructor|done|done|done| |vm_compute; reflexivity|reflexivity|vm_compute; discriminate| |done|done].
  - exists ["a"; "b"]. vm_compute. reflexivity.
  - intros [|[|[|[|k]]]] d Hk; vm_compute; try discriminate. vm_compute in Hk. lia.
Defined.

(** An empty store can be made to delete its own folder, and a file takes its
    place. *)
Example delete_removes_folder :
  (Delete "/tmp" "/srv/up" "." demo_fs).1 = Ok () ∧
  (Delete "/tmp" "/srv/up" "." demo_fs).2 !! ["srv"; "up"] = None ∧
  let fs := (Put "/tmp" "/srv/up" "." (Some demo_reader) (Delete "/tmp" "/srv/up" "." demo_fs).2).2 in
  fs !! ["srv"; "up"] = Some (NFile "llo").
Proof. vm_compute. split_and!; reflexivity. Qed.

(** A store in the root of the file system accepts nothing but the root. *)
Example root_store_rejects : GetFullPath "/tmp" "/" "a" = "".
Proof. reflexivity. Qed.
