(* ===== verification/Dispatcher.v ===== *)
(** * The event dispatcher

    Models src/extension/event/dispatcher.go as a machine: the table of
    subscribers, the counters, the publishers between two of their atomic
    operations and the goroutines that run the handlers.  A handler is a number,
    what it does is the outcome of its event.  [owed] and [ran] record, for the
    theorems, the deliveries publishers took on and those made. *)

From stdpp Require Import base tactics option list gmap strings numbers sorting.
From Stdlib Require Import ZArith Lia.
From S2P Require Import Prelude Float64 MetricsStore.

(** ** Data *)

(** What a handler gets; the payload is a number. *)
Record EventData := mkEvent { ev_Time : Z; EventType : string; Data : nat }.

(** A publisher: before [Publish] reads the table; about to count, to store the
    time, to record it; starting a goroutine for each remaining handler. *)
Inductive publisher :=
| PRead (name : string) (d : nat)
| PCount (hs : list nat) (name : string) (d : nat)
| PTime (hs : list nat) (name : string) (d : nat)
| PRecord (hs : list nat) (e : EventData)
| PSpawn (hs : list nat) (e : EventData).

(** A handler goroutine: not begun; counted as active; its outcome counted. *)
Inductive delivery := DSpawned (h : nat) (e : EventData) | DRunning (h : nat) (e : EventData) | DCounted.

Record Dispatcher := mkDisp {
  subscribers : gmap string (list nat);
  published : Z; delivered : Z; failed : Z; retries : Z; activeHandlers : Z; totalSubscribers : Z;
  lastEventTime : Z; recentEvents : list Z;
  publishers : list (option publisher); deliveries : list (option delivery);
  owed : list (nat * string * nat); ran : list (nat * string * nat); refused : Z }.

Definition NewEventDispatcher : Dispatcher := mkDisp ∅ 0 0 0 0 0 0 zero_time [] [] [] [] [] 0.

Definition set_pubs (ps : list (option publisher)) (d : Dispatcher) : Dispatcher :=
  mkDisp (subscribers d) (published d) (delivered d) (failed d) (retries d) (activeHandlers d) (totalSubscribers d)
    (lastEventTime d) (recentEvents d) ps (deliveries d) (owed d) (ran d) (refused d).
Definition set_dels (ds : list (option delivery)) (d : Dispatcher) : Dispatcher :=
  mkDisp (subscribers d) (published d) (delivered d) (failed d) (retries d) (activeHandlers d) (totalSubscribers d)
    (lastEventTime d) (recentEvents d) (publishers d) ds (owed d) (ran d) (refused d).
Definition set_counts (p de f : Z) (d : Dispatcher) : Dispatcher :=
  mkDisp (subscribers d) p de f (retries d) (activeHandlers d) (totalSubscribers d)
    (lastEventTime d) (recentEvents d) (publishers d) (deliveries d) (owed d) (ran d) (refused d).
Definition set_active (a : Z) (d : Dispatcher) : Dispatcher :=
  mkDisp (subscribers d) (published d) (delivered d) (failed d) (retries d) a (totalSubscribers d)
    (lastEventTime d) (recentEvents d) (publishers d) (deliveries d) (owed d) (ran d) (refused d).
Definition set_subs (s : gmap string (list nat)) (n : Z) (d : Dispatcher) : Dispatcher :=
  mkDisp s (published d) (delivered d) (failed d) (retries d) (activeHandlers d) n
    (lastEventTime d) (recentEvents d) (publishers d) (deliveries d) (owed d) (ran d) (refused d).
Definition set_times (last : Z) (recent : list Z) (d : Dispatcher) : Dispatcher :=
  mkDisp (subscribers d) (published d) (delivered d) (failed d) (retries d) (activeHandlers d) (totalSubscribers d)
    last recent (publishers d) (deliveries d) (owed d) (ran d) (refused d).
Definition set_ghost (o r : list (nat * string * nat)) (f : Z) (d : Dispatcher) : Dispatcher :=
  mkDisp (subscribers d) (published d) (delivered d) (failed d) (retries d) (activeHandlers d) (totalSubscribers d)
    (lastEventTime d) (recentEvents d) (publishers d) (deliveries d) o r f.

(** ** Operations *)

Definition Subscribe (name : string) (handler : option nat) (d : Dispatcher) : Dispatcher :=
  match handler with
  | None => d
  | Some h => set_subs (<[name := default [] (subscribers d !! name) ++ [h]]> (subscribers d)) (wrap32 (totalSubscribers d + 1)) d
  end.

Definition handlers_of (name : string) (d : Dispatcher) : list nat := default [] (subscribers d !! name).

(** [Publish] reads the handlers; without any it returns. *)
Definition Publish_read (name : string) (data : nat) (d : Dispatcher) : option publisher * Dispatcher :=
  match handlers_of name d with
  | [] => (None, d)
  | hs => (Some (PCount hs name data), set_ghost (owed d ++ ((λ h, (h, name, data)) <$> hs)) (ran d) (refused d) d)
  end.

(** [PublishWithRetry] up to its first call of [Publish], which ends the loop. *)
Definition PublishWithRetry (name : string) (data : nat) (maxRetries : Z) (d : Dispatcher) : option publisher * Dispatcher :=
  match handlers_of name d with
  | [] => (None, set_ghost (owed d) (ran d) (refused d + 1) (set_counts (published d) (delivered d) (wrap64 (failed d + 1)) d))
  | hs =>
      if (0 <=? maxRetries)%Z then (Some (PRead name data), d)
      else
        let n := Z.of_nat (length hs) in
        (None, set_ghost (owed d) (ran d) (refused d + n) (set_counts (published d) (delivered d) (wrap64 (failed d + n)) d))
  end.

(** The index of the first recorded time after the cut-off, 0 when none is. *)
Fixpoint first_after (cutoff : Z) (ts : list Z) (i : nat) : nat :=
  match ts with [] => 0 | t :: ts' => if (cutoff <? t)%Z then i else first_after cutoff ts' (S i) end.

Definition recordRecentEvent (eventTime : Z) (recent : list Z) : list Z :=
  let recent := recent ++ [eventTime] in
  let recent := drop (first_after (eventTime - 60 * second) recent 0) recent in
  if 1000 <? length recent then take 1000 (drop (length recent - 1000) recent) else recent.

(** One step of a publisher. *)
Definition publisher_step (p : publisher) (now : Z) (d : Dispatcher) : option publisher * Dispatcher :=
  match p with
  | PRead name data => Publish_read name data d
  | PCount hs name data =>
      (Some (PTime hs name data), set_counts (wrap64 (published d + Z.of_nat (length hs))) (delivered d) (failed d) d)
  | PTime hs name data => (Some (PRecord hs (mkEvent now name data)), set_times now (recentEvents d) d)
  | PRecord hs e => (Some (PSpawn hs e), set_times (lastEventTime d) (recordRecentEvent (ev_Time e) (recentEvents d)) d)
  | PSpawn [] e => (None, d)
  | PSpawn (h :: hs) e => (Some (PSpawn hs e), set_dels (deliveries d ++ [Some (DSpawned h e)]) d)
  end.

(** One step of a handler goroutine of [wrapHandler]; [ok]: the handler
    returns, otherwise it panics and the panic is recovered. *)
Definition delivery_step (g : delivery) (ok : bool) (d : Dispatcher) : option delivery * Dispatcher :=
  match g with
  | DSpawned h e => (Some (DRunning h e), set_active (wrap32 (activeHandlers d + 1)) d)
  | DRunning h e =>
      (Some DCounted,
       set_ghost (owed d) (ran d ++ [(h, EventType e, Data e)]) (refused d)
         (if ok then set_counts (published d) (wrap64 (delivered d + 1)) (failed d) d
          else set_counts (published d) (delivered d) (wrap64 (failed d + 1)) d))
  | DCounted => (None, set_active (wrap32 (activeHandlers d - 1)) d)
  end.

Inductive event :=
| ESubscribe (name : string) (h : option nat) | EPublish (name : string) (d : nat)
| EPublishRetry (name : string) (d : nat) (maxRetries : Z)
| EPublisher (i : nat) (now : Z) | EDelivery (i : nat) (ok : bool).

Definition step (e : event) (d : Dispatcher) : option Dispatcher :=
  match e with
  | ESubscribe name h => Some (Subscribe name h d)
  | EPublish name data => Some (set_pubs (publishers d ++ [Some (PRead name data)]) d)
  | EPublishRetry name data n =>
      let (p, d') := PublishWithRetry name data n d in Some (set_pubs (publishers d' ++ [p]) d')
  | EPublisher i now =>
      match publishers d !! i with
      | Some (Some p) => let (p', d') := publisher_step p now d in Some (set_pubs (<[i := p']> (publishers d')) d')
      | _ => None
      end
  | EDelivery i ok =>
      match deliveries d !! i with
      | Some (Some g) => let (g', d') := delivery_step g ok d in Some (set_dels (<[i := g']> (deliveries d')) d')
      | _ => None
      end
  end.

#[global] Instance dispatcher_machine : Machine event Dispatcher := step.

(** ** Rates *)

Definition count_after (cutoff : Z) (ts : list Z) : nat := count (λ t, (cutoff <? t)%Z) ts.

Definition calculateEventsPerSecond (now : Z) (d : Dispatcher) : float64 :=
  f_div (f_of_Z (Z.of_nat (count_after (now - 10 * second) (recentEvents d)))) (f_of_Z 10).
Definition calculateEventsPerMinute (now : Z) (d : Dispatcher) : float64 :=
  f_of_Z (Z.of_nat (count_after (now - 60 * second) (recentEvents d))).

(** ** Accounting *)

(** The deliveries a publisher has taken on and not started, those it has
    counted, and the delivery a goroutine has still to make. *)
Definition pub_owes (p : option publisher) : list (nat * string * nat) :=
  match p with
  | Some (PCount hs name data | PTime hs name data) => (λ h, (h, name, data)) <$> hs
  | Some (PRecord hs e | PSpawn hs e) => (λ h, (h, EventType e, Data e)) <$> hs
  | _ => []
  end.
Definition pub_counted (p : option publisher) : bool := match p with Some (PTime _ _ _ | PRecord _ _ | PSpawn _ _) => true | _ => false end.
Definition del_owes (g : option delivery) : list (nat * string * nat) :=
  match g with Some (DSpawned h e | DRunning h e) => [(h, EventType e, Data e)] | _ => [] end.
Definition del_active (g : option delivery) : bool := match g with Some (DRunning _ _ | DCounted) => true | _ => false end.

Definition in_flight (d : Dispatcher) : list (nat * string * nat) :=
  concat (pub_owes <$> publishers d) ++ concat (del_owes <$> deliveries d).

(** Handlers taken on by publishers that have not counted them yet. *)
Definition not_counted (p : option publisher) : list (nat * string * nat) := if pub_counted p then [] else pub_owes p.
Definition uncounted (d : Dispatcher) : list (nat * string * nat) := concat (not_counted <$> publishers d).

Record accounted (d : Dispatcher) : Prop := {
  a_owed : owed d ≡ₚ ran d ++ in_flight d;
  a_published : wrap64 (published d + Z.of_nat (length (uncounted d))) = wrap64 (Z.of_nat (length (owed d)));
  a_outcomes : wrap64 (delivered d + failed d) = wrap64 (Z.of_nat (length (ran d)) + refused d);
  a_active : activeHandlers d = wrap32 (Z.of_nat (count del_active (deliveries d))) }.

Lemma wrap64_shift x y a b : wrap64 x = wrap64 y → a = b → wrap64 (x + a) = wrap64 (y + b).
Proof. intros Hxy ->. rewrite <- (wrap64_add x), <- (wrap64_add y). by rewrite Hxy. Qed.

Lemma concat_snoc {A B} (f : A → list B) l x : concat (f <$> (l ++ [x])) ≡ₚ concat (f <$> l) ++ f x.
Proof. rewrite fmap_app, concat_app. simpl. by rewrite app_nil_r. Qed.

Lemma uncounted_change d i p p' :
  publishers d !! i = Some p →
  length (not_counted p) + length (concat (not_counted <$> <[i := p']> (publishers d))) =
  length (not_counted p') + length (uncounted d).
Proof.
  intros Hi. pose proof (concat_insert not_counted (publishers d) i p p' Hi) as Hc%Permutation_length.
  rewrite !length_app in Hc. done.
Qed.

(** Only the fields of the state, not the lists in them. *)
Ltac fields := unfold in_flight, uncounted in *;
  cbn [owed ran refused publishers deliveries published delivered failed activeHandlers
    set_pubs set_dels set_counts set_active set_times set_ghost pub_owes del_owes not_counted pub_counted del_active
    EventType Data b2n] in *;
  rewrite ?fmap_nil, ?fmap_cons in *; cbn [app] in *.

Lemma accounted_publisher i p now d : publishers d !! i = Some (Some p) → accounted d →
  let '(p', d') := publisher_step p now d in accounted (set_pubs (<[i := p']> (publishers d')) d').
Proof.
  intros Hi [A1 A2 A3 A4]. pose proof (λ p', concat_insert pub_owes (publishers d) i (Some p) p' Hi) as Hc.
  pose proof (λ p', uncounted_change d i (Some p) p' Hi) as Hu.
  destruct p as [name data|hs name data|hs name data|hs e|[|h hs] e]; cbn [publisher_step].
  - unfold Publish_read. destruct (handlers_of name d) as [|h hs] eqn:Eh; constructor; try done; fields.
    + specialize (Hc None). fields; perm_lia.
    + specialize (Hu None). fields. simpl in Hu. by rewrite Hu.
    + specialize (Hc (Some (PCount (h :: hs) name data))). fields; perm_lia.
    + specialize (Hu (Some (PCount (h :: hs) name data))). fields.
      cbn [length Nat.add] in Hu. rewrite length_fmap in Hu. rewrite length_app. cbn [length]. rewrite length_fmap.
      set (n := length hs) in *. set (u := length (concat (not_counted <$> publishers d))) in *.
      replace (published d + _)%Z with (published d + Z.of_nat u + Z.of_nat (S n))%Z by lia.
      replace (Z.of_nat (_ + S n)) with (Z.of_nat (length (owed d)) + Z.of_nat (S n))%Z by lia.
      by apply wrap64_shift.
  - constructor; try done; fields.
    + specialize (Hc (Some (PTime hs name data))). fields; perm_lia.
    + specialize (Hu (Some (PTime hs name data))). fields. rewrite length_fmap in Hu. cbn [length] in Hu.
      rewrite wrap64_add, <- A2. f_equal. lia.
  - constructor; try done; fields.
    + specialize (Hc (Some (PRecord hs (mkEvent now name data)))). fields; perm_lia.
    + specialize (Hu (Some (PRecord hs (mkEvent now name data)))). fields. cbn [length Nat.add] in Hu. by rewrite Hu.
  - constructor; try done; fields.
    + specialize (Hc (Some (PSpawn hs e))). fields; perm_lia.
    + specialize (Hu (Some (PSpawn hs e))). fields. cbn [length Nat.add] in Hu. by rewrite Hu.
  - constructor; try done; fields.
    + specialize (Hc None). fields; perm_lia.
    + specialize (Hu None). fields. cbn [length Nat.add] in Hu. by rewrite Hu.
  - constructor; fields; [|..|done|].
    + specialize (Hc (Some (PSpawn hs e))). fields.
      pose proof (concat_snoc del_owes (deliveries d) (Some (DSpawned h e))) as Hs. fields; perm_lia.
    + specialize (Hu (Some (PSpawn hs e))). fields. cbn [length Nat.add] in Hu. by rewrite Hu.
    + rewrite count_app. simpl. rewrite A4. f_equal. unfold count. simpl. lia.
Qed.

Lemma accounted_delivery i g ok d : deliveries d !! i = Some (Some g) → accounted d →
  let '(g', d') := delivery_step g ok d in accounted (set_dels (<[i := g']> (deliveries d')) d').
Proof.
  intros Hi [A1 A2 A3 A4]. pose proof (λ g', concat_insert del_owes (deliveries d) i (Some g) g' Hi) as Hc.
  pose proof (λ g', count_insert del_active (deliveries d) i (Some g) g' Hi) as Hn.
  destruct g as [h e|h e|]; cbn [delivery_step].
  - constructor; try done; fields.
    + specialize (Hc (Some (DRunning h e))). fields; perm_lia.
    + specialize (Hn (Some (DRunning h e))). simpl in Hn. rewrite A4, wrap32_add. f_equal. lia.
  - specialize (Hc (Some DCounted)). specialize (Hn (Some DCounted)). simpl in Hn.
    destruct ok; constructor; fields.
    1,5: fields; perm_lia.
    1,4: done.
    1,3: rewrite length_app; simpl.
    + replace (Z.of_nat (length (ran d) + 1) + refused d)%Z with (Z.of_nat (length (ran d)) + refused d + 1)%Z by lia.
      rewrite wrap64_add. replace (delivered d + 1 + failed d)%Z with (delivered d + failed d + 1)%Z by lia. by apply wrap64_shift.
    + replace (Z.of_nat (length (ran d) + 1) + refused d)%Z with (Z.of_nat (length (ran d)) + refused d + 1)%Z by lia.
      rewrite (Z.add_comm (delivered d)), wrap64_add.
      replace (failed d + 1 + delivered d)%Z with (delivered d + failed d + 1)%Z by lia. by apply wrap64_shift.
    + rewrite A4. f_equal. lia.
    + rewrite A4. f_equal. lia.
  - constructor; try done; fields.
    + specialize (Hc None). fields; perm_lia.
    + specialize (Hn None). simpl in Hn. rewrite A4. unfold Z.sub. rewrite wrap32_add. f_equal. lia.
Qed.

Lemma accounted_new_publisher p d : pub_owes p = [] → accounted d → accounted (set_pubs (publishers d ++ [p]) d).
Proof.
  intros Hp [A1 A2 A3 A4]. assert (not_counted p = []) as Hn by (unfold not_counted; by destruct (pub_counted p)).
  pose proof (concat_snoc pub_owes (publishers d) p) as H1. pose proof (concat_snoc not_counted (publishers d) p) as H2.
  rewrite Hp in H1. rewrite Hn in H2. rewrite app_nil_r in H1, H2. constructor; try done; fields.
  - by rewrite H1.
  - by rewrite H2.
Qed.

Lemma accounted_step e d d' : accounted d → step e d = Some d' → accounted d'.
Proof.
  intros Hd. unfold step. destruct e as [name h|name data|name data n|i now|i ok].
  - intros [= <-]. unfold Subscribe. destruct h; [|done]. by destruct Hd.
  - intros [= <-]. by apply accounted_new_publisher.
  - unfold PublishWithRetry. destruct (handlers_of name d) as [|h hs].
    + intros [= <-]. refine (accounted_new_publisher None (set_ghost _ _ _ _) _ _); [done|].
      destruct Hd as [A1 A2 A3 A4]. constructor; try done; fields.
      rewrite (Z.add_comm (delivered d)), wrap64_add, Z.add_assoc.
      replace (failed d + 1 + delivered d)%Z with (delivered d + failed d + 1)%Z by lia. by apply wrap64_shift.
    + destruct (0 <=? n)%Z; intros [= <-]; [by apply accounted_new_publisher|].
      refine (accounted_new_publisher None (set_ghost _ _ _ _) _ _); [done|].
      destruct Hd as [A1 A2 A3 A4]. constructor; try done; fields. cbn [length].
      rewrite (Z.add_comm (delivered d)), wrap64_add, Z.add_assoc.
      replace (failed d + Z.of_nat (S (length hs)) + delivered d)%Z with (delivered d + failed d + Z.of_nat (S (length hs)))%Z by lia.
      by apply wrap64_shift.
  - destruct (publishers d !! i) as [[p|]|] eqn:Hi; try done. pose proof (accounted_publisher i p now d Hi Hd).
    destruct (publisher_step p now d). by intros [= <-].
  - destruct (deliveries d !! i) as [[g|]|] eqn:Hi; try done. pose proof (accounted_delivery i g ok d Hi Hd).
    destruct (delivery_step g ok d). by intros [= <-].
Qed.

Lemma accounted_new : accounted NewEventDispatcher.
Proof. by constructor. Qed.

Lemma idle_pubs (ps : list (option publisher)) : Forall (λ p, p = None) ps → concat (pub_owes <$> ps) = [] ∧ concat (not_counted <$> ps) = [].
Proof. induction 1 as [|p ps -> _ [IH1 IH2]]; [done|]. rewrite !fmap_cons. cbn [concat]. by rewrite IH1, IH2. Qed.

Lemma idle_dels (ds : list (option delivery)) : Forall (λ g, g = None) ds → concat (del_owes <$> ds) = [] ∧ count del_active ds = 0.
Proof.
  induction 1 as [|g ds -> _ [IH1 IH2]]; [done|]. rewrite fmap_cons, count_cons. cbn [concat]. by rewrite IH1, IH2.
Qed.

(** C17: Every subscriber gets every event once.  In every interleaving of
    subscriptions, publishers and handlers, panicking or not: the handlers that
    have run, with the events they got, and those still to run are exactly the
    subscribers each publisher found when it read the table; the counters
    [delivered] and [failed] together are the number of handlers that have run
    plus the failures [PublishWithRetry] counts without publishing; the active
    handlers are those begun and not ended; and when nobody is inside, every
    handler owed has run once, [published] is their number and none is
    active. *)
Theorem dispatcher_delivers_once (es : list event) (d : Dispatcher) :
  mrun es NewEventDispatcher = Some d →
  owed d ≡ₚ ran d ++ in_flight d ∧
  wrap64 (delivered d + failed d) = wrap64 (Z.of_nat (length (ran d)) + refused d) ∧
  activeHandlers d = wrap32 (Z.of_nat (count del_active (deliveries d))) ∧
  (Forall (λ p, p = None) (publishers d) → Forall (λ g, g = None) (deliveries d) →
    owed d ≡ₚ ran d ∧ wrap64 (published d) = wrap64 (Z.of_nat (length (owed d))) ∧ activeHandlers d = 0%Z).
Proof.
  intros Hr. assert (accounted d) as [A1 A2 A3 A4].
  { apply (mrun_inv accounted es NewEventDispatcher d); [|apply accounted_new|done]. intros e s s'. apply accounted_step. }
  split_and!; [done..|]. intros [Hp1 Hp2]%idle_pubs [Hd1 Hd2]%idle_dels. unfold in_flight, uncounted in *.
  rewrite Hp1, Hd1, !app_nil_r in A1. rewrite Hp2, Z.add_0_r in A2. split_and!; [done..|]. by rewrite A4, Hd2.
Qed.

(** ** Recent events *)

Definition later_than (cutoff : Z) (ts : list Z) : list Z := filter (λ t, (cutoff < t)%Z) ts.

Lemma first_after_drop cutoff ts i :
  StronglySorted Z.le ts → (∃ t, t ∈ ts ∧ (cutoff < t)%Z) → drop (first_after cutoff ts i - i) ts = later_than cutoff ts ∧ i ≤ first_after cutoff ts i.
Proof.
  intros Hs. revert i. induction Hs as [|t ts Hs IH Ht]; intros i (t0 & Hin & Hc); [by apply not_elem_of_nil in Hin|].
  cbn [first_after]. unfold later_than. rewrite filter_cons. destruct (Z.ltb_spec cutoff t).
  - rewrite Nat.sub_diag, decide_True by done. split; [|done]. cbn [drop]. f_equal. symmetry. apply list_filter_all.
    rewrite list.Forall_forall in Ht. intros x Hx. specialize (Ht x Hx). lia.
  - rewrite decide_False by lia. destruct (IH (S i)) as [IH1 IH2].
    { exists t0. split; [|done]. apply elem_of_cons in Hin as [->|]; [lia|done]. }
    split; [|lia]. replace (first_after cutoff ts (S i) - i) with (S (first_after cutoff ts (S i) - S i)) by lia. done.
Qed.

(** Which times the dispatcher remembers.  When events are recorded in
    order of time, the record after an event is the last thousand of the
    recorded times, the new one included, that are less than a minute old at
    that event; and it is never longer than a thousand. *)
Theorem recent_events_exact (t : Z) (recent : list Z) :
  StronglySorted Z.le recent → (∀ x, x ∈ recent → (x ≤ t)%Z) →
  let kept := later_than (t - 60 * second) (recent ++ [t]) in
  recordRecentEvent t recent = drop (length kept - 1000) kept ∧ length (recordRecentEvent t recent) ≤ 1000 ∧
  StronglySorted Z.le (recordRecentEvent t recent).
Proof.
  intros Hs Ht kept. assert (StronglySorted Z.le (recent ++ [t])) as Hs'.
  { clear kept. induction Hs as [|x l Hs IH Hx]; [by repeat constructor|]. cbn [app]. constructor.
    - apply IH. intros y Hy. apply Ht. by right.
    - apply list.Forall_app. split; [done|]. repeat constructor. apply Ht. left. }
  assert (drop (first_after (t - 60 * second) (recent ++ [t]) 0) (recent ++ [t]) = kept) as Hk.
  { destruct (first_after_drop (t - 60 * second) (recent ++ [t]) 0 Hs') as [Hd _].
    - exists t. split; [apply elem_of_app; right; left|unfold second; lia].
    - by rewrite Nat.sub_0_r in Hd. }
  assert (StronglySorted Z.le kept) as Hks.
  { rewrite <- Hk. rewrite <- (take_drop (first_after (t - 60 * second) (recent ++ [t]) 0)) in Hs'.
    clear -Hs'. induction (take _ _) as [|x l IH]; [done|]. apply IH. by inversion Hs'. }
  assert (recordRecentEvent t recent = drop (length kept - 1000) kept) as Hrec.
  { unfold recordRecentEvent. rewrite Hk. destruct (Nat.ltb_spec 1000 (length kept)).
    - rewrite take_ge; [done|]. rewrite length_drop. lia.
    - by replace (length kept - 1000) with 0 by lia. }
  rewrite Hrec. split_and!; [done|rewrite length_drop; lia|].
  rewrite <- (take_drop (length kept - 1000) kept) in Hks. clear -Hks.
  induction (take _ kept) as [|x l IH]; [done|]. apply IH. by inversion Hks.
Qed.

(** Two subscribers, one event; the second handler panics. *)
Definition demo_events : list event :=
  [ESubscribe "up" (Some 1); ESubscribe "up" (Some 2); ESubscribe "down" None; EPublish "up" 7; EPublisher 0 1; EPublisher 0 1;
   EPublisher 0 5; EPublisher 0 5; EPublisher 0 5; EDelivery 0 true; EPublisher 0 5; EPublisher 0 5;
   EDelivery 1 true; EDelivery 1 false; EDelivery 0 true; EDelivery 1 true; EDelivery 0 true].

Lemma dispatcher_delivers_once_witness :
  ∃ d, mrun demo_events NewEventDispatcher = Some d ∧ ran d = [(2, "up", 7); (1, "up", 7)] ∧
    delivered d = 1%Z ∧ failed d = 1%Z ∧
    (owed d ≡ₚ ran d ∧ wrap64 (published d) = wrap64 (Z.of_nat (length (owed d))) ∧ activeHandlers d = 0%Z).
Proof.
  eexists. split; [vm_compute; reflexivity|]. do 3 (split; [reflexivity|]).
  refine (proj2 (proj2 (proj2 (dispatcher_delivers_once demo_events _ _))) _ _);
    [vm_compute; reflexivity|repeat constructor|repeat constructor].
Defined.

Lemma recent_events_exact_witness :
  let recent := [1 * second; 50 * second; 70 * second]%Z in
  recordRecentEvent (80 * second) recent = [50 * second; 70 * second; 80 * second]%Z ∧
  length (recordRecentEvent (80 * second) recent) ≤ 1000.
Proof.
  intros recent. split; [vm_compute; reflexivity|]. refine (proj1 (proj2 (recent_events_exact (80 * second) recent _ _))).
  - unfold recent, second. repeat constructor; lia.
  - unfold recent, second. intros x Hx. rewrite !elem_of_cons, elem_of_nil in Hx. destruct Hx as [->|[->|[->|[]]]]; lia.
Defined.

(** [PublishWithRetry] never retries: with a negative number of retries it
    counts failures and publishes nothing, otherwise it publishes once. *)
Lemma retry_publishes_once (name : string) (data : nat) (n : Z) (d : Dispatcher) :
  handlers_of name d ≠ [] →
  (PublishWithRetry name data n d).1 = if (0 <=? n)%Z then Some (PRead name data) else None.
Proof. unfold PublishWithRetry. destruct (handlers_of name d); [done|]. by destruct (0 <=? n)%Z. Qed.
