(* ===== verification/ServiceCall.v ===== *)
(** * Calls between extensions

    Models src/extension/manager/service_call.go and GetServiceInterface of
    src/extension/types/helper.go: how a service is found, how its method is
    called by reflection, and the strategies that combine local and remote
    calls.  A value is seen through what reflection asks of it: its kind, its
    fields and its methods; values themselves are numbers.  Variadic methods and
    promoted fields are not modelled. *)

From stdpp Require Import base tactics option list gmap strings.
From Stdlib Require Import ZArith Ascii Lia.
From S2P Require Import Prelude GoStrings.

(** ** Values seen by reflection *)

(** The type of a parameter: an interface any value fits, or a concrete type. *)
Inductive ptype := PAny | PType (t : nat).

(** One result of a method: whether [IsNil] applies to its kind, whether its
    type implements [error], whether it is nil, and the value. *)
Record result := mkResult { r_nillable : bool; r_error : bool; r_nil : bool; r_val : nat }.

(** A request: its type and value; [None] is a nil request. *)
Abbreviation request := (option (nat * nat)).

(** A method: whether its first parameter is a context, its other parameters,
    and what it does with the value of the first of them ([None]: it panics). *)
Record method := mkMethod { m_ctx : bool; m_in : list ptype; m_run : option nat → option (list result) }.

(** A service: a nil interface, a nil pointer, or a pointer to or a value with
    fields (exported or not), value methods and pointer methods. *)
Inductive service :=
| SNil
| SNilPtr
| SVal (pointer is_struct : bool) (fields : list field) (vm pm : list (string * method))
with field := Field (name : string) (exported : bool) (value : service).

Fixpoint assoc {A} (k : string) (l : list (string * A)) : option A :=
  match l with [] => None | (k', a) :: l' => if String.eqb k k' then Some a else assoc k l' end.

Inductive response := RNil | RVal (v : nat) | RSlice (vs : list nat) | REcho (serviceName methodName : string) (req : request).

Inductive call_error :=
| ENotFound | ENoService | EPath | ENilService | ENoMethod | EMethod (v : nat) (r : response) | ENoGRPC | EConnection | EMarshal | EUnavailable.

Fixpoint find_field (k : string) (l : list field) : option (bool * service) :=
  match l with [] => None | Field k' e s :: l' => if String.eqb k k' then Some (e, s) else find_field k l' end.

(** The response a method returned together with its error. *)
Definition response_with (e : call_error) : response := match e with EMethod _ r => r | _ => RNil end.

(** ** Finding a service *)

(** [GetServiceInterface]: [Ok None] is not found; an unexported field panics. *)
Definition GetServiceInterface (s : service) (fieldName : string) : res call_error (option service) :=
  match s with
  | SVal _ true fields _ _ =>
      match find_field fieldName fields with
      | None => Ok None
      | Some (exported, f) =>
          match f with
          | SNil | SNilPtr => Ok None
          | _ => if exported : bool then Ok (Some f) else Panic
          end
      end
  | _ => Ok None
  end.

Fixpoint follow_path (current : service) (parts : list string) : res call_error service :=
  match parts with
  | [] => Ok current
  | part :: parts' =>
      match GetServiceInterface current part with
      | Ok (Some f) => follow_path f parts'
      | Ok None => Err EPath
      | Err e => Err e
      | Panic => Panic
      | NoFuel => NoFuel
      end
  end.

Definition extractServiceByPath (s : service) (path : string) : res call_error service := follow_path s (Split "."%char path).

(** The part of the manager these calls read: the services of the registered
    extensions, the cross services, and the gRPC registry, [None] when it is not
    enabled, else whether it has a connection to a service. *)
Record Manager := mkManager {
  extensions : gmap string service; crossServices : gmap string service; grpcRegistry : option (string → bool) }.

Definition GetServiceByName (m : Manager) (name : string) : res call_error service :=
  match extensions m !! name with
  | None => Err ENotFound
  | Some SNil => Err ENoService
  | Some s => Ok s
  end.

Definition GetCrossService (m : Manager) (extensionName servicePath : string) : res call_error service :=
  match crossServices m !! (extensionName +:+ "." +:+ servicePath) with
  | Some s => Ok s
  | None =>
      match GetServiceByName m extensionName with
      | Ok s => extractServiceByPath s servicePath
      | e => e
      end
  end.

(** ** Calling a method *)

(** [MethodByName] on the value, then on the pointer to a struct. *)
Definition find_method (s : service) (name : string) : res call_error method :=
  match s with
  | SNil => Panic
  | SNilPtr => Err ENilService
  | SVal pointer is_struct _ vm pm =>
      match assoc name vm with
      | Some m => Ok m
      | None =>
          if is_struct && pointer then match assoc name pm with Some m => Ok m | None => Err ENoMethod end else Err ENoMethod
      end
  end.

(** The first argument after the context: a nil request is no argument at all
    and a request of another type does not fit, both panic in [Call]. *)
Definition bind_request (m : method) (req : request) : res call_error (option nat) :=
  match m_in m with
  | [] => Ok None
  | p :: _ =>
      match req with
      | None => Panic
      | Some (t, v) => match p with PAny => Ok (Some v) | PType t' => if Nat.eqb t t' then Ok (Some v) else Panic end
      end
  end.

(** What [invokeServiceMethod] makes of the results; the error of a pair is
    returned with its result. *)
Definition process_results (rs : list result) : res call_error (response * option nat) :=
  match rs with
  | [] => Ok (RNil, None)
  | [r] =>
      if r_error r then
        if r_nillable r then Ok (if r_nil r then (RNil, None) else (RNil, Some (r_val r))) else Panic
      else Ok (RVal (r_val r), None)
  | [r; e] =>
      if r_nillable e then
        if negb (r_nil e) && negb (r_error e) then Panic
        else
          let err := if r_nil e then None else Some (r_val e) in
          if r_nillable r then Ok (if r_nil r then RNil else RVal (r_val r), err) else Panic
      else Panic
  | _ => Ok (RSlice (r_val <$> rs), None)
  end.

Definition invokeServiceMethod (s : service) (methodName : string) (req : request) : res call_error response :=
  match find_method s methodName with
  | Ok m =>
      match bind_request m req with
      | Ok arg =>
          match m_run m arg with
          | None => Panic
          | Some rs =>
              match process_results rs with
              | Ok (r, None) => Ok r
              | Ok (r, Some e) => Err (EMethod e r)
              | Err e => Err e
              | Panic => Panic
              | NoFuel => NoFuel
              end
          end
      | Err e => Err e
      | Panic => Panic
      | NoFuel => NoFuel
      end
  | Err e => Err e
  | Panic => Panic
  | NoFuel => NoFuel
  end.

(** ** Local and remote calls *)

Definition callLocal (m : Manager) (serviceName methodName : string) (req : request) : res call_error response :=
  match GetCrossService m serviceName methodName with
  | Ok s => invokeServiceMethod s methodName req
  | Err _ =>
      match GetServiceByName m serviceName with
      | Ok s => invokeServiceMethod s methodName req
      | Err e => Err e
      | Panic => Panic
      | NoFuel => NoFuel
      end
  | Panic => Panic
  | NoFuel => NoFuel
  end.

(** [callRemote]; [marshals]: the request can be written as JSON. *)
Definition callRemote (marshals : bool) (m : Manager) (serviceName methodName : string) (req : request) : res call_error response :=
  match grpcRegistry m with
  | None => Err ENoGRPC
  | Some connected =>
      if negb (connected serviceName) then Err EConnection
      else if negb marshals then Err EMarshal
      else Ok (REcho serviceName methodName req)
  end.

Inductive CallStrategy := LocalFirst | RemoteFirst | LocalOnly | RemoteOnly.

Record CallResult := mkCallResult { Response : response; Error : option call_error; IsLocal : bool; IsRemote : bool }.

(** One call and, when it fails and there is one, the other; a panic passes. *)
Definition first_of (first second : res call_error response) (local_first : bool) : res call_error CallResult :=
  match first with
  | Ok r => Ok (mkCallResult r None local_first (negb local_first))
  | Err _ =>
      match second with
      | Ok r => Ok (mkCallResult r None (negb local_first) local_first)
      | Err _ => Ok (mkCallResult RNil (Some EUnavailable) false false)
      | Panic => Panic
      | NoFuel => NoFuel
      end
  | Panic => Panic
  | NoFuel => NoFuel
  end.

Definition only (r : res call_error response) (local : bool) : res call_error CallResult :=
  match r with
  | Ok r => Ok (mkCallResult r None local (negb local))
  | Err e => Ok (mkCallResult (response_with e) (Some e) false false)
  | Panic => Panic
  | NoFuel => NoFuel
  end.

Definition callLocalFirst (j : bool) (m : Manager) (s n : string) (req : request) : res call_error CallResult :=
  first_of (callLocal m s n req) (callRemote j m s n req) true.
Definition callRemoteFirst (j : bool) (m : Manager) (s n : string) (req : request) : res call_error CallResult :=
  first_of (callRemote j m s n req) (callLocal m s n req) false.
Definition callLocalOnly (m : Manager) (s n : string) (req : request) : res call_error CallResult := only (callLocal m s n req) true.
Definition callRemoteOnly (j : bool) (m : Manager) (s n : string) (req : request) : res call_error CallResult :=
  only (callRemote j m s n req) false.

(** [CallServiceWithOptions]: the result, and what [trackServiceCall] is told.
    An unknown strategy is [LocalFirst]. *)
Definition CallServiceWithOptions (j : bool) (m : Manager) (serviceName methodName : string) (req : request)
    (strategy : option CallStrategy) : res call_error (CallResult * bool) :=
  let r :=
    match strategy with
    | Some RemoteFirst => callRemoteFirst j m serviceName methodName req
    | Some LocalOnly => callLocalOnly m serviceName methodName req
    | Some RemoteOnly => callRemoteOnly j m serviceName methodName req
    | Some LocalFirst | None => callLocalFirst j m serviceName methodName req
    end in
  match r with
  | Ok c => Ok (c, negb (is_some_b (Error c)))
  | Err e => Err e
  | Panic => Panic
  | NoFuel => NoFuel
  end.

Definition CallService (j : bool) (m : Manager) (serviceName methodName : string) (req : request) :
    res call_error (CallResult * bool) := CallServiceWithOptions j m serviceName methodName req (Some LocalFirst).

(** ** Properties *)

Lemma bind_panics m req :
  bind_request m req = Panic ↔
  ∃ p ps, m_in m = p :: ps ∧ match req with None => True | Some (t, _) => ∃ t', p = PType t' ∧ t ≠ t' end.
Proof.
  unfold bind_request. destruct (m_in m) as [|p ps]; [split; [done|by intros (? & ? & ? & _)]|].
  destruct req as [[t v]|]; [|split; [by eauto|done]]. destruct p as [|t'].
  - split; [done|]. intros (? & ? & [= <- _] & ? & ? & _). done.
  - destruct (Nat.eqb_spec t t') as [->|Hne].
    + split; [done|]. intros (? & ? & [= <- _] & t'' & [= ->] & ?). done.
    + split; [|done]. intros _. exists (PType t'), ps. eauto.
Qed.

Lemma bind_Ok_or_Panic m req : (∃ arg, bind_request m req = Ok arg) ∨ bind_request m req = Panic.
Proof. unfold bind_request. repeat case_match; eauto. Qed.

Lemma process_panics rs :
  process_results rs = Panic ↔
  (∃ r, rs = [r] ∧ r_error r = true ∧ r_nillable r = false) ∨
  (∃ r e, rs = [r; e] ∧ (r_nillable r = false ∨ r_nillable e = false ∨ (r_nil e = false ∧ r_error e = false))).
Proof.
  split.
  - unfold process_results. destruct rs as [|r [|e [|e2 rs]]]; [done|..|done]; intros Hp.
    + left. exists r. destruct (r_error r), (r_nillable r); done.
    + right. exists r, e. split; [done|]. destruct (r_nillable r), (r_nillable e), (r_nil e), (r_error e); try done; auto.
  - intros [(r & -> & He & Hn)|(r & e & -> & Hc)]; simpl; [by rewrite He, Hn|].
    destruct (r_nillable r), (r_nillable e), (r_nil e), (r_error e); try done;
      destruct Hc as [Hc|[Hc|[Hc1 Hc2]]]; discriminate.
Qed.

(** When a reflected call panics.  [invokeServiceMethod] of a method that
    exists panics exactly when the request is nil or of another type although
    the method has a parameter for it, or the method itself panics, or its
    results are one value of an [error] type without nil, or two of which one
    has no nil (a string, a number, a struct: [IsNil] does not apply) or the
    second is a non-nil value that is no error.  So a method that returns (T,
    error) can be called only if T is a pointer, map, slice or interface. *)
Theorem invoke_panics_iff (s : service) (name : string) (m : method) (req : request) :
  find_method s name = Ok m →
  invokeServiceMethod s name req = Panic ↔
  (∃ p ps, m_in m = p :: ps ∧ match req with None => True | Some (t, _) => ∃ t', p = PType t' ∧ t ≠ t' end) ∨
  (∃ arg, bind_request m req = Ok arg ∧
    match m_run m arg with
    | None => True
    | Some rs =>
        (∃ r, rs = [r] ∧ r_error r = true ∧ r_nillable r = false) ∨
        (∃ r e, rs = [r; e] ∧ (r_nillable r = false ∨ r_nillable e = false ∨ (r_nil e = false ∧ r_error e = false)))
    end).
Proof.
  intros Hm. unfold invokeServiceMethod. rewrite Hm, <- bind_panics.
  destruct (bind_Ok_or_Panic m req) as [[arg ->]| ->]; [|split; [by left|done]]. split.
  - intros Hp. right. exists arg. split; [done|]. destruct (m_run m arg) as [rs|]; [|done]. apply process_panics.
    destruct (process_results rs) as [[r [e|]]| | |]; done.
  - intros [|(arg' & [= <-] & Hx)]; [done|]. destruct (m_run m arg) as [rs|]; [|done]. apply process_panics in Hx. by rewrite Hx.
Qed.

(** A failing local method is reported as a success.  With the gRPC registry
    connected to a service, a call with the default strategy whose local method
    returns an error does not return that error: it succeeds, says that it was
    remote, and its response is an echo of the request made up by [callRemote],
    which calls nothing; the metrics count a success.  The same happens when
    the service has no such method. *)
Theorem local_error_masked (m : Manager) (serviceName methodName : string) (req : request) (connected : string → bool)
    (e : call_error) :
  grpcRegistry m = Some connected → connected serviceName = true →
  callLocal m serviceName methodName req = Err e →
  CallService true m serviceName methodName req =
    Ok (mkCallResult (REcho serviceName methodName req) None false true, true).
Proof.
  intros Hg Hc Hl. unfold CallService, CallServiceWithOptions, callLocalFirst. rewrite Hl. unfold callRemote.
  by rewrite Hg, Hc.
Qed.

(** What each strategy returns.  With a panic of neither call: the only
    strategies return their call with its error; the others return the first
    call that succeeds, marked as local or remote accordingly, and the error
    "unavailable" when neither does; the metrics are told a success exactly when
    there is no error. *)
Theorem strategies_exact (j : bool) (m : Manager) (s n : string) (req : request) (strategy : CallStrategy)
    (l r : response + call_error) :
  callLocal m s n req = match l with inl x => Ok x | inr e => Err e end →
  callRemote j m s n req = match r with inl x => Ok x | inr e => Err e end →
  CallServiceWithOptions j m s n req (Some strategy) =
  Ok match strategy, l, r with
     | (LocalFirst | LocalOnly), inl x, _ | RemoteFirst, inl x, inr _ => (mkCallResult x None true false, true)
     | (RemoteFirst | RemoteOnly), _, inl x | LocalFirst, inr _, inl x => (mkCallResult x None false true, true)
     | LocalOnly, inr e, _ | RemoteOnly, _, inr e => (mkCallResult (response_with e) (Some e) false false, false)
     | (LocalFirst | RemoteFirst), inr _, inr _ => (mkCallResult RNil (Some EUnavailable) false false, false)
     end.
Proof.
  intros Hl Hr. unfold CallServiceWithOptions, callLocalFirst, callRemoteFirst, callLocalOnly, callRemoteOnly.
  rewrite Hl, Hr. by destruct strategy, l, r.
Qed.

(** ** At concrete inputs *)

(** An extension with a method that takes a request of type 1 and returns (T,
    error), with T a pointer or a string. *)
Definition demo_service (pointer_result : bool) (err : option nat) : service :=
  SVal true true [] []
    [("Find", mkMethod true [PType 1] (λ _, Some [mkResult pointer_result false (negb pointer_result) 5;
      mkResult true true (negb (is_some_b err)) (default 0 err)]))].
Definition demo_manager (s : service) (grpc : bool) : Manager :=
  mkManager {[ "user" := s ]} ∅ (if grpc then Some (λ _, true) else None).

Lemma invoke_panics_iff_witness :
  invokeServiceMethod (demo_service true None) "Find" (Some (1, 9)) = Ok (RVal 5) ∧
  invokeServiceMethod (demo_service false None) "Find" (Some (1, 9)) = Panic.
Proof.
  split; [reflexivity|].
  apply (proj2 (invoke_panics_iff (demo_service false None) "Find" _ (Some (1, 9)) eq_refl)).
  right. exists (Some 9). split; [reflexivity|]. right. do 2 eexists. split; [reflexivity|]. left. reflexivity.
Defined.

Lemma local_error_masked_witness :
  callLocal (demo_manager (demo_service true (Some 3)) true) "user" "Find" (Some (1, 9)) = Err (EMethod 3 (RVal 5)) ∧
  CallService true (demo_manager (demo_service true (Some 3)) true) "user" "Find" (Some (1, 9)) =
    Ok (mkCallResult (REcho "user" "Find" (Some (1, 9))) None false true, true).
Proof.
  split; [reflexivity|].
  apply (local_error_masked (demo_manager (demo_service true (Some 3)) true) "user" "Find" (Some (1, 9)) (λ _, true) (EMethod 3 (RVal 5)));
    reflexivity.
Defined.

Lemma strategies_exact_witness :
  CallServiceWithOptions true (demo_manager (demo_service true (Some 3)) false) "user" "Find" (Some (1, 9)) (Some LocalOnly) =
    Ok (mkCallResult (RVal 5) (Some (EMethod 3 (RVal 5))) false false, false).
Proof.
  apply (strategies_exact true (demo_manager (demo_service true (Some 3)) false) "user" "Find" (Some (1, 9)) LocalOnly
    (inr (EMethod 3 (RVal 5))) (inr ENoGRPC)); reflexivity.
Defined.
