(* ===== verification/Discovery.v ===== *)
(** * Service discovery

    Models src/extension/discovery/service.go: the cache of services and the
    registration and look-up of services at a Consul agent.  The agent is the
    class [Consul]: its operations with what its documentation says of them —
    services are kept by their ID.  The health checks, which only pass the
    agent's answer on, are not modelled. *)

From stdpp Require Import base tactics option list gmap strings.
From Stdlib Require Import ZArith Lia.
From S2P Require Import Prelude MetricsStore.

(** ** The agent *)

Record AgentService := mkService { ID : string; Service : string; Address : string }.

(** A call of the agent fails or not ([None]); a registration is stored under
    its ID, a deregistration removes that ID, and nothing else changes. *)
Class Consul (A : Type) := {
  services_of : A → gmap string AgentService;
  agent_register : AgentService → A → option A;
  agent_deregister : string → A → option A;
  agent_services : A → option (gmap string AgentService);
  register_law r a a' : agent_register r a = Some a' → services_of a' = <[ID r := r]> (services_of a);
  deregister_law i a a' : agent_deregister i a = Some a' → services_of a' = delete i (services_of a);
  services_law a m : agent_services a = Some m → m = services_of a }.

(** ** The cache *)

Record ServiceCache := mkCache {
  services : gmap string AgentService; ttl : Z; lastUpdate : Z;
  hits : Z; misses : Z; updates : Z; evictions : Z }.

Definition NewServiceCache (ttl : Z) : ServiceCache := mkCache ∅ ttl zero_time 0 0 0 0.

(** [time.Since], which saturates. *)
Definition since (t now : Z) : Z := Z.max min_int64 (Z.min max_int64 (now - t)).

Definition CacheGet (now : Z) (name : string) (c : ServiceCache) : option AgentService * ServiceCache :=
  let miss := mkCache (services c) (ttl c) (lastUpdate c) (hits c) (wrap64 (misses c + 1)) (updates c) (evictions c) in
  if (ttl c <? since (lastUpdate c) now)%Z then (None, miss)
  else
    match services c !! name with
    | Some s => (Some s, mkCache (services c) (ttl c) (lastUpdate c) (wrap64 (hits c + 1)) (misses c) (updates c) (evictions c))
    | None => (None, miss)
    end.

Definition CacheUpdate (now : Z) (m : gmap string AgentService) (c : ServiceCache) : ServiceCache :=
  let oldSize := Z.of_nat (size (services c)) in
  let newSize := Z.of_nat (size m) in
  mkCache m (ttl c) now (hits c) (misses c) (wrap64 (updates c + 1))
    (if (newSize <? oldSize)%Z then wrap64 (evictions c + (oldSize - newSize)) else evictions c).

Definition CacheClear (c : ServiceCache) : ServiceCache :=
  mkCache ∅ (ttl c) zero_time (hits c) (misses c) (updates c) (wrap64 (evictions c + Z.of_nat (size (services c)))).

(** ** Discovery *)

Record ServiceInfo := mkInfo { i_Address : string }.

Inductive discovery_error := ENoClient | EInvalidInfo | ERegister | EDeregister | EServices | ENotFound.

Section Discovery.
Context {A : Type} `{Consul A}.

(** [consul]: the agent behind the client, [None] without a client. *)
Record ServiceDiscovery := mkSD { consul : option A; serviceCache : ServiceCache; lookups : Z; errors : Z }.

Definition with_cache (c : ServiceCache) (sd : ServiceDiscovery) : ServiceDiscovery := mkSD (consul sd) c (lookups sd) (errors sd).
Definition count_error (sd : ServiceDiscovery) : ServiceDiscovery :=
  mkSD (consul sd) (serviceCache sd) (lookups sd) (wrap64 (errors sd + 1)).

(** [NewServiceDiscovery]: a cache of thirty seconds. *)
Definition NewServiceDiscovery (a : A) : ServiceDiscovery := mkSD (Some a) (NewServiceCache (30 * second)) 0 0.

(** The ID is the name, a dash and [suffix], eight characters of a new UUID. *)
Definition registration (name suffix : string) (info : ServiceInfo) : AgentService :=
  mkService (name +:+ "-" +:+ suffix) name (i_Address info).

Definition RegisterService (suffix name : string) (info : option ServiceInfo) (sd : ServiceDiscovery) :
    res discovery_error () * ServiceDiscovery :=
  match consul sd with
  | None => (Ok (), sd)
  | Some a =>
      match info with
      | None => (Err EInvalidInfo, count_error sd)
      | Some info =>
          if String.eqb (i_Address info) "" then (Err EInvalidInfo, count_error sd)
          else
            match agent_register (registration name suffix info) a with
            | None => (Err ERegister, count_error sd)
            | Some a' => (Ok (), mkSD (Some a') (CacheClear (serviceCache sd)) (lookups sd) (errors sd))
            end
      end
  end.

Definition DeregisterService (name : string) (sd : ServiceDiscovery) : res discovery_error () * ServiceDiscovery :=
  match consul sd with
  | None => (Ok (), sd)
  | Some a =>
      match agent_deregister name a with
      | None => (Err EDeregister, count_error sd)
      | Some a' => (Ok (), mkSD (Some a') (CacheClear (serviceCache sd)) (lookups sd) (errors sd))
      end
  end.

Definition GetService (now : Z) (name : string) (sd : ServiceDiscovery) : res discovery_error AgentService * ServiceDiscovery :=
  match consul sd with
  | None => (Err ENoClient, count_error sd)
  | Some a =>
      let sd := mkSD (consul sd) (serviceCache sd) (wrap64 (lookups sd + 1)) (errors sd) in
      match CacheGet now name (serviceCache sd) with
      | (Some s, c) => (Ok s, with_cache c sd)
      | (None, c) =>
          match agent_services a with
          | None => (Err EServices, count_error (with_cache c sd))
          | Some m =>
              (match m !! name with Some s => Ok s | None => Err ENotFound end, with_cache (CacheUpdate now m c) sd)
          end
      end
  end.

Definition SetCacheTTL (t : Z) (sd : ServiceDiscovery) : ServiceDiscovery :=
  let c := serviceCache sd in
  with_cache (mkCache (services c) t (lastUpdate c) (hits c) (misses c) (updates c) (evictions c)) sd.
Definition ClearCache (sd : ServiceDiscovery) : ServiceDiscovery := with_cache (CacheClear (serviceCache sd)) sd.

(** ** Registered services cannot be found *)

Lemma str_app_ne (a : string) c s : a +:+ String c s ≠ a.
Proof. intros Heq. apply (f_equal String.length) in Heq. rewrite str_length_app in Heq. simpl in Heq. lia. Qed.

Lemma cleared_misses now name c : CacheGet now name (CacheClear c) =
  (None, mkCache ∅ (ttl c) zero_time (hits c) (wrap64 (misses c + 1)) (updates c) (wrap64 (evictions c + Z.of_nat (size (services c))))).
Proof. unfold CacheGet. cbn [services ttl lastUpdate CacheClear]. rewrite lookup_empty. by destruct (_ <? _)%Z. Qed.

(** A registered service is not found by its name.  After [RegisterService]
    has succeeded for a name, a [GetService] of that name at any time does not
    return it: services are looked up in the agent's map, which is by ID, and
    the ID it was registered with is the name with a suffix.  Unless the agent
    has another service whose ID is the name, the answer is "not found". *)
Theorem registered_not_found (now : Z) (name suffix : string) (info : option ServiceInfo) (sd sd' : ServiceDiscovery) (a : A) :
  consul sd = Some a → RegisterService suffix name info sd = (Ok (), sd') →
  (∀ a' m, consul sd' = Some a' → agent_services a' = Some m → services_of a !! name = None →
    (GetService now name sd').1 = Err ENotFound) ∧
  ∀ s, (GetService now name sd').1 = Ok s → ID s ≠ name +:+ "-" +:+ suffix ∨ services_of a !! name = Some s.
Proof.
  intros Ha Hr. unfold RegisterService in Hr. rewrite Ha in Hr. destruct info as [info|]; [|done].
  destruct (String.eqb (i_Address info) ""); [done|].
  destruct (agent_register (registration name suffix info) a) as [a1|] eqn:Er; [|done]. injection Hr as <-.
  pose proof (register_law _ _ _ Er) as Hl.
  assert (services_of a1 !! name = services_of a !! name) as Hname.
  { rewrite Hl, lookup_insert_ne; [done|]. apply str_app_ne. }
  unfold GetService. cbn [consul serviceCache]. rewrite cleared_misses. split.
  - intros a' m [= <-] Hm Hn. rewrite Hm. pose proof (services_law _ _ Hm) as ->. by rewrite Hname, Hn.
  - intros s. destruct (agent_services a1) as [m|] eqn:Hm; [|done]. pose proof (services_law _ _ Hm) as ->.
    rewrite Hname. cbn [fst]. destruct (services_of a !! name) as [s'|]; [|done]. intros [= ->]. by right.
Qed.

(** A registered service cannot be taken back by its name.  After
    [RegisterService] and then [DeregisterService] of the same name have both
    succeeded, the agent still has the service. *)
Theorem deregister_leaves_service (name suffix : string) (info : option ServiceInfo) (sd sd1 sd2 : ServiceDiscovery) (a a2 : A) :
  consul sd = Some a → RegisterService suffix name info sd = (Ok (), sd1) → DeregisterService name sd1 = (Ok (), sd2) →
  consul sd2 = Some a2 →
  ∃ s, services_of a2 !! (name +:+ "-" +:+ suffix) = Some s ∧ Service s = name.
Proof.
  intros Ha Hr Hd H2. unfold RegisterService in Hr. rewrite Ha in Hr. destruct info as [info|]; [|done].
  destruct (String.eqb (i_Address info) ""); [done|].
  destruct (agent_register (registration name suffix info) a) as [a1|] eqn:Er; [|done]. injection Hr as <-.
  unfold DeregisterService in Hd. cbn [consul] in Hd. destruct (agent_deregister name a1) as [a'|] eqn:Ed; [|done].
  injection Hd as <-. injection H2 as ->. exists (registration name suffix info). split; [|done].
  rewrite (deregister_law _ _ _ Ed), lookup_delete_ne by (intros Heq; symmetry in Heq; by apply str_app_ne in Heq).
  rewrite (register_law _ _ _ Er). apply lookup_insert_eq.
Qed.

(** ** The cache is fresh *)

(** The operations of a client and of the rest of the world, with the time of
    each; [GAgent] is any change of the agent by others. *)
Inductive op :=
| GGet (now : Z) (name : string) | GRegister (suffix name : string) (info : option ServiceInfo) | GDeregister (name : string)
| GTTL (t : Z) | GClear | GAgent (a : A).

Definition step (sd : ServiceDiscovery) (o : op) : ServiceDiscovery :=
  match o with
  | GGet now name => (GetService now name sd).2
  | GRegister suffix name info => (RegisterService suffix name info sd).2
  | GDeregister name => (DeregisterService name sd).2
  | GTTL t => SetCacheTTL t sd
  | GClear => ClearCache sd
  | GAgent a => mkSD (Some a) (serviceCache sd) (lookups sd) (errors sd)
  end.

(** What a [GetService] fetches from the agent, if it does. *)
Definition fetch (sd : ServiceDiscovery) (o : op) : list (Z * gmap string AgentService) :=
  match o, consul sd with
  | GGet now name, Some a =>
      match (CacheGet now name (serviceCache sd)).1, agent_services a with
      | None, Some m => [(now, m)]
      | _, _ => []
      end
  | _, _ => []
  end.

Fixpoint fetches (sd : ServiceDiscovery) (ops : list op) : list (Z * gmap string AgentService) :=
  match ops with [] => [] | o :: ops' => fetch sd o ++ fetches (step sd o) ops' end.

Definition cached (f : list (Z * gmap string AgentService)) (c : ServiceCache) : Prop :=
  services c = ∅ ∨ (lastUpdate c, services c) ∈ f.

Lemma cached_get f now name c : cached f c → cached f (CacheGet now name c).2.
Proof. unfold CacheGet. destruct (_ <? _)%Z; [done|]. by destruct (services c !! name). Qed.

Lemma cached_step f sd o : cached f (serviceCache sd) → cached (f ++ fetch sd o) (serviceCache (step sd o)).
Proof.
  intros Hc. assert (∀ f' c, cached f c → cached (f ++ f') c) as Hmono.
  { intros f' c [?|?]; [by left|right; apply elem_of_app; by left]. }
  destruct o as [now name|suffix name info|name|t| |a]; simpl.
  - unfold GetService. destruct (consul sd) as [a|]; [|by apply Hmono]. cbn [serviceCache].
    pose proof (cached_get f now name _ Hc) as Hg. destruct (CacheGet now name (serviceCache sd)) as [[s|] c]; simpl.
    + by apply Hmono.
    + destruct (agent_services a) as [m|]; [|by apply Hmono]. right. simpl. apply elem_of_app. right. left.
  - apply Hmono. unfold RegisterService. destruct (consul sd); [|done]. destruct info as [info|]; [|done].
    destruct (String.eqb (i_Address info) ""); [done|]. destruct (agent_register _ _); [by left|done].
  - apply Hmono. unfold DeregisterService. destruct (consul sd); [|done]. destruct (agent_deregister _ _); [by left|done].
  - by apply Hmono.
  - by left.
  - by apply Hmono.
Qed.

Lemma cached_run ops sd f : cached f (serviceCache sd) → cached (f ++ fetches sd ops) (serviceCache (foldl step sd ops)).
Proof.
  revert sd f. induction ops as [|o ops IH]; intros sd f Hc; [by rewrite app_nil_r|]. cbn [foldl fetches].
  rewrite app_assoc. by apply IH, cached_step.
Qed.

(** An answer is never older than the time to live.  In every sequence of
    look-ups, registrations, deregistrations, changes of the time to live,
    clearings and changes of the agent by others: a service that [GetService]
    returns is in the agent's map as it was fetched at that moment, or as an
    earlier [GetService] fetched it not longer ago than the time to live. *)
Theorem answers_are_fresh (a0 : A) (ops : list op) (now : Z) (name : string) (s : AgentService) :
  let sd := foldl step (NewServiceDiscovery a0) ops in
  (GetService now name sd).1 = Ok s →
  (∃ a m, consul sd = Some a ∧ agent_services a = Some m ∧ m !! name = Some s) ∨
  ∃ t m, (t, m) ∈ fetches (NewServiceDiscovery a0) ops ∧ m !! name = Some s ∧ (since t now ≤ ttl (serviceCache sd))%Z.
Proof.
  intros sd. pose proof (cached_run ops (NewServiceDiscovery a0) [] (or_introl eq_refl)) as Hc. fold sd in Hc.
  unfold GetService. destruct (consul sd) as [a|]; [|done]. unfold CacheGet. cbn [serviceCache].
  destruct (Z.ltb_spec (ttl (serviceCache sd)) (since (lastUpdate (serviceCache sd)) now)).
  - destruct (agent_services a) as [m|] eqn:Em; [|done]. simpl. destruct (m !! name) as [s'|] eqn:Es; [|done].
    intros [= ->]. left. eauto.
  - destruct (services (serviceCache sd) !! name) as [s'|] eqn:Es.
    + intros [= ->]. right. destruct Hc as [Hc|Hc]; [by rewrite Hc, lookup_empty in Es|]. eauto.
    + destruct (agent_services a) as [m|] eqn:Em; [|done]. simpl. destruct (m !! name) as [s'|] eqn:Es'; [|done].
      intros [= ->]. left. eauto.
Qed.

End Discovery.

(** ** At concrete inputs *)

(** An agent that never fails. *)
#[export] Program Instance map_agent : Consul (gmap string AgentService) := {|
  services_of m := m; agent_register r m := Some (<[ID r := r]> m); agent_deregister i m := Some (delete i m);
  agent_services m := Some m |}.
Next Obligation. by intros r a a' [= <-]. Qed.
Next Obligation. by intros i a a' [= <-]. Qed.
Next Obligation. by intros a m [= <-]. Qed.

Definition empty_agent : gmap string AgentService := ∅.
Definition demo_service : AgentService := mkService "user-1b4e28ba" "user" "10.0.0.1".
Definition demo_agent : gmap string AgentService := {["user-1b4e28ba" := demo_service]}.
Definition demo_registered : ServiceDiscovery :=
  (RegisterService "1b4e28ba" "user" (Some (mkInfo "10.0.0.1")) (NewServiceDiscovery empty_agent)).2.

Lemma registered_not_found_witness : (GetService 0 "user" demo_registered).1 = Err ENotFound.
Proof.
  refine (proj1 (registered_not_found 0 "user" "1b4e28ba" (Some (mkInfo "10.0.0.1")) (NewServiceDiscovery empty_agent)
    demo_registered empty_agent eq_refl eq_refl) demo_agent demo_agent _ _ _); vm_compute; reflexivity.
Defined.

Lemma deregister_leaves_service_witness :
  ∃ s, services_of demo_agent !! ("user" +:+ "-" +:+ "1b4e28ba") = Some s ∧ Service s = "user".
Proof.
  apply (deregister_leaves_service "user" "1b4e28ba" (Some (mkInfo "10.0.0.1")) (NewServiceDiscovery empty_agent)
    demo_registered (DeregisterService "user" demo_registered).2 empty_agent); vm_compute; reflexivity.
Defined.

Lemma answers_are_fresh_witness :
  let s := mkService "db" "db" "10.0.0.2" in
  let ops := [GAgent {["db" := s]}; GGet (100 * second) "db"; GAgent empty_agent] in
  let sd := foldl step (NewServiceDiscovery empty_agent) ops in
  (∃ a m, consul sd = Some a ∧ agent_services a = Some m ∧ m !! "db" = Some s) ∨
  ∃ t m, (t, m) ∈ fetches (NewServiceDiscovery empty_agent) ops ∧ m !! "db" = Some s ∧
    (since t (120 * second) ≤ ttl (serviceCache sd))%Z.
Proof.
  intros s ops sd. apply (answers_are_fresh empty_agent ops (120 * second) "db" s). vm_compute. reflexivity.
Defined.
