(* ===== verification/Sorting.v ===== *)
(** * Stable sorting and multi-field sorting

    [sort.SliceStable] and src/types/sorting.go.  The library sorts blocks of
    twenty elements by insertion and merges them stably; the model is insertion
    all through, which gives the same result for every comparison that is a
    strict weak order, and the same calls of the comparison up to twenty
    elements.  A comparison may panic ([None]). *)

From stdpp Require Import base tactics option list gmap strings numbers sorting.
From Stdlib Require Import ZArith OrdersEx Lia.
From S2P Require Import Prelude GoValue.

(** ** [sort.SliceStable] *)

Section Stable.
Context {A : Type}.

(** The prefix is kept last element first; [x] moves left while it is less. *)
Fixpoint sink (less : A → A → option bool) (x : A) (prefix : list A) : option (list A) :=
  match prefix with
  | [] => Some [x]
  | y :: prefix' =>
      match less x y with
      | None => None
      | Some true => cons y <$> sink less x prefix'
      | Some false => Some (x :: prefix)
      end
  end.

Fixpoint stable_loop (less : A → A → option bool) (l prefix : list A) : option (list A) :=
  match l with
  | [] => Some (reverse prefix)
  | x :: l' => match sink less x prefix with Some p => stable_loop less l' p | None => None end
  end.

Definition SliceStable (less : A → A → option bool) (l : list A) : option (list A) := stable_loop less l [].

(** A strict weak order. *)
Record weak_order (lt : A → A → bool) : Prop := {
  wo_irrefl x : lt x x = false;
  wo_asym x y : lt x y = true → lt y x = false;
  wo_trans x y z : lt y x = false → lt z y = false → lt z x = false }.

(** [x] may come before [y]. *)
Definition may_precede (lt : A → A → bool) (x y : A) : Prop := lt y x = false.
Definition equivalent (lt : A → A → bool) (x y : A) : bool := negb (lt x y) && negb (lt y x).

Context (less : A → A → option bool) (lt : A → A → bool).
Hypothesis Hlt : weak_order lt.

(** [p] is a prefix, last first: no element is less than one after it here. *)
Definition down (p : list A) : Prop := StronglySorted (λ x y, lt x y = false) p.

Lemma sink_spec x p : (∀ y, y ∈ p → less x y = Some (lt x y)) → down p →
  ∃ p', sink less x p = Some p' ∧ p' ≡ₚ x :: p ∧ down p' ∧
    ∀ z, filter (λ y, equivalent lt z y = true) p' = filter (λ y, equivalent lt z y = true) (x :: p).
Proof.
  intros Hless Hp. induction Hp as [|y p Hp IH Hy].
  - exists [x]. split_and!; [done..|by repeat constructor|done].
  - cbn [sink]. rewrite Hless by left. destruct (lt x y) eqn:E.
    + destruct IH as (p' & -> & Hperm & Hd & Hf); [intros z Hz; apply Hless; by right|]. exists (y :: p').
      split_and!; [done|rewrite Hperm; apply perm_swap| |].
      * constructor; [done|]. rewrite list.Forall_forall in Hy |- *. intros z Hz. rewrite Hperm in Hz.
        apply elem_of_cons in Hz as [->|Hz]; [by apply (wo_asym lt Hlt)|by apply Hy].
      * intros z. rewrite filter_cons, Hf, !filter_cons. repeat case_decide; try done.
        exfalso. unfold equivalent in *. rewrite !andb_true_iff, !negb_true_iff in *.
        assert (lt x y = false); [|congruence]. eapply (wo_trans lt Hlt y z x); tauto.
    + exists (x :: y :: p). split_and!; [done..| |done]. constructor; [by constructor|].
      constructor; [done|]. rewrite list.Forall_forall in Hy |- *. intros z Hz.
      apply (wo_trans lt Hlt z y x); [by apply Hy|done].
Qed.

Lemma equivalent_reverse z l :
  filter (λ y, equivalent lt z y = true) (reverse l) = reverse (filter (λ y, equivalent lt z y = true) l).
Proof.
  induction l as [|x l IH]; [done|]. rewrite reverse_cons, list.filter_app, IH, !filter_cons, filter_nil.
  case_decide; [by rewrite reverse_cons|by rewrite app_nil_r].
Qed.

Lemma stable_loop_spec l p : (∀ x y, x ∈ l → y ∈ p ++ l → less x y = Some (lt x y)) → down p →
  ∃ out, stable_loop less l p = Some out ∧ out ≡ₚ reverse p ++ l ∧ StronglySorted (may_precede lt) out ∧
    ∀ z, filter (λ y, equivalent lt z y = true) out =
      filter (λ y, equivalent lt z y = true) (reverse p ++ l).
Proof.
  revert p. induction l as [|x l IH]; intros p Hless Hp; cbn [stable_loop].
  - exists (reverse p). rewrite app_nil_r. split_and!; [done..| |done]. clear -Hp.
    induction Hp as [|y p Hp IH Hy]; [constructor|]. rewrite reverse_cons.
    assert (Forall (λ x, lt y x = false) (reverse p)) as Hy' by (by rewrite reverse_Permutation). clear Hp Hy.
    induction IH as [|z r Hz IHr Hzr]; [by repeat constructor|]. inversion Hy'; subst. cbn [app]. constructor; [by apply IHr|].
    apply list.Forall_app. split; [done|]. by repeat constructor.
  - destruct (sink_spec x p) as (p' & -> & Hperm & Hd & Hf); [|done|].
    { intros y Hy. apply Hless; [left|]. apply elem_of_app. by left. }
    destruct (IH p') as (out & -> & Hout & Hs & Hfo); [|done|].
    { intros a b Ha Hb. apply Hless; [by right|]. rewrite Hperm in Hb. rewrite elem_of_app in Hb |- *.
      rewrite elem_of_cons in Hb |- *. tauto. }
    exists out. split_and!; [done| |done|].
    + rewrite Hout, !reverse_Permutation, Hperm. by rewrite <- Permutation_middle.
    + intros z. rewrite Hfo, !list.filter_app, !equivalent_reverse, Hf, !filter_cons.
      case_decide; [|done]. by rewrite reverse_cons, <- app_assoc.
Qed.

(** A stable sort by a strict weak order. *)
Lemma SliceStable_spec l : (∀ x y, x ∈ l → y ∈ l → less x y = Some (lt x y)) →
  ∃ out, SliceStable less l = Some out ∧ out ≡ₚ l ∧ StronglySorted (may_precede lt) out ∧
    ∀ z, filter (λ y, equivalent lt z y = true) out = filter (λ y, equivalent lt z y = true) l.
Proof. intros Hless. apply (stable_loop_spec l []); [done|constructor]. Qed.

(** A sorted list stays as it is. *)
Lemma stable_loop_sorted l p : (∀ x y, x ∈ l → y ∈ p ++ l → less x y = Some (lt x y)) →
  StronglySorted (may_precede lt) (reverse p ++ l) → stable_loop less l p = Some (reverse p ++ l).
Proof.
  revert p. induction l as [|x l IH]; intros p Hless Hs; cbn [stable_loop]; [by rewrite app_nil_r|].
  assert (sink less x p = Some (x :: p)) as ->.
  { destruct p as [|y p]; [done|]. cbn [sink]. rewrite Hless; [|left|apply elem_of_app; left; left].
    rewrite reverse_cons, <- app_assoc in Hs. cbn [app] in Hs.
    assert (lt x y = false) as ->; [|done]. clear -Hs. induction (reverse p) as [|z r IHr].
    - inversion Hs as [|? ? _ Hf]; subst. by inversion Hf.
    - apply IHr. by inversion Hs. }
  rewrite IH.
  - by rewrite reverse_cons, <- app_assoc.
  - intros a b Ha Hb. apply Hless; [by right|]. rewrite elem_of_app in Hb |- *. rewrite elem_of_cons in Hb |- *. tauto.
  - by rewrite reverse_cons, <- app_assoc.
Qed.

Lemma SliceStable_sorted l : (∀ x y, x ∈ l → y ∈ l → less x y = Some (lt x y)) →
  StronglySorted (may_precede lt) l → SliceStable less l = Some l.
Proof. intros Hless Hs. apply (stable_loop_sorted l []); done. Qed.

End Stable.

(** ** Sorting by several fields *)

Definition Ascending : string := "asc".
Definition Descending : string := "desc".

Record Criterion := mkCriterion { Field : string; Order : string }.

Abbreviation row := (gmap string Value).

Definition CompareInt (a b : Z) : Z := if (a <? b)%Z then (-1)%Z else if (b <? a)%Z then 1%Z else 0%Z.
Definition CompareString (a b : string) : Z :=
  match String.compare a b with Lt => (-1)%Z | Gt => 1%Z | Eq => 0%Z end.
Definition CompareValues (a b : Value) : Z :=
  match a, b with
  | VInt KInt x, VInt KInt y => CompareInt x y
  | VString x, VString y => CompareString x y
  | _, _ => 0%Z
  end.

Section Sort.
Context (Getter : row → string → option Value).

(** The comparison by one criterion, 0 when the getter fails. *)
Definition criterion_cmp (c : Criterion) (x y : row) : Z :=
  match Getter x (Field c), Getter y (Field c) with
  | Some a, Some b => if String.eqb (Order c) Descending then (- CompareValues a b)%Z else CompareValues a b
  | _, _ => 0%Z
  end.

(** The first criterion that tells the rows apart decides. *)
Fixpoint row_less (criteria : list Criterion) (x y : row) : bool :=
  match criteria with
  | [] => false
  | c :: cs => if (criterion_cmp c x y =? 0)%Z then row_less cs x y else (criterion_cmp c x y <? 0)%Z
  end.
End Sort.

(** [DynamicSorter.Sort]. *)
Definition Sort (Getter : option (row → string → option Value)) (criteria : list Criterion) (data : list row) :
    res string (list row) :=
  match Getter with
  | None => Err "getter function is not defined"
  | Some g => match SliceStable (λ x y, Some (row_less g criteria x y)) data with Some out => Ok out | None => Panic end
  end.

(** *** Comparisons *)

Record total_cmp {A} (f : A → A → Z) : Prop := {
  tc_anti x y : f y x = (- f x y)%Z;
  tc_trans x y z : (f x y ≤ 0 → f y z ≤ 0 → f x z ≤ 0)%Z }.

Lemma cmp_int_total {A} (key : A → Z) : total_cmp (λ x y, CompareInt (key x) (key y)).
Proof.
  unfold CompareInt. constructor; intros; repeat match goal with |- context [(?a <? ?b)%Z] => destruct (Z.ltb_spec a b) end;
    repeat match goal with H : context [(?a <? ?b)%Z] |- _ => destruct (Z.ltb_spec a b) end; lia.
Qed.

Lemma compare_string_anti x y : CompareString y x = (- CompareString x y)%Z.
Proof. unfold CompareString. rewrite String.compare_antisym. by destruct (String.compare x y). Qed.

Lemma cmp_string_total {A} (key : A → string) : total_cmp (λ x y, CompareString (key x) (key y)).
Proof.
  constructor; [intros; apply compare_string_anti|]. intros x y z. unfold CompareString.
  pose proof (@StrictOrder_Transitive _ _ OrdersEx.String_as_OT.lt_strorder (key x) (key y) (key z)) as Ht.
  unfold OrdersEx.String_as_OT.lt in Ht.
  destruct (String.compare (key x) (key y)) eqn:E1; try lia; destruct (String.compare (key y) (key z)) eqn:E2; try lia.
  - apply String.compare_eq_iff in E1 as ->. by rewrite E2.
  - apply String.compare_eq_iff in E1 as ->. by rewrite E2.
  - apply String.compare_eq_iff in E2 as <-. by rewrite E1.
  - change (String.compare (key x) (key y) = Lt → String.compare (key y) (key z) = Lt → String.compare (key x) (key z) = Lt) in Ht.
    by rewrite Ht.
Qed.

Lemma cmp_zero_total {A} : total_cmp (λ _ _ : A, 0%Z).
Proof. by constructor. Qed.

Lemma cmp_opp_total {A} (f : A → A → Z) : total_cmp f → total_cmp (λ x y, - f x y)%Z.
Proof.
  intros [Ha Ht]. constructor; [intros x y; by rewrite Ha|]. intros x y z Hxy Hyz.
  pose proof (Ht z y x) as H. rewrite (Ha y z), (Ha x y), (Ha x z) in H. lia.
Qed.

(** One comparison after another. *)
Fixpoint lex {A} (fs : list (A → A → Z)) (x y : A) : Z :=
  match fs with [] => 0%Z | f :: fs' => if (f x y =? 0)%Z then lex fs' x y else f x y end.

Lemma lex_total {A} (fs : list (A → A → Z)) : Forall total_cmp fs → total_cmp (lex fs).
Proof.
  induction 1 as [|f fs [Ha Ht] Hfs [IHa IHt]]; [apply cmp_zero_total|]. constructor; cbn [lex].
  - intros x y. rewrite Ha. destruct (Z.eqb_spec (f x y) 0), (Z.eqb_spec (- f x y) 0); try lia. by rewrite IHa.
  - intros x y z. pose proof (Ht x y z) as H1. pose proof (Ht y z x) as H2. pose proof (Ht z x y) as H3.
    rewrite (Ha x y), (Ha x z), (Ha y z) in *. specialize (IHt x y z).
    destruct (Z.eqb_spec (f x y) 0), (Z.eqb_spec (f y z) 0), (Z.eqb_spec (f x z) 0); try lia; try tauto.
Qed.

Lemma total_weak {A} (f : A → A → Z) : total_cmp f → weak_order (λ x y, (f x y <? 0)%Z).
Proof.
  intros [Ha Ht]. constructor.
  - intros x. pose proof (Ha x x). apply Z.ltb_ge. lia.
  - intros x y Hxy%Z.ltb_lt. apply Z.ltb_ge. rewrite Ha. lia.
  - intros x y z H1%Z.ltb_ge H2%Z.ltb_ge. apply Z.ltb_ge. rewrite (Ha x z).
    pose proof (Ht x y z). rewrite (Ha x y) in H1. rewrite (Ha y z) in H2. lia.
Qed.

(** A field that is an integer in all rows, or a string in all, or missing in
    all. *)
Definition uniform (g : row → string → option Value) (data : list row) (c : Criterion) : Prop :=
  (∀ r, r ∈ data → ∃ n, g r (Field c) = Some (VInt KInt n)) ∨
  (∀ r, r ∈ data → ∃ s, g r (Field c) = Some (VString s)) ∨
  (∀ r, r ∈ data → g r (Field c) = None).

Lemma uniform_cmp g data c : uniform g data c →
  ∃ f, total_cmp f ∧ ∀ x y, x ∈ data → y ∈ data → criterion_cmp g c x y = f x y.
Proof.
  assert (∀ f : row → row → Z, total_cmp f → total_cmp (λ x y, if String.eqb (Order c) Descending then (- f x y)%Z else f x y)) as Hdir.
  { intros f Hf. destruct (String.eqb (Order c) Descending); [by apply cmp_opp_total|done]. }
  intros [H|[H|H]].
  - eexists. split; [apply Hdir, (cmp_int_total (λ r, match g r (Field c) with Some (VInt _ n) => n | _ => 0%Z end))|].
    intros x y [n Hx]%H [m Hy]%H. unfold criterion_cmp. by rewrite Hx, Hy.
  - eexists. split; [apply Hdir, (cmp_string_total (λ r, match g r (Field c) with Some (VString s) => s | _ => ""%string end))|].
    intros x y [n Hx]%H [m Hy]%H. unfold criterion_cmp. by rewrite Hx, Hy.
  - exists (λ _ _, 0%Z). split; [apply cmp_zero_total|]. intros x y Hx%H Hy%H. unfold criterion_cmp. by rewrite Hx.
Qed.

Lemma row_less_lex g data cs : Forall (uniform g data) cs →
  ∃ fs, Forall total_cmp fs ∧ ∀ x y, x ∈ data → y ∈ data → row_less g cs x y = (lex fs x y <? 0)%Z.
Proof.
  induction 1 as [|c cs Hc Hcs (fs & Hfs & IH)]; [by exists []|]. destruct (uniform_cmp g data c Hc) as (f & Hf & Heq).
  exists (f :: fs). split; [by constructor|]. intros x y Hx Hy. cbn [row_less lex]. rewrite Heq, IH by done.
  by destruct (f x y =? 0)%Z.
Qed.

Lemma sorted_impl_in {A} (R S : A → A → Prop) l :
  (∀ x y, x ∈ l → y ∈ l → R x y → S x y) → StronglySorted R l → StronglySorted S l.
Proof.
  intros HRS Hs. induction Hs as [|x l Hs IH Hx]; constructor.
  - apply IH. intros a b Ha Hb. apply HRS; by right.
  - rewrite list.Forall_forall in Hx |- *. intros y Hy. apply HRS; [left|by right|by apply Hx].
Qed.

(** Sorting by several fields.  If each field is an integer in every row, a
    string in every row, or missing in every row, [Sort] succeeds, and its
    result is the rows in another order in which no row is less, by the first
    criterion that tells them apart, than one before it; rows that no criterion
    tells apart stay in their order. *)
Theorem sort_correct (g : row → string → option Value) (criteria : list Criterion) (data : list row) :
  Forall (uniform g data) criteria →
  ∃ out, Sort (Some g) criteria data = Ok out ∧ out ≡ₚ data ∧
    StronglySorted (λ x y, row_less g criteria y x = false) out ∧
    ∀ z, z ∈ data →
      filter (λ y, negb (row_less g criteria z y) && negb (row_less g criteria y z) = true) out =
      filter (λ y, negb (row_less g criteria z y) && negb (row_less g criteria y z) = true) data.
Proof.
  intros Hu. destruct (row_less_lex g data criteria Hu) as (fs & Hfs & Heq).
  pose proof (total_weak _ (lex_total fs Hfs)) as Hw.
  destruct (SliceStable_spec (λ x y, Some (row_less g criteria x y)) _ Hw data) as (out & Ho & Hp & Hs & Hst).
  { intros x y Hx Hy. by rewrite Heq. }
  exists out. unfold Sort. rewrite Ho. split_and!; [done..| |].
  - eapply sorted_impl_in; [|exact Hs]. intros x y Hx Hy. rewrite Hp in Hx, Hy. unfold may_precede. by rewrite Heq.
  - intros z Hz. specialize (Hst z). unfold equivalent in Hst.
    rewrite (list_filter_ext_elem _ (λ y, negb (lex fs z y <? 0)%Z && negb (lex fs y z <? 0)%Z = true) out)
      by (intros y Hy; rewrite Hp in Hy; by rewrite !Heq).
    rewrite (list_filter_ext_elem _ (λ y, negb (lex fs z y <? 0)%Z && negb (lex fs y z <? 0)%Z = true) data)
      by (intros y Hy; by rewrite !Heq). done.
Qed.

(** *** At concrete inputs *)

Definition demo_row (n : Z) (s : string) : row := {["age" := VInt KInt n; "name" := VString s]}.
Definition lookup_getter (r : row) (f : string) : option Value := r !! f.

Lemma sort_correct_witness :
  let criteria := [mkCriterion "age" Descending; mkCriterion "name" Ascending] in
  let data := [demo_row 1 "b"; demo_row 2 "c"; demo_row 1 "a"] in
  Sort (Some lookup_getter) criteria data = Ok [demo_row 2 "c"; demo_row 1 "a"; demo_row 1 "b"] ∧
  ∃ out, Sort (Some lookup_getter) criteria data = Ok out ∧ out ≡ₚ data ∧
    StronglySorted (λ x y, row_less lookup_getter criteria y x = false) out ∧
    ∀ z, z ∈ data →
      filter (λ y, negb (row_less lookup_getter criteria z y) && negb (row_less lookup_getter criteria y z) = true) out =
      filter (λ y, negb (row_less lookup_getter criteria z y) && negb (row_less lookup_getter criteria y z) = true) data.
Proof.
  intros criteria data. split; [vm_compute; reflexivity|].
  apply (sort_correct lookup_getter criteria data). constructor; [left|constructor; [right; left|constructor]];
    intros r Hr; unfold data in Hr; rewrite !elem_of_cons, elem_of_nil in Hr;
    destruct Hr as [->|[->|[->|[]]]]; eexists; vm_compute; reflexivity.
Defined.

(** Rows whose field has values of two types are not sorted: an integer and a
    string count as equal. *)
Example mixed_types_unsorted :
  let r v := {["k" := v]} : row in
  Sort (Some lookup_getter) [mkCriterion "k" Ascending] [r (VInt KInt 3); r (VString "a"); r (VInt KInt 1)] =
  Ok [r (VInt KInt 3); r (VString "a"); r (VInt KInt 1)].
Proof. vm_compute. reflexivity. Qed.
