(* ===== verification/Trees.v ===== *)
(** * Trees from flat lists

    Models src/types/tree.go.  Nodes are shared by pointer: a heap maps
    addresses to nodes, and the children of a node are addresses.  The order in
    which Go ranges over the map of nodes is an argument. *)

From stdpp Require Import base tactics option list gmap strings numbers sorting.
From Stdlib Require Import ZArith Lia.
From S2P Require Import Prelude Float64 GoValue Sorting.

(** ** Data *)

Record TreeNode := mkTree { GetID : string; GetParentID : string; GetChildren : list nat; GetSortValue : string → Value }.

Abbreviation theap := (gmap nat TreeNode).

Definition SetChildren (cs : list nat) (n : TreeNode) : TreeNode := mkTree (GetID n) (GetParentID n) cs (GetSortValue n).

(** ** Operations *)

(** [compareSortValues]: a type assertion that fails panics. *)
Definition compareSortValues (a b : Value) : option bool :=
  match a with
  | VInt KInt x => match b with VInt KInt y => Some (x <? y)%Z | _ => None end
  | VInt KInt64 x => match b with VInt KInt64 y => Some (x <? y)%Z | _ => None end
  | VFloat64 x => match b with VFloat64 y => Some (f_ltb x y) | _ => None end
  | VString x => match b with VString y => Some (CompareString x y <? 0)%Z | _ => None end
  | _ => Some false
  end.

Definition node_less (sortField : string) (h : theap) (i j : nat) : option bool :=
  match h !! i, h !! j with
  | Some a, Some b => compareSortValues (GetSortValue a sortField) (GetSortValue b sortField)
  | _, _ => None
  end.

Definition id_of (h : theap) (p : nat) : string := match h !! p with Some n => GetID n | None => "" end.
Definition parent_of (h : theap) (p : nat) : string := match h !! p with Some n => GetParentID n | None => "" end.

Definition add_node (h : theap) (m : gmap string nat) (p : nat) : gmap string nat := <[id_of h p := p]> m.
Definition node_map (h : theap) (nodes : list nat) : gmap string nat := foldl (add_node h) ∅ nodes.

(** The loop over the nodes: a root, or a child of its parent. *)
Definition attach (m : gmap string nat) (st : list nat * theap) (p : nat) : list nat * theap :=
  let '(roots, h) := st in
  if String.eqb (parent_of h p) "" then (roots ++ [p], h)
  else
    match m !! parent_of h p with
    | Some q => (roots, alter (λ n, SetChildren (GetChildren n ++ [p]) n) q h)
    | None => (roots ++ [p], h)
    end.

Section SortChildren.
Context (sortField : string).

Fixpoint sort_each (f : theap → nat → res () theap) (h : theap) (cs : list nat) : res () theap :=
  match cs with
  | [] => Ok h
  | c :: cs' => match f h c with Ok h' => sort_each f h' cs' | e => e end
  end.

Fixpoint sortChildrenGeneric (fuel : nat) (h : theap) (p : nat) : res () theap :=
  match fuel with
  | O => NoFuel
  | S f =>
      match h !! p with
      | None => Panic
      | Some n =>
          match SliceStable (node_less sortField h) (GetChildren n) with
          | None => Panic
          | Some cs => sort_each (sortChildrenGeneric f) (<[p := SetChildren cs n]> h) cs
          end
      end
  end.
End SortChildren.

(** [BuildTree]; [order]: the nodes of the map in the order of its iteration. *)
Definition BuildTree (order : list nat) (fuel : nat) (sortField : string) (h : theap) (nodes : list nat) :
    res () (list nat * theap) :=
  match SliceStable (node_less sortField h) nodes with
  | None => Panic
  | Some nodes =>
      let '(roots, h) := foldl (attach (node_map h nodes)) ([], h) nodes in
      match sort_each (sortChildrenGeneric sortField fuel) h order with
      | Ok h' => Ok (roots, h')
      | Err e => Err e
      | Panic => Panic
      | NoFuel => NoFuel
      end
  end.

(** ** The forest *)

(** [q] is to be a child of [p]. *)
Definition child_of (h : theap) (p q : nat) : Prop := parent_of h q ≠ "" ∧ parent_of h q = id_of h p.
#[global] Instance child_of_dec h p q : Decision (child_of h p q).
Proof. unfold child_of. apply _. Defined.

Section Forest.
Context (sortField : string) (h : theap) (nodes : list nat) (lt : nat → nat → bool).
Hypothesis Hlt : weak_order lt.
Hypothesis Hless : ∀ x y, x ∈ nodes → y ∈ nodes → node_less sortField h x y = Some (lt x y).
Hypothesis Hnd : NoDup (id_of h <$> nodes).
Hypothesis Hin : ∀ p, p ∈ nodes → ∃ n, h !! p = Some n ∧ GetChildren n = [].

Lemma node_id_inj p q : p ∈ nodes → q ∈ nodes → id_of h p = id_of h q → p = q.
Proof. by apply NoDup_fmap_elem. Qed.

Lemma node_map_fold l (m : gmap string nat) k p :
  foldl (add_node h) m l !! k = Some p → p ∈ l ∧ id_of h p = k ∨ m !! k = Some p.
Proof.
  revert m. induction l as [|x l IH]; intros m; [by right|]. cbn [foldl]. intros [[? ?]|Hm]%IH; [left; split; [by right|done]|].
  unfold add_node in Hm. destruct (decide (id_of h x = k)) as [<-|Hk]; [|rewrite lookup_insert_ne in Hm by done; by right].
  rewrite lookup_insert_eq in Hm. injection Hm as ->. left. split; [left|done].
Qed.

Lemma node_map_None l (m : gmap string nat) k : foldl (add_node h) m l !! k = None ↔ m !! k = None ∧ ∀ p, p ∈ l → id_of h p ≠ k.
Proof.
  revert m. induction l as [|x l IH]; intros m; cbn [foldl].
  - split; [intros ?; split; [done|intros p Hp; by apply not_elem_of_nil in Hp]|by intros [? _]].
  - rewrite IH. unfold add_node. rewrite lookup_insert_None. split.
    + intros [[Hm Hx] Hl]. split; [done|]. intros p [->|Hp]%elem_of_cons; [done|by apply Hl].
    + intros [Hm Hl]. split_and!; [done|apply Hl; left|]. intros p Hp. apply Hl. by right.
Qed.

(** A key of the map is the node with that ID. *)
Lemma node_map_spec l k p : l ≡ₚ nodes → node_map h l !! k = Some p ↔ p ∈ nodes ∧ id_of h p = k.
Proof.
  intros Hl. unfold node_map. split.
  - intros [[Hp Hk]|Hn]%node_map_fold; [by rewrite Hl in Hp|by rewrite lookup_empty in Hn].
  - intros [Hp Hk]. destruct (foldl (add_node h) ∅ l !! k) as [q|] eqn:E.
    + f_equal. apply node_map_fold in E as [[Hq Hqk]|Hn]; [|by rewrite lookup_empty in Hn]. rewrite Hl in Hq.
      apply node_id_inj; [done..|congruence].
    + apply node_map_None in E as [_ E]. exfalso. apply (E p); [by rewrite Hl|done].
Qed.

(** The heap while nodes are attached: only children differ. *)
Definition with_children (done_ : list nat) : theap :=
  map_imap (λ p n, Some (if decide (p ∈ nodes) then SetChildren (filter (child_of h p) done_) n else n)) h.

Lemma with_children_lookup l p :
  with_children l !! p = (λ n, if decide (p ∈ nodes) then SetChildren (filter (child_of h p) l) n else n) <$> h !! p.
Proof. unfold with_children. rewrite map_lookup_imap. by destruct (h !! p). Qed.

Lemma with_children_parent l p : parent_of (with_children l) p = parent_of h p.
Proof. unfold parent_of. rewrite with_children_lookup. destruct (h !! p); simpl; [|done]. by case_decide. Qed.

Lemma with_children_less l x y : node_less sortField (with_children l) x y = node_less sortField h x y.
Proof.
  unfold node_less. rewrite !with_children_lookup. destruct (h !! x), (h !! y); simpl; try done; by repeat case_decide.
Qed.

Lemma with_children_nil : with_children [] = h.
Proof.
  apply map_eq. intros p. rewrite with_children_lookup. destruct (h !! p) as [n|] eqn:E; simpl; [|done].
  case_decide as Hp; [|done]. destruct (Hin p Hp) as (n' & Hn & Hc). rewrite E in Hn. injection Hn as <-.
  unfold SetChildren. rewrite filter_nil. destruct n. simpl in *. by subst.
Qed.

Definition is_root (p : nat) : Prop := parent_of h p = "" ∨ ∀ q, q ∈ nodes → id_of h q ≠ parent_of h p.
#[global] Instance is_root_dec p : Decision (is_root p).
Proof.
  unfold is_root. refine (cast_if (decide (parent_of h p = "" ∨ Forall (λ q, id_of h q ≠ parent_of h p) nodes))).
  all: rewrite list.Forall_forall in *; done.
Defined.

Lemma with_children_snoc l p : p ∈ nodes →
  with_children (l ++ [p]) =
  match node_map h nodes !! parent_of h p with
  | Some q => if String.eqb (parent_of h p) "" then with_children l
      else alter (λ n, SetChildren (GetChildren n ++ [p]) n) q (with_children l)
  | None => with_children l
  end.
Proof.
  intros Hp. assert (∀ q, q ∈ nodes → (child_of h q p ↔ parent_of h p ≠ "" ∧ node_map h nodes !! parent_of h p = Some q)) as Hc.
  { intros q Hq. unfold child_of. rewrite node_map_spec by done. split; [intros [? ?]|intros (? & ? & ?)]; split; try done; by split. }
  assert (∀ q, filter (child_of h q) (l ++ [p]) = filter (child_of h q) l ++ if decide (child_of h q p) then [p] else []) as Hf.
  { intros q. rewrite list.filter_app, filter_cons, filter_nil. by case_decide. }
  apply map_eq. intros x. rewrite with_children_lookup.
  destruct (node_map h nodes !! parent_of h p) as [q|] eqn:Em.
  - apply node_map_spec in Em as Hq; [|done]. destruct Hq as [Hq Hqid].
    destruct (String.eqb_spec (parent_of h p) "") as [He|He].
    + rewrite with_children_lookup. destruct (h !! x) as [n|]; simpl; [|done]. f_equal. case_decide as Hx; [|done].
      rewrite Hf, decide_False by (intros [? _]; done). by rewrite app_nil_r.
    + destruct (decide (q = x)) as [<-|Hne].
      * rewrite lookup_alter_eq, with_children_lookup. destruct (h !! q) as [n|]; simpl; [|done]. f_equal.
        rewrite !decide_True by done. rewrite Hf, decide_True by (by apply Hc). done.
      * rewrite lookup_alter_ne, with_children_lookup by done. destruct (h !! x) as [n|]; simpl; [|done]. f_equal.
        case_decide as Hx; [|done]. rewrite Hf, decide_False; [by rewrite app_nil_r|].
        intros [_ Hcc]%Hc; [|done]. congruence.
  - rewrite with_children_lookup. destruct (h !! x) as [n|]; simpl; [|done]. f_equal. case_decide as Hx; [|done].
    rewrite Hf, decide_False; [by rewrite app_nil_r|]. intros [_ Hcc]%Hc; [|done]. congruence.
Qed.

Lemma attach_fold l done_ roots m : (∀ p, p ∈ l → p ∈ nodes) → (∀ k, m !! k = node_map h nodes !! k) →
  foldl (attach m) (roots, with_children done_) l = (roots ++ filter is_root l, with_children (done_ ++ l)).
Proof.
  intros Hl Hm. revert done_ roots. induction l as [|p l IH]; intros done_ roots; [by rewrite !app_nil_r|].
  cbn [foldl]. unfold attach at 2. rewrite with_children_parent.
  assert (p ∈ nodes) as Hp by (apply Hl; left).
  pose proof (with_children_snoc done_ p Hp) as Hs. rewrite Hm.
  rewrite filter_cons. replace (done_ ++ p :: l) with ((done_ ++ [p]) ++ l) by (by rewrite <- app_assoc).
  destruct (String.eqb_spec (parent_of h p) "") as [He|He].
  - rewrite decide_True by (by left). replace (with_children done_) with (with_children (done_ ++ [p])).
    + rewrite IH by (intros q Hq; apply Hl; by right). by rewrite <- app_assoc.
    + rewrite Hs. by destruct (node_map h nodes !! parent_of h p).
  - destruct (node_map h nodes !! parent_of h p) as [q|] eqn:Em.
    + rewrite <- Hs. rewrite decide_False.
      * rewrite IH by (intros x Hx; apply Hl; by right). done.
      * apply node_map_spec in Em as [Hq Hid]; [|done]. intros [|Hno]; [done|]. by apply (Hno q).
    + rewrite decide_True.
      * rewrite <- Hs. rewrite IH by (intros x Hx; apply Hl; by right). by rewrite <- app_assoc.
      * right. intros q Hq Hid. assert (node_map h nodes !! parent_of h p = Some q) as Hx; [|congruence].
        by apply node_map_spec.
Qed.

(** The phase that sorts the children changes nothing: they are attached in
    order. *)
Context (sorted : list nat).
Hypothesis Hperm : sorted ≡ₚ nodes.
Hypothesis Hsorted : StronglySorted (may_precede lt) sorted.

Lemma sorted_filter {A} (R : A → A → Prop) (P : A → Prop) `{!∀ x, Decision (P x)} l :
  StronglySorted R l → StronglySorted R (filter P l).
Proof.
  induction 1 as [|x l Hl IH Hx]; [constructor|]. rewrite filter_cons. case_decide; [|done]. constructor; [done|].
  rewrite list.Forall_forall in Hx |- *. intros y [_ Hy]%list_elem_of_filter. by apply Hx.
Qed.

Lemma sort_each_same f g cs : (∀ c, c ∈ cs → f g c = Ok g) → sort_each f g cs = Ok g.
Proof.
  induction cs as [|c cs IH]; intros Hc; [done|]. cbn [sort_each]. rewrite Hc by left. apply IH. intros x Hx. apply Hc. by right.
Qed.

Lemma sort_each_stuck f g cs : (∀ c, c ∈ cs → f g c = Ok g ∨ f g c = NoFuel) → (∃ c, c ∈ cs ∧ f g c = NoFuel) →
  sort_each f g cs = NoFuel.
Proof.
  induction cs as [|c cs IH]; intros Hc (x & Hx & Hf); [by apply not_elem_of_nil in Hx|]. cbn [sort_each].
  destruct (Hc c) as [E|E]; [left|rewrite E|by rewrite E].
  apply IH; [intros y Hy; apply Hc; by right|]. apply elem_of_cons in Hx as [->|Hx]; [congruence|eauto].
Qed.

Lemma children_step fuel p : p ∈ nodes →
  sortChildrenGeneric sortField (S fuel) (with_children sorted) p =
  sort_each (sortChildrenGeneric sortField fuel) (with_children sorted) (filter (child_of h p) sorted).
Proof.
  intros Hp. destruct (Hin p Hp) as (n & Hn & _). cbn [sortChildrenGeneric].
  assert (with_children sorted !! p = Some (SetChildren (filter (child_of h p) sorted) n)) as E.
  { by rewrite with_children_lookup, Hn; simpl; rewrite decide_True. }
  rewrite E. cbn [GetChildren SetChildren].
  rewrite (SliceStable_sorted _ lt).
  - by rewrite insert_id.
  - intros x y [_ Hx]%list_elem_of_filter [_ Hy]%list_elem_of_filter. rewrite Hperm in Hx, Hy.
    rewrite with_children_less. by apply Hless.
  - by apply sorted_filter.
Qed.

Lemma sort_keeps fuel p : p ∈ nodes →
  sortChildrenGeneric sortField fuel (with_children sorted) p = Ok (with_children sorted) ∨
  sortChildrenGeneric sortField fuel (with_children sorted) p = NoFuel.
Proof.
  revert p. induction fuel as [|fuel IH]; intros p Hp; [by right|]. rewrite children_step by done.
  assert (∀ c, c ∈ filter (child_of h p) sorted → c ∈ nodes) as Hc.
  { intros c [_ Hc]%list_elem_of_filter. by rewrite Hperm in Hc. }
  destruct (decide (Forall (λ c, is_Some (match sortChildrenGeneric sortField fuel (with_children sorted) c with Ok _ => Some () | _ => None end))
    (filter (child_of h p) sorted))) as [Hall|Hnot].
  - left. apply sort_each_same. intros c Hcc. rewrite list.Forall_forall in Hall. specialize (Hall c Hcc).
    destruct (IH c (Hc c Hcc)) as [E|E]; [done|]. rewrite E in Hall. by destruct Hall.
  - right. apply sort_each_stuck; [intros c Hcc; apply IH; by apply Hc|].
    apply not_Forall_Exists in Hnot; [|apply _]. apply list.Exists_exists in Hnot as (c & Hcc & Hn). exists c. split; [done|].
    destruct (IH c (Hc c Hcc)) as [E|E]; [|done]. exfalso. apply Hn. rewrite E. by eexists.
Qed.

Lemma sort_ends rank fuel p : (∀ x y, x ∈ nodes → y ∈ nodes → child_of h x y → rank y < rank x) → p ∈ nodes → rank p < fuel →
  sortChildrenGeneric sortField fuel (with_children sorted) p = Ok (with_children sorted).
Proof.
  intros Hrank. revert p. induction fuel as [|fuel IH]; intros p Hp Hf; [lia|]. rewrite children_step by done.
  apply sort_each_same. intros c [Hc Hcin]%list_elem_of_filter. rewrite Hperm in Hcin. apply IH; [done|].
  specialize (Hrank p c Hp Hcin Hc). lia.
Qed.

Lemma sort_stuck (C : list nat) fuel p : (∀ x, x ∈ C → x ∈ nodes ∧ ∃ y, y ∈ C ∧ child_of h x y) → p ∈ C →
  sortChildrenGeneric sortField fuel (with_children sorted) p = NoFuel.
Proof.
  intros HC. revert p. induction fuel as [|fuel IH]; intros p Hp; [done|]. destruct (HC p Hp) as (Hpn & y & Hy & Hc).
  rewrite children_step by done. apply sort_each_stuck.
  - intros c [_ Hcin]%list_elem_of_filter. rewrite Hperm in Hcin. by apply sort_keeps.
  - exists y. split; [|by apply IH]. apply list_elem_of_filter. split; [done|]. rewrite Hperm. by apply HC.
Qed.

(** Everything before that phase. *)
Lemma BuildTree_phase order fuel : SliceStable (node_less sortField h) nodes = Some sorted →
  BuildTree order fuel sortField h nodes =
  match sort_each (sortChildrenGeneric sortField fuel) (with_children sorted) order with
  | Ok h' => Ok (filter is_root sorted, h') | Err e => Err e | Panic => Panic | NoFuel => NoFuel
  end.
Proof.
  intros Hs. unfold BuildTree. rewrite Hs.
  pose proof (attach_fold sorted [] [] (node_map h sorted)) as Ha. rewrite with_children_nil in Ha. rewrite Ha; [done|..].
  - intros p Hp. by rewrite Hperm in Hp.
  - intros k. destruct (node_map h nodes !! k) as [p|] eqn:E.
    + apply node_map_spec in E; [|done]. by apply node_map_spec.
    + destruct (node_map h sorted !! k) as [p|] eqn:E'; [|done]. apply node_map_spec in E'; [|done].
      apply (node_map_spec nodes k p) in E'; [congruence|done].
Qed.

End Forest.

(** What a call needs: the nodes have different IDs and no children yet, and
    the comparison of their sort values is a weak order. *)
Record tree_input (sortField : string) (h : theap) (nodes : list nat) (lt : nat → nat → bool) : Prop := {
  ti_order : weak_order lt;
  ti_less : ∀ x y, x ∈ nodes → y ∈ nodes → node_less sortField h x y = Some (lt x y);
  ti_ids : NoDup (id_of h <$> nodes);
  ti_nodes : ∀ p, p ∈ nodes → ∃ n, h !! p = Some n ∧ GetChildren n = [];
}.

Definition children_of (h : theap) (p : nat) : list nat := match h !! p with Some n => GetChildren n | None => [] end.

(** ** Properties *)

(** C21: The forest that [BuildTree] builds.  When no node is its own ancestor,
    the call returns; its roots are the nodes with no parent among the nodes,
    and the children of a node are the nodes whose parent ID is its ID: each in
    the order of the sort values, those that compare equal in the order in which
    they were given.  IDs and parents do not change. *)
Theorem build_tree_correct (sortField : string) (h : theap) (nodes : list nat) (lt : nat → nat → bool)
    (rank : nat → nat) (order : list nat) :
  tree_input sortField h nodes lt → (∀ p q, p ∈ nodes → q ∈ nodes → child_of h p q → rank q < rank p) → order ≡ₚ nodes →
  ∃ sorted fuel0, sorted ≡ₚ nodes ∧ StronglySorted (may_precede lt) sorted ∧
    (∀ z, filter (λ y, equivalent lt z y = true) sorted = filter (λ y, equivalent lt z y = true) nodes) ∧
    ∀ fuel, fuel0 <= fuel → ∃ h', BuildTree order fuel sortField h nodes = Ok (filter (is_root h nodes) sorted, h') ∧
      (∀ p, p ∈ nodes → children_of h' p = filter (child_of h p) sorted) ∧
      ∀ p, id_of h' p = id_of h p ∧ parent_of h' p = parent_of h p.
Proof.
  intros [Hlt Hless Hnd Hin] Hrank Hord.
  destruct (SliceStable_spec (node_less sortField h) lt Hlt nodes Hless) as (sorted & Hs & Hp & Hss & Hst).
  exists sorted, (S (max_list (rank <$> nodes))). split_and!; [done..|]. intros fuel Hf.
  exists (with_children h nodes sorted). split_and!.
  - rewrite (BuildTree_phase sortField h nodes Hnd Hin sorted Hp) by done.
    rewrite sort_each_same; [done|]. intros c Hc. rewrite Hord in Hc.
    apply (sort_ends sortField h nodes lt Hless Hin sorted Hp Hss rank); [done..|].
    pose proof (max_list_elem_of_le (rank c) (rank <$> nodes) (list_elem_of_fmap_2 rank _ _ Hc)). lia.
  - intros p Hpn. unfold children_of. destruct (Hin p Hpn) as (n & Hn & _).
    rewrite with_children_lookup, Hn. simpl. by rewrite decide_True.
  - intros p. split; [|apply with_children_parent]. unfold id_of. rewrite with_children_lookup.
    destruct (h !! p); simpl; [|done]. by case_decide.
Qed.

(** Nodes that are each other's parents.  When among the nodes there is a
    group in which every node has a child in the group, such as a node that is
    its own parent, no amount of fuel is enough: the recursion over the children
    does not end, and the program overflows its stack. *)
Theorem build_tree_cycle_diverges (sortField : string) (h : theap) (nodes : list nat) (lt : nat → nat → bool)
    (C order : list nat) :
  tree_input sortField h nodes lt → C ≠ [] → (∀ x, x ∈ C → x ∈ nodes ∧ ∃ y, y ∈ C ∧ child_of h x y) → order ≡ₚ nodes →
  ∀ fuel, BuildTree order fuel sortField h nodes = NoFuel.
Proof.
  intros [Hlt Hless Hnd Hin] Hne HC Hord fuel.
  destruct (SliceStable_spec (node_less sortField h) lt Hlt nodes Hless) as (sorted & Hs & Hp & Hss & Hst).
  rewrite (BuildTree_phase sortField h nodes Hnd Hin sorted Hp) by done. rewrite sort_each_stuck; [done|..].
  - intros c Hc. rewrite Hord in Hc. by apply (sort_keeps sortField h nodes lt).
  - destruct C as [|x C]; [done|]. exists x. split; [rewrite Hord; apply HC; left|].
    apply (sort_stuck sortField h nodes lt Hless Hin sorted Hp Hss (x :: C)); [done|left].
Qed.

(** *** At concrete inputs *)

Definition demo_node (id parent : string) (key : Z) : TreeNode := mkTree id parent [] (λ _, VInt KInt key).
Definition demo_heap : theap :=
  {[1 := demo_node "a" "" 5; 2 := demo_node "b" "a" 9; 3 := demo_node "c" "a" 2; 4 := demo_node "d" "x" 1]}.
Definition demo_key (p : nat) : Z := match p with 1%nat => 5 | 2%nat => 9 | 3%nat => 2 | _ => 1 end%Z.
Definition demo_lt (p q : nat) : bool := (demo_key p <? demo_key q)%Z.

Lemma demo_lt_weak : weak_order demo_lt.
Proof. unfold demo_lt. constructor; intros *; rewrite ?Z.ltb_lt, ?Z.ltb_ge; lia. Qed.

Ltac each_node H := rewrite ?elem_of_cons, ?elem_of_nil in H; destruct_or?; subst; try done.

Lemma build_tree_correct_witness :
  (∃ h', BuildTree [1; 2; 3; 4] 9 "key" demo_heap [1; 2; 3; 4] = Ok ([4; 1], h') ∧ children_of h' 1 = [3; 2]) ∧
  ∃ sorted fuel0, sorted ≡ₚ [1; 2; 3; 4] ∧ StronglySorted (may_precede demo_lt) sorted ∧
    (∀ z, filter (λ y, equivalent demo_lt z y = true) sorted = filter (λ y, equivalent demo_lt z y = true) [1; 2; 3; 4]) ∧
    ∀ fuel, fuel0 <= fuel → ∃ h',
      BuildTree [1; 2; 3; 4] fuel "key" demo_heap [1; 2; 3; 4] = Ok (filter (is_root demo_heap [1; 2; 3; 4]) sorted, h') ∧
      (∀ p, p ∈ [1; 2; 3; 4] → children_of h' p = filter (child_of demo_heap p) sorted) ∧
      ∀ p, id_of h' p = id_of demo_heap p ∧ parent_of h' p = parent_of demo_heap p.
Proof.
  split; [eexists; split; vm_compute; reflexivity|].
  apply (build_tree_correct "key" demo_heap [1; 2; 3; 4] demo_lt (λ p, if decide (p = 1) then 1 else 0) [1; 2; 3; 4]);
    [|intros p q Hp Hq Hc; each_node Hp; each_node Hq; (by vm_compute in Hc; destruct Hc) || (vm_compute; lia)|reflexivity].
  constructor; [apply demo_lt_weak|..].
  - intros x y Hx Hy. each_node Hx; each_node Hy; reflexivity.
  - vm_compute. repeat constructor; rewrite ?elem_of_cons, elem_of_nil; by intros ?; destruct_or?.
  - intros p Hp. each_node Hp; eexists; split; reflexivity.
Defined.

Lemma build_tree_cycle_diverges_witness :
  BuildTree [1] 1000 "key" {[1 := demo_node "a" "a" 0]} [1] = NoFuel.
Proof.
  apply (build_tree_cycle_diverges "key" {[1 := demo_node "a" "a" 0]} [1] (λ _ _, false) [1] [1]); [|done| |reflexivity].
  - constructor; [by constructor|intros x y Hx Hy; each_node Hx; by each_node Hy|vm_compute; repeat constructor; apply not_elem_of_nil|].
    intros p Hp. each_node Hp. eexists; split; reflexivity.
  - intros x Hx. each_node Hx. split; [left|]. exists 1. split; [left|by vm_compute].
Defined.
