(* ===== verification/Replicas.v ===== *)
(** * Read replicas

    Models src/data/connection/database.go: the load balancers and the manager
    of a master connection and its replicas.  A connection is a number, the
    pointer to its [sql.DB]; how connecting and pinging end is an argument. *)

From stdpp Require Import base tactics option list strings numbers.
From Stdlib Require Import ZArith Lia.
From S2P Require Import Prelude.

(** ** Data *)

Record DBNode := mkNode { Driver : string; Source : string; Weight : Z }.
Record Database := mkDatabase { Master : option DBNode; Slaves : list DBNode; Strategy : string; MaxRetry : Z }.

(** Why an attempt to find a replica failed, and the errors of the manager. *)
Inductive attempt_error := ErrNoAvailableSlaves | EPing.
Inductive db_error := ErrInvalidStrategy | ENoMaster | EConnect | EAllFailed (last : option attempt_error) | EMasterPing | EClose.

Inductive LoadBalancer := RoundRobinBalancer (current : Z) | RandomBalancer | WeightBalancer (weights : list Z) (current : Z).

Record DBManager := mkDB { master : nat; slaves : list nat; strategy : LoadBalancer; maxRetry : Z }.

(** ** Load balancers *)

(** [slaves[i]]. *)
Definition index (slaves : list nat) (i : nat) : res attempt_error nat := match slaves !! i with Some s => Ok s | None => Panic end.

Definition NewRoundRobinBalancer : LoadBalancer := RoundRobinBalancer 0.
Definition node_weight (n : DBNode) : Z := if (Weight n <=? 0)%Z then 1%Z else Weight n.
Definition NewWeightBalancer (slaves : list DBNode) : LoadBalancer := WeightBalancer (node_weight <$> slaves) 0.

Definition total_weight (ws : list Z) : Z := foldl (λ t w, wrap64 (t + w)) 0%Z ws.

(** The loop that finds the slave of a slot; [i] and [acc] are its state. *)
Fixpoint weight_pick (slaves : list nat) (next : Z) (ws : list Z) (i : nat) (acc : Z) : res attempt_error nat :=
  match ws with
  | [] => index slaves 0
  | w :: ws' =>
      let acc := wrap64 (acc + w) in
      if (next <? wrapu64 acc)%Z then index slaves i else weight_pick slaves next ws' (S i) acc
  end.

(** [Next]; [rnd] is the number drawn by [rand.Intn], reduced to its range. *)
Definition Next (rnd : Z) (slaves : list nat) (b : LoadBalancer) : res attempt_error nat * LoadBalancer :=
  match slaves with
  | [] => (Err ErrNoAvailableSlaves, b)
  | _ =>
      let len := Z.of_nat (length slaves) in
      match b with
      | RoundRobinBalancer current =>
          let current := wrapu64 (current + 1) in
          (index slaves (Z.to_nat (current `mod` len)), RoundRobinBalancer current)
      | RandomBalancer => (index slaves (Z.to_nat (rnd `mod` len)), b)
      | WeightBalancer weights current =>
          let total := wrapu64 (total_weight weights) in
          let current := wrapu64 (current + 1) in
          (if (total =? 0)%Z then Panic else weight_pick slaves (current `mod` total) weights 0 0,
           WeightBalancer weights current)
      end
  end.

(** ** The manager *)

Definition connect_slaves (connect : DBNode → option nat) (ns : list DBNode) : list nat := omap connect ns.

(** Without replicas the master serves the reads. *)
Definition or_master (master : nat) (slaves : list nat) : list nat := match slaves with [] => [master] | _ => slaves end.

(** [NewDBManager]; [connect] is [newDBClient]. *)
Definition NewDBManager (connect : DBNode → option nat) (conf : Database) : res db_error DBManager :=
  match Master conf with
  | None => Err ENoMaster
  | Some m =>
      match connect m with
      | None => Err EConnect
      | Some master =>
          let slaves := or_master master (connect_slaves connect (Slaves conf)) in
          if String.eqb (Strategy conf) "round_robin" || String.eqb (Strategy conf) "" then
            Ok (mkDB master slaves NewRoundRobinBalancer (MaxRetry conf))
          else if String.eqb (Strategy conf) "random" then Ok (mkDB master slaves RandomBalancer (MaxRetry conf))
          else if String.eqb (Strategy conf) "weight" then
            Ok (mkDB master slaves (NewWeightBalancer (Slaves conf)) (MaxRetry conf))
          else Err ErrInvalidStrategy
      end
  end.

Definition with_strategy (b : LoadBalancer) (dm : DBManager) : DBManager := mkDB (master dm) (slaves dm) b (maxRetry dm).
Definition with_slaves (ss : list nat) (dm : DBManager) : DBManager := mkDB (master dm) ss (strategy dm) (maxRetry dm).

(** The attempts of [Slave]: [n] are left, [i] were made; [ping i s] says
    whether connection [s] answers in attempt [i]. *)
Fixpoint slave_loop (ping : nat → nat → bool) (rnd : nat → Z) (slaves : list nat) (n i : nat) (lastErr : option attempt_error)
    (b : LoadBalancer) : res db_error nat * LoadBalancer :=
  match n with
  | O => (Err (EAllFailed lastErr), b)
  | S n' =>
      match Next (rnd i) slaves b with
      | (Ok s, b') => if ping i s then (Ok s, b') else slave_loop ping rnd slaves n' (S i) (Some EPing) b'
      | (Err e, b') => slave_loop ping rnd slaves n' (S i) (Some e) b'
      | (Panic, b') => (Panic, b')
      | (NoFuel, b') => (NoFuel, b')
      end
  end.

(** [Slave], for a number of retries below the largest int. *)
Definition Slave (ping : nat → nat → bool) (rnd : nat → Z) (dm : DBManager) : res db_error nat * DBManager :=
  let (r, b) := slave_loop ping rnd (slaves dm) (Z.to_nat (maxRetry dm + 1)) 0 None (strategy dm) in (r, with_strategy b dm).

Definition Health (ping : nat → bool) (dm : DBManager) : res db_error () * DBManager :=
  if negb (ping (master dm)) then (Err EMasterPing, dm)
  else
    let healthySlaves := filter (λ s, ping s = true) (slaves dm) in
    (Ok tt, with_slaves (or_master (master dm) healthySlaves) dm).

(** [Close]: the connections it closes, in order, and its result; [closes]
    says which closings succeed. *)
Definition Close (closes : nat → bool) (dm : DBManager) : list nat * res db_error () :=
  let closed := master dm :: filter (λ s, s ≠ master dm) (slaves dm) in
  (closed, if forallb closes closed then Ok tt else Err EClose).

(** ** Windows of picks *)

(** The results of [n] calls of [Next] in a row. *)
Fixpoint picks (n : nat) (slaves : list nat) (b : LoadBalancer) : list (res attempt_error nat) :=
  match n with O => [] | S n' => let (r, b') := Next 0 slaves b in r :: picks n' slaves b' end.

(** The elements of a list met from index [c] on, going round. *)
Definition window {A} (l : list A) (c n : nat) : list (option A) := (λ j, l !! (j `mod` length l)) <$> seq c n.

Lemma window_cons {A} (l : list A) c n : window l c (S n) = l !! (c `mod` length l) :: window l (S c) n.
Proof. done. Qed.

Lemma window_app {A} (l : list A) c n m : window l c (n + m) = window l c n ++ window l (c + n) m.
Proof. unfold window. by rewrite seq_app, fmap_app. Qed.

Lemma window_full {A} (l : list A) c : window l c (length l) ≡ₚ Some <$> l.
Proof.
  destruct (decide (l = [])) as [->|Hl]; [done|]. assert (length l ≠ 0) as Hn by (by destruct l).
  induction c as [|c IH].
  - assert (window l 0 (length l) = Some <$> l) as ->; [|done]. apply list_eq. intros j. unfold window. rewrite !list_lookup_fmap.
    destruct (decide (j < length l)) as [Hj|Hj].
    + rewrite lookup_seq_lt by done. cbn [fmap option_fmap option_map]. rewrite Nat.mod_small by lia.
      destruct (lookup_lt_is_Some_2 l j Hj) as [x Hx]. simpl. by rewrite Hx.
    + rewrite lookup_seq_ge, (lookup_ge_None_2 l) by lia. done.
  - rewrite <- IH. destruct (length l) as [|n] eqn:E; [done|]. rewrite (window_cons l c n), E.
    replace (S n) with (n + 1) at 1 by lia. rewrite window_app. unfold window at 2. cbn [seq fmap list_fmap]. rewrite E.
    replace ((S c + n) `mod` S n) with (c `mod` S n).
    + by rewrite Permutation_app_comm.
    + replace (S c + n) with (c + 1 * S n) by lia. by rewrite Nat.Div0.mod_add.
Qed.

(** Going round [k] times meets every element [k] times. *)
Lemma window_rounds {A} (l : list A) c k : window l c (k * length l) ≡ₚ concat (replicate k (Some <$> l)).
Proof.
  revert c. induction k as [|k IH]; intros c; [done|]. cbn [replicate concat]. rewrite Nat.mul_succ_l, Nat.add_comm, window_app.
  by rewrite window_full, IH.
Qed.

(** ** Schedules *)

(** The results a balancer goes round: each slave once, or as often as its
    weight; a weight without a slave is an index out of range. *)
Fixpoint weight_slots (slaves : list nat) (i : nat) (ws : list Z) : list (res attempt_error nat) :=
  match ws with [] => [] | w :: ws' => replicate (Z.to_nat w) (index slaves i) ++ weight_slots slaves (S i) ws' end.

Definition schedule (slaves : list nat) (b : LoadBalancer) : list (res attempt_error nat) :=
  match b with RoundRobinBalancer _ => Ok <$> slaves | RandomBalancer => [] | WeightBalancer ws _ => weight_slots slaves 0 ws end.

Definition counter (b : LoadBalancer) : Z := match b with RoundRobinBalancer c | WeightBalancer _ c => c | RandomBalancer => 0 end.

Definition sum (ws : list Z) : Z := foldr Z.add 0%Z ws.

(** A balancer that goes round, with weights whose sum is an int. *)
Definition cyclic (b : LoadBalancer) : Prop :=
  match b with
  | RoundRobinBalancer _ => True
  | RandomBalancer => False
  | WeightBalancer ws _ => Forall (λ w, 0 < w)%Z ws ∧ (sum ws ≤ max_int64)%Z
  end.

Lemma sum_cons w ws : sum (w :: ws) = (w + sum ws)%Z.
Proof. done. Qed.

Lemma sum_nonneg ws : Forall (λ w, 0 < w)%Z ws → (0 ≤ sum ws)%Z.
Proof. induction 1 as [|w ws Hw _ IH]; [done|]. rewrite sum_cons. lia. Qed.

Lemma total_weight_sum ws a : Forall (λ w, 0 < w)%Z ws → (0 ≤ a)%Z → (a + sum ws ≤ max_int64)%Z →
  foldl (λ t w, wrap64 (t + w)) a ws = (a + sum ws)%Z.
Proof.
  intros Hw. revert a. induction Hw as [|w ws Hw Hws IH]; intros a Ha Hs; [simpl; lia|].
  pose proof (sum_nonneg ws Hws). rewrite sum_cons in *. cbn [foldl]. rewrite wrap64_id by (unfold min_int64; lia).
  rewrite IH by lia. lia.
Qed.

Lemma weight_slots_length slaves i ws : Forall (λ w, 0 < w)%Z ws → length (weight_slots slaves i ws) = Z.to_nat (sum ws).
Proof.
  intros Hw. revert i. induction Hw as [|w ws Hw Hws IH]; intros i; [done|]. cbn [weight_slots].
  rewrite length_app, length_replicate, IH, sum_cons. pose proof (sum_nonneg ws Hws). lia.
Qed.

Lemma weight_pick_slot slaves next ws i acc :
  Forall (λ w, 0 < w)%Z ws → (0 ≤ acc)%Z → (acc + sum ws ≤ max_int64)%Z → (acc ≤ next)%Z →
  weight_pick slaves next ws i acc = default (index slaves 0) (weight_slots slaves i ws !! Z.to_nat (next - acc)).
Proof.
  intros Hw. revert i acc. induction Hw as [|w ws Hw Hws IH]; intros i acc Ha Hs Hn; cbn [weight_pick weight_slots]; [done|].
  pose proof (sum_nonneg ws Hws) as Hp. rewrite sum_cons in Hs.
  rewrite wrap64_id by (unfold min_int64; lia).
  assert (wrapu64 (acc + w) = acc + w)%Z as -> by (unfold wrapu64; rewrite Z.mod_small; unfold max_int64 in *; lia).
  destruct (Z.ltb_spec next (acc + w)).
  - rewrite lookup_app_l by (rewrite length_replicate; lia). rewrite lookup_replicate_2 by lia. done.
  - rewrite lookup_app_r by (rewrite length_replicate; lia). rewrite length_replicate, IH by lia.
    do 2 f_equal. lia.
Qed.

Lemma to_nat_mod z n : (0 ≤ z)%Z → Z.to_nat (z `mod` Z.of_nat n) = Z.to_nat z `mod` n.
Proof. intros Hz. rewrite <- (Z2Nat.id z) at 1 by done. by rewrite <- Nat2Z.inj_mod, Nat2Z.id. Qed.

(** One call returns the result in its place in the schedule. *)
Lemma Next_schedule rnd slaves b : slaves ≠ [] → cyclic b →
  Next rnd slaves b =
  (default Panic (schedule slaves b !! (Z.to_nat (wrapu64 (counter b + 1)) `mod` length (schedule slaves b))),
   match b with
   | RoundRobinBalancer c => RoundRobinBalancer (wrapu64 (c + 1)) | RandomBalancer => b
   | WeightBalancer ws c => WeightBalancer ws (wrapu64 (c + 1))
   end).
Proof.
  intros Hne Hb. destruct slaves as [|s0 ss] eqn:Es; [done|]. rewrite <- Es in *. unfold Next. rewrite Es, <- Es.
  assert (∀ z, 0 ≤ wrapu64 z)%Z as Hu by (intros z; unfold wrapu64; apply Z.mod_pos_bound; lia).
  destruct b as [c| |ws c]; cbn [schedule counter]; [|done|].
  - rewrite length_fmap, to_nat_mod by apply Hu. rewrite list_lookup_fmap. unfold index.
    destruct (slaves !! _); done.
  - destruct Hb as [Hw Hs]. pose proof (sum_nonneg ws Hw) as Hp.
    rewrite weight_slots_length by done. unfold total_weight. rewrite total_weight_sum by (done || lia). rewrite Z.add_0_l. cbv zeta.
    assert (wrapu64 (sum ws) = sum ws) as -> by (unfold wrapu64; rewrite Z.mod_small; unfold max_int64 in *; lia).
    destruct (Z.eqb_spec (sum ws) 0) as [Hz|Hz].
    + rewrite lookup_ge_None_2; [done|]. rewrite weight_slots_length, Hz by done. simpl. lia.
    + rewrite weight_pick_slot; [|done|lia|lia|apply Z.mod_pos_bound; lia].
      rewrite Z.sub_0_r. rewrite <- (Z2Nat.id (sum ws)) at 1 by lia. rewrite to_nat_mod by apply Hu.
      destruct (lookup_lt_is_Some_2 (weight_slots slaves 0 ws) (Z.to_nat (wrapu64 (c + 1)) `mod` Z.to_nat (sum ws))) as [r Hr].
      * rewrite weight_slots_length by done. apply Nat.mod_upper_bound. lia.
      * by rewrite Hr.
Qed.

Lemma picks_window slaves b n : slaves ≠ [] → cyclic b → (0 ≤ counter b)%Z → (counter b + Z.of_nat n < 2 ^ 64)%Z →
  picks n slaves b = default Panic <$> window (schedule slaves b) (Z.to_nat (counter b + 1)) n.
Proof.
  intros Hne. revert b. induction n as [|n IH]; intros b Hb H0 Hn; [done|]. cbn [picks]. rewrite Next_schedule by done.
  rewrite window_cons. cbn [fmap list_fmap].
  assert (wrapu64 (counter b + 1) = counter b + 1)%Z as Hc by (unfold wrapu64; rewrite Z.mod_small; lia).
  f_equal; [by rewrite Hc|]. rewrite IH.
  - replace (Z.to_nat (counter _ + 1)) with (S (Z.to_nat (counter b + 1))); [by destruct b|].
    destruct b; cbn [counter] in *; [rewrite Hc; lia|done|rewrite Hc; lia].
  - by destruct b.
  - destruct b; cbn [counter] in *; [rewrite Hc; lia|done|rewrite Hc; lia].
  - destruct b; cbn [counter] in *; [rewrite Hc; lia|done|rewrite Hc; lia].
Qed.

Lemma default_Some (l : list (res attempt_error nat)) k :
  default Panic <$> concat (replicate k (Some <$> l)) = concat (replicate k l).
Proof.
  induction k as [|k IH]; [done|]. cbn [replicate concat]. rewrite fmap_app, IH. f_equal.
  rewrite <- list_fmap_compose. apply list_fmap_id.
Qed.

(** ** Properties *)

(** C36: The balancers are fair.  As long as the counter does not wrap, any [k]
    rounds of consecutive calls — a round is as many calls as there are slaves,
    or as the weights add up to — return every slave [k] times, or [k] times
    its weight, in whatever state the balancer is at the start. *)
Theorem balancer_fair (slaves : list nat) (b : LoadBalancer) (k : nat) :
  slaves ≠ [] → cyclic b → (0 ≤ counter b)%Z →
  let round := length (schedule slaves b) in
  (counter b + Z.of_nat (k * round) < 2 ^ 64)%Z →
  picks (k * round) slaves b ≡ₚ concat (replicate k (schedule slaves b)).
Proof.
  intros Hne Hb H0 round Hk. rewrite picks_window by done. unfold round. rewrite window_rounds. by rewrite default_Some.
Qed.

Lemma weight_slots_elem slaves i ws r : Forall (λ w, 0 < w)%Z ws →
  r ∈ weight_slots slaves i ws ↔ ∃ j, j < length ws ∧ r = index slaves (i + j).
Proof.
  intros Hw. revert i. induction Hw as [|w ws Hw Hws IH]; intros i; cbn [weight_slots length].
  - rewrite elem_of_nil. split; [done|intros (j & Hj & _); lia].
  - rewrite elem_of_app, IH, elem_of_replicate. split.
    + intros [[-> _]|(j & Hj & ->)]; [exists 0|exists (S j)]; split; try lia; f_equal; lia.
    + intros ([|j] & Hj & ->); [left; split; [by rewrite Nat.add_0_r|lia]|right]. exists j. split; [lia|f_equal; lia].
Qed.

Lemma node_weights_pos ns : Forall (λ w, 0 < w)%Z (node_weight <$> ns).
Proof. apply Forall_fmap, Forall_true. intros n. unfold node_weight. simpl. destruct (Z.leb_spec (Weight n) 0); lia. Qed.

Lemma connected_fewer connect ns : length (connect_slaves connect ns) ≤ length ns.
Proof.
  induction ns as [|n ns IH]; [done|]. unfold connect_slaves in *. cbn [omap list_omap length].
  destruct (connect n); cbn [length]; lia.
Qed.

Lemma picks_in slaves b n r : slaves ≠ [] → cyclic b → schedule slaves b ≠ [] → r ∈ picks n slaves b → r ∈ schedule slaves b.
Proof.
  intros Hne. revert b. induction n as [|n IH]; intros b Hb Hs Hr; [by apply not_elem_of_nil in Hr|].
  cbn [picks] in Hr. rewrite Next_schedule in Hr by done. apply elem_of_cons in Hr as [->|Hr].
  - assert (length (schedule slaves b) ≠ 0) as Hl by (by destruct (schedule slaves b)).
    destruct (lookup_lt_is_Some_2 (schedule slaves b) (Z.to_nat (wrapu64 (counter b + 1)) `mod` length (schedule slaves b))) as [x Hx].
    { by apply Nat.mod_upper_bound. }
    rewrite Hx. simpl. by eapply list_elem_of_lookup_2.
  - apply IH in Hr; by destruct b.
Qed.

(** Weighted picks are safe for ever when every weight has a slave. *)
Lemma weight_picks_iff ss ws c : ss ≠ [] → Forall (λ w, 0 < w)%Z ws → (sum ws ≤ max_int64)%Z → (0 ≤ c)%Z → (c + 1 + sum ws < 2 ^ 64)%Z →
  (∀ n, Panic ∉ picks n ss (WeightBalancer ws c)) ↔ ws ≠ [] ∧ length ws ≤ length ss.
Proof.
  intros Hne Hw Hsum Hc Hwrap. assert (cyclic (WeightBalancer ws c)) as Hb by done.
  pose proof (λ r, weight_slots_elem ss 0 ws r Hw) as Hel. split.
  - intros Hno. split.
    + intros ->. apply (Hno 1). cbn [picks]. rewrite Next_schedule by done. left.
    + destruct (decide (length ws ≤ length ss)) as [|Hlt]; [done|]. exfalso.
      assert (length (schedule ss (WeightBalancer ws c)) = Z.to_nat (sum ws)) as Hl by (by apply weight_slots_length).
      apply (Hno (1 * length (schedule ss (WeightBalancer ws c)))).
      pose proof (sum_nonneg ws Hw) as Hp. rewrite picks_window; [|done..|rewrite Hl; simpl counter; lia].
      rewrite window_rounds, default_Some. cbn [replicate concat]. rewrite app_nil_r.
      apply Hel. exists (length ss). split; [lia|]. unfold index. by rewrite lookup_ge_None_2.
  - intros [Hws Hlen] n Hn. apply picks_in in Hn; [|done..|].
    + apply Hel in Hn as (j & Hj & Hp). simpl in Hp. unfold index in Hp.
      destruct (lookup_lt_is_Some_2 ss j) as [x Hx]; [lia|]. by rewrite Hx in Hp.
    + intros Hs. assert (index ss (0 + 0) ∈ weight_slots ss 0 ws) as Hx.
      { apply Hel. exists 0. split; [destruct ws; simpl; [done|lia]|done]. }
      change (weight_slots ss 0 ws) with (schedule ss (WeightBalancer ws c)) in Hx. rewrite Hs in Hx. by apply not_elem_of_nil in Hx.
Qed.

(** When the weighted balancer is safe.  A manager set up with the strategy
    "weight" can pick replicas for ever without a panic exactly when it has as
    many connections to pick from as replicas are configured.  When one of
    several configured replicas could not be connected, or none is configured,
    some call of [Next] panics: the weights are those of the configuration. *)
Theorem weight_safe_iff (connect : DBNode → option nat) (conf : Database) (dm : DBManager) :
  NewDBManager connect conf = Ok dm → Strategy conf = "weight" →
  (sum (node_weight <$> Slaves conf) ≤ max_int64)%Z →
  (∀ n, Panic ∉ picks n (slaves dm) (strategy dm)) ↔ length (slaves dm) = length (Slaves conf).
Proof.
  intros Hnew Hst Hsum. unfold NewDBManager in Hnew. destruct (Master conf) as [m|]; [|done]. destruct (connect m) as [ms|]; [|done].
  rewrite Hst in Hnew. cbn [String.eqb Ascii.eqb Bool.eqb orb] in Hnew. injection Hnew as <-. cbn [slaves strategy].
  set (ss := or_master ms (connect_slaves connect (Slaves conf))).
  assert (ss ≠ []) as Hne by (unfold ss, or_master; by destruct (connect_slaves connect (Slaves conf))).
  unfold NewWeightBalancer. rewrite (weight_picks_iff ss) by (done || apply node_weights_pos || (unfold max_int64 in *; lia)). rewrite length_fmap.
  assert (length ss ≤ length (Slaves conf) ∨ Slaves conf = []) as Hlen.
  { pose proof (connected_fewer connect (Slaves conf)) as Hf. unfold ss, or_master. destruct (connect_slaves connect (Slaves conf)); [|by left].
    destruct (Slaves conf); [by right|left]. simpl. lia. }
  assert (0 < length ss) by (destruct ss; simpl; [done|lia]).
  destruct Hlen as [Hlen|Hnil]; [|rewrite Hnil; split; [by intros [? _]|simpl; lia]].
  split; [intros [_ ?]; lia|]. intros Heq. split; [intros Hw%fmap_nil_inv; rewrite Hw in Heq; simpl in Heq|]; lia.
Qed.

Lemma index_in slaves i s : index slaves i = Ok s → s ∈ slaves.
Proof.
  unfold index. destruct (slaves !! i) as [x|] eqn:E; [|done]. injection 1 as ->. by eapply list_elem_of_lookup_2.
Qed.

Lemma weight_pick_in slaves next ws i acc s : weight_pick slaves next ws i acc = Ok s → s ∈ slaves.
Proof.
  revert i acc. induction ws as [|w ws IH]; intros i acc; cbn [weight_pick]; [apply index_in|].
  destruct (_ <? _)%Z; [apply index_in|apply IH].
Qed.

Lemma Next_in rnd slaves b s : (Next rnd slaves b).1 = Ok s → s ∈ slaves.
Proof.
  unfold Next. destruct slaves as [|x l] eqn:E; [done|]. rewrite <- E in *. destruct b; cbn [fst]; [apply index_in..|].
  destruct (_ =? _)%Z; [done|]. apply weight_pick_in.
Qed.

Lemma slave_loop_in ping rnd slaves n i e b s : (slave_loop ping rnd slaves n i e b).1 = Ok s →
  s ∈ slaves ∧ ∃ j, ping j s = true.
Proof.
  revert i e b. induction n as [|n IH]; intros i e b; [done|]. cbn [slave_loop].
  pose proof (λ x, Next_in (rnd i) slaves b x) as Hin. destruct (Next (rnd i) slaves b) as [[x|err| |] b']; cbn [fst] in Hin; try done.
  - destruct (ping i x) eqn:Hp; [|apply IH]. injection 1 as <-. split; [by apply Hin|by exists i].
  - apply IH.
Qed.

(** Without an answer the loop has tried all its picks. *)
Lemma slave_loop_tries up rnd slaves n i e c : slaves ≠ [] →
  match (slave_loop (λ _, up) rnd slaves n i e (RoundRobinBalancer c)).1 with
  | Ok s => True
  | Err err => err = EAllFailed (match n with O => e | S _ => Some EPing end) ∧
      ∀ s, Ok s ∈ picks n slaves (RoundRobinBalancer c) → up s = false
  | _ => False
  end.
Proof.
  intros Hne. revert i e c. induction n as [|n IH]; intros i e c.
  { split; [done|]. intros s Hs. by apply not_elem_of_nil in Hs. }
  cbn [slave_loop picks]. rewrite !Next_schedule by done. cbn [schedule counter].
  set (k := _ `mod` _). assert (∃ x, (Ok <$> slaves : list (res attempt_error nat)) !! k = Some (Ok x)) as [x Hx].
  { destruct (lookup_lt_is_Some_2 slaves k) as [x Hx]; [|exists x; by rewrite list_lookup_fmap, Hx].
    unfold k. rewrite length_fmap. apply Nat.mod_upper_bound. by destruct slaves. }
  rewrite Hx. cbn [default from_option id]. destruct (up x) eqn:Hup; [done|].
  specialize (IH (S i) (Some EPing) (wrapu64 (c + 1))). destruct (slave_loop _ _ _ _ _ _ _).1; try done.
  destruct IH as [-> Hall]. split; [by destruct n|].
  intros s [Hs|Hs]%elem_of_cons; [congruence|by apply Hall].
Qed.

(** A read finds a replica that answers.  With the round-robin strategy and
    at least as many attempts as replicas, [Slave] returns a replica that
    answers its ping when there is one, and otherwise reports that all pings
    failed; with any strategy, what it returns is one of the replicas and
    answered. *)
Theorem slave_finds_live (dm : DBManager) (up : nat → bool) (rnd : nat → Z) (c : Z) :
  strategy dm = RoundRobinBalancer c → slaves dm ≠ [] → (0 ≤ c)%Z → (c + maxRetry dm + 1 < 2 ^ 64)%Z →
  (Z.of_nat (length (slaves dm)) ≤ maxRetry dm + 1)%Z →
  match (Slave (λ _, up) rnd dm).1 with
  | Ok s => s ∈ slaves dm ∧ up s = true
  | Err e => e = EAllFailed (Some EPing) ∧ ∀ s, s ∈ slaves dm → up s = false
  | _ => False
  end.
Proof.
  intros Hst Hne Hc Hwrap Hlen. unfold Slave. rewrite Hst.
  pose proof (slave_loop_tries up rnd (slaves dm) (Z.to_nat (maxRetry dm + 1)) 0 None c Hne) as Ht.
  pose proof (slave_loop_in (λ _, up) rnd (slaves dm) (Z.to_nat (maxRetry dm + 1)) 0 None (RoundRobinBalancer c)) as Hin.
  destruct (slave_loop _ _ _ _ _ _ _) as [[s|e| |] b]; cbn [fst] in *; [|..|done|done].
  - destruct (Hin s eq_refl) as [Hs (_ & Hp)]. done.
  - destruct Ht as [-> Hall]. assert (0 < length (slaves dm)) as Hpos by (destruct (slaves dm); simpl; [done|lia]).
    split; [destruct (Z.to_nat (maxRetry dm + 1)) eqn:En; [lia|done]|]. intros s Hs. apply Hall.
    rewrite picks_window; [|done..|simpl; lia].
    replace (Z.to_nat (maxRetry dm + 1)) with (length (slaves dm) + (Z.to_nat (maxRetry dm + 1) - length (slaves dm))) by lia.
    rewrite window_app, fmap_app, elem_of_app. left.
    replace (length (slaves dm)) with (length (schedule (slaves dm) (RoundRobinBalancer c))) at 1 by apply length_fmap.
    rewrite window_full. apply list_elem_of_fmap. exists (Some (Ok s)). split; [done|]. by do 2 apply list_elem_of_fmap_2.
Qed.

Definition check_all (dm : DBManager) (pings : list (nat → bool)) : DBManager := foldl (λ dm p, (Health p dm).2) dm pings.

Lemma health_facts ping dm s : slaves dm ≠ [] →
  master (Health ping dm).2 = master dm ∧ slaves (Health ping dm).2 ≠ [] ∧
  (s ∈ slaves (Health ping dm).2 → s ∈ slaves dm ∨ s = master dm).
Proof.
  intros Hne. unfold Health. destruct (ping (master dm)); cbn [negb snd with_slaves master slaves]; [|by eauto]. split; [done|].
  unfold or_master. destruct (filter (λ s, ping s = true) (slaves dm)) as [|x l] eqn:E; (split; [done|]).
  - intros ->%list_elem_of_singleton. by right.
  - rewrite <- E. intros [_ Hs]%list_elem_of_filter. by left.
Qed.

(** A replica that fails one health check is gone.  When a replica does not
    answer in a [Health] whose master does, then after any further health
    checks, whatever answers in them: it is not among the replicas, [Slave]
    never returns it, and [Close] does not close its connection.  There are
    always replicas to pick from, the master in the worst case. *)
Theorem failed_replica_is_dropped (dm : DBManager) (ping : nat → bool) (later : list (nat → bool)) (s : nat) :
  slaves dm ≠ [] → ping (master dm) = true → s ∈ slaves dm → s ≠ master dm → ping s = false →
  let dm' := check_all (Health ping dm).2 later in
  slaves dm' ≠ [] ∧ (s ∉ slaves dm') ∧ (∀ p rnd, (Slave p rnd dm').1 ≠ Ok s) ∧ ∀ closes, s ∉ (Close closes dm').1.
Proof.
  intros Hne Hm Hs Hsm Hp dm'. assert (master dm' = master dm ∧ slaves dm' ≠ [] ∧ s ∉ slaves dm') as (Hma & Hn & Hnot).
  { unfold dm', check_all. apply (foldl_ind (λ d, master d = master dm ∧ slaves d ≠ [] ∧ s ∉ slaves d)).
    - destruct (health_facts ping dm s Hne) as (Hma & Hn & _). split_and!; [done..|]. unfold Health. rewrite Hm.
      cbn [negb snd with_slaves slaves]. unfold or_master. destruct (filter _ _) as [|x l] eqn:E.
      + intros ?%list_elem_of_singleton. done.
      + rewrite <- E. intros [Hx _]%list_elem_of_filter. congruence.
    - intros d p _ (Hma & Hn & Hnot). destruct (health_facts p d s Hn) as (Hma' & Hn' & Hin). split_and!; [congruence|done|].
      intros [?|?]%Hin; [done|congruence]. }
  split_and!; [done..| |].
  - intros p rnd. unfold Slave. pose proof (slave_loop_in p rnd (slaves dm') (Z.to_nat (maxRetry dm' + 1)) 0 None (strategy dm') s) as Hin.
    destruct (slave_loop _ _ _ _ _ _ _) as [r b]. intros Hr. cbn [fst] in *. by apply Hin in Hr as [? _].
  - intros closes. unfold Close. cbn [fst]. rewrite elem_of_cons, Hma. intros [?|[_ ?]%list_elem_of_filter]; done.
Qed.

(** *** At concrete inputs *)

Lemma balancer_fair_witness :
  picks 6 [10; 20; 30] (RoundRobinBalancer 4) = Ok <$> [30; 10; 20; 30; 10; 20] ∧
  picks (2 * 4) [10; 20] (WeightBalancer [3; 1]%Z 6) ≡ₚ concat (replicate 2 [Ok 10; Ok 10; Ok 10; Ok 20]).
Proof.
  split; [vm_compute; reflexivity|]. apply (balancer_fair [10; 20] (WeightBalancer [3; 1]%Z 6) 2); [done| |done|vm_compute; reflexivity].
  split; [by repeat constructor|vm_compute; discriminate].
Defined.

Definition demo_conf : Database :=
  mkDatabase (Some (mkNode "postgres" "m" 0)) [mkNode "postgres" "a" 2; mkNode "postgres" "down" 1] "weight" 3.
Definition demo_connect (n : DBNode) : option nat :=
  if String.eqb (Source n) "m" then Some 1 else if String.eqb (Source n) "a" then Some 2 else None.
Definition demo_manager : DBManager := mkDB 1 [2] (NewWeightBalancer (Slaves demo_conf)) 3.

(** One of two replicas could not be connected. *)
Lemma weight_safe_iff_witness :
  NewDBManager demo_connect demo_conf = Ok demo_manager ∧ ¬ ∀ n, Panic ∉ picks n (slaves demo_manager) (strategy demo_manager).
Proof.
  split; [reflexivity|]. intros Hno.
  assert (length (slaves demo_manager) = length (Slaves demo_conf)) as Hx; [|discriminate Hx].
  apply (weight_safe_iff demo_connect demo_conf demo_manager); [reflexivity|reflexivity|vm_compute; discriminate|exact Hno].
Defined.

Lemma slave_finds_live_witness :
  let dm := mkDB 1 [2; 3; 4] (RoundRobinBalancer 7) 2 in
  match (Slave (λ _ s, Nat.eqb s 3) (λ _, 0%Z) dm).1 with
  | Ok s => s ∈ slaves dm ∧ Nat.eqb s 3 = true
  | Err e => e = EAllFailed (Some EPing) ∧ ∀ s, s ∈ slaves dm → Nat.eqb s 3 = false
  | _ => False
  end.
Proof.
  intros dm. apply (slave_finds_live dm (λ s, Nat.eqb s 3) (λ _, 0%Z) 7); (reflexivity || (vm_compute; discriminate) || done).
Defined.

Lemma failed_replica_is_dropped_witness :
  let dm := mkDB 1 [2; 3] NewRoundRobinBalancer 2 in
  slaves (Health (λ s, negb (Nat.eqb s 3)) dm).2 = [2] ∧
  let dm' := check_all (Health (λ s, negb (Nat.eqb s 3)) dm).2 [λ _, true] in
  slaves dm' ≠ [] ∧ (3 ∉ slaves dm') ∧ (∀ p rnd, (Slave p rnd dm').1 ≠ Ok 3) ∧ ∀ closes, 3 ∉ (Close closes dm').1.
Proof.
  intros dm. split; [reflexivity|]. apply (failed_replica_is_dropped dm (λ s, negb (Nat.eqb s 3)) [λ _, true] 3);
    [done|reflexivity|right; left|done|reflexivity].
Defined.
