(* ===== verification/Sha256.v ===== *)
(** * SHA-256 and hexadecimal of the Go library

    [sha256.New] with its [Write] and [Sum], as the function of the bytes
    written, after FIPS 180-4, and [hex.EncodeToString] and [hex.DecodeString] of
    encoding/hex.  Bytes are integers from 0 to 255. *)

From stdpp Require Import base tactics option list strings numbers.
From Stdlib Require Import ZArith Ascii Lia.
From S2P Require Import Prelude.

(** ** Words of 32 bits *)

Definition w32 (z : Z) : Z := Z.land z (Z.ones 32).
Definition rotr (n x : Z) : Z := Z.lor (Z.shiftr x n) (w32 (Z.shiftl x (32 - n))).
Definition xor3 (a b c : Z) : Z := Z.lxor a (Z.lxor b c).

Definition Ch (x y z : Z) : Z := Z.lxor (Z.land x y) (Z.land (Z.lxor x (Z.ones 32)) z).
Definition Maj (x y z : Z) : Z := xor3 (Z.land x y) (Z.land x z) (Z.land y z).
Definition bsig0 (x : Z) : Z := xor3 (rotr 2 x) (rotr 13 x) (rotr 22 x).
Definition bsig1 (x : Z) : Z := xor3 (rotr 6 x) (rotr 11 x) (rotr 25 x).
Definition ssig0 (x : Z) : Z := xor3 (rotr 7 x) (rotr 18 x) (Z.shiftr x 3).
Definition ssig1 (x : Z) : Z := xor3 (rotr 17 x) (rotr 19 x) (Z.shiftr x 10).

(** The constants are the first 32 bits of the fractional parts of the roots of
    the first primes: [root f n] is the greatest [r < 2 ^ n] with [f r <= v]. *)
Fixpoint root (f : Z → Z) (v : Z) (n : nat) (r : Z) : Z :=
  match n with
  | O => r
  | S n' => let r' := Z.lor r (Z.shiftl 1 (Z.of_nat n')) in root f v n' (if (f r' <=? v)%Z then r' else r)
  end.
Definition is_prime (n : nat) : bool := forallb (λ d, negb (n mod d =? 0)) (seq 2 (n - 2)).
Definition primes : list Z := Eval vm_compute in Z.of_nat <$> List.filter is_prime (seq 2 310).
Definition sqrt_word (p : Z) : Z := w32 (root (λ r, r * r)%Z (Z.shiftl p 64) 40 0).
Definition cbrt_word (p : Z) : Z := w32 (root (λ r, r * r * r)%Z (Z.shiftl p 96) 40 0).

Definition K256 : list Z := Eval vm_compute in cbrt_word <$> primes.

Record hash_state := mkHash { ha : Z; hb : Z; hc : Z; hd : Z; he : Z; hf : Z; hg : Z; hh : Z }.

Definition H0 : hash_state := Eval vm_compute in
  let w i := sqrt_word (nth i primes 0%Z) in mkHash (w 0) (w 1) (w 2) (w 3) (w 4) (w 5) (w 6) (w 7).

(** ** Padding and blocks *)

Definition byte_of_word (w : Z) (i : Z) : Z := Z.land (Z.shiftr w (8 * i)) 255.
Definition word_bytes (w : Z) : list Z := [byte_of_word w 3; byte_of_word w 2; byte_of_word w 1; byte_of_word w 0].

Definition pad (msg : list Z) : list Z :=
  let n := Z.of_nat (length msg) in
  msg ++ [128%Z] ++ replicate (Z.to_nat ((55 - n) `mod` 64)) 0%Z ++
  word_bytes (Z.shiftr (8 * n) 32) ++ word_bytes (8 * n).

Fixpoint words (bs : list Z) : list Z :=
  match bs with
  | b3 :: b2 :: b1 :: b0 :: bs' => (b3 * 2 ^ 24 + b2 * 2 ^ 16 + b1 * 2 ^ 8 + b0)%Z :: words bs'
  | _ => []
  end.

Fixpoint blocks (n : nat) (ws : list Z) : list (list Z) :=
  match n with O => [] | S n' => take 16 ws :: blocks n' (drop 16 ws) end.

(** ** Compression *)

(** The schedule, newest word first. *)
Fixpoint extend (n : nat) (rw : list Z) : list Z :=
  match n with
  | O => rw
  | S n' =>
      let w i := nth i rw 0%Z in
      extend n' (w32 (ssig1 (w 1) + w 6 + ssig0 (w 14) + w 15) :: rw)
  end.
Definition message_schedule (block : list Z) : list Z := reverse (extend 48 (reverse block)).

Definition round (s : hash_state) (kw : Z * Z) : hash_state :=
  let t1 := w32 (hh s + bsig1 (he s) + Ch (he s) (hf s) (hg s) + kw.1 + kw.2)%Z in
  let t2 := w32 (bsig0 (ha s) + Maj (ha s) (hb s) (hc s))%Z in
  mkHash (w32 (t1 + t2)) (ha s) (hb s) (hc s) (w32 (hd s + t1)) (he s) (hf s) (hg s).

Definition compress (s : hash_state) (block : list Z) : hash_state :=
  let r := foldl round s (zip K256 (message_schedule block)) in
  mkHash (w32 (ha s + ha r)) (w32 (hb s + hb r)) (w32 (hc s + hc r)) (w32 (hd s + hd r))
         (w32 (he s + he r)) (w32 (hf s + hf r)) (w32 (hg s + hg r)) (w32 (hh s + hh r)).

Definition digest (s : hash_state) : list Z :=
  concat (word_bytes <$> [ha s; hb s; hc s; hd s; he s; hf s; hg s; hh s]).

Definition sha256 (msg : list Z) : list Z :=
  let bs := pad msg in digest (foldl compress H0 (blocks (length bs / 64) (words bs))).

(** ** encoding/hex *)

Definition hex_char (n : Z) : ascii := ascii_of_N (Z.to_N (if (n <? 10)%Z then n + 48 else n + 87)).
Definition hex_byte (b : Z) (s : string) : string := String (hex_char (Z.shiftr b 4)) (String (hex_char (Z.land b 15)) s).
Definition EncodeToString (bs : list Z) : string := foldr hex_byte EmptyString bs.

Definition hex_digit (c : ascii) : bool :=
  let n := Z.of_N (N_of_ascii c) in
  ((48 <=? n) && (n <=? 57) || (97 <=? n) && (n <=? 102) || (65 <=? n) && (n <=? 70))%Z.

(** Whether [hex.DecodeString] succeeds. *)
Fixpoint hex_decodable (s : string) : bool :=
  match s with
  | EmptyString => true
  | String a (String b s') => hex_digit a && hex_digit b && hex_decodable s'
  | _ => false
  end.

Fixpoint string_bytes (s : string) : list Z :=
  match s with EmptyString => [] | String c s' => Z.of_N (N_of_ascii c) :: string_bytes s' end.

(** ** Facts *)

Definition is_byte_Z (b : Z) : Prop := (0 ≤ b < 256)%Z.

Lemma word_bytes_range w : Forall is_byte_Z (word_bytes w).
Proof.
  assert (∀ i, is_byte_Z (byte_of_word w i)) as H.
  { intros i. unfold is_byte_Z, byte_of_word. change 255%Z with (Z.ones 8). rewrite Z.land_ones by lia.
    apply Z.mod_pos_bound. lia. }
  repeat (apply list.Forall_cons; split; [apply H|]). constructor.
Qed.

Lemma sha256_bytes msg : length (sha256 msg) = 32 ∧ Forall is_byte_Z (sha256 msg).
Proof.
  unfold sha256, digest. split; [done|]. cbn [fmap list_fmap concat].
  repeat (apply Forall_app; split; [apply word_bytes_range|]). constructor.
Qed.

(** A character of a lower-case hexadecimal text. *)
Definition lower_hex (c : ascii) : bool :=
  let n := Z.of_N (N_of_ascii c) in ((48 <=? n) && (n <=? 57) || (97 <=? n) && (n <=? 102))%Z.

Lemma hex_char_lower n : (0 ≤ n < 16)%Z → lower_hex (hex_char n) = true.
Proof.
  intros Hn. assert (forallb (λ n, lower_hex (hex_char n)) (seqZ 0 16) = true) as Hall by (vm_compute; reflexivity).
  rewrite forallb_forall in Hall. apply Hall, list_elem_of_In, elem_of_seqZ. lia.
Qed.

Lemma lower_hex_digit c : lower_hex c = true → hex_digit c = true.
Proof. unfold lower_hex, hex_digit. cbv zeta. intros ->. done. Qed.

Lemma byte_nibbles b : is_byte_Z b → (0 ≤ Z.shiftr b 4 < 16)%Z ∧ (0 ≤ Z.land b 15 < 16)%Z.
Proof.
  intros Hb. unfold is_byte_Z in Hb. rewrite Z.shiftr_div_pow2 by lia. change 15%Z with (Z.ones 4). rewrite Z.land_ones by lia.
  split; [|apply Z.mod_pos_bound; lia]. split; [apply Z.div_pos; lia|apply Z.div_lt_upper_bound; lia].
Qed.

(** The encoding of bytes is lower-case hexadecimal that decodes. *)
Lemma encoded bs : Forall is_byte_Z bs →
  String.length (EncodeToString bs) = 2 * length bs ∧ str_all lower_hex (EncodeToString bs) = true ∧
  hex_decodable (EncodeToString bs) = true.
Proof.
  induction 1 as [|b bs Hb Hbs (IH1 & IH2 & IH3)]; [done|]. destruct (byte_nibbles b Hb) as [Hh Hl].
  pose proof (hex_char_lower _ Hh) as Hch. pose proof (hex_char_lower _ Hl) as Hcl.
  change (EncodeToString (b :: bs)) with (hex_byte b (EncodeToString bs)). unfold hex_byte.
  cbn [String.length str_all hex_decodable length]. rewrite IH1, IH2, IH3, Hch, Hcl, !lower_hex_digit by done. split_and!; [lia|done|done].
Qed.

Example sha256_abc : EncodeToString (sha256 (string_bytes "abc")) =
  "ba7816bf8f01cfea414140de5dae2223b00361a396177a9cb410ff61f20015ad".
Proof. vm_compute. reflexivity. Qed.

Example sha256_two_blocks : EncodeToString (sha256 (string_bytes "abcdbcdecdefdefgefghfghighijhijkijkljklmklmnlmnomnopnopq")) =
  "248d6a61d20638b8e5c026930c3e6039a33ce45964ff2167f6ecedd419db06c1".
Proof. vm_compute. reflexivity. Qed.
