(* ===== verification/Sandbox.v ===== *)
(** * Loading plugin files

    Models src/extension/security/sandbox.go, the loading of plugin files in
    src/extension/manager/plugin.go, LoadPlugin of src/extension/plugin/plugin.go
    and the limit of src/extension/plugin/manager.go.  What the operating system
    finds under a path and what opening a plugin gives are arguments.
    [strings.ToLower] is modelled for ASCII letters. *)

From stdpp Require Import base tactics option list gmap strings numbers.
From Stdlib Require Import ZArith Lia.
From S2P Require Import Prelude Paging GoStrings FileStore Float64 Sha256.

(** ** The sandbox *)

Record SecurityConfig := mkSecurity {
  EnableSandbox : bool; AllowedPaths : list string; BlockedExtensions : list string; TrustedSources : list string;
  RequireSignature : bool; AllowUnsafe : bool }.

Inductive plugin_error :=
| EBlocked | ENotAllowed | EUntrusted | ENoPlugin | ENoSignature | ESignatureLength | ESignatureHex | EMismatch
| EMemory | ECPU | ELimit | EOpen | ESymbol | EPhase (e : nat).

Definition lower (s : string) : string := str_map lower_ascii s.

Section Sandbox.
Context (cwd : string) (fs : string → option node) (s : SecurityConfig).

Definition ValidatePluginPath (path : string) : res plugin_error () :=
  if negb (EnableSandbox s) then Ok tt
  else
    let absPath := Abs cwd path in
    let ext := lower (Ext path) in
    if existsb (λ blocked, String.eqb ext (lower blocked)) (BlockedExtensions s) then Err EBlocked
    else
      match AllowedPaths s with
      | [] => Ok tt
      | allowed => if existsb (λ a, HasPrefix absPath (Abs cwd a)) allowed then Ok tt else Err ENotAllowed
      end.

Definition ValidatePluginSource (source : string) : res plugin_error () :=
  if negb (EnableSandbox s) || (length (TrustedSources s) =? 0) then Ok tt
  else if existsb (λ trusted, Contains source trusted) (TrustedSources s) then Ok tt else Err EUntrusted.

Definition fileExists (path : string) : bool := match fs path with Some (NFile _) => true | _ => false end.

(** Of a path that is a file. *)
Definition calculateFileHash (path : string) : res plugin_error string :=
  match fs path with
  | Some (NFile data) => Ok (EncodeToString (sha256 (string_bytes data)))
  | _ => Err ENoPlugin
  end.

Definition readSignatureFile (path : string) : res plugin_error string :=
  match fs path with
  | Some (NFile data) =>
      let hash := TrimSpace data in
      if negb (String.length hash =? 64) then Err ESignatureLength
      else if negb (hex_decodable hash) then Err ESignatureHex else Ok hash
  | _ => Err ENoSignature
  end.

Definition ValidatePluginSignature (path : string) : res plugin_error () :=
  if negb (RequireSignature s) then Ok tt
  else if AllowUnsafe s then Ok tt
  else if negb (fileExists path) then Err ENoPlugin
  else
    let signaturePath := path +:+ ".sig" in
    if negb (fileExists signaturePath) then Err ENoSignature
    else
      rbind (calculateFileHash path) (λ pluginHash,
      rbind (readSignatureFile signaturePath) (λ expectedHash,
      if String.eqb pluginHash expectedHash then Ok tt else Err EMismatch)).
End Sandbox.

(** ** The resource monitor *)

Record PerformanceConfig := mkPerf { MaxMemoryMB : Z; MaxCPUPercent : Z }.
Record PluginMetrics := mkMetrics { MemoryUsageMB : float64; CPUUsagePercent : float64; LoadTime : Z; InitTime : Z; LastAccess : Z }.
Record ResourceMonitor := mkMonitor { rm_config : PerformanceConfig; pluginMetrics : gmap string PluginMetrics }.

Definition NewResourceMonitor (cfg : PerformanceConfig) : ResourceMonitor := mkMonitor cfg ∅.

(** The sum over the plugins in the order [order] in which Go ranges over the
    map. *)
Definition total_usage (usage : PluginMetrics → float64) (order : list string) (rm : ResourceMonitor) : float64 :=
  foldl (λ total name, match pluginMetrics rm !! name with Some m => f_add total (usage m) | None => total end) f_zero order.

Definition CheckResourceLimits (order : list string) (rm : ResourceMonitor) : res plugin_error () :=
  let totalMemory := total_usage MemoryUsageMB order rm in
  if f_ltb (f_of_Z (MaxMemoryMB (rm_config rm))) (f_add totalMemory (f_of_Z 50)) then Err EMemory
  else
    let totalCPU := total_usage CPUUsagePercent order rm in
    if f_ltb (f_of_Z (MaxCPUPercent (rm_config rm))) (f_add totalCPU (f_of_Z 10)) then Err ECPU else Ok tt.

Definition RecordPluginMetrics (name : string) (m : PluginMetrics) (rm : ResourceMonitor) : ResourceMonitor :=
  mkMonitor (rm_config rm) (<[name := m]> (pluginMetrics rm)).
Definition GetPluginMetrics (name : string) (rm : ResourceMonitor) : option PluginMetrics := pluginMetrics rm !! name.
Definition MonitorCleanup (name : string) (rm : ResourceMonitor) : ResourceMonitor :=
  mkMonitor (rm_config rm) (delete name (pluginMetrics rm)).

(** ** Loading *)

(** A plugin: an identity, its name and the error of each phase. *)
Record plugin := mkPlugin { p_id : nat; p_name : string; p_preinit : option nat; p_init : option nat; p_postinit : option nat }.

(** The manager: its extensions, the registry of package plugin, and the
    optional components.  [started]: the plugins whose phases have run. *)
Record Manager := mkManager {
  extensions : gmap string plugin; registry : gmap string plugin; sandbox : option SecurityConfig;
  resourceMonitor : option ResourceMonitor; pm : option Z; started : list nat }.

Definition with_plugins (ext reg : gmap string plugin) (st : list nat) (m : Manager) : Manager :=
  mkManager ext reg (sandbox m) (resourceMonitor m) (pm m) st.
Definition with_monitor (rm : option ResourceMonitor) (m : Manager) : Manager :=
  mkManager (extensions m) (registry m) (sandbox m) rm (pm m) (started m).

Fixpoint TrimSuffix (x s : string) : string :=
  match s with EmptyString => s | String c s' => if String.eqb s x then EmptyString else String c (TrimSuffix x s') end.

Definition extractPluginName (path : string) : string := Base (TrimSuffix (Ext path) path).

Definition ValidatePluginLimit (currentCount maxPlugins : Z) : res plugin_error () :=
  if ((0 <? maxPlugins) && (maxPlugins <=? currentCount))%Z then Err ELimit else Ok tt.

(** The system under the manager: what [plugin.Open] finds at a path — nothing,
    a file without a usable [Instance], or a plugin. *)
Record system := mkSystem { sys_cwd : string; sys_fs : string → option node; sys_open : string → option (option plugin) }.

Definition phase (e : option nat) (k : res plugin_error plugin) : res plugin_error plugin :=
  match e with Some err => Err (EPhase err) | None => k end.

(** [plugin.LoadPlugin]: the plugin to register, under its own name. *)
Definition open_plugin (sys : system) (path : string) : res plugin_error plugin :=
  match sys_open sys path with
  | None => Err EOpen
  | Some None => Err ESymbol
  | Some (Some p) => phase (p_preinit p) (phase (p_init p) (phase (p_postinit p) (Ok p)))
  end.

Definition loadPluginInternal (sys : system) (path : string) (m : Manager) : res plugin_error () * Manager :=
  let name := extractPluginName path in
  match extensions m !! name with
  | Some _ => (Ok tt, m)
  | None =>
      match open_plugin sys path with
      | Ok p =>
          let reg := <[p_name p := p]> (registry m) in
          let ext := match reg !! name with Some q => <[name := q]> (extensions m) | None => extensions m end in
          (Ok tt, with_plugins ext reg (started m ++ [p_id p]) m)
      | Err e => (Err e, m)
      | Panic => (Panic, m)
      | NoFuel => (NoFuel, m)
      end
  end.

Definition opt_check {A} (o : option A) (f : A → res plugin_error ()) : res plugin_error () :=
  match o with Some a => f a | None => Ok tt end.

(** [LoadPlugin]; [order]: the iteration over the metrics, [now] and [duration]:
    the clock. *)
Definition LoadPlugin (sys : system) (order : list string) (now duration : Z) (path : string) (m : Manager) :
    res plugin_error () * Manager :=
  let pluginName := extractPluginName path in
  let checks :=
    rbind (opt_check (sandbox m) (λ s, ValidatePluginPath (sys_cwd sys) s path)) (λ _,
    rbind (opt_check (sandbox m) (λ s, ValidatePluginSignature (sys_fs sys) s path)) (λ _,
    rbind (opt_check (resourceMonitor m) (CheckResourceLimits order)) (λ _,
    opt_check (pm m) (ValidatePluginLimit (Z.of_nat (size (extensions m))))))) in
  match checks with
  | Ok _ =>
      let (r, m) := loadPluginInternal sys path m in
      match r with
      | Ok _ =>
          (Ok tt, with_monitor (RecordPluginMetrics pluginName (mkMetrics f_zero f_zero duration 0 now) <$> resourceMonitor m) m)
      | e => (e, m)
      end
  | e => (e, m)
  end.

(** [shouldLoadPlugin]. *)
Definition shouldLoadPlugin (includes excludes : list string) (name : string) : bool :=
  match includes with
  | _ :: _ => existsb (String.eqb name) includes
  | [] => negb (existsb (String.eqb name) excludes)
  end.

(** The loop of [loadFilePlugins] over the files found; [order] and [clock] give
    the iteration over the metrics and the times of each load. *)
Fixpoint loadFiles (sys : system) (order : Manager → list string) (clock : nat → Z * Z) (includes excludes : list string)
    (files : list string) (m : Manager) : res plugin_error () * Manager :=
  match files with
  | [] => (Ok tt, m)
  | f :: files' =>
      if negb (shouldLoadPlugin includes excludes (TrimSuffix ".so" (Base f))) then
        loadFiles sys order clock includes excludes files' m
      else
        match LoadPlugin sys (order m) (clock (length files)).1 (clock (length files)).2 f m with
        | (Ok _, m') => loadFiles sys order clock includes excludes files' m'
        | e => e
        end
  end.

(** [loadFilePlugins]; [glob] is [filepath.Glob], without the patterns it
    refuses. *)
Definition loadFilePlugins (sys : system) (order : Manager → list string) (clock : nat → Z * Z) (includes excludes : list string)
    (basePath : string) (glob : string → list string) (m : Manager) : res plugin_error () * Manager :=
  if String.eqb basePath "" then (Ok tt, m)
  else
    loadFiles sys order clock includes excludes
      (glob (JoinPath basePath "*.so") ++ glob (JoinPath (JoinPath basePath "plugins") "*.so")) m.

(** ** Properties of the sandbox *)

(** Where a path leads from the working directory [wd]. *)
Definition place (wd : list string) (p : string) : list string := resolve (if IsAbs p then [] else wd) p.

Lemma existsb_elem {A} (f : A → bool) (l : list A) : existsb f l = true ↔ ∃ x, x ∈ l ∧ f x = true.
Proof. rewrite existsb_exists. split; intros (x & Hx & Hf); exists x; (split; [|done]); by apply list_elem_of_In. Qed.

(** Which paths the sandbox allows.  A path whose extension is not blocked
    passes, with allowed folders, exactly when one of them is the root, or the
    place the path leads to agrees with it up to the last part of the folder's
    path, which need only be a prefix of the part in its place.  So for every
    allowed folder all folders beside it whose names begin with its name are
    allowed too. *)
Theorem sandbox_accepts_iff (wd : list string) (s : SecurityConfig) (path : string) :
  Forall (λ c, normal c = true) wd → EnableSandbox s = true → AllowedPaths s ≠ [] →
  (∀ b, b ∈ BlockedExtensions s → lower (Ext path) ≠ lower b) →
  ValidatePluginPath (abs_path wd) s path = Ok tt ↔
  ∃ a, a ∈ AllowedPaths s ∧
    (place wd a = [] ∨ ∃ cs l x rest, place wd a = cs ++ [l] ∧ place wd path = cs ++ (l +:+ x) :: rest).
Proof.
  intros Hwd He Ha Hb. unfold ValidatePluginPath. rewrite He. cbn [negb].
  assert (existsb (λ blocked, String.eqb (lower (Ext path)) (lower blocked)) (BlockedExtensions s) = false) as ->.
  { apply not_true_iff_false. intros (b & Hin & Heq%String.eqb_eq)%existsb_elem. by apply (Hb b). }
  assert (∀ p, Abs (abs_path wd) p = abs_path (place wd p)) as Habs by (intros p; by apply Abs_resolve).
  assert (∀ p, Forall (λ c, normal c = true) (place wd p)) as Hn by (intros p; apply resolve_normal; by destruct (IsAbs p)).
  assert (∀ a, HasPrefix (Abs (abs_path wd) path) (Abs (abs_path wd) a) = true ↔
    (place wd a = [] ∨ ∃ cs l x rest, place wd a = cs ++ [l] ∧ place wd path = cs ++ (l +:+ x) :: rest)) as Hpre.
  { intros a. rewrite !Habs. destruct (place wd a) as [|l cs _] eqn:E using rev_ind.
    - split; [by left|]. intros _. apply HasPrefix_spec. by exists (path_of (place wd path)).
    - rewrite abs_path_string_prefix; [|rewrite <- E; apply Hn|apply Hn]. split.
      + intros (x & rest & Hr). right. by exists cs, l, x, rest.
      + intros [Hnil|(cs' & l' & x & rest & Heq & Hr)]; [by destruct cs|].
        apply app_inj_tail in Heq as [-> ->]. by exists x, rest. }
  destruct (AllowedPaths s) as [|a0 allowed] eqn:Eall; [done|]. rewrite <- Eall.
  destruct (existsb _ (AllowedPaths s)) eqn:E.
  - split; [intros _|done]. apply existsb_elem in E as (a & Hin & Hp). exists a. split; [done|]. by apply Hpre.
  - split; [done|]. intros (a & Hin & Hp%Hpre). exfalso. apply not_true_iff_false in E. apply E, existsb_elem. by exists a.
Qed.

(** What a signature is.  When signatures are required and the unsafe mode
    is off, a plugin passes exactly when the plugin and the file beside it with
    the suffix ".sig" are files, and the contents of the latter, without white
    space at its ends, are the SHA-256 of the plugin in lower-case hexadecimal:
    the two checks of the format refuse nothing that the comparison would
    accept. *)
Theorem signature_accepts_iff (fs : string → option node) (s : SecurityConfig) (path : string) :
  RequireSignature s = true → AllowUnsafe s = false →
  ValidatePluginSignature fs s path = Ok tt ↔
  ∃ data sig, fs path = Some (NFile data) ∧ fs (path +:+ ".sig") = Some (NFile sig) ∧
    TrimSpace sig = EncodeToString (sha256 (string_bytes data)).
Proof.
  intros Hr Hu. unfold ValidatePluginSignature, fileExists, calculateFileHash, readSignatureFile. rewrite Hr, Hu. cbn [negb].
  destruct (fs path) as [[|data]|] eqn:Ep; cbn [negb]; [split; [done|intros (? & ? & ? & _); congruence]| |
    split; [done|intros (? & ? & ? & _); congruence]].
  destruct (fs (path +:+ ".sig")) as [[|sig]|] eqn:Es; cbn [negb rbind]; [split; [done|intros (? & ? & ? & ? & _); congruence]| |
    split; [done|intros (? & ? & ? & ? & _); congruence]].
  destruct (sha256_bytes (string_bytes data)) as [Hlen Hb]. destruct (encoded _ Hb) as (Hl & _ & Hd). rewrite Hlen in Hl.
  split.
  - intros Hok. exists data, sig. split_and!; [done..|]. destruct (negb (_ =? 64)); [done|].
    destruct (negb (hex_decodable _)); [done|]. cbn [rbind] in Hok. by destruct (String.eqb_spec (EncodeToString (sha256 (string_bytes data))) (TrimSpace sig)).
  - intros (d & g & Hd' & Hg & Heq). injection Hd' as <-. injection Hg as <-. rewrite Heq, Hl. cbn [Nat.eqb negb Nat.mul Nat.add].
    rewrite Hd. cbn [negb rbind]. by rewrite String.eqb_refl.
Qed.

(** ** Properties of loading *)

(** What a call of [LoadPlugin] can do: nothing but record metrics, or start the
    plugin found at the path after all checks have passed. *)
Definition checked (sys : system) (path : string) (m : Manager) : Prop :=
  (∀ s, sandbox m = Some s → ValidatePluginPath (sys_cwd sys) s path = Ok tt ∧ ValidatePluginSignature (sys_fs sys) s path = Ok tt) ∧
  ∀ k, pm m = Some k → ValidatePluginLimit (Z.of_nat (size (extensions m))) k = Ok tt.

Definition started_by (sys : system) (path : string) (p : plugin) (m m' : Manager) : Prop :=
  let name := extractPluginName path in
  sys_open sys path = Some (Some p) ∧ started m' = started m ++ [p_id p] ∧ registry m' = <[p_name p := p]> (registry m) ∧
  extensions m !! name = None ∧
  extensions m' = match registry m' !! name with Some q => <[name := q]> (extensions m) | None => extensions m end.

Definition zero_usage (rm : ResourceMonitor) : Prop :=
  map_Forall (λ _ mt, MemoryUsageMB mt = f_zero ∧ CPUUsagePercent mt = f_zero) (pluginMetrics rm).

Lemma rbind_tt {E} (c d : res E ()) : rbind c (λ _, d) = Ok tt ↔ c = Ok tt ∧ d = Ok tt.
Proof. destruct c as [[]| | |]; cbn [rbind]; split; intros; try tauto; try done; by destruct_and?. Qed.

Lemma load_internal_cases sys path m r m' : loadPluginInternal sys path m = (r, m') →
  m' = m ∨ r = Ok tt ∧ ∃ p, started_by sys path p m m' ∧ sandbox m' = sandbox m ∧ resourceMonitor m' = resourceMonitor m ∧ pm m' = pm m.
Proof.
  unfold loadPluginInternal, started_by. destruct (extensions m !! _) eqn:Ex; [injection 1 as <- <-; by left|].
  unfold open_plugin. destruct (sys_open sys path) as [[p|]|]; try (injection 1 as <- <-; by left).
  destruct (p_preinit p); [injection 1 as <- <-; by left|]. destruct (p_init p); [injection 1 as <- <-; by left|].
  destruct (p_postinit p); cbn [phase]; injection 1 as <- <-; [by left|]. right. split; [done|]. by exists p.
Qed.

Lemma load_cases sys order now dur path m r m' : LoadPlugin sys order now dur path m = (r, m') →
  m' = m ∨ checked sys path m ∧ sandbox m' = sandbox m ∧ pm m' = pm m ∧
    (resourceMonitor m' = resourceMonitor m ∨
     r = Ok tt ∧ resourceMonitor m' =
       RecordPluginMetrics (extractPluginName path) (mkMetrics f_zero f_zero dur 0 now) <$> resourceMonitor m) ∧
    (extensions m' = extensions m ∧ registry m' = registry m ∧ started m' = started m ∨ ∃ p, started_by sys path p m m').
Proof.
  unfold LoadPlugin. set (checks := rbind _ _). destruct checks as [[]| | |] eqn:Ec; try (injection 1 as <- <-; by left).
  unfold checks in Ec. rewrite !rbind_tt in Ec. destruct Ec as (H1 & H2 & _ & H4).
  assert (checked sys path m) as Hc.
  { split; [intros s Hs; by rewrite Hs in H1, H2|intros k Hk; by rewrite Hk in H4]. }
  destruct (loadPluginInternal sys path m) as [r0 m0] eqn:El. apply load_internal_cases in El.
  destruct r0; injection 1 as <- <-; right; (split; [done|]); destruct El as [->|(? & p & Hp & Hs & Hr & Hl)]; try done;
    cbn [with_monitor sandbox pm resourceMonitor extensions registry started];
    first [by split_and!; auto | split_and!; try done; [right; split; [done|by rewrite Hr]|right; by exists p]].
Qed.

(** One call of the loader: what it finds, the order and clock, the path. *)
Record load := mkLoad { l_sys : system; l_order : list string; l_now : Z; l_dur : Z; l_path : string }.
Definition load_step (m : Manager) (l : load) : Manager := (LoadPlugin (l_sys l) (l_order l) (l_now l) (l_dur l) (l_path l) m).2.

(** C19: No plugin runs unchecked.  In every sequence of loads: a plugin whose
    phases have run was found at a path that passed the path and the signature
    check of the sandbox in that call, and with a limit the manager never has
    more extensions than the limit. *)
Theorem loads_guarded (ops : list load) (m0 : Manager) :
  let m := foldl load_step m0 ops in
  (∀ i, i ∈ started m → i ∈ started m0 ∨ ∃ l p, l ∈ ops ∧ sys_open (l_sys l) (l_path l) = Some (Some p) ∧ p_id p = i ∧
    ∀ s, sandbox m0 = Some s → ValidatePluginPath (sys_cwd (l_sys l)) s (l_path l) = Ok tt ∧
      ValidatePluginSignature (sys_fs (l_sys l)) s (l_path l) = Ok tt) ∧
  (∀ k, pm m0 = Some k → (0 < k)%Z → (Z.of_nat (size (extensions m0)) ≤ k)%Z → (Z.of_nat (size (extensions m)) ≤ k)%Z).
Proof.
  intros m. unfold m.
  set (Inv m := sandbox m = sandbox m0 ∧ pm m = pm m0 ∧
    (∀ i, i ∈ started m → i ∈ started m0 ∨ ∃ l p, l ∈ ops ∧ sys_open (l_sys l) (l_path l) = Some (Some p) ∧ p_id p = i ∧
      ∀ s, sandbox m0 = Some s → ValidatePluginPath (sys_cwd (l_sys l)) s (l_path l) = Ok tt ∧
        ValidatePluginSignature (sys_fs (l_sys l)) s (l_path l) = Ok tt) ∧
    (∀ k, pm m0 = Some k → (0 < k)%Z → (Z.of_nat (size (extensions m0)) ≤ k)%Z → (Z.of_nat (size (extensions m)) ≤ k)%Z)).
  assert (Inv (foldl load_step m0 ops)) as (_ & _ & ? & ?); [|done]. apply foldl_ind; [split_and!; auto|].
  intros a l Hl (Hs & Hp & Hst & Hk). unfold load_step. destruct (LoadPlugin _ _ _ _ _ _) as [r m'] eqn:E. cbn [snd].
  apply load_cases in E as [->|([Hc1 Hc2] & Hs' & Hp' & _ & [(He & _ & Hst')|(p & Ho & Hst' & _ & Hno & He)])]; [done| |].
  - unfold Inv. rewrite Hs', Hp', He, Hst'. done.
  - unfold Inv. rewrite Hs', Hp', Hst'. split_and!; [done..| |].
    + intros i [Hi| ->%list_elem_of_singleton]%elem_of_app; [by apply Hst|]. right. exists l, p. split_and!; [done..|].
      intros s Hs0. apply Hc1. by rewrite Hs.
    + intros k Hk0 Hpos Hle. specialize (Hk k Hk0 Hpos Hle). rewrite Hp in Hc2. specialize (Hc2 k Hk0).
      unfold ValidatePluginLimit in Hc2. destruct (Z.ltb_spec 0 k) as [_|]; [|lia]. cbn [andb] in Hc2.
      destruct (Z.leb_spec k (Z.of_nat (size (extensions a)))) as [|Hlt]; [done|]. rewrite He.
      destruct (registry m' !! _); [|lia]. rewrite map_size_insert_None by done. lia.
Qed.

Lemma usage_zero usage rm order : (∀ n mt, pluginMetrics rm !! n = Some mt → usage mt = f_zero) → total_usage usage order rm = f_zero.
Proof.
  intros Hz. unfold total_usage. apply foldl_id. intros n _. destruct (pluginMetrics rm !! n) as [mt|] eqn:E; [|done].
  by rewrite (Hz n mt E).
Qed.

(** The resource check does not look at resources.  Whatever plugins have
    been loaded into a new manager, the check answers what it answers without
    any plugin, from the configured limits alone: a load records that the
    plugin uses no memory and no processor time, and nothing records more. *)
Theorem resource_check_ignores_use (ops : list load) (m0 : Manager) (cfg : PerformanceConfig) (order : list string) :
  resourceMonitor m0 = Some (NewResourceMonitor cfg) →
  ∃ rm, resourceMonitor (foldl load_step m0 ops) = Some rm ∧
    CheckResourceLimits order rm = CheckResourceLimits [] (NewResourceMonitor cfg).
Proof.
  intros Hm. assert (∃ rm, resourceMonitor (foldl load_step m0 ops) = Some rm ∧ rm_config rm = cfg ∧ zero_usage rm) as (rm & Hr & Hc & Hz).
  { apply (foldl_ind (λ m, ∃ rm, resourceMonitor m = Some rm ∧ rm_config rm = cfg ∧ zero_usage rm)).
    - exists (NewResourceMonitor cfg). split_and!; [done..|]. apply map_Forall_empty.
    - intros a l _ (rm & Hr & Hc & Hz). unfold load_step. destruct (LoadPlugin _ _ _ _ _ _) as [r m'] eqn:E. cbn [snd].
      apply load_cases in E as [->|(_ & _ & _ & [Hr'|[_ Hr']] & _)]; [by exists rm|exists rm; by rewrite Hr'|].
      rewrite Hr in Hr'. eexists. split; [exact Hr'|]. split; [done|].
      apply map_Forall_insert_2; [done|exact Hz]. }
  exists rm. split; [done|]. unfold CheckResourceLimits. rewrite !usage_zero; [by rewrite Hc|..]; try done.
  - intros n mt Hn. by destruct (Hz n mt Hn).
  - intros n mt Hn. by destruct (Hz n mt Hn).
Qed.

(** A plugin whose name is not that of its file.  When the checks pass and
    no plugin is registered under the name of the file, every load of the file
    reports success and runs the three phases of the plugin again, and the
    manager never has the extension: it looks for the plugin under the name of
    the file, while it is registered under its own. *)
Theorem misnamed_plugin_restarts (sys : system) (order : list string) (now dur : Z) (path : string) (m : Manager) (p : plugin) (n : nat) :
  resourceMonitor m = None → checked sys path m → sys_open sys path = Some (Some p) →
  p_preinit p = None → p_init p = None → p_postinit p = None → p_name p ≠ extractPluginName path →
  extensions m !! extractPluginName path = None → registry m !! extractPluginName path = None →
  let m' := Nat.iter n (λ m, (LoadPlugin sys order now dur path m).2) m in
  started m' = started m ++ replicate n (p_id p) ∧ extensions m' = extensions m ∧
  (LoadPlugin sys order now dur path m').1 = Ok tt.
Proof.
  intros Hrm Hc Ho H1 H2 H3 Hne He Hr m'.
  assert (∀ m, resourceMonitor m = None → checked sys path m → extensions m !! extractPluginName path = None →
    registry m !! extractPluginName path = None →
    LoadPlugin sys order now dur path m = (Ok tt, with_monitor None (with_plugins (extensions m) (<[p_name p := p]> (registry m)) (started m ++ [p_id p]) m))) as Hstep.
  { clear -Ho H1 H2 H3 Hne. intros m Hrm [Hc1 Hc2] He Hr. unfold LoadPlugin. set (checks := rbind _ _).
    assert (checks = Ok tt) as ->.
    { unfold checks. rewrite !rbind_tt. rewrite Hrm. split_and!; [..|done|]; unfold opt_check.
      - destruct (sandbox m) as [s|]; [by apply Hc1|done].
      - destruct (sandbox m) as [s|]; [by apply Hc1|done].
      - destruct (pm m) as [k|]; [by apply Hc2|done]. }
    unfold loadPluginInternal, open_plugin. rewrite He, Ho, H1, H2, H3. cbn [phase].
    rewrite lookup_insert_ne, Hr by done. unfold with_monitor, with_plugins. cbn. by rewrite Hrm. }
  assert (resourceMonitor m' = None ∧ checked sys path m' ∧ extensions m' = extensions m ∧ registry m' !! extractPluginName path = None ∧
    started m' = started m ++ replicate n (p_id p)) as (Hrm' & Hc' & He' & Hr' & Hs').
  { unfold m'. clear m'. induction n as [|n IH]; [by rewrite app_nil_r|]. cbn [Nat.iter nat_rect].
    destruct IH as (Hrm' & Hc' & He' & Hr' & Hs'). unfold Nat.iter in *. rewrite Hstep by (done || by rewrite He').
    cbn [snd with_monitor with_plugins resourceMonitor extensions registry started]. split_and!; [done| |done| |].
    - destruct Hc' as [Hc1 Hc2]. split; [exact Hc1|exact Hc2].
    - by rewrite lookup_insert_ne.
    - rewrite Hs', <- app_assoc. f_equal. by rewrite (replicate_S_end n). }
  split_and!; [done..|]. rewrite Hstep by (done || by rewrite He'). done.
Qed.

(** *** At concrete inputs *)

Definition demo_security : SecurityConfig := mkSecurity true ["/opt/plugins"] [".exe"] [] true false.
Definition demo_fs (path : string) : option node :=
  if String.eqb path "/opt/plugins/a.so" then Some (NFile "abc")
  else if String.eqb path "/opt/plugins/a.so.sig" then
    Some (NFile " ba7816bf8f01cfea414140de5dae2223b00361a396177a9cb410ff61f20015ad")
  else None.
Definition demo_plugin : plugin := mkPlugin 7 "alpha" None None None.
Definition demo_system : system :=
  mkSystem "/srv" demo_fs (λ p, if String.eqb p "/opt/plugins/a.so" then Some (Some demo_plugin) else None).
Definition demo_manager : Manager := mkManager ∅ ∅ (Some demo_security) None (Some 2%Z) [].
Definition demo_load : load := mkLoad demo_system [] 10 1 "/opt/plugins/a.so".

(** A folder beside the allowed one is accepted, one elsewhere is not. *)
Lemma sandbox_accepts_iff_witness :
  ValidatePluginPath "/srv" demo_security "/opt/plugins-evil/x.so" = Ok tt ∧
  ¬ ValidatePluginPath "/srv" demo_security "../opt/plug/x.so" = Ok tt.
Proof.
  split.
  - apply (sandbox_accepts_iff ["srv"] demo_security "/opt/plugins-evil/x.so"); [by repeat constructor|done|done| |].
    + intros b Hb. apply list_elem_of_singleton in Hb as ->. vm_compute. discriminate.
    + exists "/opt/plugins". split; [left|]. right. by exists ["opt"], "plugins", "-evil", ["x.so"].
  - intros Hv. apply (sandbox_accepts_iff ["srv"] demo_security "../opt/plug/x.so") in Hv; [|by repeat constructor|done|done|].
    + destruct Hv as (a & Ha & Hp). apply list_elem_of_singleton in Ha as ->.
      destruct Hp as [Hp|(cs & l & x & rest & Hc & Hr)]; [by vm_compute in Hp|].
      change (["opt"; "plugins"] = cs ++ [l]) in Hc. change (["opt"; "plug"; "x.so"] = cs ++ (l +:+ x) :: rest) in Hr.
      destruct cs as [|c [|c2 [|c3 cs]]]; [discriminate Hc| |discriminate Hc|discriminate Hc].
      injection Hc as _ <-. injection Hr as _ Hr _. destruct x; discriminate Hr.
    + intros b Hb. apply list_elem_of_singleton in Hb as ->. vm_compute. discriminate.
Defined.

Lemma signature_accepts_iff_witness : ValidatePluginSignature demo_fs demo_security "/opt/plugins/a.so" = Ok tt.
Proof.
  apply (signature_accepts_iff demo_fs demo_security "/opt/plugins/a.so"); [done|done|].
  exists "abc", " ba7816bf8f01cfea414140de5dae2223b00361a396177a9cb410ff61f20015ad".
  split; [reflexivity|]. split; [reflexivity|]. vm_compute. reflexivity.
Defined.

(** The same signature in upper case is refused, though it decodes. *)
Example upper_case_signature :
  let fs p := if String.eqb p "a.so" then Some (NFile "abc") else
    Some (NFile "BA7816BF8F01CFEA414140DE5DAE2223B00361A396177A9CB410FF61F20015AD") in
  ValidatePluginSignature fs demo_security "a.so" = Err EMismatch.
Proof. vm_compute. reflexivity. Qed.

Lemma loads_guarded_witness :
  started (load_step demo_manager demo_load) = [7] ∧
  (Z.of_nat (size (extensions (foldl load_step demo_manager [demo_load; demo_load]))) ≤ 2)%Z.
Proof.
  split; [vm_compute; reflexivity|].
  apply (proj2 (loads_guarded [demo_load; demo_load] demo_manager) 2%Z); [reflexivity|lia|vm_compute; discriminate].
Defined.

Lemma resource_check_ignores_use_witness :
  let m0 := mkManager ∅ ∅ None (Some (NewResourceMonitor (mkPerf 256 30))) None [] in
  ∃ rm, resourceMonitor (foldl load_step m0 [demo_load; demo_load]) = Some rm ∧
    CheckResourceLimits ["a"] rm = CheckResourceLimits [] (NewResourceMonitor (mkPerf 256 30)).
Proof. intros m0. apply (resource_check_ignores_use [demo_load; demo_load] m0 (mkPerf 256 30) ["a"]). reflexivity. Defined.

Example resource_check_default : CheckResourceLimits [] (NewResourceMonitor (mkPerf 256 30)) = Ok tt.
Proof. vm_compute. reflexivity. Qed.

Lemma misnamed_plugin_restarts_witness :
  let m' := Nat.iter 3 (λ m, (LoadPlugin demo_system [] 0 0 "/opt/plugins/a.so" m).2) demo_manager in
  started m' = [7; 7; 7] ∧ extensions m' = ∅ ∧ (LoadPlugin demo_system [] 0 0 "/opt/plugins/a.so" m').1 = Ok tt.
Proof.
  apply (misnamed_plugin_restarts demo_system [] 0 0 "/opt/plugins/a.so" demo_manager demo_plugin 3); try reflexivity; [|discriminate].
  split.
  - intros s [= <-]. split; vm_compute; reflexivity.
  - intros k [= <-]. reflexivity.
Defined.
