(* ===== verification/EventRouting.v ===== *)
(** * Events of the manager

    Models src/extension/manager/events.go and src/data/messaging.go: to which of
    the in-memory dispatcher and the external queues an event or a subscription
    goes.  A queue (RabbitMQ or Kafka) is the class [Queue]: it keeps the
    consumers of each name and hands each message it confirms to one of them, as
    both systems do for the consumers of one queue or one group.  The dispatcher
    runs each handler it is given once per event ([dispatcher_delivers_once] of
    [Dispatcher]); here a delivery is recorded when it is handed out. *)

From stdpp Require Import base tactics option list gmap strings.
From Stdlib Require Import ZArith Ascii Lia.
From S2P Require Import Prelude GoStrings Dispatcher.

(** ** External queues *)

(** [publish] fails, or confirms the message and hands it to a consumer, if
    there is one; a message that a queue keeps for a later consumer is not
    followed. *)
Class Queue (B : Type) := {
  connected : B → bool;
  publish : string → nat → B → option (option nat) * B;
  consume : string → nat → B → bool * B;
  consumers : B → string → list nat;
  publish_consumers name d b : consumers (publish name d b).2 = consumers b;
  publish_hands name d b o : (publish name d b).1 = Some o →
    match o with Some h => h ∈ consumers b name | None => consumers b name = [] end;
  consume_ok name h b : (consume name h b).1 = true →
    consumers (consume name h b).2 name = consumers b name ++ [h] ∧
    ∀ n, n ≠ name → consumers (consume name h b).2 n = consumers b n;
  consume_fails name h b : (consume name h b).1 = false → consumers (consume name h b).2 = consumers b }.

Inductive route := ByMemory | ByQueue.
Record delivery := mkDelivery { d_handler : nat; d_event : string; d_data : nat; d_route : route }.

Inductive queue_error := EDisabled | ENotInitialized | EClosed | EInactive | EBroker | ENoData | EBoth.

Section Events.
Context {B : Type} `{Queue B}.

(** ** The data layer *)

Record Messaging := mkMessaging { Enabled : bool; FallbackToMemory : bool }.
Record Data := mkData { conf_Messaging : option Messaging; closed : bool; RMQ : option B; KFK : option B }.

Definition IsMessagingEnabled (d : Data) : bool :=
  negb (closed d) && match conf_Messaging d with Some c => Enabled c | None => false end.

Definition is_connected (q : option B) : bool := match q with Some b => connected b | None => false end.

Definition IsQueueAvailable (d : Data) : bool := IsMessagingEnabled d && (is_connected (RMQ d) || is_connected (KFK d)).

Definition ShouldUseMemoryFallback (d : Data) : bool :=
  IsMessagingEnabled d && match conf_Messaging d with Some c => Enabled c && FallbackToMemory c | None => true end.

Definition with_rmq (b : B) (d : Data) : Data := mkData (conf_Messaging d) (closed d) (Some b) (KFK d).
Definition with_kfk (b : B) (d : Data) : Data := mkData (conf_Messaging d) (closed d) (RMQ d) (Some b).

(** The common part of the four calls: the queue to use, or the error. *)
Definition active (q : option B) (d : Data) : res queue_error B :=
  if negb (IsMessagingEnabled d) then Err EDisabled
  else if closed d then Err EClosed
  else match q with None => Err ENotInitialized | Some b => if connected b then Ok b else Err EInactive end.

(** [PublishToRabbitMQ], [PublishToKafka]: on success, who was handed the
    message. *)
Definition publish_to (q : option B) (put : B → Data → Data) (name : string) (body : nat) (d : Data) :
    res queue_error (option nat) * Data :=
  match active q d with
  | Ok b => match publish name body b with (Some o, b') => (Ok o, put b' d) | (None, b') => (Err EBroker, put b' d) end
  | Err e => (Err e, d)
  | Panic => (Panic, d)
  | NoFuel => (NoFuel, d)
  end.
Definition PublishToRabbitMQ (name : string) (body : nat) (d : Data) : res queue_error (option nat) * Data :=
  publish_to (RMQ d) with_rmq name body d.
Definition PublishToKafka (name : string) (body : nat) (d : Data) : res queue_error (option nat) * Data :=
  publish_to (KFK d) with_kfk name body d.

Definition consume_from (q : option B) (put : B → Data → Data) (name : string) (h : nat) (d : Data) : res queue_error () * Data :=
  match active q d with
  | Ok b => let (ok, b') := consume name h b in ((if ok : bool then Ok tt else Err EBroker), put b' d)
  | Err e => (Err e, d)
  | Panic => (Panic, d)
  | NoFuel => (NoFuel, d)
  end.
Definition ConsumeFromRabbitMQ (name : string) (h : nat) (d : Data) : res queue_error () * Data := consume_from (RMQ d) with_rmq name h d.
Definition ConsumeFromKafka (name : string) (h : nat) (d : Data) : res queue_error () * Data := consume_from (KFK d) with_kfk name h d.

(** ** The manager *)

(** [jobs]: the goroutines that publish to the queue, with the number of
    retries of [PublishEventWithRetry]; [delivered]: what the handlers got. *)
Record Manager := mkManager {
  extensions : gset string; data : option Data; eventDispatcher : Dispatcher;
  publishedBy : list (string * string); delivered : list delivery; jobs : list (string * nat * Z) }.

Definition with_data (d : Data) (m : Manager) : Manager :=
  mkManager (extensions m) (Some d) (eventDispatcher m) (publishedBy m) (delivered m) (jobs m).
Definition with_dispatcher (e : Dispatcher) (m : Manager) : Manager :=
  mkManager (extensions m) (data m) e (publishedBy m) (delivered m) (jobs m).
Definition add_deliveries (l : list delivery) (m : Manager) : Manager :=
  mkManager (extensions m) (data m) (eventDispatcher m) (publishedBy m) (delivered m ++ l) (jobs m).
Definition add_job (j : string * nat * Z) (m : Manager) : Manager :=
  mkManager (extensions m) (data m) (eventDispatcher m) (publishedBy m) (delivered m) (jobs m ++ [j]).
Definition track (l : list (string * string)) (m : Manager) : Manager :=
  mkManager (extensions m) (data m) (eventDispatcher m) (publishedBy m ++ l) (delivered m) (jobs m).

Definition ask (f : Data → bool) (m : Manager) : bool := match data m with Some d => f d | None => false end.
Definition isMessagingEnabled (m : Manager) : bool := ask IsMessagingEnabled m.
Definition isQueueAvailable (m : Manager) : bool := ask IsQueueAvailable m.
Definition shouldUseMemoryFallback (m : Manager) : bool := ask ShouldUseMemoryFallback m.

(** [EventTarget]: two flags. *)
Record EventTarget := mkTarget { to_memory : bool; to_queue : bool }.
Definition EventTargetMemory : EventTarget := mkTarget true false.
Definition EventTargetQueue : EventTarget := mkTarget false true.
Definition EventTargetAll : EventTarget := mkTarget true true.
Definition no_target : EventTarget := mkTarget false false.

Definition determineEventTarget (target : option EventTarget) (m : Manager) : EventTarget :=
  match target with
  | Some t => t
  | None =>
      if negb (isMessagingEnabled m) then no_target
      else if isQueueAvailable m then EventTargetAll
      else if shouldUseMemoryFallback m then EventTargetMemory
      else no_target
  end.

Definition isRegisteredExtension (name : string) (m : Manager) : bool := bool_decide (name ∈ extensions m).

Definition extractExtensionFromEventName (eventName : string) (m : Manager) : string :=
  match Split "."%char eventName with
  | p0 :: p1 :: rest =>
      if String.eqb p0 "exts" && negb (length rest =? 0) && isRegisteredExtension p1 m then p1
      else if isRegisteredExtension p0 m then p0 else ""
  | _ => ""
  end.

(** The events counted as published by an extension. *)
Definition published_entry (eventName : string) (m : Manager) : list (string * string) :=
  let ext := extractExtensionFromEventName eventName m in if String.eqb ext "" then [] else [(ext, eventName)].

Definition memory_deliveries (eventName : string) (d : nat) (m : Manager) : list delivery :=
  (λ h, mkDelivery h eventName d ByMemory) <$> handlers_of eventName (eventDispatcher m).

(** [PublishEvent] and, with [Some maxRetries], [PublishEventWithRetry]. *)
Definition PublishEvent (retries : option Z) (eventName : string) (d : nat) (target : option EventTarget) (m : Manager) : Manager :=
  if negb (isMessagingEnabled m) then m
  else
    let t := determineEventTarget target m in
    let m := track (published_entry eventName m) m in
    let memory := if to_memory t then
        match retries with
        | Some r => if (0 <=? r)%Z then memory_deliveries eventName d m else []
        | None => memory_deliveries eventName d m
        end
      else [] in
    let m := add_deliveries memory m in
    if to_queue t && isQueueAvailable m then add_job (eventName, d, default 0%Z retries) m else m.

Definition PublishMessage (name : string) (body : nat) (m : Manager) : res queue_error (option nat) * Manager :=
  match data m with
  | None => (Err ENoData, m)
  | Some dl =>
      if negb (IsMessagingEnabled dl) then (Err EDisabled, m)
      else
        match PublishToRabbitMQ name body dl with
        | (Ok o, dl) => (Ok o, with_data dl m)
        | (_, dl) =>
            match PublishToKafka name body dl with
            | (Ok o, dl) => (Ok o, with_data dl m)
            | (_, dl) => (Err EBoth, with_data dl m)
            end
        end
  end.

(** The attempts of [publishToQueueWithRetry]; [publishToQueue] makes one. *)
Fixpoint attempts (n : nat) (name : string) (d : nat) (m : Manager) : Manager :=
  match n with
  | O => m
  | S n' =>
      match PublishMessage name d m with
      | (Ok o, m) => add_deliveries (match o with Some h => [mkDelivery h name d ByQueue] | None => [] end) m
      | (_, m) => attempts n' name d m
      end
  end.

Definition publishToQueueWithRetry (marshals : nat → bool) (name : string) (d : nat) (maxRetries : Z) (m : Manager) : Manager :=
  if negb (isQueueAvailable m) then m else if negb (marshals d) then m else attempts (Z.to_nat (maxRetries + 1)) name d m.

(** The [i]-th goroutine that publishes to the queue runs. *)
Definition run_job (marshals : nat → bool) (i : nat) (m : Manager) : Manager :=
  match jobs m !! i with
  | None => m
  | Some (name, d, r) =>
      publishToQueueWithRetry marshals name d r
        (mkManager (extensions m) (data m) (eventDispatcher m) (publishedBy m) (delivered m) (delete i (jobs m)))
  end.

Definition SubscribeToMessages (name : string) (h : nat) (m : Manager) : res queue_error () * Manager :=
  match data m with
  | None => (Err ENoData, m)
  | Some dl =>
      if negb (IsMessagingEnabled dl) then (Err EDisabled, m)
      else
        match ConsumeFromRabbitMQ name h dl with
        | (Ok _, dl) => (Ok tt, with_data dl m)
        | (_, dl) =>
            match ConsumeFromKafka name h dl with
            | (Ok _, dl) => (Ok tt, with_data dl m)
            | (_, dl) => (Err EBoth, with_data dl m)
            end
        end
  end.

Definition subscribe_memory (name : string) (h : nat) (m : Manager) : Manager :=
  with_dispatcher (Subscribe name (Some h) (eventDispatcher m)) m.

Definition subscribeToQueue (name : string) (h : nat) (m : Manager) : Manager :=
  if negb (isQueueAvailable m) then if shouldUseMemoryFallback m then subscribe_memory name h m else m
  else
    match SubscribeToMessages name h m with
    | (Ok _, m) => m
    | (_, m) => if shouldUseMemoryFallback m then subscribe_memory name h m else m
    end.

Definition SubscribeEvent (name : string) (h : nat) (source : option EventTarget) (m : Manager) : Manager :=
  if negb (isMessagingEnabled m) then m
  else
    let t := determineEventTarget source m in
    let m := if to_memory t then subscribe_memory name h m else m in
    if to_queue t && isQueueAvailable m then subscribeToQueue name h m else m.

End Events.
Arguments Data : clear implicits.
Arguments Manager : clear implicits.

(** ** Deliveries *)

Section Deliveries.
Context {B : Type} `{Queue B} (steady : B → Prop) (marshals : nat → bool).

(** A queue that stays connected and whose calls succeed. *)
Hypothesis steady_connected : ∀ b, steady b → connected b = true.
Hypothesis steady_consume : ∀ name h b, steady b → (consume name h b).1 = true ∧ steady (consume name h b).2.
Hypothesis steady_publish : ∀ name d b, steady b → is_Some (publish name d b).1 ∧ steady (publish name d b).2.

(** Messaging is on, RabbitMQ is steady, and the subscribers of [name] in both
    places are [ks]. *)
Record subscribed (name : string) (ks : list nat) (k : option B) (m : Manager B) : Prop := {
  sub_data : ∃ c b, data m = Some (mkData c false (Some b) k) ∧ match c with Some c => Enabled c = true | None => False end ∧
    steady b ∧ consumers b name = ks;
  sub_memory : handlers_of name (eventDispatcher m) = ks;
  sub_jobs : jobs m = [] }.

Lemma subscribed_flags name ks k m : subscribed name ks k m → isMessagingEnabled m = true ∧ isQueueAvailable m = true.
Proof.
  intros [(c & b & Hd & Hc & Hs & _) _ _]. unfold isMessagingEnabled, isQueueAvailable, ask. rewrite Hd.
  unfold IsQueueAvailable, IsMessagingEnabled, is_connected. cbn [closed conf_Messaging RMQ KFK negb andb].
  destruct c as [c|]; [|done]. by rewrite Hc, (steady_connected b Hs).
Qed.

Lemma handlers_subscribe name h (e : Dispatcher) : handlers_of name (Subscribe name (Some h) e) = handlers_of name e ++ [h].
Proof. unfold handlers_of, Subscribe. cbn [subscribers set_subs]. by rewrite lookup_insert_eq. Qed.

Lemma subscribe_step name ks k h m : subscribed name ks k m →
  subscribed name (ks ++ [h]) k (SubscribeEvent name h None m) ∧ delivered (SubscribeEvent name h None m) = delivered m.
Proof.
  intros Hsub. destruct (subscribed_flags _ _ _ _ Hsub) as [He Hq]. destruct Hsub as [(c & b & Hd & Hc & Hs & Hk) Hm Hj].
  unfold SubscribeEvent. rewrite He. unfold determineEventTarget. rewrite He, Hq. cbn [negb to_memory to_queue EventTargetAll andb].
  assert (isQueueAvailable (subscribe_memory name h m) = true) as Hq' by exact Hq. rewrite Hq'.
  unfold subscribeToQueue, SubscribeToMessages. rewrite Hq'. cbn [negb]. cbn [subscribe_memory with_dispatcher data]. rewrite Hd.
  assert (IsMessagingEnabled (mkData c false (Some b) k) = true) as Hen.
  { unfold IsMessagingEnabled. cbn [closed conf_Messaging negb andb]. by destruct c. }
  rewrite Hen. cbn [negb]. unfold ConsumeFromRabbitMQ, consume_from, active. rewrite Hen. cbn [negb closed RMQ].
  rewrite (steady_connected b Hs). destruct (steady_consume name h b Hs) as [Hok Hs']. pose proof (consume_ok name h b Hok) as [Hcons _].
  destruct (consume name h b) as [ok b']. cbn [fst snd] in *. subst ok. split; [|done]. constructor; cbn.
  - exists c, b'. split_and!; [done..|]. by rewrite Hcons, Hk.
  - unfold handlers_of. cbn. by rewrite lookup_insert_eq; simpl; rewrite <- Hm.
  - done.
Qed.

Definition subscribe_all (name : string) (hs : list nat) (m : Manager B) : Manager B :=
  foldl (λ m h, SubscribeEvent name h None m) m hs.

Lemma subscribe_all_spec name hs ks k m : subscribed name ks k m →
  subscribed name (ks ++ hs) k (subscribe_all name hs m) ∧ delivered (subscribe_all name hs m) = delivered m.
Proof.
  revert ks m. induction hs as [|h hs IH]; intros ks m Hs; [by rewrite app_nil_r|]. cbn [subscribe_all foldl].
  destruct (subscribe_step name ks k h m Hs) as [Hs' Hd]. destruct (IH _ _ Hs') as [Hs'' Hd']. rewrite <- app_assoc in Hs''.
  split; [exact Hs''|]. unfold subscribe_all in Hd'. by rewrite Hd', Hd.
Qed.

(** C35: How often a subscriber gets an event.  With RabbitMQ connected and
    working, handlers that subscribe to an event without naming a source
    subscribe in both places.  An event published without naming a target is
    then delivered to each of them once by the dispatcher, and to one of them a
    second time by the queue; published to the queue alone it reaches only one
    of them, whatever their number; published to memory alone it reaches each
    of them once. *)
Theorem event_delivered_again (name : string) (hs : list nat) (d : nat) (target : option EventTarget) (k : option B) (m : Manager B) :
  subscribed name [] k m → hs ≠ [] → marshals d = true →
  let t := default EventTargetAll target in
  ∃ h, h ∈ hs ∧
    delivered (run_job marshals 0 (PublishEvent None name d target (subscribe_all name hs m))) =
      delivered m ++ (if to_memory t then (λ h, mkDelivery h name d ByMemory) <$> hs else []) ++
        (if to_queue t then [mkDelivery h name d ByQueue] else []).
Proof.
  intros Hsub Hne Hmar t. destruct (subscribe_all_spec name hs [] k m Hsub) as [Hs Hdel]. cbn [app] in Hs.
  set (m1 := subscribe_all name hs m) in *. destruct (subscribed_flags _ _ _ _ Hs) as [He Hq].
  destruct Hs as [(c & b & Hd & Hc & Hst & Hk) Hm Hj].
  assert (determineEventTarget target m1 = t) as Ht.
  { unfold determineEventTarget, t. destruct target; [done|]. by rewrite He, Hq. }
  unfold PublishEvent. rewrite He, Ht. cbn [negb].
  set (mem := if to_memory t then memory_deliveries name d _ else []).
  assert (mem = if to_memory t then (λ h, mkDelivery h name d ByMemory) <$> hs else []) as Hmem.
  { unfold mem, memory_deliveries. destruct (to_memory t); [|done]. cbn. by rewrite Hm. }
  set (m2 := add_deliveries mem (track _ m1)). assert (isQueueAvailable m2 = true) as Hq2 by exact Hq. rewrite Hq2, andb_true_r.
  destruct (to_queue t).
  - unfold run_job. cbn [add_job jobs m2 add_deliveries track]. rewrite Hj. cbn [app lookup list_lookup default from_option id].
    unfold publishToQueueWithRetry. set (m3 := mkManager _ _ _ _ _ _). assert (isQueueAvailable m3 = true) as Hq3 by exact Hq.
    rewrite Hq3, Hmar. cbn [negb Z.add Z.to_nat Pos.to_nat]. change (Z.to_nat (0 + 1)) with 1. cbn [attempts].
    unfold PublishMessage. cbn [data m3 add_job m2 add_deliveries track]. rewrite Hd.
    assert (IsMessagingEnabled (mkData c false (Some b) k) = true) as Hen.
    { unfold IsMessagingEnabled. cbn [closed conf_Messaging negb andb]. by destruct c. }
    rewrite Hen. cbn [negb]. unfold PublishToRabbitMQ, publish_to, active. rewrite Hen. cbn [negb closed RMQ].
    rewrite (steady_connected b Hst). destruct (steady_publish name d b Hst) as [[o Ho] _].
    pose proof (publish_hands name d b o Ho) as Hh. rewrite Hk in Hh. destruct (publish name d b) as [o' b']. cbn [fst] in Ho. subst o'.
    destruct o as [h|]; [|done]. exists h. split; [done|]. cbn [delivered add_deliveries with_data m3 m2 add_job track].
    by rewrite Hdel, Hmem, <- app_assoc.
  - destruct hs as [|h hs]; [done|]. exists h. split; [left|]. unfold run_job. cbn [jobs m2 add_deliveries track]. rewrite Hj.
    cbn [lookup list_lookup delivered m2 add_deliveries track]. by rewrite Hdel, Hmem, app_nil_r.
Qed.

(** An event that moves to the other queue is lost.  Subscriptions are made
    at RabbitMQ when it works.  When it has gone away, an event for the queues
    is published to Kafka, where nobody consumes it: publishing succeeds and no
    subscriber gets the event. *)
Theorem failover_reaches_nobody (name : string) (hs : list nat) (d : nat) (kb lost : B) (m : Manager B) :
  subscribed name [] (Some kb) m → connected lost = false → steady kb → consumers kb name = [] → marshals d = true →
  let m1 := subscribe_all name hs m in
  ∀ dl, data m1 = Some dl →
  let m2 := with_data (with_rmq lost dl) m1 in
  (PublishMessage name d m2).1 = Ok None ∧
  delivered (run_job marshals 0 (PublishEvent None name d (Some EventTargetQueue) m2)) = delivered m.
Proof.
  intros Hsub Hlost Hkb Hcons Hmar m1 dl Hdl m2. destruct (subscribe_all_spec name hs [] _ m Hsub) as [Hs Hdel].
  fold m1 in Hs, Hdel. destruct Hs as [(c & b & Hd & Hc & Hst & Hk) Hm Hj]. rewrite Hd in Hdl. injection Hdl as <-.
  assert (IsMessagingEnabled (mkData c false (Some lost) (Some kb)) = true) as Hen.
  { unfold IsMessagingEnabled. cbn [closed conf_Messaging negb andb]. by destruct c. }
  assert (∀ mx : Manager B, data mx = Some (mkData c false (Some lost) (Some kb)) →
    ∃ kb', PublishMessage name d mx = (Ok None, with_data (mkData c false (Some lost) (Some kb')) mx)) as Hpub.
  { intros mx Hx. unfold PublishMessage. rewrite Hx, Hen. cbn [negb]. unfold PublishToRabbitMQ, PublishToKafka, publish_to, active.
    rewrite Hen. cbn [negb closed RMQ KFK]. rewrite Hlost. rewrite Hen. cbn [negb closed RMQ KFK].
    rewrite (steady_connected kb Hkb). destruct (steady_publish name d kb Hkb) as [[o Ho] _].
    pose proof (publish_hands name d kb o Ho) as Hh. rewrite Hcons in Hh. destruct (publish name d kb) as [o' kb']. cbn [fst] in Ho. subst o'.
    destruct o as [h|]; [by apply not_elem_of_nil in Hh|]. by exists kb'. }
  assert (data m2 = Some (mkData c false (Some lost) (Some kb))) as Hd2 by done. split.
  - destruct (Hpub m2 Hd2) as [kb' ->]. done.
  - assert (isMessagingEnabled m2 = true) as He2 by (unfold isMessagingEnabled, ask; by rewrite Hd2).
    assert (isQueueAvailable m2 = true) as Hq2.
    { unfold isQueueAvailable, ask, IsQueueAvailable, is_connected. rewrite Hd2, Hen. cbn [RMQ KFK andb]. by rewrite Hlost, (steady_connected kb Hkb). }
    unfold PublishEvent. rewrite He2. cbn [negb determineEventTarget to_memory to_queue EventTargetQueue andb].
    set (m3 := add_deliveries [] _). assert (isQueueAvailable m3 = true) as Hq3 by exact Hq2. rewrite Hq3.
    unfold run_job. cbn [add_job jobs m3 add_deliveries track m2 with_data]. rewrite Hj. cbn [app lookup list_lookup default from_option id].
    unfold publishToQueueWithRetry. set (m4 := mkManager _ _ _ _ _ _). assert (isQueueAvailable m4 = true) as Hq4 by exact Hq2.
    rewrite Hq4, Hmar. cbn [negb]. change (Z.to_nat (0 + 1)) with 1. cbn [attempts].
    destruct (Hpub m4 Hd2) as [kb' ->]. cbn [delivered add_deliveries with_data m4 add_job m3 track m2]. by rewrite !app_nil_r.
Qed.
End Deliveries.

(** A named target is taken literally.  Without a queue, an event published
    to the queue alone, once or with retries, is handed to nobody and leaves no
    goroutine behind, and a subscription to the queue alone does nothing, even
    when the fallback to memory is on; without a target both go to memory. *)
Theorem queue_target_without_queue {B : Type} `{Queue B} (m : Manager B) (r : option Z) (name : string) (d h : nat) :
  isMessagingEnabled m = true → isQueueAvailable m = false →
  let m' := PublishEvent r name d (Some EventTargetQueue) m in
  delivered m' = delivered m ∧ jobs m' = jobs m ∧ SubscribeEvent name h (Some EventTargetQueue) m = m ∧
  (shouldUseMemoryFallback m = true →
    delivered (PublishEvent None name d None m) = delivered m ++ memory_deliveries name d m ∧
    SubscribeEvent name h None m = subscribe_memory name h m).
Proof.
  intros He Hq m'. unfold m', PublishEvent, SubscribeEvent. rewrite He. cbn [negb determineEventTarget to_memory to_queue EventTargetQueue andb].
  set (m1 := add_deliveries [] _). assert (isQueueAvailable m1 = false) as -> by exact Hq. rewrite Hq.
  split_and!; [by cbn; rewrite app_nil_r|done|done|]. intros Hf. rewrite He, Hf. done.
Qed.

(** ** A queue in memory *)

(** Consumers by name, whose turn it is, and whether the queue is there. *)
Record mem_queue := mkQueue { mq_up : bool; mq_consumers : gmap string (list nat); mq_turn : nat }.
Definition mq_of (b : mem_queue) (name : string) : list nat := default [] (mq_consumers b !! name).

#[global, program] Instance mem_queue_queue : Queue mem_queue := {
  connected := mq_up;
  publish name d b :=
    if mq_up b then (Some (mq_of b name !! (mq_turn b mod length (mq_of b name))), mkQueue true (mq_consumers b) (S (mq_turn b)))
    else (None, b);
  consume name h b :=
    if mq_up b then (true, mkQueue true (<[name := mq_of b name ++ [h]]> (mq_consumers b)) (mq_turn b)) else (false, b);
  consumers := mq_of }.
Next Obligation. intros name d b. simpl. by destruct (mq_up b). Qed.
Next Obligation.
  intros name d b o. simpl. destruct (mq_up b); [|done]. cbn [fst]. intros [= <-].
  destruct (mq_of b name !! _) as [h|] eqn:E; [by eapply list_elem_of_lookup_2|].
  apply lookup_ge_None in E. destruct (mq_of b name) as [|x l]; [done|]. pose proof (Nat.mod_upper_bound (mq_turn b) (length (x :: l))). simpl in *. lia.
Qed.
Next Obligation.
  intros name h b. simpl. destruct (mq_up b); [|done]. intros _. cbn [snd]. unfold mq_of. cbn [mq_consumers].
  split; [by rewrite lookup_insert_eq|]. intros n Hn. by rewrite lookup_insert_ne.
Qed.
Next Obligation. intros name h b. simpl. by destruct (mq_up b). Qed.

(** *** At concrete inputs *)

Definition demo_events (k : option mem_queue) : Manager mem_queue :=
  mkManager ∅ (Some (mkData (Some (mkMessaging true true)) false (Some (mkQueue true ∅ 0)) k)) NewEventDispatcher [] [] [].

Lemma demo_subscribed k : subscribed (λ b, mq_up b = true) "user.created" [] k (demo_events k).
Proof. constructor; [|done|done]. eexists _, _. split; [reflexivity|]. split; [reflexivity|]. split; reflexivity. Qed.

Lemma event_delivered_again_witness :
  ∃ h, h ∈ [1; 2; 3] ∧
    delivered (run_job (λ _, true) 0
      (PublishEvent None "user.created" 7 None (subscribe_all "user.created" [1; 2; 3] (demo_events None)))) =
    [mkDelivery 1 "user.created" 7 ByMemory; mkDelivery 2 "user.created" 7 ByMemory; mkDelivery 3 "user.created" 7 ByMemory] ++
    [mkDelivery h "user.created" 7 ByQueue].
Proof.
  apply (event_delivered_again (λ b, mq_up b = true) (λ _, true)) with (hs := [1; 2; 3]) (target := None) (k := None).
  - done.
  - intros name h b Hb. simpl. by rewrite Hb.
  - intros name d b Hb. simpl. rewrite Hb. split; [by eexists|done].
  - apply demo_subscribed.
  - done.
  - done.
Defined.

Lemma failover_reaches_nobody_witness :
  let kb := mkQueue true ∅ 0 in
  let m1 := subscribe_all "user.created" [1; 2] (demo_events (Some kb)) in
  ∃ dl, data m1 = Some dl ∧
  let m2 := with_data (with_rmq (mkQueue false ∅ 0) dl) m1 in
  (PublishMessage "user.created" 7 m2).1 = Ok None ∧
  delivered (run_job (λ _, true) 0 (PublishEvent None "user.created" 7 (Some EventTargetQueue) m2)) = [].
Proof.
  intros kb m1. eexists. split; [vm_compute; reflexivity|].
  apply (failover_reaches_nobody (λ b, mq_up b = true) (λ _, true)) with (hs := [1; 2]) (kb := kb) (m := demo_events (Some kb)).
  - done.
  - intros name h b Hb. simpl. by rewrite Hb.
  - intros name d b Hb. simpl. rewrite Hb. split; [by eexists|done].
  - apply demo_subscribed.
  - done.
  - done.
  - done.
  - done.
  - vm_compute. reflexivity.
Defined.

Lemma queue_target_without_queue_witness :
  let m := subscribe_memory "user.created" 1
    (mkManager ∅ (Some (mkData (Some (mkMessaging true true)) false (Some (mkQueue false ∅ 0)) None)) NewEventDispatcher [] [] []) in
  delivered (PublishEvent None "user.created" 7 (Some EventTargetQueue) m) = [] ∧
  delivered (PublishEvent None "user.created" 7 None m) = [mkDelivery 1 "user.created" 7 ByMemory].
Proof.
  intros m. destruct (queue_target_without_queue m None "user.created" 7 2) as (Hd & _ & _ & Hf); [reflexivity|reflexivity|].
  split; [exact Hd|]. apply Hf. reflexivity.
Defined.
