(* ===== verification/Desensitizer.v ===== *)
(** * Masking of sensitive log fields

    Models src/logging/logger/desensitizer.go.  A logged value is seen as
    reflection sees it, with its dynamic type and the static types of the
    elements of containers: whether a masked value can be put back into a
    container depends on them.  A struct is given with the object that
    encoding/json makes of it; structs it does not make one of, keys of maps
    other than strings, pointers to interfaces and values that refer to
    themselves are not modelled, and numbers have one type, neither byte nor
    rune.  The fallback through JSON after a panic, whose result is dropped, is
    taken not to panic itself.  Regular expressions are arguments, and lower case
    is that of ASCII letters. *)

From stdpp Require Import base tactics option list strings numbers.
From Stdlib Require Import ZArith Lia.
From S2P Require Import Prelude Float64 GoStrings.

(** ** Values *)

Inductive gotype :=
| TAny | TString | TBytes | TNum | TBool | TMap (t : gotype) | TSlice (t : gotype) | TArray (n : nat) (t : gotype)
| TPtr (t : gotype) | TStruct (id : nat).
#[global] Instance gotype_eq_dec : EqDecision gotype.
Proof. solve_decision. Defined.

(** [DStruct]: the type and the fields of its JSON object. *)
Inductive dvalue :=
| DNil
| DStr (s : string) | DBytes (s : string) | DNum (n : Z) | DBool (b : bool)
| DNilMap (t : gotype) | DMap (t : gotype) (kvs : list (string * dvalue))
| DSlice (t : gotype) (vs : list dvalue) | DArray (t : gotype) (vs : list dvalue)
| DNilPtr (t : gotype) | DPtr (t : gotype) (v : dvalue)
| DStruct (id : nat) (json : list (string * dvalue)).

#[global] Instance is_nil_dec v : Decision (v = DNil).
Proof. destruct v; (by left) || by right. Defined.

Definition type_of (v : dvalue) : gotype :=
  match v with
  | DNil => TAny | DStr _ => TString | DBytes _ => TBytes | DNum _ => TNum | DBool _ => TBool
  | DNilMap t | DMap t _ => TMap t | DSlice t _ => TSlice t | DArray t vs => TArray (length vs) t
  | DNilPtr t | DPtr t _ => TPtr t | DStruct id _ => TStruct id
  end.

(** The zero value of a type, for the types whose values can become nil. *)
Fixpoint zero (t : gotype) : dvalue :=
  match t with
  | TAny => DNil | TString => DStr "" | TBytes => DBytes "" | TNum => DNum 0 | TBool => DBool false
  | TMap t => DNilMap t | TSlice t => DSlice t [] | TArray n t => DArray t (replicate n (zero t))
  | TPtr t => DNilPtr t | TStruct id => DStruct id []
  end.

(** [AssignableTo], and [ConvertibleTo] with [Convert] between the types a
    processed value and an element can have. *)
Definition assignable (v : dvalue) (t : gotype) : bool := bool_decide (t = TAny ∨ type_of v = t).
Definition convert (v : dvalue) (t : gotype) : option dvalue :=
  match v, t with
  | DStr s, TBytes => Some (DBytes s)
  | DBytes s, TString => Some (DStr s)
  | _, _ => None
  end.

(** ** The desensitizer *)

Record Regexp := mkRegexp { MatchString : string → bool; ReplaceAllString : string → string → string }.

Record Desensitization := mkConfig {
  Enabled : bool; SensitiveFields : list string; PreservePrefix : Z; PreserveSuffix : Z; MaskChar : string;
  UseFixedLength : bool; FixedMaskLength : nat; ExactFieldMatch : bool }.

Section Desensitizer.
Context (config : Desensitization) (patterns : list Regexp).

Fixpoint Repeat (s : string) (n : nat) : string := match n with O => "" | S n' => s +:+ Repeat s n' end.
Definition fixedMask : string := Repeat (MaskChar config) (FixedMaskLength config).

Definition isSensitiveField (fieldName : string) : bool :=
  if String.eqb fieldName "" then false
  else
    let lowerName := str_map lower_ascii fieldName in
    existsb (λ f, let l := str_map lower_ascii f in
      if ExactFieldMatch config then String.eqb lowerName l else Contains lowerName l) (SensitiveFields config).

Definition desensitizeString (str : string) : string :=
  if String.eqb str "" then str
  else foldl (λ result p, if MatchString p result then ReplaceAllString p result fixedMask else result) str patterns.

(** [str[:n]] and [str[n:]]; a negative bound panics. *)
Definition slice_to (n : Z) (s : string) : option string :=
  if (n <? 0)%Z then None else Some (String.substring 0 (Z.to_nat n) s).
Definition slice_from (n : Z) (s : string) : option string :=
  if (n <? 0)%Z || (Z.of_nat (String.length s) <? n)%Z then None else Some (str_drop (Z.to_nat n) s).

(** [None]: a panic. *)
Definition maskStringWithPreserve (str : string) : option string :=
  let strLen := Z.of_nat (String.length str) in
  if (strLen <=? PreservePrefix config + PreserveSuffix config)%Z then Some fixedMask
  else
    prefix ← slice_to (PreservePrefix config) str;
    suffix ← slice_from (strLen - PreserveSuffix config) str;
    Some (prefix +:+ fixedMask +:+ suffix).

Definition maskString (str : string) : option string :=
  if String.eqb str "" then Some str
  else if UseFixedLength config then Some fixedMask
  else if (0 <? PreservePrefix config)%Z || (0 <? PreserveSuffix config)%Z then maskStringWithPreserve str
  else Some fixedMask.

Definition maskValue (value : dvalue) : option dvalue :=
  match value with
  | DNil => Some DNil
  | DStr s => DStr <$> maskString s
  | DBytes s => Some (if String.eqb s "" then value else DStr fixedMask)
  | _ => Some (DStr fixedMask)
  end.

(** What [processMap] stores for an element with value [original]. *)
Definition put_map (t : gotype) (original processed : dvalue) : dvalue :=
  match processed with
  | DNil => original
  | _ => if assignable processed t then processed else match convert processed t with Some p => p | None => original end
  end.

(** What [processSlice] stores; without a value the element stays zero. *)
Definition put_slice (t : gotype) (original processed : dvalue) : dvalue :=
  match processed with
  | DNil => zero t
  | _ => if assignable processed t then processed else match convert processed t with Some p => p | None => original end
  end.

(** [desensitizeValue] around [processValueByType], [None] being a panic: it
    recovers from a panic below it, and then returns nil, since the assignment
    of its fallback to [value] is not its result; masking comes before. *)
Definition guarded (processValueByType : nat → dvalue → option dvalue) (depth : nat) (key : string) (value : dvalue) : option dvalue :=
  if 10 <? depth then Some value
  else
    match value with
    | DNil => Some DNil
    | _ =>
        if isSensitiveField key then maskValue value
        else match processValueByType depth value with Some r => Some r | None => Some DNil end
    end.

(** [processValueByType], with [processMap], [processSlice] and
    [processStruct]; [reflect.MakeSlice] of an array type panics. *)
Fixpoint processValueByType (depth : nat) (v : dvalue) {struct v} : option dvalue :=
  match v with
  | DNil | DNilPtr _ | DNilMap _ => Some DNil
  | DPtr _ v' => processValueByType depth v'
  | DStr s => Some (DStr (desensitizeString s))
  | DMap t kvs =>
      DMap t <$> mapM (λ kv, p ← guarded processValueByType (S depth) kv.1 kv.2; Some (kv.1, put_map t kv.2 p)) kvs
  | DSlice t vs => DSlice t <$> mapM (λ v, p ← guarded processValueByType (S depth) "" v; Some (put_slice t v p)) vs
  | DArray _ _ => None
  | DStruct _ json =>
      DMap TAny <$> mapM (λ kv, p ← guarded processValueByType (S depth) kv.1 kv.2; Some (kv.1, put_map TAny kv.2 p)) json
  | DBytes _ | DNum _ | DBool _ => Some v
  end.

Definition desensitizeValue : nat → string → dvalue → option dvalue := guarded processValueByType.


Definition DeepDesensitize (data : dvalue) : option dvalue := if Enabled config then desensitizeValue 0 "" data else Some data.
End Desensitizer.

(** ** What a log shows *)

Section dvalue_ind.
Context (P : dvalue → Prop).
Hypothesis (HNil : P DNil) (HStr : ∀ s, P (DStr s)) (HBytes : ∀ s, P (DBytes s)) (HNum : ∀ n, P (DNum n)) (HBool : ∀ b, P (DBool b))
  (HNilMap : ∀ t, P (DNilMap t)) (HMap : ∀ t kvs, Forall (λ kv, P kv.2) kvs → P (DMap t kvs))
  (HSlice : ∀ t vs, Forall P vs → P (DSlice t vs)) (HArray : ∀ t vs, P (DArray t vs)) (HNilPtr : ∀ t, P (DNilPtr t))
  (HPtr : ∀ t v, P v → P (DPtr t v)) (HStruct : ∀ id kvs, Forall (λ kv, P kv.2) kvs → P (DStruct id kvs)).

End dvalue_ind.

Section Hiding.
Context (config : Desensitization) (patterns : list Regexp).
Abbreviation process := (processValueByType config patterns).
Abbreviation desensitize := (desensitizeValue config patterns).





Lemma guarded_eq d k v : d ≤ 10 → v ≠ DNil →
  desensitize d k v = if isSensitiveField config k then maskValue config v
    else match process d v with Some r => Some r | None => Some DNil end.
Proof.
  intros Hd Hv. unfold desensitizeValue, guarded. destruct (Nat.ltb_spec 10 d); [lia|]. by destruct v.
Qed.


(** Masking never panics with a fixed length, so that a map, a slice of any
    values or a struct is processed to one. *)
Lemma desensitize_some d k v : UseFixedLength config = true → is_Some (desensitize d k v).
Proof.
  intros Hf. unfold desensitizeValue, guarded. destruct (10 <? d); [by eexists|].
  assert (is_Some (maskValue config v)) as Hm.
  { destruct v; cbn [maskValue]; try by eexists. unfold maskString. rewrite Hf. destruct (String.eqb s ""); by eexists. }
  destruct v; try (by eexists); (destruct (isSensitiveField config k); [done|]);
    (destruct (processValueByType _ _ _ _); by eexists).
Qed.

Lemma mapM_total {A C} (f : A → option C) l : (∀ x, is_Some (f x)) → is_Some (mapM f l).
Proof.
  intros Hf. induction l as [|x l [y IH]]; [by eexists|]. cbn. destruct (Hf x) as [z ->]. cbn. rewrite IH. by eexists.
Qed.

Definition entry (t : gotype) (d : nat) (kv : string * dvalue) : option (string * dvalue) :=
  p ← desensitize (S d) kv.1 kv.2; Some (kv.1, put_map t kv.2 p).

Lemma entry_some t d kv : UseFixedLength config = true → is_Some (entry t d kv).
Proof. intros Hf. unfold entry. destruct (desensitize_some (S d) kv.1 kv.2 Hf) as [p ->]. by eexists. Qed.


Lemma put_slice_same v : v ≠ DNil → put_slice (type_of v) v v = v.
Proof.
  intros Hv. unfold put_slice. assert (assignable v (type_of v) = true) as -> by (apply bool_decide_true; by right).
  by destruct v.
Qed.









End Hiding.

(** ** Properties *)


Lemma mapM_id {A} (f : A → option A) l : Forall (λ x, f x = Some x) l → mapM f l = Some l.
Proof. induction 1 as [|x l Hx Hl IH]; [done|]. cbn. by rewrite Hx; cbn; rewrite IH. Qed.

(** Where masking does not work.  With masks of a fixed length: a slice of
    structs, or of pointers to structs, is logged as it is, with all its
    sensitive fields, since what a struct becomes, a map, does not fit in the
    slice; so is a map of numbers or of booleans, whatever its keys, since the
    mask does not fit; so is a map under a sensitive name in a map of maps; and an array in a map of any values, since its processing
    panics and nothing takes its place, while an array that is a field itself is
    lost. *)
Theorem typed_containers_unmasked (config : Desensitization) (patterns : list Regexp) (d : nat) (k : string) :
  UseFixedLength config = true → isSensitiveField config k = false →
  (∀ id js, let v := DSlice (TStruct id) (DStruct id <$> js) in desensitizeValue config patterns d k v = Some v) ∧
  (∀ id js, let v := DSlice (TPtr (TStruct id)) ((λ j, DPtr (TStruct id) (DStruct id j)) <$> js) in
    desensitizeValue config patterns d k v = Some v) ∧
  (∀ kvs : list (string * Z), let v := DMap TNum ((λ kv, (kv.1, DNum kv.2)) <$> kvs) in desensitizeValue config patterns d k v = Some v) ∧
  (∀ kvs : list (string * bool), let v := DMap TBool ((λ kv, (kv.1, DBool kv.2)) <$> kvs) in desensitizeValue config patterns d k v = Some v) ∧
  (∀ k' t vs, isSensitiveField config k' = false →
    let v := DMap TAny [(k', DArray t vs)] in desensitizeValue config patterns d k v = Some v) ∧
  (∀ k' t kvs, isSensitiveField config k' = true → d < 10 →
    let v := DMap (TMap t) [(k', DMap t kvs)] in desensitizeValue config patterns d k v = Some v) ∧
  (∀ t vs, d ≤ 10 → desensitizeValue config patterns d k (DArray t vs) = Some DNil).
Proof.
  intros Hf Hk.
  assert (∀ v, v ≠ DNil → processValueByType config patterns d v = Some v → desensitizeValue config patterns d k v = Some v) as Hsame.
  { intros v Hv Hp. destruct (decide (d ≤ 10)) as [Hd|Hd]; [by rewrite guarded_eq, Hk, Hp by done|].
    unfold desensitizeValue, guarded. destruct (Nat.ltb_spec 10 d); [done|lia]. }
  assert (∀ kv, ∃ l, mapM (λ kv, p ← guarded config (processValueByType config patterns) (S (S d)) kv.1 kv.2; Some (kv.1, put_map TAny kv.2 p)) kv = Some l) as Hm.
  { intros kv. apply (mapM_total (entry config patterns TAny (S d))). intros x. by apply entry_some. }
  split_and!.
  - intros id js v. apply Hsame; [done|]. unfold v. cbn [processValueByType]. rewrite mapM_id; [done|].
    apply Forall_fmap, Forall_true. intros j. simpl. unfold guarded. destruct (10 <? S d); simpl; [f_equal; by apply (put_slice_same (DStruct id j))|].
    destruct (Hm j) as [l ->]. done.
  - intros id js v. apply Hsame; [done|]. unfold v. cbn [processValueByType]. rewrite mapM_id; [done|].
    apply Forall_fmap, Forall_true. intros j. simpl. unfold guarded. destruct (10 <? S d); simpl; [f_equal; by apply (put_slice_same (DPtr _ (DStruct id j)))|].
    destruct (Hm j) as [l ->]. done.
  - intros kvs v. apply Hsame; [done|]. unfold v. cbn [processValueByType]. rewrite mapM_id; [done|].
    apply Forall_fmap, Forall_true. intros [k' n]. simpl. unfold guarded. by destruct (10 <? S d), (isSensitiveField config k').
  - intros kvs v. apply Hsame; [done|]. unfold v. cbn [processValueByType]. rewrite mapM_id; [done|].
    apply Forall_fmap, Forall_true. intros [k' n]. simpl. unfold guarded. by destruct (10 <? S d), (isSensitiveField config k').
  - intros k' t vs Hk' v. apply Hsame; [done|]. unfold v. cbn [processValueByType]. rewrite mapM_id; [done|].
    constructor; [|done]. simpl. unfold guarded. rewrite Hk'. by destruct (10 <? S d).
  - intros k' t kvs Hk' Hd v. apply Hsame; [done|]. unfold v. cbn [processValueByType]. rewrite mapM_id; [done|].
    constructor; [|done]. simpl. unfold guarded. destruct (Nat.ltb_spec 10 (S d)); [lia|]. by rewrite Hk'.
  - intros t vs Hd. rewrite guarded_eq by done. by rewrite Hk.
Qed.

(** *** At concrete inputs *)

Definition demo_config : Desensitization := mkConfig true ["password"; "token"] 0 0 "*" true 6 false.
Definition demo_user (pw : string) : list (string * dvalue) :=
  [("id", DNum 7); ("UserPassword", DStr pw)].


Lemma typed_containers_unmasked_witness :
  desensitizeValue demo_config [] 0 "users" (DSlice (TStruct 1) [DStruct 1 (demo_user "hunter2")]) =
    Some (DSlice (TStruct 1) [DStruct 1 (demo_user "hunter2")]) ∧
  desensitizeValue demo_config [] 0 "pins" (DMap TNum [("password", DNum 1234)]) = Some (DMap TNum [("password", DNum 1234)]).
Proof.
  split.
  - apply (proj1 (typed_containers_unmasked demo_config [] 0 "users" eq_refl eq_refl) 1 [demo_user "hunter2"]).
  - apply (proj1 (proj2 (proj2 (typed_containers_unmasked demo_config [] 0 "pins" eq_refl eq_refl))) [("password", 1234%Z)]).
Defined.
