(* ===== verification/Json.v ===== *)
(** * JSON texts of the Go library

    [json.Marshal] and [json.Unmarshal] of encoding/json, between byte strings
    and a type of JSON values, with the UTF-8 handling of their strings: the
    printer escapes what Go escapes with HTML escaping on, and the parser is Go's
    on any input, with its limit on nesting.  Numbers are kept as written. *)

From stdpp Require Import base tactics option list strings numbers pretty.
From Stdlib Require Import ZArith Ascii Lia.
From S2P Require Import Prelude Lexer Float64 Base64 GoStrings.

Inductive json :=
| JNull | JBool (b : bool) | JNum (lit : string) | JStr (s : string) | JArr (l : list json) | JObj (l : list (string * json)).

(** ** UTF-8 *)

Definition in_range (lo hi : Z) (c : ascii) : bool := (lo <=? code_of c)%Z && (code_of c <=? hi)%Z.
Definition is_ascii (c : ascii) : bool := (code_of c <? 128)%Z.

(** The bytes that follow a first byte, and the range of the first of them. *)
Definition lead (c : ascii) : option (nat * Z * Z) :=
  let b := code_of c in
  if in_range 0xC2 0xDF c then Some (1, 0x80%Z, 0xBF%Z)
  else if (b =? 0xE0)%Z then Some (2, 0xA0%Z, 0xBF%Z)
  else if (b =? 0xED)%Z then Some (2, 0x80%Z, 0x9F%Z)
  else if in_range 0xE1 0xEF c then Some (2, 0x80%Z, 0xBF%Z)
  else if (b =? 0xF0)%Z then Some (3, 0x90%Z, 0xBF%Z)
  else if in_range 0xF1 0xF3 c then Some (3, 0x80%Z, 0xBF%Z)
  else if (b =? 0xF4)%Z then Some (3, 0x80%Z, 0x8F%Z)
  else None.

(** The encoding of the first rune and the rest; [None] when it is not valid. *)
Definition take_rune (s : string) : option (string * string) :=
  let cont := in_range 0x80 0xBF in
  match s with
  | EmptyString => None
  | String a s1 =>
      if is_ascii a then Some (String a "", s1)
      else
        '(n, lo, hi) ← lead a;
        match n, s1 with
        | 1, String b s2 => if in_range lo hi b then Some (String a (String b ""), s2) else None
        | 2, String b (String c s3) =>
            if in_range lo hi b && cont c then Some (String a (String b (String c "")), s3) else None
        | 3, String b (String c (String d s4)) =>
            if in_range lo hi b && cont c && cont d then Some (String a (String b (String c (String d ""))), s4) else None
        | _, _ => None
        end
  end.

(** [utf8.AppendRune] for runes from 0 to 0x10FFFF without surrogates. *)
Definition encode_rune (r : Z) : string :=
  let tail k := byte_of (Z.lor 0x80 (Z.land (Z.shiftr r (6 * k)) 0x3F)) in
  if (r <? 0x80)%Z then String (byte_of r) ""
  else if (r <? 0x800)%Z then String (byte_of (Z.lor 0xC0 (Z.shiftr r 6))) (String (tail 0%Z) "")
  else if (r <? 0x10000)%Z then
    String (byte_of (Z.lor 0xE0 (Z.shiftr r 12))) (String (tail 1%Z) (String (tail 0%Z) ""))
  else
    String (byte_of (Z.lor 0xF0 (Z.shiftr r 18))) (String (tail 2%Z) (String (tail 1%Z) (String (tail 0%Z) ""))).

Definition RuneError : Z := 0xFFFD.
Definition replacement : string := encode_rune RuneError.

Fixpoint valid_runes (n : nat) (s : string) : bool :=
  match n, s with
  | _, EmptyString => true
  | O, _ => false
  | S n', _ => match take_rune s with Some (_, s') => valid_runes n' s' | None => false end
  end.
Definition valid_utf8 (s : string) : bool := valid_runes (String.length s) s.

(** ** Printing *)

Definition dquote : ascii := "034".
Definition backslash : ascii := "\".
Definition hex_digit (v : Z) : ascii := byte_of (if (v <? 10)%Z then v + 48 else v + 87)%Z.
Definition hex4_text (v : Z) : string :=
  String (hex_digit (Z.land (Z.shiftr v 12) 15)) (String (hex_digit (Z.land (Z.shiftr v 8) 15))
    (String (hex_digit (Z.land (Z.shiftr v 4) 15)) (String (hex_digit (Z.land v 15)) ""))).
Definition u_escape (v : Z) : string := String backslash (String "u" (hex4_text v)).

(** Escapes of one letter. *)
Definition short_escapes : list (ascii * ascii) :=
  [(dquote, dquote); (backslash, backslash); ("008", "b"); ("012", "f"); ("010", "n"); ("013", "r"); ("009", "t")]%char.
Definition short_escape (c : ascii) : option ascii := snd <$> List.find (λ x, Ascii.eqb x.1 c) short_escapes.

(** [htmlSafeSet]. *)
Definition html_safe (c : ascii) : bool :=
  (32 <=? code_of c)%Z && negb (existsb (Ascii.eqb c) [dquote; backslash; "<"; ">"; "&"]%char).

Definition escape_byte (c : ascii) : string :=
  if html_safe c then String c ""
  else match short_escape c with
       | Some e => String backslash (String e "")
       | None => u_escape (code_of c)
       end.

(** The line and paragraph separators are escaped too. *)
Definition escape_rune (r : string) : string :=
  if String.eqb r (encode_rune 0x2028) then u_escape 0x2028
  else if String.eqb r (encode_rune 0x2029) then u_escape 0x2029
  else r.

Fixpoint quote_runes (n : nat) (s : string) : string :=
  match n, s with
  | _, EmptyString | O, _ => ""
  | S n', String c s' =>
      if is_ascii c then escape_byte c +:+ quote_runes n' s'
      else match take_rune s with
           | Some (r, t) => escape_rune r +:+ quote_runes n' t
           | None => u_escape RuneError +:+ quote_runes n' s'
           end
  end.
Definition quote (s : string) : string := String dquote (quote_runes (String.length s) s +:+ String dquote "").

Fixpoint encode (j : json) : string :=
  match j with
  | JNull => "null"
  | JBool b => if b then "true" else "false"
  | JNum lit => lit
  | JStr s => quote s
  | JArr l => "[" +:+ Join "," (encode <$> l) +:+ "]"
  | JObj l => "{" +:+ Join "," ((λ kv, quote kv.1 +:+ ":" +:+ encode kv.2) <$> l) +:+ "}"
  end.

(** ** Strings *)

Definition hex_value (c : ascii) : option Z :=
  if isDigit c || byte_between "a" "f" c || byte_between "A" "F" c then Some (hex_val c) else None.
Definition hex4 (s : string) : option (Z * string) :=
  match s with
  | String a (String b (String c (String d t))) =>
      x ← hex_value a; y ← hex_value b; z ← hex_value c; w ← hex_value d;
      Some (((x * 16 + y) * 16 + z) * 16 + w, t)%Z
  | _ => None
  end.

(** [getu4]: an escape "\u" with four digits. *)
Definition getu4 (s : string) : option (Z * string) :=
  match s with
  | String a (String b t) => if Ascii.eqb a backslash && Ascii.eqb b "u" then hex4 t else None
  | _ => None
  end.

Definition surrogate (r : Z) : bool := (0xD800 <=? r)%Z && (r <? 0xE000)%Z.
(** [utf16.DecodeRune]. *)
Definition decode_pair (r1 r2 : Z) : option Z :=
  if (0xD800 <=? r1)%Z && (r1 <? 0xDC00)%Z && (0xDC00 <=? r2)%Z && (r2 <? 0xE000)%Z
  then Some (Z.lor (Z.shiftl (r1 - 0xD800) 10) (r2 - 0xDC00) + 0x10000)%Z else None.

(** The rune of an escape with value [r], and what is left of the text. *)
Definition u_rune (r : Z) (t : string) : string * string :=
  if surrogate r then
    match getu4 t with
    | Some (r2, t') => match decode_pair r r2 with Some d => (encode_rune d, t') | None => (replacement, t) end
    | None => (replacement, t)
    end
  else (encode_rune r, t).

Definition long_escape (c : ascii) : option ascii :=
  if Ascii.eqb c "/" then Some c else fst <$> List.find (λ x, Ascii.eqb x.2 c) short_escapes.

Definition prepend (r : string) (p : string * string) : string * string := (r +:+ p.1, p.2).

(** The contents of a string after its opening quote, and what follows it. *)
Fixpoint unquote (n : nat) (s : string) : option (string * string) :=
  match n, s with
  | S n', String c s' =>
      if Ascii.eqb c dquote then Some ("", s')
      else if Ascii.eqb c backslash then
        match s' with
        | String e t =>
            match long_escape e with
            | Some x => prepend (String x "") <$> unquote n' t
            | None =>
                '(r, t) ← getu4 s;
                let '(r, t) := u_rune r t in prepend r <$> unquote n' t
            end
        | EmptyString => None
        end
      else if (code_of c <? 32)%Z then None
      else if is_ascii c then prepend (String c "") <$> unquote n' s'
      else match take_rune s with
           | Some (r, t) => prepend r <$> unquote n' t
           | None => prepend replacement <$> unquote n' s'
           end
  | _, _ => None
  end.

(** ** Numbers *)

Fixpoint span_digits (s : string) : string * string :=
  match s with
  | String c s' => if isDigit c then prepend (String c "") (span_digits s') else ("", s)
  | EmptyString => ("", "")
  end.
Definition scan_sign (s : string) : string * string :=
  match s with String c s' => if Ascii.eqb c "-" then ("-", s') else ("", s) | _ => ("", s) end.
Definition scan_int (s : string) : option (string * string) :=
  match s with
  | String c s' =>
      if Ascii.eqb c "0" then Some ("0", s') else if isDigit c then Some (span_digits s) else None
  | EmptyString => None
  end.
Definition digits1 (pre : string) (s : string) : option (string * string) :=
  let '(ds, t) := span_digits s in if String.eqb ds "" then None else Some (pre +:+ ds, t).
Definition scan_frac (s : string) : option (string * string) :=
  match s with
  | String c s' => if Ascii.eqb c "." then digits1 "." s' else Some ("", s)
  | EmptyString => Some ("", s)
  end.
Definition scan_exp (s : string) : option (string * string) :=
  match s with
  | String c s' =>
      if Ascii.eqb c "e" || Ascii.eqb c "E" then
        match s' with
        | String d s'' =>
            if Ascii.eqb d "+" || Ascii.eqb d "-" then digits1 (String c (String d "")) s'' else digits1 (String c "") s'
        | EmptyString => None
        end
      else Some ("", s)
  | EmptyString => Some ("", s)
  end.
Definition scan_number (s : string) : option (string * string) :=
  let '(m, s) := scan_sign s in
  '(i, s) ← scan_int s; '(f, s) ← scan_frac s; '(e, s) ← scan_exp s;
  Some (m +:+ i +:+ f +:+ e, s).

(** ** Values *)

Definition is_ws (c : ascii) : bool := existsb (Ascii.eqb c) [" "; "009"; "010"; "013"]%char.
Fixpoint skip_ws (s : string) : string :=
  match s with String c s' => if is_ws c then skip_ws s' else s | EmptyString => s end.

Section Containers.
Context (value : string → option (json * string)).

(** The elements of an array up to its bracket; at least one. *)
Fixpoint elements (n : nat) (s : string) : option (list json * string) :=
  match n with
  | O => None
  | S n' =>
      '(v, s) ← value s;
      match skip_ws s with
      | String c s' =>
          if Ascii.eqb c "," then '(l, t) ← elements n' s'; Some (v :: l, t)
          else if Ascii.eqb c "]" then Some ([v], s')
          else None
      | EmptyString => None
      end
  end.

(** The members of an object up to its brace; at least one. *)
Fixpoint members (n : nat) (s : string) : option (list (string * json) * string) :=
  match n, skip_ws s with
  | S n', String q s =>
      if Ascii.eqb q dquote then
        '(k, s) ← unquote (S (String.length s)) s;
        match skip_ws s with
        | String c s =>
            if Ascii.eqb c ":" then
              '(v, s) ← value s;
              match skip_ws s with
              | String c s' =>
                  if Ascii.eqb c "," then '(l, t) ← members n' s'; Some ((k, v) :: l, t)
                  else if Ascii.eqb c "}" then Some ([(k, v)], s')
                  else None
              | EmptyString => None
              end
            else None
        | EmptyString => None
        end
      else None
  | _, _ => None
  end.
End Containers.

Definition word (w : string) (v : json) (s : string) : option (json * string) :=
  t ← CutPrefix w s; Some (v, t).

(** A value nested at most [n] levels deep. *)
Fixpoint parse_value (n : nat) (s : string) : option (json * string) :=
  let s := skip_ws s in
  match s with
  | EmptyString => None
  | String c s' =>
      if Ascii.eqb c "n" then word "null" JNull s
      else if Ascii.eqb c "t" then word "true" (JBool true) s
      else if Ascii.eqb c "f" then word "false" (JBool false) s
      else if Ascii.eqb c dquote then '(x, t) ← unquote (S (String.length s')) s'; Some (JStr x, t)
      else if Ascii.eqb c "[" then
        match n with
        | O => None
        | S n' =>
            match CutPrefix "]" (skip_ws s') with
            | Some t => Some (JArr [], t)
            | None => '(l, t) ← elements (parse_value n') (S (String.length s')) s'; Some (JArr l, t)
            end
        end
      else if Ascii.eqb c "{" then
        match n with
        | O => None
        | S n' =>
            match CutPrefix "}" (skip_ws s') with
            | Some t => Some (JObj [], t)
            | None => '(l, t) ← members (parse_value n') (S (String.length s')) s'; Some (JObj l, t)
            end
        end
      else '(lit, t) ← scan_number s; Some (JNum lit, t)
  end.

(** [maxNestingDepth]. *)
Definition max_depth : nat := N.to_nat 10000.

Definition decode (s : string) : option json :=
  '(v, t) ← parse_value max_depth s; if String.eqb (skip_ws t) "" then Some v else None.

(** ** Round trip *)

(** *** Runes *)

Definition rune_text (r : string) : Prop := ∃ c r', r = String c r' ∧ (is_ascii c = true → r' = "").

Lemma take_rune_spec s r t : take_rune s = Some (r, t) →
  s = r +:+ t ∧ (∀ u, take_rune (r +:+ u) = Some (r, u)) ∧ rune_text r.
Proof.
  unfold take_rune at 1. destruct s as [|a s1]; [done|]. destruct (is_ascii a) eqn:Ha.
  { intros [= <- <-]. split_and!; [done| |by exists a, ""]. intros u. unfold take_rune. rewrite str_app_cons. by rewrite Ha. }
  destruct (lead a) as [[[n lo] hi]|] eqn:Hl; [|done]. cbn [mbind option_bind].
  assert (∀ x, rune_text (String a x)) as Hr by (intros x; exists a, x; by rewrite Ha).
  destruct n as [|[|[|[|n]]]]; [done| | | |done].
  - destruct s1 as [|b s2]; [done|]. destruct (in_range lo hi b) eqn:H1; [|done]. intros [= <- <-].
    split_and!; [done| |done]. intros u. rewrite !str_app_cons, str_app_nil_l. unfold take_rune. rewrite Ha, Hl.
    cbn [mbind option_bind]. by rewrite H1.
  - destruct s1 as [|b [|c s3]]; [done..|]. destruct (in_range lo hi b && in_range 128 191 c) eqn:H1; [|done]. intros [= <- <-].
    split_and!; [done| |done]. intros u. rewrite !str_app_cons, str_app_nil_l. unfold take_rune. rewrite Ha, Hl.
    cbn [mbind option_bind]. by rewrite H1.
  - destruct s1 as [|b [|c [|d s4]]]; [done..|]. destruct (_ && in_range 128 191 d) eqn:H1; [|done]. intros [= <- <-].
    split_and!; [done| |done]. intros u. rewrite !str_app_cons, str_app_nil_l. unfold take_rune. rewrite Ha, Hl.
    cbn [mbind option_bind]. by rewrite H1.
Qed.

Lemma unquote_escape c n t : is_ascii c = true → unquote (S n) (escape_byte c +:+ t) = prepend (String c "") <$> unquote n t.
Proof. destruct c as [[] [] [] [] [] [] [] []]; first [discriminate|reflexivity]. Qed.

Lemma high_byte c : is_ascii c = false → Ascii.eqb c dquote = false ∧ Ascii.eqb c backslash = false ∧ (code_of c <? 32)%Z = false.
Proof. by destruct c as [[] [] [] [] [] [] [] []]. Qed.

Lemma unquote_rune c r n t : is_ascii c = false → (∀ u, take_rune (String c r +:+ u) = Some (String c r, u)) →
  unquote (S n) (escape_rune (String c r) +:+ t) = prepend (String c r) <$> unquote n t.
Proof.
  intros Hc Ht. unfold escape_rune. destruct (String.eqb_spec (String c r) (encode_rune 0x2028)) as [->|_]; [reflexivity|].
  destruct (String.eqb_spec (String c r) (encode_rune 0x2029)) as [->|_]; [reflexivity|].
  specialize (Ht t). rewrite str_app_cons in *. cbn [unquote]. destruct (high_byte c Hc) as (-> & -> & ->).
  by rewrite Hc, Ht.
Qed.

Lemma escape_byte_length c : 1 ≤ String.length (escape_byte c).
Proof. unfold escape_byte. destruct (html_safe c); [simpl; lia|]. destruct (short_escape c); simpl; lia. Qed.

Lemma escape_rune_length r : String.length r ≤ String.length (escape_rune r).
Proof.
  unfold escape_rune. destruct (String.eqb_spec r (encode_rune 0x2028)) as [->|_]; [vm_compute; lia|].
  destruct (String.eqb_spec r (encode_rune 0x2029)) as [->|_]; [vm_compute; lia|lia].
Qed.

(** What a printed string reads as, and that printing does not shorten it. *)
Lemma quote_runes_spec n s : valid_runes n s = true → ∀ m, String.length s ≤ m →
  String.length s ≤ String.length (quote_runes m s) ∧
  ∀ k t, String.length s < k → unquote k (quote_runes m s +:+ String dquote t) = Some (s, t).
Proof.
  revert s. induction n as [|n IH]; intros [|c s] Hv m Hm.
  1,3: split; [destruct m; simpl; lia|]; intros [|k] t Hk; [simpl in Hk; lia|]; by destruct m.
  { done. }
  cbn [valid_runes] in Hv. destruct (take_rune (String c s)) as [[r s']|] eqn:Ht; [|done].
  destruct (take_rune_spec _ _ _ Ht) as (Hs & Hu & (c' & r' & -> & Ha)). rewrite str_app_cons in Hs. injection Hs as <- ->.
  destruct m as [|m]; [simpl in Hm; lia|]. cbn [String.length] in Hm. rewrite str_length_app in Hm.
  destruct (IH s' Hv m) as [IH1 IH2]; [lia|]. cbn [quote_runes String.length]. destruct (is_ascii c) eqn:Hc.
  - rewrite (Ha eq_refl) in *. rewrite str_app_nil_l in *. split.
    + rewrite str_length_app. pose proof (escape_byte_length c). lia.
    + intros [|k] t Hk; [lia|]. rewrite str_app_assoc, unquote_escape by done. rewrite IH2 by lia. done.
  - rewrite Ht. split.
    + rewrite !str_length_app. pose proof (escape_rune_length (String c r')). simpl in *. lia.
    + intros [|k] t Hk; [lia|]. rewrite str_length_app in Hk. rewrite str_app_assoc, unquote_rune by done. rewrite IH2 by lia. done.
Qed.

Lemma unquote_quote s t : valid_utf8 s = true →
  let body := quote_runes (String.length s) s +:+ String dquote t in
  unquote (S (String.length body)) body = Some (s, t).
Proof.
  intros Hv body. destruct (quote_runes_spec _ s Hv (String.length s) (le_n _)) as [Hl Hu]. apply Hu.
  unfold body. rewrite str_length_app. simpl. lia.
Qed.

(** *** Numbers *)

(** What may follow a number. *)
Definition stops (t : string) : bool :=
  match t with String c _ => negb (isDigit c || existsb (Ascii.eqb c) ["."; "e"; "E"]%char) | EmptyString => true end.

Lemma stops_digit c t : stops (String c t) = true → isDigit c = false.
Proof. simpl. by destruct (isDigit c). Qed.
Lemma stops_not c t x : stops (String c t) = true → x ∈ ["."; "e"; "E"]%char → Ascii.eqb c x = false.
Proof.
  cbn [stops]. intros H Hx. destruct (Ascii.eqb_spec c x) as [->|]; [|done]. exfalso.
  rewrite negb_true_iff, orb_false_iff in H. destruct H as [_ H].
  by repeat (apply elem_of_cons in Hx as [->|Hx]; [done|]); apply not_elem_of_nil in Hx.
Qed.

Lemma span_digits_app s t : stops t = true →
  span_digits (s +:+ t) = ((span_digits s).1, (span_digits s).2 +:+ t).
Proof.
  intros Ht. induction s as [|c s IH].
  - rewrite str_app_nil_l. destruct t as [|c t]; [done|]. cbn [span_digits]. by rewrite (stops_digit c t Ht).
  - rewrite str_app_cons. cbn [span_digits]. destruct (isDigit c); [|done]. by rewrite IH.
Qed.

Lemma digits1_app p s x r t : digits1 p s = Some (x, r) → stops t = true → digits1 p (s +:+ t) = Some (x, r +:+ t).
Proof.
  unfold digits1. intros H Ht. rewrite span_digits_app by done. destruct (span_digits s) as [ds r']. cbn [fst snd].
  destruct (String.eqb ds ""); [done|]. by injection H as <- <-.
Qed.

Lemma scan_int_app s x r t : scan_int s = Some (x, r) → stops t = true → scan_int (s +:+ t) = Some (x, r +:+ t).
Proof.
  intros H Ht. destruct s as [|c s]; [done|]. pose proof (span_digits_app (String c s) t Ht) as Hs. rewrite str_app_cons in *.
  unfold scan_int in *. destruct (Ascii.eqb c "0"); [by injection H as <- <-|]. destruct (isDigit c); [|done].
  rewrite Hs. by destruct (span_digits (String c s)); injection H as <- <-.
Qed.

Lemma scan_frac_app s x r t : scan_frac s = Some (x, r) → stops t = true → scan_frac (s +:+ t) = Some (x, r +:+ t).
Proof.
  intros H Ht. destruct s as [|c s]; cbn [scan_frac] in H.
  - injection H as <- <-. rewrite str_app_nil_l. destruct t as [|c t]; [done|]. cbn [scan_frac].
    by rewrite (stops_not c t "." Ht) by (repeat constructor).
  - rewrite str_app_cons. cbn [scan_frac]. destruct (Ascii.eqb c "."); [by apply digits1_app|]. by injection H as <- <-.
Qed.

Lemma scan_exp_app s x r t : scan_exp s = Some (x, r) → stops t = true → scan_exp (s +:+ t) = Some (x, r +:+ t).
Proof.
  intros H Ht. destruct s as [|c s]; cbn [scan_exp] in H.
  - injection H as <- <-. rewrite str_app_nil_l. destruct t as [|c t]; [done|]. cbn [scan_exp].
    by rewrite (stops_not c t "e" Ht), (stops_not c t "E" Ht) by (repeat constructor).
  - rewrite str_app_cons. cbn [scan_exp]. destruct (_ || _); [|by injection H as <- <-]. destruct s as [|d s]; [done|].
    rewrite str_app_cons. destruct (Ascii.eqb d "+" || Ascii.eqb d "-"); rewrite <- ?str_app_cons; by apply digits1_app.
Qed.

Definition is_number (lit : string) : bool :=
  match scan_number lit with Some (l, r) => String.eqb l lit && String.eqb r "" | None => false end.

Lemma scan_number_app lit t : is_number lit = true → stops t = true → scan_number (lit +:+ t) = Some (lit, t).
Proof.
  unfold is_number. destruct (scan_number lit) as [[l r]|] eqn:E; [|done].
  rewrite andb_true_iff, !String.eqb_eq. intros [-> ->] Ht. revert E. unfold scan_number.
  assert (lit ≠ "" → scan_sign (lit +:+ t) = ((scan_sign lit).1, (scan_sign lit).2 +:+ t)) as Hs.
  { destruct lit as [|c lit]; [done|]. intros _. rewrite str_app_cons. cbn [scan_sign]. by destruct (Ascii.eqb c "-"). }
  destruct (decide (lit = "")) as [->|Hne]; [done|]. rewrite Hs by done. destruct (scan_sign lit) as [m s]. cbn [fst snd].
  destruct (scan_int s) as [[i s1]|] eqn:E1; [|done]. rewrite (scan_int_app _ _ _ _ E1 Ht). cbn [mbind option_bind].
  destruct (scan_frac s1) as [[f s2]|] eqn:E2; [|done]. rewrite (scan_frac_app _ _ _ _ E2 Ht). cbn [mbind option_bind].
  destruct (scan_exp s2) as [[e s3]|] eqn:E3; [|done]. rewrite (scan_exp_app _ _ _ _ E3 Ht). cbn [mbind option_bind].
  intros [= Hl ->]. by rewrite str_app_nil_l, Hl.
Qed.

(** *** Values *)

Section json_ind.
Context (P : json → Prop).
Hypothesis (Hnull : P JNull) (Hbool : ∀ b, P (JBool b)) (Hnum : ∀ l, P (JNum l)) (Hstr : ∀ s, P (JStr s))
  (Harr : ∀ l, Forall P l → P (JArr l)) (Hobj : ∀ l, Forall (λ kv, P kv.2) l → P (JObj l)).
Lemma json_ind' j : P j.
Proof.
  revert j. fix IH 1. intros [].
  - apply Hnull.
  - apply Hbool.
  - apply Hnum.
  - apply Hstr.
  - apply Harr. induction l as [|v l IHl]; constructor; [apply IH|exact IHl].
  - apply Hobj. induction l as [|[k v] l IHl]; constructor; [apply IH|exact IHl].
Qed.
End json_ind.

(** Nesting depth, and values that can be printed: valid strings and numbers. *)
Fixpoint depth (j : json) : nat :=
  match j with
  | JArr l => S (max_list (depth <$> l))
  | JObj l => S (max_list ((λ kv, depth kv.2) <$> l))
  | _ => 0
  end.
Fixpoint printable (j : json) : bool :=
  match j with
  | JNum lit => is_number lit
  | JStr s => valid_utf8 s
  | JArr l => forallb printable l
  | JObj l => forallb (λ kv, valid_utf8 kv.1 && printable kv.2) l
  | _ => true
  end.

(** The bytes a printed value can begin with. *)
Definition value_start (c : ascii) : bool :=
  isDigit c || existsb (Ascii.eqb c) ["-"; "n"; "t"; "f"; dquote; "["; "{"]%char.

Lemma number_start lit : is_number lit = true → ∃ c s, lit = String c s ∧ (isDigit c || Ascii.eqb c "-") = true.
Proof.
  unfold is_number, scan_number. destruct lit as [|c s]; [done|]. intros H. exists c, s. split; [done|].
  cbn [scan_sign] in H. destruct (Ascii.eqb c "-"); [apply orb_true_r|]. rewrite orb_false_r. cbn [scan_int] in H.
  destruct (Ascii.eqb_spec c "0") as [->|]; [done|]. by destruct (isDigit c).
Qed.

Lemma encode_start j : printable j = true → ∃ c s, encode j = String c s ∧ value_start c = true.
Proof.
  destruct j as [|[]| | | |]; cbn [encode]; intros Hp; try (by eexists _, _); [].
  apply number_start in Hp as (c & s & -> & Hc). exists c, s. split; [done|]. unfold value_start.
  destruct (isDigit c); [done|]. cbn [orb] in *. cbn [existsb]. by rewrite Hc.
Qed.

Lemma value_start_facts c : value_start c = true → is_ws c = false ∧ Ascii.eqb c "]" = false ∧ Ascii.eqb c "}" = false.
Proof. by destruct c as [[] [] [] [] [] [] [] []]. Qed.

Lemma skip_ws_value j t : printable j = true → skip_ws (encode j +:+ t) = encode j +:+ t.
Proof.
  intros (c & s & -> & Hc)%encode_start. rewrite str_app_cons. cbn [skip_ws].
  by destruct (value_start_facts c Hc) as (-> & _).
Qed.

Lemma Join_cons sep x xs : Join sep (x :: xs) = x +:+ match xs with [] => "" | _ => sep +:+ Join sep xs end.
Proof. destruct xs; [by cbn [Join]; rewrite str_app_nil_r|done]. Qed.

Lemma Join_length sep ss : sep ≠ "" → length ss ≤ S (String.length (Join sep ss)).
Proof.
  intros Hs. induction ss as [|s ss IH]; [simpl; lia|]. rewrite Join_cons, str_length_app. destruct ss as [|s' ss]; [simpl; lia|].
  rewrite str_length_app. destruct sep as [|a sep]; [done|]. cbn [String.length length] in *. lia.
Qed.

Definition parses (pv : string → option (json * string)) (j : json) : Prop :=
  ∀ u, stops u = true → pv (encode j +:+ u) = Some (j, u).

Lemma elements_spec pv l k t : l ≠ [] → Forall (parses pv) l → length l ≤ k →
  elements pv k (Join "," (encode <$> l) +:+ String "]" t) = Some (l, t).
Proof.
  intros Hne Hl. revert k. induction Hl as [|j l Hj Hl IH]; intros [|k] Hk; [done|done|cbn in Hk; lia|].
  rewrite fmap_cons, Join_cons, str_app_assoc. cbn [elements]. destruct l as [|j' l].
  - cbn [fmap list_fmap]. rewrite str_app_nil_l, Hj by done. done.
  - rewrite fmap_cons. rewrite str_app_assoc, Hj by done. cbn [mbind option_bind].
    change (skip_ws ("," +:+ ?x)) with ("," +:+ x). rewrite str_app_cons, str_app_nil_l. cbn [skip_ws is_ws existsb Ascii.eqb Bool.eqb orb].
    rewrite <- fmap_cons, IH; [done|done|simpl in *; lia].
Qed.

Definition member_text (kv : string * json) : string := quote kv.1 +:+ ":" +:+ encode kv.2.

Lemma members_spec pv l k t : l ≠ [] → Forall (λ kv, valid_utf8 kv.1 = true ∧ parses pv kv.2) l → length l ≤ k →
  members pv k (Join "," (member_text <$> l) +:+ String "}" t) = Some (l, t).
Proof.
  intros Hne Hl. revert k. induction Hl as [|[key j] l [Hkey Hj] Hl IH]; intros [|k] Hk; [done|done|simpl in Hk; lia|].
  rewrite fmap_cons, Join_cons, str_app_assoc. cbn [members fst snd] in *. unfold member_text at 1. cbn [fst snd]. unfold quote.
  rewrite !str_app_assoc, str_app_cons, !str_app_assoc. cbn [skip_ws is_ws existsb dquote Ascii.eqb Bool.eqb orb].
  rewrite (str_app_cons dquote), str_app_nil_l. rewrite unquote_quote by done. cbn [mbind option_bind].
  rewrite (str_app_cons ":"), str_app_nil_l. cbn [skip_ws is_ws existsb Ascii.eqb Bool.eqb orb].
  destruct l as [|kv l].
  - cbn [fmap list_fmap]. rewrite str_app_nil_l, Hj by done. done.
  - rewrite fmap_cons. rewrite str_app_assoc, Hj by done. cbn [mbind option_bind].
    rewrite str_app_cons, str_app_nil_l. cbn [skip_ws is_ws existsb Ascii.eqb Bool.eqb orb].
    rewrite <- fmap_cons, IH; [done|done|simpl in *; lia].
Qed.

Lemma max_list_le l n : max_list l ≤ n ↔ Forall (λ x, x ≤ n) l.
Proof.
  induction l as [|x l IH]; [split; [constructor|intros _; apply Nat.le_0_l]|].
  change (max_list (x :: l)) with (x `max` max_list l). rewrite list.Forall_cons, <- IH. lia.
Qed.

Lemma parse_word w v t : word w v (w +:+ t) = Some (v, t).
Proof. unfold word. assert (CutPrefix w (w +:+ t) = Some t) as -> by (by apply CutPrefix_spec). done. Qed.

Lemma parse_encode j : printable j = true → ∀ n, depth j ≤ n → parses (parse_value n) j.
Proof.
  induction j as [|b|lit|s|l IH|l IH] using json_ind'; intros Hp n Hd u Hu.
  - cbn [encode]. by destruct n.
  - destruct b; cbn [encode]; by destruct n.
  - cbn [printable encode] in *. destruct (number_start lit Hp) as (c & s & -> & Hc). rewrite str_app_cons.
    assert (is_ws c = false ∧ Ascii.eqb c "n" = false ∧ Ascii.eqb c "t" = false ∧ Ascii.eqb c "f" = false ∧ Ascii.eqb c dquote = false ∧
      Ascii.eqb c "[" = false ∧ Ascii.eqb c "{" = false) as (H1 & H2 & H3 & H4 & H5 & H6 & H7).
    { revert Hc. clear. by destruct c as [[] [] [] [] [] [] [] []]. }
    destruct n; cbn [parse_value skip_ws]; rewrite H1, H2, H3, H4, H5, H6, H7, <- str_app_cons, scan_number_app; done.
  - cbn [printable encode] in *. unfold quote. rewrite str_app_cons. rewrite str_app_assoc, str_app_cons, str_app_nil_l.
    destruct n; cbn [parse_value skip_ws is_ws existsb dquote Ascii.eqb Bool.eqb orb]; by rewrite unquote_quote.
  - destruct n as [|n]; [cbn in Hd; lia|]. cbn [printable depth encode] in *. rewrite !str_app_cons, !str_app_nil_l, str_app_assoc.
    cbn [parse_value skip_ws is_ws existsb dquote Ascii.eqb Bool.eqb orb].
    destruct l as [|j l]; [done|]. assert (CutPrefix "]" (skip_ws (Join "," (encode <$> j :: l) +:+ "]" +:+ u)) = None) as ->.
    { rewrite fmap_cons, Join_cons, !str_app_assoc. cbn [forallb] in Hp. apply andb_true_iff in Hp as [Hj _].
      rewrite skip_ws_value by done. apply encode_start in Hj as (c & s & -> & Hc). rewrite str_app_cons. cbn [CutPrefix].
      destruct (value_start_facts c Hc) as (_ & H & _). destruct (Ascii.eqb_spec "]" c) as [<-|]; done. }
    rewrite (str_app_cons "]"), str_app_nil_l.
    assert (Forall (parses (parse_value n)) (j :: l)) as Hall.
    { apply le_S_n in Hd. rewrite max_list_le, list.Forall_fmap in Hd. rewrite forallb_forall in Hp.
      rewrite list.Forall_forall in IH, Hd |- *. intros x Hx. specialize (Hp x). rewrite <- list_elem_of_In in Hp.
      apply IH; [done|by apply Hp|by apply Hd]. }
    rewrite elements_spec; [done|done|done|].
     rewrite str_length_app. pose proof (Join_length "," (encode <$> j :: l)) as HJ. rewrite length_fmap in HJ.
      specialize (HJ ltac:(done)). cbn [String.length]. lia.
  - destruct n as [|n]; [cbn in Hd; lia|]. cbn [printable depth encode] in *. rewrite !str_app_cons, !str_app_nil_l, str_app_assoc.
    cbn [parse_value skip_ws is_ws existsb dquote Ascii.eqb Bool.eqb orb].
    change ((λ kv : string * json, quote kv.1 +:+ ":" +:+ encode kv.2) <$> l) with (member_text <$> l).
    destruct l as [|kv l]; [done|]. assert (CutPrefix "}" (skip_ws (Join "," (member_text <$> kv :: l) +:+ "}" +:+ u)) = None) as ->.
    { by rewrite fmap_cons, Join_cons, !str_app_assoc. }
    rewrite (str_app_cons "}"), str_app_nil_l.
    assert (Forall (λ kv, valid_utf8 kv.1 = true ∧ parses (parse_value n) kv.2) (kv :: l)) as Hall.
    { apply le_S_n in Hd. rewrite max_list_le, list.Forall_fmap in Hd. rewrite forallb_forall in Hp.
      rewrite list.Forall_forall in IH, Hd |- *. intros x Hx. specialize (Hp x). rewrite <- list_elem_of_In in Hp.
      specialize (Hp Hx). apply andb_true_iff in Hp as [Hk Hv]. split; [done|]. apply IH; [done..|]. by apply Hd. }
    rewrite members_spec; [done|done|done|].
    rewrite str_length_app. pose proof (Join_length "," (member_text <$> kv :: l)) as HJ. rewrite length_fmap in HJ.
    specialize (HJ ltac:(done)). cbn [String.length]. lia.
Qed.

(** [decode] reads back what [encode] prints. *)
Lemma decode_encode_json j : printable j = true → depth j ≤ max_depth → decode (encode j) = Some j.
Proof.
  intros Hp Hd. unfold decode. pose proof (parse_encode j Hp max_depth Hd "" eq_refl) as H. rewrite str_app_nil_r in H.
  by rewrite H.
Qed.

(** *** Integers *)

Lemma span_all s : str_all isDigit s = true → span_digits s = (s, "").
Proof. induction s as [|c s IH]; [done|]. cbn [str_all span_digits]. intros [-> Hs]%andb_true_iff. by rewrite (IH Hs). Qed.

Lemma pretty_go_number x s : (0 < x)%N → str_all isDigit s = true →
  ∃ c t, pretty_N_go x s = String c t ∧ Ascii.eqb c "0" = false ∧ str_all isDigit (String c t) = true.
Proof.
  revert s. induction (N.lt_wf_0 x) as [x _ IH]. intros s Hx Hs. rewrite pretty_N_go_step by done.
  destruct (pretty_digit (x `mod` 10)) as [Hd _]; [by apply N.mod_lt|].
  assert (str_all isDigit (String (pretty_N_char (x `mod` 10)) s) = true) as Hall by (cbn [str_all]; by rewrite Hd, Hs).
  destruct (decide (x `div` 10 = 0)%N) as [Hz|Hz].
  - rewrite Hz, pretty_N_go_0. eexists _, _. split_and!; [done| |done].
    assert (x < 10)%N as Hlt by (apply N.div_small_iff in Hz; lia). rewrite N.mod_small by done.
    assert (∃ n, x = N.of_nat n ∧ n < 10) as (n & -> & Hn) by (exists (N.to_nat x); lia).
    destruct n as [|n]; [done|]. by do 9 (destruct n as [|n]; [done|]); lia.
  - apply IH; [by apply N.div_lt|by apply N.neq_0_lt_0|done].
Qed.

Lemma is_number_digits c t : Ascii.eqb c "0" = false → str_all isDigit (String c t) = true →
  is_number (String c t) = true ∧ is_number (String "-" (String c t)) = true.
Proof.
  intros H0 Hall. assert (isDigit c = true ∧ Ascii.eqb c "-" = false) as [Hd Hm].
  { cbn [str_all] in Hall. apply andb_true_iff in Hall as [Hc _]. split; [done|]. by destruct (Ascii.eqb_spec c "-") as [->|]. }
  pose proof (span_all _ Hall) as Hs.
  assert (scan_int (String c t) = Some (String c t, "")) as Hi by (unfold scan_int; by rewrite H0, Hd, Hs).
  unfold is_number, scan_number. cbn [scan_sign]. rewrite Hm, Ascii.eqb_refl, Hi.
  cbn [mbind option_bind scan_frac scan_exp]. by rewrite !str_app_nil_r, str_app_nil_l, (str_app_cons "-"), str_app_nil_l, !String.eqb_refl.
Qed.

Lemma is_number_pretty (z : Z) : is_number (pretty z) = true.
Proof.
  destruct z as [|p|p]; [done|..].
  - change (pretty (Z.pos p)) with (pretty_N_go (N.pos p) ""). destruct (pretty_go_number (N.pos p) "") as (c & t & -> & H0 & Hall); [lia|done|].
    by apply is_number_digits.
  - change (pretty (Z.neg p)) with (String "-" (pretty_N_go (N.pos p) "")).
    destruct (pretty_go_number (N.pos p) "") as (c & t & -> & H0 & Hall); [lia|done|]. by apply is_number_digits.
Qed.

(** ** Decoding into structures

    [decode_struct]: the fields of a structure, by name, with what each does
    with a value; a name is looked up as it is and then without regard to the
    case of ASCII letters, and other members are skipped.  [None]: some member
    has a type its field does not take. *)
Section Struct.
Context {T : Type} (fields : list (string * (json → T → option T))).

Definition fold_name (s : string) : string := str_map lower_ascii s.
Definition field_of (k : string) : option (json → T → option T) :=
  match List.find (λ f, String.eqb f.1 k) fields with
  | Some f => Some f.2
  | None => snd <$> List.find (λ f, String.eqb (fold_name f.1) (fold_name k)) fields
  end.
Definition set_member (acc : option T) (kv : string * json) : option T :=
  t ← acc; match field_of kv.1 with Some set => set kv.2 t | None => Some t end.
Definition decode_struct (l : list (string * json)) (t : T) : option T := foldl set_member (Some t) l.
End Struct.

(** What a string, a 64-bit integer, a boolean or a pointer to a structure makes
    of a value; null leaves the first three as they are. *)
Definition set_string {T} (set : string → T → T) (j : json) (t : T) : option T :=
  match j with JStr s => Some (set s t) | JNull => Some t | _ => None end.
Definition set_int64 {T} (set : Z → T → T) (j : json) (t : T) : option T :=
  match j with JNum lit => z ← ParseInt lit; Some (set z t) | JNull => Some t | _ => None end.
Definition set_bool {T} (set : bool → T → T) (j : json) (t : T) : option T :=
  match j with JBool b => Some (set b t) | JNull => Some t | _ => None end.
Definition set_pointer {T U} (fields : list (string * (json → U → option U))) (zero : U) (get : T → option U)
    (set : option U → T → T) (j : json) (t : T) : option T :=
  match j with
  | JObj l => u ← decode_struct fields l (default zero (get t)); Some (set (Some u) t)
  | JNull => Some (set None t)
  | _ => None
  end.

Example decode_escapes : decode (String dquote ("\u00e9\ud83d\ude00\/" +:+ String dquote "")) =
  Some (JStr (encode_rune 0xE9 +:+ encode_rune 0x1F600 +:+ "/")).
Proof. vm_compute. reflexivity. Qed.

Example encode_html : encode (JArr [JStr "a<b&c"; JNum "1"]) = "[" +:+ quote "a<b&c" +:+ ",1]" ∧
  quote "a<b" = String dquote ("a\u003cb" +:+ String dquote "").
Proof. split; vm_compute; reflexivity. Qed.
