(* ===== verification/OAuthState.v ===== *)
(** * The state parameter and PKCE of the OAuth client

    Models src/security/oauth/state.go with the types it uses.  A state is the
    JSON text of a [StateData] in URL-safe base64 ([Json], [Base64]); a code
    challenge is the SHA-256 of the verifier ([Sha256]).  Random bytes and clock
    readings are arguments. *)

From stdpp Require Import base tactics option list strings numbers pretty.
From Stdlib Require Import ZArith Ascii Lia.
From S2P Require Import Prelude Lexer Sha256 Base64 Json.

(** ** Data *)

Record PKCEData := mkPKCE { CodeVerifier : string; CodeChallenge : string; Method : string }.
Record StateData := mkState {
  Provider : string; NextURL : string; UserID : string; Action : string; Timestamp : Z; Nonce : string; PKCE : option PKCEData }.

Definition zero_pkce : PKCEData := mkPKCE "" "" "".
Definition zero_state : StateData := mkState "" "" "" "" 0 "" None.

Definition omitempty (k v : string) : list (string * json) := if String.eqb v "" then [] else [(k, JStr v)].
Definition pkce_json (p : PKCEData) : json :=
  JObj [("code_verifier", JStr (CodeVerifier p)); ("code_challenge", JStr (CodeChallenge p)); ("method", JStr (Method p))].
Definition state_json (d : StateData) : json :=
  JObj ([("provider", JStr (Provider d))] ++ omitempty "next_url" (NextURL d) ++ omitempty "user_id" (UserID d) ++
    omitempty "action" (Action d) ++ [("timestamp", JNum (pretty (Timestamp d))); ("nonce", JStr (Nonce d))] ++
    match PKCE d with Some p => [("pkce", pkce_json p)] | None => [] end).

Definition pkce_fields : list (string * (json → PKCEData → option PKCEData)) :=
  [("code_verifier", set_string (λ x p, mkPKCE x (CodeChallenge p) (Method p)));
   ("code_challenge", set_string (λ x p, mkPKCE (CodeVerifier p) x (Method p)));
   ("method", set_string (λ x p, mkPKCE (CodeVerifier p) (CodeChallenge p) x))].
Definition with_Timestamp (x : Z) (d : StateData) : StateData :=
  mkState (Provider d) (NextURL d) (UserID d) (Action d) x (Nonce d) (PKCE d).
Definition with_Nonce (x : string) (d : StateData) : StateData :=
  mkState (Provider d) (NextURL d) (UserID d) (Action d) (Timestamp d) x (PKCE d).
Definition state_fields : list (string * (json → StateData → option StateData)) :=
  [("provider", set_string (λ x d, mkState x (NextURL d) (UserID d) (Action d) (Timestamp d) (Nonce d) (PKCE d)));
   ("next_url", set_string (λ x d, mkState (Provider d) x (UserID d) (Action d) (Timestamp d) (Nonce d) (PKCE d)));
   ("user_id", set_string (λ x d, mkState (Provider d) (NextURL d) x (Action d) (Timestamp d) (Nonce d) (PKCE d)));
   ("action", set_string (λ x d, mkState (Provider d) (NextURL d) (UserID d) x (Timestamp d) (Nonce d) (PKCE d)));
   ("timestamp", set_int64 with_Timestamp);
   ("nonce", set_string with_Nonce);
   ("pkce", set_pointer pkce_fields zero_pkce PKCE
      (λ x d, mkState (Provider d) (NextURL d) (UserID d) (Action d) (Timestamp d) (Nonce d) x))].

(** [json.Unmarshal] into a [StateData]. *)
Definition unmarshal_state (text : string) : option StateData :=
  match decode text with
  | Some (JObj l) => decode_struct state_fields l zero_state
  | Some JNull => Some zero_state
  | _ => None
  end.

(** ** The state manager *)

Record StateManager := NewStateManager { secret : string }.

Inductive state_error := EBase64 | EJson | EExpired | ERandom.

(** [generateNonce] of 16 random bytes. *)
Definition generateNonce (random : string) : string := EncodeToString random.

(** [GenerateState]: the state, and the data as the call leaves it. *)
Definition GenerateState (sm : StateManager) (now : Z) (random : string) (data : StateData) : string * StateData :=
  let data := if (Timestamp data =? 0)%Z then with_Timestamp now data else data in
  let data := if String.eqb (Nonce data) "" then with_Nonce (generateNonce random) data else data in
  (EncodeToString (encode (state_json data)), data).

Definition ParseState (sm : StateManager) (now : Z) (state : string) : res state_error StateData :=
  match DecodeString state with
  | None => Err EBase64
  | Some jsonData =>
      match unmarshal_state jsonData with
      | None => Err EJson
      | Some data => if (300 <? wrap64 (now - Timestamp data))%Z then Err EExpired else Ok data
      end
  end.

(** The encoding without padding: the padding byte is not in the alphabet. *)
Fixpoint strip_padding (s : string) : string :=
  match s with
  | EmptyString => ""
  | String c s' => if Ascii.eqb c pad then strip_padding s' else String c (strip_padding s')
  end.
Definition RawEncode (s : string) : string := strip_padding (EncodeToString s).

Definition bytes_string (bs : list Z) : string := foldr (λ b s, String (byte_of b) s) "" bs.

(** [GeneratePKCE] of 32 random bytes, [None] when there are none. *)
Definition GeneratePKCE (sm : StateManager) (random : option string) : res state_error PKCEData :=
  match random with
  | None => Err ERandom
  | Some verifierBytes =>
      let codeVerifier := RawEncode verifierBytes in
      Ok (mkPKCE codeVerifier (RawEncode (bytes_string (sha256 (string_bytes codeVerifier)))) "S256")
  end.

(** ** Facts *)

(** Strings that JSON keeps as they are, and a time of 64 bits. *)
Definition texts (d : StateData) : list string :=
  [Provider d; NextURL d; UserID d; Action d; Nonce d] ++
  match PKCE d with Some p => [CodeVerifier p; CodeChallenge p; Method p] | None => [] end.
Definition clean_state (d : StateData) : Prop :=
  Forall (λ s, valid_utf8 s = true) (texts d) ∧ (min_int64 ≤ Timestamp d ≤ max_int64)%Z.

Lemma omitempty_read k (set : string → StateData → StateData) v d rest :
  (∀ j t, set_member state_fields (Some t) (k, j) = set_string set j t) → set "" d = d →
  foldl (set_member state_fields) (Some d) (omitempty k v ++ rest) = foldl (set_member state_fields) (Some (set v d)) rest.
Proof.
  intros Hk He. unfold omitempty. destruct (String.eqb_spec v "") as [->|_]; [by rewrite He|]. cbn [app foldl]. by rewrite Hk.
Qed.

Lemma pkce_read p : decode_struct pkce_fields (match pkce_json p with JObj l => l | _ => [] end) zero_pkce = Some p.
Proof. by destruct p. Qed.

Lemma clean_printable d : clean_state d → printable (state_json d) = true ∧ depth (state_json d) ≤ max_depth.
Proof.
  intros [Hs _]. assert (depth (state_json d) ≤ 2) as Hd.
  { unfold state_json, omitempty. destruct (String.eqb _ _), (String.eqb _ _), (String.eqb _ _), (PKCE d); by vm_compute; lia. }
  split; [|change max_depth with (N.to_nat 10000); lia].
  unfold texts in Hs. apply Forall_app in Hs as [Hs Hp]. rewrite !list.Forall_cons in Hs. destruct Hs as (H1 & H2 & H3 & H4 & H5 & _).
  unfold state_json. cbn [printable]. rewrite !forallb_app.
  assert (∀ k v, valid_utf8 k = true → valid_utf8 v = true → forallb (λ kv, valid_utf8 kv.1 && printable kv.2) (omitempty k v) = true) as Ho.
  { intros k v Hk Hv. unfold omitempty. destruct (String.eqb v ""); [done|]. cbn [forallb fst snd printable]. by rewrite Hk, Hv. }
  rewrite !Ho by done. cbn [forallb fst snd printable]. rewrite H1, H5, is_number_pretty.
  destruct (PKCE d) as [p|]; [|done]. rewrite !list.Forall_cons in Hp. destruct Hp as (P1 & P2 & P3 & _).
  unfold pkce_json. cbn [forallb fst snd printable]. by rewrite P1, P2, P3.
Qed.

(** What is marshalled is unmarshalled. *)
Lemma state_marshal d : clean_state d → unmarshal_state (encode (state_json d)) = Some d.
Proof.
  intros Hd. destruct (clean_printable d Hd) as [Hp Hdep]. unfold unmarshal_state. rewrite decode_encode_json by done.
  unfold state_json, decode_struct. destruct d as [pr nu ui ac ts no pk]. cbn [Provider NextURL UserID Action Timestamp Nonce PKCE app foldl].
  change (set_member state_fields (Some zero_state) ("provider", JStr pr)) with (Some (mkState pr "" "" "" 0 "" None)).
  rewrite (omitempty_read "next_url" (λ x d, mkState (Provider d) x (UserID d) (Action d) (Timestamp d) (Nonce d) (PKCE d))) by done.
  rewrite (omitempty_read "user_id" (λ x d, mkState (Provider d) (NextURL d) x (Action d) (Timestamp d) (Nonce d) (PKCE d))) by done.
  rewrite (omitempty_read "action" (λ x d, mkState (Provider d) (NextURL d) (UserID d) x (Timestamp d) (Nonce d) (PKCE d))) by done.
  cbn [Provider NextURL UserID Action Timestamp Nonce PKCE app foldl].
  assert (∀ t, set_member state_fields (Some t) ("timestamp", JNum (pretty ts)) = Some (with_Timestamp ts t)) as ->.
  { intros t. change (set_member state_fields (Some t) ("timestamp", JNum (pretty ts))) with (z ← ParseInt (pretty ts); Some (with_Timestamp z t)).
    destruct Hd as [_ Hts]. by rewrite ParseInt_pretty. }
  unfold with_Timestamp. cbn [Provider NextURL UserID Action Timestamp Nonce PKCE].
  change (set_member state_fields (Some ?t) ("nonce", JStr no)) with (Some (with_Nonce no t)).
  unfold with_Nonce. cbn [Provider NextURL UserID Action Timestamp Nonce PKCE].
  destruct pk as [p|]; [|done]. cbn [foldl]. 
  change (set_member state_fields (Some (mkState pr nu ui ac ts no None)) ("pkce", pkce_json p)) with
    (u ← decode_struct pkce_fields (match pkce_json p with JObj l => l | _ => [] end) zero_pkce; Some (mkState pr nu ui ac ts no (Some u))).
  by rewrite pkce_read.
Qed.

(** *** The alphabet *)

(** The characters of the encoding without padding, all unreserved in URLs. *)
Definition url_char (c : ascii) : bool := isDigit c || byte_between "A" "Z" c || byte_between "a" "z" c || Ascii.eqb c "-" || Ascii.eqb c "_".

Lemma enc_url_char v : (0 ≤ v < 64)%Z → url_char (enc_char v) = true ∧ Ascii.eqb (enc_char v) pad = false.
Proof.
  intros Hv. assert (forallb (λ v, url_char (enc_char v) && negb (Ascii.eqb (enc_char v) pad)) (seqZ 0 64) = true) as Hall by (vm_compute; reflexivity).
  rewrite forallb_forall in Hall. specialize (Hall v). rewrite <- list_elem_of_In, elem_of_seqZ in Hall.
  specialize (Hall ltac:(lia)). apply andb_true_iff in Hall as [? ?%negb_true_iff]. done.
Qed.

(** Compute with the characters of an encoding. *)
Ltac strip_chars :=
  cbn [strip_padding str_all String.length]; change (Ascii.eqb pad pad) with true;
  repeat match goal with
    |- context [Ascii.eqb (enc_char (field ?v ?k)) pad] => rewrite (proj2 (enc_url_char _ (field_range v k))) end;
  cbn [strip_padding str_all String.length]; change (Ascii.eqb pad pad) with true.
Ltac chars :=
  repeat match goal with
    |- context [url_char (enc_char (field ?v ?k))] => rewrite (proj1 (enc_url_char _ (field_range v k))) end.

Lemma raw_spec s : str_all url_char (RawEncode s) = true ∧ String.length (RawEncode s) = (4 * String.length s + 2) / 3 ∧
  str_all (λ c, url_char c || Ascii.eqb c pad) (EncodeToString s) = true.
Proof.
  unfold RawEncode. induction s as [|a|a b|a b c s (IH1 & IH2 & IH3)] using string_ind3; [by split_and!|..]; cbn [EncodeToString]; cbv zeta; rewrite ?field_0;
    strip_chars; chars;
    rewrite ?orb_true_r; split_and!; try done.
  rewrite IH2. change (S (S (S (S ((4 * String.length s + 2) / 3))))) with (4 + (4 * String.length s + 2) / 3).
  replace (4 * S (S (S (String.length s))) + 2) with (4 * 3 + (4 * String.length s + 2)) by lia. by rewrite Nat.div_add_l.
Qed.

(** With its padding the encoding is that of the alphabet with padding. *)
Lemma raw_padded s :
  RawEncode s +:+ (match String.length s mod 3 with 1 => "==" | 2 => "=" | _ => "" end) = EncodeToString s.
Proof.
  unfold RawEncode. induction s as [|a|a b|a b c s IH] using string_ind3; [done|..]; cbn [EncodeToString]; cbv zeta; rewrite ?field_0;
    strip_chars; [done..|]. rewrite !str_app_cons.
  assert (S (S (S (String.length s))) `mod` 3 = String.length s `mod` 3) as ->; [|by rewrite IH].
  replace (S (S (S (String.length s)))) with (String.length s + 1 * 3) by lia. by rewrite Nat.Div0.mod_add.
Qed.

Lemma ascii_valid s : str_all is_ascii s = true → valid_utf8 s = true.
Proof.
  unfold valid_utf8. induction s as [|c s IH]; [done|]. cbn [str_all]. intros [Hc Hs]%andb_true_iff.
  cbn [String.length valid_runes take_rune]. rewrite Hc. by apply IH.
Qed.

Lemma str_all_weaken (f g : ascii → bool) s : (∀ c, f c = true → g c = true) → str_all f s = true → str_all g s = true.
Proof. intros Hfg. induction s as [|c s IH]; [done|]. cbn [str_all]. rewrite !andb_true_iff. intros [Hc Hs]. auto. Qed.

Lemma encoded_valid s : valid_utf8 (EncodeToString s) = true.
Proof.
  apply ascii_valid. destruct (raw_spec s) as (_ & _ & H). eapply str_all_weaken; [|exact H].
  clear. by intros [[] [] [] [] [] [] [] []].
Qed.

(** The data as [GenerateState] leaves it. *)
Lemma generated_clean sm now random d : clean_state d → (min_int64 ≤ now ≤ max_int64)%Z →
  clean_state (GenerateState sm now random d).2.
Proof.
  intros [Hs Ht] Hnow. unfold GenerateState. cbn [snd].
  set (d1 := if (Timestamp d =? 0)%Z then with_Timestamp now d else d).
  assert (clean_state d1) as [Hs1 Ht1] by (unfold d1; by destruct (Timestamp d =? 0)%Z).
  destruct (String.eqb (Nonce d1) ""); [|done]. split; [|done]. unfold texts, with_Nonce in *. cbn [Provider NextURL UserID Action Nonce PKCE].
  apply Forall_app in Hs1 as [Hs1 Hp]. apply Forall_app. split; [|done]. rewrite !list.Forall_cons in *.
  destruct Hs1 as (? & ? & ? & ? & ? & ?). split_and!; try done. apply encoded_valid.
Qed.

(** ** Properties *)

(** C29: Which states are accepted.  The data of a state come back exactly from
    what [GenerateState] returns, whatever the secrets of the two managers are:
    the secret is used by neither, so that anybody can make a state.  The state
    is refused only if it is more than 300 seconds old by the time in it; a time
    in the future never expires before its date, and one so far in the past that
    the difference overflows is accepted. *)
Theorem state_accepted_iff (sm sm' : StateManager) (now now' : Z) (random : string) (d : StateData) :
  clean_state d → (0 ≤ now ≤ max_int64)%Z → (0 ≤ now' ≤ max_int64)%Z →
  let (state, d') := GenerateState sm now random d in
  if decide (now' - 300 ≤ Timestamp d' ∨ Timestamp d' < now' - max_int64)%Z
  then ParseState sm' now' state = Ok d'
  else ParseState sm' now' state = Err EExpired.
Proof.
  intros Hd Hnow Hnow'. pose proof (generated_clean sm now random d Hd) as Hc. specialize (Hc ltac:(unfold min_int64; lia)).
  unfold GenerateState in *. cbn [snd] in Hc. set (d' := if String.eqb _ "" then _ else _) in *.
  assert (ParseState sm' now' (EncodeToString (encode (state_json d'))) =
    if (300 <? wrap64 (now' - Timestamp d'))%Z then Err EExpired else Ok d') as ->.
  { unfold ParseState. by rewrite decode_encode, state_marshal. }
  destruct Hc as [_ Ht]. assert (wrap64 (now' - Timestamp d') = if decide (Timestamp d' < now' - max_int64)%Z
    then now' - Timestamp d' - 2 ^ 64 else now' - Timestamp d')%Z as ->.
  { unfold wrap64, min_int64, max_int64 in *. case_decide.
    - rewrite <- (Z.mod_unique (now' - Timestamp d' + 2 ^ 63) (2 ^ 64) 1 (now' - Timestamp d' + 2 ^ 63 - 2 ^ 64)); lia.
    - rewrite Z.mod_small; lia. }
  unfold min_int64, max_int64 in *. repeat case_decide; try lia; destruct (Z.ltb_spec 300 (now' - Timestamp d' - 2 ^ 64)), (Z.ltb_spec 300 (now' - Timestamp d')); lia || done.
Qed.

(** What PKCE data are.  From 32 random bytes come a verifier and a challenge
    of 43 unreserved characters each, as the protocol asks for; the challenge is
    the encoded hash of the verifier, so that a server finds it again from the
    verifier alone, and decoding it with its padding gives that hash. *)
Theorem pkce_well_formed (sm : StateManager) (random : string) : String.length random = 32 →
  ∃ p, GeneratePKCE sm (Some random) = Ok p ∧ Method p = "S256" ∧
    String.length (CodeVerifier p) = 43 ∧ str_all url_char (CodeVerifier p) = true ∧
    String.length (CodeChallenge p) = 43 ∧ str_all url_char (CodeChallenge p) = true ∧
    CodeChallenge p = RawEncode (bytes_string (sha256 (string_bytes (CodeVerifier p)))) ∧
    DecodeString (CodeChallenge p +:+ "=") = Some (bytes_string (sha256 (string_bytes (CodeVerifier p)))).
Proof.
  intros Hr. eexists. split; [done|]. cbn [Method CodeVerifier CodeChallenge].
  set (hash := bytes_string _). destruct (raw_spec random) as (Ha & Hl & _). destruct (raw_spec hash) as (Ha' & Hl' & _).
  assert (String.length hash = 32) as Hh.
  { unfold hash. rewrite <- (proj1 (sha256_bytes (string_bytes (RawEncode random)))). generalize (sha256 (string_bytes (RawEncode random))).
    intros l. induction l as [|b l IH]; [done|]. change (S (String.length (bytes_string l)) = S (length l)). by rewrite IH. }
  rewrite Hr in Hl. rewrite Hh in Hl'. split_and!; try done.
  pose proof (raw_padded hash) as Hp. rewrite Hh in Hp. change (RawEncode hash +:+ "=" = EncodeToString hash) in Hp.
  rewrite Hp. apply decode_encode.
Qed.

(** *** At concrete inputs *)

Definition demo_state : StateData := mkState "github" "/home?x=<y>" "" "login" 0 "" None.

Lemma state_accepted_iff_witness :
  let (state, d') := GenerateState (NewStateManager "attacker") 1000 "0123456789abcdef" demo_state in
  Timestamp d' = 1000%Z ∧ ParseState (NewStateManager "secret") 1300 state = Ok d' ∧
  ParseState (NewStateManager "secret") 1301 state = Err EExpired.
Proof.
  assert (clean_state demo_state) as Hc.
  { split; [|vm_compute; by split]. by repeat (apply list.Forall_cons; split; [reflexivity|]). }
  pose proof (state_accepted_iff (NewStateManager "attacker") (NewStateManager "secret") 1000 1300 "0123456789abcdef" demo_state Hc
    ltac:(vm_compute; by split) ltac:(vm_compute; by split)) as H1.
  pose proof (state_accepted_iff (NewStateManager "attacker") (NewStateManager "secret") 1000 1301 "0123456789abcdef" demo_state Hc
    ltac:(vm_compute; by split) ltac:(vm_compute; by split)) as H2.
  destruct (GenerateState _ _ _ _) as [state d'] eqn:E. assert (Timestamp d' = 1000%Z) as Ht by (injection E as <- <-; reflexivity).
  rewrite Ht in *. split; [done|]. split; [exact H1|exact H2].
Defined.

Lemma pkce_well_formed_witness :
  ∃ p, GeneratePKCE (NewStateManager "s") (Some "0123456789abcdef0123456789abcdef") = Ok p ∧
    CodeChallenge p = RawEncode (bytes_string (sha256 (string_bytes (CodeVerifier p)))).
Proof.
  destruct (pkce_well_formed (NewStateManager "s") "0123456789abcdef0123456789abcdef" eq_refl) as (p & Hp & _ & _ & _ & _ & _ & Hc & _).
  exists p. by split.
Defined.

(** The example of RFC 7636. *)
Example pkce_rfc : RawEncode (bytes_string (sha256 (string_bytes "dBjftJeZ4CVP-mB92K27uhbUJU1p1r_wW1gFWFOEjXk"))) =
  "E9Melhoa2OwvFrEMTJguCHaoeK1t8URWbuGJSstw-cM".
Proof. vm_compute. reflexivity. Qed.
