(* ===== verification/OAuthConfig.v ===== *)
(** * Configuration of the OAuth providers

    Models src/security/oauth/config.go and the configuration part of utils.go.
    Slices and maps may be nil ([None]), which [reflect.DeepEqual] tells from
    empty ones.  The configuration source (viper) is a record of its accessors,
    an argument; the order in which Go ranges over a map is an argument too. *)

From stdpp Require Import base tactics option list gmap strings numbers.
From Stdlib Require Import ZArith Ascii Lia.
From S2P Require Import Prelude Lexer Float64 Base64 GoStrings.

Open Scope string_scope.

(** ** Data *)

Record ProviderConfig := mkProvider {
  ClientID : string; ClientSecret : string; RedirectURL : string; Scopes : option (list string);
  AuthURL : string; TokenURL : string; UserInfoURL : string; RevokeURL : string;
  Enabled : bool; ExtraParams : option (gmap string string) }.
Record Config := mkConfig {
  Providers : option (gmap string (option ProviderConfig)); DefaultScope : option (list string);
  EnablePKCE : bool; StateSecret : string }.

#[global] Instance ProviderConfig_eq_dec : EqDecision ProviderConfig.
Proof. solve_decision. Defined.
#[global] Instance Config_eq_dec : EqDecision Config.
Proof. solve_decision. Defined.

Record ProviderInfo := mkInfo {
  Name : string; DisplayName : string; Icon : string; SupportedScopes : list string; RequiredScopes : list string;
  SupportsPKCE : bool; SupportsRefresh : bool; SupportsRevocation : bool }.

(** Elements of a slice, entries of a map. *)
Definition elems {A} (s : option (list A)) : list A := default [] s.

(** ** Loading *)

Record Viper := mkViper {
  GetString : string → string; GetBool : string → bool; GetStringSlice : string → option (list string);
  GetStringMapString : string → option (gmap string string); IsSet : string → bool;
  GetStringMapKeys : string → list string }.

Definition GetSupportedProviders : list string :=
  ["google"; "github"; "facebook"; "microsoft"; "apple"; "twitter"; "linkedin"; "tiktok"; "wechat"; "alipay"; "baidu"; "weibo"; "qq"].
Definition ValidateProvider (provider : string) : bool := existsb (String.eqb provider) GetSupportedProviders.

(** The addresses for authorization, tokens, user information and revocation,
    empty where there is none, and the scopes. *)
Definition default_table : list (string * (string * string * string * string * list string)) :=
  [("google", ("https://accounts.google.com/o/oauth2/v2/auth", "https://oauth2.googleapis.com/token",
      "https://www.googleapis.com/oauth2/v2/userinfo", "https://oauth2.googleapis.com/revoke", ["openid"; "email"; "profile"]));
   ("github", ("https://github.com/login/oauth/authorize", "https://github.com/login/oauth/access_token",
      "https://api.github.com/user", "", ["user:email"]));
   ("facebook", ("https://www.facebook.com/v18.0/dialog/oauth", "https://graph.facebook.com/v18.0/oauth/access_token",
      "https://graph.facebook.com/v18.0/me", "", ["email"; "public_profile"]));
   ("microsoft", ("https://login.microsoftonline.com/common/oauth2/v2.0/authorize",
      "https://login.microsoftonline.com/common/oauth2/v2.0/token", "https://graph.microsoft.com/v1.0/me",
      "https://login.microsoftonline.com/common/oauth2/v2.0/logout", ["openid"; "email"; "profile"]));
   ("apple", ("https://appleid.apple.com/auth/authorize", "https://appleid.apple.com/auth/token", "",
      "https://appleid.apple.com/auth/revoke", ["name"; "email"]));
   ("twitter", ("https://twitter.com/i/oauth2/authorize", "https://api.twitter.com/2/oauth2/token",
      "https://api.twitter.com/2/users/me", "https://api.twitter.com/2/oauth2/revoke", ["tweet.read"; "users.read"]));
   ("linkedin", ("https://www.linkedin.com/oauth/v2/authorization", "https://www.linkedin.com/oauth/v2/accessToken",
      "https://api.linkedin.com/v2/people/~", "", ["r_liteprofile"; "r_emailaddress"]));
   ("tiktok", ("https://www.tiktok.com/auth/authorize/", "https://open-api.tiktok.com/oauth/access_token/",
      "https://open-api.tiktok.com/oauth/userinfo/", "", ["user.info.basic"]));
   ("wechat", ("https://open.weixin.qq.com/connect/qrconnect", "https://api.weixin.qq.com/sns/oauth2/access_token",
      "https://api.weixin.qq.com/sns/userinfo", "", ["snsapi_login"]));
   ("alipay", ("https://openauth.alipay.com/oauth2/publicAppAuthorize.htm", "https://openapi.alipay.com/gateway.do",
      "https://openapi.alipay.com/gateway.do", "", ["auth_user"]));
   ("baidu", ("https://openapi.baidu.com/oauth/2.0/authorize", "https://openapi.baidu.com/oauth/2.0/token",
      "https://openapi.baidu.com/rest/2.0/passport/users/getInfo", "", ["basic"]));
   ("weibo", ("https://api.weibo.com/oauth2/authorize", "https://api.weibo.com/oauth2/access_token",
      "https://api.weibo.com/2/users/show.json", "", ["email"]));
   ("qq", ("https://graph.qq.com/oauth2.0/authorize", "https://graph.qq.com/oauth2.0/token",
      "https://graph.qq.com/user/get_user_info", "", ["get_user_info"]))].
Definition provider_defaults (provider : string) := snd <$> List.find (λ e, String.eqb provider e.1) default_table.

Definition or_default (x d : string) : string := if String.eqb x "" then d else x.

Definition setProviderDefaults (provider : string) (c : ProviderConfig) : ProviderConfig :=
  match provider_defaults provider with
  | None => c
  | Some (auth, token, user, revoke, scopes) =>
      mkProvider (ClientID c) (ClientSecret c) (RedirectURL c) (match elems (Scopes c) with [] => Some scopes | _ => Scopes c end)
        (or_default (AuthURL c) auth) (or_default (TokenURL c) token) (or_default (UserInfoURL c) user)
        (or_default (RevokeURL c) revoke) (Enabled c) (ExtraParams c)
  end.

Definition getProviderConfig (v : Viper) (provider : string) : ProviderConfig :=
  let key f := "oauth." +:+ provider +:+ "." +:+ f in
  setProviderDefaults (TrimPrefix provider "custom.")
    (mkProvider (GetString v (key "client_id")) (GetString v (key "client_secret")) (GetString v (key "redirect_url"))
      (GetStringSlice v (key "scopes")) (GetString v (key "auth_url")) (GetString v (key "token_url"))
      (GetString v (key "user_info_url")) (GetString v (key "revoke_url")) (GetBool v (key "enabled"))
      (GetStringMapString v (key "extra_params"))).

Definition GetConfig (v : Viper) : Config :=
  let known := foldl (λ m provider, if IsSet v ("oauth." +:+ provider) then <[provider := Some (getProviderConfig v provider)]> m else m)
    (∅ : gmap string (option ProviderConfig)) GetSupportedProviders in
  let providers :=
    if IsSet v "oauth.custom" then
      foldl (λ m name, <[name := Some (getProviderConfig v ("custom." +:+ name))]> m) known (GetStringMapKeys v "oauth.custom")
    else known in
  mkConfig (Some providers) (GetStringSlice v "oauth.default_scope") (GetBool v "oauth.enable_pkce") (GetString v "oauth.state_secret").

(** ** What the providers can do *)

Definition infos : list (string * (string * list string * list string * bool * bool * bool)) :=
  [("google", ("Google", ["openid"; "email"; "profile"], ["email"], true, true, true));
   ("github", ("GitHub", ["user"; "user:email"; "repo"; "read:org"], ["user:email"], true, false, false));
   ("facebook", ("Facebook", ["email"; "public_profile"], ["email"], true, false, false));
   ("microsoft", ("Microsoft", ["openid"; "email"; "profile"], ["email"], true, true, true));
   ("apple", ("Apple", ["name"; "email"], ["email"], true, true, true));
   ("twitter", ("Twitter", ["tweet.read"; "users.read"], ["users.read"], true, true, true));
   ("linkedin", ("LinkedIn", ["r_liteprofile"; "r_emailaddress"], ["r_emailaddress"], false, true, false));
   ("tiktok", ("TikTok", ["user.info.basic"; "user.info.profile"; "video.list"], ["user.info.basic"], true, true, false));
   ("wechat", ("WeChat", ["snsapi_login"; "snsapi_userinfo"], ["snsapi_login"], false, true, false));
   ("alipay", ("Alipay", ["auth_user"; "auth_base"], ["auth_user"], false, false, false));
   ("baidu", ("Baidu", ["basic"; "netdisk"], ["basic"], false, true, false));
   ("weibo", ("Weibo", ["email"; "direct_messages_read"], ["email"], false, false, false));
   ("qq", ("QQ", ["get_user_info"; "list_album"], ["get_user_info"], false, false, false))].
Definition known_info (provider : string) := snd <$> List.find (λ e, String.eqb provider e.1) infos.

(** [strings.Title] of ASCII text: the first letter of each word in upper case. *)
Definition upper_ascii (c : ascii) : ascii :=
  if byte_between "a" "z" c then byte_of (code_of c - 32) else c.
Definition word_char (c : ascii) : bool :=
  isDigit c || byte_between "a" "z" (lower_ascii c) || Ascii.eqb c "_" || (128 <=? code_of c)%Z.
Fixpoint title_from (prev : bool) (s : string) : string :=
  match s with
  | EmptyString => ""
  | String c s' => String (if prev then c else upper_ascii c) (title_from (word_char c) s')
  end.
Definition Title (s : string) : string := title_from false s.

(** The icon of a known provider is its name. *)
Definition GetProviderInfo (provider : string) : ProviderInfo :=
  match known_info provider with
  | Some (display, supported, required, pkce, refresh, revocation) =>
      mkInfo provider display provider supported required pkce refresh revocation
  | None => mkInfo provider (Title provider) "" [] [] false false false
  end.

(** ** Checking *)

Inductive config_error :=
| ENilConfig | ENoProviders | EClientID | EClientSecret | ERedirectURL | EAuthURL | ETokenURL
| EScope (scope provider : string) | EProvider (name : string) (e : config_error).

(** The first required scope that is not requested. *)
Definition ValidateRequiredScopes (provider : string) (requested : list string) : res config_error () :=
  match List.find (λ required, negb (bool_decide (required ∈ requested))) (RequiredScopes (GetProviderInfo provider)) with
  | Some required => Err (EScope required provider)
  | None => Ok tt
  end.

(** A nil provider is dereferenced. *)
Definition validateProviderConfig (name : string) (config : option ProviderConfig) : res config_error () :=
  match config with
  | None => Panic
  | Some c =>
      if negb (Enabled c) then Ok tt
      else if String.eqb (ClientID c) "" then Err EClientID
      else if String.eqb (ClientSecret c) "" && negb (String.eqb name "apple") then Err EClientSecret
      else if String.eqb (RedirectURL c) "" then Err ERedirectURL
      else if String.eqb (AuthURL c) "" then Err EAuthURL
      else if String.eqb (TokenURL c) "" then Err ETokenURL
      else ValidateRequiredScopes name (elems (Scopes c))
  end.

Fixpoint validate_all (order : list (string * option ProviderConfig)) : res config_error () :=
  match order with
  | [] => Ok tt
  | (name, c) :: order' =>
      match validateProviderConfig name c with
      | Ok _ => validate_all order'
      | Err e => Err (EProvider name e)
      | r => r
      end
  end.

(** [ValidateConfig]; [order] is the order in which it ranges over the providers. *)
Definition ValidateConfig (order : list (string * option ProviderConfig)) (config : option Config) : res config_error () :=
  match config with
  | None => Err ENilConfig
  | Some c => match Providers c with None => Err ENoProviders | Some _ => validate_all order end
  end.

(** [None]: a nil provider is dereferenced. *)
Definition usable (c : option ProviderConfig) : option bool :=
  c ← c; Some (Enabled c && negb (String.eqb (ClientID c) "")).

Definition IsProviderEnabled (config : option Config) (provider : string) : option bool :=
  match config ≫= Providers with
  | None => Some false
  | Some m => match m !! provider with Some c => usable c | None => Some false end
  end.

Definition GetEnabledProviders (order : list (string * option ProviderConfig)) (config : option Config) : option (list string) :=
  match config ≫= Providers with
  | None => Some []
  | Some _ => foldr (λ nc acc, b ← usable nc.2; l ← acc; Some (if b : bool then nc.1 :: l else l)) (Some []) order
  end.

(** ** Copies *)

(** [make] and [copy], and a map filled from another: never nil. *)
Definition cloneProviderConfig (c : option ProviderConfig) : option ProviderConfig :=
  c ← c;
  Some (mkProvider (ClientID c) (ClientSecret c) (RedirectURL c) (Some (elems (Scopes c))) (AuthURL c) (TokenURL c)
    (UserInfoURL c) (RevokeURL c) (Enabled c) (Some (default ∅ (ExtraParams c)))).

Definition CloneConfig (config : option Config) : option Config :=
  c ← config;
  Some (mkConfig (Some (cloneProviderConfig <$> default ∅ (Providers c))) (Some (elems (DefaultScope c)))
    (EnablePKCE c) (StateSecret c)).

(** [reflect.DeepEqual], for values without pointers to shared or changing data. *)
Definition CompareConfigs (a b : option Config) : bool := bool_decide (a = b).

(** ** Facts *)

(** The defaults of a supported provider are complete and ask for the scopes it
    requires; other providers have neither defaults nor required scopes. *)
Definition row_ok (name : string) : bool :=
  match provider_defaults name with
  | Some (auth, token, _, _, scopes) =>
      negb (String.eqb auth "") && negb (String.eqb token "") &&
      match scopes with [] => false | _ => true end &&
      forallb (λ r, bool_decide (r ∈ scopes)) (RequiredScopes (GetProviderInfo name))
  | None => false
  end.

Lemma supported_row name : name ∈ GetSupportedProviders → row_ok name = true.
Proof.
  intros Hin. assert (forallb row_ok GetSupportedProviders = true) as H by (vm_compute; reflexivity).
  rewrite forallb_forall in H. by apply H, list_elem_of_In.
Qed.

Lemma find_key_none {A} (name : string) (l : list (string * A)) : (∀ x, (name, x) ∉ l) → List.find (λ e, String.eqb name e.1) l = None.
Proof.
  intros H. destruct (List.find _ l) as [[k x]|] eqn:E; [|done]. apply find_some in E as [Hin Hk]. simpl in Hk.
  apply String.eqb_eq in Hk as ->. apply list_elem_of_In in Hin. by apply H in Hin.
Qed.

Lemma unsupported_row name : name ∉ GetSupportedProviders →
  provider_defaults name = None ∧ RequiredScopes (GetProviderInfo name) = [].
Proof.
  intros Hin. unfold provider_defaults, GetProviderInfo, known_info.
  assert (default_table.*1 = GetSupportedProviders ∧ infos.*1 = GetSupportedProviders) as [H1 H2] by done.
  rewrite !find_key_none; [done|..]; intros x Hx; apply Hin; [rewrite <- H2|rewrite <- H1]; apply list_elem_of_fmap; by exists (name, x).
Qed.

(** Under which key the configuration of a provider is read. *)
Definition loaded_as (v : Viper) (name : string) : option string :=
  if IsSet v "oauth.custom" && bool_decide (name ∈ GetStringMapKeys v "oauth.custom") then Some ("custom." +:+ name)
  else if bool_decide (name ∈ GetSupportedProviders) && IsSet v ("oauth." +:+ name) then Some name
  else None.

Lemma loaded_name v name key : loaded_as v name = Some key → TrimPrefix key "custom." = name.
Proof.
  unfold loaded_as. destruct (_ && _); [intros [= <-]|].
  { unfold TrimPrefix. assert (CutPrefix "custom." ("custom." +:+ name) = Some name) as -> by (by apply CutPrefix_spec). done. }
  destruct (bool_decide_reflect (name ∈ GetSupportedProviders)) as [Hin|]; [|done]. destruct (IsSet _ _); [|done]. intros [= <-].
  assert (forallb (λ n, String.eqb (TrimPrefix n "custom.") n) GetSupportedProviders = true) as H by done.
  rewrite forallb_forall in H. apply String.eqb_eq, H. by apply list_elem_of_In.
Qed.

Lemma insert_all_lookup {A} (f : string → A) (ns : list string) (m : gmap string A) name :
  foldl (λ m n, <[n := f n]> m) m ns !! name = if decide (name ∈ ns) then Some (f name) else m !! name.
Proof.
  revert m. induction ns as [|n ns IH]; intros m; [done|]. cbn [foldl]. rewrite IH. destruct (decide (name ∈ ns)) as [Hin|Hin].
  - by rewrite decide_True by (by right).
  - destruct (decide (n = name)) as [->|Hn]; [by rewrite lookup_insert_eq, decide_True by (by left)|].
    rewrite lookup_insert_ne by done. rewrite decide_False; [done|]. by intros [?|?]%elem_of_cons.
Qed.

Lemma insert_some_lookup {A} (p : string → bool) (f : string → A) (ns : list string) (m : gmap string A) name :
  foldl (λ m n, if p n then <[n := f n]> m else m) m ns !! name = if decide (name ∈ ns ∧ p name = true) then Some (f name) else m !! name.
Proof.
  revert m. induction ns as [|n ns IH]; intros m; [by rewrite decide_False by (by intros [?%not_elem_of_nil _])|].
  cbn [foldl]. rewrite IH. destruct (decide (name ∈ ns ∧ p name = true)) as [[H1 H2]|Hin].
  - by rewrite decide_True by (by split; [right|]).
  - destruct (decide (n = name)) as [->|Hn].
    + destruct (p name) eqn:Hp.
      * by rewrite lookup_insert_eq, decide_True by (by split; [left|]).
      * by rewrite decide_False by (by intros [_ ?]).
    + rewrite decide_False by (by intros [[?|?]%elem_of_cons ?]; [|tauto]). destruct (p n); [by rewrite lookup_insert_ne|done].
Qed.

Definition providers_of (c : Config) : gmap string (option ProviderConfig) := default ∅ (Providers c).

Lemma GetConfig_lookup v name :
  providers_of (GetConfig v) !! name = (λ key, Some (getProviderConfig v key)) <$> loaded_as v name.
Proof.
  unfold providers_of, GetConfig, loaded_as. cbn [Providers default from_option id].
  assert (∀ m : gmap string (option ProviderConfig), m = foldl (λ m provider, if IsSet v ("oauth." +:+ provider) then <[provider := Some (getProviderConfig v provider)]> m else m) ∅ GetSupportedProviders →
    m !! name = (λ key, Some (getProviderConfig v key)) <$> (if bool_decide (name ∈ GetSupportedProviders) && IsSet v ("oauth." +:+ name) then Some name else None)) as Hm.
  { intros m ->. rewrite (insert_some_lookup (λ p, IsSet v ("oauth." +:+ p)) (λ p, Some (getProviderConfig v p))).
    case_bool_decide as H1; cbn [andb]; [|by rewrite decide_False by tauto].
    destruct (IsSet v ("oauth." +:+ name)); [by rewrite decide_True by tauto|by rewrite decide_False by (by intros [_ ?])]. }
  specialize (Hm _ eq_refl). destruct (IsSet v "oauth.custom"); cbn [andb]; [|done].
  rewrite (insert_all_lookup (λ n, Some (getProviderConfig v ("custom." +:+ n)))). destruct (bool_decide_reflect (name ∈ GetStringMapKeys v "oauth.custom")).
  - by rewrite decide_True.
  - rewrite decide_False by done. exact Hm.
Qed.

(** *** Checks *)

(** What a provider under [key] needs in the source to pass. *)
Definition acceptable (v : Viper) (name key : string) : Prop :=
  let get f := GetString v ("oauth." +:+ key +:+ "." +:+ f) in
  let scopes := elems (GetStringSlice v ("oauth." +:+ key +:+ "." +:+ "scopes")) in
  GetBool v ("oauth." +:+ key +:+ "." +:+ "enabled") = true →
  get "client_id" ≠ "" ∧ (get "client_secret" ≠ "" ∨ name = "apple") ∧ get "redirect_url" ≠ "" ∧
  (name ∈ GetSupportedProviders ∨ get "auth_url" ≠ "" ∧ get "token_url" ≠ "") ∧
  (scopes = [] ∨ ∀ r, r ∈ RequiredScopes (GetProviderInfo name) → r ∈ scopes).

Lemma scopes_ok_iff name requested : ValidateRequiredScopes name requested = Ok tt ↔
  ∀ r, r ∈ RequiredScopes (GetProviderInfo name) → r ∈ requested.
Proof.
  unfold ValidateRequiredScopes. destruct (List.find _ _) as [r|] eqn:E.
  - apply find_some in E as [Hin Hr]. split; [done|]. intros H. apply list_elem_of_In, H in Hin.
    by rewrite bool_decide_true in Hr.
  - split; [|done]. intros _ r Hin. apply list_elem_of_In in Hin. apply (find_none _ _ E) in Hin.
    by apply negb_false_iff, bool_decide_eq_true in Hin.
Qed.

Lemma provider_total name c : ∃ r, validateProviderConfig name (Some c) = r ∧ (r = Ok tt ∨ ∃ e, r = Err e).
Proof.
  eexists. split; [done|]. cbn [validateProviderConfig]. unfold ValidateRequiredScopes. repeat case_match; eauto.
Qed.

Lemma validate_iff name c : validateProviderConfig name (Some c) = Ok tt ↔
  (Enabled c = true → ClientID c ≠ "" ∧ (ClientSecret c ≠ "" ∨ name = "apple") ∧ RedirectURL c ≠ "" ∧ (AuthURL c ≠ "" ∧ TokenURL c ≠ "") ∧
    ∀ r, r ∈ RequiredScopes (GetProviderInfo name) → r ∈ elems (Scopes c)).
Proof.
  cbn [validateProviderConfig]. destruct (Enabled c); cbn [negb]; [|by split].
  destruct (String.eqb_spec (ClientID c) ""); [split; [done|tauto]|].
  destruct (String.eqb_spec (ClientSecret c) "") as [Hs|Hs], (String.eqb_spec name "apple") as [Ha|Ha]; cbn [negb andb];
    try (split; [done|tauto]);
    (destruct (String.eqb_spec (RedirectURL c) ""); [split; [done|tauto]|]);
    (destruct (String.eqb_spec (AuthURL c) ""); [split; [done|tauto]|]);
    (destruct (String.eqb_spec (TokenURL c) ""); [split; [done|tauto]|]);
    rewrite scopes_ok_iff; tauto.
Qed.

Lemma or_default_empty x d : or_default x d ≠ "" ↔ x ≠ "" ∨ d ≠ "".
Proof. unfold or_default. destruct (String.eqb_spec x ""); subst; tauto. Qed.

Lemma provider_ok_iff v name key : TrimPrefix key "custom." = name →
  validateProviderConfig name (Some (getProviderConfig v key)) = Ok tt ↔ acceptable v name key.
Proof.
  intros Hk. rewrite validate_iff. unfold acceptable, getProviderConfig, setProviderDefaults. rewrite Hk. cbv zeta.
  destruct (decide (name ∈ GetSupportedProviders)) as [Hin|Hin].
  - pose proof (supported_row name Hin) as Hrow. unfold row_ok in Hrow.
    destruct (provider_defaults name) as [[[[[auth token] user] revoke] scopes]|]; [|done].
    rewrite !andb_true_iff, !negb_true_iff, !String.eqb_neq in Hrow. destruct Hrow as [[[Ha Ht] Hs] Hr].
    cbn [ClientID ClientSecret RedirectURL Scopes AuthURL TokenURL Enabled]. rewrite !or_default_empty.
    rewrite forallb_forall in Hr. assert (∀ r, r ∈ RequiredScopes (GetProviderInfo name) → r ∈ scopes) as Hreq.
    { intros r Hri. apply list_elem_of_In in Hri. by apply Hr, bool_decide_eq_true in Hri. }
    destruct (elems (GetStringSlice _ _)) as [|s0 ss] eqn:Es; cbn [elems default from_option id]; [tauto|].
    rewrite Es. assert (s0 :: ss ≠ []) by done. tauto.
  - destruct (unsupported_row name Hin) as [-> Hreq]. cbn [ClientID ClientSecret RedirectURL Scopes AuthURL TokenURL Enabled].
    rewrite Hreq. assert (∀ r : string, r ∉ []) as Hnil by (intros r; apply not_elem_of_nil).
    assert (∀ s : list string, (∀ r, r ∈ [] → r ∈ s) ↔ True) as He by (intros s; split; [done|intros _ r ?; by destruct (Hnil r)]).
    rewrite He. tauto.
Qed.

Lemma validate_all_ok order :
  Forall (λ nc, ∃ c, nc.2 = Some c) order →
  match validate_all order with
  | Ok _ => Forall (λ nc, validateProviderConfig nc.1 nc.2 = Ok tt) order
  | Err (EProvider name e) => ∃ c, (name, c) ∈ order ∧ validateProviderConfig name c = Err e
  | _ => False
  end.
Proof.
  induction 1 as [|[name c] order [c' Hc] Hall IH]; [constructor|]. cbn [validate_all snd] in *. subst c.
  destruct (provider_total name c') as (r & Hr & Hcases). rewrite Hr. destruct Hcases as [->|[e ->]].
  - destruct (validate_all order) as [|[]| |]; try done; [by constructor|]. destruct IH as (c & Hin & He). exists c. split; [by right|done].
  - exists (Some c'). split; [left|done].
Qed.

(** ** Properties *)

(** Which configurations pass.  For every order of the map and whatever the
    source says, the configuration that [GetConfig] loads passes [ValidateConfig]
    exactly when each provider in it, built in or custom, either is disabled or
    has a client, a redirect address, a secret unless it is called apple, for a
    custom one the two addresses, and scopes that are absent or include those
    required: the defaults of every built-in provider are complete.  Otherwise
    the error names a provider that does not, and nothing panics. *)
Theorem loaded_config_valid (v : Viper) (order : list (string * option ProviderConfig)) :
  order ≡ₚ map_to_list (providers_of (GetConfig v)) →
  match ValidateConfig order (Some (GetConfig v)) with
  | Ok _ => ∀ name key, loaded_as v name = Some key → acceptable v name key
  | Err (EProvider name e) => ∃ key, loaded_as v name = Some key ∧ ¬ acceptable v name key
  | _ => False
  end.
Proof.
  intros Ho. assert (∀ name c, (name, c) ∈ order ↔ ∃ key, loaded_as v name = Some key ∧ c = Some (getProviderConfig v key)) as Hin.
  { intros name c. rewrite Ho, elem_of_map_to_list, GetConfig_lookup. destruct (loaded_as v name) as [key|]; cbn; split.
    - intros [= <-]. by exists key.
    - by intros (? & [= <-] & ->).
    - done.
    - by intros (? & ? & _). }
  pose proof (validate_all_ok order) as Hv. cbn [ValidateConfig GetConfig Providers].
  destruct (validate_all order) as [u|[]| |]; try (apply Hv; apply list.Forall_forall; intros [n c] Hn;
    apply Hin in Hn as (key & _ & ->); by eexists).
  - intros name key Hl. rewrite <- (provider_ok_iff v name key) by (by eapply loaded_name).
    assert (Forall (λ nc, ∃ c, nc.2 = Some c) order) as Hs.
    { apply list.Forall_forall. intros [n c] Hn. apply Hin in Hn as (k & _ & ->). by eexists. }
    specialize (Hv Hs). rewrite list.Forall_forall in Hv. apply (Hv (name, Some (getProviderConfig v key))). apply Hin. eauto.
  - assert (Forall (λ nc, ∃ c, nc.2 = Some c) order) as Hs.
    { apply list.Forall_forall. intros [n c] Hn. apply Hin in Hn as (k & _ & ->). by eexists. }
    destruct (Hv Hs) as (c & Hc & He). apply Hin in Hc as (key & Hl & ->). exists key. split; [done|].
    rewrite <- (provider_ok_iff v name key) by (by eapply loaded_name). congruence.
Qed.

(** Whether a configuration has no nil slice or map. *)
Definition no_nil_provider (c : option ProviderConfig) : Prop :=
  match c with Some c => Scopes c ≠ None ∧ ExtraParams c ≠ None | None => True end.
Definition no_nil (c : Config) : Prop :=
  DefaultScope c ≠ None ∧ ∃ m, Providers c = Some m ∧ map_Forall (λ _ p, no_nil_provider p) m.

Lemma clone_provider_id c : cloneProviderConfig c = c ↔ no_nil_provider c.
Proof.
  destruct c as [[? ? ? sc ? ? ? ? ? ex]|]; [|done]. cbn. split.
  - intros [= <- <-]. done.
  - intros [Hs He]. destruct sc, ex; done.
Qed.

(** When a copy equals its original.  [CloneConfig] of a configuration is
    equal to it, for [CompareConfigs], exactly when nothing in it is nil: the
    scopes and the extra parameters of a provider that has none come back empty
    instead of nil, which the comparison tells apart.  A copy equals its own
    copy, and holds the same scopes, parameters and switches as the original. *)
Theorem clone_equal_iff (c : Config) :
  (CompareConfigs (Some c) (CloneConfig (Some c)) = true ↔ no_nil c) ∧
  CompareConfigs (CloneConfig (Some c)) (CloneConfig (CloneConfig (Some c))) = true ∧
  ∃ c', CloneConfig (Some c) = Some c' ∧ elems (DefaultScope c') = elems (DefaultScope c) ∧ EnablePKCE c' = EnablePKCE c ∧
    StateSecret c' = StateSecret c ∧
    ∀ name, match providers_of c !! name with
      | Some (Some p) => ∃ p', providers_of c' !! name = Some (Some p') ∧ elems (Scopes p') = elems (Scopes p) ∧
          default ∅ (ExtraParams p') = default ∅ (ExtraParams p) ∧ Enabled p' = Enabled p ∧ ClientID p' = ClientID p
      | r => providers_of c' !! name = r
      end.
Proof.
  unfold CompareConfigs, CloneConfig. cbn [mbind option_bind]. split_and!.
  - rewrite bool_decide_eq_true. destruct c as [ps ds pk ss]. unfold no_nil. cbn [Providers DefaultScope EnablePKCE StateSecret]. split.
    + intros [= Hp Hd]. split; [by rewrite Hd|]. exists (cloneProviderConfig <$> default ∅ ps). split; [done|].
      assert (cloneProviderConfig <$> default ∅ ps = default ∅ ps) as Hm by (by rewrite Hp at 2).
      intros name p Hl. apply clone_provider_id. rewrite Hm in Hl. pose proof Hl as Hl'. rewrite <- Hm, lookup_fmap, Hl in Hl'. by injection Hl'.
    + intros [Hd (m & -> & Hm)]. destruct ds as [ds|]; [|done]. cbn [default from_option id elems]. do 3 f_equal.
      apply map_eq. intros name. rewrite lookup_fmap. destruct (m !! name) as [p|] eqn:Hl; [|done]. cbn. f_equal. symmetry.
      apply clone_provider_id. by apply (Hm name).
  - rewrite bool_decide_eq_true. cbn [Providers DefaultScope EnablePKCE StateSecret elems default from_option id]. do 3 f_equal.
    rewrite <- map_fmap_compose. apply map_fmap_ext. intros name [p|] _; done.
  - eexists. split; [done|]. split_and!; [done..|]. intros name. unfold providers_of. cbn [Providers default from_option id].
    rewrite lookup_fmap. destruct (default ∅ (Providers c) !! name) as [[p|]|]; cbn; [|done|done]. eexists. by split_and!.
Qed.

(** *** At concrete inputs *)

(** Google without addresses or scopes, and a custom provider without addresses. *)
Definition demo_viper : Viper :=
  mkViper (λ k, if existsb (String.eqb k) ["oauth.google.client_id"; "oauth.google.client_secret"; "oauth.google.redirect_url";
      "oauth.custom.corp.client_id"; "oauth.custom.corp.client_secret"; "oauth.custom.corp.redirect_url"] then "x" else "")
    (λ k, existsb (String.eqb k) ["oauth.google.enabled"; "oauth.custom.corp.enabled"]) (λ _, None) (λ _, None)
    (λ k, existsb (String.eqb k) ["oauth.google"; "oauth.custom"]) (λ _, ["corp"]).

Lemma loaded_config_valid_witness :
  let order := map_to_list (providers_of (GetConfig demo_viper)) in
  ValidateConfig order (Some (GetConfig demo_viper)) = Err (EProvider "corp" EAuthURL) ∧
  ∃ key, loaded_as demo_viper "corp" = Some key ∧ ¬ acceptable demo_viper "corp" key.
Proof.
  intros order. assert (ValidateConfig order (Some (GetConfig demo_viper)) = Err (EProvider "corp" EAuthURL)) as He by (vm_compute; reflexivity).
  pose proof (loaded_config_valid demo_viper order (Permutation_refl order)) as H. rewrite He in H. by split.
Defined.
