(* ===== verification/FloatText.v ===== *)
(** * Printing floating-point numbers

    [strconv.FormatFloat] with the shortest digits that read back, in the formats
    'e', 'f' and 'g', and so [%v] of package fmt: for 1, 2, ... digits the number
    is cut and rounded up there, and the first of the two that rounds to the
    number again is taken, the nearer one when both do.  Seventeen digits always
    suffice for 53 bits. *)

From stdpp Require Import base tactics option list strings numbers pretty.
From Stdlib Require Import ZArith SpecFloat Ascii.
From S2P Require Import Prelude Float64.

(** ** Digits *)

(** The number [d * 10 ^ k], rounded. *)
Definition of_decimal (d k : Z) : float64 :=
  match d with
  | Zpos p => match k with Zneg q => f_of_ratio false p (Pos.pow 10 q) | _ => binary_normalize prec emax (d * 10 ^ k) 0 false end
  | _ => f_zero
  end.

Definition scale (z k : Z) : Z := (z * 10 ^ Z.max 0 k)%Z.

(** Starting from a lower bound, the [k] with [10 ^ k <= num / den < 10 ^ (k + 1)]. *)
Fixpoint find_exp (fuel : nat) (num den k : Z) : Z :=
  match fuel with
  | O => k
  | S fuel' => if (scale den (k + 1) <=? scale num (- (k + 1)))%Z then find_exp fuel' num den (k + 1) else k
  end.
Definition dec_exp (num den : Z) : Z :=
  find_exp 8 num den (((Z.log2 num - Z.log2 den - 1) * 30103) / 100000 - 2).

(** The number [d * 10 ^ k], rounded to a float32, which a float64 holds. *)
Definition of_single (f : float64) : float64 :=
  match f with S754_finite s m e => binary_normalize prec emax (if s then Zneg m else Zpos m) e s | _ => f end.
Definition of_decimal32 (d k : Z) : float64 :=
  match d with
  | Zpos p =>
      of_single
        match k with
        | Zneg q => let '(m, e, l) := SFdiv_core_binary 24 128 (Zpos p) 0 (Zpos (Pos.pow 10 q)) 0 in binary_round_aux 24 128 false m e l
        | _ => binary_normalize 24 128 (d * 10 ^ k) 0 false
        end
  | _ => f_zero
  end.

(** The least number of digits, from [n] on, and the integer and the power of ten
    that give the number back, where [read] makes the number of digits. *)
Fixpoint shortest (read : Z → Z → float64) (fuel : nat) (n : Z) (f : float64) (num den k : Z) : option (Z * Z) :=
  match fuel with
  | O => None
  | S fuel' =>
      let p := (n - 1 - k)%Z in
      let a := scale num p in
      let b := scale den (- p) in
      let q := (a / b)%Z in
      let r := (a `mod` b)%Z in
      let down := bool_decide (read q (- p)%Z = f) in
      let up := bool_decide (read (q + 1)%Z (- p)%Z = f) in
      if down && up then
        Some (if (2 * r <? b)%Z || ((2 * r =? b)%Z && Z.even q) then q else (q + 1)%Z, p)
      else if down then Some (q, p)
      else if up then Some ((q + 1)%Z, p)
      else shortest read fuel' (n + 1) f num den k
  end.

Fixpoint trim_zeros (s : string) : string :=
  match s with
  | EmptyString => ""
  | String c s' => match trim_zeros s' with "" => if Ascii.eqb c "0" then "" else String c "" | t => String c t end
  end.

(** The digits and the position of the decimal point after them. *)
Definition digits_in (read : Z → Z → float64) (m : positive) (e : Z) : string * Z :=
  let num := if (0 <=? e)%Z then Z.shiftl (Zpos m) e else Zpos m in
  let den := if (0 <=? e)%Z then 1%Z else Z.shiftl 1 (- e) in
  match shortest read 17 1 (S754_finite false m e) num den (dec_exp num den) with
  | Some (q, p) => (trim_zeros (pretty q), (Z.of_nat (String.length (pretty q)) - p)%Z)
  | None => ("", 0%Z)
  end.
Definition digits_of : positive → Z → string * Z := digits_in of_decimal.

(** ** Formats *)

Fixpoint zeros (n : nat) : string := match n with O => "" | S n' => String "0" (zeros n') end.

Definition format_e (ds : string) (dp : Z) : string :=
  let mantissa := match ds with String d EmptyString => ds | String d rest => String d ("." +:+ rest) | EmptyString => "0" end in
  let x := (dp - 1)%Z in
  mantissa +:+ "e" +:+ (if (x <? 0)%Z then "-" else "+") +:+
    (if (Z.abs x <? 10)%Z then "0" else "") +:+ pretty (Z.abs x).

Definition format_f (ds : string) (dp : Z) : string :=
  let n := Z.of_nat (String.length ds) in
  if (dp <=? 0)%Z then "0." +:+ zeros (Z.to_nat (- dp)) +:+ ds
  else if (n <=? dp)%Z then ds +:+ zeros (Z.to_nat (dp - n))
  else String.substring 0 (Z.to_nat dp) ds +:+ "." +:+ str_drop (Z.to_nat dp) ds.

Definition format_g (ds : string) (dp : Z) : string :=
  if (dp - 1 <? -4)%Z || (6 <=? dp - 1)%Z then format_e ds dp else format_f ds dp.

Definition FormatFloat (format : string → Z → string) (zero : string) (f : float64) : string :=
  let sign (s : bool) := if s then "-" else "" in
  match f with
  | S754_nan => "NaN"
  | S754_infinity s => (if s then "-" else "+") +:+ "Inf"
  | S754_zero s => sign s +:+ zero
  | S754_finite s m e => let '(ds, dp) := digits_of m e in sign s +:+ format ds dp
  end.

(** [strconv.FormatFloat(f, 'f', -1, 64)] and [fmt.Sprintf("%v", f)]. *)
Definition FormatFloat_f : float64 → string := FormatFloat format_f "0".
Definition FormatFloat_g : float64 → string := FormatFloat format_g "0".

Definition printed (lit : string) : option (string * string) :=
  f ← ParseFloat lit; Some (FormatFloat_g f, FormatFloat_f f).

Example print_small : printed "0.1" = Some ("0.1", "0.1") ∧ printed "100" = Some ("100", "100") ∧ printed "-2.50" = Some ("-2.5", "-2.5").
Proof. vm_compute. repeat split. Qed.
Example print_large : printed "1000000" = Some ("1e+06", "1000000") ∧ printed "123456789" = Some ("1.23456789e+08", "123456789") ∧
  printed "999999" = Some ("999999", "999999") ∧ printed "9007199254740993" = Some ("9.007199254740992e+15", "9007199254740992").
Proof. vm_compute. repeat split. Qed.
Example print_extreme : FormatFloat_g <$> ParseFloat "1.7976931348623157e308" = Some "1.7976931348623157e+308" ∧
  FormatFloat_g <$> ParseFloat "5e-324" = Some "5e-324" ∧ FormatFloat_g <$> ParseFloat "2.2250738585072014e-308" = Some "2.2250738585072014e-308" ∧
  FormatFloat_g <$> ParseFloat "0.00001" = Some "1e-05" ∧ FormatFloat_g <$> ParseFloat "9.5367431640625e-07" = Some "9.5367431640625e-07".
Proof. vm_compute. repeat split. Qed.

(** ** Integers *)

Lemma digits2_bounds p : (2 ^ (Zpos (digits2_pos p) - 1) ≤ Zpos p < 2 ^ Zpos (digits2_pos p))%Z.
Proof.
  induction p as [p IH|p IH|]; cbn [digits2_pos]; [| |done]; rewrite Pos2Z.inj_succ;
    replace (Z.succ (Zpos (digits2_pos p)) - 1)%Z with (Z.succ (Zpos (digits2_pos p) - 1)) by lia; rewrite !Z.pow_succ_r by lia; lia.
Qed.

Lemma iter_xO p d : Zpos (Pos.iter xO p d) = (Zpos p * 2 ^ Zpos d)%Z.
Proof.
  induction d as [|d IH] using Pos.peano_ind; [cbn; lia|]. rewrite Pos.iter_succ, Pos2Z.inj_xO, IH, Pos2Z.inj_succ, Z.pow_succ_r by lia. lia.
Qed.

Lemma iter_digits p d : digits2_pos (Pos.iter xO p d) = (digits2_pos p + d)%positive.
Proof.
  induction d as [|d IH] using Pos.peano_ind; [cbn; lia|]. rewrite Pos.iter_succ. cbn [digits2_pos]. rewrite IH. lia.
Qed.

(** Rounding a mantissa of 53 bits does nothing. *)
Lemma round_full s m e : digits2_pos m = 53%positive → (-1000 ≤ e ≤ 900)%Z → binary_round_aux prec emax s (Zpos m) e loc_Exact = S754_finite s m e.
Proof.
  intros Hm He. unfold binary_round_aux. assert (shr_fexp prec emax (Zpos m) e loc_Exact = (Build_shr_record (Zpos m) false false, e)) as H.
  { unfold shr_fexp, fexp, emin, Zdigits2, prec, emax. rewrite Hm. replace (Z.max (Zpos 53 + e - 53) (3 - 1024 - 53) - e)%Z with 0%Z by lia. done. }
  rewrite H. cbn [shr_m loc_of_shr_record round_nearest_even]. rewrite H. cbn [shr_m].
  assert (Z.leb e (emax - prec) = true) as -> by (apply Z.leb_le; unfold emax, prec; lia). done.
Qed.

(** An integer below 2^53 is a float64. *)
Lemma round_small s p : (Zpos p < 2 ^ 53)%Z →
  ∃ m e, binary_round prec emax s p 0 = S754_finite s m e ∧ (e ≤ 0)%Z ∧ Zpos m = (Zpos p * 2 ^ (- e))%Z.
Proof.
  intros Hp. pose proof (digits2_bounds p) as [Hd _]. assert (Zpos (digits2_pos p) ≤ 53)%Z as H53.
  { destruct (Z.le_gt_cases (Zpos (digits2_pos p)) 53); [done|]. pose proof (Z.pow_le_mono_r 2 53 (Zpos (digits2_pos p) - 1)). lia. }
  unfold binary_round, shl_align, fexp, emin, prec, emax.
  replace (Z.max (Zpos (digits2_pos p) + 0 - 53) (3 - 1024 - 53))%Z with (Zpos (digits2_pos p) - 53)%Z by lia. rewrite Z.sub_0_r.
  destruct (Zpos (digits2_pos p) - 53)%Z as [|d|d] eqn:E; [|lia|].
  - exists p, 0%Z. split_and!; [|done|lia]. apply round_full; lia.
  - exists (Pos.iter xO p d), (Zneg d). split_and!; [|lia|apply iter_xO]. apply round_full; [rewrite iter_digits|]; lia.
Qed.
