(* ===== verification/OAuthClient.v ===== *)
(** * The OAuth client

    Models src/security/oauth/client.go, what provider.go adds for Twitter, and
    the value accessors of utils.go.  The answer of a server to a request is an
    argument ([net]; [None]: the request cannot be made), so is the decoding of
    an "expires_at" member by package time.  Bodies are read with [Json], a
    decoded [any] is a JSON value, and the parameters of an address are a map
    from names to values, since each is set once. *)

From stdpp Require Import base tactics option list gmap strings numbers sorting pretty.
From Stdlib Require Import ZArith Ascii Lia.
From S2P Require Import Prelude Lexer Float64 Base64 GoStrings Json FloatText OAuthConfig OAuthState.

Open Scope string_scope.

(** ** Addresses *)

Definition unreserved (c : ascii) : bool := url_char c || Ascii.eqb c "." || Ascii.eqb c "~".
Definition upper_hex (v : Z) : ascii := byte_of (if (v <? 10)%Z then v + 48 else v + 55)%Z.

(** [url.QueryEscape] and [url.QueryUnescape]. *)
Definition escape_char (c : ascii) : string :=
  if unreserved c then String c ""
  else if Ascii.eqb c " " then "+"
  else String "%" (String (upper_hex (Z.shiftr (code_of c) 4)) (String (upper_hex (Z.land (code_of c) 15)) "")).
Fixpoint QueryEscape (s : string) : string :=
  match s with EmptyString => "" | String c s' => escape_char c +:+ QueryEscape s' end.
Fixpoint QueryUnescape (s : string) : option string :=
  match s with
  | EmptyString => Some ""
  | String c s' =>
      if Ascii.eqb c "%" then
        match s' with
        | String a (String b t) => x ← hex_value a; y ← hex_value b; String (byte_of (16 * x + y)) <$> QueryUnescape t
        | _ => None
        end
      else String (if Ascii.eqb c "+" then " "%char else c) <$> QueryUnescape s'
  end.

(** Entries by key, as [sort.Strings] orders them. *)
Definition by_key {A} (x y : string * A) : Prop := String.leb x.1 y.1 = true.
#[global] Instance by_key_dec {A} : RelDecision (@by_key A).
Proof. intros x y. unfold by_key. apply _. Defined.
Definition sorted_entries {A} (m : gmap string A) : list (string * A) := merge_sort by_key (map_to_list m).

(** [url.Values.Encode]. *)
Definition pair_text (kv : string * string) : string := QueryEscape kv.1 +:+ "=" +:+ QueryEscape kv.2.
Definition Encode (params : gmap string string) : string := Join "&" (pair_text <$> sorted_entries params).

(** [url.ParseQuery], what the server does with it: semicolons are refused. *)
Definition parse_pair (s : string) : option (string * string) :=
  if has_byte ";" s then None
  else
    let '(k, v) := match SplitN2 "=" s with Some kv => kv | None => (s, "") end in
    k ← QueryUnescape k; v ← QueryUnescape v; Some (k, v).
Definition parse_query (s : string) : option (list (string * string)) :=
  mapM parse_pair (List.filter (λ p, negb (String.eqb p "")) (Split "&" s)).

(** ** Values *)

Definition obj_map (l : list (string * json)) : gmap string json := foldl (λ m kv, <[kv.1 := kv.2]> m) ∅ l.

(** [fmt.Sprintf("%v", v)] of a decoded value. *)
Fixpoint Sprint (j : json) : string :=
  match j with
  | JNull => "<nil>"
  | JBool b => if b then "true" else "false"
  | JNum lit => match ParseFloat lit with Some f => FormatFloat_g f | None => "" end
  | JStr s => s
  | JArr l => "[" +:+ Join " " (Sprint <$> l) +:+ "]"
  | JObj l =>
      let m := foldl (λ m kv, <[kv.1 := kv.2]> m) ∅ ((λ kv, (kv.1, Sprint kv.2)) <$> l) : gmap string string in
      "map[" +:+ Join " " ((λ kv, kv.1 +:+ ":" +:+ kv.2) <$> sorted_entries m) +:+ "]"
  end.

Definition getString (m : gmap string json) (key : string) : string :=
  match m !! key with Some v => Sprint v | None => "" end.
Definition getBool (m : gmap string json) (key : string) : bool :=
  match m !! key with
  | Some (JBool b) => b
  | Some v => existsb (String.eqb (Sprint v)) ["true"; "1"; "yes"]
  | None => false
  end.
Definition getMap (m : gmap string json) (key : string) : option (gmap string json) :=
  match m !! key with Some (JObj l) => Some (obj_map l) | _ => None end.

(** Numbers that do not fit a float64 are an error. *)
Fixpoint numbers_ok (j : json) : bool :=
  match j with
  | JNum lit => is_some_b (ParseFloat lit)
  | JArr l => forallb numbers_ok l
  | JObj l => forallb (λ kv, numbers_ok kv.2) l
  | _ => true
  end.

(** [json.NewDecoder(body).Decode]: the first value of the text. *)
Definition decode_first (body : string) : option json := fst <$> parse_value max_depth body.
Definition decode_any (body : string) : option json :=
  j ← decode_first body; if numbers_ok j then Some j else None.
(** Into a [map[string]any]; null gives the nil map. *)
Definition decode_map (body : string) : option (gmap string json) :=
  match decode_any body with
  | Some (JObj l) => Some (obj_map l)
  | Some JNull => Some ∅
  | _ => None
  end.

(** ** The client *)

Record Client := mkClient { cl_config : Config; stateManager : StateManager }.

(** The client with its configuration, whose empty secret is set. *)
Definition NewClient (config : Config) : Client :=
  let secret := if String.eqb (StateSecret config) "" then "default-secret" else StateSecret config in
  mkClient (mkConfig (Providers config) (DefaultScope config) (EnablePKCE config) secret) (NewStateManager secret).

Inductive client_error :=
| ENotConfigured | ERequest | EStatus (body : string) | EDecode | EMissingID | EApple | ETwitter | ENoEmail | ENoRevocation.

(** The configuration of an enabled provider; a nil one is dereferenced. *)
Definition enabled_config (c : Client) (provider : string) : res client_error ProviderConfig :=
  match providers_of (cl_config c) !! provider with
  | None => Err ENotConfigured
  | Some None => Panic
  | Some (Some p) => if Enabled p then Ok p else Err ENotConfigured
  end.

Definition supportsPKCE (provider : string) : bool := SupportsPKCE (GetProviderInfo provider).

Definition specific_params (provider : string) : gmap string string :=
  if String.eqb provider "google" then {["access_type" := "offline"; "prompt" := "consent"]}
  else if String.eqb provider "github" then {["allow_signup" := "true"]}
  else if String.eqb provider "microsoft" then {["response_mode" := "query"]}
  else if String.eqb provider "apple" then {["response_mode" := "form_post"]}
  else ∅.

Definition base_params (config : ProviderConfig) (state : string) : gmap string string :=
  {["client_id" := ClientID config; "redirect_uri" := RedirectURL config; "scope" := Join " " (elems (Scopes config));
    "response_type" := "code"; "state" := state]}.
Definition pkce_params (c : Client) (provider : string) (additional : gmap string string) : gmap string string :=
  let challenge := default "" (additional !! "code_challenge") in
  if EnablePKCE (cl_config c) && supportsPKCE provider && negb (String.eqb challenge "")
  then {["code_challenge" := challenge; "code_challenge_method" := "S256"]} else ∅.

(** The parameters of the address: what is set later comes first. *)
Definition auth_params (c : Client) (provider : string) (config : ProviderConfig) (state : string)
    (additional : gmap string string) : gmap string string :=
  delete "code_challenge" additional ∪ default ∅ (ExtraParams config) ∪ specific_params provider ∪
    pkce_params c provider additional ∪ base_params config state.

(** [GetAuthURL]; without a state one is generated from the clock and random
    bytes. *)
Definition GetAuthURL (c : Client) (now : Z) (random : string) (provider state : string) (additional : gmap string string) :
    res client_error string :=
  rbind (enabled_config c provider) (λ config,
    let state :=
      if String.eqb state "" then (GenerateState (stateManager c) now random (mkState provider "" "" "login" 0 "" None)).1 else state in
    Ok (AuthURL config +:+ "?" +:+ Encode (auth_params c provider config state additional))).

(** ** Requests *)

Record Request := mkRequest {
  rq_method : string; rq_url : string; rq_body : string; rq_headers : list (string * string); rq_basic : option (string * string) }.
Record Response := mkResponse { StatusCode : Z; Body : string }.

Section Client.
Context (net : Request → option Response).

Definition get_json (url token : string) : Request :=
  mkRequest "GET" url "" [("Authorization", "Bearer " +:+ token); ("Accept", "application/json")] None.

(** The body of an answer to a request, decoded, whatever its status. *)
Definition fetch_map (r : Request) : res client_error (gmap string json) :=
  match net r with
  | None => Err ERequest
  | Some resp => of_opt (decode_map (Body resp)) EDecode
  end.

(** *** Profiles *)

Record Profile := mkProfile {
  pf_ID : string; Email : string; pf_Name : string; Avatar : string; Username : string; pf_Provider : string; Verified : bool; Locale : string }.

Definition parseProfile (provider : string) (raw : gmap string json) : Profile :=
  let str := getString raw in
  let mk id email name avatar user verified locale := mkProfile id email name avatar user provider verified locale in
  match provider with
  | "google" => mk (str "sub") (str "email") (str "name") (str "picture") (str "email") (getBool raw "email_verified") (str "locale")
  | "facebook" =>
      let avatar := match getMap raw "picture" with
        | Some picture => match getMap picture "data" with Some data => getString data "url" | None => "" end
        | None => "" end in
      mk (str "id") (str "email") (str "name") avatar (str "email") (getBool raw "verified") ""
  | "microsoft" =>
      let email := if String.eqb (str "mail") "" then str "userPrincipalName" else str "mail" in
      mk (str "id") email (str "displayName") "" email false ""
  | "tiktok" =>
      match getMap raw "data" with
      | Some data => mk (getString data "open_id") "" (getString data "display_name") (getString data "avatar_url") (getString data "username") false ""
      | None => mk "" "" "" "" "" false ""
      end
  | "wechat" => mk (str "openid") "" (str "nickname") (str "headimgurl") (str "openid") false ""
  | "alipay" => mk (str "user_id") "" (str "nick_name") (str "avatar") (str "user_id") false ""
  | "baidu" => mk (str "uid") "" (str "uname") "" (str "uname") false ""
  | "weibo" => mk (str "id") "" (str "screen_name") (str "profile_image_url") (str "name") (getBool raw "verified") ""
  | "qq" => mk (str "openid") "" (str "nickname") (str "figureurl_qq_1") (str "openid") false ""
  | _ =>
      let user := if String.eqb (str "username") "" then str "email" else str "username" in
      mk (str "id") (str "email") (str "name") (str "avatar") user false ""
  end.

(** The address of the first element with a true [flag] and a string for it. *)
Fixpoint email_by (flag : string) (emails : list (gmap string json)) : option string :=
  match emails with
  | [] => None
  | e :: es =>
      match e !! flag, e !! "email" with
      | Some (JBool true), Some (JStr addr) => Some addr
      | _, _ => email_by flag es
      end
  end.
Definition pick_email (emails : list (gmap string json)) : option string :=
  match email_by "primary" emails with
  | Some a => Some a
  | None =>
      match email_by "verified" emails with
      | Some a => Some a
      | None => match emails with e :: _ => match e !! "email" with Some (JStr a) => Some a | _ => None end | [] => None end
      end
  end.

(** Into a [[]map[string]any]. *)
Definition decode_maps (body : string) : option (list (gmap string json)) :=
  match decode_any body with
  | Some (JArr l) => mapM (λ j, match j with JObj m => Some (obj_map m) | JNull => Some ∅ | _ => None end) l
  | Some JNull => Some []
  | _ => None
  end.

Definition getGitHubEmail (token : string) : res client_error string :=
  match net (get_json "https://api.github.com/user/emails" token) with
  | None => Err ERequest
  | Some resp =>
      match decode_maps (Body resp) with
      | None => Err EDecode
      | Some emails => of_opt (pick_email emails) ENoEmail
      end
  end.

Definition or_empty {E} (r : res E string) : string := match r with Ok s => s | _ => "" end.

(** [fmt.Sprintf("%v", profile["id"])]: a missing member is printed as nil. *)
Definition getGitHubProfile (token : string) : res client_error Profile :=
  rbind (fetch_map (get_json "https://api.github.com/user" token)) (λ profile,
    let email := getString profile "email" in
    let email := if String.eqb email "" then or_empty (getGitHubEmail token) else email in
    Ok (mkProfile (match profile !! "id" with Some v => Sprint v | None => "<nil>" end) email (getString profile "name")
      (getString profile "avatar_url") (getString profile "login") "github" (getBool profile "email_verified") "")).

Definition getTwitterProfile (token : string) : res client_error Profile :=
  rbind (fetch_map (get_json "https://api.twitter.com/2/users/me?user.fields=profile_image_url,verified" token)) (λ result,
    match getMap result "data" with
    | None => Err ETwitter
    | Some data =>
        Ok (mkProfile (getString data "id") "" (getString data "name") (getString data "profile_image_url")
          (getString data "username") "twitter" (getBool data "verified") "")
    end).

Definition getLinkedInEmail (token : string) : res client_error string :=
  rbind (fetch_map (get_json "https://api.linkedin.com/v2/emailAddress?q=members&projection=(elements*(handle~))" token)) (λ result,
    match result !! "elements" with
    | Some (JArr (JObj element :: _)) =>
        match getMap (obj_map element) "handle~" with Some handle => Ok (getString handle "emailAddress") | None => Err ENoEmail end
    | _ => Err ENoEmail
    end).

(** The first string among the localized names, in the order [order] ranges over
    the map. *)
Definition localized (order : gmap string json → list json) (profile : gmap string json) (key : string) : option string :=
  match getMap profile key with
  | Some n =>
      match getMap n "localized" with
      | Some m => head (omap (λ v, match v with JStr s => Some s | _ => None end) (order m))
      | None => None
      end
  | None => None
  end.

Definition getLinkedInProfile (order : gmap string json → list json) (token : string) : res client_error Profile :=
  rbind (fetch_map (get_json "https://api.linkedin.com/v2/people/~:(id,firstName,lastName,profilePicture(displayImage~:playableStreams))" token))
    (λ profile,
      let email := or_empty (getLinkedInEmail token) in
      let first := default "" (localized order profile "firstName") in
      let name := match localized order profile "lastName" with
        | Some l => (if String.eqb first "" then "" else first +:+ " ") +:+ l
        | None => first end in
      Ok (mkProfile (getString profile "id") email name "" email "linkedin" false "")).

Definition GetUserProfile (order : gmap string json → list json) (c : Client) (provider token : string) : res client_error Profile :=
  rbind (enabled_config c provider) (λ config,
    if String.eqb provider "github" then getGitHubProfile token
    else if String.eqb provider "apple" then Err EApple
    else if String.eqb provider "twitter" then getTwitterProfile token
    else if String.eqb provider "linkedin" then getLinkedInProfile order token
    else
      let url := UserInfoURL config +:+ (if String.eqb provider "facebook" then "?fields=id,name,email,picture,verified" else "") in
      match net (get_json url token) with
      | None => Err ERequest
      | Some resp =>
          if negb (StatusCode resp =? 200)%Z then Err (EStatus (Body resp))
          else
            match decode_map (Body resp) with
            | None => Err EDecode
            | Some raw =>
                let profile := parseProfile provider raw in
                if String.eqb (pf_ID profile) "" then Err EMissingID else Ok profile
            end
      end).

(** [ValidateToken]: whether the token is valid, and the client. *)
Definition ValidateToken (order : gmap string json → list json) (c : Client) (provider token : string) : res client_error (bool * string) :=
  match GetUserProfile order c provider token with
  | Ok _ =>
      match providers_of (cl_config c) !! provider with
      | Some (Some p) => Ok (true, ClientID p)
      | _ => Panic
      end
  | Err _ => Ok (false, "")
  | Panic => Panic
  | NoFuel => NoFuel
  end.

(** *** Tokens *)

(** Times are in nanoseconds; [None] is the zero time. *)
Record TokenResponse := mkToken {
  AccessToken : string; RefreshToken : string; TokenType : string; ExpiresIn : Z; Scope : string; IDToken : string; ExpiresAt : option Z }.
Definition with_ExpiresAt (x : option Z) (t : TokenResponse) : TokenResponse :=
  mkToken (AccessToken t) (RefreshToken t) (TokenType t) (ExpiresIn t) (Scope t) (IDToken t) x.

Context (parse_time : json → option (option Z)).

Definition token_fields : list (string * (json → TokenResponse → option TokenResponse)) :=
  [("access_token", set_string (λ x t, mkToken x (RefreshToken t) (TokenType t) (ExpiresIn t) (Scope t) (IDToken t) (ExpiresAt t)));
   ("refresh_token", set_string (λ x t, mkToken (AccessToken t) x (TokenType t) (ExpiresIn t) (Scope t) (IDToken t) (ExpiresAt t)));
   ("token_type", set_string (λ x t, mkToken (AccessToken t) (RefreshToken t) x (ExpiresIn t) (Scope t) (IDToken t) (ExpiresAt t)));
   ("expires_in", set_int64 (λ x t, mkToken (AccessToken t) (RefreshToken t) (TokenType t) x (Scope t) (IDToken t) (ExpiresAt t)));
   ("scope", set_string (λ x t, mkToken (AccessToken t) (RefreshToken t) (TokenType t) (ExpiresIn t) x (IDToken t) (ExpiresAt t)));
   ("id_token", set_string (λ x t, mkToken (AccessToken t) (RefreshToken t) (TokenType t) (ExpiresIn t) (Scope t) x (ExpiresAt t)));
   ("expires_at", λ j t, match j with JNull => Some t | _ => x ← parse_time j; Some (with_ExpiresAt x t) end)].

Definition decode_token (body : string) : option TokenResponse :=
  let zero := mkToken "" "" "" 0 "" "" None in
  match decode_first body with
  | Some (JObj l) => decode_struct token_fields l zero
  | Some JNull => Some zero
  | _ => None
  end.

Definition form_headers : list (string * string) :=
  [("Content-Type", "application/x-www-form-urlencoded"); ("Accept", "application/json")].

(** The token of an answer, with its time of expiry. *)
Definition token_answer (now : Z) (r : Request) : res client_error TokenResponse :=
  match net r with
  | None => Err ERequest
  | Some resp =>
      if negb (StatusCode resp =? 200)%Z then Err (EStatus (Body resp))
      else
        match decode_token (Body resp) with
        | None => Err EDecode
        | Some t => Ok (if (0 <? ExpiresIn t)%Z then with_ExpiresAt (Some (now + wrap64 (ExpiresIn t * 10 ^ 9))%Z) t else t)
        end
  end.

Definition ExchangeCodeForToken (c : Client) (now : Z) (provider code : string) (codeVerifier : option string) :
    res client_error TokenResponse :=
  rbind (enabled_config c provider) (λ config,
    let data : gmap string string :=
      {["client_id" := ClientID config; "client_secret" := ClientSecret config; "code" := code;
        "grant_type" := "authorization_code"; "redirect_uri" := RedirectURL config]} in
    let data := match codeVerifier with
      | Some v => if String.eqb v "" then data else <["code_verifier" := v]> data
      | None => data end in
    let basic := if String.eqb provider "apple" || String.eqb provider "twitter"
      then Some (ClientID config, ClientSecret config) else None in
    token_answer now (mkRequest "POST" (TokenURL config) (Encode data) form_headers basic)).

Definition RefreshAccessToken (c : Client) (now : Z) (provider refreshToken : string) : res client_error TokenResponse :=
  rbind (enabled_config c provider) (λ config,
    let data : gmap string string :=
      {["client_id" := ClientID config; "client_secret" := ClientSecret config; "refresh_token" := refreshToken;
        "grant_type" := "refresh_token"]} in
    token_answer now (mkRequest "POST" (TokenURL config) (Encode data) form_headers None)).

Definition RevokeToken (c : Client) (provider token : string) : res client_error () :=
  match enabled_config c provider with
  | Ok config =>
      if String.eqb (RevokeURL config) "" then Err ENoRevocation
      else
        let r := mkRequest "POST" (RevokeURL config) (Encode {["token" := token]})
          [("Content-Type", "application/x-www-form-urlencoded")] (Some (ClientID config, ClientSecret config)) in
        match net r with
        | None => Err ERequest
        | Some resp => if negb (StatusCode resp =? 200)%Z then Err (EStatus (Body resp)) else Ok tt
        end
  | Err _ => Err ENoRevocation
  | Panic => Panic
  | NoFuel => NoFuel
  end.

(** [HandleTwitterOAuth2] of provider.go. *)
Definition HandleTwitterOAuth2 (order : gmap string json → list json) (c : Client) (now : Z) (codeVerifier code : string) :
    res client_error (Profile * TokenResponse) :=
  rbind (ExchangeCodeForToken c now "twitter" code (Some codeVerifier)) (λ token,
  rbind (GetUserProfile order c "twitter" (AccessToken token)) (λ profile, Ok (profile, token))).
End Client.

(** ** Facts *)

(** *** Queries read back *)

Lemma unescape_char c t : QueryUnescape (escape_char c +:+ t) = String c <$> QueryUnescape t.
Proof. destruct c as [[] [] [] [] [] [] [] []]; reflexivity. Qed.

Lemma unescape_escape s : QueryUnescape (QueryEscape s) = Some s.
Proof. induction s as [|c s IH]; [done|]. cbn [QueryEscape]. by rewrite unescape_char, IH. Qed.

Lemma escape_plain b s : b ∈ ["&"; ";"; "="]%char → has_byte b (QueryEscape s) = false.
Proof.
  intros Hb. induction s as [|c s IH]; [done|]. cbn [QueryEscape]. rewrite has_byte_app, IH, orb_false_r.
  rewrite !elem_of_cons in Hb. destruct Hb as [->|[->|[->|Hb]]]; [..|by apply not_elem_of_nil in Hb];
    by destruct c as [[] [] [] [] [] [] [] []].
Qed.

Lemma pair_plain b kv : b ∈ ["&"; ";"]%char → has_byte b (pair_text kv) = false.
Proof.
  intros Hb. unfold pair_text. rewrite !has_byte_app.
  assert (b ∈ ["&"; ";"; "="]%char) as Hb' by (rewrite !elem_of_cons in *; tauto). rewrite !escape_plain by done.
  rewrite !elem_of_cons in Hb. by destruct Hb as [->|[->|Hb]]; [..|apply not_elem_of_nil in Hb].
Qed.

Lemma parse_pair_text kv : parse_pair (pair_text kv) = Some kv.
Proof.
  unfold parse_pair. rewrite pair_plain by (by right; left).
  assert (SplitN2 "=" (pair_text kv) = Some (QueryEscape kv.1, QueryEscape kv.2)) as ->.
  { apply SplitN2_spec. split; [done|]. apply escape_plain. by right; right; left. }
  rewrite !unescape_escape. by destruct kv.
Qed.

Lemma pair_not_empty kv : String.eqb (pair_text kv) "" = false.
Proof. unfold pair_text. by destruct (QueryEscape kv.1). Qed.

Lemma parse_encode_query (m : gmap string string) : parse_query (Encode m) = Some (sorted_entries m).
Proof.
  unfold parse_query, Encode. generalize (sorted_entries m). intros l. destruct l as [|kv l]; [done|].
  rewrite Split_Join; [|done|apply Forall_fmap, Forall_true; intros x; apply pair_plain; left].
  generalize (kv :: l). clear. intros l. induction l as [|kv l IH]; [done|]. rewrite fmap_cons. cbn [List.filter].
  rewrite pair_not_empty. cbn [negb mapM]. rewrite parse_pair_text. cbn [mbind option_bind]. by rewrite IH.
Qed.

Lemma sorted_entries_map {A} (m : gmap string A) : NoDup (sorted_entries m).*1 ∧ list_to_map (sorted_entries m) = m.
Proof.
  unfold sorted_entries. pose proof (merge_sort_Permutation by_key (map_to_list m)) as Hp.
  assert (NoDup (merge_sort by_key (map_to_list m)).*1) as Hn by (rewrite Hp; apply NoDup_fst_map_to_list).
  split; [done|]. rewrite <- (list_to_map_to_list m) at 2. by apply list_to_map_proper.
Qed.

(** *** Profiles *)

Section Facts.
Context (net : Request → option Response) (order : gmap string json → list json).

Lemma fetch_total r : ∃ x, fetch_map net r = x ∧ ((∃ m, x = Ok m) ∨ ∃ e, x = Err e).
Proof. eexists. split; [done|]. unfold fetch_map. destruct (net r) as [resp|]; [|eauto]. destruct (decode_map (Body resp)); simpl; eauto. Qed.

(** What makes a token valid for a provider. *)
Definition token_accepted (p : ProviderConfig) (provider token : string) : Prop :=
  if String.eqb provider "github" then is_Ok (fetch_map net (get_json "https://api.github.com/user" token)) = true
  else if String.eqb provider "apple" then False
  else if String.eqb provider "twitter" then
    ∃ m data, fetch_map net (get_json "https://api.twitter.com/2/users/me?user.fields=profile_image_url,verified" token) = Ok m ∧
      getMap m "data" = Some data
  else if String.eqb provider "linkedin" then
    is_Ok (fetch_map net (get_json "https://api.linkedin.com/v2/people/~:(id,firstName,lastName,profilePicture(displayImage~:playableStreams))" token)) = true
  else
    ∃ resp raw, net (get_json (UserInfoURL p +:+ (if String.eqb provider "facebook" then "?fields=id,name,email,picture,verified" else "")) token) = Some resp ∧
      StatusCode resp = 200%Z ∧ decode_map (Body resp) = Some raw ∧ pf_ID (parseProfile provider raw) ≠ "".

Lemma user_profile_cases c provider token p :
  enabled_config c provider = Ok p →
  (∃ pf, GetUserProfile net order c provider token = Ok pf) ∧ token_accepted p provider token ∨
  (∃ e, GetUserProfile net order c provider token = Err e) ∧ ¬ token_accepted p provider token.
Proof.
  intros Hp. unfold GetUserProfile, token_accepted. rewrite Hp. cbn [rbind].
  destruct (String.eqb provider "github"); [|destruct (String.eqb provider "apple"); [|destruct (String.eqb provider "twitter");
    [|destruct (String.eqb provider "linkedin")]]].
  - unfold getGitHubProfile. destruct (fetch_total (get_json "https://api.github.com/user" token)) as (x & -> & [[m ->]|[e ->]]); cbn [rbind is_Ok].
    + left. eauto.
    + right. eauto.
  - right. split; [eauto|tauto].
  - unfold getTwitterProfile.
    destruct (fetch_total (get_json "https://api.twitter.com/2/users/me?user.fields=profile_image_url,verified" token)) as (x & -> & [[m ->]|[e ->]]); cbn [rbind].
    + destruct (getMap m "data") as [data|] eqn:Hd; [left|right]; (split; [eauto|]).
      * by exists m, data.
      * intros (m' & data & [= <-] & ?). congruence.
    + right. split; [eauto|]. by intros (? & ? & ? & _).
  - unfold getLinkedInProfile.
    destruct (fetch_total (get_json "https://api.linkedin.com/v2/people/~:(id,firstName,lastName,profilePicture(displayImage~:playableStreams))" token))
      as (x & -> & [[m ->]|[e ->]]); cbn [rbind is_Ok].
    + left. eauto.
    + right. eauto.
  - set (url := UserInfoURL p +:+ _). destruct (net (get_json url token)) as [resp|] eqn:Hn.
    2: { right. split; [eauto|]. by intros (? & ? & ? & _). }
    destruct (Z.eqb_spec (StatusCode resp) 200) as [Hst|Hst]; cbn [negb].
    2: { right. split; [eauto|]. intros (resp' & ? & [= <-] & ? & _). done. }
    destruct (decode_map (Body resp)) as [raw|] eqn:Hd.
    2: { right. split; [eauto|]. intros (resp' & ? & [= <-] & ? & ? & _). congruence. }
    destruct (String.eqb_spec (pf_ID (parseProfile provider raw)) "") as [Hid|Hid].
    + right. split; [eauto|]. intros (resp' & raw' & [= <-] & _ & Hr & Hne). rewrite Hd in Hr. injection Hr as <-. done.
    + left. split; [eauto|]. by exists resp, raw.
Qed.
End Facts.

Lemma enabled_config_Some c provider p : providers_of (cl_config c) !! provider = Some (Some p) → Enabled p = true →
  enabled_config c provider = Ok p.
Proof. intros Hl He. unfold enabled_config. by rewrite Hl, He. Qed.

Lemma specific_reserved provider k : k ∈ ["client_id"; "redirect_uri"; "scope"; "response_type"; "state"; "code_challenge"] →
  specific_params provider !! k = None.
Proof.
  intros Hk. assert (∀ m : gmap string string, m ∈ [({["access_type" := "offline"; "prompt" := "consent"]} : gmap string string);
    {["allow_signup" := "true"]}; {["response_mode" := "query"]}; {["response_mode" := "form_post"]}; ∅] → m !! k = None) as H.
  { intros m. rewrite !elem_of_cons in *. intros Hm.
    destruct Hk as [->|[->|[->|[->|[->|[->|Hk]]]]]]; [..|by apply not_elem_of_nil in Hk];
      destruct Hm as [->|[->|[->|[->|[->|Hm]]]]]; first [reflexivity|by apply not_elem_of_nil in Hm]. }
  unfold specific_params. repeat case_match; apply H; rewrite !elem_of_cons; tauto.
Qed.

(** ** Properties *)

(** What the authorization address says.  Reading its query back gives each
    parameter once: those of the caller, whatever they are called, then those of
    the configuration, then the others.  So a parameter of the caller or of the
    configuration replaces even the client, the redirect address and the state,
    which otherwise are those given.  The challenge of the caller is in it
    exactly when PKCE is on, supported and the challenge not empty, unless the
    configuration has one. *)
Theorem auth_url_exact (c : Client) (now : Z) (random provider state : string) (additional : gmap string string) (p : ProviderConfig) :
  providers_of (cl_config c) !! provider = Some (Some p) → Enabled p = true → state ≠ "" →
  let extra := default ∅ (ExtraParams p) in
  ∃ q l (params : gmap string string), GetAuthURL c now random provider state additional = Ok (AuthURL p +:+ "?" +:+ q) ∧
    parse_query q = Some l ∧ NoDup l.*1 ∧ list_to_map l = params ∧
    (∀ k v, k ≠ "code_challenge" → additional !! k = Some v → params !! k = Some v) ∧
    (∀ k v, k = "code_challenge" ∨ additional !! k = None → extra !! k = Some v → params !! k = Some v) ∧
    (∀ k v, additional !! k = None → extra !! k = None →
      (k, v) ∈ [("client_id", ClientID p); ("redirect_uri", RedirectURL p); ("scope", Join " " (elems (Scopes p)));
        ("response_type", "code"); ("state", state)] → params !! k = Some v) ∧
    (extra !! "code_challenge" = None → ∀ v, params !! "code_challenge" = Some v ↔
      additional !! "code_challenge" = Some v ∧ v ≠ "" ∧ EnablePKCE (cl_config c) = true ∧ SupportsPKCE (GetProviderInfo provider) = true).
Proof.
  intros Hl He Hst extra. set (params := auth_params c provider p state additional).
  exists (Encode params), (sorted_entries params), params. destruct (sorted_entries_map params) as [Hn Hm].
  split_and!; [|apply parse_encode_query|done|done|..].
  - unfold GetAuthURL. rewrite (enabled_config_Some c provider p) by done. cbn [rbind]. by destruct (String.eqb_spec state "").
  - intros k v Hk Hv. unfold params, auth_params. rewrite <- !(assoc_L (∪)). apply lookup_union_Some_l. by rewrite lookup_delete_ne.
  - intros k v Hk Hv. unfold params, auth_params. rewrite <- !(assoc_L (∪)). rewrite lookup_union_r; [by apply lookup_union_Some_l|].
    destruct Hk as [->|Hk]; [apply lookup_delete_eq|]. by rewrite lookup_delete_None; right.
  - intros k v Ha Hx Hkv. unfold params, auth_params. fold extra.
    assert (k ∈ ["client_id"; "redirect_uri"; "scope"; "response_type"; "state"]) as Hk.
    { apply (list_elem_of_fmap_2 fst) in Hkv. exact Hkv. }
    assert (pkce_params c provider additional !! k = None) as Hp.
    { unfold pkce_params. destruct (_ && _ && _); [|done]. rewrite !elem_of_cons in Hk.
      by destruct Hk as [->|[->|[->|[->|[->|Hk]]]]]; [..|apply not_elem_of_nil in Hk]. }
    assert (specific_params provider !! k = None) as Hs.
    { apply specific_reserved. rewrite !elem_of_cons in *. tauto. }
    rewrite !lookup_union_r; [|by rewrite ?lookup_delete_None; auto..|].
    all: rewrite ?lookup_union_None; rewrite ?lookup_delete_None; auto.
    rewrite !elem_of_cons in Hkv. by destruct Hkv as [[= -> ->]|[[= -> ->]|[[= -> ->]|[[= -> ->]|[[= -> ->]|Hkv]]]]]; [..|apply not_elem_of_nil in Hkv].
  - intros Hx v. unfold params, auth_params. fold extra.
    assert (base_params p state !! "code_challenge" = None) as Hb by done. rewrite lookup_union_l by exact Hb.
    rewrite lookup_union_r.
    2: { rewrite !lookup_union_None. split_and!; [apply lookup_delete_eq|done|]. apply specific_reserved. by repeat (left || right). }
    unfold pkce_params, supportsPKCE. destruct (EnablePKCE (cl_config c)); cbn [andb]; [|split; [done|by intros (_ & _ & ? & _)]].
    destruct (SupportsPKCE (GetProviderInfo provider)); cbn [andb]; [|split; [done|by intros (_ & _ & _ & ?)]].
    destruct (additional !! "code_challenge") as [x|]; cbn [default from_option id]; [|split; [done|by intros (? & _)]].
    destruct (String.eqb_spec x "") as [->|Hne]; cbn [negb]; [split; [done|intros ([= <-] & ? & _); done]|].
    change (({["code_challenge" := x; "code_challenge_method" := "S256"]} : gmap string string) !! "code_challenge") with (Some x).
    split; [intros [= <-]; by split_and!|by intros (? & _)].
Qed.

(** C30: Which tokens [ValidateToken] calls valid.  For a configured provider it
    answers without an error, and says valid exactly when: for GitHub and
    LinkedIn, the body of the answer is a JSON object or null, whatever its
    status and contents; for Twitter, the body has an object "data"; for Apple,
    never; for all others, the status is 200 and the identifier in the body is
    not empty.  So with GitHub and LinkedIn the error message that refuses a
    token makes it valid. *)
Theorem token_valid_iff (net : Request → option Response) (order : gmap string json → list json)
    (c : Client) (provider token : string) (p : ProviderConfig) :
  providers_of (cl_config c) !! provider = Some (Some p) → Enabled p = true →
  ∃ valid client, ValidateToken net order c provider token = Ok (valid, client) ∧
    (valid = true ↔ token_accepted net p provider token).
Proof.
  intros Hl He. unfold ValidateToken.
  destruct (user_profile_cases net order c provider token p (enabled_config_Some c provider p Hl He)) as [[[pf ->] Hacc]|[[e ->] Hacc]].
  - rewrite Hl. by eexists _, _.
  - eexists _, _. split; [done|]. by split.
Qed.

(** An address that is null is never looked up.  When GitHub answers with a
    null address, as it does for users who hide theirs, the profile has the text
    of nil as its address, whatever the list of addresses would say; only when
    the member is missing or empty the list is asked, and then its first primary,
    else its first verified address is taken. *)
Theorem github_null_email (net : Request → option Response) (token : string) (m : gmap string json) :
  fetch_map net (get_json "https://api.github.com/user" token) = Ok m →
  ∃ pf, getGitHubProfile net token = Ok pf ∧ (m !! "email" = Some JNull → Email pf = "<nil>") ∧
    ∀ emails resp, getString m "email" = "" → net (get_json "https://api.github.com/user/emails" token) = Some resp →
      decode_maps (Body resp) = Some emails → Email pf = default "" (pick_email emails).
Proof.
  intros Hm. unfold getGitHubProfile. rewrite Hm. cbn [rbind]. eexists. split; [done|]. cbn [Email]. split.
  - intros He. assert (getString m "email" = "<nil>") as -> by (unfold getString; by rewrite He). done.
  - intros emails resp He Hn Hd. rewrite He. unfold getGitHubEmail. rewrite Hn, Hd. cbn [String.eqb]. by destruct (pick_email emails).
Qed.

(** C32: When a token expires.  An answer without a positive number of seconds
    keeps the time it gives itself.  Otherwise the time of expiry is now plus the
    seconds, less the multiple of 2^64 nanoseconds that brings the product into an
    int64: it is right exactly up to 9223372036 seconds, about 292 years.  Beyond,
    it is anywhere within 292 years of now: in the past, so that the token is
    expired when it arrives, exactly when the product is in the upper half of its
    2^64 values, as it is from 9223372037 to 18446744073 seconds; and in the
    future, but too early, otherwise. *)
Theorem token_expiry (net : Request → option Response) (parse_time : json → option (option Z)) (now : Z) (r : Request)
    (resp : Response) (t : TokenResponse) :
  net r = Some resp → StatusCode resp = 200%Z → decode_token parse_time (Body resp) = Some t →
  ∃ t', token_answer net parse_time now r = Ok t' ∧ t' = with_ExpiresAt (ExpiresAt t') t ∧
    if (0 <? ExpiresIn t)%Z then
      ∃ e k, ExpiresAt t' = Some e ∧ (e = now + ExpiresIn t * 10 ^ 9 - k * 2 ^ 64)%Z ∧ (0 ≤ k)%Z ∧ (now - 2 ^ 63 ≤ e < now + 2 ^ 63)%Z ∧
        ((e = now + ExpiresIn t * 10 ^ 9)%Z ↔ (ExpiresIn t ≤ 9223372036)%Z) ∧
        ((e < now)%Z ↔ (2 ^ 63 ≤ (ExpiresIn t * 10 ^ 9) `mod` 2 ^ 64)%Z) ∧
        ((9223372036 < ExpiresIn t ≤ 18446744073)%Z → (e < now)%Z)
    else ExpiresAt t' = ExpiresAt t.
Proof.
  intros Hn Hs Hd. unfold token_answer. rewrite Hn, Hs, Hd. cbn [negb Z.eqb Pos.eqb]. eexists. split; [done|].
  destruct (Z.ltb_spec 0 (ExpiresIn t)) as [Hpos|]; [|split; [by destruct t|done]]. split; [by destruct t|]. cbn [ExpiresAt with_ExpiresAt].
  set (x := (ExpiresIn t * 10 ^ 9)%Z). exists (now + wrap64 x)%Z, ((x + 2 ^ 63) `div` 2 ^ 64)%Z.
  pose proof (Z.div_mod (x + 2 ^ 63) (2 ^ 64) ltac:(done)) as H1. pose proof (Z.mod_pos_bound (x + 2 ^ 63) (2 ^ 64) ltac:(done)) as H2.
  pose proof (Z.div_mod x (2 ^ 64) ltac:(done)) as H3. pose proof (Z.mod_pos_bound x (2 ^ 64) ltac:(done)) as H4. unfold wrap64.
  set (q := ((x + 2 ^ 63) `div` 2 ^ 64)%Z) in *. set (m := ((x + 2 ^ 63) `mod` 2 ^ 64)%Z) in *.
  set (q' := (x `div` 2 ^ 64)%Z) in *. set (m' := (x `mod` 2 ^ 64)%Z) in *. assert (x = ExpiresIn t * 10 ^ 9)%Z as Hx by done.
  clearbody q m q' m' x. split_and!; [done|..]; try lia. all: split; lia.
Qed.

(** *** At concrete inputs *)

Definition demo_provider : ProviderConfig :=
  mkProvider "id" "secret" "https://app/cb" (Some ["user:email"]) "https://github.com/login/oauth/authorize" "https://t" "" "" true None.
Definition demo_client : Client :=
  NewClient (mkConfig (Some {["github" := Some demo_provider]}) None true "").

Lemma auth_url_exact_witness :
  GetAuthURL demo_client 0 "" "github" "s&1" {["state" := "mine"]} =
    Ok "https://github.com/login/oauth/authorize?allow_signup=true&client_id=id&redirect_uri=https%3A%2F%2Fapp%2Fcb&response_type=code&scope=user%3Aemail&state=mine" ∧
  ∃ q l, GetAuthURL demo_client 0 "" "github" "s&1" {["state" := "mine"]} = Ok (AuthURL demo_provider +:+ "?" +:+ q) ∧
    parse_query q = Some l ∧ (list_to_map l : gmap string string) !! "state" = Some "mine".
Proof.
  split; [vm_compute; reflexivity|].
  destruct (auth_url_exact demo_client 0 "" "github" "s&1" {["state" := "mine"]} demo_provider eq_refl eq_refl ltac:(discriminate))
    as (q & l & params & Hu & Hq & _ & Hm & Ha & _).
  exists q, l. split; [exact Hu|]. split; [exact Hq|]. rewrite Hm. by apply Ha.
Defined.

(** What GitHub answers to a token it does not know. *)
Definition refusing_net (r : Request) : option Response :=
  Some (mkResponse 401 ("{" +:+ quote "message" +:+ ": " +:+ quote "Bad credentials" +:+ "}")).

Lemma token_valid_iff_witness :
  ValidateToken refusing_net (λ m, []) demo_client "github" "stolen" = Ok (true, "id") ∧
  ∃ valid client, ValidateToken refusing_net (λ m, []) demo_client "github" "stolen" = Ok (valid, client) ∧
    (valid = true ↔ token_accepted refusing_net demo_provider "github" "stolen").
Proof.
  split; [vm_compute; reflexivity|].
  exact (token_valid_iff refusing_net (λ m, []) demo_client "github" "stolen" demo_provider eq_refl eq_refl).
Defined.

Definition private_net (r : Request) : option Response :=
  Some (mkResponse 200 (if String.eqb (rq_url r) "https://api.github.com/user"
    then "{" +:+ quote "id" +:+ ": 7, " +:+ quote "email" +:+ ": null}"
    else "[{" +:+ quote "email" +:+ ": " +:+ quote "me@x.org" +:+ ", " +:+ quote "primary" +:+ ": true}]")).

Lemma github_null_email_witness :
  getGitHubProfile private_net "t" = Ok (mkProfile "7" "<nil>" "" "" "" "github" false "") ∧
  ∃ pf, getGitHubProfile private_net "t" = Ok pf ∧ Email pf = "<nil>".
Proof.
  split; [vm_compute; reflexivity|].
  destruct (github_null_email private_net "t" {["id" := JNum "7"; "email" := JNull]}) as (pf & Hp & He & _); [vm_compute; reflexivity|].
  exists pf. split; [exact Hp|]. by apply He.
Defined.

Definition token_net (seconds : string) (r : Request) : option Response :=
  Some (mkResponse 200 ("{" +:+ quote "access_token" +:+ ":" +:+ quote "t" +:+ "," +:+ quote "expires_in" +:+ ":" +:+ seconds +:+ "}")).

(** 10000000000 seconds are in the past, 20000000000 about 49 years ahead. *)
Lemma token_expiry_witness :
  (∃ t' e, token_answer (token_net "10000000000") (λ _, None) 0 (get_json "u" "t") = Ok t' ∧ ExpiresAt t' = Some e ∧ (e < 0)%Z) ∧
  (∃ t' e, token_answer (token_net "20000000000") (λ _, None) 0 (get_json "u" "t") = Ok t' ∧ ExpiresAt t' = Some e ∧ (0 ≤ e)%Z ∧ e ≠ (20000000000 * 10 ^ 9)%Z).
Proof.
  split.
  - destruct (token_expiry (token_net "10000000000") (λ _, None) 0 (get_json "u" "t") _ (mkToken "t" "" "" 10000000000 "" "" None) eq_refl eq_refl)
      as (t' & Ht & _ & e & k & He & _ & _ & _ & _ & _ & H); [vm_compute; reflexivity|].
    exists t', e. split; [exact Ht|]. split; [exact He|]. apply H. simpl. lia.
  - destruct (token_expiry (token_net "20000000000") (λ _, None) 0 (get_json "u" "t") _ (mkToken "t" "" "" 20000000000 "" "" None) eq_refl eq_refl)
      as (t' & Ht & _ & e & k & He & _ & _ & _ & H1 & H2 & _); [vm_compute; reflexivity|].
    exists t', e. split; [exact Ht|]. split; [exact He|]. split.
    + apply Z.nlt_ge. intros Hlt%H2. vm_compute in Hlt. by apply Hlt.
    + intros E%H1. simpl in E. lia.
Defined.

(** A null identifier is printed and so not empty; a GitHub user whose number has
    seven digits gets its identifier in scientific notation. *)
Example null_identifier : pf_ID (parseProfile "corp" {["id" := JNull]}) = "<nil>".
Proof. vm_compute. reflexivity. Qed.
Example scientific_identifier : Sprint (JNum "1234567") = "1.234567e+06" ∧ Sprint (JNum "583231") = "583231".
Proof. vm_compute. by split. Qed.
