(* ===== verification/Search.v ===== *)
(** * Search engines

    Models src/data/search/search.go, the client that sends searches and documents
    to one of several engines, and the part of src/data/search_helper.go that sets
    it up.  The engines are outside: the class [Backend] says what a client calls of
    them, and has no laws: an index may be deleted by another program, and an
    engine may make an index later than it says.  The client's configuration is
    not shared with its caller. *)

From stdpp Require Import base tactics option list gmap strings.
From Stdlib Require Import ZArith Ascii Lia.
From S2P Require Import Prelude Base64.

Open Scope string_scope.

Inductive operation := OpIndex (doc : nat) | OpDelete (id : string) | OpBulkIndex (docs : list nat) | OpBulkDelete (ids : list string).

(** What the adapter of an engine does for an index, [W] being the engines: the
    first three fail with [None], [create] and [run] with [false]. *)
Class Backend (W : Type) := {
  healthy : string → W → bool;
  query : string → string → nat → W → option nat;
  index_exists : string → string → W → option bool * W;
  create : string → string → W → bool * W;
  run : string → string → operation → W → bool * W }.

Record Config := mkConfig { IndexPrefix : string; DefaultEngine : string; AutoCreateIndex : bool }.

Inductive metric := SearchQuery (engine : string) (failed : bool) | SearchIndex (engine name : string).

(** [adapters]: the engines there are adapters for, in the order the map is
    ranged over; [engine]: the one in use, empty at first. *)
Record Client := mkClient {
  adapters : list string; engine : string; indexCache : gset string; indexPrefix : string;
  searchConfig : option Config; collected : list metric }.

Definition with_engine (e : string) (c : Client) : Client :=
  mkClient (adapters c) e (indexCache c) (indexPrefix c) (searchConfig c) (collected c).
Definition with_cache (s : gset string) (c : Client) : Client :=
  mkClient (adapters c) (engine c) s (indexPrefix c) (searchConfig c) (collected c).
Definition with_config (x : option Config) (c : Client) : Client :=
  mkClient (adapters c) (engine c) (indexCache c) (indexPrefix c) x (collected c).
Definition with_prefix (p : string) (c : Client) : Client :=
  mkClient (adapters c) (engine c) ∅ p
    ((λ s, mkConfig p (DefaultEngine s) (AutoCreateIndex s)) <$> searchConfig c) (collected c).
Definition collect (m : list metric) (c : Client) : Client :=
  mkClient (adapters c) (engine c) (indexCache c) (indexPrefix c) (searchConfig c) (collected c ++ m).

Inductive search_error := ErrNoEngineAvailable | ErrEngineNotFound | EEnsure | EAdapter.

Definition has_adapter (c : Client) (e : string) : bool := bool_decide (e ∈ adapters c).

Definition buildIndexName (c : Client) (index : string) : string :=
  if String.eqb (indexPrefix c) "" then index else indexPrefix c +:+ "-" +:+ index.

Section Client.
Context {W : Type} `{Backend W}.
Implicit Types (c : Client) (w : W).

Definition usable (c : Client) (w : W) (e : string) : bool := has_adapter c e && healthy e w.

Definition priority : list string := ["opensearch"; "elasticsearch"; "meilisearch"].

(** [setEngine]: the first usable one of the default, the priorities and all. *)
Definition setEngine (w : W) (c : Client) : Client :=
  let preferred := match searchConfig c with
    | Some s => if String.eqb (DefaultEngine s) "" then [] else [DefaultEngine s]
    | None => [] end in
  match List.find (usable c w) (preferred ++ priority ++ adapters c) with
  | Some e => with_engine e c
  | None => c
  end.

Definition default_config : Config := mkConfig "" "elasticsearch" true.

Definition NewClientWithConfig (config : option Config) (adapters : list string) (w : W) : Client :=
  let s := default default_config config in
  setEngine w (mkClient adapters "" ∅ (IndexPrefix s) (Some s) []).
Definition NewClient := NewClientWithConfig None.
Definition NewClientWithPrefix (prefix : string) := NewClientWithConfig (Some (mkConfig prefix "elasticsearch" true)).

Definition SetIndexPrefix (prefix : string) (c : Client) : Client := with_prefix prefix c.

Definition UpdateSearchConfig (config : option Config) (w : W) (c : Client) : Client :=
  let c := with_config config c in
  let c := match config with Some s => SetIndexPrefix (IndexPrefix s) c | None => c end in
  setEngine w c.

(** [getAdapter]: the engine in use, set if there is none. *)
Definition getAdapter (w : W) (c : Client) : res search_error string * Client :=
  let c := if String.eqb (engine c) "" then setEngine w c else c in
  if String.eqb (engine c) "" then (Err ErrNoEngineAvailable, c)
  else if has_adapter c (engine c) then (Ok (engine c), c)
  else (Err ErrEngineNotFound, c).

Definition SearchWith (e : string) (index : string) (q : nat) (w : W) (c : Client) : res search_error nat * Client :=
  if has_adapter c e then
    match query e (buildIndexName c index) q w with
    | Some r => (Ok r, collect [SearchQuery e false] c)
    | None => (Err EAdapter, collect [SearchQuery e true] c)
    end
  else (Err ErrEngineNotFound, c).

Definition Search (index : string) (q : nat) (w : W) (c : Client) : res search_error nat * Client :=
  match getAdapter w c with
  | (Ok e, c) => SearchWith e index q w c
  | (Err x, c) => (Err x, c)
  | (_, c) => (Panic, c)
  end.

Definition shouldAutoCreateIndex (c : Client) : bool :=
  match searchConfig c with Some s => AutoCreateIndex s | None => false end.

Definition cacheKey (e index : string) : string := e +:+ String ":"%char index.

Definition ensureIndex (e index : string) (w : W) (c : Client) : bool * Client * W :=
  if bool_decide (cacheKey e index ∈ indexCache c) then (true, c, w)
  else if negb (has_adapter c e) then (false, c, w)
  else
    match index_exists e index w with
    | (None, w) => (false, c, w)
    | (Some true, w) => (true, with_cache ({[cacheKey e index]} ∪ indexCache c) c, w)
    | (Some false, w) =>
        match create e index w with
        | (true, w) => (true, with_cache ({[cacheKey e index]} ∪ indexCache c) c, w)
        | (false, w) => (false, c, w)
        end
    end.

(** The engine in use is credited, whichever was asked. *)
Definition collectMetrics (name : string) (ok : bool) (c : Client) : Client :=
  collect (SearchQuery (engine c) (negb ok) :: if ok then [SearchIndex (engine c) name] else []) c.

Definition finish (name : string) (e index : string) (o : operation) (w : W) (c : Client) : res search_error () * Client * W :=
  let (ok, w) := run e index o w in
  (if ok then Ok tt else Err EAdapter, collectMetrics name ok c, w).

(** [IndexWith] and [BulkIndexWith]. *)
Definition write_with (name : string) (e index : string) (o : operation) (w : W) (c : Client) : res search_error () * Client * W :=
  if negb (has_adapter c e) then (Err ErrEngineNotFound, c, w)
  else
    let full := buildIndexName c index in
    if shouldAutoCreateIndex c then
      let '(ok, c, w) := ensureIndex e full w c in
      if ok : bool then finish name e full o w c else (Err EEnsure, c, w)
    else finish name e full o w c.
Definition IndexWith (e index : string) (doc : nat) := write_with "index" e index (OpIndex doc).
Definition BulkIndexWith (e index : string) (docs : list nat) := write_with "bulk_index" e index (OpBulkIndex docs).

Definition with_adapter (w : W) (c : Client) (k : string → Client → res search_error () * Client * W) : res search_error () * Client * W :=
  match getAdapter w c with
  | (Ok e, c) => k e c
  | (Err x, c) => (Err x, c, w)
  | (_, c) => (Panic, c, w)
  end.
Definition Index (index : string) (doc : nat) (w : W) (c : Client) := with_adapter w c (λ e, IndexWith e index doc w).
Definition BulkIndex (index : string) (docs : list nat) (w : W) (c : Client) := with_adapter w c (λ e, BulkIndexWith e index docs w).
Definition Delete (index id : string) (w : W) (c : Client) :=
  with_adapter w c (λ e c, finish "delete" e (buildIndexName c index) (OpDelete id) w c).
Definition BulkDelete (index : string) (ids : list string) (w : W) (c : Client) :=
  with_adapter w c (λ e c, finish "bulk_delete" e (buildIndexName c index) (OpBulkDelete ids) w c).

Definition GetAvailableEngines (w : W) (c : Client) : list string := List.filter (λ e, healthy e w) (adapters c).
Definition Health (w : W) (c : Client) : list (string * bool) := (λ e, (e, healthy e w)) <$> adapters c.

(** [NewSearchClient]; [available]: whether there is a factory, a connection and
    an adapter for an engine. *)
Definition NewSearchClient (available : string → bool) (config : option Config) (w : W) : option Client :=
  match List.filter available ["elasticsearch"; "opensearch"; "meilisearch"] with
  | [] => None
  | engines =>
      let c := NewClient engines w in
      Some (match config with Some _ => UpdateSearchConfig config w c | None => c end)
  end.
End Client.

(** ** What the engines are asked *)

Inductive call :=
| Checked (e i : string) (found : option bool) | Created (e i : string) (accepted : bool) | Ran (e i : string) (o : operation) (ok : bool).

(** Engines with a record of what they were asked and answered. *)
#[export] Instance recording {W} `{Backend W} : Backend (W * list call) := {
  healthy e x := healthy e x.1;
  query e i q x := query e i q x.1;
  index_exists e i x := let (b, w) := index_exists e i x.1 in (b, (w, (x.2 ++ [Checked e i b])%list));
  create e i x := let (b, w) := create e i x.1 in (b, (w, (x.2 ++ [Created e i b])%list));
  run e i o x := let (b, w) := run e i o x.1 in (b, (w, (x.2 ++ [Ran e i o b])%list)) }.

(** The engine said that the index is there, or accepted to make it. *)
Definition confirmed (e i : string) (h : list call) : Prop := Checked e i (Some true) ∈ h ∨ Created e i true ∈ h.

(** What is asked before a write, whether the index is cached, and whether the
    write goes on. *)
Inductive prepares (e i : string) : bool → list call → bool → Prop :=
  | prep_cached : prepares e i true [] true
  | prep_found : prepares e i false [Checked e i (Some true)] true
  | prep_made : prepares e i false [Checked e i (Some false); Created e i true] true
  | prep_unknown : prepares e i false [Checked e i None] false
  | prep_refused : prepares e i false [Checked e i (Some false); Created e i false] false.

(** ** Facts *)

Section Facts.
Context {W : Type} `{Backend W}.
Implicit Types (c : Client) (w : W) (h : list call).

(** Names of engines have no colon; every cached key is that of a confirmed index. *)
Definition sound (c : Client) (h : list call) : Prop :=
  Forall (λ e, has_byte ":"%char e = false) (adapters c) ∧
  ∀ k, k ∈ indexCache c → ∃ e i, has_byte ":"%char e = false ∧ k = cacheKey e i ∧ confirmed e i h.

Lemma cacheKey_inj e i e' i' : has_byte ":"%char e = false → has_byte ":"%char e' = false → cacheKey e i = cacheKey e' i' → e = e' ∧ i = i'.
Proof.
  intros He He' Hk. assert (SplitN2 ":"%char (cacheKey e i) = Some (e, i)) as H1 by (by apply SplitN2_spec).
  assert (SplitN2 ":"%char (cacheKey e' i') = Some (e', i')) as H2 by (by apply SplitN2_spec).
  rewrite Hk in H1. split; congruence.
Qed.



Lemma confirmed_later e i h h' : confirmed e i h → confirmed e i (h ++ h')%list.
Proof. intros [Hc|Hc]; [left|right]; apply elem_of_app; by left. Qed.

Lemma sound_later c h h' : sound c h → sound c (h ++ h')%list.
Proof. intros [H1 H2]. split; [done|]. intros k Hk. destruct (H2 k Hk) as (e & i & ? & ? & ?). exists e, i. split_and!; try done. by apply confirmed_later. Qed.



(** [ensureIndex] asks what [prepares] says, and caches what was confirmed. *)
Lemma ensureIndex_spec e index w h c : has_adapter c e = true →
  let '(ok, c', x) := ensureIndex e index (w, h) c in
  ∃ calls, prepares e index (bool_decide (cacheKey e index ∈ indexCache c)) calls ok ∧ x.2 = (h ++ calls)%list ∧
    c' = (if ok then with_cache ({[cacheKey e index]} ∪ indexCache c) c else c).
Proof.
  intros Ha. unfold ensureIndex. rewrite Ha. cbn [negb]. case_bool_decide as Hin.
  { exists []. rewrite app_nil_r. split_and!; [constructor|done|]. unfold with_cache. rewrite subseteq_union_1_L by (by apply singleton_subseteq_l). by destruct c. }
  cbn [index_exists create recording fst snd]. destruct (index_exists e index w) as [[[]|] w1].
  - exists [Checked e index (Some true)]. split_and!; [constructor|done..].
  - cbn [create recording fst snd]. destruct (create e index w1) as [[] w2].
    + exists [Checked e index (Some false); Created e index true]. rewrite <- app_assoc. split_and!; [constructor|done..].
    + exists [Checked e index (Some false); Created e index false]. rewrite <- app_assoc. split_and!; [constructor|done..].
  - exists [Checked e index None]. split_and!; [constructor|done..].
Qed.

Lemma prepares_confirmed e i (c : Client) h calls ok : has_byte ":"%char e = false → sound c h →
  prepares e i (bool_decide (cacheKey e i ∈ indexCache c)) calls ok → ok = true → confirmed e i (h ++ calls)%list.
Proof.
  intros He Hs Hp Hok. remember (bool_decide (cacheKey e i ∈ indexCache c)) as b eqn:Hb. destruct Hp; try done.
  - symmetry in Hb. apply bool_decide_eq_true in Hb. destruct (proj2 Hs _ Hb) as (e' & i' & He' & Hk & Hc).
    destruct (cacheKey_inj _ _ _ _ He He' Hk) as [-> ->]. by apply confirmed_later.
  - left. apply elem_of_app. right. left.
  - right. apply elem_of_app. right. right. left.
Qed.

Lemma finish_spec name e index o w h c :
  let '(r, c', x) := finish name e index o (w, h) c in
  x.2 = (h ++ [Ran e index o (is_Ok r)])%list ∧ (r = Ok tt ∨ r = Err EAdapter) ∧ c' = collectMetrics name (is_Ok r) c.
Proof.
  unfold finish. cbn [run recording fst snd]. destruct (run e index o w) as [[] w']; split_and!; (done || tauto).
Qed.

Lemma has_adapter_plain c e h : sound c h → has_adapter c e = true → has_byte ":"%char e = false.
Proof. intros [Ha _] He%bool_decide_eq_true. rewrite list.Forall_forall in Ha. by apply Ha. Qed.

(** A write with automatic creation. *)
Lemma write_auto name e index o w h c : has_adapter c e = true → shouldAutoCreateIndex c = true → sound c h →
  let full := buildIndexName c index in
  let '(r, c', x) := write_with name e index o (w, h) c in
  ∃ calls ok, prepares e full (bool_decide (cacheKey e full ∈ indexCache c)) calls ok ∧
    x.2 = (h ++ calls ++ if ok : bool then [Ran e full o (is_Ok r)] else [])%list ∧
    (if ok then (r = Ok tt ∨ r = Err EAdapter) ∧ confirmed e full (h ++ calls)%list ∧ indexCache c' = {[cacheKey e full]} ∪ indexCache c
     else r = Err EEnsure ∧ indexCache c' = indexCache c ∧ cacheKey e full ∉ indexCache c) ∧
    adapters c' = adapters c ∧ indexPrefix c' = indexPrefix c ∧ searchConfig c' = searchConfig c ∧ sound c' x.2.
Proof.
  intros Ha Hauto Hs full. unfold write_with. rewrite Ha, Hauto. cbn [negb]. fold full. pose proof (has_adapter_plain c e h Hs Ha) as He.
  pose proof (ensureIndex_spec e full w h c Ha) as Hen. destruct (ensureIndex e full (w, h) c) as [[ok c1] [w1 h1]]. cbn [snd] in Hen.
  destruct Hen as (calls & Hp & -> & ->). pose proof (prepares_confirmed e full c h calls ok He Hs Hp) as Hc. destruct ok.
  - specialize (Hc eq_refl). pose proof (finish_spec name e full o w1 (h ++ calls)%list (with_cache ({[cacheKey e full]} ∪ indexCache c) c)) as Hf.
    destruct (finish _ _ _ _ _ _) as [[r c2] [w2 h2]]. cbn [snd] in Hf. destruct Hf as (-> & Hr & ->). exists calls, true.
    cbn [snd]. rewrite <- app_assoc. split_and!; try done. rewrite app_assoc. apply sound_later. destruct (sound_later c h calls Hs) as [H1 H2].
    split; [done|]. intros k. cbn. rewrite elem_of_union, elem_of_singleton. intros [->|Hk]; [by exists e, full|by apply H2].
  - exists calls, false. cbn [snd]. rewrite app_nil_r. split_and!; try done; [|by apply sound_later].
    intros Hin. rewrite bool_decide_eq_true_2 in Hp by done. by inversion Hp.
Qed.

End Facts.

(** ** Everything a program does with a client *)

Inductive request :=
  | RSetIndexPrefix (prefix : string) | RUpdateSearchConfig (config : option Config)
  | RSearch (index : string) (q : nat) | RSearchWith (e index : string) (q : nat)
  | RIndex (index : string) (doc : nat) | RIndexWith (e index : string) (doc : nat)
  | RBulkIndex (index : string) (docs : list nat) | RBulkIndexWith (e index : string) (docs : list nat)
  | RDelete (index id : string) | RBulkDelete (index : string) (ids : list string).

Section Runs.
Context {W : Type} `{Backend W}.
Implicit Types (c : Client) (w : W).

Definition state_of (x : res search_error () * Client * W) : Client * W := (x.1.2, x.2).

Definition handle (r : request) (w : W) (c : Client) : Client * W :=
  match r with
  | RSetIndexPrefix p => (SetIndexPrefix p c, w)
  | RUpdateSearchConfig s => (UpdateSearchConfig s w c, w)
  | RSearch i q => ((Search i q w c).2, w)
  | RSearchWith e i q => ((SearchWith e i q w c).2, w)
  | RIndex i d => state_of (Index i d w c)
  | RIndexWith e i d => state_of (IndexWith e i d w c)
  | RBulkIndex i ds => state_of (BulkIndex i ds w c)
  | RBulkIndexWith e i ds => state_of (BulkIndexWith e i ds w c)
  | RDelete i d => state_of (Delete i d w c)
  | RBulkDelete i ds => state_of (BulkDelete i ds w c)
  end.

Lemma SearchWith_fields e i q w c : ∃ m, (SearchWith e i q w c).2 = collect m c.
Proof.
  unfold SearchWith. destruct (has_adapter c e); [destruct (query _ _ _ _); by eexists|]. exists []. unfold collect. rewrite app_nil_r. by destruct c.
Qed.



(** *** The engine in use *)

Definition choice (w : W) (config : option Config) (ads : list string) : option string :=
  List.find (λ e, bool_decide (e ∈ ads) && healthy e w)
    (match config with Some s => if String.eqb (DefaultEngine s) "" then [] else [DefaultEngine s] | None => [] end ++ priority ++ ads).

Lemma setEngine_choice w c :
  engine (setEngine w c) = default (engine c) (choice w (searchConfig c) (adapters c)).
Proof. unfold setEngine, choice, usable, has_adapter. by destruct (List.find _ _). Qed.

Definition changes_config (r : request) : bool := match r with RUpdateSearchConfig _ => true | _ => false end.

Lemma handle_engine r w c : engine c ≠ "" → changes_config r = false → engine (handle r w c).1 = engine c.
Proof.
  intros He Hr.
  assert (getAdapter w c = if has_adapter c (engine c) then (Ok (engine c), c) else (Err ErrEngineNotFound, c)) as Hg.
  { unfold getAdapter. by rewrite (proj2 (String.eqb_neq _ _) He), (proj2 (String.eqb_neq _ _) He). }
  assert (∀ name e i o w' c', engine (state_of (finish name e i o w' c')).1 = engine c') as Hf.
  { intros. unfold finish. by destruct (run _ _ _ _). }
  assert (∀ name e i o, engine (state_of (write_with name e i o w c)).1 = engine c) as Hw.
  { intros. unfold write_with. destruct (negb _); [done|]. destruct (shouldAutoCreateIndex c); [|apply Hf].
    assert (engine (ensureIndex e (buildIndexName c i) w c).1.2 = engine c) as Hn.
    { unfold ensureIndex. repeat case_match; done. }
    destruct (ensureIndex _ _ _ _) as [[[] c1] w1]; cbn in Hn; [|done]. etransitivity; [apply Hf|done]. }
  destruct r; try done; cbn [handle fst]; unfold Search, Index, BulkIndex, Delete, BulkDelete, with_adapter; rewrite ?Hg;
    try destruct (has_adapter c (engine c)); try done; try apply Hw; try apply Hf.
  - by destruct (SearchWith_fields (engine c) index q w c) as [m ->].
  - by destruct (SearchWith_fields e index q w c) as [m ->].
  - by destruct (SearchWith_fields e index q w c) as [m ->].
Qed.

(** [rs]: requests, each with the state of the engines it meets. *)
Fixpoint handle_all (rs : list (request * W)) (c : Client) : Client :=
  match rs with [] => c | (r, w) :: rs => handle_all rs (handle r w c).1 end.

(** A client uses the first healthy engine among the configured default, the
    priorities and all it has, and then that one for good: whatever is asked
    next and whichever engines fail or recover, only a new configuration
    changes it; there is no failover. *)
Theorem engine_never_fails_over config ads w e rs :
  choice w (Some (default default_config config)) ads = Some e → e ≠ "" →
  Forall (λ r, changes_config r.1 = false) rs →
  engine (handle_all rs (NewClientWithConfig config ads w)) = e.
Proof.
  intros Hc He Hrs. assert (engine (NewClientWithConfig config ads w) = e) as Hn.
  { unfold NewClientWithConfig. rewrite setEngine_choice. cbn [searchConfig adapters engine]. by rewrite Hc. }
  revert Hn. generalize (NewClientWithConfig config ads w). induction Hrs as [|[r w1] rs Hr _ IH]; intros c Hn; [done|].
  cbn [handle_all]. apply IH. rewrite handle_engine; [done|congruence|done].
Qed.

(** A write to an engine named by the caller is counted under the engine in
    use, a search under the one asked. *)
Theorem writes_credit_engine_in_use e index doc (q : nat) w c r c' w' :
  has_adapter c e = true → IndexWith e index doc w c = (r, c', w') → r = Ok tt ∨ r = Err EAdapter →
  collected c' = (collected c ++ SearchQuery (engine c) (negb (is_Ok r)) :: (if is_Ok r then [SearchIndex (engine c) "index"] else []))%list ∧
  ∃ failed, collected (SearchWith e index q w c).2 = (collected c ++ [SearchQuery e failed])%list.
Proof.
  intros Ha Hw Ho. split.
  - assert (∀ c1 w1 i, collected c1 = collected c → engine c1 = engine c → finish "index" e i (OpIndex doc) w1 c1 = (r, c', w') →
      collected c' = (collected c ++ SearchQuery (engine c) (negb (is_Ok r)) :: (if is_Ok r then [SearchIndex (engine c) "index"] else []))%list) as Hf.
    { intros c1 w1 i Hc He. unfold finish. destruct (run _ _ _ _) as [ok w2]. intros [= <- <- <-]. cbn. rewrite Hc, He. by destruct ok. }
    revert Hw. unfold IndexWith, write_with. rewrite Ha. cbn [negb]. destruct (shouldAutoCreateIndex c); [|by apply Hf].
    assert (collected (ensureIndex e (buildIndexName c index) w c).1.2 = collected c ∧ engine (ensureIndex e (buildIndexName c index) w c).1.2 = engine c) as [H1 H2].
    { unfold ensureIndex. repeat case_match; done. }
    destruct (ensureIndex _ _ _ _) as [[[] c1] w1]; cbn in H1, H2; [by apply Hf|]. intros [= <- <- <-]. by destruct Ho.
  - unfold SearchWith. rewrite Ha. destruct (query _ _ _ _); by eexists.
Qed.
End Runs.

(** ** What the cache says *)

Section History.
Context {W : Type} `{Backend W}.
Implicit Types (c : Client) (w : W) (h : list call).






(** Writes one after the other, each with the state of the engines it meets. *)
Fixpoint write_all (e index : string) (ws : list (operation * W)) (c : Client) (h : list call) : Client * list call :=
  match ws with
  | [] => (c, h)
  | (o, w) :: ws' => let '(_, c', x) := write_with "index" e index o (w, h) c in write_all e index ws' c' x.2
  end.

(** An index that is deleted is not made again.  Once a client has confirmed an
    index it never asks for it again under the same prefix: whatever the engines
    do in between, be it that another program deletes the index or that an
    asynchronous creation fails, all later writes are sent at once. *)
Theorem never_checked_again e index ws c h : sound c h → has_adapter c e = true → shouldAutoCreateIndex c = true →
  cacheKey e (buildIndexName c index) ∈ indexCache c →
  ∃ oks, length oks = length ws ∧
    (write_all e index ws c h).2 = (h ++ zip_with (λ x ok, Ran e (buildIndexName c index) x.1 ok) ws oks)%list.
Proof.
  revert c h. induction ws as [|[o w] ws IH]; intros c h Hs Ha Hauto Hin; [exists []; split; [done|]; cbn; by rewrite app_nil_r|]. cbn [write_all].
  pose proof (write_auto "index" e index o w h c Ha Hauto Hs) as Hx. destruct (write_with _ _ _ _ _ _) as [[r c'] x].
  destruct Hx as (calls & ok & Hp & Hh & Hok & Had & Hpre & Hcfg & Hs'). rewrite bool_decide_eq_true_2 in Hp by done.
  inversion Hp; subst ok calls. destruct Hok as (_ & _ & Hc). cbn [app] in Hh.
  destruct (IH c' x.2 Hs') as (oks & Hl & Ho).
  - unfold has_adapter. by rewrite Had.
  - unfold shouldAutoCreateIndex. by rewrite Hcfg.
  - unfold buildIndexName. rewrite Hpre, Hc. apply elem_of_union. by right.
  - exists (is_Ok r :: oks). split; [cbn; congruence|]. rewrite Ho, Hh, <- app_assoc. cbn. unfold buildIndexName. by rewrite Hpre.
Qed.

End History.

(** ** Engines in memory *)

Record Memory := mkMemory { up : list string; made : gset (string * string) }.

#[export] Instance memory_backend : Backend Memory := {
  healthy e w := bool_decide (e ∈ up w);
  query e i q w := if bool_decide ((e, i) ∈ made w) then Some q else None;
  index_exists e i w := (if bool_decide (e ∈ up w) then Some (bool_decide ((e, i) ∈ made w)) else None, w);
  create e i w := if bool_decide (e ∈ up w) then (true, mkMemory (up w) ({[(e, i)]} ∪ made w)) else (false, w);
  run e i o w := (bool_decide (e ∈ up w) && bool_decide ((e, i) ∈ made w), w) }.

Definition both_up : Memory := mkMemory ["elasticsearch"; "opensearch"] ∅.
Definition fresh_client : Client := NewClientWithPrefix "shop" ["elasticsearch"; "opensearch"] both_up.

Definition first_write : res search_error () * Client * (Memory * list call) :=
  write_with "index" "opensearch" "users" (OpIndex 7) (both_up, []) fresh_client.


Lemma never_checked_again_witness : ∃ oks, length oks = 2 ∧
  (write_all "opensearch" "users" [(OpIndex 8, both_up); (OpIndex 9, both_up)] first_write.1.2 first_write.2.2).2 =
    (first_write.2.2 ++ zip_with (λ x ok, Ran "opensearch" "shop-users" x.1 ok) [(OpIndex 8, both_up); (OpIndex 9, both_up)] oks)%list.
Proof.
  apply (never_checked_again "opensearch" "users" [(OpIndex 8, both_up); (OpIndex 9, both_up)] first_write.1.2 first_write.2.2).
  - split; [vm_compute; repeat constructor|]. intros k Hk. exists "opensearch", "shop-users".
    assert (k = "opensearch:shop-users") as ->. { assert (indexCache first_write.1.2 = {["opensearch:shop-users"]}) as E by (vm_compute; reflexivity). rewrite E in Hk. by apply elem_of_singleton in Hk. }
    split_and!; [reflexivity|reflexivity|]. right. vm_compute. right. left.
  - vm_compute. reflexivity.
  - vm_compute. reflexivity.
  - refine (bool_decide_eq_true_1 (_ ∈ _) _). vm_compute. reflexivity.
Defined.

Lemma engine_never_fails_over_witness :
  engine (handle_all [(RSearch "users" 1, mkMemory ["elasticsearch"; "opensearch"] ∅); (RIndex "users" 2, mkMemory ["opensearch"] ∅);
    (RSearch "users" 1, mkMemory ["opensearch"] ∅)] fresh_client) = "elasticsearch".
Proof.
  apply (engine_never_fails_over (Some (mkConfig "shop" "elasticsearch" true)) ["elasticsearch"; "opensearch"] both_up "elasticsearch");
    [by vm_compute|done|by repeat constructor].
Defined.

Lemma writes_credit_engine_in_use_witness :
  collected (IndexWith "opensearch" "users" 7 both_up fresh_client).1.2 = [SearchQuery "elasticsearch" false; SearchIndex "elasticsearch" "index"].
Proof.
  refine (proj1 (writes_credit_engine_in_use "opensearch" "users" 7 0 both_up fresh_client (Ok tt) _ _ _ _ _)); [by vm_compute|by vm_compute|by left].
Defined.

(** Two clients' indices are one. *)
Example prefixes_collide : buildIndexName (SetIndexPrefix "a" fresh_client) "b-c" = buildIndexName (SetIndexPrefix "a-b" fresh_client) "c".
Proof. reflexivity. Qed.
