(* ===== verification/Drivers.v ===== *)
(** * Drivers of the data layer

    Models src/data/driver.go and src/data/registry.go: the five tables in which
    driver packages register themselves when they are initialised, and the
    look-up of connections in them.  What a driver does beside its name is an
    argument [D]. *)

From stdpp Require Import base tactics option list gmap strings.
From S2P Require Import Prelude.

Open Scope string_scope.

Section Drivers.
Context {D : Type}.

(** A driver value: nil, or one with a name. *)
Definition driver : Type := option (string * D).

Record Registries := mkRegistries {
  databaseDrivers : gmap string D; cacheDrivers : gmap string D; searchDrivers : gmap string D;
  messageDrivers : gmap string D; storageDrivers : gmap string D }.

Definition no_drivers : Registries := mkRegistries ∅ ∅ ∅ ∅ ∅.

(** The body the five registrations share. *)
Definition register (d : driver) (m : gmap string D) : res () (gmap string D) :=
  match d with
  | None => Panic
  | Some (name, x) =>
      if String.eqb name "" then Panic
      else match m !! name with Some _ => Panic | None => Ok (<[name := x]> m) end
  end.

Definition RegisterDatabaseDriver (d : driver) (r : Registries) : res () Registries :=
  rbind (register d (databaseDrivers r)) (λ m, Ok (mkRegistries m (cacheDrivers r) (searchDrivers r) (messageDrivers r) (storageDrivers r))).
Definition RegisterCacheDriver (d : driver) (r : Registries) : res () Registries :=
  rbind (register d (cacheDrivers r)) (λ m, Ok (mkRegistries (databaseDrivers r) m (searchDrivers r) (messageDrivers r) (storageDrivers r))).
Definition RegisterSearchDriver (d : driver) (r : Registries) : res () Registries :=
  rbind (register d (searchDrivers r)) (λ m, Ok (mkRegistries (databaseDrivers r) (cacheDrivers r) m (messageDrivers r) (storageDrivers r))).
Definition RegisterMessageDriver (d : driver) (r : Registries) : res () Registries :=
  rbind (register d (messageDrivers r)) (λ m, Ok (mkRegistries (databaseDrivers r) (cacheDrivers r) (searchDrivers r) m (storageDrivers r))).
Definition RegisterStorageDriver (d : driver) (r : Registries) : res () Registries :=
  rbind (register d (storageDrivers r)) (λ m, Ok (mkRegistries (databaseDrivers r) (cacheDrivers r) (searchDrivers r) (messageDrivers r) m)).

(** The names in a table, in some order. *)
Definition names_of (m : gmap string D) : list string := (map_to_list m).*1.
Definition listDatabaseDriversLocked (r : Registries) : list string := names_of (databaseDrivers r).
Definition listCacheDriversLocked (r : Registries) : list string := names_of (cacheDrivers r).
Definition listSearchDriversLocked (r : Registries) : list string := names_of (searchDrivers r).
Definition listMessageDriversLocked (r : Registries) : list string := names_of (messageDrivers r).
Definition listStorageDriversLocked (r : Registries) : list string := names_of (storageDrivers r).

(** A look-up that fails names the driver and those there are. *)
Definition get (name : string) (m : gmap string D) (available : list string) : res (string * list string) D :=
  match m !! name with Some x => Ok x | None => Err (name, available) end.
Definition GetDatabaseDriver (name : string) (r : Registries) := get name (databaseDrivers r) (listDatabaseDriversLocked r).
Definition GetCacheDriver (name : string) (r : Registries) := get name (cacheDrivers r) (listCacheDriversLocked r).
Definition GetSearchDriver (name : string) (r : Registries) := get name (searchDrivers r) (listSearchDriversLocked r).
Definition GetMessageDriver (name : string) (r : Registries) := get name (messageDrivers r) (listMessageDriversLocked r).
Definition GetStorageDriver (name : string) (r : Registries) := get name (storageDrivers r) (listStorageDriversLocked r).

Definition ListRegisteredDrivers (r : Registries) : gmap string (list string) :=
  {["database" := listDatabaseDriversLocked r; "cache" := listCacheDriversLocked r; "search" := listSearchDriversLocked r;
    "message" := listMessageDriversLocked r; "storage" := listStorageDriversLocked r]}.

(** ** The initialisation of driver packages *)

Inductive kind := KDatabase | KCache | KSearch | KMessage | KStorage.

#[export] Instance kind_dec : EqDecision kind.
Proof. solve_decision. Defined.

Definition table (k : kind) (r : Registries) : gmap string D :=
  match k with
  | KDatabase => databaseDrivers r | KCache => cacheDrivers r | KSearch => searchDrivers r
  | KMessage => messageDrivers r | KStorage => storageDrivers r
  end.

Definition Register (k : kind) : driver → Registries → res () Registries :=
  match k with
  | KDatabase => RegisterDatabaseDriver | KCache => RegisterCacheDriver | KSearch => RegisterSearchDriver
  | KMessage => RegisterMessageDriver | KStorage => RegisterStorageDriver
  end.

Definition Get (k : kind) : string → Registries → res (string * list string) D :=
  match k with
  | KDatabase => GetDatabaseDriver | KCache => GetCacheDriver | KSearch => GetSearchDriver
  | KMessage => GetMessageDriver | KStorage => GetStorageDriver
  end.

(** The init functions of a program, in their order. *)
Fixpoint init_all (l : list (kind * driver)) (r : Registries) : res () Registries :=
  match l with [] => Ok r | (k, d) :: l' => rbind (Register k d r) (init_all l') end.

(** ** Facts *)

(** What one registration does. *)
Lemma Register_spec k d r :
  match Register k d r with
  | Ok r' => ∃ name x, d = Some (name, x) ∧ name ≠ "" ∧ table k r !! name = None ∧
      table k r' = <[name := x]> (table k r) ∧ ∀ k', k' ≠ k → table k' r' = table k' r
  | Panic => match d with None => True | Some (name, _) => name = "" ∨ is_Some (table k r !! name) end
  | _ => False
  end.
Proof.
  assert (∀ m, match register d m with
    | Ok m' => ∃ name x, d = Some (name, x) ∧ name ≠ "" ∧ m !! name = None ∧ m' = <[name := x]> m
    | Panic => match d with None => True | Some (name, _) => name = "" ∨ is_Some (m !! name) end
    | _ => False end) as Hr.
  { intros m. unfold register. destruct d as [[name x]|]; [|done]. destruct (String.eqb_spec name ""); [by left|].
    destruct (m !! name) eqn:Hm; [right; by eexists|by exists name, x]. }
  destruct k; cbn [Register table]; unfold RegisterDatabaseDriver, RegisterCacheDriver, RegisterSearchDriver, RegisterMessageDriver, RegisterStorageDriver;
    match goal with |- context [register d ?m] => specialize (Hr m); destruct (register d m) as [m'| | |] end; cbn [rbind]; try done;
    destruct Hr as (name & x & -> & ? & ? & ->); exists name, x; split_and!; try done; by intros [].
Qed.

Definition key (e : kind * driver) : option (kind * string) := match e.2 with Some (name, _) => Some (e.1, name) | None => None end.

(** A list of registrations that can be made: all have a name, no two the same. *)
Definition proper (l : list (kind * driver)) : Prop :=
  Forall (λ e, ∃ name x, e.2 = Some (name, x) ∧ name ≠ "") l ∧ NoDup (key <$> l).

Lemma init_all_spec l r :
  match init_all l r with
  | Ok r' => proper l ∧ (∀ k name x, (k, Some (name, x)) ∈ l → table k r !! name = None) ∧
      ∀ k name x, table k r' !! name = Some x ↔ table k r !! name = Some x ∨ (k, Some (name, x)) ∈ l
  | Panic => ¬ (proper l ∧ ∀ k name x, (k, Some (name, x)) ∈ l → table k r !! name = None)
  | _ => False
  end.
Proof.
  revert r. induction l as [|[k d] l IH]; intros r; cbn [init_all].
  { split_and!; [split; constructor|by intros ? ? ? ?%not_elem_of_nil|]. intros k name x. rewrite elem_of_nil. tauto. }
  pose proof (Register_spec k d r) as Hr. destruct (Register k d r) as [r1| | |]; cbn [rbind]; try done.
  - destruct Hr as (name & x & -> & Hne & Hnone & Ht & Hother). specialize (IH r1).
    assert (∀ k' n' y, table k' r1 !! n' = Some y ↔ table k' r !! n' = Some y ∨ (k', n', y) = (k, name, x)) as Ht1.
    { intros k' n' y. destruct (decide (k' = k)) as [->|Hk]; [|rewrite Hother by done; naive_solver].
      rewrite Ht, lookup_insert_Some. destruct (decide (name = n')) as [<-|]; naive_solver congruence. }
    destruct (init_all l r1) as [r'| | |]; try done.
    + destruct IH as ((Hp & Hnd) & Hfree & Hl).
      assert (∀ n' y, (k, Some (n', y)) ∈ l → n' ≠ name) as Hnew.
      { intros n' y Hin ->. specialize (Hfree k name y Hin). assert (table k r1 !! name = Some x) as Hx by (apply Ht1; by right). congruence. }
      split_and!; [split|..].
      * constructor; [by exists name, x|done].
      * cbn [fmap list_fmap]. apply list.NoDup_cons. split; [|done]. intros ([k' [[n' y]|]] & Hk & Hin)%list_elem_of_fmap; [|done].
        injection Hk as <- <-. by apply (Hnew name y).
      * intros k' n' y [[= -> -> ->]|Hin]%elem_of_cons; [done|]. specialize (Hfree _ _ _ Hin).
        destruct (table k' r !! n') as [z|] eqn:Hz; [|done]. assert (table k' r1 !! n' = Some z) by (apply Ht1; by left). congruence.
      * intros k' n' y. rewrite Hl, Ht1, elem_of_cons. naive_solver.
    + intros [[Hp Hnd] Hfree]. apply IH. inversion Hp as [|? ? _ Hp']; subst. cbn [fmap list_fmap] in Hnd. apply list.NoDup_cons in Hnd as [Hni Hnd].
      split; [done|]. intros k' n' y Hin. destruct (table k' r1 !! n') as [z|] eqn:Hz; [|done]. apply Ht1 in Hz as [Hz|[= -> -> ->]].
      * specialize (Hfree k' n' y). rewrite elem_of_cons in Hfree. rewrite Hfree in Hz by tauto. done.
      * destruct Hni. apply list_elem_of_fmap. by exists (k, Some (name, y)).
  - intros [[Hp _] Hfree]. inversion Hp as [|? ? (name & x & Hd & Hne) _]; subst. cbn in Hd. subst d. destruct Hr as [->|[y Hy]]; [done|].
    specialize (Hfree k name x). rewrite Hfree in Hy by (by left). done.
Qed.

(** Registering and looking up.  The init functions of a program's driver
    packages run to the end exactly when no driver is nil or without a name and
    no two of one kind share a name; otherwise one panics.  Afterwards a look-up
    in a table gives the driver registered there under that name, or an error
    with the names of all drivers of that kind. *)
Theorem drivers_found (l : list (kind * driver)) :
  match init_all l no_drivers with
  | Ok r => proper l ∧ ∀ k name,
      match Get k name r with
      | Ok x => (k, Some (name, x)) ∈ l
      | Err (n, available) => n = name ∧ (∀ x, (k, Some (name, x)) ∉ l) ∧ ∀ n', n' ∈ available ↔ ∃ x, (k, Some (n', x)) ∈ l
      | _ => False
      end
  | Panic => ¬ proper l
  | _ => False
  end.
Proof.
  pose proof (init_all_spec l no_drivers) as H. assert (∀ k name, table k no_drivers !! name = None) as He by (intros [] ?; done).
  destruct (init_all l no_drivers) as [r| | |]; try done.
  - destruct H as (Hp & _ & Hl). split; [done|]. intros k name.
    assert (Get k name r = get name (table k r) (names_of (table k r))) as -> by (by destruct k). unfold get.
    assert (∀ n' y, table k r !! n' = Some y ↔ (k, Some (n', y)) ∈ l) as Hl' by (intros; rewrite Hl, He; naive_solver).
    destruct (table k r !! name) as [x|] eqn:Hx; [by apply Hl'|]. split_and!; [done|intros x Hin; apply Hl' in Hin; congruence|].
    intros n'. unfold names_of. rewrite list_elem_of_fmap. split.
    + intros ([n y] & -> & Hy). exists y. apply Hl'. by apply elem_of_map_to_list.
    + intros [y Hy]. exists (n', y). split; [done|]. apply elem_of_map_to_list. by apply Hl'.
  - intros Hp. by apply H.
Qed.

(** The order does not matter.  In whatever order the init functions run,
    they panic or not alike, and leave the same tables. *)
Theorem init_order_irrelevant (l l' : list (kind * driver)) (k : kind) (name : string) :
  l ≡ₚ l' →
  match init_all l no_drivers, init_all l' no_drivers with
  | Ok r, Ok r' => table k r = table k r'
  | Panic, Panic => True
  | _, _ => False
  end.
Proof.
  intros Hp. pose proof (init_all_spec l no_drivers) as H. pose proof (init_all_spec l' no_drivers) as H'.
  assert (proper l ↔ proper l') as Hpr by (unfold proper; by rewrite Hp).
  assert (∀ k name, table k no_drivers !! name = None) as He by (intros [] ?; done).
  destruct (init_all l _) as [r| | |], (init_all l' _) as [r'| | |]; try done.
  - destruct H as (_ & _ & H), H' as (_ & _ & H'). apply map_eq. intros n. apply option_eq. intros x. by rewrite H, H', Hp.
  - destruct H'. split; [by apply Hpr, H|by intros; apply He].
  - destruct H. split; [by apply Hpr, H'|by intros; apply He].
Qed.
End Drivers.

Arguments Registries D : clear implicits.

Definition program : list (kind * driver) := [(KCache, Some ("redis", 1)); (KDatabase, Some ("postgres", 2)); (KMessage, Some ("kafka", 3))].

Lemma init_order_irrelevant_witness :
  match init_all program no_drivers, init_all (rev program) no_drivers with Ok r, Ok r' => table KCache r = table KCache r' | Panic, Panic => True | _, _ => False end.
Proof. apply (init_order_irrelevant program (rev program) KCache ""). apply Permutation_rev. Defined.
