(* ===== verification/DataLayer.v ===== *)
(** * Connections, transactions and health of the data layer

    Models src/data/connection/connection.go with the functions beside it that
    find a driver, src/data/factory.go, lifecycle.go, access.go, transaction.go,
    mongo.go and health.go.  A connection is an object: a number and the methods its dynamic
    type has, since closing, pinging and health go by type assertion.  What the
    calls of an object answer is an argument. *)

From stdpp Require Import base tactics option list gmap strings.
From Stdlib Require Import ZArith Lia.
From S2P Require Import Prelude Replicas Drivers.

Open Scope string_scope.

(** ** Objects *)

(** The interfaces asserted; [MPing] is Ping with an error as result, [MPingCmd]
    with a value that has Err; [MGetDatabase] and [MGetCollection] have [any] as result. *)
Inductive method := MPing | MPingCmd | MClose | MCloseCtx | MIsClosed | MController | MIsConnected | MHealth | MGetDatabase | MGetCollection | MWithTransaction.

#[export] Instance method_dec : EqDecision method.
Proof. solve_decision. Defined.

(** [is_db]: the dynamic type is [*sql.DB]. *)
Record object := mkObject { handle : nat; is_db : bool; methods : list method }.

Definition has (o : object) (m : method) : bool := bool_decide (m ∈ methods o).

(** What calls answer now. *)
Record Env := mkEnv {
  ping_ok : nat → bool; close_ok : nat → bool; gone : nat → bool; controller_ok : nat → bool;
  connected : nat → bool; health_ok : nat → bool }.

(** The types that the drivers of the repository return: the Redis client of
    go-redis has a Ping whose result is a command with more than Err, RabbitMQ
    and Kafka are the types of src/data, and MongoManager is that of
    src/data/mongodb, whose GetDatabase has another result. *)
Definition redis_methods : list method := [MClose].
Definition rabbitmq_methods : list method := [MIsConnected; MClose].
Definition kafka_methods : list method := [MIsConnected; MClose].
Definition mongo_methods : list method := [MHealth; MCloseCtx; MWithTransaction].
Definition neo4j_methods : list method := [MCloseCtx].

(** ** Configuration *)

Record Service := mkService { address : string; s_rest : nat }.
Record Cluster := mkCluster { addresses : list string; c_rest : nat }.
Record Mongo := mkMongo { mongo_Master : option string; m_rest : nat }.

Record Config := mkConfig {
  conf_Database : option Database; conf_Redis : option Service; conf_Meilisearch : option Service;
  conf_Elasticsearch : option Cluster; conf_OpenSearch : option Cluster; conf_MongoDB : option Mongo; conf_Neo4j : option Service;
  messaging_enabled : bool; conf_RabbitMQ : option Service; conf_Kafka : option Cluster }.

Inductive settings := CfgNode (n : DBNode) | CfgService (s : Service) | CfgCluster (c : Cluster) | CfgMongo (m : Mongo).

(** A driver: its [Connect]. *)
Definition connector : Type := settings → option object.
Definition registry : Type := option (Registries connector).

(** ** Connecting *)

Inductive conn_error := ENoRegistry | ENoDriver (name : string) | EConnecting (name : string) | EDB (e : db_error).

(** The functions that connect also say which handles they open, in order. *)
Definition M (A : Type) : Type := res conn_error A * list nat.
Definition mbind_ {A B} (m : M A) (k : A → M B) : M B :=
  match m with (Ok a, l) => let (r, l') := k a in (r, l ++ l')%list | (Err e, l) => (Err e, l) | (Panic, l) => (Panic, l) | (NoFuel, l) => (NoFuel, l) end.
Definition mret_ {A} (a : A) : M A := (Ok a, []).

(** The body that the functions for one service share. *)
Definition connect_with (get : Registries connector → res (string * list string) connector) (name : string) (s : settings) (r : registry) : M object :=
  match r with
  | None => (Err ENoRegistry, [])
  | Some r =>
      match get r with
      | Ok connect => match connect s with Some o => (Ok o, [handle o]) | None => (Err (EConnecting name), []) end
      | _ => (Err (ENoDriver name), [])
      end
  end.

Definition newRedisClient (c : Service) : registry → M object := connect_with (GetCacheDriver "redis") "redis" (CfgService c).
Definition newMeilisearchClient (c : Service) : registry → M object := connect_with (GetSearchDriver "meilisearch") "meilisearch" (CfgService c).
Definition newElasticsearchClient (c : Cluster) : registry → M object := connect_with (GetSearchDriver "elasticsearch") "elasticsearch" (CfgCluster c).
Definition newOpenSearchClient (c : Cluster) : registry → M object := connect_with (GetSearchDriver "opensearch") "opensearch" (CfgCluster c).
Definition newNeo4jClient (c : Service) : registry → M object := connect_with (GetDatabaseDriver "neo4j") "neo4j" (CfgService c).
Definition newRabbitMQConnection (c : Service) : registry → M object := connect_with (GetMessageDriver "rabbitmq") "rabbitmq" (CfgService c).
Definition newKafkaConnection (c : Cluster) : registry → M object := connect_with (GetMessageDriver "kafka") "kafka" (CfgCluster c).
Definition newMongo (c : Mongo) : registry → M object := connect_with (GetDatabaseDriver "mongodb") "mongodb" (CfgMongo c).

(** [newDBClient]: the connection, and what it opened. *)
Definition newDBClient (r : registry) (n : DBNode) : option nat * list nat :=
  match connect_with (GetDatabaseDriver (Driver n)) (Driver n) (CfgNode n) r with
  | (Ok o, l) => ((if is_db o then Some (handle o) else None), l)
  | (_, l) => (None, l)
  end.

(** [NewDBManager] of [Replicas], with what it opens. *)
Definition new_db_manager (r : registry) (conf : Database) : M DBManager :=
  (match NewDBManager (λ n, (newDBClient r n).1) conf with Ok dm => Ok dm | Err e => Err (EDB e) | Panic => Panic | NoFuel => NoFuel end,
   match Master conf with
   | None => []
   | Some m => ((newDBClient r m).2 ++ if (newDBClient r m).1 is Some _ then concat ((λ n, (newDBClient r n).2) <$> Slaves conf) else [])%list
   end).

Record Connections := mkConnections {
  DBM : option DBManager; RC : option object; MS : option object; ES : option object; OS : option object;
  MGM : option object; Neo : option object; RMQ : option object; KFK : option object; conn_closed : bool }.

(** A part of the configuration that is absent is skipped. *)
Definition part {A B} (c : option A) (wanted : A → bool) (connect : A → M B) : M (option B) :=
  match c with Some x => if wanted x then mbind_ (connect x) (λ o, mret_ (Some o)) else mret_ None | None => mret_ None end.

(** A part that may fail. *)
Definition optional {B} (m : M (option B)) : M (option B) :=
  match m with (Err _, l) => (Ok None, l) | m => m end.

Definition has_address (s : Service) : bool := negb (String.eqb (address s) "").
Definition has_addresses (c : Cluster) : bool := match addresses c with [] => false | _ => true end.
Definition has_source (d : Database) : bool := match Master d with Some m => negb (String.eqb (Source m) "") | None => false end.

(** The master of MongoDB is not tested for nil. *)
Definition mongo_part (c : option Mongo) (r : registry) : M (option object) :=
  match c with
  | None => mret_ None
  | Some m =>
      match mongo_Master m with
      | None => (Panic, [])
      | Some uri => if String.eqb uri "" then mret_ None else mbind_ (newMongo m r) (λ o, mret_ (Some o))
      end
  end.

(** [connection.New]. *)
Definition NewConnections (conf : Config) (r : registry) : M Connections :=
  mbind_ (part (conf_Database conf) has_source (new_db_manager r)) (λ dbm,
  mbind_ (part (conf_Redis conf) has_address (λ c, newRedisClient c r)) (λ rc,
  mbind_ (part (conf_Meilisearch conf) has_address (λ c, newMeilisearchClient c r)) (λ ms,
  mbind_ (part (conf_Elasticsearch conf) has_addresses (λ c, newElasticsearchClient c r)) (λ es,
  mbind_ (part (conf_OpenSearch conf) has_addresses (λ c, newOpenSearchClient c r)) (λ os,
  mbind_ (mongo_part (conf_MongoDB conf) r) (λ mgm,
  mbind_ (part (conf_Neo4j conf) has_address (λ c, newNeo4jClient c r)) (λ neo,
  mbind_ (if messaging_enabled conf then optional (part (conf_RabbitMQ conf) has_address (λ c, newRabbitMQConnection c r)) else mret_ None) (λ rmq,
  mbind_ (if messaging_enabled conf then optional (part (conf_Kafka conf) has_addresses (λ c, newKafkaConnection c r)) else mret_ None) (λ kfk,
  mret_ (mkConnections dbm rc ms es os mgm neo rmq kfk false)))))))))).

(** ** Closing *)

Inductive close_error := ERedisClose | EDatabaseClose | EMongoClose | ENeo4jClose | ERabbitMQClose | EKafkaClose.

Definition pingRedis (env : Env) (o : object) : bool := (has o MPing || has o MPingCmd) && ping_ok env (handle o).
Definition pingKafka (env : Env) (o : object) : bool := has o MController && controller_ok env (handle o).

(** One service: closed if [guard] lets it; the handles closed and the errors. *)
Definition close_part (env : Env) (o : option object) (guard : object → bool) (e : close_error) : list nat * list close_error :=
  match o with
  | Some o => if guard o then ([handle o], if close_ok env (handle o) then [] else [e]) else ([], [])
  | None => ([], [])
  end.

Definition close_db (env : Env) (d : option DBManager) : list nat * list close_error :=
  match d with
  | Some dm => let (l, r) := Replicas.Close (close_ok env) dm in (l, if is_Ok r then [] else [EDatabaseClose])
  | None => ([], [])
  end.

Definition no_connections : Connections := mkConnections None None None None None None None None None true.

(** [Connections.Close]: what it closes, the errors, and the state after. *)
Definition CloseConnections (env : Env) (c : Connections) : list nat * list close_error * Connections :=
  if conn_closed c then ([], [], c)
  else
    let parts := [close_part env (RC c) (λ o, pingRedis env o && has o MClose) ERedisClose;
      close_db env (DBM c);
      close_part env (MGM c) (λ o, has o MCloseCtx) EMongoClose;
      close_part env (Neo c) (λ o, has o MCloseCtx) ENeo4jClose;
      close_part env (RMQ c) (λ o, has o MIsClosed && has o MClose && negb (gone env (handle o))) ERabbitMQClose;
      close_part env (KFK c) (λ o, pingKafka env o && has o MClose) EKafkaClose] in
    (concat parts.*1, concat parts.*2, no_connections).

(** ** The data layer *)

(** What is told to the collector of metrics. *)
Inductive metric :=
  | DBQuery (ok : bool) | DBTransaction (ok : bool) | MongoOperation (operation : string) (ok : bool)
  | RedisCommand (command : string) (ok : bool) | HealthCheck (component : string) (healthy : bool).

Record Data := mkData { Conn : option Connections; closed : bool }.

Definition with_conn (c : option Connections) (d : Data) : Data := mkData c (closed d).
Definition with_dbm (dm : option DBManager) (c : Connections) : Connections :=
  mkConnections dm (RC c) (MS c) (ES c) (OS c) (MGM c) (Neo c) (RMQ c) (KFK c) (conn_closed c).

(** The connections, unless the layer is closed. *)
Definition open_conn (d : Data) : option Connections := if closed d then None else Conn d.

Definition GetDBManager (d : Data) : option DBManager := c ← open_conn d; DBM c.
Definition GetMasterDB (d : Data) : option nat := dm ← GetDBManager d; Some (master dm).
Definition GetRedis (d : Data) : option object := c ← open_conn d; RC c.
Definition GetMongoManager (d : Data) : option object := c ← open_conn d; MGM c.
Definition GetElasticsearch (d : Data) : option object := c ← open_conn d; ES c.
Definition GetOpenSearch (d : Data) : option object := c ← open_conn d; OS c.
Definition GetMeilisearch (d : Data) : option object := c ← open_conn d; MS c.

Inductive data_error := EClosed | ENoConnection | ENoManager | EReplica (e : db_error) | EBegin | EFn (e : nat) | ERollback (e : nat) | ECommit | ENoMongo | EMongo.

(** [GetSlaveDB]: the balancer moves on. *)
Definition GetSlaveDB (ping : nat → nat → bool) (rnd : nat → Z) (d : Data) : res data_error nat * Data :=
  if closed d then (Err EClosed, d)
  else match Conn d with
    | None => (Err ENoConnection, d)
    | Some c =>
        match DBM c with
        | None => (Err ENoManager, d)
        | Some dm => let (r, dm') := Slave ping rnd dm in (rmap_err EReplica r, with_conn (Some (with_dbm (Some dm') c)) d)
        end
    end.

(** [Data.Close]: what it closes, the errors and the state after. *)
Definition Close (env : Env) (d : Data) : list nat * list close_error * Data :=
  if closed d then ([], [], d)
  else match Conn d with
    | Some c => let '(l, es, _) := CloseConnections env c in (l, es, mkData None true)
    | None => ([], [], mkData None true)
    end.

(** The instances made, and which of them is shared. *)
Record Global := mkGlobal { instances : list Data; sharedInstance : option nat }.

(** [New]: the instance it returns; what [connect] opens is in [NewConnections]. *)
Definition New (connect : res conn_error Connections) (createNew : bool) (g : Global) : res conn_error nat * Global :=
  match (if createNew then None else sharedInstance g) with
  | Some i => (Ok i, g)
  | None =>
      match connect with
      | Ok c =>
          let i := length (instances g) in
          (Ok i, mkGlobal (instances g ++ [mkData (Some c) false])%list (if createNew then sharedInstance g else Some i))
      | Err e => (Err e, g)
      | Panic => (Panic, g)
      | NoFuel => (NoFuel, g)
      end
  end.

(** The clean-up function [New] returns. *)
Definition cleanup (env : Env) (i : nat) (g : Global) : Global :=
  mkGlobal (alter (λ d, (Close env d).2) i (instances g)) (sharedInstance g).

(** ** Transactions *)

(** [Use]: a statement of a caller, in the transaction it got. *)
Inductive db_event := Begin (db tx : nat) (readOnly : bool) | Commit (tx : nat) | Rollback (tx : nat) | Use (tx : option nat).

(** The value of the transaction key in a context. *)
Definition context : Type := option nat.
Definition GetTx (ctx : context) : option nat := ctx.

(** How a function ends: an error, if any, or a panic. *)
Inductive outcome := Done (e : option nat) | Panicked.

(** What a database does: whether the next transaction can begin, and whether
    committing and rolling back one succeeds.  Transactions are numbered by a
    counter that the functions pass on. *)
Record Database_ := mkDB_ { begin_ok : nat → bool; commit_ok : nat → bool; rollback_ok : nat → bool }.

(** A function that is run in a context, from a counter on. *)
Definition body : Type := context → nat → outcome * nat * list db_event.

(** The part of [WithTx] and [WithTxRead] after the connection is found. *)
Definition run_tx (db : Database_) (conn : nat) (readOnly : bool) (fn : body) (n : nat) : res data_error () * nat * list db_event * list metric :=
  if negb (begin_ok db n) then (Err EBegin, n, [], [DBQuery false; DBTransaction false])
  else
    let '(o, n', evs) := fn (Some n) (S n) in
    let evs := Begin conn n readOnly :: evs in
    match o with
    | Panicked => (Panic, n', evs, [])
    | Done (Some e) =>
        if rollback_ok db n then (Err (EFn e), n', evs ++ [Rollback n], [DBQuery false; DBTransaction false])%list
        else (Err (ERollback e), n', evs ++ [Rollback n], [DBQuery false; DBTransaction false])%list
    | Done None =>
        let ok := commit_ok db n in
        ((if ok then Ok tt else Err ECommit), n', evs ++ [Commit n], [DBQuery ok; DBTransaction ok])%list
    end.

Definition WithTx (db : Database_) (d : Data) (fn : body) (n : nat) : res data_error () * nat * list db_event * list metric :=
  if closed d then (Err EClosed, n, [], [DBTransaction false])
  else match GetMasterDB d with
    | None => (Err ENoConnection, n, [], [DBTransaction false])
    | Some conn => run_tx db conn false fn n
    end.

Definition WithTxRead (db : Database_) (slave : res data_error nat) (d : Data) (fn : body) (n : nat) : res data_error () * nat * list db_event * list metric :=
  if closed d then (Err EClosed, n, [], [DBTransaction false])
  else match slave with
    | Ok conn => run_tx db conn true fn n
    | Err e => (Err e, n, [], [DBTransaction false])
    | Panic => (Panic, n, [], [])
    | NoFuel => (NoFuel, n, [], [])
    end.

(** ** MongoDB *)

(** The calls through the manager that assert [m]; [ok] is how the call ends. *)
Definition with_mongo (d : Data) (m : method) (failed : metric) (done : bool → list metric) (ok : nat → bool) : res data_error () * list metric :=
  match GetMongoManager d with
  | Some o => if has o m then let r := ok (handle o) in ((if r then Ok tt else Err EMongo), done r) else (Err ENoMongo, [failed])
  | None => (Err ENoMongo, [failed])
  end.
Definition slow_if (slow : bool) (name : string) : list metric := if slow then [MongoOperation name false] else [].
Definition GetMongoDatabase (slow : bool) (ok : nat → bool) (d : Data) : res data_error () * list metric :=
  with_mongo d MGetDatabase (MongoOperation "get_database" false) (λ r, MongoOperation "get_database" r :: slow_if slow "slow_get_database") ok.
Definition GetMongoCollection (slow : bool) (ok : nat → bool) (d : Data) : res data_error () * list metric :=
  with_mongo d MGetCollection (MongoOperation "get_collection" false) (λ r, MongoOperation "get_collection" r :: slow_if slow "slow_get_collection") ok.
Definition WithMongoTransaction (slow : bool) (ok : nat → bool) (d : Data) : res data_error () * list metric :=
  with_mongo d MWithTransaction (MongoOperation "transaction" false) (λ r, MongoOperation "transaction" r :: slow_if slow "slow_transaction") ok.
Definition MongoHealthCheck (slow : bool) (ok : nat → bool) (d : Data) : res data_error () * list metric :=
  with_mongo d MHealth (HealthCheck "mongodb" false)
    (λ r, HealthCheck "mongodb" r :: MongoOperation "health_check" r :: slow_if slow "slow_health_check") ok.

(** ** Health *)

(** Each check: whether it is well, the entries of its services, the metrics. *)
Definition check : Type := bool * list (string * bool) * list metric.
Definition fine : check := (true, [], []).

(** The check of the database may drop replicas. *)
Definition checkDatabaseHealth (env : Env) (d : Data) : check * Data :=
  match Conn d with
  | Some c =>
      match DBM c with
      | Some dm =>
          let (r, dm') := Replicas.Health (ping_ok env) dm in
          let ok := is_Ok r in
          ((ok, [("database", ok)], [DBQuery ok; HealthCheck "database" ok]), with_conn (Some (with_dbm (Some dm') c)) d)
      | None => (fine, d)
      end
  | None => (fine, d)
  end.

Definition checkRedisHealth (d : Data) : check :=
  match Conn d ≫= RC with
  | Some _ => (false, [("redis", false)], [RedisCommand "ping" false; HealthCheck "redis" false])
  | None => fine
  end.

Definition checkMongoHealth (env : Env) (d : Data) : check :=
  match Conn d ≫= MGM with
  | Some o =>
      let ok := has o MHealth && health_ok env (handle o) in
      (ok, [("mongodb", ok)], [MongoOperation "health_check" ok; HealthCheck "mongodb" ok])
  | None => fine
  end.

Definition broker_health (env : Env) (name : string) (o : option object) : check :=
  match o with
  | Some o => let ok := has o MIsConnected && connected env (handle o) in (ok, [(name, ok)], [HealthCheck name ok])
  | None => fine
  end.

Definition and_check (a b : check) : check :=
  let '(ok, s, m) := a in let '(ok', s', m') := b in (ok && ok', s ++ s', m ++ m')%list.

Definition checkMessagingHealth (env : Env) (d : Data) : check :=
  and_check (broker_health env "rabbitmq" (Conn d ≫= RMQ)) (broker_health env "kafka" (Conn d ≫= KFK)).

Definition checkSearchHealth (d : Data) : check :=
  match Conn d with
  | Some c =>
      match ES c, OS c, MS c with
      | None, None, None => fine
      | _, _, _ => (false, [("search", false)], [HealthCheck "search" false])
      end
  | None => fine
  end.

(** [Health]: whether the status is "healthy" rather than "degraded", the
    services and the metrics. *)
Definition Health (env : Env) (d : Data) : check * Data :=
  let (db, d) := checkDatabaseHealth env d in
  (and_check db (and_check (checkRedisHealth d) (and_check (checkMongoHealth env d) (and_check (checkMessagingHealth env d) (checkSearchHealth d)))), d).

(** [Ping] *)
Definition Ping (env : Env) (d : Data) : res data_error () * Data * list metric :=
  let '(r, d) :=
    if closed d then (Err EClosed, d)
    else match Conn d with
      | None => (Err ENoConnection, d)
      | Some c =>
          match DBM c with
          | None => (Ok tt, d)
          | Some dm => let (r, dm') := Replicas.Health (ping_ok env) dm in (rmap_err EReplica r, with_conn (Some (with_dbm (Some dm') c)) d)
          end
      end in
  (r, d, [DBQuery (is_Ok r); HealthCheck "database" (is_Ok r)]).

(** [IsReadOnlyMode] *)
Definition IsReadOnlyMode (env : Env) (d : Data) : bool :=
  match GetDBManager d with Some dm => negb (ping_ok env (master dm)) | None => false end.

(** ** Facts *)

(** *** Connecting *)

(** What parts that are connected one after the other open: all up to the first that fails. *)
Fixpoint opened (parts : list (bool * list nat)) : list nat :=
  match parts with [] => [] | (ok, l) :: parts => (l ++ if ok then opened parts else [])%list end.

Definition result {A} (m : M A) : bool * list nat := (is_Ok m.1, m.2).

(** The parts of [New], in order; the brokers fail no call. *)
Definition parts (conf : Config) (r : registry) : list (bool * list nat) :=
  [result (part (conf_Database conf) has_source (new_db_manager r));
   result (part (conf_Redis conf) has_address (λ c, newRedisClient c r));
   result (part (conf_Meilisearch conf) has_address (λ c, newMeilisearchClient c r));
   result (part (conf_Elasticsearch conf) has_addresses (λ c, newElasticsearchClient c r));
   result (part (conf_OpenSearch conf) has_addresses (λ c, newOpenSearchClient c r));
   result (mongo_part (conf_MongoDB conf) r);
   result (part (conf_Neo4j conf) has_address (λ c, newNeo4jClient c r));
   (true, if messaging_enabled conf then (part (conf_RabbitMQ conf) has_address (λ c, newRabbitMQConnection c r)).2 else []);
   (true, if messaging_enabled conf then (part (conf_Kafka conf) has_addresses (λ c, newKafkaConnection c r)).2 else [])].

Lemma mbind_result {A B} (m : M A) (k : A → M B) (ps : list (bool * list nat)) :
  (∀ a, m.1 = Ok a → is_Ok (k a).1 = forallb fst ps ∧ (k a).2 = opened ps) →
  is_Ok (mbind_ m k).1 = forallb fst (result m :: ps) ∧ (mbind_ m k).2 = opened (result m :: ps).
Proof.
  intros H. destruct m as [[a|e| |] l]; unfold mbind_, result; cbn [is_Ok fst snd opened forallb]; rewrite ?app_nil_r; try done.
  specialize (H a eq_refl). destruct (k a) as [x l']. cbn in *. destruct H as [-> ->]. done.
Qed.

Lemma connect_with_cases get name s r : match (connect_with get name s r).1 with Ok _ | Err _ => True | _ => False end.
Proof. unfold connect_with. repeat case_match; done. Qed.

Lemma broker_result {A} (b : bool) (c : option A) wanted (connect : A → M object) :
  (∀ x, match (connect x).1 with Ok _ | Err _ => True | _ => False end) →
  result (if b then optional (part c wanted connect) else mret_ None) = (true, if b then (part c wanted connect).2 else []).
Proof.
  intros H. destruct b; [|done]. destruct c as [x|]; [|done]. unfold part. destruct (wanted x); [|done]. specialize (H x).
  destruct (connect x) as [[o|e| |] l]; cbn in *; unfold result; cbn; rewrite ?app_nil_r; done.
Qed.

(** What connecting opens.  [New] succeeds exactly when every configured
    part but the brokers connects, and what it has opened are the connections of
    all parts up to the first that fails: when one fails the earlier ones are
    open, and, as nothing of them is returned, stay so. *)
Theorem connecting_opens (conf : Config) (r : registry) :
  is_Ok (NewConnections conf r).1 = forallb fst (parts conf r) ∧ (NewConnections conf r).2 = opened (parts conf r).
Proof.
  unfold NewConnections, parts. do 7 (apply mbind_result; intros ? _).
  rewrite <- (broker_result _ (conf_RabbitMQ conf)) by (intros; apply connect_with_cases).
  rewrite <- (broker_result _ (conf_Kafka conf)) by (intros; apply connect_with_cases).
  do 2 (apply mbind_result; intros ? _). done.
Qed.

(** *** Closing *)

Definition db_handles (c : Connections) : list nat :=
  match DBM c with Some dm => master dm :: filter (λ s, s ≠ master dm) (slaves dm) | None => [] end.
Definition handle_of (o : option object) : list nat := match o with Some o => [handle o] | None => [] end.

(** The services are of the types the drivers return. *)
Record driver_types (c : Connections) : Prop := {
  rc_type : ∀ o, RC c = Some o → methods o = redis_methods;
  rmq_type : ∀ o, RMQ c = Some o → methods o = rabbitmq_methods;
  kfk_type : ∀ o, KFK c = Some o → methods o = kafka_methods;
  mgm_type : ∀ o, MGM c = Some o → methods o = mongo_methods;
  neo_type : ∀ o, Neo c = Some o → methods o = neo4j_methods }.

Lemma close_part_never env o guard e : (∀ x, o = Some x → guard x = false) → close_part env o guard e = ([], []).
Proof. intros H. destruct o as [o|]; [|done]. unfold close_part. by rewrite (H o eq_refl). Qed.

Lemma close_part_always env o guard e : (∀ x, o = Some x → guard x = true) → (close_part env o guard e).1 = handle_of o.
Proof. intros H. destruct o as [o|]; [|done]. unfold close_part. by rewrite (H o eq_refl). Qed.

Lemma CloseConnections_types env c : conn_closed c = false → driver_types c →
  (CloseConnections env c).1.1 = (db_handles c ++ handle_of (MGM c) ++ handle_of (Neo c))%list.
Proof.
  intros Hc Ht. unfold CloseConnections. rewrite Hc. cbn [fmap list_fmap fst concat].
  rewrite (close_part_never env (RC c)) by (intros o Ho; unfold pingRedis, has; by rewrite (rc_type c Ht o Ho)).
  rewrite (close_part_never env (RMQ c)) by (intros o Ho; unfold has; by rewrite (rmq_type c Ht o Ho)).
  rewrite (close_part_never env (KFK c)) by (intros o Ho; unfold pingKafka, has; by rewrite (kfk_type c Ht o Ho)).
  rewrite (close_part_always env (MGM c)) by (intros o Ho; unfold has; by rewrite (mgm_type c Ht o Ho)).
  rewrite (close_part_always env (Neo c)) by (intros o Ho; unfold has; by rewrite (neo_type c Ht o Ho)).
  unfold close_db, db_handles, Replicas.Close. destruct (DBM c) as [dm|]; cbn [fst app]; rewrite ?app_nil_r; done.
Qed.

(** All that a sequence of calls of [Close] closes. *)
Fixpoint close_all (envs : list Env) (d : Data) : list nat :=
  match envs with [] => [] | env :: envs => let '(l, _, d') := Close env d in (l ++ close_all envs d')%list end.

Lemma close_all_closed envs c : close_all envs (mkData c true) = [].
Proof. induction envs as [|env envs IH]; [done|]. exact IH. Qed.

(** C24: What closing closes.  With the types that the drivers of the repository
    return, any number of calls of [Close] closes each database, MongoDB and
    Neo4j once, and the connections to Redis, RabbitMQ and Kafka never, whatever
    they answer: Redis' Ping is not one of the two asserted, the type for
    RabbitMQ has no IsClosed and that for Kafka no Controller. *)
Theorem brokers_never_closed (c : Connections) (env : Env) (envs : list Env) :
  conn_closed c = false → driver_types c →
  close_all (env :: envs) (mkData (Some c) false) = (db_handles c ++ handle_of (MGM c) ++ handle_of (Neo c))%list.
Proof.
  intros Hc Ht. cbn [close_all]. unfold Close. cbn [closed Conn]. pose proof (CloseConnections_types env c Hc Ht) as Hl.
  destruct (CloseConnections env c) as [[l es] c']. cbn in Hl. by rewrite close_all_closed, app_nil_r.
Qed.

(** A shared instance stays closed.  After the clean-up function of the shared
    instance has run, every later [New] without its own instance returns it,
    whatever the configuration: it has no connection and refuses transactions. *)
Theorem shared_instance_stays_closed (env : Env) (i : nat) (g : Global) (later : list (res conn_error Connections * bool)) :
  sharedInstance g = Some i → i < length (instances g) →
  let g' := foldl (λ g x, (New x.1 x.2 g).2) (cleanup env i g) later in
  ∀ connect, ∃ d, New connect false g' = (Ok i, g') ∧ instances g' !! i = Some d ∧ GetMasterDB d = None ∧ GetRedis d = None ∧
    ∀ db fn n, WithTx db d fn n = (Err EClosed, n, [], [DBTransaction false]).
Proof.
  intros Hs Hi g'. assert (sharedInstance g' = Some i ∧ ∃ d, instances g' !! i = Some d ∧ closed d = true) as (Hs' & d & Hd & Hcl).
  { unfold g'. clear g'. assert (sharedInstance (cleanup env i g) = Some i ∧ ∃ d, instances (cleanup env i g) !! i = Some d ∧ closed d = true) as H.
    { destruct (lookup_lt_is_Some_2 (instances g) i Hi) as [d Hd]. split; [done|]. exists (Close env d).2. cbn [instances cleanup].
      rewrite list_lookup_alter_eq, Hd. split; [done|]. unfold Close. destruct (closed d) eqn:Hc; [done|]. destruct (Conn d); [|done].
      by destruct (CloseConnections env c) as [[? ?] ?]. }
    revert H. generalize (cleanup env i g). induction later as [|[connect new] later IH]; intros g0 H; [done|]. cbn [foldl]. apply IH.
    destruct H as (H1 & d & H2 & H3). cbn [fst snd]. unfold New. rewrite H1. destruct new; cbn [snd]; [|by split; [|exists d]].
    destruct connect; cbn [snd]; (split; [done|exists d; split; [|done]]); try done. cbn [instances]. by apply lookup_app_l_Some. }
  intros connect. exists d. unfold New. rewrite Hs'. split_and!; [done|done|..].
  - unfold GetMasterDB, GetDBManager, open_conn. by rewrite Hcl.
  - unfold GetRedis, open_conn. by rewrite Hcl.
  - intros db fn n. unfold WithTx. by rewrite Hcl.
Qed.

(** *** Transactions *)

(** What a function given to [WithTx] does: statements in the transaction of
    its context, transactions of its own in that context, and an end. *)
Inductive action :=
  | AEnd (o : outcome)
  | AUse (next : action)
  | ATx (read : bool) (inner : action) (next : bool → action).

Section Actions.
Variables (db : Database_) (slave : nat → res data_error nat) (d : Data).

Definition with_tx (read : bool) (fn : body) (n : nat) : res data_error () * nat * list db_event * list metric :=
  if read then WithTxRead db (slave n) d fn n else WithTx db d fn n.

Fixpoint run (a : action) : body := λ ctx n,
  match a with
  | AEnd o => (o, n, [])
  | AUse next => let '(o, n', evs) := run next ctx n in (o, n', Use (GetTx ctx) :: evs)
  | ATx read inner next =>
      let '(r, n1, evs1, _) := with_tx read (run inner) n in
      match r with
      | Ok _ | Err _ => let '(o, n2, evs2) := run (next (is_Ok r)) ctx n1 in (o, n2, evs1 ++ evs2)%list
      | _ => (Panicked, n1, evs1)
      end
  end.

(** Reading events with the transactions open so far, innermost first: every end
    and every statement belongs to the innermost. *)
Fixpoint bracket (st : list nat) (evs : list db_event) : option (list nat) :=
  match evs with
  | [] => Some st
  | Begin _ tx _ :: evs => bracket (tx :: st) evs
  | Commit tx :: evs | Rollback tx :: evs =>
      match st with t :: st' => if decide (t = tx) then bracket st' evs else None | [] => None end
  | Use t :: evs => if decide (t = head st) then bracket st evs else None
  end.

Lemma bracket_app st evs evs' : bracket st (evs ++ evs') = st' ← bracket st evs; bracket st' evs'.
Proof.
  revert st. induction evs as [|ev evs IH]; intros st; [done|]. destruct ev; cbn [app bracket]; rewrite ?IH; try done;
    [destruct st as [|t st]; [done|]|destruct st as [|t st]; [done|]|]; case_decide; rewrite ?IH; done.
Qed.

(** A part of a run that began at [n], with [st] open: well nested, with
    [leaked] left open on top, numbers below [n']. *)
Definition nested (st : list nat) (evs : list db_event) (leaked : list nat) (n n' : nat) : Prop :=
  bracket st evs = Some (leaked ++ st)%list ∧ (n ≤ n')%nat ∧ Forall (λ t, n ≤ t < n')%nat leaked.

Lemma run_nested a : ∀ st n, let '(o, n', evs) := run a (head st) n in
  ∃ leaked, nested st evs leaked n n' ∧ (o ≠ Panicked → leaked = []).
Proof.
  induction a as [o|next IH|read inner IHi next IHn]; intros st n; cbn [run].
  - exists []. by repeat constructor.
  - specialize (IH st n). destruct (run next (head st) n) as [[o n'] evs]. destruct IH as (leaked & (Hb & Hn & Hl) & Ho).
    exists leaked. split; [|done]. split_and!; [|done..]. cbn [bracket]. unfold GetTx. by rewrite decide_True.
  - assert (let '(r, n1, evs1, _) := with_tx read (run inner) n in ∃ leaked, nested st evs1 leaked n n1 ∧ (is_Ok r || is_Err r = true → leaked = [])) as Hx.
    { assert (∀ conn ro, let '(r, n1, evs1, _) := run_tx db conn ro (run inner) n in ∃ leaked, nested st evs1 leaked n n1 ∧ (is_Ok r || is_Err r = true → leaked = [])) as Hrun.
      { intros conn ro. unfold run_tx. destruct (negb (begin_ok db n)); [exists []; by repeat constructor|].
        specialize (IHi (n :: st) (S n)). cbn [head] in IHi. destruct (run inner (Some n) (S n)) as [[o n'] evs].
        destruct IHi as (leaked & (Hb & Hn & Hl) & Ho). destruct o as [e|].
        - specialize (Ho ltac:(done)). subst leaked. assert (∀ ev, ev = Commit n ∨ ev = Rollback n → nested st (Begin conn n ro :: (evs ++ [ev])) [] n n') as Hf.
          { intros ev Hev. split_and!; [|lia|constructor]. cbn [bracket app]. rewrite bracket_app, Hb. cbn [mbind option_bind app].
            destruct Hev as [->| ->]; cbn [bracket]; by rewrite decide_True. }
          destruct e as [e|]; [destruct (rollback_ok db n)|]; exists []; (split; [apply Hf; tauto|done]).
        - exists (leaked ++ [n])%list. split; [|done]. split_and!; [|lia|].
          + cbn [bracket]. by rewrite Hb, <- app_assoc.
          + apply list.Forall_app. split; [|repeat constructor; lia]. eapply Forall_impl; [exact Hl|]. intros t Ht. cbn in Ht. lia. }
      assert (nested st [] [] n n) as Hnil by by repeat constructor.
      unfold with_tx, WithTxRead, WithTx. destruct read, (closed d); try (by exists []).
      - destruct (slave n) as [conn|e| |]; [apply Hrun|by exists []..].
      - destruct (GetMasterDB d) as [conn|]; [apply Hrun|by exists []]. }
    destruct (with_tx read (run inner) n) as [[[r n1] evs1] ms]. destruct Hx as (leaked & (Hb & Hn & Hl) & Ho).
    assert (is_Ok r || is_Err r = true →
      let '(o, n2, evs2) := run (next (is_Ok r)) (head st) n1 in ∃ leaked0, nested st (evs1 ++ evs2)%list leaked0 n n2 ∧ (o ≠ Panicked → leaked0 = [])) as Hc.
    { intros Hr. rewrite (Ho Hr) in Hb. specialize (IHn (is_Ok r) st n1). destruct (run _ (head st) n1) as [[o n2] evs2].
      destruct IHn as (l2 & (Hb2 & Hn2 & Hl2) & Ho2). exists l2. split; [|done]. split_and!; [|lia|].
      - by rewrite bracket_app, Hb.
      - eapply Forall_impl; [exact Hl2|]. intros t Ht. cbn in Ht. lia. }
    destruct r as [x|e| |]; cbn [is_Ok] in *; try (specialize (Hc eq_refl); destruct (run _ (head st) n1) as [[o n2] evs2]; exact Hc).
    + exists leaked. split; [by split_and!|done].
    + exists leaked. split; [by split_and!|done].
Qed.

(** C22: Transactions are nested, and end unless the function panics.  Whatever the
    function does in its context — statements, transactions of its own, read only
    or not, errors — each statement goes to the innermost open transaction, each
    transaction ends once, after those begun in it, and none is open when
    [WithTx] returns, with an error or without.  If the function panics the
    transaction of this call, and those the panic came through, are never ended. *)
Theorem transactions_nested (a : action) (n : nat) :
  let '(r, n', evs, _) := WithTx db d (run a) n in
  ∃ leaked, bracket [] evs = Some leaked ∧ match r with Ok _ | Err _ => leaked = [] | Panic => last leaked = Some n | NoFuel => False end.
Proof.
  unfold WithTx. destruct (closed d); [by exists []|]. destruct (GetMasterDB d) as [conn|]; [|by exists []].
  unfold run_tx. destruct (negb (begin_ok db n)); [by exists []|]. pose proof (run_nested a [n] (S n)) as H. cbn [head] in H.
  destruct (run a (Some n) (S n)) as [[o n'] evs]. destruct H as (leaked & (Hb & _ & _) & Ho). destruct o as [e|].
  - rewrite (Ho ltac:(done)) in Hb. assert (∀ ev, ev = Commit n ∨ ev = Rollback n → bracket [] (Begin conn n false :: (evs ++ [ev])) = Some []) as Hf.
    { intros ev Hev. cbn [bracket app]. rewrite bracket_app, Hb. cbn [mbind option_bind app].
      destruct Hev as [->| ->]; cbn [bracket]; by rewrite decide_True. }
    destruct e as [e|]; [destruct (rollback_ok db n)|]; exists []; (split; [apply Hf; tauto|try done]). by destruct (commit_ok db n).
  - exists (leaked ++ [n])%list. split; [by cbn [bracket]|]. by rewrite last_snoc.
Qed.
End Actions.

(** *** Health *)

Lemma and_check_ok a b : (and_check a b).1.1 = a.1.1 && b.1.1.
Proof. by destruct a as [[? ?] ?], b as [[? ?] ?]. Qed.

Lemma broker_ok env name o :
  (broker_health env name o).1.1 = true ↔ ∀ x, o = Some x → has x MIsConnected = true ∧ connected env (handle x) = true.
Proof.
  destruct o as [o|]; cbn; [rewrite andb_true_iff|by split].
  split; [by intros H x [= <-]|intros H; by apply H].
Qed.

Lemma mongo_ok env c b :
  (checkMongoHealth env (mkData (Some c) b)).1.1 = true ↔ ∀ o, MGM c = Some o → has o MHealth = true ∧ health_ok env (handle o) = true.
Proof.
  unfold checkMongoHealth. cbn [Conn mbind option_bind]. destruct (MGM c) as [o|]; cbn; [rewrite andb_true_iff|by split].
  split; [by intros H x [= <-]|intros H; by apply H].
Qed.

Lemma redis_ok c b : (checkRedisHealth (mkData (Some c) b)).1.1 = true ↔ RC c = None.
Proof. unfold checkRedisHealth. cbn [Conn mbind option_bind]. by destruct (RC c). Qed.

Lemma search_ok c b : (checkSearchHealth (mkData (Some c) b)).1.1 = true ↔ ES c = None ∧ OS c = None ∧ MS c = None.
Proof. unfold checkSearchHealth. cbn [Conn]. destruct (ES c), (OS c), (MS c); split; try done; by intros (? & ? & ?). Qed.

Lemma database_ok env c b : ∃ dm, (checkDatabaseHealth env (mkData (Some c) b)).2 = mkData (Some (with_dbm dm c)) b ∧
  ((checkDatabaseHealth env (mkData (Some c) b)).1.1.1 = true ↔ ∀ dm, DBM c = Some dm → ping_ok env (master dm) = true).
Proof.
  unfold checkDatabaseHealth. cbn [Conn]. destruct (DBM c) as [dm|] eqn:Hd.
  - unfold Replicas.Health. destruct (ping_ok env (master dm)) eqn:Hp; eexists; (split; [done|]); cbn.
    + split; [by intros _ ? [= <-]|done].
    + split; [done|]. intros H. specialize (H dm eq_refl). congruence.
  - exists None. split; [|by split]. rewrite <- Hd. by destruct c.
Qed.

(** What the health report says.  The status is "healthy" exactly when the master
    database answers, if there is one, MongoDB does, the brokers are connected,
    and no connection to Redis or to a search engine is configured at all: their
    checks fail whatever the servers do.  A closed data layer is healthy. *)
Theorem health_status_iff (env : Env) (d : Data) :
  (Health env d).1.1.1 = true ↔
  match Conn d with
  | None => True
  | Some c =>
      (∀ dm, DBM c = Some dm → ping_ok env (master dm) = true) ∧
      (∀ o, MGM c = Some o → has o MHealth = true ∧ health_ok env (handle o) = true) ∧
      (∀ o, RMQ c = Some o ∨ KFK c = Some o → has o MIsConnected = true ∧ connected env (handle o) = true) ∧
      RC c = None ∧ ES c = None ∧ OS c = None ∧ MS c = None
  end.
Proof.
  destruct d as [[c|] cl]; [|done]. cbn [Conn]. destruct (database_ok env c cl) as (dm & Hd & Hok). unfold Health.
  destruct (checkDatabaseHealth env (mkData (Some c) cl)) as [db d']. cbn [fst snd] in *. subst d'.
  rewrite !and_check_ok, !andb_true_iff, Hok, redis_ok, mongo_ok, search_ok. unfold checkMessagingHealth.
  rewrite and_check_ok, andb_true_iff, !broker_ok. cbn [Conn mbind option_bind with_dbm RC MGM RMQ KFK ES OS MS].
  split; [intros (H1 & H2 & H3 & (H4 & H5) & H6)|intros (H1 & H2 & H3 & H4 & H5)]; split_and!; try tauto; try apply H1; try apply H3; eauto.
  intros o [Ho|Ho]; auto.
Qed.

(** ** MongoDB *)

(** Databases and collections of MongoDB cannot be had.  With the manager of
    src/data/mongodb, whose methods have the types of the MongoDB driver as
    results and not [any], the calls for a database or a collection fail without
    asking it, while transactions and health checks reach it. *)
Theorem mongo_database_unavailable (d : Data) (slow : bool) (ok : nat → bool) (o : object) :
  GetMongoManager d = Some o → methods o = mongo_methods →
  GetMongoDatabase slow ok d = (Err ENoMongo, [MongoOperation "get_database" false]) ∧
  GetMongoCollection slow ok d = (Err ENoMongo, [MongoOperation "get_collection" false]) ∧
  is_Ok (WithMongoTransaction slow ok d).1 = ok (handle o) ∧ is_Ok (MongoHealthCheck slow ok d).1 = ok (handle o).
Proof.
  intros Hm Ho. unfold GetMongoDatabase, GetMongoCollection, WithMongoTransaction, MongoHealthCheck, with_mongo, has. rewrite Hm, Ho. cbn.
  by destruct (ok (handle o)).
Qed.

(** ** At work *)

Definition typed (h : nat) (ms : list method) : object := mkObject h false ms.
Definition demo_connections : Connections :=
  mkConnections (Some (mkDB 1 [2; 3] NewRoundRobinBalancer 2)) (Some (typed 4 redis_methods)) None None None
    (Some (typed 5 mongo_methods)) (Some (typed 6 neo4j_methods)) (Some (typed 7 rabbitmq_methods)) (Some (typed 8 kafka_methods)) false.
Definition all_well : Env := mkEnv (λ _, true) (λ _, true) (λ _, false) (λ _, true) (λ _, true) (λ _, true).

Lemma demo_types : driver_types demo_connections.
Proof. split; by intros o [= <-]. Qed.

Lemma brokers_never_closed_witness : close_all [all_well; all_well] (mkData (Some demo_connections) false) = [1; 2; 3; 5; 6].
Proof. exact (brokers_never_closed demo_connections all_well [all_well] eq_refl demo_types). Defined.

Lemma shared_instance_stays_closed_witness : ∃ g' d, New (Ok demo_connections) false g' = (Ok 0, g') ∧ instances g' !! 0 = Some d ∧ GetMasterDB d = None.
Proof.
  destruct (shared_instance_stays_closed all_well 0 (mkGlobal [mkData (Some demo_connections) false] (Some 0)) [(Ok demo_connections, true)] eq_refl ltac:(by vm_compute) (Ok demo_connections))
    as (d & H1 & H2 & H3 & _). eexists _, d. split; [exact H1|]. by split.
Defined.

Lemma mongo_database_unavailable_witness :
  GetMongoDatabase false (λ _, true) (mkData (Some demo_connections) false) = (Err ENoMongo, [MongoOperation "get_database" false]).
Proof. refine (proj1 (mongo_database_unavailable (mkData (Some demo_connections) false) false (λ _, true) (typed 5 mongo_methods) _ _)); done. Defined.

Definition good_db : Database_ := mkDB_ (λ _, true) (λ _, true) (λ _, true).

(** A function that panics inside a transaction of its own. *)
Example panic_leaks : WithTx good_db (mkData (Some demo_connections) false)
    (run good_db (λ _, Ok 2) (mkData (Some demo_connections) false) (AUse (ATx true (AUse (AEnd Panicked)) (λ _, AEnd (Done None))))) 0 =
  (Panic, 2, [Begin 1 0 false; Use (Some 0); Begin 2 1 true; Use (Some 1)], []).
Proof. reflexivity. Qed.

(** The brokers of a healthy configuration are connected, and Redis degrades it. *)
Example redis_degrades : (Health all_well (mkData (Some demo_connections) false)).1.1.2 =
  [("database", true); ("redis", false); ("mongodb", true); ("rabbitmq", true); ("kafka", true)].
Proof. reflexivity. Qed.

(** When Neo4j has no driver the connection to Redis stays open. *)
Example earlier_left_open :
  NewConnections (mkConfig None (Some (mkService "redis:6379" 0)) None None None None (Some (mkService "bolt://x" 0)) true None None)
    (Some (mkRegistries ∅ {["redis" := λ _, Some (typed 4 redis_methods)]} ∅ ∅ ∅)) = (Err (ENoDriver "neo4j"), [4]).
Proof. reflexivity. Qed.
