(* ===== verification/DataMetrics.v ===== *)
(** * Metrics of the data layer

    Models src/data/metrics: collector.go with its counters, its buffer and the
    goroutines that flush it, storage.go with the storage in memory and its
    queries, adapter.go and health.go.  A call is several atomic steps: it
    counts, then appends to the buffer under the mutex, then, if the buffer was
    full, takes the buffer under the mutex, then hands it to the storage; the
    steps of calls of different goroutines interleave. *)

From stdpp Require Import base tactics option list gmap strings numbers sorting sets.
From Stdlib Require Import ZArith Lia.
From S2P Require Import Prelude MetricsStore.

Open Scope string_scope.

(** ** Metrics *)

(** [Labels] is [None] for a nil map. *)
Record Metric := mkMetric { Type_ : string; m_Value : Z; m_Labels : option (gmap string string); m_Timestamp : Z }.

Record QueryRequest := mkRequest { r_Type : string; r_Start : Z; r_End : Z; r_Labels : list (string * string); r_Limit : Z }.

Definition boolToString (b : bool) : string := if b then "true" else "false".
Definition boolToInt (b : bool) : Z := if b then 1 else 0.

(** The calls of the interface [Collector]; [ok]: the error is nil. *)
Inductive call :=
  | DBQuery (duration : Z) (ok : bool) | DBTransaction (ok : bool) | DBConnections (count : Z)
  | RedisCommand (command : string) (ok : bool) | RedisConnections (count : Z) | MongoOperation (operation : string) (ok : bool)
  | SearchQuery (engine : string) (ok : bool) | SearchIndex (engine operation : string)
  | MQPublish (system : string) (ok : bool) | MQConsume (system : string) (ok : bool) | HealthCheck (component : string) (healthy : bool).

(** What a call records, at a time. *)
Definition recorded (c : call) (now : Z) : Metric :=
  match c with
  | DBQuery d ok => mkMetric "db_query" 1 (Some {["success" := boolToString ok; "slow" := boolToString (second <? d)%Z]}) now
  | DBTransaction ok => mkMetric "db_transaction" 1 (Some {["success" := boolToString ok]}) now
  | DBConnections n => mkMetric "db_connections" n None now
  | RedisCommand cmd ok => mkMetric "redis_command" 1 (Some {["command" := cmd; "success" := boolToString ok]}) now
  | RedisConnections n => mkMetric "redis_connections" n None now
  | MongoOperation op ok => mkMetric "mongo_operation" 1 (Some {["operation" := op; "success" := boolToString ok]}) now
  | SearchQuery e ok => mkMetric "search_query" 1 (Some {["engine" := e; "success" := boolToString ok]}) now
  | SearchIndex e op => mkMetric "search_index" 1 (Some {["engine" := e; "operation" := op]}) now
  | MQPublish s ok => mkMetric "mq_publish" 1 (Some {["system" := s; "success" := boolToString ok]}) now
  | MQConsume s ok => mkMetric "mq_consume" 1 (Some {["system" := s; "success" := boolToString ok]}) now
  | HealthCheck c h => mkMetric "health_check" (boolToInt h) (Some {["component" := c]}) now
  end.

(** ** Counters *)

Inductive counter :=
  | dbQueries | dbQueryErrors | dbTransactions | dbTxErrors | dbSlowQueries | redisCommands | redisErrors
  | mongoOperations | mongoErrors | searchQueries | searchErrors | searchIndexOps | mqPublished | mqPublishErrors | mqConsumed | mqConsumeErrors.

#[export] Instance counter_dec : EqDecision counter.
Proof. solve_decision. Defined.

Definition failed (ok : bool) (k : counter) : list counter := if ok then [] else [k].

(** The counters a call adds one to. *)
Definition bumped (c : call) : list counter :=
  match c with
  | DBQuery d ok => (dbQueries :: failed ok dbQueryErrors ++ if (second <? d)%Z then [dbSlowQueries] else [])%list
  | DBTransaction ok => dbTransactions :: failed ok dbTxErrors
  | RedisCommand _ ok => redisCommands :: failed ok redisErrors
  | MongoOperation _ ok => mongoOperations :: failed ok mongoErrors
  | SearchQuery _ ok => searchQueries :: failed ok searchErrors
  | SearchIndex _ _ => [searchIndexOps]
  | MQPublish _ ok => mqPublished :: failed ok mqPublishErrors
  | MQConsume _ ok => mqConsumed :: failed ok mqConsumeErrors
  | DBConnections _ | RedisConnections _ | HealthCheck _ _ => []
  end.

Definition add_one (k : counter) (f : counter → Z) : counter → Z := λ k', if decide (k' = k) then wrap64 (f k' + 1) else f k'.

(** ** The collector *)

Record DataCollector := mkCollector {
  counts : counter → Z; dbConnections : Z; redisConnections : Z; healthChecks : gmap string bool;
  batchSize : Z; buffer : list Metric; stored : list Metric }.

Definition NewDataCollector (batchSize : Z) : DataCollector :=
  mkCollector (λ _, 0%Z) 0 0 ∅ (if (batchSize <=? 0)%Z then 100 else batchSize)%Z [] [].

(** The first step of a call: the atomic counters and the health map. *)
Definition count_call (c : call) (s : DataCollector) : DataCollector :=
  mkCollector (foldr add_one (counts s) (bumped c))
    (match c with DBConnections n => wrap32 n | _ => dbConnections s end)
    (match c with RedisConnections n => wrap32 n | _ => redisConnections s end)
    (match c with HealthCheck k h => <[k := h]> (healthChecks s) | _ => healthChecks s end)
    (batchSize s) (buffer s) (stored s).

Definition with_buffer (b : list Metric) (s : DataCollector) : DataCollector :=
  mkCollector (counts s) (dbConnections s) (redisConnections s) (healthChecks s) (batchSize s) b (stored s).
Definition with_stored (l : list Metric) (s : DataCollector) : DataCollector :=
  mkCollector (counts s) (dbConnections s) (redisConnections s) (healthChecks s) (batchSize s) (buffer s) l.

(** The part of [recordMetric] under the mutex: whether to flush. *)
Definition recordMetric (m : Metric) (s : DataCollector) : bool * DataCollector :=
  let b := (buffer s ++ [m])%list in ((batchSize s <=? Z.of_nat (length b))%Z, with_buffer b s).

(** The part of [flush] under the mutex: the metrics to store. *)
Definition flush_take (s : DataCollector) : list Metric * DataCollector := (buffer s, with_buffer [] s).

(** [Store] of the storage in memory. *)
Definition Store (metrics : list Metric) (s : DataCollector) : DataCollector := with_stored (stored s ++ metrics)%list s.

(** One goroutine alone. *)
Definition flush (s : DataCollector) : DataCollector := let (l, s) := flush_take s in Store l s.
Definition do_call (c : call) (now : Z) (s : DataCollector) : DataCollector :=
  let (full, s) := recordMetric (recorded c now) (count_call c s) in if full : bool then flush s else s.
Definition Close (s : DataCollector) : DataCollector := with_stored [] (flush s).

Definition GetStats (s : DataCollector) : gmap string (list (string * Z)) * gmap string bool :=
  ({["database" := [("connections", dbConnections s); ("queries", counts s dbQueries); ("errors", counts s dbQueryErrors);
       ("slow_queries", counts s dbSlowQueries); ("transactions", counts s dbTransactions); ("tx_errors", counts s dbTxErrors)];
     "redis" := [("connections", redisConnections s); ("commands", counts s redisCommands); ("errors", counts s redisErrors)];
     "mongodb" := [("operations", counts s mongoOperations); ("errors", counts s mongoErrors)];
     "search" := [("queries", counts s searchQueries); ("errors", counts s searchErrors); ("index_ops", counts s searchIndexOps)];
     "messaging" := [("published", counts s mqPublished); ("publish_errors", counts s mqPublishErrors);
       ("consumed", counts s mqConsumed); ("consume_errors", counts s mqConsumeErrors)]]}, healthChecks s).

(** ** Queries *)

Definition matchesQuery (q : QueryRequest) (m : Metric) : bool :=
  (String.eqb (r_Type q) "" || String.eqb (Type_ m) (r_Type q)) &&
  (IsZero (r_Start q) || (r_Start q <=? m_Timestamp m)%Z) && (IsZero (r_End q) || (m_Timestamp m <=? r_End q)%Z) &&
  forallb (λ kv, match m_Labels m with Some l => String.eqb (default "" (l !! kv.1)) kv.2 | None => false end) (r_Labels q).

Definition earlier (x y : Metric) : bool := (m_Timestamp x <? m_Timestamp y)%Z.

Definition Query `{SortSlice} (q : QueryRequest) (s : DataCollector) : list Metric :=
  let result := sort_slice earlier (List.filter (matchesQuery q) (stored s)) in
  if (0 <? r_Limit q)%Z && (r_Limit q <? Z.of_nat (length result))%Z then take (Z.to_nat (r_Limit q)) result else result.

(** ** Adapter and monitor *)

(** [ExtensionCollectorAdapter]: the calls an inner collector gets. *)
Definition adapted (collector : option (list call)) (c : call) : option (list call) := (λ l, l ++ [c])%list <$> collector.

(** [HealthMonitor.CheckAll] over its components in some order, and
    [CheckComponent]; [check] says which components answer in time. *)
Definition CheckAll (check : string → bool) (names : list string) : gmap string bool * list call :=
  (list_to_map ((λ n, (n, check n)) <$> names), (λ n, HealthCheck n (check n)) <$> names).
Definition CheckComponent (check : string → bool) (names : list string) (name : string) : bool * list call :=
  if bool_decide (name ∈ names) then (check name, [HealthCheck name (check name)]) else (false, []).

(** ** Interleavings *)

(** [counted]: calls that have counted but not recorded; [to_flush]: how many
    are about to flush; [taken]: what was taken and not stored yet. *)
Record State := mkState { collector : DataCollector; counted : list call; to_flush : nat; taken : list (list Metric) }.

Inductive event := ECount (c : call) | ERecord (i : nat) (now : Z) | ETake | EStore (i : nat).

Definition remove_at {A} (i : nat) (l : list A) : list A := (take i l ++ drop (S i) l)%list.

Definition step (e : event) (s : State) : option State :=
  match e with
  | ECount c => Some (mkState (count_call c (collector s)) (counted s ++ [c])%list (to_flush s) (taken s))
  | ERecord i now =>
      c ← counted s !! i;
      let (full, d) := recordMetric (recorded c now) (collector s) in
      Some (mkState d (remove_at i (counted s)) (if full : bool then S (to_flush s) else to_flush s) (taken s))
  | ETake =>
      match to_flush s with
      | O => None
      | S n => let (l, d) := flush_take (collector s) in
          Some (mkState d (counted s) n (match l with [] => taken s | _ => (taken s ++ [l])%list end))
      end
  | EStore i => l ← taken s !! i; Some (mkState (Store l (collector s)) (counted s) (to_flush s) (remove_at i (taken s)))
  end.

#[global] Instance collector_machine : Machine event State := step.

Definition start (batchSize : Z) : State := mkState (NewDataCollector batchSize) [] 0 [].

(** What the events say was called, and what was recorded. *)
Fixpoint calls_of (es : list event) : list call :=
  match es with [] => [] | ECount c :: es => c :: calls_of es | _ :: es => calls_of es end.

Fixpoint log_of (es : list event) (pending : list call) : list Metric :=
  match es with
  | [] => []
  | ECount c :: es => log_of es (pending ++ [c])
  | ERecord i now :: es => match pending !! i with Some c => [recorded c now] | None => [] end ++ log_of es (remove_at i pending)
  | _ :: es => log_of es pending
  end%list.

(** How often the calls count. *)
Definition total (k : counter) (cs : list call) : Z := Z.of_nat (length (filter (λ k', k' = k) (cs ≫= bumped))).

(** ** Facts *)

Lemma remove_at_perm {A} i (l : list A) x : l !! i = Some x → x :: remove_at i l ≡ₚ l.
Proof. intros H. unfold remove_at. rewrite <- (take_drop_middle l i x H) at 3. by rewrite Permutation_middle. Qed.

Record inv (b : Z) (cs : list call) (log : list Metric) (s : State) : Prop := {
  i_all : stored (collector s) ++ concat (taken s) ++ buffer (collector s) ≡ₚ log;
  i_full : (b ≤ Z.of_nat (length (buffer (collector s))))%Z → to_flush s ≠ 0;
  i_batch : batchSize (collector s) = b;
  i_counts : ∀ k, counts (collector s) k = wrap64 (total k cs) }.

Definition occurs (k : counter) (ks : list counter) : Z := Z.of_nat (length (filter (λ k', k' = k) ks)).

Lemma foldr_add_one ks f k z : f k = wrap64 z → foldr add_one f ks k = wrap64 (z + occurs k ks).
Proof.
  intros Hf. unfold occurs. induction ks as [|k' ks IH]; [by rewrite Z.add_0_r|]. cbn [foldr]. unfold add_one at 1. rewrite IH, filter_cons.
  destruct (decide (k = k')) as [<-|Hne]; [rewrite decide_True by done|by rewrite decide_False by congruence].
  rewrite wrap64_add. f_equal. cbn [length]. lia.
Qed.

Lemma total_app k cs cs' : total k (cs ++ cs') = (total k cs + total k cs')%Z.
Proof. unfold total. rewrite bind_app, filter_app, length_app. lia. Qed.

Lemma total_one k c : total k [c] = occurs k (bumped c).
Proof. unfold total. cbn [mbind list_bind]. by rewrite app_nil_r. Qed.

Lemma inv_start b : (0 < b)%Z → inv b [] [] (start b).
Proof.
  intros Hb. unfold start, NewDataCollector. rewrite (proj2 (Z.leb_gt b 0)) by done.
  split; [done| |done|done]. cbn. lia.
Qed.

Lemma inv_step b cs log s e s' : (0 < b)%Z → inv b cs log s → step e s = Some s' →
  inv b (cs ++ calls_of [e])%list (log ++ log_of [e] (counted s))%list s'.
Proof.
  intros Hb [H1 H2 H3 H4]. destruct e as [c|i now| |i]; cbn [step calls_of log_of]; rewrite ?app_nil_r.
  - intros [= <-]. split; try done. intros k. cbn [collector count_call counts]. rewrite total_app, total_one. by apply foldr_add_one.
  - destruct (counted s !! i) as [c|] eqn:Hi; [|done]. cbn [mbind option_bind]. unfold recordMetric. intros [= <-]. split; try done.
    + cbn [collector with_buffer stored buffer taken]. rewrite <- H1, <- !app_assoc. done.
    + cbn [collector with_buffer buffer to_flush]. rewrite H3. intros Hl. destruct (Z.leb_spec b (Z.of_nat (length (buffer (collector s) ++ [recorded c now])))); [done|lia].
  - destruct (to_flush s) as [|n] eqn:Hf; [done|]. unfold flush_take. intros [= <-]. split; try done.
    + cbn [collector with_buffer stored buffer taken]. rewrite app_nil_r, <- H1. destruct (buffer (collector s)) as [|m l]; [by rewrite app_nil_r|].
      rewrite concat_app. cbn [concat]. by rewrite app_nil_r.
    + cbn. lia.
  - destruct (taken s !! i) as [l|] eqn:Hi; [|done]. cbn [mbind option_bind]. intros [= <-]. split; try done.
    cbn [collector Store with_stored stored buffer taken]. rewrite <- H1, <- !app_assoc. f_equiv. rewrite app_assoc. f_equiv.
    rewrite <- (remove_at_perm i (taken s) l Hi) at 2. done.
Qed.

Lemma calls_of_app es es' : calls_of (es ++ es') = (calls_of es ++ calls_of es')%list.
Proof. induction es as [|[] es IH]; cbn; by rewrite ?IH. Qed.

Lemma log_of_cons e es p s s' : step e s = Some s' → p = counted s → log_of (e :: es) p = (log_of [e] p ++ log_of es (counted s'))%list.
Proof.
  intros Hs ->. destruct e as [c|i now| |i]; cbn in *.
  - by injection Hs as <-.
  - destruct (counted s !! i) as [c|] eqn:Hi; [|done]. cbn in Hs. by injection Hs as <-.
  - destruct (to_flush s); [done|]. by injection Hs as <-.
  - destruct (taken s !! i); [|done]. by injection Hs as <-.
Qed.

Lemma inv_run b es : (0 < b)%Z → ∀ s cs log s', inv b cs log s → mrun es s = Some s' →
  inv b (cs ++ calls_of es)%list (log ++ log_of es (counted s))%list s'.
Proof.
  intros Hb. induction es as [|e es IH]; intros s cs log s' Hinv Hr; cbn in Hr.
  - injection Hr as <-. cbn. by rewrite !app_nil_r.
  - destruct (mstep e s) as [s1|] eqn:Hs; [|done]. pose proof (inv_step b cs log s e s1 Hb Hinv Hs) as H1.
    specialize (IH s1 _ _ s' H1 Hr). rewrite <- !app_assoc in IH. rewrite (log_of_cons e es _ s s1 Hs eq_refl).
    change (e :: es) with ([e] ++ es)%list. by rewrite calls_of_app.
Qed.

(** ** Properties *)

(** No metric is lost.  In every interleaving of calls and flushes the metrics
    recorded, in the order of the mutex, are those stored, those taken by a flush
    and those in the buffer, each once but in any order; the counters count the
    calls; and when no flush is under way the buffer is below the batch size. *)
Theorem metrics_kept (b : Z) (es : list event) (s : State) :
  (0 < b)%Z → mrun es (start b) = Some s →
  stored (collector s) ++ concat (taken s) ++ buffer (collector s) ≡ₚ log_of es [] ∧
  (∀ k, counts (collector s) k = wrap64 (total k (calls_of es))) ∧
  (to_flush s = 0 → (Z.of_nat (length (buffer (collector s))) < b)%Z).
Proof.
  intros Hb Hr. pose proof (inv_run b es Hb _ _ _ _ (inv_start b Hb) Hr) as [H1 H2 H3 H4]. split_and!; [done|done|].
  intros Hf. destruct (Z.lt_ge_cases (Z.of_nat (length (buffer (collector s)))) b) as [|Hge]; [done|]. by specialize (H2 Hge).
Qed.

(** What a query returns.  The metrics stored that match, in order of time, all
    or, with a limit, so many of the earliest. *)
Theorem query_exact `{SortSlice} (q : QueryRequest) (s : DataCollector) :
  ∃ all, all ≡ₚ List.filter (matchesQuery q) (stored s) ∧ StronglySorted (λ x y, m_Timestamp x ≤ m_Timestamp y)%Z all ∧
    Query q s = if (0 <? r_Limit q)%Z then take (Z.to_nat (r_Limit q)) all else all.
Proof.
  exists (sort_slice earlier (List.filter (matchesQuery q) (stored s))). split_and!.
  - apply sort_slice_perm.
  - by apply (sort_slice_sorted m_Timestamp).
  - unfold Query. destruct (Z.ltb_spec 0 (r_Limit q)); [|done]. cbn [andb]. case_match eqn:Hl; [done|].
    apply Z.ltb_ge in Hl. rewrite take_ge; [done|]. lia.
Qed.

(** One goroutine alone: the storage has the metrics in order, and the buffer
    flushes itself. *)
Definition batch_calls : list (call * Z) :=
  [(DBQuery 2000000000 true, 1%Z); (RedisCommand "get" false, 2%Z); (HealthCheck "database" true, 3%Z)].
Definition alone : DataCollector := foldl (λ s c, do_call c.1 c.2 s) (NewDataCollector 2) batch_calls.
Example alone_stores : stored alone = [recorded (DBQuery 2000000000 true) 1; recorded (RedisCommand "get" false) 2] ∧
  length (buffer alone) = 1 ∧ counts alone dbSlowQueries = 1%Z ∧ counts alone redisErrors = 1%Z.
Proof. vm_compute. split_and!; reflexivity. Qed.

(** The same calls by two goroutines, of which the second stores first. *)
Definition interleaved : list event :=
  [ECount (DBTransaction true); ECount (DBTransaction false); ERecord 0 1; ETake; ERecord 0 2; ETake; EStore 1; EStore 0].

Lemma metrics_kept_witness : ∃ s, mrun interleaved (start 1) = Some s ∧
  stored (collector s) ++ concat (taken s) ++ buffer (collector s) ≡ₚ log_of interleaved [] ∧ counts (collector s) dbTxErrors = 1%Z.
Proof.
  assert (is_some_b (mrun interleaved (start 1)) = true) as Hs by (vm_compute; reflexivity).
  destruct (mrun interleaved (start 1)) as [s|] eqn:Hr; [|discriminate Hs]. exists s. split; [done|].
  destruct (metrics_kept 1 interleaved s ltac:(lia) Hr) as (H1 & H2 & _). split; [done|]. rewrite H2. by vm_compute.
Defined.
