(* ===== verification/RedisCache.v ===== *)
(** * The Redis cache

    Models src/data/cache/redis.go, a cache of values of one type over a Redis
    client, in its two ways of keeping them: each value under a key of its own,
    or in a hash.  Redis is the class [Redis]: what a command answers and leaves
    is, by its documentation, the function [sem] of the keys, unless the
    connection fails.  The text of a value is the class [Codec]. *)

From stdpp Require Import base tactics option list gmap strings numbers sorting.
From Stdlib Require Import ZArith Ascii Lia.
From S2P Require Import Prelude.

Open Scope string_scope.

(** ** Redis *)

(** A sorted set gives each member a score, here an integer. *)
Inductive value := VString (s : string) | VHash (h : gmap string string) | VZSet (z : gmap string Z).

(** A key: its value and when it expires, to the resolution of the server. *)
Record entry := mkEntry { e_value : value; e_expires : option Z }.
Abbreviation keys := (gmap string entry).

Inductive command :=
  | Get (k : string) | Set_ (k v : string) (ttl : Z) | Del (k : string) | Exists (k : string) | TTL_ (k : string) | Expire_ (k : string) (ttl : Z)
  | MGet (ks : list string) | HGet (k f : string) | HSet (k f v : string) | HDel (k f : string) | HExists (k f : string)
  | HMGet (k : string) (fs : list string) | HMSet (k : string) (vs : list (string * string))
  | ZAdd (k : string) (ms : list (string * Z)) | ZRangeByScore (k : string) (min max : Z) | ZRevRange (k : string) (n : Z)
  | ZRemRangeByScore (k : string) (max : Z) | ZCard (k : string).

(** [RFail] is the connection, [RWrong] an error of the server, for a key of
    another type or missing arguments; [RNil] is [redis.Nil]. *)
Inductive reply := RFail | RWrong | RNil | RStr (s : string) | RInt (z : Z) | ROk | RList (l : list (option string)).

#[export] Instance reply_dec : EqDecision reply.
Proof. solve_decision. Defined.

(** The keys that have not expired. *)
Definition live (now : Z) (d : keys) : keys := filter (λ kv, match e_expires kv.2 with Some t => (now <? t)%Z | None => true end = true) d.

Definition as_hash (o : option entry) : option (gmap string string) :=
  match o with Some e => match e_value e with VHash h => Some h | _ => None end | None => Some ∅ end.

Definition as_zset (o : option entry) : option (gmap string Z) :=
  match o with Some e => match e_value e with VZSet z => Some z | _ => None end | None => Some ∅ end.

(** The order of a sorted set: by score, then by member. *)
Definition zle (x y : string * Z) : Prop := (x.2 < y.2)%Z ∨ x.2 = y.2 ∧ String.leb x.1 y.1 = true.
#[export] Instance zle_dec : RelDecision zle.
Proof. intros x y. unfold zle. apply _. Defined.
Definition ranked (z : gmap string Z) : list string := (merge_sort zle (map_to_list z)).*1.

Definition in_scores (min max : Z) (z : gmap string Z) : gmap string Z := filter (λ ms, (min ≤ ms.2 ≤ max)%Z) z.

Definition put_zset (k : string) (z : gmap string Z) (d : keys) : keys :=
  if decide (z = ∅) then delete k d else <[k := mkEntry (VZSet z) (d !! k ≫= e_expires)]> d.

(** Putting back a hash: an empty one goes, the expiry stays. *)
Definition put_hash (k : string) (h : gmap string string) (d : keys) : keys :=
  if decide (h = ∅) then delete k d else <[k := mkEntry (VHash h) (d !! k ≫= e_expires)]> d.

(** How the client sends a positive time: [Expire] in whole seconds and [Set] in
    whole milliseconds, at least one. *)
Definition in_units (unit d : Z) : Z := if (0 <? d)%Z && (d <? unit)%Z then unit else (Z.quot d unit * unit)%Z.
Definition in_seconds : Z → Z := in_units (10 ^ 9).
Definition in_milliseconds : Z → Z := in_units (10 ^ 6).

Lemma in_units_pos unit d : (0 < unit)%Z → (0 < in_units unit d ↔ 0 < d)%Z.
Proof.
  intros Hu. unfold in_units. destruct (Z.ltb_spec 0 d), (Z.ltb_spec d unit); cbn [andb]; try lia.
  - assert (1 ≤ Z.quot d unit)%Z by (apply Z.quot_le_lower_bound; lia). nia.
  - split; [|lia]. assert (Z.quot d unit ≤ 0)%Z by (rewrite <- (Z.quot_0_l unit) by lia; apply Z.quot_le_mono; lia). nia.
Qed.
(** A whole number of units is sent as it is, and no more than the time but for the least. *)
Lemma in_units_whole unit n : (0 < unit)%Z → in_units unit (n * unit) = (n * unit)%Z.
Proof.
  intros Hu. unfold in_units. rewrite Z.quot_mul by lia. destruct (Z.ltb_spec 0 (n * unit)), (Z.ltb_spec (n * unit) unit); cbn [andb]; try lia. assert (0 < n)%Z by nia. nia.
Qed.

Definition sem (now : Z) (c : command) (d : keys) : reply * keys :=
  let d := live now d in
  match c with
  | Get k => (match d !! k with None => RNil | Some e => match e_value e with VString s => RStr s | _ => RWrong end end, d)
  | Set_ k v ttl => (ROk, <[k := mkEntry (VString v) (if (0 <? ttl)%Z then Some (now + in_milliseconds ttl)%Z else None)]> d)
  | Del k => (RInt (match d !! k with Some _ => 1 | None => 0 end), delete k d)
  | Exists k => (RInt (match d !! k with Some _ => 1 | None => 0 end), d)
  | TTL_ k => (RInt (match d !! k with None => -2 | Some e => match e_expires e with None => -1 | Some t => t - now end end), d)
  | Expire_ k ttl =>
      match d !! k with
      | None => (RInt 0, d)
      | Some e => (RInt 1, if (0 <? in_seconds ttl)%Z then <[k := mkEntry (e_value e) (Some (now + in_seconds ttl)%Z)]> d else delete k d)
      end
  | MGet [] | HMGet _ [] | HMSet _ [] | ZAdd _ [] => (RWrong, d)
  | MGet ks => (RList ((λ k, e ← d !! k; match e_value e with VString s => Some s | _ => None end) <$> ks), d)
  | HGet k f => (match as_hash (d !! k) with None => RWrong | Some h => match h !! f with Some s => RStr s | None => RNil end end, d)
  | HSet k f v => match as_hash (d !! k) with None => (RWrong, d) | Some h => (RInt (match h !! f with Some _ => 0 | None => 1 end), put_hash k (<[f := v]> h) d) end
  | HDel k f => match as_hash (d !! k) with None => (RWrong, d) | Some h => (RInt (match h !! f with Some _ => 1 | None => 0 end), put_hash k (delete f h) d) end
  | HExists k f => (match as_hash (d !! k) with None => RWrong | Some h => RInt (match h !! f with Some _ => 1 | None => 0 end) end, d)
  | HMGet k fs => (match as_hash (d !! k) with None => RWrong | Some h => RList ((λ f, h !! f) <$> fs) end, d)
  | HMSet k vs => match as_hash (d !! k) with None => (RWrong, d) | Some h => (ROk, put_hash k (list_to_map (rev vs) ∪ h) d) end
  | ZAdd k ms => match as_zset (d !! k) with None => (RWrong, d) | Some z => (RInt (Z.of_nat (size (list_to_map ms ∪ z : gmap string Z)) - Z.of_nat (size z)), put_zset k (list_to_map (rev ms) ∪ z) d) end
  | ZRangeByScore k min max => (match as_zset (d !! k) with None => RWrong | Some z => RList (Some <$> ranked (in_scores min max z)) end, d)
  | ZRevRange k n => (match as_zset (d !! k) with None => RWrong | Some z => RList (Some <$> take (Z.to_nat n) (rev (ranked z))) end, d)
  | ZRemRangeByScore k max => match as_zset (d !! k) with None => (RWrong, d) | Some z =>
      (RInt (Z.of_nat (size (filter (λ ms, (ms.2 ≤ max)%Z) z))), put_zset k (filter (λ ms, (max < ms.2)%Z) z) d) end
  | ZCard k => (match as_zset (d !! k) with None => RWrong | Some z => RInt (Z.of_nat (size z)) end, d)
  end.

(** [exec now c w] at the time [now]; when the connection fails the command may
    have run or not.  [pipeline] runs commands in order over one connection. *)
Class Redis (W : Type) := {
  view : W → keys;
  exec : Z → command → W → reply * W;
  exec_ok now c w : (exec now c w).1 ≠ RFail → (exec now c w).1 = (sem now c (view w)).1 ∧ view (exec now c w).2 = (sem now c (view w)).2;
  exec_fail now c w : (exec now c w).1 = RFail → view (exec now c w).2 = view w ∨ view (exec now c w).2 = (sem now c (view w)).2 }.

(** [json.Marshal] and [json.Unmarshal] of a type: a value that is marshalled
    comes back, and an empty text is no value. *)
Class Codec (T : Type) := {
  marshal : T → option string;
  unmarshal : string → option T;
  marshal_back x s : marshal x = Some s → unmarshal s = Some x;
  unmarshal_empty : unmarshal "" = None }.

(** ** The cache *)

Record Cache := mkCache { rc : bool; key : string; useHash : bool }.

Definition NewCache (key : string) (hash : list bool) : Cache := mkCache true key (match hash with h :: _ => h | [] => false end).

Definition Key (c : Cache) (field : string) : string :=
  if useHash c then field else if String.eqb (key c) "" then field else key c +:+ ":" +:+ field.

Inductive cache_error := ENoClient | EConnection | EWrongType | EMarshal (field : string) | EUnmarshal.

(** Commands and whether they failed, as told to the collector. *)
Definition metrics : Type := list (string * bool).

Section Cache.
Context {W T : Type} `{Redis W} `{Codec T}.
Implicit Types (w : W) (c : Cache) (now : Z).

Definition expire_of (expire : list Z) : Z := match expire with t :: _ => t | [] => 0 end.

(** The error of a reply other than [redis.Nil]. *)
Definition reply_error (r : reply) : option cache_error := match r with RFail => Some EConnection | RWrong => Some EWrongType | _ => None end.
Definition is_error (r : reply) : bool := match r with RFail | RWrong | RNil => true | _ => false end.

Definition lookup_field c (field : string) : command := if useHash c then HGet (Key c field) field else Get (Key c field).

(** [Get] and [GetArray], which differ in the names of their metrics. *)
Definition get_with (none bad : string) now c (field : string) w : res cache_error (option T) * W * metrics :=
  if negb (rc c) then (Err ENoClient, w, [(none, false)])
  else
    let (r, w) := exec now (lookup_field c field) w in
    let m := [(if useHash c then "hget" else "get", negb (is_error r))] in
    match r with
    | RStr s => match unmarshal s with Some x => (Ok (Some x), w, m) | None => (Err EUnmarshal, w, m ++ [(bad, false)])%list end
    | RNil => (Ok None, w, m)
    | RWrong => (Err EWrongType, w, m)
    | _ => (Err EConnection, w, m)
    end.
Definition CacheGet := get_with "get" "unmarshal".
Definition GetArray := get_with "get_array" "unmarshal_array".

Definition set_with (none bad : string) now c (field : string) (x : T) (expire : list Z) w : res cache_error () * W * metrics :=
  if negb (rc c) then (Err ENoClient, w, [(none, false)])
  else
    match marshal x with
    | None => (Err (EMarshal field), w, [(bad, false)])
    | Some s =>
        let (r, w) := exec now (if useHash c then HSet (Key c field) field s else Set_ (Key c field) s (expire_of expire)) w in
        (match reply_error r with Some e => Err e | None => Ok tt end, w, [(if useHash c then "hset" else "set", negb (is_error r))])
    end.
Definition CacheSet := set_with "set" "marshal".
Definition SetArray := set_with "set_array" "marshal_array".

Definition Delete now c (field : string) w : res cache_error () * W * metrics :=
  if negb (rc c) then (Err ENoClient, w, [("delete", false)])
  else
    let (r, w) := exec now (if useHash c then HDel (Key c field) field else Del (Key c field)) w in
    (match reply_error r with Some e => Err e | None => Ok tt end, w, [(if useHash c then "hdel" else "del", negb (is_error r))]).

(** The loop over the values that came back. *)
Definition collect_step (m : gmap string T) (fv : string * option string) : gmap string T :=
  match fv.2 with
  | Some s => if String.eqb s "" then m else match unmarshal s with Some x => <[fv.1 := x]> m | None => m end
  | None => m
  end.
Definition collect (fields : list string) (l : list (option string)) : gmap string T := foldl collect_step ∅ (zip fields l).

(** [GetMultiple]; without fields the hash has no name to be found by. *)
Definition GetMultiple now c (fields : list string) w : res cache_error (gmap string T) * W * metrics :=
  if negb (rc c) then (Err ENoClient, w, [("get_multiple", false)])
  else if useHash c then
    match fields with
    | [] => (Panic, w, [])
    | f :: _ =>
        let (r, w) := exec now (HMGet (Key c f) fields) w in
        (match r with RList l => Ok (collect fields l) | RWrong => Err EWrongType | _ => Err EConnection end, w, [("hmget", negb (is_error r))])
    end
  else
    let (r, w) := exec now (MGet (Key c <$> fields)) w in
    (match r with RList l => Ok (collect fields l) | RWrong => Err EWrongType | _ => Err EConnection end, w, [("mget", negb (is_error r))]).

(** The texts of items, in the order the map is ranged over, up to the first
    that has none. *)
Fixpoint marshal_items (items : list (string * T)) : res cache_error (list (string * string)) :=
  match items with
  | [] => Ok []
  | (f, x) :: items =>
      match marshal x with
      | None => Err (EMarshal f)
      | Some s => rbind (marshal_items items) (λ l, Ok ((f, s) :: l))
      end
  end.

(** The commands of a pipeline; whether one failed. *)
Fixpoint exec_all now (cs : list command) w : bool * W :=
  match cs with
  | [] => (true, w)
  | cmd :: cs =>
      let (r, w) := exec now cmd w in
      let (ok, w) := exec_all now cs w in (match reply_error r with Some _ => false | None => ok end, w)
  end.

Definition SetMultiple now c (items : list (string * T)) (expire : list Z) w : res cache_error () * W * metrics :=
  if negb (rc c) then (Err ENoClient, w, [("set_multiple", false)])
  else if useHash c then
    match items with
    | [] => (Ok tt, w, [])
    | _ =>
        match marshal_items items with
        | Ok l =>
            (* the key is that of the first field whose key is not empty *)
            let hashKey := default "" (List.find (λ k, negb (String.eqb k "")) (Key c <$> items.*1)) in
            let (r, w) := exec now (HMSet hashKey l) w in
            (match reply_error r with Some e => Err e | None => Ok tt end, w, [("hmset", negb (is_error r))])
        | Err e => (Err e, w, [("marshal_multiple", false)])
        | Panic => (Panic, w, [])
        | NoFuel => (NoFuel, w, [])
        end
    end
  else
    match marshal_items items with
    | Ok l =>
        let (ok, w) := exec_all now ((λ fs, Set_ (Key c fs.1) fs.2 (expire_of expire)) <$> l) w in
        ((if ok then Ok tt else Err EConnection), w, [("pipeline_set", ok)])
    | Err e => (Err e, w, [("marshal_multiple", false)])
    | Panic => (Panic, w, [])
    | NoFuel => (NoFuel, w, [])
    end.

Definition Exists_ now c (field : string) w : res cache_error bool * W * metrics :=
  if negb (rc c) then (Err ENoClient, w, [("exists", false)])
  else
    let (r, w) := exec now (if useHash c then HExists (Key c field) field else Exists (Key c field)) w in
    (match reply_error r with Some e => Err e | None => Ok (match r with RInt n => (0 <? n)%Z | _ => false end) end, w,
     [(if useHash c then "hexists" else "exists", negb (is_error r))]).

Definition TTL now c (field : string) w : res cache_error Z * W * metrics :=
  if negb (rc c) then (Err ENoClient, w, [("ttl", false)])
  else
    let (r, w) := exec now (TTL_ (Key c field)) w in
    (match reply_error r with Some e => Err e | None => Ok (match r with RInt n => n | _ => 0%Z end) end, w, [("ttl", negb (is_error r))]).

Definition Expire now c (field : string) (expiration : Z) w : res cache_error () * W * metrics :=
  if negb (rc c) then (Err ENoClient, w, [("expire", false)])
  else
    let (r, w) := exec now (Expire_ (Key c field) expiration) w in
    (match reply_error r with Some e => Err e | None => Ok tt end, w, [("expire", negb (is_error r))]).
End Cache.

(** ** Facts *)

Lemma live_lookup now (d : keys) k : live now d !! k = e ← d !! k; match e_expires e with Some t => if (now <? t)%Z then Some e else None | None => Some e end.
Proof.
  unfold live. rewrite map_lookup_filter. destruct (d !! k) as [e|]; [|done]. cbn [mbind option_bind].
  destruct (e_expires e) as [t|] eqn:He; [|rewrite option_guard_True; [done|by cbn; rewrite He]].
  destruct (now <? t)%Z eqn:Ht; [rewrite option_guard_True|rewrite option_guard_False]; try done; cbn; rewrite He, Ht; done.
Qed.

Lemma live_later now now' (d : keys) k : (now ≤ now')%Z → live now' (live now d) !! k = live now' d !! k.
Proof.
  intros Hn. rewrite !live_lookup. destruct (d !! k) as [e|]; [|done]. cbn [mbind option_bind].
  destruct (e_expires e) as [t|] eqn:He; cbn [mbind option_bind]; [|by rewrite He].
  destruct (Z.ltb_spec now t); cbn [mbind option_bind]; [by rewrite He|]. destruct (Z.ltb_spec now' t); [lia|done].
Qed.

(** An update of one key is seen there and nowhere else. *)
Lemma live_same now k e (d' : keys) : d' !! k = Some e → (∀ t, e_expires e = Some t → (now < t)%Z) → live now d' !! k = Some e.
Proof.
  intros Hk He. rewrite live_lookup, Hk. cbn. destruct (e_expires e) as [t|]; [|done]. specialize (He t eq_refl).
  by rewrite (proj2 (Z.ltb_lt now t)).
Qed.

Lemma live_other now k (d d' : keys) : d' !! k = d !! k → live now d' !! k = live now d !! k.
Proof. intros Hk. by rewrite !live_lookup, Hk. Qed.

Section Facts.
Context {W T : Type} `{Redis W} `{Codec T}.
Implicit Types (w : W) (c : Cache) (now : Z) (d : keys).

Lemma exec_cases now cmd w : let (r, w') := exec now cmd w in
  (r = RFail ∧ (view w' = view w ∨ view w' = (sem now cmd (view w)).2)) ∨ (r, view w') = sem now cmd (view w).
Proof.
  pose proof (exec_ok now cmd w) as Ho. pose proof (exec_fail now cmd w) as Hf. destruct (exec now cmd w) as [r w']. cbn [fst snd] in *.
  destruct (decide (r = RFail)) as [->|Hr]; [left; split; [done|by apply Hf]|right]. destruct (Ho Hr) as [-> ->]. by destruct (sem _ _ _).
Qed.

(** What the keys say of a field. *)
Definition held now c (field : string) (d : keys) : res cache_error (option T) :=
  match (sem now (lookup_field c field) d).1 with
  | RStr s => match unmarshal s with Some x => Ok (Some x) | None => Err EUnmarshal end
  | RNil => Ok None
  | RWrong => Err EWrongType
  | _ => Err EConnection
  end.

Lemma CacheGet_held now c field w : rc c = true →
  (CacheGet now c field w).1.1 = held now c field (view w) ∨ (CacheGet now c field w).1.1 = Err EConnection.
Proof.
  intros Hc. unfold CacheGet, get_with, held. rewrite Hc. cbn [negb]. pose proof (exec_cases now (lookup_field c field) w) as He.
  destruct (exec now (lookup_field c field) w) as [r w']. destruct He as [[-> _]|He]; [by right|]. rewrite <- He. cbn [fst].
  destruct r; try by left. destruct (unmarshal s); by left.
Qed.

Lemma held_live now c field d d' : live now d !! Key c field = live now d' !! Key c field → held now c field d = held now c field d'.
Proof. intros Hl. unfold held, lookup_field. destruct (useHash c); cbn [sem fst]; by rewrite Hl. Qed.

Lemma Key_inj c f f' : Key c f = Key c f' → f = f'.
Proof.
  unfold Key. destruct (useHash c); [done|]. destruct (String.eqb (key c) ""); [done|]. intros Hk.
  by apply (inj (String.append (key c))), (inj (String.append ":")) in Hk.
Qed.

(** Replacing what a key of the cache holds leaves the other fields alone. *)
Lemma held_other now now' c f f' d d' : (now ≤ now')%Z → f' ≠ f → (∀ k, k ≠ Key c f → d' !! k = live now d !! k) →
  held now' c f' d' = held now' c f' d.
Proof.
  intros Hn Hf Hd. apply held_live. assert (Key c f' ≠ Key c f) as Hk by (intros He; by apply Key_inj in He).
  rewrite <- (live_later now now' d) by done. apply live_other. by apply Hd.
Qed.

(** One successful write of a text for a field. *)
Definition write_field c (f s : string) (ttl : Z) : command := if useHash c then HSet (Key c f) f s else Set_ (Key c f) s ttl.

Definition alive (now now' ttl : Z) : bool := (ttl <=? 0)%Z || (now' <? now + in_milliseconds ttl)%Z.

Lemma put_hash_lookup k h d : put_hash k h d !! k = if decide (h = ∅) then None else Some (mkEntry (VHash h) (d !! k ≫= e_expires)).
Proof. unfold put_hash. case_decide; [by rewrite lookup_delete_eq|by rewrite lookup_insert_eq]. Qed.

Lemma put_hash_other k h d k' : k' ≠ k → put_hash k h d !! k' = d !! k'.
Proof. intros Hk. unfold put_hash. case_decide; [by rewrite lookup_delete_ne|by rewrite lookup_insert_ne]. Qed.

Lemma write_other now now' c f s ttl d r d' f' : (now ≤ now')%Z → f' ≠ f → sem now (write_field c f s ttl) d = (r, d') →
  held now' c f' d' = held now' c f' d.
Proof.
  intros Hn Hf Hs. apply (held_other now now' c f); [done|done|]. intros k Hk. revert Hs. unfold write_field. destruct (useHash c); cbn [sem].
  - destruct (as_hash _) as [h|]; intros [= _ <-]; [by apply put_hash_other|done].
  - intros [= _ <-]. by rewrite lookup_insert_ne.
Qed.

Lemma write_key now now' c f x s ttl d r d' : (now ≤ now')%Z → useHash c = false → marshal x = Some s →
  sem now (write_field c f s ttl) d = (r, d') → held now' c f d' = Ok (if alive now now' ttl then Some x else None).
Proof.
  intros Hn Hh Hm. unfold write_field, held, lookup_field. rewrite Hh. cbn [sem]. intros [= _ <-].
  rewrite live_lookup, lookup_insert_eq. cbn [mbind option_bind e_expires]. unfold alive.
  destruct (Z.ltb_spec 0 ttl), (Z.leb_spec ttl 0); try lia; cbn [orb].
  - destruct (now' <? now + in_milliseconds ttl)%Z; cbn [fst e_value]; [by rewrite (marshal_back x s Hm)|done].
  - cbn [fst e_value]. by rewrite (marshal_back x s Hm).
Qed.

Lemma write_hash now now' c f x s ttl d r d' : (now ≤ now')%Z → useHash c = true → marshal x = Some s → live now d !! f = None →
  sem now (write_field c f s ttl) d = (r, d') → held now' c f d' = Ok (Some x).
Proof.
  intros Hn Hh Hm Hd. unfold write_field, held, lookup_field, Key. rewrite Hh. cbn [sem]. rewrite Hd. cbn [as_hash]. intros [= _ <-].
  rewrite live_lookup, put_hash_lookup, decide_False, Hd by apply insert_non_empty.
  cbn. rewrite lookup_insert_eq. cbn. by rewrite (marshal_back x s Hm).
Qed.

(** What a cache gives back.  After a successful [Set] of a field, [Get] of
    it answers the value while its time lasts and a miss from then on, of every
    other field what it would have answered before, or reports that the
    connection failed.  A cache over hashes answers the value for ever, whatever
    expiration it was given, unless the field had a hash before. *)
Theorem cache_returns_set now now' c (f : string) (x : T) (expire : list Z) w w' m :
  (now ≤ now')%Z → CacheSet now c f x expire w = (Ok tt, w', m) →
  (useHash c = false → held now' c f (view w') = Ok (if alive now now' (expire_of expire) then Some x else None)) ∧
  (useHash c = true → live now (view w) !! f = None → held now' c f (view w') = Ok (Some x)) ∧
  (∀ f', f' ≠ f → held now' c f' (view w') = held now' c f' (view w)) ∧
  (∀ f', (CacheGet now' c f' w').1.1 = held now' c f' (view w') ∨ (CacheGet now' c f' w').1.1 = Err EConnection).
Proof.
  intros Hn. unfold CacheSet, set_with. destruct (rc c) eqn:Hc; [|done]. cbn [negb]. destruct (marshal x) as [s|] eqn:Hm; [|done].
  fold (write_field c f s (expire_of expire)). pose proof (exec_cases now (write_field c f s (expire_of expire)) w) as He.
  destruct (exec _ _ _) as [r w1]. intros [= Hr <- _]. destruct He as [[-> _]|He]; [done|]. symmetry in He. split_and!.
  - intros Hh. by apply (write_key now now' c f x s (expire_of expire) (view w) r).
  - intros Hh Hd. by apply (write_hash now now' c f x s (expire_of expire) (view w) r).
  - intros f' Hf. by apply (write_other now now' c f s (expire_of expire) (view w) r).
  - intros f'. by apply CacheGet_held.
Qed.

(** *** Several items *)

Definition texts_of (items : list (string * T)) (l : list (string * string)) : Prop :=
  Forall2 (λ fx fs, fx.1 = fs.1 ∧ marshal fx.2 = Some fs.2) items l.

Lemma marshal_items_spec items l : marshal_items items = Ok l → texts_of items l.
Proof.
  revert l. induction items as [|[f x] items IH]; intros l; cbn; [intros [= <-]; constructor|].
  destruct (marshal x) as [s|] eqn:Hm; [|done]. destruct (marshal_items items) as [l'| | |]; try done. intros [= <-].
  constructor; [done|]. by apply IH.
Qed.

Lemma exec_all_spec now now' c ttl items l w w' : (now ≤ now')%Z → useHash c = false → texts_of items l → NoDup items.*1 →
  exec_all now ((λ fs, Set_ (Key c fs.1) fs.2 ttl) <$> l) w = (true, w') →
  (∀ f x, (f, x) ∈ items → held now' c f (view w') = Ok (if alive now now' ttl then Some x else None)) ∧
  (∀ f, f ∉ items.*1 → held now' c f (view w') = held now' c f (view w)).
Proof.
  intros Hn Hh Ht. revert w. induction Ht as [|[f x] [f1 s] items l [Hf Hm] Ht IH]; intros w Hnd; cbn [fmap list_fmap exec_all fst snd].
  - intros [= <-]. split; [by intros ? ? ?%not_elem_of_nil|done].
  - cbn in Hf, Hm. subst f1. apply list.NoDup_cons in Hnd as [Hni Hnd]. cbn in Hni.
    assert (Set_ (Key c f) s ttl = write_field c f s ttl) as -> by (unfold write_field; by rewrite Hh).
    pose proof (exec_cases now (write_field c f s ttl) w) as He. destruct (exec now (write_field c f s ttl) w) as [r w1].
    destruct (exec_all now _ w1) as [ok w2] eqn:Hall. intros [= Hok <-].
    destruct He as [[-> _]|He]; [done|]. symmetry in He.
    assert (ok = true) as -> by (by destruct (reply_error r)). destruct (IH w1 Hnd Hall) as [H1 H2]. split.
    + intros f' x' [[= -> ->]|Hin]%elem_of_cons; [|by apply H1]. rewrite (H2 f Hni). by apply (write_key now now' c f x s ttl (view w) r).
    + intros f' Hf'. apply not_elem_of_cons in Hf' as [Hf1 Hf2]. cbn in Hf1. rewrite (H2 f' Hf2).
      by apply (write_other now now' c f s ttl (view w) r).
Qed.

Definition parse (o : option string) : option T := match o with Some s => unmarshal s | None => None end.

Lemma collect_lookup (fields : list string) (g : string → option string) f :
  collect fields (g <$> fields) !! f = if decide (f ∈ fields) then parse (g f) else None.
Proof.
  unfold collect. assert (∀ m : gmap string T, foldl collect_step m (zip fields (g <$> fields)) !! f =
    if decide (f ∈ fields) then match parse (g f) with Some x => Some x | None => m !! f end else m !! f) as Hg.
  { induction fields as [|f1 fields IH]; intros m; [done|]. cbn [zip_with fmap list_fmap foldl fst snd]. rewrite IH.
    assert (collect_step m (f1, g f1) = match parse (g f1) with Some x => <[f1 := x]> m | None => m end) as ->.
    { unfold collect_step. cbn [fst snd]. destruct (g f1) as [s|]; [|done]. cbn [parse]. destruct (String.eqb_spec s "") as [->|]; [|done]. by rewrite unmarshal_empty. }
    destruct (decide (f = f1)) as [->|Hne].
    - rewrite (decide_True (P := f1 ∈ f1 :: fields)) by (by left). destruct (parse (g f1)) as [x|]; [|by case_decide].
      rewrite lookup_insert_eq. by case_decide.
    - destruct (decide (f ∈ fields)) as [Hin|Hin]; [rewrite decide_True by (by right)|rewrite decide_False by (by rewrite not_elem_of_cons)];
        (destruct (parse (g f1)); [by rewrite lookup_insert_ne|done]). }
  rewrite Hg. case_decide; [|done]. by destruct (parse (g f)).
Qed.

(** What is found for a field, whatever the reason that nothing is. *)
Definition found (r : res cache_error (option T)) : option T := match r with Ok o => o | _ => None end.

(** [GetMultiple] of keys finds what [Get] of each finds. *)
Lemma GetMultiple_keys now c fields w : rc c = true → useHash c = false → fields ≠ [] →
  (∃ m, (GetMultiple now c fields w).1.1 = Ok m ∧ ∀ f, m !! f = if decide (f ∈ fields) then found (held now c f (view w)) else None) ∨
  (GetMultiple now c fields w).1.1 = Err EConnection.
Proof.
  intros Hc Hh Hf. unfold GetMultiple. rewrite Hc, Hh. cbn [negb]. pose proof (exec_cases now (MGet (Key c <$> fields)) w) as He.
  destruct (exec now _ w) as [r w']. destruct He as [[-> _]|He]; [by right|]. destruct fields as [|f0 fields]; [done|].
  change (Key c <$> f0 :: fields) with (Key c f0 :: (Key c <$> fields)) in He. cbn [sem] in He. injection He as Hr _. left. subst r. cbn [fst].
  set (g k := e ← live now (view w) !! k; match e_value e with VString s => Some s | _ => None end).
  change (Key c f0 :: (Key c <$> fields)) with (Key c <$> f0 :: fields).
  eexists. split; [done|]. intros f. rewrite <- list_fmap_compose. change (collect (f0 :: fields) ((λ x, (g ∘ Key c) x) <$> f0 :: fields) !! f = if decide (f ∈ f0 :: fields) then found (held now c f (view w)) else None).
  rewrite collect_lookup. case_decide; [|done]. unfold held, lookup_field, g. rewrite Hh. cbn [sem fst compose].
  destruct (live now (view w) !! Key c f) as [e|]; cbn [mbind option_bind fst]; [|done]. destruct (e_value e) as [s|h|z]; cbn [mbind option_bind fst]; [|done..].
  cbn [parse found]. by destruct (unmarshal s).
Qed.

(** Several items at once.  After a successful [SetMultiple] of a cache over
    keys, [Get] of each item answers it while its time lasts and other fields
    are as before; and [GetMultiple] of any fields answers exactly what [Get] of
    each would, or that the connection failed. *)
Theorem cache_returns_items now now' c (items : list (string * T)) (expire : list Z) w w' m (fields : list string) :
  (now ≤ now')%Z → useHash c = false → NoDup items.*1 → fields ≠ [] → SetMultiple now c items expire w = (Ok tt, w', m) →
  (∀ f x, (f, x) ∈ items → held now' c f (view w') = Ok (if alive now now' (expire_of expire) then Some x else None)) ∧
  (∀ f, f ∉ items.*1 → held now' c f (view w') = held now' c f (view w)) ∧
  ((∃ r, (GetMultiple now' c fields w').1.1 = Ok r ∧ ∀ f, r !! f = if decide (f ∈ fields) then found (held now' c f (view w')) else None) ∨
   (GetMultiple now' c fields w').1.1 = Err EConnection).
Proof.
  intros Hn Hh Hnd Hf. unfold SetMultiple. destruct (rc c) eqn:Hc; [|done]. rewrite Hh. cbn [negb].
  destruct (marshal_items items) as [l| | |] eqn:Hm; [|done..]. apply marshal_items_spec in Hm.
  destruct (exec_all now _ w) as [ok w1] eqn:Hall. destruct ok; [|done]. intros [= <- _].
  destruct (exec_all_spec now now' c (expire_of expire) items l w w1 Hn Hh Hm Hnd Hall) as [H1 H2]. split_and!; [done..|].
  by apply GetMultiple_keys.
Qed.

(** *** Items in a hash *)

Lemma texts_lookup items l f : texts_of items l → NoDup items.*1 →
  parse ((list_to_map (rev l) : gmap string string) !! f) = (list_to_map items : gmap string T) !! f.
Proof.
  intros Ht Hnd. assert (l.*1 = items.*1) as Hfst.
  { clear Hnd. induction Ht as [|? ? ? ? [? ?] _ IH]; [done|]. cbn. congruence. }
  assert ((list_to_map (rev l) : gmap string string) = list_to_map l) as ->.
  { symmetry. apply list_to_map_proper; [by rewrite Hfst|]. apply Permutation_rev. }
  clear Hfst Hnd. induction Ht as [|[f1 x] [f2 s] items l [Hf Hm] _ IH]; [done|]. cbn in Hf, Hm. subst f2. cbn [list_to_map foldr uncurry fst snd].
  destruct (decide (f = f1)) as [->|Hne].
  - rewrite !lookup_insert_eq. cbn. by apply marshal_back.
  - rewrite !lookup_insert_ne by done. exact IH.
Qed.

(** Items put into a hash are lost.  [SetMultiple] of a cache over hashes puts
    all items into the hash named by the field it meets first; afterwards [Get]
    answers that item only and a miss for every other, and [GetMultiple] finds
    all or nothing as its first field is that one or not. *)
Theorem hash_items_lost now now' c (f0 : string) (x0 : T) (items : list (string * T)) w w' m (fields : list string) :
  (now ≤ now')%Z → useHash c = true → NoDup (f0 :: items.*1) → f0 ≠ "" → (∀ f, f ∈ f0 :: items.*1 → live now (view w) !! f = None) →
  SetMultiple now c ((f0, x0) :: items) [] w = (Ok tt, w', m) →
  held now' c f0 (view w') = Ok (Some x0) ∧
  (∀ f x, (f, x) ∈ items → held now' c f (view w') = Ok None) ∧
  (∀ f r, f ∈ f0 :: items.*1 → (GetMultiple now' c (f :: fields) w').1.1 = Ok r →
    ∀ g, r !! g = if decide (f = f0 ∧ g ∈ f :: fields) then (list_to_map ((f0, x0) :: items) : gmap string T) !! g else None).
Proof.
  intros Hn Hh Hnd Hf0 Hfree. unfold SetMultiple. destruct (rc c) eqn:Hc; [|done]. rewrite Hh. cbn [negb].
  destruct (marshal_items ((f0, x0) :: items)) as [l| | |] eqn:Hm; [|done..]. apply marshal_items_spec in Hm.
  assert (∀ f, Key c f = f) as HK by (intros f; unfold Key; by rewrite Hh).
  cbn [fmap list_fmap fst List.find default]. rewrite HK, (proj2 (String.eqb_neq _ _) Hf0). cbn [negb default from_option id].
  pose proof (exec_cases now (HMSet f0 l) w) as He. destruct (exec now (HMSet f0 l) w) as [r0 w1]. intros [= Hr <- _].
  destruct He as [[-> _]|He]; [done|].
  assert (view w1 = put_hash f0 (list_to_map (rev l)) (live now (view w))) as Hv.
  { destruct l as [|p l]; [by inversion Hm|]. cbn [sem] in He. rewrite (Hfree f0) in He by (by left). cbn [as_hash] in He. injection He as _ ->.
    by rewrite (right_id_L ∅ (∪)). }
  assert (∀ f, f ∈ f0 :: items.*1 → live now' (view w1) !! f = if decide (f = f0) then Some (mkEntry (VHash (list_to_map (rev l))) None) else None) as Hlive.
  { intros f Hf. rewrite live_lookup, Hv. case_decide as Hff.
    - subst f. rewrite put_hash_lookup, (Hfree f0) by (by left). rewrite decide_False; [done|].
      intros He0. pose proof (texts_lookup _ _ f0 Hm Hnd) as Ht. rewrite He0 in Ht. cbn [list_to_map foldr uncurry fst snd] in Ht.
      rewrite lookup_insert_eq in Ht. by rewrite lookup_empty in Ht.
    - rewrite put_hash_other by done. by rewrite (Hfree f Hf). }
  assert (∀ f, held now' c f (view w1) = match as_hash (live now' (view w1) !! f) with None => Err EWrongType
    | Some h => match h !! f with Some s => match unmarshal s with Some x => Ok (Some x) | None => Err EUnmarshal end | None => Ok None end end) as Hheld.
  { intros f. unfold held, lookup_field. rewrite Hh, HK. cbn [sem fst]. destruct (as_hash _) as [h|]; [|done]. by destruct (h !! f). }
  split_and!.
  - rewrite Hheld, (Hlive f0), decide_True by (done || by left). cbn [as_hash e_value]. pose proof (texts_lookup _ _ f0 Hm Hnd) as Ht.
    cbn [list_to_map foldr uncurry fst snd] in Ht. rewrite lookup_insert_eq in Ht. destruct (_ !! f0) as [s|]; [|done]. cbn in Ht. by rewrite Ht.
  - intros f x Hin. assert (f ∈ items.*1) as Hf by (apply list_elem_of_fmap; by exists (f, x)).
    rewrite Hheld, (Hlive f), decide_False; [done| |by right]. intros ->. by apply list.NoDup_cons in Hnd as [? _].
  - intros f r Hf Hr' g. revert Hr'. unfold GetMultiple. rewrite Hc, Hh, HK. cbn [negb].
    pose proof (exec_cases now' (HMGet f (f :: fields)) w1) as He'. destruct (exec now' _ w1) as [r1 w2].
    destruct He' as [[-> _]|He']; [done|]. cbn [sem] in He'. rewrite (Hlive f Hf) in He'. apply (f_equal fst) in He'. cbn [fst] in He'. subst r1. cbn [fst].
    case_decide as Hff; cbn [as_hash e_value].
    + intros Hx. assert (∀ a b : gmap string T, @Ok cache_error _ a = Ok b → a = b) as Hinj by congruence. apply Hinj in Hx. subst r. rewrite collect_lookup. rewrite (texts_lookup _ _ g Hm Hnd). destruct (decide (g ∈ f :: fields)); [by rewrite decide_True|].
      rewrite decide_False; [done|tauto].
    + intros Hx. assert (∀ a b : gmap string T, @Ok cache_error _ a = Ok b → a = b) as Hinj by congruence. apply Hinj in Hx. subst r. rewrite collect_lookup, (decide_False (P := f = f0 ∧ g ∈ f :: fields)) by tauto. by case_decide.
Qed.
End Facts.

(** ** A server in memory *)

#[export, program] Instance memory_redis : Redis keys := { view d := d; exec := sem }.
Next Obligation. done. Qed.
Next Obligation. tauto. Qed.

(** Texts in quotes. *)
#[export, program] Instance text_codec : Codec string := {
  marshal s := Some (String "'"%char s); unmarshal s := match s with String _ s' => Some s' | EmptyString => None end }.
Next Obligation. intros x s [= <-]. done. Qed.
Next Obligation. done. Qed.

Definition users : Cache := NewCache "user" [].
Definition hashed : Cache := NewCache "user" [true].
Definition two_users : list (string * string) := [("1", "Ann"); ("2", "Bob")].

Lemma two_users_nodup : NoDup two_users.*1.
Proof. apply (bool_decide_unpack _). by vm_compute. Qed.

Lemma cache_returns_set_witness : ∃ w, held 15000000 users "1" w = Ok (Some "Ann") ∧ held 20000000 users "1" w = Ok (@None string).
Proof.
  pose (w := (CacheSet 10000000 users "1" "Ann" [10000000%Z] (∅ : keys)).1.2). exists w.
  pose proof (λ now H, proj1 (cache_returns_set 10000000 now users "1" "Ann" [10000000%Z] (∅ : keys) w [("set", true)] H eq_refl) eq_refl) as H.
  split; [exact (H 15000000%Z ltac:(lia))|exact (H 20000000%Z ltac:(lia))].
Defined.

Lemma cache_returns_items_witness : ∃ r : gmap string string,
  (GetMultiple 11 users ["2"; "3"] (SetMultiple 10 users two_users [] (∅ : keys)).1.2).1.1 = Ok r ∧ r !! "2" = Some "Bob" ∧ r !! "3" = None.
Proof.
  destruct (cache_returns_items 10 11 users two_users [] (∅ : keys) (SetMultiple 10 users two_users [] (∅ : keys)).1.2 [("pipeline_set", true)] ["2"; "3"])
    as (H1 & _ & [(r & Hr & Hl)|H3]); [lia|done|exact two_users_nodup|done|by vm_compute| |by vm_compute in H3].
  exists r. split; [done|]. rewrite !Hl. split; by vm_compute.
Defined.

Lemma hash_items_lost_witness : held 11 hashed "2" (SetMultiple 10 hashed two_users [] (∅ : keys)).1.2 = Ok (@None string).
Proof.
  refine (proj1 (proj2 (hash_items_lost 10 11 hashed "1" "Ann" [("2", "Bob")] (∅ : keys) _ [("hmset", true)] [] _ _ _ _ _ _)) "2" "Bob" _);
    [lia|done|exact two_users_nodup|done|by intros f _|by vm_compute|by left].
Defined.

(** Caches over hashes share the keys of the server whatever they are called. *)
Example hashes_share_keys : Key (NewCache "user" [true]) "1" = Key (NewCache "order" [true]) "1" ∧
  Key (NewCache "a" []) "b:c" = Key (NewCache "a:b" []) "c".
Proof. done. Qed.
(** Without fields the look-up of many panics or fails. *)
Example no_fields : (GetMultiple (T:=string) 0 hashed [] (∅ : keys)).1.1 = Panic ∧ (GetMultiple (T:=string) 0 users [] (∅ : keys)).1.1 = Err EWrongType.
Proof. done. Qed.
