(* ===== verification/SnapshotText.v ===== *)
(** * The JSON text of a metric snapshot

    What json.Marshal makes of the Snapshot of src/extension/metrics/types.go and
    what json.Unmarshal reads of it, as src/extension/metrics/redis_storage.go
    stores it: through the JSON texts of [Json], with the labels in the order of
    their names and left out when there are none.  The text of a time, RFC 3339
    with its nanoseconds, is the class [TimeText]. *)

From stdpp Require Import base tactics option list gmap strings numbers pretty sorting.
From Stdlib Require Import ZArith Ascii Lia.
From S2P Require Import Prelude Lexer Base64 GoStrings Json MetricsStore.

Open Scope string_scope.

(** Characters that stand for themselves in a JSON string. *)
Definition clear_byte (c : ascii) : bool := is_ascii c && html_safe c.

(** [MarshalJSON] of a time without its quotes, which fails for some years, and
    [UnmarshalJSON]. *)
Class TimeText := {
  time_text : Z → option string;
  parse_time : string → option Z;
  time_text_clear t x : time_text t = Some x → str_all clear_byte x = true;
  time_text_back t x : time_text t = Some x → parse_time x = Some t }.

(** The zero value of a time: the first second of the year 1. *)
Definition year_one : Z := -62135596800 * second.
Definition zero_snapshot : Snapshot := mkSnapshot "" "" 0 None year_one.

Section Texts.
Context `{TimeText}.

(** A map in the order of its keys. *)
Definition labels_json (m : gmap string string) : json := JObj ((λ k, (k, JStr (default "" (m !! k)))) <$> merge_sort String.le (map_to_list m).*1).
(** The member for the labels, which is left out for a nil or an empty map. *)
Definition labels_member (l : option (gmap string string)) : list (string * json) :=
  match l with None => [] | Some m => if decide (m = ∅) then [] else [("labels", labels_json m)] end.
Definition snapshot_json (s : Snapshot) (x : string) : json :=
  JObj ([("extension_name", JStr (ExtensionName s)); ("metric_type", JStr (MetricType s)); ("value", JNum (pretty (Value s)))] ++
    labels_member (Labels s) ++ [("timestamp", JStr x)])%list.
Definition marshal_snapshot (s : Snapshot) : option string := x ← time_text (Timestamp s); Some (encode (snapshot_json s x)).

(** A value read into a map: null makes it nil, and a member that is null an empty text. *)
Definition set_label (acc : option (gmap string string)) (kv : string * json) : option (gmap string string) :=
  m ← acc; match kv.2 with JStr v => Some (<[kv.1 := v]> m) | JNull => Some (<[kv.1 := ""]> m) | _ => None end.
Definition set_labels (j : json) (s : Snapshot) : option Snapshot :=
  let with_labels l := mkSnapshot (ExtensionName s) (MetricType s) (Value s) l (Timestamp s) in
  match j with
  | JObj l => m ← foldl set_label (Some (default ∅ (Labels s))) l; Some (with_labels (Some m))
  | JNull => Some (with_labels None)
  | _ => None
  end.
Definition set_time (j : json) (s : Snapshot) : option Snapshot :=
  match j with
  | JStr x => t ← parse_time x; Some (mkSnapshot (ExtensionName s) (MetricType s) (Value s) (Labels s) t)
  | JNull => Some s
  | _ => None
  end.
Definition snapshot_fields : list (string * (json → Snapshot → option Snapshot)) :=
  [("extension_name", set_string (λ x s, mkSnapshot x (MetricType s) (Value s) (Labels s) (Timestamp s)));
   ("metric_type", set_string (λ x s, mkSnapshot (ExtensionName s) x (Value s) (Labels s) (Timestamp s)));
   ("value", set_int64 (λ x s, mkSnapshot (ExtensionName s) (MetricType s) x (Labels s) (Timestamp s)));
   ("labels", set_labels); ("timestamp", set_time)].
(** [json.Unmarshal] into a new snapshot; [None] is an error. *)
Definition unmarshal_snapshot (text : string) : option Snapshot :=
  match decode text with
  | Some (JObj l) => decode_struct snapshot_fields l zero_snapshot
  | Some JNull => Some zero_snapshot
  | _ => None
  end.

(** ** What comes back *)

(** An empty map of labels comes back as nil. *)
Definition canonical (s : Snapshot) : Snapshot :=
  mkSnapshot (ExtensionName s) (MetricType s) (Value s) (l ← Labels s; if decide (l = ∅) then None else Some l) (Timestamp s).

(** Texts that JSON keeps as they are, and a value of 64 bits. *)
Definition clean_labels (m : gmap string string) : Prop := map_Forall (λ k v, valid_utf8 k = true ∧ valid_utf8 v = true) m.
Definition clean_snapshot (s : Snapshot) : Prop :=
  valid_utf8 (ExtensionName s) = true ∧ valid_utf8 (MetricType s) = true ∧ (min_int64 ≤ Value s ≤ max_int64)%Z ∧ clean_labels (default ∅ (Labels s)).

Lemma clear_valid x : str_all clear_byte x = true → valid_utf8 x = true.
Proof.
  unfold valid_utf8. induction x as [|c x IH]; [done|]. cbn [str_all]. intros [[Hc _]%andb_true_iff Hx]%andb_true_iff.
  cbn [String.length valid_runes take_rune]. rewrite Hc. by apply IH.
Qed.
Lemma quote_clear x : str_all clear_byte x = true → quote x = String dquote (x +:+ String dquote "").
Proof.
  intros Hx. unfold quote. do 2 f_equal. induction x as [|c x IH]; [done|]. cbn [str_all] in Hx. apply andb_true_iff in Hx as [[Ha Hs]%andb_true_iff Hx].
  cbn [String.length quote_runes]. rewrite Ha. unfold escape_byte. rewrite Hs, IH by done. done.
Qed.
Lemma clear_no_quote x : str_all clear_byte x = true → has_byte dquote x = false.
Proof.
  induction x as [|c x IH]; [done|]. cbn [str_all has_byte]. intros [[_ Hs]%andb_true_iff Hx]%andb_true_iff. rewrite (IH Hx), orb_false_r.
  destruct (Ascii.eqb_spec c dquote) as [->|]; [discriminate Hs|done].
Qed.

(** The last text in quotes before the closing brace is read off the end. *)
Fixpoint quotes (s : string) : nat := match s with EmptyString => 0 | String c s' => (if Ascii.eqb c dquote then 1 else 0) + quotes s' end.
Lemma quotes_app a b : quotes (a +:+ b) = quotes a + quotes b.
Proof. induction a as [|c a IH]; [done|]. rewrite str_app_cons. cbn [quotes]. rewrite IH. lia. Qed.
Lemma quotes_none x : has_byte dquote x = false → quotes x = 0.
Proof.
  induction x as [|c x IH]; [done|]. cbn [has_byte quotes]. intros [Hc Hx]%orb_false_iff. rewrite (IH Hx). by rewrite Hc.
Qed.
Lemma unquoted_inj x x' r r' : has_byte dquote x = false → has_byte dquote x' = false →
  x +:+ String dquote r = x' +:+ String dquote r' → x = x'.
Proof.
  revert x'. induction x as [|c x IH]; intros [|c' x'] Hx Hx' He; [done|..]; rewrite ?str_app_cons in He; cbn [has_byte] in Hx, Hx'.
  - injection He as <- _. discriminate Hx'.
  - injection He as -> _. discriminate Hx.
  - injection He as <- He. apply orb_false_iff in Hx as [_ Hx], Hx' as [_ Hx']. f_equal. by apply IH.
Qed.
Lemma last_quoted_inj p p' x x' : has_byte dquote x = false → has_byte dquote x' = false →
  p +:+ String dquote (x +:+ String dquote "}") = p' +:+ String dquote (x' +:+ String dquote "}") → x = x'.
Proof.
  intros Hx Hx'. assert (∀ y, has_byte dquote y = false → quotes (y +:+ String dquote "}") = 1) as Hone by (intros y Hy; by rewrite quotes_app, quotes_none).
  revert p'. induction p as [|c p IH]; intros [|c' p'] He; rewrite ?str_app_cons in He.
  - injection He as He. by apply unquoted_inj in He.
  - injection He as _ He. apply (f_equal quotes) in He. rewrite (Hone x Hx), quotes_app in He. cbn [quotes] in He.
    rewrite (Hone x' Hx') in He. cbn in He. lia.
  - injection He as _ He. apply (f_equal quotes) in He. rewrite (Hone x' Hx'), quotes_app in He. cbn [quotes] in He.
    rewrite (Hone x Hx) in He. cbn in He. lia.
  - injection He as _ He. by apply (IH p').
Qed.

Lemma Join_snoc sep l z : l ≠ [] → Join sep (l ++ [z])%list = Join sep l +:+ sep +:+ z.
Proof.
  induction l as [|y l IH]; [done|]. intros _. cbn [app]. rewrite !Join_cons. destruct l as [|y' l].
  - cbn [app]. rewrite Join_cons. by rewrite !str_app_nil_r.
  - cbn [app] in *. rewrite IH by done. by rewrite !str_app_assoc.
Qed.

Lemma text_end s x : str_all clear_byte x = true → ∃ p, encode (snapshot_json s x) = p +:+ String dquote (x +:+ String dquote "}").
Proof.
  intros Hx. unfold snapshot_json. rewrite app_assoc. cbn [encode]. rewrite fmap_app. cbn [fmap list_fmap fst snd encode].
  rewrite Join_snoc by done. rewrite (quote_clear x Hx). set (J := Join _ _). generalize J (quote "timestamp"). clear. intros J Q.
  exists ("{" +:+ J +:+ "," +:+ Q +:+ ":"). rewrite !str_app_assoc. rewrite !str_app_cons, !str_app_nil_l, !str_app_assoc.
  rewrite !str_app_cons, !str_app_nil_l. reflexivity.
Qed.

(** The text shows the time: snapshots with one text have one time. *)
Lemma marshal_time s s' text : marshal_snapshot s = Some text → marshal_snapshot s' = Some text → Timestamp s = Timestamp s'.
Proof.
  unfold marshal_snapshot. destruct (time_text (Timestamp s)) as [x|] eqn:Hx; [|done]. destruct (time_text (Timestamp s')) as [x'|] eqn:Hx'; [|done].
  cbn [mbind option_bind]. intros Ht%(inj Some) Ht'%(inj Some). destruct (text_end s x (time_text_clear _ _ Hx)) as [p Hp], (text_end s' x' (time_text_clear _ _ Hx')) as [p' Hp'].
  assert (x = x') as <-.
  { apply (last_quoted_inj p p'); [by apply clear_no_quote, (time_text_clear _ _ Hx)|by apply clear_no_quote, (time_text_clear _ _ Hx')|]. rewrite <- Hp, <- Hp'. congruence. }
  apply time_text_back in Hx, Hx'. congruence.
Qed.

Lemma read_labels (f : string → string) ks acc : ∃ m, foldl set_label (Some acc) ((λ k, (k, JStr (f k))) <$> ks) = Some m ∧
  ∀ k, m !! k = if decide (k ∈ ks) then Some (f k) else acc !! k.
Proof.
  revert acc. induction ks as [|k0 ks IH]; intros acc; [by exists acc|]. rewrite fmap_cons. cbn [foldl set_label mbind option_bind fst snd].
  destruct (IH (<[k0 := f k0]> acc)) as (m & Hm & Hl). exists m. split; [exact Hm|]. intros k. rewrite Hl.
  destruct (decide (k ∈ ks)) as [Hk|Hk]; [by rewrite decide_True by (by right)|]. destruct (decide (k = k0)) as [->|Hne].
  - rewrite lookup_insert_eq, decide_True; [done|by left].
  - rewrite lookup_insert_ne, decide_False; [done| |done]. by intros [?|?]%elem_of_cons.
Qed.
Lemma labels_read (m : gmap string string) (s : Snapshot) : Labels s = None →
  set_labels (labels_json m) s = Some (mkSnapshot (ExtensionName s) (MetricType s) (Value s) (Some m) (Timestamp s)).
Proof.
  intros Hs. unfold set_labels, labels_json. rewrite Hs. cbn [default from_option].
  destruct (read_labels (λ k, default "" (m !! k)) (merge_sort String.le (map_to_list m).*1) ∅) as (m' & -> & Hl). cbn [mbind option_bind].
  do 3 f_equal. apply map_eq. intros k. rewrite Hl, lookup_empty. assert (k ∈ merge_sort String.le (map_to_list m).*1 ↔ is_Some (m !! k)) as Hk.
  { rewrite merge_sort_Permutation, list_elem_of_fmap. split.
    - intros ([k' v] & -> & Hv%elem_of_map_to_list). by eexists.
    - intros [v Hv]. exists (k, v). split; [done|]. by apply elem_of_map_to_list. }
  destruct (m !! k) as [v|]; [rewrite decide_True; [done|by apply Hk]|rewrite decide_False; [done|by intros [? ?]%Hk]].
Qed.

Lemma snapshot_printable s x : clean_snapshot s → str_all clear_byte x = true →
  printable (snapshot_json s x) = true ∧ (depth (snapshot_json s x) ≤ max_depth)%nat.
Proof.
  intros (He & Ht & _ & Hl) Hx%clear_valid.
  assert (∀ m, clean_labels m → printable (labels_json m) = true ∧ (depth (labels_json m) ≤ 1)%nat) as Hlab.
  { intros m Hm. unfold labels_json. cbn [printable depth]. split.
    - apply forallb_forall. intros kv Hkv%list_elem_of_In. apply list_elem_of_fmap in Hkv as (k & -> & Hk). rewrite merge_sort_Permutation in Hk.
      apply list_elem_of_fmap in Hk as ([k' v] & -> & Hv%elem_of_map_to_list). cbn [fst snd printable]. rewrite Hv. unfold default, from_option, id. destruct (Hm k' v Hv) as [-> ->]. done.
    - apply le_n_S, max_list_le, Forall_forall. intros n. rewrite list_elem_of_fmap. intros (kv & -> & (k & -> & _)%list_elem_of_fmap). done. }
  unfold snapshot_json, labels_member. destruct (Labels s) as [m|]; [destruct (decide (m = ∅))|]; cbn [app printable forallb depth fmap list_fmap fst snd max_list];
    rewrite ?He, ?Ht, ?Hx, ?is_number_pretty; try (split; [reflexivity|change max_depth with (N.to_nat 10000); cbn; lia]).
  destruct (Hlab m Hl) as [-> Hd]. split; [reflexivity|]. change max_depth with (N.to_nat 10000). cbn [foldr]. unfold id. lia.
Qed.

(** The snapshot of a text is the one it was made of, but for an empty map of labels. *)
Theorem snapshot_text_roundtrip s text : clean_snapshot s → marshal_snapshot s = Some text → unmarshal_snapshot text = Some (canonical s).
Proof.
  intros Hs. unfold marshal_snapshot. destruct (time_text (Timestamp s)) as [x|] eqn:Hx; [|done]. cbn [mbind option_bind]. intros <-%(inj Some).
  destruct (snapshot_printable s x Hs (time_text_clear _ _ Hx)) as [Hp Hd]. unfold unmarshal_snapshot. rewrite decode_encode_json by done.
  pose proof (time_text_back _ _ Hx) as Hback. destruct Hs as (_ & _ & Hv & _). destruct s as [e ty v l t]. cbn [Value ExtensionName MetricType Labels Timestamp] in *.
  unfold snapshot_json, decode_struct. cbn [Value ExtensionName MetricType Labels Timestamp app foldl].
  change (set_member snapshot_fields (Some zero_snapshot) ("extension_name", JStr e)) with (Some (mkSnapshot e "" 0 None year_one)).
  change (set_member snapshot_fields (Some (mkSnapshot e "" 0 None year_one)) ("metric_type", JStr ty)) with (Some (mkSnapshot e ty 0 None year_one)).
  change (set_member snapshot_fields (Some (mkSnapshot e ty 0 None year_one)) ("value", JNum (pretty v))) with
    (z ← ParseInt (pretty v); Some (mkSnapshot e ty z None year_one)). rewrite ParseInt_pretty by done. cbn [mbind option_bind].
  rewrite foldl_app.
  assert (foldl (set_member snapshot_fields) (Some (mkSnapshot e ty v None year_one)) (labels_member l) =
    Some (mkSnapshot e ty v (l ← l; if decide (l = ∅) then None else Some l) year_one)) as ->.
  { unfold labels_member. destruct l as [m|]; [|done]. cbn [mbind option_bind]. destruct (decide (m = ∅)); [done|]. cbn [foldl].
    change (set_member snapshot_fields (Some (mkSnapshot e ty v None year_one)) ("labels", labels_json m)) with (set_labels (labels_json m) (mkSnapshot e ty v None year_one)).
    by rewrite labels_read. }
  cbn [foldl]. change (set_member snapshot_fields (Some ?s0) ("timestamp", JStr x)) with (set_time (JStr x) s0). cbn [set_time]. rewrite Hback. done.
Qed.
End Texts.

(** ** Times as numbers

    An instance of the class: the nanoseconds of a time as a number. *)

Lemma digits_clear s : str_all isDigit s = true → str_all clear_byte s = true.
Proof.
  assert (∀ c, isDigit c = true → clear_byte c = true) as Hc.
  { intros c. assert (forallb (λ n, implb (isDigit (ascii_of_nat n)) (clear_byte (ascii_of_nat n))) (seq 0 256) = true) as Hall by (vm_compute; reflexivity).
    rewrite forallb_forall in Hall. specialize (Hall (nat_of_ascii c)). rewrite <- list_elem_of_In, elem_of_seq, ascii_nat_embedding in Hall.
    specialize (Hall ltac:(pose proof (nat_ascii_bounded c); lia)). intros Hd. by rewrite Hd in Hall. }
  induction s as [|c s IH]; [done|]. cbn [str_all]. intros [Hd Hs]%andb_true_iff. by rewrite (Hc c Hd), IH.
Qed.
Lemma pretty_clear (z : Z) : str_all clear_byte (pretty z) = true.
Proof.
  destruct z as [|p|p]; [done|..].
  - change (pretty (Z.pos p)) with (pretty_N_go (N.pos p) ""). destruct (pretty_go_number (N.pos p) "") as (c & t & -> & _ & Hall); [lia|done|].
    by apply digits_clear.
  - change (pretty (Z.neg p)) with (String "-" (pretty_N_go (N.pos p) "")).
    destruct (pretty_go_number (N.pos p) "") as (c & t & -> & _ & Hall); [lia|done|].
    change (str_all clear_byte (String "-" (String c t))) with (str_all clear_byte (String c t)). by apply digits_clear.
Qed.

#[export, program] Instance number_times : TimeText := {
  time_text t := if (min_int64 <=? t)%Z && (t <=? max_int64)%Z then Some (pretty t) else None;
  parse_time := ParseInt }.
Next Obligation. intros t x. cbv beta. destruct (_ && _); [|done]. intros [= <-]. apply pretty_clear. Qed.
Next Obligation. intros t x. cbv beta. destruct (Z.leb_spec min_int64 t), (Z.leb_spec t max_int64); cbn [andb]; try done. intros [= <-]. by apply ParseInt_pretty. Qed.

Lemma snapshot_text_roundtrip_witness :
  (text ← marshal_snapshot (mkSnapshot "shop" "load" 7 (Some ∅) 5); unmarshal_snapshot text) = Some (mkSnapshot "shop" "load" 7 None 5) ∧
  (text ← marshal_snapshot (mkSnapshot "shop" "load" 7 (Some {["a" := "b"]}) 5); unmarshal_snapshot text) = Some (mkSnapshot "shop" "load" 7 (Some {["a" := "b"]}) 5).
Proof.
  split; [|vm_compute; reflexivity].
  destruct (marshal_snapshot (mkSnapshot "shop" "load" 7 (Some ∅) 5)) as [text|] eqn:Ht; [|discriminate Ht]. cbn [mbind option_bind].
  rewrite (snapshot_text_roundtrip (mkSnapshot "shop" "load" 7 (Some ∅) 5) text); [reflexivity| |exact Ht].
  split; [reflexivity|]. split; [reflexivity|]. split; [split; vm_compute; discriminate|]. intros k v Hk. vm_compute in Hk. discriminate Hk.
Defined.
