(* ===== verification/RedisMetrics.v ===== *)
(** * Metrics in Redis

    Models src/extension/metrics/redis_storage.go, the storage of metric
    snapshots as members of sorted sets, one for each extension and type, whose
    scores are the times in seconds.  The server is the class [Redis] of
    [RedisCache], and the text of a snapshot that of [SnapshotText]; what SCAN
    answers and the order of ranging over a map are arguments. *)

From stdpp Require Import base tactics option list gmap strings numbers sorting.
From Stdlib Require Import ZArith Ascii Lia.
From S2P Require Import Prelude Base64 GoStrings MetricsStore RedisCache SnapshotText.

Open Scope string_scope.

Record RedisStorage := NewRedisStorage { keyPrefix : string; retention : Z }.

Inductive redis_error := EMarshalling | EPipeline | EScan | ENilOptions | ENoName | EBadKey.

Definition metric_key (r : RedisStorage) (extensionName metricType : string) : string :=
  keyPrefix r +:+ ":metrics:" +:+ extensionName +:+ ":" +:+ metricType.
Definition key_of (r : RedisStorage) (s : Snapshot) : string := metric_key r (ExtensionName s) (MetricType s).

Definition buildKeyPattern (r : RedisStorage) (extensionName metricType : string) : string :=
  if negb (String.eqb extensionName "") && negb (String.eqb metricType "") then metric_key r extensionName metricType
  else if negb (String.eqb extensionName "") then keyPrefix r +:+ ":metrics:" +:+ extensionName +:+ ":*"
  else keyPrefix r +:+ ":metrics:*".

Definition parseKey (r : RedisStorage) (key : string) : res redis_error (string * string) :=
  let parts := Split ":"%char key in
  let start := S (length (Split ":"%char (keyPrefix r))) in
  if (length parts <? 4)%nat || (length parts <? start + 2)%nat then Err EBadKey
  else match parts !! start with Some e => Ok (e, Join ":" (drop (S start) parts)) | None => Panic end.

(** ** Aggregation *)

Section Aggregation.
Context `{SortSlice}.

(** Any other kind of aggregation, none included, is the latest value. *)
Definition calculateAggregation (ss : list Snapshot) (aggType : string) : Z :=
  match ss with
  | [] => 0%Z
  | s0 :: _ =>
      if String.eqb aggType "sum" then sum_values ss
      else if String.eqb aggType "avg" then Z.quot (sum_values ss) (Z.of_nat (length ss))
      else if String.eqb aggType "max" then foldl (λ mx s, if (mx <? Value s)%Z then Value s else mx) (Value s0) ss
      else if String.eqb aggType "min" then foldl (λ mn s, if (Value s <? mn)%Z then Value s else mn) (Value s0) ss
      else if String.eqb aggType "count" then Z.of_nat (length ss)
      else match list.last (sort_slice (λ x y, (Timestamp x <? Timestamp y)%Z) ss) with Some s => Value s | None => 0%Z end
  end.

(** The limit is not looked at. *)
Definition aggregateByInterval (ss : list Snapshot) (opts : QueryOptions) : res redis_error (option AggregatedMetrics) :=
  match ss with
  | [] => Ok None
  | s0 :: _ =>
      let intervalSeconds := whole_seconds (q_Interval opts) in
      if (intervalSeconds =? 0)%Z then Panic
      else
        let values :=
          (λ kv, mkPoint (kv.1 * intervalSeconds * second) (calculateAggregation kv.2 (q_Aggregation opts)))
            <$> map_to_list (intervals_of intervalSeconds ss) in
        Ok (Some (mkAgg (ExtensionName s0) (MetricType s0) (sort_slice point_before values)
          (if String.eqb (q_Aggregation opts) "" then "avg" else q_Aggregation opts)))
  end.

Definition aggregateSnapshots (ss : list Snapshot) (opts : QueryOptions) : res redis_error (option AggregatedMetrics) :=
  match ss with
  | [] => Ok None
  | first :: _ =>
      if (0 <? q_Interval opts)%Z then aggregateByInterval ss opts
      else
        let values := sort_slice point_before ((λ s, mkPoint (Timestamp s) (Value s)) <$> ss) in
        Ok (Some (mkAgg (ExtensionName first) (MetricType first) values
          (if String.eqb (q_Aggregation opts) "" then "raw" else q_Aggregation opts)))
  end.
End Aggregation.

(** ** Operations *)

Section Storage.
Context {W : Type} `{Redis W} `{TimeText} `{SortSlice}.
(** [scan now pattern w]: the keys an iteration of SCAN finds, if it does not fail. *)
Variable scan : Z → string → W → option (list string).
(** The order of ranging over the groups of a batch. *)
Variable range : gmap string (list (string * Z)) → list (string * list (string * Z)).
Implicit Types (r : RedisStorage) (w : W) (now : Z).

Definition member (s : Snapshot) : option (string * Z) := m ← marshal_snapshot s; Some (m, Unix (Timestamp s)).

(** A group and the renewed life of its key. *)
Definition put_group r (g : string * list (string * Z)) : list command := [ZAdd g.1 g.2; Expire_ g.1 (retention r)].

Definition Store now r (snapshot : option Snapshot) w : res redis_error () * W :=
  match snapshot with
  | None => (Panic, w)
  | Some s =>
      match member s with
      | None => (Err EMarshalling, w)
      | Some m => let (ok, w) := exec_all now (put_group r (key_of r s, [m])) w in ((if ok then Ok tt else Err EPipeline), w)
      end
  end.

(** The loop of [StoreBatch]. *)
Definition group_step r (d : gmap string (list (string * Z))) (snapshot : option Snapshot) : gmap string (list (string * Z)) :=
  match snapshot with
  | None => d
  | Some s => match member s with None => d | Some m => <[key_of r s := (default [] (d !! key_of r s) ++ [m])%list]> d end
  end.

Definition StoreBatch now r (snapshots : list (option Snapshot)) w : res redis_error () * W :=
  match snapshots with
  | [] => (Ok tt, w)
  | _ =>
      let groups := foldl (group_step r) ∅ snapshots in
      let (ok, w) := exec_all now (range groups ≫= put_group r) w in ((if ok then Ok tt else Err EPipeline), w)
  end.

(** The snapshots of a reply; texts that are none are left out. *)
Definition snapshots_of (rep : reply) : list Snapshot := match rep with RList l => omap (λ o, s ← o; unmarshal_snapshot s) l | _ => [] end.

Definition limit_latest (opts : QueryOptions) (ss : list Snapshot) : list Snapshot :=
  if (q_Interval opts =? 0)%Z && (0 <? q_Limit opts)%Z && (q_Limit opts <? Z.of_nat (length ss))%Z
  then take (Z.to_nat (q_Limit opts)) (sort_slice latest_first ss) else ss.

Definition key_matches (opts : QueryOptions) (p : string * string) : bool :=
  (String.eqb (q_ExtensionName opts) "" || String.eqb p.1 (q_ExtensionName opts)) &&
  (String.eqb (q_MetricType opts) "" || String.eqb p.2 (q_MetricType opts)).

(** What one key adds to the answer. *)
Definition query_key now r (opts : QueryOptions) (key : string) w : res redis_error (option AggregatedMetrics) * W :=
  match parseKey r key with
  | Ok p =>
      if key_matches opts p then
        let (rep, w) := exec now (ZRangeByScore key (Unix (q_StartTime opts)) (Unix (q_EndTime opts))) w in
        let ss := List.filter (λ s, matchesLabels s (q_Labels opts)) (snapshots_of rep) in
        (match ss with [] => Ok None | _ => aggregateSnapshots (limit_latest opts ss) opts end, w)
      else (Ok None, w)
  | Panic => (Panic, w)
  | _ => (Ok None, w)
  end.

Fixpoint query_keys now r (opts : QueryOptions) (keys : list string) w : res redis_error (list AggregatedMetrics) * W :=
  match keys with
  | [] => (Ok [], w)
  | key :: keys =>
      match query_key now r opts key w with
      | (Ok a, w) =>
          match query_keys now r opts keys w with
          | (Ok l, w) => (Ok (match a with Some a => a :: l | None => l end), w)
          | x => x
          end
      | (Err e, w) => (Err e, w)
      | (Panic, w) => (Panic, w)
      | (NoFuel, w) => (NoFuel, w)
      end
  end.

Definition Query now r (opts : option QueryOptions) w : res redis_error (list AggregatedMetrics) * W :=
  match opts with
  | None => (Err ENilOptions, w)
  | Some q =>
      match scan now (buildKeyPattern r (q_ExtensionName q) (q_MetricType q)) w with
      | None => (Err EScan, w)
      | Some keys => query_keys now r q keys w
      end
  end.

Fixpoint latest_of now (n : Z) (keys : list string) w : list Snapshot * W :=
  match keys with
  | [] => ([], w)
  | key :: keys =>
      let (rep, w) := exec now (ZRevRange key n) w in
      let (l, w) := latest_of now n keys w in (snapshots_of rep ++ l, w)%list
  end.

Definition GetLatest now r (extensionName : string) (limit : Z) w : res redis_error (list Snapshot) * W :=
  if String.eqb extensionName "" then (Err ENoName, w)
  else
    match scan now (keyPrefix r +:+ ":metrics:" +:+ extensionName +:+ ":*") w with
    | None => (Err EScan, w)
    | Some keys =>
        let (all, w) := latest_of now (if (limit <=? 0)%Z then 100 else limit)%Z keys w in
        let all := sort_slice latest_first all in
        (Ok (if (0 <? limit)%Z && (limit <? Z.of_nat (length all))%Z then take (Z.to_nat limit) all else all), w)
    end.

Definition Cleanup now r (before : Z) w : res redis_error () * W :=
  match scan now (keyPrefix r +:+ ":metrics:*") w with
  | None => (Err EScan, w)
  | Some keys =>
      let (ok, w) := exec_all now ((λ k, ZRemRangeByScore k (Unix before)) <$> keys) w in ((if ok then Ok tt else Err EPipeline), w)
  end.

(** The totals of [GetStats]; the memory the server uses is left out. *)
Fixpoint total_cards now (keys : list string) w : Z * W :=
  match keys with
  | [] => (0%Z, w)
  | k :: keys => let (rep, w) := exec now (ZCard k) w in let (n, w) := total_cards now keys w in ((match rep with RInt z => z | _ => 0 end + n)%Z, w)
  end.
Definition GetStats now r w : option (Z * nat) * W :=
  match scan now (keyPrefix r +:+ ":metrics:*") w with
  | None => (None, w)
  | Some keys => let (n, w) := total_cards now keys w in (Some (n, length keys), w)
  end.
End Storage.

(** ** Facts *)

Lemma Join_Split s : Join ":" (Split ":"%char s) = s.
Proof.
  induction s as [|c s IH]; [done|]. cbn [Split]. pose proof (Split_not_nil ":"%char s) as Hn. destruct (Ascii.eqb_spec c ":"%char) as [->|_].
  - destruct (Split ":"%char s) as [|p ps]; [done|]. change (String ":" (Join ":" (p :: ps)) = String ":" s). by rewrite IH.
  - destruct (Split ":"%char s) as [|p [|q ps]]; [done|cbn in *; by rewrite IH|].
    change (String c (Join ":" (p :: q :: ps)) = String c s). by rewrite IH.
Qed.

(** Keys are read back.  The key of a snapshot is split into its extension and
    its type exactly when the name of the extension has no colon; otherwise the
    part after the first colon goes to the type. *)
Theorem parse_metric_key (r : RedisStorage) (e t : string) :
  ∃ e0 rest, Split ":"%char e = e0 :: rest ∧ parseKey r (metric_key r e t) = Ok (e0, Join ":" (rest ++ Split ":"%char t)) ∧
    (parseKey r (metric_key r e t) = Ok (e, t) ↔ has_byte ":"%char e = false).
Proof.
  assert (Split ":"%char (metric_key r e t) = Split ":"%char (keyPrefix r) ++ "metrics" :: Split ":"%char e ++ Split ":"%char t)%list as Hs.
  { unfold metric_key. change (":metrics:" +:+ e +:+ ":" +:+ t) with (String ":" ("metrics" +:+ String ":" (e +:+ String ":" t))).
    rewrite !Split_app. done. }
  destruct (Split ":"%char e) as [|e0 rest] eqn:He; [by destruct (Split_not_nil ":"%char e)|]. exists e0, rest. split; [done|].
  assert (parseKey r (metric_key r e t) = Ok (e0, Join ":" (rest ++ Split ":"%char t))) as Hp.
  { unfold parseKey. rewrite Hs. pose proof (Split_not_nil ":"%char (keyPrefix r)) as Hn. pose proof (Split_not_nil ":"%char t) as Ht.
    assert (length (Split ":"%char (keyPrefix r)) ≠ 0) as Hl by (by destruct (Split ":"%char (keyPrefix r))).
    assert (length (Split ":"%char t) ≠ 0) as Hlt by (by destruct (Split ":"%char t)).
    set (P := Split ":"%char (keyPrefix r)) in *. rewrite length_app. cbn [length app]. rewrite length_app.
    rewrite (proj2 (Nat.ltb_ge _ 4)) by lia. rewrite (proj2 (Nat.ltb_ge _ (S (length P) + 2))) by lia. cbn [orb].
    rewrite lookup_app_r by lia. replace (S (length P) - length P) with 1 by lia. cbn [lookup list_lookup].
    f_equal. f_equal. f_equal. rewrite drop_app_ge by lia. replace (S (S (length P)) - length P) with 2 by lia. done. }
  split; [done|]. rewrite Hp. split.
  - intros [= -> _]. pose proof (Split_parts ":"%char e) as Hf. rewrite He in Hf. by inversion Hf.
  - intros Hc. rewrite (Split_plain ":"%char e Hc) in He. injection He as <- <-. cbn [app]. by rewrite Join_Split.
Qed.

Lemma rev_reverse {A} (l : list A) : rev l = reverse l.
Proof. apply rev_alt. Qed.

Section Facts.
Context {W : Type} `{Redis W} `{TimeText} `{SortSlice}.
Implicit Types (r : RedisStorage) (w : W) (now : Z) (d : keys).

Lemma exec_all_view now cs w w' : exec_all now cs w = (true, w') → view w' = foldl (λ d c, (sem now c d).2) (view w) cs.
Proof.
  revert w. induction cs as [|c cs IH]; intros w; cbn [exec_all foldl]; [by intros [= <-]|].
  pose proof (exec_cases now c w) as He. destruct (exec now c w) as [rep w1]. destruct (exec_all now cs w1) as [ok w2] eqn:Hall. intros [= Hok <-].
  destruct He as [[-> _]|He]; [done|]. assert (ok = true) as -> by (by destruct (reply_error rep)). rewrite (IH w1 Hall). by rewrite <- He.
Qed.

(** The members a log says there are. *)
Definition holds_log r (log : list Snapshot) (k : string) (z : gmap string Z) : Prop :=
  ∀ m t, z !! m = Some t ↔ ∃ s, s ∈ log ∧ key_of r s = k ∧ member s = Some (m, t).

(** Nothing expires before [until], and the sets are those of the log. *)
Record mirrors r (until : Z) (log : list Snapshot) d : Prop := {
  mi_keeps k e t : d !! k = Some e → e_expires e = Some t → (until ≤ t)%Z;
  mi_log k : ∃ z, as_zset (d !! k) = Some z ∧ holds_log r log k z }.

Lemma live_all now until r log d k : mirrors r until log d → (now < until)%Z → live now d !! k = d !! k.
Proof.
  intros [Hm _] Hn. rewrite live_lookup. destruct (d !! k) as [e|] eqn:Hk; [|done]. cbn [mbind option_bind].
  destruct (e_expires e) as [t|] eqn:He; [|done]. specialize (Hm k e t Hk He). by rewrite (proj2 (Z.ltb_lt now t)) by lia.
Qed.

Lemma put_zset_lookup k z d k' : as_zset (put_zset k z d !! k') = if decide (k' = k) then Some z else as_zset (d !! k').
Proof.
  unfold put_zset. destruct (decide (k' = k)) as [->|Hk]; (destruct (decide (z = ∅)) as [->|]); rewrite ?lookup_delete_eq, ?lookup_insert_eq, ?lookup_delete_ne, ?lookup_insert_ne by done; done.
Qed.

Lemma put_zset_expires k z d k' e t : put_zset k z d !! k' = Some e → e_expires e = Some t → ∃ e', d !! k' = Some e' ∧ e_expires e' = Some t.
Proof.
  unfold put_zset. destruct (decide (k' = k)) as [->|Hk]; destruct (decide (z = ∅)) as [->|]; rewrite ?lookup_delete_eq, ?lookup_insert_eq, ?lookup_delete_ne, ?lookup_insert_ne by done; try done.
  - intros [= <-]. cbn [e_expires]. destruct (d !! k) as [e'|]; [|done]. cbn. eauto.
  - intros Hk'. eauto.
  - intros Hk'. eauto.
Qed.

Lemma member_time s s' m t t' : member s = Some (m, t) → member s' = Some (m, t') → t = t'.
Proof.
  unfold member. destruct (marshal_snapshot s) as [x|] eqn:Hx; [|done]. destruct (marshal_snapshot s') as [x'|] eqn:Hx'; [|done].
  cbn [mbind option_bind]. intros [= -> <-] [= -> <-]. by rewrite (marshal_time s s' m Hx Hx').
Qed.

(** One group added: the snapshots [ss] of one key, with their members [ms]. *)
Lemma mirrors_group now until r log d k (ss : list Snapshot) (ms : list (string * Z)) :
  mirrors r until log d → (now < until)%Z → (until ≤ now + in_seconds (retention r))%Z → ms ≠ [] →
  Forall (λ s, key_of r s = k) ss → omap member ss = ms →
  mirrors r until (log ++ ss) (foldl (λ d c, (sem now c d).2) d (put_group r (k, ms))).
Proof.
  intros Hm Hn Hu Hms Hk Hss. pose proof (live_all now until r log d) as Hl. cbn [put_group foldl fst snd].
  destruct (mi_log _ _ _ _ Hm k) as (z & Hz & Hlog). destruct ms as [|m0 ms]; [done|]. cbn [sem].
  rewrite (Hl k Hm Hn), Hz. cbn [snd]. set (z' := list_to_map (rev (m0 :: ms)) ∪ z). set (d1 := put_zset k z' (live now d)).
  assert (holds_log r (log ++ ss) k z') as Hz'.
  { intros m t. unfold z'. rewrite lookup_union_Some_raw.
    assert (∀ x u, (list_to_map (rev (m0 :: ms)) : gmap string Z) !! x = Some u → ∃ s, s ∈ ss ∧ member s = Some (x, u)) as Hin.
    { intros x u Hx. apply elem_of_list_to_map_2 in Hx. rewrite rev_reverse, elem_of_reverse, <- Hss, list_elem_of_omap in Hx. naive_solver. }
    split.
    - intros [Hx|[_ Hx]]; [|apply Hlog in Hx as (s & ? & ? & ?); exists s; rewrite elem_of_app; tauto].
      destruct (Hin _ _ Hx) as (s & Hs & Hmem). exists s. rewrite elem_of_app. split_and!; [by right| |done].
      rewrite list.Forall_forall in Hk. by apply Hk.
    - intros (s & [Hs|Hs]%elem_of_app & Hks & Hmem).
      + destruct ((list_to_map (rev (m0 :: ms)) : gmap string Z) !! m) as [u|] eqn:Hx; [|right; split; [done|apply Hlog; eauto]].
        left. destruct (Hin _ _ Hx) as (s' & _ & Hmem'). by rewrite (member_time _ _ _ _ _ Hmem' Hmem).
      + destruct ((list_to_map (rev (m0 :: ms)) : gmap string Z) !! m) as [u|] eqn:Hx.
        * left. destruct (Hin _ _ Hx) as (s' & _ & Hmem'). by rewrite (member_time _ _ _ _ _ Hmem' Hmem).
        * exfalso. apply not_elem_of_list_to_map in Hx. apply Hx. rewrite rev_reverse, fmap_reverse, elem_of_reverse. apply list_elem_of_fmap.
          exists (m, t). split; [done|]. rewrite <- Hss. apply list_elem_of_omap. by exists s. }
  assert (mirrors r until (log ++ ss) d1) as Hd1.
  { split.
    - intros k' e t Hk' He. destruct (put_zset_expires _ _ _ _ _ _ Hk' He) as (e' & Hd & He'). rewrite (Hl k' Hm Hn) in Hd. by apply (mi_keeps _ _ _ _ Hm k' e').
    - intros k'. unfold d1. rewrite put_zset_lookup. destruct (decide (k' = k)) as [->|Hne]; [by exists z'|].
      rewrite (Hl k' Hm Hn). destruct (mi_log _ _ _ _ Hm k') as (z1 & Hz1 & Hlog1). exists z1. split; [done|]. intros m t. rewrite (Hlog1 m t).
      split; intros (s & Hs & Hks & Hmem); exists s; (split; [|done]); rewrite ?elem_of_app in *; [by left|]. destruct Hs as [Hs|Hs]; [done|].
      rewrite list.Forall_forall in Hk. destruct Hne. rewrite <- Hks. by apply Hk. }
  destruct Hd1 as [Hk1 Hl1]. assert (∀ k', live now d1 !! k' = d1 !! k') as Hlive by (intros k'; by apply (live_all now until r (log ++ ss))).
  rewrite Hlive. destruct (d1 !! k) as [e|] eqn:He; cbn [snd]; [destruct (Z.ltb_spec 0 (in_seconds (retention r))); [|lia]|]; (split; [intros k' e' t|intros k']).
  - destruct (decide (k' = k)) as [->|Hne]; [rewrite lookup_insert_eq; intros [= <-] [= <-]; lia|]. rewrite lookup_insert_ne, Hlive by done. apply Hk1.
  - destruct (decide (k' = k)) as [->|Hne]; [|rewrite lookup_insert_ne, Hlive by done; apply Hl1]. rewrite lookup_insert_eq.
    destruct (Hl1 k) as (z1 & Hz1 & Hlog1). rewrite He in Hz1. exists z1. by destruct e.
  - rewrite Hlive. apply Hk1.
  - rewrite Hlive. apply Hl1.
Qed.

Lemma mirrors_equiv r until log log' d : (∀ s, is_Some (member s) → s ∈ log ↔ s ∈ log') → mirrors r until log d → mirrors r until log' d.
Proof.
  intros Hl [Hk1 Hk2]. split; [done|]. intros k. destruct (Hk2 k) as (z & Hz & Hlog). exists z. split; [done|]. intros m t. rewrite (Hlog m t).
  split; intros (s & Hs & Hk & Hm); exists s; (split; [|done]); by apply (Hl s).
Qed.

(** The groups of a batch: under each key the members of its snapshots. *)
Definition of_key r (k : string) (ss : list (option Snapshot)) : list Snapshot :=
  omap (λ o, match o with Some s => if decide (key_of r s = k ∧ is_Some (member s)) then Some s else None | None => None end) ss.

Lemma of_key_elem r k ss s : s ∈ of_key r k ss ↔ Some s ∈ ss ∧ key_of r s = k ∧ is_Some (member s).
Proof.
  unfold of_key. rewrite list_elem_of_omap. split.
  - intros ([s'|] & Hs & Hx); [|done]. case_decide; [|done]. injection Hx as ->. tauto.
  - intros (Hs & Hk). exists (Some s). by rewrite decide_True.
Qed.

Lemma groups_lookup r ss k (d : gmap string (list (string * Z))) : default [] (foldl (group_step r) d ss !! k) = (default [] (d !! k) ++ omap member (of_key r k ss))%list.
Proof.
  revert d. induction ss as [|o ss IH]; intros d; [by rewrite app_nil_r|]. cbn [foldl]. rewrite IH. clear IH. unfold group_step. destruct o as [s|].
  - unfold of_key. cbn [omap list_omap]. destruct (member s) as [m|] eqn:Hm.
    + destruct (decide (key_of r s = k)) as [<-|Hk].
      * rewrite lookup_insert_eq. cbn [default from_option id]. rewrite decide_True by (split; [done|by eexists]). cbn [omap list_omap]. rewrite Hm.
        by rewrite <- app_assoc.
      * rewrite lookup_insert_ne by done. rewrite decide_False by tauto. done.
    + rewrite decide_False by (intros [_ [? ?]]; done). done.
  - done.
Qed.

Lemma groups_some r ss k ms : foldl (group_step r) ∅ ss !! k = Some ms → ms ≠ [] ∧ ms = omap member (of_key r k ss).
Proof.
  assert (∀ d : gmap string (list (string * Z)), map_Forall (λ _ l, l ≠ []) d → map_Forall (λ _ l, l ≠ []) (foldl (group_step r) d ss)) as Hne.
  { induction ss as [|o ss IH]; intros d Hd; [done|]. cbn [foldl]. apply IH. unfold group_step. destruct o as [s|]; [|done]. destruct (member s); [|done].
    apply map_Forall_insert_2; [|done]. by destruct (default [] _). }
  intros Hk. split; [exact (Hne ∅ (map_Forall_empty _) k ms Hk)|]. pose proof (groups_lookup r ss k ∅) as Hg. rewrite Hk, lookup_empty in Hg. exact Hg.
Qed.

Lemma mirrors_groups now until r ss gs : (now < until)%Z → (until ≤ now + in_seconds (retention r))%Z →
  (∀ g, g ∈ gs → g.2 ≠ [] ∧ g.2 = omap member (of_key r g.1 ss)) →
  ∀ log d, mirrors r until log d →
  mirrors r until (log ++ (gs ≫= λ g, of_key r g.1 ss)) (foldl (λ d c, (sem now c d).2) d (gs ≫= put_group r)).
Proof.
  intros Hn Hu. induction gs as [|[k ms] gs IH]; intros Hg log d Hm; [by rewrite app_nil_r|].
  change (((k, ms) :: gs) ≫= put_group r) with (put_group r (k, ms) ++ (gs ≫= put_group r))%list. rewrite foldl_app.
  change (((k, ms) :: gs) ≫= λ g, of_key r g.1 ss) with (of_key r k ss ++ (gs ≫= λ g, of_key r g.1 ss))%list. rewrite app_assoc.
  destruct (Hg (k, ms)) as [Hne Hms]; [by left|]. cbn [fst snd] in *. apply IH; [intros g Hin; apply Hg; by right|].
  apply mirrors_group; try done. apply list.Forall_forall. intros s Hs. by apply of_key_elem in Hs as (_ & ? & _).
Qed.

(** Removing what is old under some keys, each with a log of its own. *)
Definition tracks r (until : Z) (logs : string → list Snapshot) d : Prop :=
  (∀ k e t, d !! k = Some e → e_expires e = Some t → (until ≤ t)%Z) ∧ ∀ k, ∃ z, as_zset (d !! k) = Some z ∧ holds_log r (logs k) k z.

Definition newer (before : Z) (log : list Snapshot) : list Snapshot := filter (λ s, (Unix before < Unix (Timestamp s))%Z) log.

Lemma remove_one now until r logs before k d : (now < until)%Z → tracks r until logs d →
  tracks r until (λ k', if decide (k' = k) then newer before (logs k') else logs k') (sem now (ZRemRangeByScore k (Unix before)) d).2.
Proof.
  intros Hn [Hk1 Hk2]. assert (∀ k', live now d !! k' = d !! k') as Hl.
  { intros k'. rewrite live_lookup. destruct (d !! k') as [e|] eqn:Hk; [|done]. cbn [mbind option_bind].
    destruct (e_expires e) as [t|] eqn:He; [|done]. specialize (Hk1 k' e t Hk He). by rewrite (proj2 (Z.ltb_lt now t)) by lia. }
  cbn [sem]. rewrite Hl. destruct (Hk2 k) as (z & Hz & Hlog). rewrite Hz. cbn [snd]. split.
  - intros k' e t Hk' He. destruct (put_zset_expires _ _ _ _ _ _ Hk' He) as (e' & Hd & He'). rewrite Hl in Hd. by apply (Hk1 k' e').
  - intros k'. rewrite put_zset_lookup. destruct (decide (k' = k)) as [->|Hne]; [|rewrite Hl; apply Hk2]. eexists. split; [done|].
    intros m t. rewrite map_lookup_filter_Some, (Hlog m t). cbn [snd]. split.
    + intros [(s & Hs & Hks & Hm) Ht]. exists s. split_and!; [|done..]. apply list_elem_of_filter. split; [|done].
      unfold member in Hm. destruct (marshal_snapshot s); [|done]. cbn [mbind option_bind] in Hm. by injection Hm as _ <-.
    + intros (s & [Ht Hs]%list_elem_of_filter & Hks & Hm). split; [by exists s|].
      unfold member in Hm. destruct (marshal_snapshot s); [|done]. cbn [mbind option_bind] in Hm. by injection Hm as _ <-.
Qed.

Lemma remove_all now until r before ks : (now < until)%Z → ∀ logs d, tracks r until logs d →
  tracks r until (λ k, if decide (k ∈ ks) then newer before (logs k) else logs k)
    (foldl (λ d c, (sem now c d).2) d ((λ k, ZRemRangeByScore k (Unix before)) <$> ks)).
Proof.
  intros Hn. induction ks as [|k0 ks IH]; intros logs d Ht; cbn [fmap list_fmap foldl].
  - destruct Ht as [Hk1 Hk2]. split; [done|]. intros k. by rewrite decide_False by apply not_elem_of_nil.
  - pose proof (IH _ _ (remove_one now until r logs before k0 d Hn Ht)) as [Hk1 Hk2]. split; [done|]. intros k.
    destruct (Hk2 k) as (z & Hz & Hlog). exists z. split; [done|]. intros m t. rewrite (Hlog m t).
    assert (∀ s, s ∈ (if decide (k ∈ ks) then newer before (if decide (k = k0) then newer before (logs k) else logs k) else if decide (k = k0) then newer before (logs k) else logs k) ↔
      s ∈ (if decide (k ∈ k0 :: ks) then newer before (logs k) else logs k)) as Heq.
    { intros s. destruct (decide (k = k0)) as [->|Hne].
      - rewrite (decide_True (P := k0 ∈ k0 :: ks)) by (by left). case_decide; [|done]. unfold newer. rewrite !list_elem_of_filter. tauto.
      - destruct (decide (k ∈ ks)); [rewrite decide_True by (by right)|rewrite decide_False by (by rewrite not_elem_of_cons)]; done. }
    split; intros (s & Hs & Hx); exists s; (split; [by apply Heq|done]).
Qed.

(** *** Sequences of operations *)

Definition valid_of (o : option Snapshot) : list Snapshot :=
  match o with Some s => if decide (is_Some (member s)) then [s] else [] | None => [] end.

Definition log_step (log : list Snapshot) (o : store_op) : list Snapshot :=
  match o with
  | OStore s => log ++ valid_of s
  | OBatch ss => log ++ (ss ≫= valid_of)
  | OCleanup before => newer before log
  end.

Section Runs.
Variable scan : Z → string → W → option (list string).
Variable range : gmap string (list (string * Z)) → list (string * list (string * Z)).
Variable r : RedisStorage.
(** SCAN finds the keys with the prefix, each at least once; ranging over a map
    meets each key once. *)
Hypothesis scan_all : ∀ now w ks, scan now (keyPrefix r +:+ ":metrics:*") w = Some ks →
  ∀ k, k ∈ ks ↔ is_Some (live now (view w) !! k) ∧ HasPrefix k (keyPrefix r +:+ ":metrics:") = true.
Hypothesis range_perm : ∀ m, range m ≡ₚ map_to_list m.

Definition run_op (now : Z) (o : store_op) (w : W) : res redis_error () * W :=
  match o with
  | OStore s => Store now r s w
  | OBatch ss => StoreBatch range now r ss w
  | OCleanup before => Cleanup scan now r before w
  end.

(** Every operation, at its time, returns without an error. *)
Fixpoint run_ops (os : list (Z * store_op)) (w : W) : option W :=
  match os with
  | [] => Some w
  | (now, o) :: os => match run_op now o w with (Ok _, w) => run_ops os w | _ => None end
  end.

Lemma run_op_mirrors now until log o w w' : (now < until)%Z → (until ≤ now + in_seconds (retention r))%Z → mirrors r until log (view w) →
  run_op now o w = (Ok tt, w') → mirrors r until (log_step log o) (view w').
Proof.
  intros Hn Hu Hm. destruct o as [s|ss|before]; cbn [run_op log_step].
  - destruct s as [s|]; [|done]. cbn [Store valid_of]. destruct (member s) as [m|] eqn:Hs; [|done]. destruct (exec_all _ _ _) as [ok w1] eqn:Hall.
    destruct ok; [|done]. intros [= <-]. rewrite (exec_all_view _ _ _ _ Hall), decide_True by (by eexists).
    apply mirrors_group; try done; [by repeat constructor|]. cbn [omap list_omap]. by rewrite Hs.
  - unfold StoreBatch. destruct ss as [|o ss]; [intros [= <-]; by rewrite app_nil_r|]. destruct (exec_all _ _ _) as [ok w1] eqn:Hall.
    destruct ok; [|done]. intros [= <-]. rewrite (exec_all_view _ _ _ _ Hall). set (all := o :: ss) in *. set (g := foldl (group_step r) ∅ all) in *.
    apply (mirrors_equiv r until (log ++ (range g ≫= λ g, of_key r g.1 all))).
    + intros s Hs. rewrite !elem_of_app, !list_elem_of_bind. f_equiv. split.
      * intros ([k ms] & Hs' & _). apply of_key_elem in Hs' as (Hin & _ & Hsm). exists (Some s). split; [|done]. cbn [valid_of]. rewrite decide_True by done. by left.
      * intros ([s'|] & Hs' & Hin); cbn [valid_of] in Hs'; [|by apply not_elem_of_nil in Hs']. case_decide; [|by apply not_elem_of_nil in Hs'].
        apply list_elem_of_singleton in Hs' as ->. assert (s' ∈ of_key r (key_of r s') all) as Hof by (by apply of_key_elem).
        destruct (g !! key_of r s') as [ms|] eqn:Hg.
        -- exists (key_of r s', ms). split; [done|]. rewrite range_perm. by apply elem_of_map_to_list.
        -- exfalso. pose proof (groups_lookup r all (key_of r s') ∅) as Hl. fold g in Hl. rewrite Hg, lookup_empty in Hl.
           destruct (member s') as [m|] eqn:Hm'; [|by destruct Hs]. assert (m ∈ omap member (of_key r (key_of r s') all)) as Hx by (apply list_elem_of_omap; eauto).
           assert (omap member (of_key r (key_of r s') all) = []) as Hl' by exact (eq_sym Hl). rewrite Hl' in Hx. by apply not_elem_of_nil in Hx.
    + apply mirrors_groups; try done. intros [k ms] Hin. rewrite range_perm in Hin. apply elem_of_map_to_list in Hin. by apply (groups_some r all k ms).
  - unfold Cleanup. destruct (scan _ _ _) as [ks|] eqn:Hscan; [|done]. destruct (exec_all _ _ _) as [ok w1] eqn:Hall. destruct ok; [|done].
    intros [= <-]. rewrite (exec_all_view _ _ _ _ Hall). pose proof (scan_all _ _ _ Hscan) as Hks.
    assert (tracks r until (λ _, log) (view w)) as Ht by (split; [exact (mi_keeps _ _ _ _ Hm)|exact (mi_log _ _ _ _ Hm)]).
    apply (remove_all now until r before ks Hn) in Ht as [Hk1 Hk2]. split; [done|]. intros k. destruct (Hk2 k) as (z & Hz & Hlog).
    exists z. split; [done|]. intros m t. rewrite (Hlog m t). destruct (decide (k ∈ ks)) as [Hin|Hin]; [done|].
    split; intros (s & Hs & Hk & Hmem); exists s; (split; [|done]); [|by apply list_elem_of_filter in Hs as [_ ?]].
    exfalso. apply Hin. apply Hks. rewrite (live_all now until r log) by done. split.
    + destruct (mi_log _ _ _ _ Hm k) as (z0 & Hz0 & Hlog0). destruct (view w !! k) as [e|]; [by eexists|]. cbn in Hz0. injection Hz0 as <-.
      assert ((∅ : gmap string Z) !! m = Some t) as Hx by (apply Hlog0; by exists s). by rewrite lookup_empty in Hx.
    + rewrite <- Hk. apply HasPrefix_spec. unfold key_of, metric_key. exists (ExtensionName s +:+ ":" +:+ MetricType s). by rewrite <- str_app_assoc.
Qed.

(** C23: The sorted sets are the log.  After any operations on an empty server, none
    of which failed and all within the retention time of the first, in whole
    seconds as the client sends it, the members under every key are exactly the
    JSON texts of the snapshots of that extension and type that were stored and
    not cleaned up since, each with its time in seconds; snapshots with one text
    are there once. *)
Theorem redis_keeps_log (t0 : Z) (os : list (Z * store_op)) (w w' : W) (k : string) :
  view w = ∅ → Forall (λ o, t0 ≤ o.1 < t0 + in_seconds (retention r))%Z os → run_ops os w = Some w' →
  ∃ z, as_zset (view w' !! k) = Some z ∧ holds_log r (foldl log_step [] os.*2) k z.
Proof.
  intros Hw Hos Hrun. assert (∀ log w, mirrors r (t0 + in_seconds (retention r)) log (view w) → run_ops os w = Some w' → mirrors r (t0 + in_seconds (retention r)) (foldl log_step log os.*2) (view w')) as Hgen.
  { clear Hw Hrun. induction Hos as [|[now o] os Ho Hos IH]; intros log w0 Hm; cbn [run_ops fmap list_fmap foldl fst snd]; [by intros [= <-]|].
    cbn in Ho. destruct (run_op now o w0) as [[[]|e| |] w1] eqn:Hr; try done. apply IH. apply (run_op_mirrors now _ log o w0); [lia|lia|done|done]. }
  apply (Hgen [] w); [|done]. rewrite Hw. split; [by intros ? ? ? ?%lookup_empty_Some|]. intros k'. exists ∅. rewrite lookup_empty. split; [done|].
  intros m t. rewrite lookup_empty. split; [done|]. by intros (s & ?%not_elem_of_nil & _).
Qed.
End Runs.
End Facts.

(** ** A server in memory *)

#[export] Instance snapshot_dec : EqDecision Snapshot.
Proof. solve_decision. Defined.

Definition visit (v t : Z) : Snapshot := mkSnapshot "s" "v" v None (t * second).

(** Its text, with times as numbers. *)
Definition visit_text (v t : Z) : string := default "" (marshal_snapshot (visit v t)).

Definition memory_scan (now : Z) (pattern : string) (d : keys) : option (list string) :=
  Some (List.filter (λ k, HasPrefix k (String.substring 0 (String.length pattern - 1) pattern)) (map_to_list (live now d)).*1).

Definition app_storage : RedisStorage := NewRedisStorage "a" (1000 * second).

Lemma memory_scan_all now (d : keys) ks : memory_scan now (keyPrefix app_storage +:+ ":metrics:*") d = Some ks →
  ∀ k, k ∈ ks ↔ is_Some (live now (view d) !! k) ∧ HasPrefix k (keyPrefix app_storage +:+ ":metrics:") = true.
Proof.
  intros [= <-] k. change (view d) with d. cbn [keyPrefix app_storage]. rewrite list_elem_of_In, filter_In, <- list_elem_of_In, list_elem_of_fmap. split.
  - intros [([k' e] & -> & He) Hp]. apply elem_of_map_to_list in He. split; [by eexists|exact Hp].
  - intros [[e He] Hp]. split; [|exact Hp]. exists (k, e). split; [done|]. by apply elem_of_map_to_list.
Qed.

Definition visits_ops : list (Z * store_op) :=
  [(10, OStore (Some (visit 1 100))); (20, OBatch [Some (visit 2 200); None; Some (visit 1 100)]); (30, OCleanup (150 * second))]%Z.

Definition visits_run : option keys := run_ops memory_scan map_to_list app_storage visits_ops ∅.

Lemma redis_keeps_log_witness :
  (w ← visits_run; as_zset (w !! "a:metrics:s:v")) = Some {[visit_text 2 200 := 200%Z]} ∧
  ∃ w z, visits_run = Some w ∧ as_zset (w !! "a:metrics:s:v") = Some z ∧ holds_log app_storage (foldl log_step [] visits_ops.*2) "a:metrics:s:v" z.
Proof.
  split; [vm_compute; reflexivity|]. destruct visits_run as [w|] eqn:Hrun; [|vm_compute in Hrun; discriminate Hrun]. exists w.
  destruct (redis_keeps_log memory_scan map_to_list app_storage memory_scan_all (λ m, reflexivity _) 10 visits_ops (∅ : keys) w "a:metrics:s:v" eq_refl
    ltac:(repeat constructor; vm_compute; congruence) Hrun) as (z & Hz & Hl).
  exists z. split; [reflexivity|]. split; [exact Hz|exact Hl].
Defined.

(** Another extension's snapshots are among the latest of "s". *)
Example latest_of_another : memory_scan 0 (keyPrefix app_storage +:+ ":metrics:s:*")
    {[metric_key app_storage "s:old" "v" := mkEntry (VZSet {["first" := 100%Z]}) None]} = Some ["a:metrics:s:old:v"].
Proof. by vm_compute. Qed.
