(* ===== verification/Utils.v ===== *)
(** * Identifiers, addresses and lists of strings

    Models src/utils (nanoid, uuid, strings.go, location.go, validate.go) and the
    checks of src/validation/validator that go by text.  Random bytes are an
    argument; identifiers that the package gonanoid makes are not modelled. *)

From stdpp Require Import base tactics option list gmap strings numbers sets pretty.
From Stdlib Require Import ZArith Ascii Lia.
From S2P Require Import Prelude Lexer Float64 Base64 GoStrings.

Open Scope string_scope.

(** ** Identifiers *)

Definition Number : string := "0123456789".
Definition Lowercase : string := "abcdefghijklmnopqrstuvwxyz".
Definition Uppercase : string := "ABCDEFGHIJKLMNOPQRSTUVWXYZ".
Definition NumLowerUpper : string := Number +:+ Lowercase +:+ Uppercase.
Definition PrimaryKeySize : Z := 16.
Definition defaultSize : Z := 16.

Definition getSize (l : list Z) : Z := match l with n :: _ => n | [] => defaultSize end.

(** The element of an index out of range, which does not occur. *)
Definition no_char : ascii := Ascii.zero.

(** [alphabet[n]] for a byte: the bytes of the identifier, one for each random byte. *)
Definition pick (alphabet : string) (b : Z) : ascii :=
  match String.get (Z.to_nat (b `mod` Z.of_nat (String.length alphabet))) alphabet with Some c => c | None => no_char end.

(** [generateFastID]: the pool holds buffers of [PrimaryKeySize] bytes; [random]
    fills a buffer, or fails and [fallback] makes the identifier. *)
Definition generateFastID (random : option (list Z)) (fallback : string) (size : Z) (alphabet : string) : res () string :=
  if (size <? 0)%Z || (PrimaryKeySize <? size)%Z then Panic
  else match random with
    | None => Ok fallback
    | Some bytes => Ok (Stdlib.Strings.String.string_of_list_ascii (pick alphabet <$> take (Z.to_nat size) bytes))
    end.

Definition PrimaryKey (l : list Z) (random : option (list Z)) (fallback : string) : res () string :=
  generateFastID random fallback (match l with n :: _ => n | [] => PrimaryKeySize end) NumLowerUpper.

Definition IsPrimaryKey (id : string) : bool :=
  negb (String.eqb id "") && (Z.of_nat (String.length id) =? PrimaryKeySize)%Z && str_all (λ c, has_byte c NumLowerUpper) id.

(** *** UUID *)

Definition base64Table : string := Number +:+ Uppercase +:+ Lowercase +:+ "+-".
(** [ShortUUID] of the bytes of a UUID. *)
Definition ShortUUID (u : list Z) : list ascii := (λ v, match String.get (Z.to_nat (Z.shiftr v 2)) base64Table with Some c => c | None => no_char end) <$> u.

(** ** Lists of strings *)

Fixpoint Find (a : list string) (x : string) : nat :=
  match a with [] => 0 | n :: a => if String.eqb x n then 0 else S (Find a x) end.
Definition FindID := Find.
Definition Contains_ (a : list string) (x : string) : bool := existsb (String.eqb x) a.
Definition IsInString (i : string) (j : list string) : bool := existsb (String.eqb i) j.
Definition IsNotInString (i : string) (j : list string) : bool := negb (IsInString i j).
Definition RemoveEmptyString (l : list string) : list string := List.filter (λ s, negb (String.eqb s "")) l.

(** The loop of [RemoveDuplicates], which writes into the slice it reads:
    [a] is the array, [j] the next place, [i] the element to look at. *)
Fixpoint dedup (n i j : nat) (seen : gset string) (a : list string) : nat * list string :=
  match n with
  | O => (j, a)
  | S n' =>
      match a !! i with
      | None => (j, a)
      | Some v => if decide (v ∈ seen) then dedup n' (S i) j seen a else dedup n' (S i) (S j) ({[v]} ∪ seen) (<[j := v]> a)
      end
  end.
(** The result, and what the caller's slice holds afterwards. *)
Definition RemoveDuplicates (a : list string) : list string * list string :=
  let (j, a') := dedup (length a) 0 0 ∅ a in (take j a', a').

Definition upper_ascii (c : ascii) : ascii := if byte_between "a" "z" c then byte_of (code_of c - 32) else c.
(** For a first byte that is a character. *)
Definition FirstUpper (s : string) : string := match s with EmptyString => "" | String c s' => String (upper_ascii c) s' end.
Definition FirstLower (s : string) : string := match s with EmptyString => "" | String c s' => String (lower_ascii c) s' end.

(** [ValidateName]: the regular expression ^[a-zA-Z][a-zA-Z0-9_-]*$. *)
Definition ValidateName (name : string) : bool :=
  match name with
  | EmptyString => false
  | String c s => isLetter c && str_all (λ c, isLetter c || isDigit c || Ascii.eqb c "_" || Ascii.eqb c "-") s
  end.

(** ** Addresses *)

(** [http://] or [https://] taken off, if something follows. *)
Fixpoint strip_scheme (prefixes : list string) (url : string) : string :=
  match prefixes with
  | [] => url
  | p :: ps => match CutPrefix p url with Some (String c r) => String c r | _ => strip_scheme ps url end
  end.
Fixpoint until_end (s : string) : string :=
  match s with
  | EmptyString => ""
  | String c s' => if Ascii.eqb c "/" || Ascii.eqb c ":" then "" else String c (until_end s')
  end.
Definition ExtractDomain (url : string) : string := until_end (strip_scheme ["http://"; "https://"] url).

Definition domain_char (c : ascii) : bool := isLetter c || isDigit c || Ascii.eqb c "-".

Definition valid_label (label : string) : bool :=
  negb (String.eqb label "") && (String.length label <=? 63)%nat && str_all domain_char label &&
  negb (HasPrefix label "-") && negb (HasSuffix label "-").

Definition IsValidDomain (domain : string) : bool :=
  if String.eqb domain "" then false
  else if (255 <? String.length domain)%nat then false
  else let labels := Split "."%char domain in if (length labels <? 2)%nat then false else forallb valid_label labels.

Definition IsValidURL (url : string) : bool :=
  if negb (HasPrefix url "http://") && negb (HasPrefix url "https://") then false
  else if (String.length url <? 10)%nat then false else IsValidDomain (ExtractDomain url).

(** The port of the arguments, or of the configuration unless it is no_char. *)
Definition getPort (conf_port : Z) (ports : list Z) : string :=
  match ports with p :: _ => pretty p | [] => if (conf_port =? 0)%Z then "" else pretty conf_port end.
Definition buildURL (protocol space port : string) : string :=
  protocol +:+ "://" +:+ space +:+ (if String.eqb port "" then "" else ":" +:+ port).
Definition GetHost (protocol : string) (conf_port : Z) (space : string) (ports : list Z) : string := buildURL protocol space (getPort conf_port ports).

(** ** Kinds of files *)

Definition imageExts : list string := [".jpg"; ".jpeg"; ".png"; ".gif"; ".bmp"; ".webp"; ".ico"; ".svg"; ".tiff"].
Definition videoExts : list string := [".mp4"; ".avi"; ".mkv"; ".mov"; ".webm"].
Definition audioExts : list string := [".mp3"; ".wav"; ".ogg"; ".m4a"; ".flac"].
Definition documentExts : list string := [".pdf"; ".doc"; ".docx"; ".xls"; ".xlsx"; ".ppt"; ".pptx"; ".txt"].

Definition is_ext (exts : list string) (ext : string) : bool := HasPrefix ext "." && existsb (String.eqb ext) exts.
(** For names of ASCII characters. *)
Definition is_file (exts : list string) (filename : string) : bool := existsb (String.eqb (str_map lower_ascii (Ext filename))) exts.
Definition IsImage := is_ext imageExts.
Definition IsVideo := is_ext videoExts.
Definition IsAudio := is_ext audioExts.
Definition IsDocument := is_ext documentExts.
Definition IsImageFile := is_file imageExts.
Definition IsVideoFile := is_file videoExts.
Definition IsAudioFile := is_file audioExts.
Definition IsDocumentFile := is_file documentExts.

(** ** Facts *)

(** *** Identifiers *)

Lemma string_get_lt (s : string) (n : nat) : (n < String.length s)%nat → ∃ c, String.get n s = Some c ∧ has_byte c s = true.
Proof.
  revert n. induction s as [|c s IH]; intros n Hn; cbn in Hn; [lia|]. destruct n as [|n].
  - exists c. cbn. by rewrite Ascii.eqb_refl.
  - destruct (IH n ltac:(lia)) as (c' & Hc & Hb). exists c'. split; [done|]. cbn [has_byte]. by rewrite Hb, orb_true_r.
Qed.

Lemma pick_in (alphabet : string) (b : Z) : alphabet ≠ "" → has_byte (pick alphabet b) alphabet = true.
Proof.
  intros Ha. assert (0 < Z.of_nat (String.length alphabet))%Z as Hl by (destruct alphabet; [done|cbn; lia]).
  pose proof (Z.mod_pos_bound b _ Hl) as Hm. unfold pick.
  destruct (string_get_lt alphabet (Z.to_nat (b `mod` Z.of_nat (String.length alphabet)))) as (c & -> & Hc); [lia|done].
Qed.

Lemma picks_all (alphabet : string) (l : list Z) : alphabet ≠ "" →
  str_all (λ c, has_byte c alphabet) (Stdlib.Strings.String.string_of_list_ascii (pick alphabet <$> l)) = true.
Proof. intros Ha. induction l as [|b l IH]; [done|]. cbn. by rewrite pick_in, IH. Qed.

Lemma picks_length (alphabet : string) (l : list Z) : String.length (Stdlib.Strings.String.string_of_list_ascii (pick alphabet <$> l)) = length l.
Proof. induction l as [|b l IH]; [done|]. cbn. by rewrite IH. Qed.

(** What a generated key is.  With a size from 0 to 16 and enough random bytes
    the key has that size, and [IsPrimaryKey] accepts it exactly when the size is
    the default of 16; a larger or negative size panics. *)
Theorem primary_key_generated (l : list Z) (bytes : list Z) (fallback : string) :
  let size := match l with n :: _ => n | [] => PrimaryKeySize end in
  (size ≤ Z.of_nat (length bytes))%Z →
  match PrimaryKey l (Some bytes) fallback with
  | Ok id => (0 ≤ size ≤ 16)%Z ∧ Z.of_nat (String.length id) = size ∧ (IsPrimaryKey id = true ↔ size = 16%Z)
  | Panic => (size < 0 ∨ 16 < size)%Z
  | _ => False
  end.
Proof.
  intros size Hb. unfold PrimaryKey, generateFastID. fold size. unfold PrimaryKeySize.
  destruct (Z.ltb_spec size 0); cbn [orb]; [lia|]. destruct (Z.ltb_spec 16 size); [lia|].
  set (id := Stdlib.Strings.String.string_of_list_ascii _). assert (Z.of_nat (String.length id) = size) as Hl.
  { unfold id. rewrite picks_length, length_take. lia. }
  split_and!; [lia|lia|done|]. unfold IsPrimaryKey, PrimaryKeySize. rewrite Hl.
  assert (str_all (λ c, has_byte c NumLowerUpper) id = true) as -> by (by apply picks_all).
  rewrite andb_true_r, andb_true_iff, Z.eqb_eq, negb_true_iff. split; [tauto|]. intros Hs. split; [|done].
  destruct id; [cbn in Hl; lia|done].
Qed.

(** How many of the 256 bytes give a character. *)
Definition chances (alphabet : string) (c : ascii) : nat := length (List.filter (λ b, Ascii.eqb (pick alphabet b) c) (seqZ 0 256)).

(** Keys are not uniform.  Of the 256 values of a byte five give each of the
    characters 0 to 7 and four each of the 54 others. *)
Theorem primary_key_biased (c : ascii) :
  has_byte c NumLowerUpper = true → chances NumLowerUpper c = if byte_between "0" "7" c then 5 else 4.
Proof.
  intros Hc. assert (str_all (λ c, (chances NumLowerUpper c =? if byte_between "0" "7" c then 5 else 4)%nat) NumLowerUpper = true) as H by (by vm_compute).
  revert Hc H. generalize NumLowerUpper at 1 3. intros s. induction s as [|c' s IH]; [done|]. cbn [has_byte str_all].
  intros [Hc|Hc]%orb_true_iff [H1 H2]%andb_true_iff; [|by apply IH]. apply Ascii.eqb_eq in Hc as <-. by apply Nat.eqb_eq.
Qed.


(** *** UUID *)

Lemma base64Table_nodup : NoDup ((λ n, String.get n base64Table) <$> seq 0 64).
Proof. apply (bool_decide_unpack _). by vm_compute. Qed.

Definition code64 (n : nat) : ascii := match String.get n base64Table with Some c => c | None => no_char end.

Lemma code64_inj (n m : nat) : (n < 64)%nat → (m < 64)%nat → code64 n = code64 m → n = m.
Proof.
  intros Hn Hm H. apply (NoDup_fmap_elem _ _ _ _ base64Table_nodup); [apply elem_of_seq; lia..|].
  unfold code64 in H. destruct (str_get_Some n base64Table) as [c Hc]; [exact Hn|]. destruct (str_get_Some m base64Table) as [d Hd]; [exact Hm|].
  rewrite Hc, Hd in *. by subst.
Qed.

Lemma shiftr2_range b : (0 ≤ b < 256)%Z → (0 ≤ Z.shiftr b 2 < 64)%Z.
Proof.
  intros Hb. rewrite Z.shiftr_div_pow2 by lia. change (2 ^ 2)%Z with 4%Z.
  split; [apply Z.div_pos; lia|apply Z.div_lt_upper_bound; lia].
Qed.

(** What the short form of a UUID keeps: two UUIDs have the same short form
    exactly when their bytes agree in all but the two lowest bits, so that
    32 of the 128 bits do not count. *)
Theorem short_uuid_equal_iff (u v : list Z) :
  Forall (λ b, 0 ≤ b < 256)%Z u → Forall (λ b, 0 ≤ b < 256)%Z v →
  (ShortUUID u = ShortUUID v ↔ (λ b, Z.shiftr b 2) <$> u = (λ b, Z.shiftr b 2) <$> v).
Proof.
  intros Hu Hv. split.
  - revert v Hv. induction Hu as [|b u Hb Hu IH]; intros [|c v] Hv H; try done.
    apply list.Forall_cons in Hv as [Hc Hv]. apply (f_equal (λ l, (head l, tail l))) in H. cbn in H. simplify_eq. cbn. f_equal; [|by apply IH].
    pose proof (shiftr2_range _ Hb). pose proof (shiftr2_range _ Hc).
    apply Z2Nat.inj; [lia..|]. apply code64_inj; [lia..|]. assumption.
  - intros H. unfold ShortUUID. rewrite <- !(list_fmap_compose (λ b, Z.shiftr b 2) (λ z, code64 (Z.to_nat z))) || idtac.
    change (((λ z, code64 (Z.to_nat z)) ∘ (λ b, Z.shiftr b 2)) <$> u = ((λ z, code64 (Z.to_nat z)) ∘ (λ b, Z.shiftr b 2)) <$> v).
    by rewrite !list_fmap_compose, H.
Qed.

(** *** Removing duplicates *)

(** The first occurrences, in order. *)
Fixpoint firsts (seen : gset string) (a : list string) : list string :=
  match a with [] => [] | v :: a => if decide (v ∈ seen) then firsts seen a else v :: firsts ({[v]} ∪ seen) a end.

Lemma dedup_firsts n i j seen (a : list string) : (j ≤ i)%nat → (length a = i + n)%nat →
  ∃ k, dedup n i j seen a = ((j + length (firsts seen (drop i a)))%nat, k) ∧
    k = (take j a ++ firsts seen (drop i a) ++ drop (j + length (firsts seen (drop i a))) a)%list.
Proof.
  revert i j seen a. induction n as [|n IH]; intros i j seen a Hji Hl.
  - rewrite drop_ge by lia. cbn. exists a. rewrite Nat.add_0_r, take_drop. auto.
  - cbn [dedup]. destruct (lookup_lt_is_Some_2 a i) as [v Hv]; [lia|]. rewrite Hv, (drop_S _ _ _ Hv). cbn [firsts].
    destruct (decide (v ∈ seen)); [apply IH; lia|].
    destruct (IH (S i) (S j) ({[v]} ∪ seen) (<[j := v]> a)) as (k & -> & ->); [lia|rewrite length_insert; lia|].
    rewrite drop_insert_lt by lia. set (f := firsts _ _). cbn [length]. rewrite (take_S_r _ _ v) by (apply list_lookup_insert_eq; lia).
    rewrite take_insert_ge by lia. rewrite drop_insert_lt by lia. rewrite <- (app_assoc (take j a)). eexists. split; [f_equal; lia|].
    by rewrite Nat.add_succ_r.
Qed.

Lemma firsts_spec seen (a : list string) :
  NoDup (firsts seen a) ∧ (∀ x, x ∈ firsts seen a ↔ x ∈ a ∧ x ∉ seen) ∧ firsts seen a `sublist_of` a.
Proof.
  revert seen. induction a as [|v a IH]; intros seen; cbn [firsts]; [split_and!; [constructor|intros x; rewrite elem_of_nil; tauto|constructor]|].
  destruct (decide (v ∈ seen)) as [Hv|Hv].
  - destruct (IH seen) as (Hn & Hi & Hs). split_and!; [done| |by constructor]. intros x. rewrite Hi, elem_of_cons. intuition congruence.
  - destruct (IH ({[v]} ∪ seen)) as (Hn & Hi & Hs). split_and!; [|intros x|by constructor].
    + apply list.NoDup_cons. split; [|done]. rewrite Hi, elem_of_union, elem_of_singleton. tauto.
    + rewrite !elem_of_cons, Hi, elem_of_union, elem_of_singleton. destruct (decide (x = v)); intuition congruence.
Qed.

(** [RemoveDuplicates] returns the first occurrences in their order, each
    string once, and overwrites the caller's slice with them: its first places
    hold the result, the rest what was there. *)
Theorem remove_duplicates_exact (a : list string) :
  let '(result, a') := RemoveDuplicates a in
  NoDup result ∧ (∀ x, x ∈ result ↔ x ∈ a) ∧ result `sublist_of` a ∧ a' = (result ++ drop (length result) a)%list.
Proof.
  unfold RemoveDuplicates. destruct (dedup_firsts (length a) 0 0 ∅ a) as (k & -> & ->); [lia..|]. rewrite drop_0, Nat.add_0_l.
  change (take 0 a) with (@nil string). rewrite app_nil_l.
  destruct (firsts_spec ∅ a) as (Hn & Hi & Hs). rewrite take_app_length. split_and!; [done| |done|done].
  intros x. rewrite Hi. split; [tauto|]. intros Hx. split; [done|apply not_elem_of_empty].
Qed.

(** The slice passed in has its elements moved. *)
Example duplicates_moved : RemoveDuplicates ["a"; "a"; "b"] = (["a"; "b"], ["a"; "b"; "b"]).
Proof. by vm_compute. Qed.

(** *** Addresses *)

Lemma until_end_split s : ∃ r, s = until_end s +:+ r ∧ (r = "" ∨ ∃ c r', r = String c r' ∧ (c = "/"%char ∨ c = ":"%char)).
Proof.
  induction s as [|c s (r & Hs & Hr)]; [exists ""; auto|]. cbn [until_end]. destruct (Ascii.eqb_spec c "/") as [->|H1]; [cbn; eauto 8|].
  destruct (Ascii.eqb_spec c ":") as [->|H2]; cbn [orb]; [cbn; eauto 8|]. exists r. split; [|done]. by rewrite str_app_cons, <- Hs.
Qed.

Lemma until_end_app d r :
  str_all (λ c, negb (Ascii.eqb c "/" || Ascii.eqb c ":")) d = true → (r = "" ∨ ∃ c r', r = String c r' ∧ (c = "/"%char ∨ c = ":"%char)) →
  until_end (d +:+ r) = d.
Proof.
  intros Hd Hr. induction d as [|c d IH].
  - rewrite str_app_nil_l. destruct Hr as [->|(c & r' & -> & [->| ->])]; reflexivity.
  - cbn in Hd. apply andb_true_iff in Hd as [H1 H2]. rewrite str_app_cons. cbn [until_end]. apply negb_true_iff in H1. rewrite H1. by rewrite IH.
Qed.

Lemma str_all_impl (f g : ascii → bool) s : (∀ c, f c = true → g c = true) → str_all f s = true → str_all g s = true.
Proof. intros H. induction s as [|c s IH]; [done|]. cbn. intros [H1 H2]%andb_true_iff. by rewrite H, IH. Qed.

Lemma str_all_app (f : ascii → bool) a b : str_all f (a +:+ b) = str_all f a && str_all f b.
Proof. induction a as [|c a IH]; [done|]. rewrite str_app_cons. cbn. by rewrite IH, andb_assoc. Qed.

Lemma str_all_no_byte (f : ascii → bool) c s : f c = false → str_all f s = true → has_byte c s = false.
Proof.
  intros Hf. induction s as [|d s IH]; [done|]. cbn. intros [H1 H2]%andb_true_iff. rewrite IH by done.
  destruct (Ascii.eqb_spec c d) as [->|]; [congruence|]. destruct (Ascii.eqb_spec d c) as [->|]; [congruence|]. done.
Qed.

Lemma valid_label_chars l : valid_label l = true → str_all domain_char l = true.
Proof. unfold valid_label. rewrite !andb_true_iff. tauto. Qed.

Lemma domain_chars labels : Forall (λ l, valid_label l = true) labels →
  str_all (λ c, domain_char c || Ascii.eqb c ".") (Join "." labels) = true.
Proof.
  induction 1 as [|l [|l' ls] Hl _ IH]; [done|..].
  - cbn. apply (str_all_impl domain_char); [by intros c ->|by apply valid_label_chars].
  - change (Join "." (l :: l' :: ls)) with (l +:+ "." +:+ Join "." (l' :: ls)). rewrite str_all_app, andb_true_iff. split.
    + apply (str_all_impl domain_char); [by intros c ->|by apply valid_label_chars].
    + rewrite str_all_app, IH. done.
Qed.

Lemma Join_Split_dot s : Join "." (Split "." s) = s.
Proof.
  induction s as [|c s IH]; [done|]. cbn [Split]. destruct (Ascii.eqb_spec c ".") as [->|Hc].
  - destruct (Split "." s) as [|p ps] eqn:E; [by apply Split_not_nil in E|]. rewrite <- IH. done.
  - destruct (Split "." s) as [|p ps] eqn:E; [by apply Split_not_nil in E|]. rewrite <- IH. by destruct ps.
Qed.

Lemma IsValidDomain_iff d : IsValidDomain d = true ↔
  ∃ labels, d = Join "." labels ∧ (2 ≤ length labels)%nat ∧ Forall (λ l, valid_label l = true) labels ∧ (String.length d ≤ 255)%nat.
Proof.
  unfold IsValidDomain. split.
  - destruct (String.eqb_spec d ""); [done|]. destruct (Nat.ltb_spec 255 (String.length d)); [done|].
    destruct (Nat.ltb_spec (length (Split "." d)) 2); [done|]. intros Hf. exists (Split "." d).
    split_and!; [by rewrite Join_Split_dot|lia|by apply forallb_Forall|lia].
  - intros (labels & -> & H2 & Hv & Hl). assert (Split "." (Join "." labels) = labels) as ->.
    { apply Split_Join; [by destruct labels; cbn in H2; [lia|]|]. eapply Forall_impl; [exact Hv|]. intros l Hl'.
      apply (str_all_no_byte domain_char); [done|by apply valid_label_chars]. }
    destruct (String.eqb_spec (Join "." labels) "") as [He|].
    { destruct labels as [|[|c l] [|l' ls]]; cbn in H2; [lia|lia|..]; [apply list.Forall_cons in Hv as [Hv _]; done|cbn in He; lia|done]. }
    destruct (Nat.ltb_spec 255 (String.length (Join "." labels))); [lia|]. destruct (Nat.ltb_spec (length labels) 2); [lia|].
    apply forallb_forall. by apply List.Forall_forall.
Qed.

Lemma strip_http d r : strip_scheme ["http://"; "https://"] ("http://" +:+ d +:+ r) = if String.eqb (d +:+ r) "" then "http://" else d +:+ r.
Proof. cbn. by destruct (d +:+ r). Qed.
Lemma strip_https d r : strip_scheme ["http://"; "https://"] ("https://" +:+ d +:+ r) = if String.eqb (d +:+ r) "" then "https://" else d +:+ r.
Proof. cbn. by destruct (d +:+ r). Qed.

Lemma extract_domain scheme labels rest : scheme = "http://" ∨ scheme = "https://" → (2 ≤ length labels)%nat →
  Forall (λ l, valid_label l = true) labels → (rest = "" ∨ ∃ c r', rest = String c r' ∧ (c = "/"%char ∨ c = ":"%char)) →
  ExtractDomain (scheme +:+ Join "." labels +:+ rest) = Join "." labels.
Proof.
  intros Hs H2 Hv Hr. pose proof (domain_chars _ Hv) as Hc.
  assert (Join "." labels ≠ "") as Hne by (destruct labels as [|[|c l] [|l' ls]]; cbn in H2; [lia|lia|..]; [apply list.Forall_cons in Hv as [Hv _]; done|lia|done]).
  unfold ExtractDomain. assert (strip_scheme ["http://"; "https://"] (scheme +:+ Join "." labels +:+ rest) = Join "." labels +:+ rest) as ->.
  { destruct Hs as [-> | ->]; rewrite ?strip_http, ?strip_https; by destruct (Join "." labels). }
  apply until_end_app; [|done]. eapply str_all_impl; [|exact Hc]. intros c. unfold domain_char.
  destruct (Ascii.eqb_spec c "/") as [->|]; [done|]. by destruct (Ascii.eqb_spec c ":") as [->|].
Qed.

(** Which addresses are valid: a scheme, at least two labels of letters,
    digits and inner hyphens joined by points and 255 bytes together at most,
    and then nothing or whatever follows a slash or a colon.  The least length
    of ten, that the code checks too, follows. *)
Theorem url_valid_iff (url : string) : IsValidURL url = true ↔
  ∃ scheme labels rest, url = scheme +:+ Join "." labels +:+ rest ∧ (scheme = "http://" ∨ scheme = "https://") ∧
    (2 ≤ length labels)%nat ∧ Forall (λ l, valid_label l = true) labels ∧ (String.length (Join "." labels) ≤ 255)%nat ∧
    (rest = "" ∨ ∃ c r', rest = String c r' ∧ (c = "/"%char ∨ c = ":"%char)).
Proof.
  unfold IsValidURL. split.
  - destruct (negb (HasPrefix url "http://") && negb (HasPrefix url "https://")) eqn:Ep; [done|].
    destruct (String.length url <? 10)%nat; [done|]. intros (labels & Hd & H2 & Hv & Hl)%IsValidDomain_iff. rewrite Hd in Hl.
    assert (∃ scheme d, (scheme = "http://" ∨ scheme = "https://") ∧ url = scheme +:+ d ∧ strip_scheme ["http://"; "https://"] url = if String.eqb d "" then scheme else d)
      as (scheme & d & Hs & -> & Hd').
    { apply andb_false_iff in Ep as [Ep|Ep]; apply negb_false_iff, HasPrefix_spec in Ep as [r ->];
        [exists "http://", r; pose proof (strip_http r "") as H|exists "https://", r; pose proof (strip_https r "") as H];
        rewrite str_app_nil_r in H; auto. }
    exists scheme, labels. unfold ExtractDomain in Hd. rewrite Hd' in *. destruct (String.eqb_spec d "") as [->|Hne].
    { destruct Hs as [-> | ->]; exfalso; apply (f_equal (Split ".")) in Hd; rewrite Split_Join in Hd;
        [| |eapply Forall_impl; [exact Hv|]; intros l Hl'; apply (str_all_no_byte domain_char); [done|by apply valid_label_chars]
        | | |eapply Forall_impl; [exact Hv|]; intros l Hl'; apply (str_all_no_byte domain_char); [done|by apply valid_label_chars]].
      all: try (intros ->; cbn in H2; lia). all: cbn in Hd; subst labels; cbn in H2; lia. }
    destruct (until_end_split d) as (r & Hr & Hrest). exists r. rewrite Hd in Hr. split; [by rewrite Hr at 1|auto 8].
  - intros (scheme & labels & rest & -> & Hs & H2 & Hv & Hl & Hr). rewrite (extract_domain scheme labels rest) by done.
    assert (IsValidDomain (Join "." labels) = true) as -> by (apply IsValidDomain_iff; eauto).
    assert (3 ≤ String.length (Join "." labels))%nat as Hlen.
    { destruct labels as [|[|c l] [|[|c' l'] ls]]; cbn in H2; try lia; repeat (apply list.Forall_cons in Hv as [? Hv]); try done.
      change (Join "." (String c l :: String c' l' :: ls)) with (String c (l +:+ "." +:+ Join "." (String c' l' :: ls))).
      assert (∃ t, Join "." (String c' l' :: ls) = String c' t) as [t ->] by (destruct ls; cbn; eauto).
      cbn [String.length]. rewrite !str_length_app. cbn. lia. }
    rewrite !str_length_app. destruct (Nat.ltb_spec (String.length scheme + (String.length (Join "." labels) + String.length rest)) 10) as [Hlt|];
      [destruct Hs as [-> | ->]; cbn in Hlt; lia|].
    assert (negb (HasPrefix (scheme +:+ Join "." labels +:+ rest) "http://") && negb (HasPrefix (scheme +:+ Join "." labels +:+ rest) "https://") = false) as ->; [|done].
    apply andb_false_iff. rewrite !negb_false_iff, !HasPrefix_spec. destruct Hs as [-> | ->]; eauto.
Qed.

(** The name before the colon passes for the host, although what follows says otherwise. *)
Example user_taken_for_host : IsValidURL "http://good.com:x@evil" = true ∧ ExtractDomain "http://good.com:x@evil" = "good.com".
Proof. by vm_compute. Qed.

(** ** The hypotheses can be met *)

Lemma primary_key_generated_witness :
  PrimaryKey [] (Some (replicate 16 7%Z)) "" = Ok "7777777777777777" ∧
  match PrimaryKey [] (Some (replicate 16 7%Z)) "" with
  | Ok id => (0 ≤ 16 ≤ 16)%Z ∧ Z.of_nat (String.length id) = 16%Z ∧ (IsPrimaryKey id = true ↔ 16%Z = 16%Z)
  | Panic => (16 < 0 ∨ 16 < 16)%Z
  | _ => False
  end.
Proof. split; [by vm_compute|]. apply (primary_key_generated [] (replicate 16 7%Z) ""). by vm_compute. Defined.

Lemma primary_key_biased_witness : chances NumLowerUpper "3" = 5%nat ∧ chances NumLowerUpper "z" = 4%nat.
Proof. split; [apply (primary_key_biased "3")|apply (primary_key_biased "z")]; by vm_compute. Defined.

Lemma short_uuid_equal_iff_witness :
  ShortUUID [4%Z; 255%Z] = ShortUUID [7%Z; 252%Z] ↔ (λ b, Z.shiftr b 2) <$> [4%Z; 255%Z] = (λ b, Z.shiftr b 2) <$> [7%Z; 252%Z].
Proof. apply short_uuid_equal_iff; repeat constructor; lia. Defined.
