(* ===== verification/CtxUtil.v ===== *)
(** * Values in contexts and business codes

    Models src/ctxutil/{context,email,storage,business}.go.  A context made by
    [context.WithValue] is the list of its pairs, the innermost first; a
    *gin.Context is an object whose store of values all contexts derived from
    one request share, so that it lives in the world.  Configurations, senders
    and stores are numbers: what matters is which one it is. *)

From stdpp Require Import base tactics option list gmap strings numbers pretty.
From Stdlib Require Import ZArith Ascii Lia.
From S2P Require Import Prelude Base64 Utils.

Open Scope string_scope.

(** ** Contexts *)

Inductive value :=
  | VNil | VString (s : string) | VInt (z : Z) | VBool (b : bool) | VStrings (l : list string)
  | VConfig (c : option nat) | VSender (n : nat) | VStorage (n : nat) | VGin (g : nat) | VRequest (r : option nat)
  | VCtx (c : list (string * value)) | VOther (n : nat).

Abbreviation ctx := (list (string * value)).

(** The values that *gin.Context holds: [Set] and [Get] of a context, given by
    its address. *)
Class GinStore (G : Type) := {
  gin_get : nat → string → G → option value;
  gin_put : nat → string → value → G → G;
  gin_get_put g k v s g' k' : gin_get g' k' (gin_put g k v s) = if decide (g' = g ∧ k' = k) then Some v else gin_get g' k' s }.

(** The values of all gin contexts, and how many senders and stores were made. *)
Record World (G : Type) := mkWorld { stores : G; senders_made : nat; storages_made : nat }.
Arguments mkWorld {G}. Arguments stores {G}. Arguments senders_made {G}. Arguments storages_made {G}.

Definition ginContextKey : string := "gin-context".
Definition userIDKey : string := "x-md-uid".
Definition usernameKey : string := "x-md-uname".
Definition userEmailKey : string := "x-md-email".
Definition userStatusKey : string := "x-md-status".
Definition userIsCertified : string := "x-md-is-certified".
Definition spaceIDKey : string := "x-md-sid".
Definition tokenKey : string := "x-md-token".
Definition providerKey : string := "provider".
Definition profileKey : string := "profile".
Definition configKey : string := "config".
Definition emailSender : string := "email_sender".
Definition storageKey : string := "storage".
Definition TraceIDKey : string := "trace_id".
Definition userRolesKey : string := "user_roles".
Definition userPermissions : string := "user_permissions".
Definition userIsAdminKey : string := "user_is_admin".
Definition spaceIDsKey : string := "user_space_ids".

(** A call for a business code: identifier, month, random bytes, clock. *)
Abbreviation code_call := (string * string * option (list Z) * Z)%type.

Section Contexts.
Context {G : Type} `{!GinStore G}.
Abbreviation World := (World G).

Definition gin_set (g : nat) (k : string) (v : value) (w : World) : World := mkWorld (gin_put g k v (stores w)) (senders_made w) (storages_made w).

(** [ctx.Value]: nil when the key is not there. *)
Fixpoint Value (c : ctx) (k : string) : value :=
  match c with [] => VNil | (k', v) :: c => if String.eqb k' k then v else Value c k end.

Definition WithGinContext (c : ctx) (g : nat) : ctx := (ginContextKey, VGin g) :: c.
Definition GetGinContext (c : ctx) : option nat := match Value c ginContextKey with VGin g => Some g | _ => None end.

Definition GetValue (w : World) (c : ctx) (key : string) : value :=
  match GetGinContext c with
  | Some g => match gin_get g key (stores w) with Some val => val | None => Value c key end
  | None => Value c key
  end.

Definition SetValue (w : World) (c : ctx) (key : string) (val : value) : World * ctx :=
  (match GetGinContext c with Some g => gin_set g key val w | None => w end, (key, val) :: c).

(** *** Accessors *)

Definition get_string (key : string) (w : World) (c : ctx) : string := match GetValue w c key with VString s => s | _ => "" end.
Definition get_bool (key : string) (w : World) (c : ctx) : bool := match GetValue w c key with VBool b => b | _ => false end.
Definition get_strings (key : string) (w : World) (c : ctx) : list string := match GetValue w c key with VStrings l => l | _ => [] end.

Definition SetUserID w c (uid : string) := SetValue w c userIDKey (VString uid).
Definition GetUserID := get_string userIDKey.
Definition SetUsername w c (username : string) := SetValue w c usernameKey (VString username).
Definition GetUsername := get_string usernameKey.
Definition SetUserEmail w c (email : string) := SetValue w c userEmailKey (VString email).
Definition GetUserEmail := get_string userEmailKey.
Definition SetUserStatus w c (status : Z) := SetValue w c userStatusKey (VInt status).
Definition GetUserStatus w c : Z := match GetValue w c userStatusKey with VInt status => status | _ => 3 end.
Definition SetUserIsCertified w c (b : bool) := SetValue w c userIsCertified (VBool b).
Definition GetUserIsCertified := get_bool userIsCertified.
Definition SetSpaceID w c (uid : string) := SetValue w c spaceIDKey (VString uid).
Definition GetSpaceID := get_string spaceIDKey.
Definition SetToken w c (token : string) := SetValue w c tokenKey (VString token).
Definition GetToken := get_string tokenKey.
Definition SetProvider w c (provider : string) := SetValue w c providerKey (VString provider).
Definition GetProvider := get_string providerKey.
Definition SetProfile w c (profile : value) := SetValue w c profileKey profile.
Definition GetProfile w c : value := GetValue w c profileKey.
Definition SetTraceID w c (traceID : string) := SetValue w c TraceIDKey (VString traceID).
Definition GetTraceID := get_string TraceIDKey.
Definition SetUserRoles w c (roles : list string) := SetValue w c userRolesKey (VStrings roles).
Definition GetUserRoles := get_strings userRolesKey.
Definition SetUserPermissions w c (permissions : list string) := SetValue w c userPermissions (VStrings permissions).
Definition GetUserPermissions := get_strings userPermissions.
Definition SetUserIsAdmin w c (isAdmin : bool) := SetValue w c userIsAdminKey (VBool isAdmin).
Definition GetUserIsAdmin := get_bool userIsAdminKey.
Definition SetUserSpaceIDs w c (spaceIDs : list string) := SetValue w c spaceIDsKey (VStrings spaceIDs).
Definition GetUserSpaceIDs := get_strings spaceIDsKey.

(** [uuid] is the identifier drawn, if one is. *)
Definition EnsureTraceID (uuid : string) (w : World) (c : ctx) : World * ctx * string :=
  let traceID := GetTraceID w c in
  if negb (String.eqb traceID "") then (w, c, traceID)
  else let (w, c) := SetTraceID w c uuid in (w, c, uuid).

(** The context, and what is left in the map. *)
Definition ExtractContext (payload : option (gmap string value)) : ctx * option (gmap string value) :=
  match payload with
  | None => ([], None)
  | Some p => match p !! "ctx" with Some (VCtx c) => (c, Some (delete "ctx" p)) | _ => ([], payload) end
  end.

(** *** Configuration, senders and stores *)

Section Services.
(** [config.GetConfig]; the provider of the e-mail configuration of each
    configuration, [None] for a nil pointer; whether a sender or a store can be made. *)
Context (loaded : option nat) (provider_of : nat → option string) (sender_ok : string → bool) (storage_ok : nat → bool).

Definition SetConfig w c (conf : option nat) := SetValue w c configKey (VConfig conf).
Definition GetConfig w c : option nat := match GetValue w c configKey with VConfig conf => conf | _ => loaded end.

Inductive sender_error := EUnknownProvider | ENewSender.

Definition providers : list string := ["mailgun"; "aliyun"; "netease"; "sendgrid"; "smtp"; "tencent_cloud"].

Definition SetEmailSender w c (sender : nat) := SetValue w c emailSender (VSender sender).
(** The context that holds the sender is not returned. *)
Definition GetEmailSender w c : res sender_error nat * World :=
  match GetValue w c emailSender with
  | VSender sender => (Ok sender, w)
  | _ =>
      match GetConfig w c ≫= provider_of with
      | None => (Panic, w)
      | Some p =>
          if negb (existsb (String.eqb p) providers) then (Err EUnknownProvider, w)
          else if negb (sender_ok p) then (Err ENewSender, w)
          else
            let sender := senders_made w in
            (Ok sender, (SetEmailSender (mkWorld (stores w) (S sender) (storages_made w)) c sender).1)
      end
  end.

Definition SetStorage w c (s : nat) := SetValue w c storageKey (VStorage s).
(** The store, or nil; the configuration is the one of the context. *)
Definition GetStorage w c : res () (option nat) * World :=
  match GetValue w c storageKey with
  | VStorage s => (match GetConfig w c with Some _ => Ok (Some s) | None => Panic end, w)
  | _ =>
      match GetConfig w c with
      | None => (Panic, w)
      | Some conf =>
          if negb (storage_ok conf) then (Ok None, w)
          else
            let s := storages_made w in
            (Ok (Some s), (SetStorage (mkWorld (stores w) (senders_made w) (S s)) c s).1)
      end
  end.
End Services.

(** ** Business codes *)

Definition charset : string := Uppercase +:+ "1234567890".
Definition charset_at (z : Z) : res () ascii :=
  if (z <? 0)%Z then Panic else match String.get (Z.to_nat z) charset with Some c => Ok c | None => Panic end.

Fixpoint timestamp_code (length : nat) (timestamp : Z) : res () string :=
  match length with
  | O => Ok ""
  | S n =>
      match charset_at (Z.rem timestamp 36) with
      | Ok c => match timestamp_code n (Z.quot timestamp 36) with Ok s => Ok (String c s) | r => r end
      | _ => Panic
      end
  end.
Fixpoint random_code (bytes : list Z) : res () string :=
  match bytes with
  | [] => Ok ""
  | b :: bytes =>
      match charset_at (b `mod` 36) with Ok c => match random_code bytes with Ok s => Ok (String c s) | r => r end | _ => Panic end
  end.
(** [random] are the bytes read, [now] the clock for when that fails. *)
Definition generateAntifakeCode (length : nat) (random : option (list Z)) (now : Z) : res () string :=
  match random with Some bytes => random_code (take length bytes) | None => timestamp_code length now end.

Record Codes := mkCodes { currentMonth : string; counters : gmap string Z }.
Definition no_codes : Codes := mkCodes "" ∅.

(** Sprintf's %04d. *)
Definition pad4 (z : Z) : string :=
  let s := pretty z in
  if (z <? 10)%Z then "000" +:+ s else if (z <? 100)%Z then "00" +:+ s else if (z <? 1000)%Z then "0" +:+ s else s.

(** The part of [GenerateBusinessCode] under the mutex; [currentDate] is the month
    as six digits, which the call read before. *)
Definition issue_code (identifier currentDate : string) (random : option (list Z)) (now : Z) (m : Codes) : res () string * Codes :=
  let m := if String.eqb (currentMonth m) currentDate then m else mkCodes currentDate ∅ in
  let serialNumber := wrap64 (default 0%Z (counters m !! identifier) + 1) in
  let m := mkCodes (currentMonth m) (<[identifier := serialNumber]> (counters m)) in
  (match generateAntifakeCode 3 random now with
   | Ok antifakeCode => Ok (identifier +:+ currentDate +:+ antifakeCode +:+ pad4 serialNumber)
   | Err e => Err e | Panic => Panic | NoFuel => NoFuel
   end, m).

(** Calls in several goroutines: the months read so far, the goroutines that read
    one and wait for the mutex, with the position of their reading, and the calls
    that had it, with that position and what they returned. *)
Record CodeWorld := mkCodeWorld {
  codes : Codes; readings : list string; waiting : gmap nat (nat * string); issued : list (nat * code_call * res () string) }.
Definition no_calls : CodeWorld := mkCodeWorld no_codes [] ∅ [].

(** A call of [GenerateBusinessCode] in goroutine [i] reads the month, and then
    takes the mutex and returns its code; others can do either in between. *)
Inductive code_step := ERead (i : nat) (month : string) | EIssue (i : nat) (identifier : string) (random : option (list Z)) (now : Z).
Definition GenerateBusinessCode (e : code_step) (w : CodeWorld) : option CodeWorld :=
  match e with
  | ERead i month =>
      match waiting w !! i with
      | Some _ => None
      | None => Some (mkCodeWorld (codes w) (readings w ++ [month]) (<[i := (length (readings w), month)]> (waiting w)) (issued w))
      end
  | EIssue i identifier random now =>
      '(p, month) ← waiting w !! i;
      let '(r, m) := issue_code identifier month random now (codes w) in
      Some (mkCodeWorld m (readings w) (delete i (waiting w)) (issued w ++ [(p, (identifier, month, random, now), r)]))
  end%list.
Fixpoint run_codes (es : list code_step) (w : CodeWorld) : option CodeWorld :=
  match es with [] => Some w | e :: es => w ← GenerateBusinessCode e w; run_codes es w end.

(** ** Facts *)

(** *** Values *)

Lemma Value_cons k v c k' : Value ((k, v) :: c) k' = if decide (k' = k) then v else Value c k'.
Proof. cbn. destruct (String.eqb_spec k k'), (decide (k' = k)); congruence. Qed.

Lemma gin_of_set w c k v : k ≠ ginContextKey → GetGinContext (SetValue w c k v).2 = GetGinContext c.
Proof. intros Hk. unfold GetGinContext, SetValue. cbn [snd]. rewrite Value_cons. by rewrite decide_False. Qed.

Lemma GetValue_set w c k v k' : k ≠ ginContextKey →
  GetValue (SetValue w c k v).1 (SetValue w c k v).2 k' = if decide (k' = k) then v else GetValue w c k'.
Proof.
  intros Hk. unfold GetValue. rewrite gin_of_set by done. unfold SetValue. cbn [fst snd].
  destruct (GetGinContext c) as [g|]; rewrite Value_cons; [|done]. cbn [stores gin_set]. rewrite gin_get_put.
  destruct (decide (k' = k)) as [->|Hne]; [by rewrite decide_True|]. by rewrite decide_False by tauto.
Qed.

(** A write through some context. *)
Abbreviation write := (ctx * string * value)%type.
Definition do_write (w : World) (op : write) : World := (SetValue w op.1.1 op.1.2 op.2).1.
(** The value last written under a key through a context of the gin context [g]. *)
Definition last_written (g : nat) (k : string) (ops : list write) : option value :=
  last (omap (λ op : write, if decide (GetGinContext op.1.1 = Some g ∧ op.1.2 = k) then Some op.2 else None) ops).

Lemma do_write_gin w op c g k : GetGinContext c = Some g →
  GetValue (do_write w op) c k = if decide (GetGinContext op.1.1 = Some g ∧ op.1.2 = k) then op.2 else GetValue w c k.
Proof.
  intros Hg. unfold GetValue, do_write, SetValue. rewrite Hg. cbn [fst]. destruct op as [[c0 k0] v0]. cbn [fst snd].
  destruct (GetGinContext c0) as [g0|]; [|rewrite decide_False; [done|intros [? ?]; congruence]].
  cbn [stores gin_set]. rewrite gin_get_put. destruct (decide (g = g0 ∧ k = k0)) as [[-> ->]|Hne].
  - by rewrite decide_True.
  - rewrite decide_False; [done|]. intros [? ?]. apply Hne. split; congruence.
Qed.

(** The values of a request are shared.  Whatever is written through any
    contexts, a context of a gin context reads what was last written under the
    key through any context of the same gin context, be it its parent, its child
    or its sibling, and otherwise what it read before; a context without one
    never changes. *)
Theorem request_values_shared (w : World) (ops : list (ctx * string * value)) (c : ctx) (k : string) :
  GetValue (foldl do_write w ops) c k =
  match GetGinContext c with
  | Some g => default (GetValue w c k) (last_written g k ops)
  | None => Value c k
  end.
Proof.
  destruct (GetGinContext c) as [g|] eqn:Hg; [|unfold GetValue; by rewrite Hg].
  induction ops as [|op ops IH] using rev_ind; [done|]. rewrite foldl_snoc, (do_write_gin _ _ _ _ _ Hg), IH.
  unfold last_written. rewrite omap_app. cbn [omap list_omap]. destruct (decide _); [by rewrite last_snoc|]. by rewrite app_nil_r.
Qed.

(** *** The accessors are a record *)

Record Fields := mkFields { f_UserID : string; f_Username : string; f_UserEmail : string; f_UserStatus : Z; f_IsCertified : bool;
  f_SpaceID : string; f_Token : string; f_Provider : string; f_Profile : value; f_TraceID : string; f_Roles : list string;
  f_Permissions : list string; f_IsAdmin : bool; f_SpaceIDs : list string }.
Definition fields (w : World) (c : ctx) : Fields :=
  mkFields (GetUserID w c) (GetUsername w c) (GetUserEmail w c) (GetUserStatus w c) (GetUserIsCertified w c) (GetSpaceID w c)
    (GetToken w c) (GetProvider w c) (GetProfile w c) (GetTraceID w c) (GetUserRoles w c) (GetUserPermissions w c)
    (GetUserIsAdmin w c) (GetUserSpaceIDs w c).

Inductive setter :=
  | PUserID (s : string) | PUsername (s : string) | PUserEmail (s : string) | PUserStatus (z : Z) | PIsCertified (b : bool)
  | PSpaceID (s : string) | PToken (s : string) | PProvider (s : string) | PProfile (v : value) | PTraceID (s : string)
  | PRoles (l : list string) | PPermissions (l : list string) | PIsAdmin (b : bool) | PSpaceIDs (l : list string).

Definition call (wc : World * ctx) (p : setter) : World * ctx :=
  let (w, c) := wc in
  match p with
  | PUserID s => SetUserID w c s | PUsername s => SetUsername w c s | PUserEmail s => SetUserEmail w c s
  | PUserStatus z => SetUserStatus w c z | PIsCertified b => SetUserIsCertified w c b | PSpaceID s => SetSpaceID w c s
  | PToken s => SetToken w c s | PProvider s => SetProvider w c s | PProfile v => SetProfile w c v | PTraceID s => SetTraceID w c s
  | PRoles l => SetUserRoles w c l | PPermissions l => SetUserPermissions w c l | PIsAdmin b => SetUserIsAdmin w c b
  | PSpaceIDs l => SetUserSpaceIDs w c l
  end.

Definition assign (f : Fields) (p : setter) : Fields :=
  let '(mkFields a b c d e g h i j k l m n o) := f in
  match p with
  | PUserID s => mkFields s b c d e g h i j k l m n o | PUsername s => mkFields a s c d e g h i j k l m n o
  | PUserEmail s => mkFields a b s d e g h i j k l m n o | PUserStatus z => mkFields a b c z e g h i j k l m n o
  | PIsCertified x => mkFields a b c d x g h i j k l m n o | PSpaceID s => mkFields a b c d e s h i j k l m n o
  | PToken s => mkFields a b c d e g s i j k l m n o | PProvider s => mkFields a b c d e g h s j k l m n o
  | PProfile v => mkFields a b c d e g h i v k l m n o | PTraceID s => mkFields a b c d e g h i j s l m n o
  | PRoles x => mkFields a b c d e g h i j k x m n o | PPermissions x => mkFields a b c d e g h i j k l x n o
  | PIsAdmin x => mkFields a b c d e g h i j k l m x o | PSpaceIDs x => mkFields a b c d e g h i j k l m n x
  end.

Lemma call_assign wc p : fields (call wc p).1 (call wc p).2 = assign (fields wc.1 wc.2) p.
Proof.
  destruct wc as [w c]. destruct p; unfold call, SetUserID, SetUsername, SetUserEmail, SetUserStatus, SetUserIsCertified, SetSpaceID, SetToken,
    SetProvider, SetProfile, SetTraceID, SetUserRoles, SetUserPermissions, SetUserIsAdmin, SetUserSpaceIDs;
  unfold fields, assign, GetUserID, GetUsername, GetUserEmail, GetUserStatus, GetUserIsCertified, GetSpaceID, GetToken, GetProvider, GetProfile,
    GetTraceID, GetUserRoles, GetUserPermissions, GetUserIsAdmin, GetUserSpaceIDs, get_string, get_bool, get_strings;
  rewrite !GetValue_set by done; done.
Qed.

(** C25: The accessors of a request implement a record.  Any sequence of setters
    changes what the getters read exactly as assignments to the fields of a
    record do: each getter reads the last value set, the others are untouched. *)
Theorem accessors_are_a_record (w : World) (c : ctx) (ps : list setter) :
  let (w', c') := foldl call (w, c) ps in fields w' c' = foldl assign (fields w c) ps.
Proof.
  assert (∀ wc, fields (foldl call wc ps).1 (foldl call wc ps).2 = foldl assign (fields wc.1 wc.2) ps) as H.
  { induction ps as [|p ps IH]; intros wc; [done|]. cbn [foldl]. by rewrite IH, call_assign. }
  specialize (H (w, c)). by destruct (foldl call (w, c) ps).
Qed.

(** A request has one trace identifier.  If identifiers drawn are not empty,
    [EnsureTraceID] returns one that is not empty and a context that has it, and
    every later call on that context returns the same and changes nothing,
    whatever is drawn; one that was there is kept. *)
Theorem trace_id_stable (uuid uuid' : string) (w : World) (c : ctx) :
  uuid ≠ "" →
  let '(w', c', id) := EnsureTraceID uuid w c in
  id ≠ "" ∧ GetTraceID w' c' = id ∧ EnsureTraceID uuid' w' c' = (w', c', id) ∧
  (GetTraceID w c ≠ "" → id = GetTraceID w c ∧ w' = w ∧ c' = c).
Proof.
  intros Hu. unfold EnsureTraceID. destruct (String.eqb_spec (GetTraceID w c) "") as [He|Hne]; cbn [negb].
  - destruct (SetTraceID w c uuid) as [w' c'] eqn:Hs. assert (GetTraceID w' c' = uuid) as Ht.
    { pose proof (GetValue_set w c TraceIDKey (VString uuid) TraceIDKey ltac:(done)) as H. unfold SetTraceID in Hs. rewrite Hs in H.
      unfold GetTraceID, get_string. cbn [fst snd] in H. by rewrite H, decide_True. }
    rewrite Ht. destruct (String.eqb_spec uuid ""); [done|]. cbn [negb]. done.
  - destruct (String.eqb_spec (GetTraceID w c) ""); [done|]. done.
Qed.

(** *** Senders and stores *)

(** Senders are only remembered with a gin context.  A sender that
    [GetEmailSender] made is returned again, from every context of the same
    request, when there is a gin context; without one the context that holds it
    is dropped and the next call makes another. *)
Theorem sender_remembered_iff loaded provider_of sender_ok (w w' : World) (c : ctx) (s : nat) :
  GetValue w c emailSender = VNil → GetEmailSender loaded provider_of sender_ok w c = (Ok s, w') →
  match GetGinContext c with
  | Some g => ∀ c', GetGinContext c' = Some g → GetEmailSender loaded provider_of sender_ok w' c' = (Ok s, w')
  | None => (GetEmailSender loaded provider_of sender_ok w' c).1 = Ok (S s)
  end.
Proof.
  intros Hv. unfold GetEmailSender. rewrite Hv. destruct (GetConfig loaded w c ≫= provider_of) as [p|] eqn:Hp; [|done].
  destruct (existsb (String.eqb p) providers) eqn:He; [|done]. destruct (sender_ok p) eqn:Ho; [|done]. cbn [negb]. intros [= <- <-].
  unfold SetEmailSender, SetValue. cbn [fst]. destruct (GetGinContext c) as [g|] eqn:Hg.
  - intros c' Hg'. unfold GetValue. rewrite Hg'. cbn [stores gin_set]. by rewrite gin_get_put, decide_True.
  - assert (∀ k, GetValue (mkWorld (stores w) (S (senders_made w)) (storages_made w)) c k = GetValue w c k) as Hk.
    { intros k. unfold GetValue. by rewrite Hg. }
    unfold GetConfig in *. rewrite !Hk, Hv, Hp, He, Ho. done.
Qed.

End Contexts.

(** *** Business codes *)

Lemma charset_ok z : (0 ≤ z < 36)%Z → ∃ c, charset_at z = Ok c.
Proof.
  intros Hz. unfold charset_at. rewrite (proj2 (Z.ltb_ge z 0)) by lia. destruct (str_get_Some (Z.to_nat z) charset) as [c ->]; [|by eexists].
  change (String.length charset) with 36%nat. lia.
Qed.

Lemma random_code_ok bytes : ∃ s, random_code bytes = Ok s ∧ String.length s = length bytes.
Proof.
  induction bytes as [|b bytes (s & Hs & Hl)]; [by exists ""|]. cbn [random_code].
  destruct (charset_ok (b `mod` 36)) as [c ->]; [by apply Z.mod_pos_bound|]. rewrite Hs. exists (String c s). split; [done|]. cbn. by rewrite Hl.
Qed.

Lemma timestamp_code_ok n t : (0 ≤ t)%Z → ∃ s, timestamp_code n t = Ok s ∧ String.length s = n.
Proof.
  revert t. induction n as [|n IH]; intros t Ht; [by exists ""|]. cbn [timestamp_code].
  destruct (charset_ok (Z.rem t 36)) as [c ->]; [by apply Z.rem_bound_pos; lia|].
  destruct (IH (Z.quot t 36)) as (s & -> & Hl); [by apply Z.quot_pos; lia|]. exists (String c s). split; [done|]. cbn. by rewrite Hl.
Qed.

Lemma antifake_ok (n : nat) (random : option (list Z)) now : (0 ≤ now)%Z → match random with Some bytes => (n ≤ length bytes)%nat | None => True end →
  ∃ s, generateAntifakeCode n random now = Ok s ∧ String.length s = n.
Proof.
  intros Hn Hr. unfold generateAntifakeCode. destruct random as [bytes|]; [|by apply timestamp_code_ok].
  destruct (random_code_ok (take n bytes)) as (s & Hs & Hl). exists s. split; [done|]. rewrite Hl, length_take. lia.
Qed.

Lemma read_pad4 z : (0 < z)%Z → read_digits (pad4 z) 0 = Some z.
Proof.
  intros Hz. destruct z as [|p|]; [lia| |lia]. assert (read_digits (pretty (Z.pos p)) 0 = Some (Z.pos p)) as H.
  { change (pretty (Z.pos p)) with (pretty (N.pos p)). unfold pretty, pretty_N. by rewrite decide_False, read_digits_go. }
  unfold pad4. repeat case_match; exact H.
Qed.

Lemma str_app_inj_length a b c d : String.length a = String.length c → a +:+ b = c +:+ d → a = c ∧ b = d.
Proof.
  revert c. induction a as [|x a IH]; intros [|y c]; try done; cbn [String.length].
  rewrite !str_app_cons. intros [= Hl] [= -> H]. destruct (IH c Hl H) as [-> ->]. done.
Qed.

(** The calls in the order of the mutex. *)
Fixpoint business_codes (m : Codes) (calls : list code_call) : list (res () string) :=
  match calls with
  | [] => []
  | (id, month, random, now) :: calls => let (r, m) := issue_code id month random now m in r :: business_codes m calls
  end.

Definition good_call (x : code_call) : Prop :=
  String.length x.1.1.2 = 6%nat ∧ (0 ≤ x.2)%Z ∧ match x.1.2 with Some bytes => (3 ≤ length bytes)%nat | None => True end.
(** No month comes back. *)
Definition never_back (months : list string) : Prop :=
  ∀ i j k a b, (i ≤ j)%nat → (j ≤ k)%nat → months !! i = Some a → months !! k = Some a → months !! j = Some b → b = a.

Lemma never_back_tail x l : never_back (x :: l) → never_back l.
Proof. intros H i j k a b Hij Hjk. apply (H (S i) (S j) (S k)); lia. Qed.

Definition serial_of (m : Codes) (id month : string) : Z := if String.eqb (currentMonth m) month then default 0%Z (counters m !! id) else 0.
Definition next_codes (m : Codes) (id month : string) (n : Z) : Codes :=
  mkCodes month (<[id := n]> (if String.eqb (currentMonth m) month then counters m else ∅)).

Lemma generate_code m id month random now : good_call (id, month, random, now) → (0 ≤ serial_of m id month < max_int64)%Z →
  ∃ a, String.length a = 3%nat ∧
    issue_code id month random now m =
      (Ok (id +:+ month +:+ a +:+ pad4 (serial_of m id month + 1)), next_codes m id month (serial_of m id month + 1)).
Proof.
  intros (_ & Hn & Hr) Hs. destruct (antifake_ok 3 random now Hn Hr) as (a & Ha & Hl). exists a. split; [done|].
  unfold issue_code, serial_of, next_codes in *. rewrite Ha.
  destruct (String.eqb_spec (currentMonth m) month) as [<-|]; cbn [currentMonth counters];
    rewrite ?lookup_empty; cbn [default from_option]; rewrite wrap64_id by (unfold min_int64, max_int64 in *; lia); done.
Qed.

Definition bounded_codes (m : Codes) (n : nat) : Prop := ∀ id, (0 ≤ default 0 (counters m !! id) ∧ default 0 (counters m !! id) + Z.of_nat n ≤ max_int64)%Z.

Lemma bounded_serial m n id month : bounded_codes m (S n) → (0 ≤ serial_of m id month < max_int64)%Z.
Proof. intros H. specialize (H id). unfold serial_of. case_match; unfold max_int64 in *; lia. Qed.

Lemma bounded_next m n id month : bounded_codes m (S n) → bounded_codes (next_codes m id month (serial_of m id month + 1)) n.
Proof.
  intros H id'. pose proof (H id) as H1. pose proof (H id') as H2. unfold next_codes, serial_of. cbn [counters].
  destruct (decide (id' = id)) as [->|Hne].
  - rewrite lookup_insert_eq. cbn. case_match; lia.
  - rewrite lookup_insert_ne by done. case_match; [lia|]. rewrite lookup_empty. cbn. lia.
Qed.

Lemma serial_next m id month id' : serial_of (next_codes m id month (serial_of m id month + 1)) id' month =
  if decide (id' = id) then (serial_of m id month + 1)%Z else serial_of m id' month.
Proof.
  unfold serial_of at 1, next_codes. cbn [currentMonth counters]. rewrite String.eqb_refl.
  destruct (decide (id' = id)) as [->|Hne]; [by rewrite lookup_insert_eq|]. rewrite lookup_insert_ne by done.
  unfold serial_of. case_match; [done|by rewrite lookup_empty].
Qed.

(** Every code is its parts, with a serial number above the counter of its month. *)
Lemma codes_shape calls m j id month random now :
  Forall good_call calls → bounded_codes m (length calls) → never_back (currentMonth m :: calls.*1.*1.*2) →
  calls !! j = Some (id, month, random, now) →
  ∃ a s, business_codes m calls !! j = Some (Ok (id +:+ month +:+ a +:+ pad4 s)) ∧ String.length a = 3%nat ∧
    (serial_of m id month < s)%Z ∧ (0 < s)%Z.
Proof.
  revert m j. induction calls as [|[[[id0 month0] random0] now0] calls IH]; intros m j Hg Hb Hnb Hj; [done|].
  apply list.Forall_cons in Hg as [Hg0 Hg]. cbn [length] in Hb. pose proof (bounded_serial _ _ id0 month0 Hb) as Hs.
  destruct (generate_code m id0 month0 random0 now0 Hg0 Hs) as (a0 & Ha0 & He). cbn [business_codes]. rewrite He.
  destruct j as [|j].
  - cbn in Hj. injection Hj as -> -> -> ->. exists a0, (serial_of m id month + 1)%Z. split_and!; [done|done|lia|lia].
  - change (calls !! j = Some (id, month, random, now)) in Hj. destruct (IH (next_codes m id0 month0 (serial_of m id0 month0 + 1)) j Hg) as (a & s & Hr & Hl & Hlt & Hpos);
      [by apply bounded_next|by apply (never_back_tail (currentMonth m))|done|].
    exists a, s. split_and!; [done|done| |done]. destruct (String.eqb_spec (currentMonth m) month) as [Hm|Hm].
    + (* the month has not changed in between *)
      assert (calls.*1.*1.*2 !! j = Some month) as Hmj by (by rewrite !list_lookup_fmap, Hj).
      assert (month0 = month) as ->.
      { apply (Hnb 0 1 (S (S j)) month month0); [lia|lia|cbn; by rewrite Hm|exact Hmj|done]. }
      rewrite serial_next in Hlt. case_decide; subst; lia.
    + unfold serial_of at 1. by rewrite (proj2 (String.eqb_neq _ _) Hm).
Qed.

(** Under the mutex, as long as no month comes back. *)
Lemma codes_in_order (calls : list code_call) (i j : nat) x y :
  Forall good_call calls → (Z.of_nat (length calls) ≤ max_int64)%Z → never_back ("" :: calls.*1.*1.*2) →
  (i < j)%nat → calls !! i = Some x → calls !! j = Some y → x.1.1.1 = y.1.1.1 →
  ∃ a b, business_codes no_codes calls !! i = Some (Ok a) ∧ business_codes no_codes calls !! j = Some (Ok b) ∧ a ≠ b.
Proof.
  intros Hg Hb. assert (bounded_codes no_codes (length calls)) as Hb' by (intros id; cbn; rewrite lookup_empty; cbn; lia). clear Hb.
  change "" with (currentMonth no_codes). revert i j Hb'. generalize no_codes as m.
  induction calls as [|[[[id0 month0] random0] now0] calls IH]; intros m i j Hb Hnb Hij Hi Hj Hid; [done|].
  apply list.Forall_cons in Hg as [Hg0 Hg]. cbn [length] in Hb. pose proof (bounded_serial _ _ id0 month0 Hb) as Hs.
  destruct (generate_code m id0 month0 random0 now0 Hg0 Hs) as (a0 & Ha0 & He). cbn [business_codes]. rewrite He.
  destruct j as [|j]; [lia|]. cbn in Hj. pose proof (bounded_next _ _ id0 month0 Hb) as Hb'. pose proof (never_back_tail _ _ Hnb) as Hnb'.
  destruct i as [|i]; [|cbn in Hi; apply (IH Hg (next_codes m id0 month0 (serial_of m id0 month0 + 1)) i j Hb' Hnb'); [lia|done..]].
  cbn in Hi. injection Hi as <-. destruct y as [[[id month] random] now]. cbn in Hid. subst id.
  destruct (codes_shape calls (next_codes m id0 month0 (serial_of m id0 month0 + 1)) j id0 month random now Hg Hb' Hnb' Hj)
    as (a & s & Hr & Hl & Hlt & Hpos).
  eexists _, _. split_and!; [done|exact Hr|]. intros Heq. apply (str_app_inj_length id0 _ id0) in Heq as [_ Heq]; [|done].
  assert (good_call (id0, month, random, now)) as (Hm & _) by (eapply list.Forall_lookup_1; [exact Hg|exact Hj]).
  destruct Hg0 as (Hm0 & _). cbn in Hm, Hm0. apply str_app_inj_length in Heq as [-> Heq]; [|congruence].
  apply str_app_inj_length in Heq as [_ Heq]; [|congruence]. apply (f_equal (λ s, read_digits s 0)) in Heq.
  rewrite !read_pad4 in Heq by lia. rewrite serial_next, decide_True in Hlt by done. injection Heq as Heq. lia.
Qed.

(** The state the calls leave behind the mutex. *)
Definition codes_after (calls : list code_call) (m : Codes) : Codes :=
  foldl (λ m x, (issue_code x.1.1.1 x.1.1.2 x.1.2 x.2 m).2) m calls.
Lemma business_codes_app m a b : business_codes m (a ++ b)%list = (business_codes m a ++ business_codes (codes_after a m) b)%list.
Proof.
  revert m. induction a as [|[[[id mo] ra] no] a IH]; intros m; [done|]. cbn [app business_codes codes_after foldl fst snd].
  destruct (issue_code id mo ra no m) as [r m']. cbn [app snd]. f_equal. apply IH.
Qed.

Definition call_at (x : nat * code_call * res () string) : code_call := x.1.2.
Definition month_at (x : nat * code_call * res () string) : string := (call_at x).1.1.2.
Definition read_at (x : nat * code_call * res () string) : nat := x.1.1.

(** What is returned is what the calls return in the order of the mutex, each for
    the month at the position it read; no two calls share a reading. *)
Record consistent (w : CodeWorld) : Prop := {
  co_results : (issued w).*2 = business_codes no_codes (call_at <$> issued w);
  co_codes : codes w = codes_after (call_at <$> issued w) no_codes;
  co_issued x : x ∈ issued w → readings w !! read_at x = Some (month_at x);
  co_waiting i p m : waiting w !! i = Some (p, m) → readings w !! p = Some m ∧ p ∉ read_at <$> issued w;
  co_distinct : NoDup (read_at <$> issued w);
  co_apart i j p m m' : waiting w !! i = Some (p, m) → waiting w !! j = Some (p, m') → i = j }.

Lemma step_consistent e w w' : consistent w → GenerateBusinessCode e w = Some w' → consistent w'.
Proof.
  intros Hw. pose proof (co_issued w Hw) as Hi. pose proof (co_waiting w Hw) as Hwa. destruct e as [i month|i id random now]; cbn [GenerateBusinessCode].
  - destruct (waiting w !! i) as [|] eqn:Hn; [done|]. intros [= <-]. split; cbn [codes readings waiting issued].
    + apply (co_results w Hw).
    + apply (co_codes w Hw).
    + intros x Hx. apply lookup_app_l_Some. by apply Hi.
    + intros k p m. destruct (decide (k = i)) as [->|Hk]; [rewrite lookup_insert_eq; intros [= <- <-]|rewrite lookup_insert_ne by done].
      * split; [by apply list_lookup_middle|]. intros (x & Hp & Hx)%list_elem_of_fmap. apply Hi in Hx. rewrite <- Hp in Hx.
        apply lookup_lt_Some in Hx. lia.
      * intros Hp. destruct (Hwa k p m Hp) as [? ?]. split; [by apply lookup_app_l_Some|done].
    + apply (co_distinct w Hw).
    + assert (∀ k p m, waiting w !! k = Some (p, m) → p ≠ length (readings w)) as Hlt.
      { intros k p m Hp. destruct (Hwa k p m Hp) as [Hl%lookup_lt_Some _]. lia. }
      intros k l p m m'. destruct (decide (k = i)) as [->|Hk], (decide (l = i)) as [->|Hl];
        rewrite ?lookup_insert_eq, ?lookup_insert_ne by done; [done|intros [= <- <-] Hx; by destruct (Hlt _ _ _ Hx)|intros Hx [= <- <-]; by destruct (Hlt _ _ _ Hx)|].
      apply (co_apart w Hw).
  - destruct (waiting w !! i) as [[p month]|] eqn:Hp; [|done]. cbn [mbind option_bind]. destruct (issue_code id month random now (codes w)) as [r m] eqn:He.
    intros [= <-]. destruct (Hwa i p month Hp) as [Hr Hni]. split; cbn [codes readings waiting issued].
    + rewrite !fmap_app, business_codes_app, <- (co_codes w Hw), (co_results w Hw). f_equal. cbn [fmap list_fmap business_codes call_at fst snd]. by rewrite He.
    + rewrite fmap_app. unfold codes_after. rewrite foldl_app. fold (codes_after (call_at <$> issued w) no_codes). rewrite <- (co_codes w Hw). cbn [fmap list_fmap foldl call_at fst snd]. by rewrite He.
    + intros x [Hx| ->%list_elem_of_singleton]%elem_of_app; [by apply Hi|done].
    + intros k q m'. destruct (decide (k = i)) as [->|Hk]; [by rewrite lookup_delete_eq|rewrite lookup_delete_ne by done]. intros Hq.
      destruct (Hwa k q m' Hq) as [? ?]. split; [done|]. rewrite fmap_app, elem_of_app. intros [?|Hq'%list_elem_of_singleton]; [done|].
      cbn in Hq'. subst q. by destruct (co_apart w Hw k i p m' month Hq Hp).
    + rewrite fmap_app. apply list.NoDup_app. split_and!; [apply (co_distinct w Hw)| |repeat constructor; by intros ?%elem_of_nil].
      intros q Hq Hq'%list_elem_of_singleton. cbn in Hq'. by subst q.
    + intros k l q m1 m2. rewrite !lookup_delete_Some. intros [_ H1] [_ H2]. by apply (co_apart w Hw k l q m1 m2).
Qed.

Lemma run_consistent es w : run_codes es no_calls = Some w → consistent w.
Proof.
  assert (consistent no_calls) as H0.
  { split; try done; [by intros x ?%elem_of_nil|constructor]. }
  revert H0. generalize no_calls as w0. induction es as [|e es IH]; intros w0 H0; cbn [run_codes]; [by intros [= <-]|].
  destruct (GenerateBusinessCode e w0) as [w1|] eqn:He; [|done]. cbn [mbind option_bind]. apply IH. by apply (step_consistent e w0).
Qed.

(** A call overtook another across a change of the month: it had the mutex before
    one of another month that had read the clock before it. *)
Definition overtaken (w : CodeWorld) : Prop :=
  ∃ i j x y, (i < j)%nat ∧ issued w !! i = Some x ∧ issued w !! j = Some y ∧ month_at x ≠ month_at y ∧ (read_at y < read_at x)%nat.

(** C26: Business codes are unique, but for a race.  In every interleaving of
    goroutines, each of which reads the month and then takes the mutex: if the
    clock never returns to an earlier month and no call is overtaken between the
    two by one of another month, every call gives a code and two calls with one
    identifier never give the same, whatever random characters they have.  (The
    month is read outside the mutex: [codes_race] is a run in which it matters.) *)
Theorem business_codes_distinct (es : list code_step) (w : CodeWorld) (i j : nat) x y :
  run_codes es no_calls = Some w →
  Forall good_call (call_at <$> issued w) → (Z.of_nat (length (issued w)) ≤ max_int64)%Z →
  never_back (readings w) → ¬ overtaken w →
  (i < j)%nat → issued w !! i = Some x → issued w !! j = Some y → (call_at x).1.1.1 = (call_at y).1.1.1 →
  ∃ a b, x.2 = Ok a ∧ y.2 = Ok b ∧ a ≠ b.
Proof.
  intros Hrun Hg Hlen Hnb Hno Hij Hx Hy Hid. pose proof (run_consistent es w Hrun) as Hw.
  assert (∀ k z, issued w !! k = Some z → readings w !! read_at z = Some (month_at z)) as Hread.
  { intros k z Hz. apply (co_issued w Hw). by apply list_elem_of_lookup_2 in Hz. }
  assert (∀ k l z u, (k < l)%nat → issued w !! k = Some z → issued w !! l = Some u → month_at z ≠ month_at u → (read_at z < read_at u)%nat) as Hord.
  { intros k l z u Hkl Hz Hu Hne. destruct (Nat.lt_trichotomy (read_at z) (read_at u)) as [?|[Heq|Hlt]]; [done| |].
    - apply Hread in Hz, Hu. rewrite Heq in Hz. congruence.
    - destruct Hno. by exists k, l, z, u. }
  assert (((call_at <$> issued w).*1).*1.*2 = month_at <$> issued w) as Hmonths by (by rewrite <- !list_fmap_compose).
  assert (never_back ("" :: ((call_at <$> issued w).*1).*1.*2)) as Hnb'.
  { rewrite Hmonths. intros k l n a b Hkl Hln Hk Hn Hl. destruct k as [|k].
    - cbn in Hk. injection Hk as <-. destruct n as [|n]; [assert (l = 0%nat) as -> by lia; cbn in Hl; congruence|].
      cbn in Hn. apply list_lookup_fmap_Some in Hn as (z & Hm & Hz). exfalso.
      assert (good_call (call_at z)) as [Hl6 _] by (apply (list.Forall_lookup_1 _ _ n _ Hg); by rewrite list_lookup_fmap, Hz).
      fold (month_at z) in Hl6. rewrite <- Hm in Hl6. discriminate Hl6.
    - destruct l as [|l], n as [|n]; [lia..|]. cbn in Hk, Hl, Hn.
      apply list_lookup_fmap_Some in Hk as (z & -> & Hz), Hl as (u & -> & Hu), Hn as (v & Hm & Hv).
      destruct (decide (month_at u = month_at z)) as [|Hne]; [done|].
      assert (k ≠ l ∧ l ≠ n) as [Hkl' Hln'] by (split; intros ->; congruence).
      apply (Hnb (read_at z) (read_at u) (read_at v) (month_at z) (month_at u)); [| |by apply (Hread k)|rewrite Hm; by apply (Hread n)|by apply (Hread l)].
      + apply Nat.lt_le_incl, (Hord k l); [lia|done..|congruence].
      + apply Nat.lt_le_incl, (Hord l n); [lia|done..|congruence]. }
  destruct (codes_in_order (call_at <$> issued w) i j (call_at x) (call_at y)) as (a & b & Ha & Hb & Hne);
    [done|by rewrite length_fmap|done|done|by rewrite list_lookup_fmap, Hx|by rewrite list_lookup_fmap, Hy|done|].
  rewrite <- (co_results w Hw), list_lookup_fmap in Ha, Hb. rewrite Hx in Ha. rewrite Hy in Hb. exists a, b. cbn in Ha, Hb. split_and!; congruence.
Qed.

(** Three goroutines around the end of a month, with a clock that only goes on:
    the third reads September, and takes the mutex after the second, which read
    October.  It starts the counters of September again, and with the same random
    characters its code is the one of the first. *)
Definition race_steps : list code_step :=
  [ERead 1 "202009"; ERead 3 "202009"; ERead 2 "202010";
   EIssue 1 "CO" (Some [0; 1; 2]%Z) 0; EIssue 2 "CO" (Some [0; 1; 2]%Z) 0; EIssue 3 "CO" (Some [0; 1; 2]%Z) 0].
Theorem codes_race : ∃ w, run_codes race_steps no_calls = Some w ∧ readings w = ["202009"; "202009"; "202010"] ∧
  (issued w).*2 = [Ok "CO202009ABC0001"; Ok "CO202010ABC0001"; Ok "CO202009ABC0001"].
Proof. eexists. split; [vm_compute; reflexivity|]. split; reflexivity. Qed.

(** Gin contexts in memory. *)
#[export, program] Instance memory_gin : GinStore (gmap (nat * string) value) := {
  gin_get g k s := s !! (g, k); gin_put g k v s := <[(g, k) := v]> s }.
Next Obligation.
  intros g k v s g' k'. cbn. destruct (decide (g' = g ∧ k' = k)) as [[-> ->]|Hne]; [by rewrite lookup_insert_eq|].
  rewrite lookup_insert_ne; [done|]. intros [= -> ->]. by apply Hne.
Qed.

(** A value written through a child is read through its parent. *)
Example child_writes_parent_reads :
  let parent := WithGinContext [] 0 in
  let w := mkWorld (∅ : gmap (nat * string) value) 0 0 in
  let (w1, parent) := SetUserID w parent "alice" in
  let (w2, child) := SetUserID w1 parent "mallory" in
  GetUserID w1 parent = "alice" ∧ GetUserID w2 parent = "mallory".
Proof. by vm_compute. Qed.

(** With a clock that goes back a code can come twice. *)
Example codes_repeat : business_codes no_codes
    [("CO", "202009", Some [0; 1; 2], 0); ("CO", "202010", Some [0; 1; 2], 0); ("CO", "202009", Some [0; 1; 2], 0)]%Z =
  [Ok "CO202009ABC0001"; Ok "CO202010ABC0001"; Ok "CO202009ABC0001"].
Proof. by vm_compute. Qed.

(** ** The hypotheses can be met *)

Definition fresh_world : World (gmap (nat * string) value) := mkWorld ∅ 0 0.

Lemma trace_id_stable_witness : let '(w', c', id) := EnsureTraceID "t1" fresh_world [] in
  id ≠ "" ∧ GetTraceID w' c' = id ∧ EnsureTraceID "t2" w' c' = (w', c', id) ∧
  (GetTraceID fresh_world [] ≠ "" → id = GetTraceID fresh_world [] ∧ w' = fresh_world ∧ c' = []).
Proof. by apply (trace_id_stable "t1" "t2" fresh_world []). Defined.

Lemma sender_remembered_iff_witness :
  (GetEmailSender (Some 0) (λ _, Some "smtp") (λ _, true) fresh_world []).1 = Ok 0%nat ∧
  (GetEmailSender (Some 0) (λ _, Some "smtp") (λ _, true) (mkWorld (∅ : gmap (nat * string) value) 1 0) []).1 = Ok 1%nat ∧
  ∀ c', GetGinContext c' = Some 7%nat →
    GetEmailSender (Some 0) (λ _, Some "smtp") (λ _, true) (gin_set 7 emailSender (VSender 0) (mkWorld (∅ : gmap (nat * string) value) 1 0)) c' =
    (Ok 0%nat, gin_set 7 emailSender (VSender 0) (mkWorld (∅ : gmap (nat * string) value) 1 0)).
Proof.
  split; [done|]. split.
  - apply (sender_remembered_iff (Some 0) (λ _, Some "smtp") (λ _, true) fresh_world (mkWorld (∅ : gmap (nat * string) value) 1 0) [] 0); done.
  - apply (sender_remembered_iff (Some 0) (λ _, Some "smtp") (λ _, true) fresh_world _ (WithGinContext [] 7) 0); done.
Defined.

(** Two goroutines, the second of which overtakes the first within the month. *)
Definition three_steps : list code_step :=
  [ERead 1 "202009"; ERead 2 "202009"; EIssue 2 "CO" (Some [0; 1; 2]%Z) 0; EIssue 1 "CO" (Some [0; 1; 2]%Z) 0; ERead 1 "202010"; EIssue 1 "CO" None 36].
Definition three_world : CodeWorld := default no_calls (run_codes three_steps no_calls).

Lemma business_codes_distinct_witness :
  (issued three_world).*2 = [Ok "CO202009ABC0001"; Ok "CO202009ABC0002"; Ok "CO202010ABA0001"] ∧
  ∃ x y a b, issued three_world !! 0%nat = Some x ∧ issued three_world !! 1%nat = Some y ∧ x.2 = Ok a ∧ y.2 = Ok b ∧ a ≠ b.
Proof.
  split; [vm_compute; reflexivity|].
  pose (x := (1%nat, ("CO", "202009", Some [0; 1; 2]%Z, 0%Z), Ok (E := ()) "CO202009ABC0001")).
  pose (y := (0%nat, ("CO", "202009", Some [0; 1; 2]%Z, 0%Z), Ok (E := ()) "CO202009ABC0002")).
  destruct (business_codes_distinct three_steps three_world 0 1 x y) as (a & b & Ha & Hb & Hne);
    [vm_compute; reflexivity|repeat constructor; cbn; lia|vm_compute; discriminate| | |lia|vm_compute; reflexivity|vm_compute; reflexivity|reflexivity|].
  - change (readings three_world) with ["202009"; "202009"; "202010"].
    intros [|[|[|i]]] [|[|[|k]]] [|[|[|l]]] a b Hij Hjk Hi Hk Hj; try lia; cbn in Hi, Hj, Hk; try congruence; discriminate.
  - intros (i & k & u & v & Hik & Hu & Hv & Hm & Hlt). revert Hu Hv.
    change (issued three_world) with [x; y; (2%nat, ("CO", "202010", None, 36%Z), Ok (E := ()) "CO202010ABA0001")].
    destruct i as [|[|[|i]]], k as [|[|[|k]]]; try lia; cbn; intros [= <-] [= <-]; cbn in Hm, Hlt; try congruence; lia.
  - exists x, y, a, b. split; [vm_compute; reflexivity|]. split; [vm_compute; reflexivity|]. split; [exact Ha|]. split; [exact Hb|exact Hne].
Defined.
