(* ===== verification/ClientInfo.v ===== *)
(** * What a request says about the client

    Models src/ctxutil/http.go: addresses, user agents, sessions and headers of
    the request that a context holds, directly or in its *gin.Context.  [ParseIP],
    [ParseCIDR] and [SplitHostPort] are those of package net.  The methods of
    *gin.Context are arguments; letters are ASCII. *)

From stdpp Require Import base tactics option list gmap strings numbers pretty.
From Stdlib Require Import ZArith Ascii Lia.
From S2P Require Import Prelude Float64 Base64 Lexer GoStrings Paging Utils CtxUtil.

Open Scope string_scope.

(** ** Package net *)

Definition all_digits (s : string) : bool := negb (String.eqb s "") && str_all isDigit s.

(** A field of an IPv4 address: no leading zero, at most 255. *)
Definition octet (s : string) : option Z :=
  if negb (all_digits s) then None
  else match s with
  | String "0" (String _ _) => None
  | _ => match read_digits s 0 with Some v => if (v <=? 255)%Z then Some v else None | None => None end
  end.
Definition parseIPv4 (s : string) : option Z :=
  match mapM octet (Split "." s) with
  | Some [a; b; c; d] => Some (((a * 256 + b) * 256 + c) * 256 + d)%Z
  | _ => None
  end.

Definition hex_val (c : ascii) : option Z :=
  if isDigit c then Some (digit_val c) else if isHexLetter c then Some (code_of (lower_ascii c) - 87)%Z else None.
(** The hexadecimal digits at the front: how many, their value and the rest;
    more than four are refused. *)
Fixpoint hex_field (s : string) (n : nat) (acc : Z) : option (nat * Z * string) :=
  match s with
  | String c s' =>
      match hex_val c with
      | Some v => if (3 <? n)%nat then None else hex_field s' (S n) (acc * 16 + v)
      | None => Some (n, acc, s)
      end
  | EmptyString => Some (n, acc, s)
  end.

(** The groups of 16 bits of an IPv6 address from the [i]th byte on: those read,
    the place of the ellipsis among them, if any, and the rest of the text. *)
Fixpoint groups (fuel : nat) (s : string) (read : list Z) (ellipsis : option nat) : option (list Z * option nat * string) :=
  match fuel with
  | O => Some (read, ellipsis, s)
  | S fuel =>
      match hex_field s 0 0 with
      | None | Some (O, _, _) => None
      | Some (_, _, String "." _) =>
          (* an IPv4 address in the last two groups *)
          if match ellipsis with None => negb (length read =? 6)%nat | Some _ => false end || (6 <? length read)%nat then None
          else v4 ← parseIPv4 s; Some (read ++ [Z.shiftr v4 16; v4 `mod` 65536], ellipsis, "")%Z%list
      | Some (_, acc, s) =>
          let read := (read ++ [acc])%list in
          match s with
          | EmptyString => Some (read, ellipsis, "")
          | String ":" EmptyString => None
          | String ":" (String ":" s) =>
              match ellipsis with
              | Some _ => None
              | None => if String.eqb s "" then Some (read, Some (length read), "") else groups fuel s read (Some (length read))
              end
          | String ":" s => groups fuel s read ellipsis
          | _ => None
          end
      end
  end.

Definition address (l : list Z) : Z := foldl (λ a g, a * 65536 + g)%Z 0%Z l.
Definition parseIPv6 (s : string) : option Z :=
  let '(s, ellipsis) := match CutPrefix "::" s with Some r => (r, Some 0) | None => (s, None) end in
  if match ellipsis with Some _ => String.eqb s "" | None => false end then Some 0%Z
  else
    match groups 8 s [] ellipsis with
    | Some (read, ellipsis, "") =>
        match ellipsis with
        | None => if (length read =? 8)%nat then Some (address read) else None
        | Some k => if (length read <? 8)%nat then Some (address (take k read ++ replicate (8 - length read) 0%Z ++ drop k read)) else None
        end
    | _ => None
    end.

(** An address as a number of 128 bits; IPv4 addresses are mapped. *)
Definition mapped (v4 : Z) : Z := (65535 * 2 ^ 32 + v4)%Z.
Definition To4 (ip : Z) : option Z := if (Z.shiftr ip 32 =? 65535)%Z then Some (ip `mod` 2 ^ 32)%Z else None.
(** What the first of point, colon and percent sign in the text is. *)
Fixpoint address_kind (s : string) : option ascii :=
  match s with
  | EmptyString => None
  | String c s => if Ascii.eqb c "." || Ascii.eqb c ":" || Ascii.eqb c "%" then Some c else address_kind s
  end.
(** Addresses with a zone are refused. *)
Definition ParseIP (s : string) : option Z :=
  if has_byte "%" s then None
  else match address_kind s with
  | Some "."%char => mapped <$> parseIPv4 s
  | Some ":"%char => parseIPv6 s
  | _ => None
  end.

(** For networks that are no mapped addresses.
    A network: whether it is of IPv4, its number and how many bits count. *)
Record IPNet := mkNet { is4 : bool; number : Z; ones : Z }.
Definition width (b : bool) : Z := if b then 32 else 128.
Definition ParseCIDR (s : string) : option IPNet :=
  '(addr, mask) ← SplitN2 "/" s;
  ip ← ParseIP addr;
  n ← (if all_digits mask then read_digits mask 0 else None);
  let b := is_some_b (parseIPv4 addr) in
  if (n <=? width b)%Z then Some (mkNet b (default ip (if b then To4 ip else None)) n) else None.
Definition NetContains (subnet : IPNet) (ip : Z) : bool :=
  let same (x : Z) := (Z.shiftr x (width (is4 subnet) - ones subnet) =? Z.shiftr (number subnet) (width (is4 subnet) - ones subnet))%Z in
  match To4 ip with
  | Some x => is4 subnet && same x
  | None => negb (is4 subnet) && same ip
  end.

(** [net.SplitHostPort]: the host, or an error. *)
Definition last_part (sep : ascii) (s : string) : option (string * string) :=
  match reverse (Split sep s) with x :: y :: l => Some (Join (String sep EmptyString) (reverse (y :: l)), x) | _ => None end.
Definition SplitHostPort (hostport : string) : option string :=
  '(before, port) ← last_part ":" hostport;
  match hostport with
  | String "[" rest =>
      '(host, after) ← SplitN2 "]" rest;
      (* what follows the bracket is the last colon and the port *)
      if String.eqb after (String ":" port) && negb (has_byte "[" host) && negb (has_byte "[" after) && negb (has_byte "]" after) then Some host else None
  | _ => if has_byte ":" before || has_byte "[" hostport || has_byte "]" hostport then None else Some before
  end.

(** ** Requests *)

Record Url := mkUrl { Scheme : string; u_text : string; Query : gmap string (list string) }.
(** [cookies] are those that net/http reads from the headers. *)
Record Request := mkRequest { Header : gmap string (list string); Host : string; RemoteAddr : string; Method : string; RequestURI : string;
  TLS : bool; URL : option Url; cookies : list (string * string) }.

(** The key of a header: capital letters at the front and after hyphens. *)
Fixpoint canonical (upper : bool) (s : string) : string :=
  match s with
  | EmptyString => ""
  | String c s => String (if upper then upper_ascii c else lower_ascii c) (canonical (Ascii.eqb c "-") s)
  end.
Definition header (r : Request) (key : string) : string := match Header r !! canonical true key with Some (v :: _) => v | _ => "" end.
(** The first cookie of a name. *)
Definition find_cookie (l : list (string * string)) (name : string) : option string := snd <$> List.find (λ p, String.eqb p.1 name) l.

Definition clientIPKey : string := "client_ip".
Definition userAgentKey : string := "user_agent".
Definition sessionIDKey : string := "session_id".
Definition refererKey : string := "referer".
Definition httpRequestKey : string := "http_request".

Definition privateRanges : list string :=
  ["10.0.0.0/8"; "172.16.0.0/12"; "192.168.0.0/16"; "127.0.0.0/8"; "169.254.0.0/16"; "::1/128"; "fc00::/7"; "fe80::/10"].
(** Texts that are no address count as private. *)
Definition isPrivateIP (ipStr : string) : bool :=
  match ParseIP ipStr with
  | None => true
  | Some ip => existsb (λ rangeStr, match ParseCIDR rangeStr with Some subnet => NetContains subnet ip | None => false end) privateRanges
  end.

Definition getIPFromAddr (addr : string) : string :=
  if String.eqb addr "" then "unknown" else default addr (SplitHostPort addr).

(** A header that holds an address, if it is a public one. *)
Definition public (ip : string) : option string := if negb (String.eqb ip "") && negb (isPrivateIP ip) then Some ip else None.
Definition first_forwarded (xForwardedFor : string) : string :=
  match Split "," xForwardedFor with ip :: _ => TrimSpace ip | [] => "" end.
Definition proxyHeaders : list string := ["X-Forwarded"; "Forwarded-For"; "Forwarded"; "X-Client-IP"; "X-Cluster-Client-IP"].
Fixpoint first_public (get : string → string) (headers : list string) : option string :=
  match headers with
  | [] => None
  | h :: headers => match public (get h) with Some ip => Some ip | None => first_public get headers end
  end.

(** The requests there are, by address, and what the gin contexts do: the
    request, its headers and cookies, [ClientIP] and [ContentType]. *)
Class GinRequests := {
  request : nat → Request;
  gin_request : nat → option nat;
  gin_header : nat → string → string;
  gin_cookie : nat → string → option string;
  gin_client_ip : nat → string;
  gin_content_type : nat → string }.

Section Requests.
Context {G : Type} `{!GinStore G} {GR : GinRequests}.
Abbreviation World := (World G).

Definition SetHTTPRequest (w : World) c (req : option nat) := SetValue w c httpRequestKey (VRequest req).
Definition GetHTTPRequest (w : World) c : option nat :=
  match GetValue w c httpRequestKey with
  | VRequest req => req
  | _ => match GetGinContext c with Some g => gin_request g | None => None end
  end.

Definition getClientIPFromGin (g : nat) : string :=
  match (if String.eqb (gin_header g "X-Forwarded-For") "" then None else public (first_forwarded (gin_header g "X-Forwarded-For"))) with
  | Some ip => ip
  | None => match public (gin_header g "X-Real-IP") with
  | Some ip => ip
  | None => match public (gin_header g "CF-Connecting-IP") with
  | Some ip => ip
  | None => match first_public (gin_header g) proxyHeaders with
  | Some ip => ip
  | None =>
      if negb (String.eqb (gin_client_ip g) "") then gin_client_ip g
      else match gin_request g with Some r => getIPFromAddr (RemoteAddr (request r)) | None => "unknown" end
  end end end end.

Definition getClientIPFromRequest (r : Request) : string :=
  match (if String.eqb (header r "X-Forwarded-For") "" then None else public (first_forwarded (header r "X-Forwarded-For"))) with
  | Some ip => ip
  | None => match public (header r "X-Real-IP") with
  | Some ip => ip
  | None => match public (header r "CF-Connecting-IP") with
  | Some ip => ip
  | None => getIPFromAddr (RemoteAddr r)
  end end end.

(** A value that was set, unless it is empty. *)
Definition set_string (key : string) (w : World) c : option string :=
  match GetValue w c key with VString s => if String.eqb s "" then None else Some s | _ => None end.
Definition nonempty (s : string) : option string := if String.eqb s "" then None else Some s.
(** The first that is there. *)
Definition or_else {A} (o p : option A) : option A := match o with Some x => Some x | None => p end.

Definition SetClientIP (w : World) c ip := SetValue w c clientIPKey (VString ip).
Definition GetClientIP (w : World) c : string :=
  match set_string clientIPKey w c with
  | Some ip => ip
  | None => match GetGinContext c with
  | Some g => getClientIPFromGin g
  | None => match GetHTTPRequest w c with Some r => getClientIPFromRequest (request r) | None => "unknown" end
  end end.

Definition SetUserAgent (w : World) c userAgent := SetValue w c userAgentKey (VString userAgent).
(** A header of the gin context, else of the request. *)
Definition from_gin (c : ctx) (key : string) : option string := g ← GetGinContext c; nonempty (gin_header g key).
Definition from_request (w : World) c (key : string) : option string := r ← GetHTTPRequest w c; nonempty (header (request r) key).
Definition GetUserAgent (w : World) c : string :=
  default "unknown" (or_else (set_string userAgentKey w c) (or_else (from_gin c "User-Agent") (from_request w c "User-Agent"))).

Definition SetSessionID (w : World) c sessionID := SetValue w c sessionIDKey (VString sessionID).
Definition GetSessionID (w : World) c : string :=
  default "" (or_else (set_string sessionIDKey w c)
    (or_else (g ← GetGinContext c; or_else (gin_cookie g "session_id" ≫= nonempty) (nonempty (gin_header g "X-Session-ID")))
      (r ← GetHTTPRequest w c; or_else (find_cookie (cookies (request r)) "session_id" ≫= nonempty) (nonempty (header (request r) "X-Session-ID"))))).

Definition SetClientInfo (w : World) c (ip userAgent sessionID : string) : World * ctx :=
  let (w, c) := SetClientIP w c ip in
  let (w, c) := SetUserAgent w c userAgent in
  if negb (String.eqb sessionID "") then SetSessionID w c sessionID else (w, c).
Definition GetClientInfo (w : World) c : string * string * string := (GetClientIP w c, GetUserAgent w c, GetSessionID w c).

(** *** Headers and parts of the request *)

Definition SetReferer (w : World) c referer := SetValue w c refererKey (VString referer).
Definition GetReferer (w : World) c : string :=
  default "" (or_else (or_else (from_gin c "Referer") (from_gin c "Referrer")) (or_else (from_request w c "Referer") (from_request w c "Referrer"))).
Definition GetAcceptLanguage (w : World) c : string := default "" (or_else (from_gin c "Accept-Language") (from_request w c "Accept-Language")).
Definition GetContentType (w : World) c : string :=
  match GetGinContext c with
  | Some g => gin_content_type g
  | None => match GetHTTPRequest w c with Some r => header (request r) "Content-Type" | None => "" end
  end.

(** The request of the gin context, else the one set. *)
Definition current_request (w : World) c : option Request :=
  request <$> or_else (GetGinContext c ≫= gin_request) (GetHTTPRequest w c).
Definition GetHost (w : World) c : string := default "" (Host <$> current_request w c).
Definition GetRemoteAddr (w : World) c : string := default "" (RemoteAddr <$> current_request w c).
Definition GetRequestMethod (w : World) c : string := default "" (Method <$> current_request w c).
Definition GetRequestURI (w : World) c : string := default "" (RequestURI <$> current_request w c).
Definition first_values (m : gmap string (list string)) : gmap string string := omap head m.
Definition GetRequestHeaders (w : World) c : gmap string string := default ∅ (first_values ∘ Header <$> current_request w c).

(** The URL of the gin context's request is not checked for nil. *)
Definition url_of (w : World) c : res () (option Url) :=
  match GetGinContext c ≫= gin_request with
  | Some r => match URL (request r) with Some u => Ok (Some u) | None => Panic end
  | None => Ok (r ← GetHTTPRequest w c; URL (request r))
  end.
Definition GetRequestURL (w : World) c : res () string := (let! o := url_of w c in Ok (default "" (u_text <$> o)))%go.
Definition GetQueryParams (w : World) c : res () (gmap string string) := (let! o := url_of w c in Ok (default ∅ (first_values ∘ Query <$> o)))%go.

Definition IsAjaxRequest (w : World) c : bool :=
  match GetGinContext c with
  | Some g => String.eqb (str_map lower_ascii (gin_header g "X-Requested-With")) "xmlhttprequest"
  | None => match GetHTTPRequest w c with
            | Some r => String.eqb (str_map lower_ascii (header (request r) "X-Requested-With")) "xmlhttprequest"
            | None => false
            end
  end.
Definition secure (r : Request) (proto : string) : res () bool :=
  if TLS r then Ok true
  else if String.eqb proto "https" then Ok true
  else match URL r with Some u => Ok (String.eqb (Scheme u) "https") | None => Panic end.
Definition IsSecureRequest (w : World) c : res () bool :=
  match GetGinContext c with
  | Some g =>
      match gin_request g with
      | Some r => secure (request r) (gin_header g "X-Forwarded-Proto")
      | None => match GetHTTPRequest w c with Some r => secure (request r) (header (request r) "X-Forwarded-Proto") | None => Ok false end
      end
  | None => match GetHTTPRequest w c with Some r => secure (request r) (header (request r) "X-Forwarded-Proto") | None => Ok false end
  end.

(** *** User agents *)

Record UserAgentInfo := mkUserAgent { Browser : string; Version : string; OS : string; Platform : string; Mobile : bool }.
Definition no_agent : UserAgentInfo := mkUserAgent "" "" "" "" false.

Definition agent_mobile (ua : string) : bool := existsb (Contains ua) ["mobile"; "android"; "iphone"; "ipad"; "windows phone"].
Definition agent_os (ua : string) : string :=
  if Contains ua "windows" then "Windows"
  else if Contains ua "macintosh" || Contains ua "mac os" then "macOS"
  else if Contains ua "linux" then "Linux"
  else if Contains ua "android" then "Android"
  else if Contains ua "iphone" || Contains ua "ipad" then "iOS"
  else "".
Definition agent_browser (ua : string) : string :=
  if Contains ua "edge" then "Microsoft Edge"
  else if Contains ua "chrome" then "Google Chrome"
  else if Contains ua "firefox" then "Mozilla Firefox"
  else if Contains ua "safari" && negb (Contains ua "chrome") then "Safari"
  else if Contains ua "opera" then "Opera"
  else "".
Definition ParseUserAgent (userAgent : string) : UserAgentInfo :=
  if String.eqb userAgent "" then no_agent
  else let ua := str_map lower_ascii userAgent in mkUserAgent (agent_browser ua) "" (agent_os ua) "" (agent_mobile ua).
Definition GetParsedUserAgent (w : World) c : UserAgentInfo :=
  let userAgent := GetUserAgent w c in
  if String.eqb userAgent "unknown" || String.eqb userAgent "" then no_agent else ParseUserAgent userAgent.

(** ** Facts *)

(** *** Values that were set *)

Lemma set_string_set (w : World) c k v k' : k ≠ ginContextKey →
  set_string k' (SetValue w c k (VString v)).1 (SetValue w c k (VString v)).2 = if decide (k' = k) then nonempty v else set_string k' w c.
Proof. intros Hk. unfold set_string. rewrite GetValue_set by done. by case_decide. Qed.

Lemma http_request_set (w : World) c k v : k ≠ ginContextKey → k ≠ httpRequestKey →
  GetHTTPRequest (SetValue w c k v).1 (SetValue w c k v).2 = GetHTTPRequest w c.
Proof. intros Hk Hh. unfold GetHTTPRequest. rewrite GetValue_set, gin_of_set by done. by rewrite decide_False by congruence. Qed.

Lemma GetSessionID_set (w : World) c k v : k ≠ ginContextKey → k ≠ httpRequestKey → k ≠ sessionIDKey →
  GetSessionID (SetValue w c k (VString v)).1 (SetValue w c k (VString v)).2 = GetSessionID w c.
Proof.
  intros Hk Hh Hs. unfold GetSessionID. rewrite set_string_set, http_request_set, gin_of_set by done. by rewrite decide_False by congruence.
Qed.

Lemma GetSessionID_own (w : World) c v : v ≠ "" → GetSessionID (SetSessionID w c v).1 (SetSessionID w c v).2 = v.
Proof.
  intros Hv. unfold GetSessionID, SetSessionID. rewrite set_string_set, decide_True by done. unfold nonempty.
  by destruct (String.eqb_spec v "").
Qed.

(** What is said about the client is read back.  After [SetClientInfo] of an
    address and a user agent that are not empty [GetClientInfo] answers them and
    the session that was given, or, if none was, the one it answered before. *)
Theorem client_info_roundtrip (w : World) (c : ctx) (ip userAgent sessionID : string) :
  ip ≠ "" → userAgent ≠ "" →
  let (w', c') := SetClientInfo w c ip userAgent sessionID in
  GetClientInfo w' c' = (ip, userAgent, if String.eqb sessionID "" then GetSessionID w c else sessionID).
Proof.
  intros Hi Hu. unfold SetClientInfo. destruct (SetClientIP w c ip) as [w1 c1] eqn:E1. destruct (SetUserAgent w1 c1 userAgent) as [w2 c2] eqn:E2.
  unfold SetClientIP in E1. unfold SetUserAgent in E2.
  assert (∀ k, set_string k w1 c1 = if decide (k = clientIPKey) then nonempty ip else set_string k w c) as H1.
  { intros k. pose proof (set_string_set w c clientIPKey ip k ltac:(done)) as H. by rewrite E1 in H. }
  assert (∀ k, set_string k w2 c2 = if decide (k = userAgentKey) then nonempty userAgent else set_string k w1 c1) as H2.
  { intros k. pose proof (set_string_set w1 c1 userAgentKey userAgent k ltac:(done)) as H. by rewrite E2 in H. }
  assert (GetSessionID w2 c2 = GetSessionID w c) as Hs.
  { pose proof (GetSessionID_set w c clientIPKey ip ltac:(done) ltac:(done) ltac:(done)) as Ha. rewrite E1 in Ha.
    pose proof (GetSessionID_set w1 c1 userAgentKey userAgent ltac:(done) ltac:(done) ltac:(done)) as Hb. rewrite E2 in Hb. cbn in *. congruence. }
  assert (nonempty ip = Some ip ∧ nonempty userAgent = Some userAgent) as [Hni Hnu].
  { unfold nonempty. by destruct (String.eqb_spec ip ""), (String.eqb_spec userAgent ""). }
  destruct (String.eqb_spec sessionID "") as [->|Hsid]; cbn [negb].
  - unfold GetClientInfo. rewrite Hs. unfold GetClientIP, GetUserAgent. rewrite !H2, !H1, decide_False, decide_True by done.
    rewrite decide_True by done. by rewrite Hni, Hnu.
  - destruct (SetSessionID w2 c2 sessionID) as [w3 c3] eqn:E3. pose proof (GetSessionID_own w2 c2 sessionID Hsid) as Hown. rewrite E3 in Hown.
    assert (∀ k, k ≠ sessionIDKey → set_string k w3 c3 = set_string k w2 c2) as H3.
    { intros k Hk. pose proof (set_string_set w2 c2 sessionIDKey sessionID k ltac:(done)) as H. unfold SetSessionID in E3. rewrite E3 in H.
      cbn in H. by rewrite decide_False in H. }
    unfold GetClientInfo, GetClientIP, GetUserAgent. rewrite !H3, !H2, !H1, decide_False, decide_True by done. rewrite decide_True by done.
    rewrite Hni, Hnu. cbn in Hown |- *. by rewrite Hown.
Qed.

(** A referer that is set is not read.  [GetReferer] only looks at the
    headers: [SetReferer] does not change what it answers. *)
Theorem referer_not_read (w : World) (c : ctx) (referer : string) :
  let (w', c') := SetReferer w c referer in GetReferer w' c' = GetReferer w c.
Proof.
  unfold SetReferer. destruct (SetValue w c refererKey (VString referer)) as [w' c'] eqn:E.
  pose proof (http_request_set w c refererKey (VString referer) ltac:(done) ltac:(done)) as H1.
  pose proof (gin_of_set w c refererKey (VString referer) ltac:(done)) as H2. rewrite E in H1, H2. cbn in H1, H2.
  unfold GetReferer, from_gin, from_request. by rewrite H1, H2.
Qed.

(** *** Addresses of clients *)

Lemma isPrivateIP_empty : isPrivateIP "" = true.
Proof. done. Qed.

Definition is_public (ip : string) : bool := negb (isPrivateIP ip).

Lemma public_find ip : public ip = if is_public ip then Some ip else None.
Proof. unfold public, is_public. destruct (String.eqb_spec ip "") as [->|]; [done|]. done. Qed.

(** The headers that may name the client, in order. *)
Definition candidates (get : string → string) : list string :=
  [first_forwarded (get "X-Forwarded-For"); get "X-Real-IP"; get "CF-Connecting-IP"].

Lemma forwarded_find x : (if String.eqb x "" then None else public (first_forwarded x)) = if is_public (first_forwarded x) then Some (first_forwarded x) else None.
Proof. rewrite public_find. by destruct (String.eqb_spec x "") as [->|]. Qed.

Lemma first_public_find get hs : first_public get hs = List.find is_public (get <$> hs).
Proof. induction hs as [|h hs IH]; [done|]. cbn. rewrite public_find, IH. by destruct (is_public (get h)). Qed.

(** Which address is the client's.  Unless one was set, it is the first public
    one among the first of X-Forwarded-For, X-Real-IP, CF-Connecting-IP and, with
    a gin context, five more headers; if there is none, what [ClientIP] of gin
    answers or the remote address.  The headers come from the client: whatever
    proxies are trusted, a public address in X-Forwarded-For is believed. *)
Theorem client_ip_exact (w : World) (c : ctx) :
  set_string clientIPKey w c = None →
  GetClientIP w c =
  match GetGinContext c with
  | Some g =>
      default (if String.eqb (gin_client_ip g) "" then default "unknown" (getIPFromAddr ∘ RemoteAddr ∘ request <$> gin_request g) else gin_client_ip g)
        (List.find is_public (candidates (gin_header g) ++ (gin_header g <$> proxyHeaders)))
  | None =>
      match GetHTTPRequest w c with
      | Some r => default (getIPFromAddr (RemoteAddr (request r))) (List.find is_public (candidates (header (request r))))
      | None => "unknown"
      end
  end.
Proof.
  intros Hs. unfold GetClientIP. rewrite Hs. destruct (GetGinContext c) as [g|].
  - unfold getClientIPFromGin, candidates. rewrite forwarded_find, !public_find, first_public_find. cbn [app List.find].
    destruct (is_public (first_forwarded _)); [done|]. destruct (is_public (gin_header g "X-Real-IP")); [done|].
    destruct (is_public (gin_header g "CF-Connecting-IP")); [done|]. destruct (List.find is_public _); [done|].
    destruct (gin_client_ip g =? ""); [|done]. by destruct (gin_request g).
  - destruct (GetHTTPRequest w c) as [r|]; [|done]. unfold getClientIPFromRequest, candidates. rewrite forwarded_find, !public_find.
    cbn [List.find]. destruct (is_public (first_forwarded _)); [done|]. destruct (is_public (header (request r) "X-Real-IP")); [done|].
    by destruct (is_public (header (request r) "CF-Connecting-IP")).
Qed.

End Requests.

(** *** Private addresses *)

(** The networks as intervals, for addresses of IPv4 and others. *)
Definition between (lo hi x : Z) : Prop := (lo ≤ x < hi)%Z.
Definition public_v4 (a : Z) : Prop :=
  ¬ (between (10 * 2 ^ 24) (11 * 2 ^ 24) a ∨ between (172 * 2 ^ 24 + 16 * 2 ^ 16) (172 * 2 ^ 24 + 32 * 2 ^ 16) a ∨
     between (192 * 2 ^ 24 + 168 * 2 ^ 16) (192 * 2 ^ 24 + 169 * 2 ^ 16) a ∨ between (127 * 2 ^ 24) (128 * 2 ^ 24) a ∨
     between (169 * 2 ^ 24 + 254 * 2 ^ 16) (169 * 2 ^ 24 + 255 * 2 ^ 16) a).
Definition public_v6 (a : Z) : Prop :=
  ¬ (a = 1%Z ∨ between (0xfc00 * 2 ^ 112) (0xfe00 * 2 ^ 112) a ∨ between (0xfe80 * 2 ^ 112) (0xfec0 * 2 ^ 112) a).

Lemma shift_between x n m k lo hi : (0 ≤ k)%Z → m = Z.shiftr n k → lo = (m * 2 ^ k)%Z → hi = ((m + 1) * 2 ^ k)%Z →
  (Z.shiftr x k =? Z.shiftr n k)%Z = true ↔ between lo hi x.
Proof.
  intros Hk -> -> ->. rewrite Z.eqb_eq, !Z.shiftr_div_pow2 by done. unfold between.
  assert (0 < 2 ^ k)%Z as Hp by (apply Z.pow_pos_nonneg; lia). generalize dependent (2 ^ k)%Z. intros p Hp. split.
  - intros H. rewrite <- H. pose proof (Z.div_mod x p) as Hd. pose proof (Z.mod_pos_bound x p Hp). nia.
  - intros [H1 H2]. symmetry. apply (Z.div_unique x p _ (x - n / p * p)); nia.
Qed.

Definition private_nets : list IPNet := omap ParseCIDR privateRanges.
Lemma private_nets_value : private_nets =
  [mkNet true 167772160 8; mkNet true 2886729728 12; mkNet true 3232235520 16; mkNet true 2130706432 8; mkNet true 2851995648 16;
   mkNet false 1 128; mkNet false 334965454937798799971759379190646833152 7; mkNet false 338288524927261089654018896841347694592 10].
Proof. by vm_compute. Qed.

Lemma ranges_nets ip l : existsb (λ rangeStr, match ParseCIDR rangeStr with Some subnet => NetContains subnet ip | None => false end) l =
  existsb (λ subnet, NetContains subnet ip) (omap ParseCIDR l).
Proof. induction l as [|r l IH]; [done|]. cbn [existsb omap list_omap]. rewrite IH. by destruct (ParseCIDR r). Qed.

(** What a private address is.  An address counts as public exactly when its
    text can be parsed and, for IPv4, also mapped into IPv6, the number is
    outside 10/8, 172.16/12, 192.168/16, 127/8 and 169.254/16, otherwise not ::1
    and outside fc00::/7 and fe80::/10. *)
Theorem public_address_iff (ipStr : string) :
  isPrivateIP ipStr = false ↔
  ∃ ip, ParseIP ipStr = Some ip ∧ match To4 ip with Some a => public_v4 a | None => public_v6 ip end.
Proof.
  unfold isPrivateIP. destruct (ParseIP ipStr) as [ip|]; [|by split; [|intros (? & ? & _)]].
  rewrite ranges_nets. fold private_nets. rewrite private_nets_value. cbn [existsb]. unfold NetContains. cbn [is4 number ones width].
  transitivity (match To4 ip with Some a => public_v4 a | None => public_v6 ip end);
    [|split; [intros H; exists ip; exact (conj eq_refl H)|intros (ip' & Hip & H); injection Hip as <-; exact H]].
  destruct (To4 ip) as [a|]; cbn [andb negb orb]; rewrite <- not_true_iff_false, !orb_true_iff.
  - unfold public_v4. apply not_iff_compat.
    rewrite (shift_between a 167772160 10 24 (10 * 2 ^ 24) (11 * 2 ^ 24)), (shift_between a 2886729728 2753 20 (172 * 2 ^ 24 + 16 * 2 ^ 16) (172 * 2 ^ 24 + 32 * 2 ^ 16)),
      (shift_between a 3232235520 49320 16 (192 * 2 ^ 24 + 168 * 2 ^ 16) (192 * 2 ^ 24 + 169 * 2 ^ 16)),
      (shift_between a 2130706432 127 24 (127 * 2 ^ 24) (128 * 2 ^ 24)),
      (shift_between a 2851995648 43518 16 (169 * 2 ^ 24 + 254 * 2 ^ 16) (169 * 2 ^ 24 + 255 * 2 ^ 16)) by first [reflexivity|done].
    intuition discriminate.
  - unfold public_v6. apply not_iff_compat.
    rewrite (shift_between ip 1 1 0 1 2), (shift_between ip 334965454937798799971759379190646833152 126 121 (0xfc00 * 2 ^ 112) (0xfe00 * 2 ^ 112)),
      (shift_between ip 338288524927261089654018896841347694592 1018 118 (0xfe80 * 2 ^ 112) (0xfec0 * 2 ^ 112)) by first [reflexivity|done].
    assert (between 1 2 ip ↔ ip = 1%Z) as -> by (unfold between; lia). intuition discriminate.
Qed.

(** *** Texts of addresses *)

Definition dotted (a b c d : Z) : string := Join "." (pretty <$> [a; b; c; d]).

Lemma dotted_parts a b c d : dotted a b c d = pretty a +:+ "." +:+ pretty b +:+ "." +:+ pretty c +:+ "." +:+ pretty d.
Proof. reflexivity. Qed.

Lemma octet_pretty a : (0 ≤ a < 256)%Z → octet (pretty a) = Some a ∧ all_digits (pretty a) = true.
Proof.
  intros Ha. assert (forallb (λ a, bool_decide (octet (pretty a) = Some a) && all_digits (pretty a)) (seqZ 0 256) = true) as H by (by vm_compute).
  rewrite forallb_forall in H. specialize (H a). rewrite andb_true_iff, bool_decide_eq_true in H. apply H, list_elem_of_In, elem_of_seqZ. lia.
Qed.

Lemma all_digits_no_byte c s : isDigit c = false → all_digits s = true → has_byte c s = false.
Proof. intros Hc. unfold all_digits. rewrite andb_true_iff. intros [_ H]. by apply (str_all_no_byte isDigit). Qed.

Lemma address_kind_digits s r : str_all isDigit s = true → address_kind (s +:+ String "." r) = Some "."%char.
Proof.
  induction s as [|c s IH]; [done|]. cbn [str_all]. intros [Hc Hs]%andb_true_iff. rewrite str_app_cons. cbn [address_kind].
  destruct (Ascii.eqb_spec c ".") as [->|]; [done|]. destruct (Ascii.eqb_spec c ":") as [->|]; [done|].
  destruct (Ascii.eqb_spec c "%") as [->|]; [done|]. by apply IH.
Qed.

(** Addresses in dotted form are read.  The text of four bytes with points in
    between is parsed as the IPv4 address with those bytes, mapped into IPv6. *)
Theorem parse_dotted (a b c d : Z) :
  (0 ≤ a < 256)%Z → (0 ≤ b < 256)%Z → (0 ≤ c < 256)%Z → (0 ≤ d < 256)%Z →
  ParseIP (dotted a b c d) = Some (mapped (((a * 256 + b) * 256 + c) * 256 + d)) ∧
  To4 (mapped (((a * 256 + b) * 256 + c) * 256 + d)) = Some (((a * 256 + b) * 256 + c) * 256 + d)%Z.
Proof.
  intros Ha Hb Hc Hd. destruct (octet_pretty a Ha) as [Oa Da], (octet_pretty b Hb) as [Ob Db], (octet_pretty c Hc) as [Oc Dc], (octet_pretty d Hd) as [Od Dd].
  split.
  - assert (Split "." (dotted a b c d) = pretty <$> [a; b; c; d]) as Hs.
    { apply Split_Join; [done|]. repeat constructor; by apply all_digits_no_byte. }
    unfold ParseIP. assert (has_byte "%" (dotted a b c d) = false) as ->.
    { rewrite dotted_parts, !has_byte_app, (all_digits_no_byte "%" (pretty a)), (all_digits_no_byte "%" (pretty b)), (all_digits_no_byte "%" (pretty c)),
        (all_digits_no_byte "%" (pretty d)) by done. reflexivity. }
    assert (address_kind (dotted a b c d) = Some "."%char) as ->.
    { rewrite dotted_parts. apply address_kind_digits. unfold all_digits in Da. apply andb_true_iff in Da. tauto. }
    unfold parseIPv4. rewrite Hs. change (pretty <$> [a; b; c; d]) with [pretty a; pretty b; pretty c; pretty d].
    cbn [mapM]. by rewrite Oa, Ob, Oc, Od.
  - unfold To4, mapped. set (v := (((a * 256 + b) * 256 + c) * 256 + d)%Z). assert (0 ≤ v < 2 ^ 32)%Z as Hv by (unfold v; change (2 ^ 32)%Z with 4294967296%Z; lia).
    rewrite Z.shiftr_div_pow2 by done. rewrite (Z.add_comm (65535 * 2 ^ 32)), Z.div_add, Z.div_small, Z.mod_add, Z.mod_small by lia. done.
Qed.

(** *** User agents *)

(** Which systems are reported.  Android is only reported where the text has
    neither "linux" nor what stands for Windows or macOS, and iOS only where it
    has not "mac os" either, although Android calls itself Linux and iOS "like
    Mac OS X"; the version and the platform are always empty. *)
Theorem agent_systems (userAgent : string) :
  let ua := str_map lower_ascii userAgent in
  let info := ParseUserAgent userAgent in
  let desktop := Contains ua "windows" || Contains ua "macintosh" || Contains ua "mac os" || Contains ua "linux" in
  (OS info = "Android" ↔ Contains ua "android" = true ∧ desktop = false) ∧
  (OS info = "iOS" ↔ Contains ua "iphone" || Contains ua "ipad" = true ∧ Contains ua "android" = false ∧ desktop = false) ∧
  Version info = "" ∧ Platform info = "".
Proof.
  unfold ParseUserAgent. destruct (String.eqb_spec userAgent "") as [->|Hne]; [cbn; intuition discriminate|]. cbn [OS Version Platform].
  unfold agent_os. generalize (str_map lower_ascii userAgent) as ua. intros ua.
  destruct (Contains ua "windows"), (Contains ua "macintosh"), (Contains ua "mac os"), (Contains ua "linux"), (Contains ua "android"),
    (Contains ua "iphone"), (Contains ua "ipad"); cbn; intuition discriminate.
Qed.

(** A telephone with each system. *)
Example android_phone : OS (ParseUserAgent "Mozilla/5.0 (Linux; Android 14; Pixel 8) AppleWebKit/537.36 Chrome/120.0 Mobile Safari/537.36") = "Linux".
Proof. by vm_compute. Qed.
Example iphone : OS (ParseUserAgent "Mozilla/5.0 (iPhone; CPU iPhone OS 17_0 like Mac OS X) AppleWebKit/605.1.15 Version/17.0 Mobile/15E148 Safari/604.1") = "macOS".
Proof. by vm_compute. Qed.

(** ** At work *)

Example addresses : isPrivateIP "8.8.8.8" = false ∧ isPrivateIP "::ffff:10.1.2.3" = true ∧ isPrivateIP "0.0.0.0" = false ∧
  ParseIP "2001:db8::1" = Some 0x20010db8000000000000000000000001%Z ∧ ParseIP "1:2:3:4:5:6:7:8::" = None ∧ ParseIP "::1.2.3.4" = Some 0x01020304%Z ∧
  SplitHostPort "[::1]:80" = Some "::1" ∧ SplitHostPort "1.2.3.4:80" = Some "1.2.3.4" ∧ SplitHostPort "::1:80" = None.
Proof. by vm_compute. Qed.

Definition one_request : Request := mkRequest ∅ "example.com" "203.0.113.7:4711" "GET" "/" false None [].
Definition spoofed (k : string) : string := if String.eqb k "X-Forwarded-For" then "1.1.1.1, 10.0.0.1" else "".
(** Gin answers the remote address, the client names another. *)
#[export] Instance one_gin : GinRequests := {
  request _ := one_request; gin_request _ := Some 0%nat; gin_header _ := spoofed; gin_cookie _ _ := None;
  gin_client_ip _ := "203.0.113.7"; gin_content_type _ := "" }.

(** ** The hypotheses can be met *)

Lemma client_info_roundtrip_witness :
  let (w', c') := SetClientInfo fresh_world [] "8.8.8.8" "curl" "" in GetClientInfo w' c' = ("8.8.8.8", "curl", GetSessionID fresh_world []).
Proof. by apply (client_info_roundtrip fresh_world [] "8.8.8.8" "curl" ""). Defined.

Lemma client_ip_exact_witness :
  GetClientIP fresh_world (WithGinContext [] 0) = "1.1.1.1" ∧ GetClientIP fresh_world [(httpRequestKey, VRequest (Some 0%nat))] = "203.0.113.7".
Proof. split; rewrite client_ip_exact by (by vm_compute); by vm_compute. Defined.

Lemma parse_dotted_witness : ParseIP "192.168.0.1" = Some (mapped 3232235521) ∧ To4 (mapped 3232235521) = Some 3232235521%Z.
Proof. by apply (parse_dotted 192 168 0 1). Defined.
