(* ===== verification/Responses.v ===== *)
(** * Responses and error codes

    Models src/net/resp and src/ecode.  A response writer is a class: what was
    set, what has been sent and what is in the body.  That of net/http sends the
    header with the first [WriteHeader]; those of web frameworks keep the status
    until the body is written, and the last one counts.  Data are what
    encoding/json makes of them, nothing if it refuses. *)

From stdpp Require Import base tactics option list gmap strings numbers pretty.
From Stdlib Require Import ZArith Ascii Lia.
From S2P Require Import Prelude Json.

Open Scope string_scope.

(** ** Error codes *)

Definition OK : Z := 0.
Definition RequestErr : Z := -400.
Definition Unauthorized : Z := -401.
Definition AccessDenied : Z := -403.
Definition NothingFound : Z := -404.
Definition MethodNotAllowed : Z := -405.
Definition ConflictErr : Z := -409.
Definition GoneErr : Z := -410.
Definition ServerErr : Z := -500.
Definition ServiceUnavailableErr : Z := -503.

Definition ecodeText : gmap Z string := list_to_map [
  (OK, "Success"); (-1, "Application does not exist or has been banned"); (-2, "Access Key error"); (-3, "API signature check error");
  (-4, "Caller has no permission for this method"); (-101, "Account not logged in"); (-102, "Account suspended"); (-103, "Lack of scores");
  (-104, "Lack of coins"); (-105, "Captcha error"); (-106, "Account inactive");
  (-107, "Account not a formal member or in adaptation period"); (-108, "Application does not exist or has been banned");
  (-110, "Mobile phone not bound"); (-111, "CSRF check failed"); (-112, "System is upgrading"); (-113, "Account not yet verified");
  (-114, "Please bind your mobile phone first"); (-115, "Please complete real-name authentication first");
  (-304, "Not modified"); (-307, "Temporary redirect"); (RequestErr, "Request error"); (Unauthorized, "Unauthorized");
  (AccessDenied, "Access denied"); (NothingFound, "Nothing found"); (MethodNotAllowed, "Method not allowed"); (ConflictErr, "Conflict");
  (ServerErr, "Server error"); (ServiceUnavailableErr, "Service unavailable"); (-504, "Service call timeout"); (-509, "Exceed limit");
  (-616, "File does not exist"); (-617, "File too large"); (-625, "Too many login failures"); (-626, "User does not exist");
  (-628, "Password too weak"); (-629, "Incorrect username or password"); (-632, "Operation target number limit"); (-643, "Blocked");
  (-650, "User level too low"); (-652, "Duplicate user"); (-658, "Token expired"); (-662, "Password timestamp expired");
  (-688, "Geographic area limit"); (-689, "Copyright limit"); (-701, "Failed to deduct moral");
  (-1200, "Filtered request due to degradation"); (-1201, "No available client for rpc service");
  (-1202, "Client for rpc service not authorized")]%Z.

(** The least [int] is its own negation. *)
Definition Text (code : Z) : string :=
  let code := if (0 <? code)%Z then wrap64 (- code) else code in default "Unknown error" (ecodeText !! code).

(** *** Messages *)

Definition message (k : list string) (msg none : string) : string := match k with f :: _ => f +:+ " " +:+ msg | [] => none end.
Definition FieldIsBlank k := message k "empty" "empty".
Definition FieldIsNil k := message k "empty" "empty".
Definition FieldIsRequired k := message k "required" "empty".
Definition FieldIsEmpty k := message k "empty" "empty".
Definition FieldIsInvalid k := message k "invalid" "invalid".
Definition SuccessMsg k := message k "success" "success".
Definition Failed k := message k "failed" "failed".
Definition AlreadyExist k := message k "already exists" "already exists".
Definition NotExist k := message k "does not exist" "does not exist".
Definition NotSingular k := message k "not singular" "not singular".
Definition Expired k := message k "expired" "expired".
Definition TypeMismatch k := message k "invalid" "invalid".
Definition AssertionFailed k := message k "type assertion failed" "type assertion failed".

(** ** Responses *)

(** A value of type [any]: nil, a string, or another with its JSON, if it has one. *)
Inductive data := DNil | DString (s : string) | DValue (j : option json).
Definition to_json (d : data) : option json := match d with DNil => Some JNull | DString s => Some (JStr s) | DValue j => j end.

Record Exception := mkException { Status : Z; Code : Z; Message : string; Errors : data; Data : data }.

(** Empty fields are left out. *)
Definition exception_json (e : Exception) : option json :=
  errors ← match Errors e with DNil => Some [] | d => (λ j, [("errors", j)]) <$> to_json d end;
  dat ← match Data e with DNil => Some [] | d => (λ j, [("data", j)]) <$> to_json d end;
  Some (JObj ((if Status e =? 0 then [] else [("status", JNum (pretty (Status e)))]) ++
    (if Code e =? 0 then [] else [("code", JNum (pretty (Code e)))]) ++
    (if String.eqb (Message e) "" then [] else [("message", JStr (Message e))]) ++ errors ++ dat)%Z%list).

(** What is written: data, a message or an exception. *)
Inductive result := RData (d : data) | RMessage (m : string) | RException (e : Exception).
Definition result_json (r : result) : option json :=
  match r with RData d => to_json d | RMessage m => Some (JObj [("message", JStr m)]) | RException e => exception_json e end.

Definition failed_status (status : Z) : bool := (status <? 200)%Z || (400 <=? status)%Z.

Definition newResponse (status code : Z) (msg : string) (data : list data) : Exception :=
  let responseData := match data with d :: _ => d | [] => DNil end in
  if failed_status status || negb (code =? 0)%Z then mkException status code msg responseData DNil
  else mkException status code msg DNil responseData.

Definition buildFailureResponse (r : Exception) : Z * result :=
  let status := if (Status r =? 0)%Z then 400%Z else Status r in
  let code := if (Code r =? 0)%Z then RequestErr else Code r in
  let msg := if String.eqb (Message r) "" then Text RequestErr else Message r in
  (status, RException (mkException 0 code msg (Errors r) DNil)).

Definition buildSuccessResponse (r : option Exception) : Z * result :=
  match r with
  | None => (200%Z, RMessage "ok")
  | Some r =>
      let status := if (Status r =? 0)%Z then 200%Z else Status r in
      if failed_status status then buildFailureResponse r
      else match Data r with
           | DNil => (status, RMessage (if String.eqb (Message r) "" then "ok" else Message r))
           | d => (status, RData d)
           end
  end.

(** *** Writers *)

(** [http.ResponseWriter]: setting and deleting a header, the status, writing; what
    the header fields are, what was sent of them, with which status, the status
    that the next [Write] would send, and the body. *)
Class ResponseWriter (W : Type) := {
  set_header : string → string → W → W;
  del_header : string → W → W;
  WriteHeader : Z → W → W;
  Write : string → W → W;
  headers : W → gmap string string;
  sent : W → option (Z * gmap string string);
  pending : W → Z;
  body : W → string;
  headers_set k v w : headers (set_header k v w) = <[k := v]> (headers w);
  headers_del k w : headers (del_header k w) = delete k (headers w);
  headers_status c w : headers (WriteHeader c w) = headers w;
  headers_write t w : headers (Write t w) = headers w;
  sent_set k v w : sent (set_header k v w) = sent w;
  sent_del k w : sent (del_header k w) = sent w;
  sent_once c w x : sent w = Some x → sent (WriteHeader c w) = Some x;
  sent_write t w : sent (Write t w) = Some (default (pending w, headers w) (sent w));
  pending_set k v w : pending (set_header k v w) = pending w;
  pending_del k w : pending (del_header k w) = pending w;
  body_set k v w : body (set_header k v w) = body w;
  body_del k w : body (del_header k w) = body w;
  body_status c w : body (WriteHeader c w) = body w;
  body_write t w : body (Write t w) = body w +:+ t }.

(** The writer of net/http sends the header at once (codes from 200 to 999), others
    only keep the status. *)
Class Immediate (W : Type) `{ResponseWriter W} :=
  sent_now c w : (200 ≤ c ≤ 999)%Z → sent w = None → sent (WriteHeader c w) = Some (c, headers w).
Class Deferred (W : Type) `{ResponseWriter W} := {
  sent_later c w : sent w = None → sent (WriteHeader c w) = None;
  pending_status c w : (200 ≤ c ≤ 999)%Z → sent w = None → pending (WriteHeader c w) = c }.

Section Writing.
Context {W : Type} `{!ResponseWriter W}.

(** [http.Error]. *)
Definition Error (w : W) (text : string) (code : Z) : W :=
  Write (text +:+ String "010" "") (WriteHeader code
    (set_header "X-Content-Type-Options" "nosniff" (set_header "Content-Type" "text/plain; charset=utf-8" (del_header "Content-Length" w)))).

Definition json_type : string := "application/json; charset=utf-8".
(** [writeResponse] for the context type "JSON", the only one that is asked for.
    The encoder writes the text and a newline, or nothing. *)
Definition writeResponse (w : W) (code : Z) (r : result) : W :=
  let w := set_header "Content-Type" json_type (WriteHeader code w) in
  match result_json r with
  | Some j => Write (encode j +:+ String "010" "") w
  | None => Error w "Failed to encode JSON response" 500
  end.

Definition WithStatusCode (w : W) (statusCode : Z) (data : list data) : W :=
  let (msg, responseData) := match data with DString s :: _ => (s, DNil) | d :: _ => ("", d) | [] => ("", DNil) end in
  let (statusCode, r) := buildSuccessResponse (Some (newResponse statusCode 0 msg [responseData])) in
  writeResponse w statusCode r.
Definition Success (w : W) (data : list data) : W := WithStatusCode w 200 data.

Definition server_error : Exception := mkException 500 ServerErr (Text ServerErr) DNil DNil.
Definition Fail (w : W) (r : option Exception) (abort : list bool) : W :=
  let (statusCode, r) := buildFailureResponse (default server_error r) in
  let w := writeResponse w statusCode r in
  match abort with true :: _ => Error w "" statusCode | _ => w end.
End Writing.

(** *** Named errors *)

Definition AlreadyExists msg d := newResponse 409 ConflictErr msg d.
Definition NotExists msg d := newResponse 404 NothingFound msg d.
Definition DBQuery msg d := newResponse 500 ServerErr msg d.
Definition Transactions msg d := newResponse 500 ServerErr msg d.
Definition UnAuthorized msg d := newResponse 401 Unauthorized msg d.
Definition BadRequest msg d := newResponse 400 RequestErr msg d.
Definition NotFound msg d := newResponse 404 NothingFound msg d.
Definition Forbidden msg d := newResponse 403 AccessDenied msg d.
Definition InternalServer msg d := newResponse 500 ServerErr msg d.
Definition ServiceUnavailable msg d := newResponse 503 ServiceUnavailableErr msg d.
Definition Conflict msg d := newResponse 409 ConflictErr msg d.
Definition NotAllowed msg d := newResponse 405 MethodNotAllowed msg d.
Definition Gone msg d := newResponse 410 GoneErr msg d.

(** ** Facts *)

Section WritingFacts.
Context {W : Type} `{!ResponseWriter W}.

Lemma sent_Error w text code x : sent w = Some x → sent (Error w text code) = Some x.
Proof. intros H. unfold Error. rewrite sent_write, (sent_once _ _ x); [done|]. by rewrite !sent_set, sent_del. Qed.

Lemma headers_Error w text code : headers (Error w text code) =
  <["X-Content-Type-Options" := "nosniff"]> (<["Content-Type" := "text/plain; charset=utf-8"]> (delete "Content-Length" (headers w))).
Proof. unfold Error. by rewrite headers_write, headers_status, !headers_set, headers_del. Qed.

Lemma body_Error w text code : body (Error w text code) = body w +:+ text +:+ String "010" "".
Proof. unfold Error. by rewrite body_write, body_status, !body_set, body_del. Qed.

Lemma body_writeResponse w code r : body (writeResponse w code r) =
  body w +:+ (match result_json r with Some j => encode j | None => "Failed to encode JSON response" end) +:+ String "010" "".
Proof.
  unfold writeResponse. destruct (result_json r) as [j|]; [by rewrite body_write, body_set, body_status|].
  by rewrite body_Error, body_set, body_status.
Qed.

(** What an answer says that could not be encoded. *)
Definition error_headers (h : gmap string string) : gmap string string :=
  <["X-Content-Type-Options" := "nosniff"]> (<["Content-Type" := "text/plain; charset=utf-8"]> (delete "Content-Length" h)).

(** What is answered through a writer that keeps the status.  The status and
    the JSON type are sent with the text of the result; if the result has none,
    status 500 and an error as plain text. *)
Theorem response_exact `{!Deferred W} (w : W) (code : Z) (r : result) :
  (200 ≤ code ≤ 999)%Z → sent w = None →
  match result_json r with
  | Some j => sent (writeResponse w code r) = Some (code, <["Content-Type" := json_type]> (headers w)) ∧
      body (writeResponse w code r) = body w +:+ encode j +:+ String "010" ""
  | None => sent (writeResponse w code r) = Some (500%Z, error_headers (<["Content-Type" := json_type]> (headers w))) ∧
      body (writeResponse w code r) = body w +:+ "Failed to encode JSON response" +:+ String "010" ""
  end.
Proof.
  intros Hc Hs. pose proof (body_writeResponse w code r) as Hb. pose proof (sent_later code w Hs) as Hl.
  destruct (result_json r) as [j|] eqn:Hj; (split; [|done]); unfold writeResponse; rewrite Hj.
  - rewrite sent_write, sent_set, Hl. cbn [default]. by rewrite pending_set, pending_status, headers_set, headers_status.
  - unfold Error. set (w' := set_header _ _ (set_header _ _ (del_header _ _))). assert (sent w' = None) as Hs' by (unfold w'; by rewrite !sent_set, sent_del, sent_set).
    rewrite sent_write, (sent_later 500 w' Hs'). cbn [default]. rewrite pending_status by done. rewrite headers_status. unfold w'.
    by rewrite !headers_set, headers_del, headers_set, headers_status.
Qed.

(** The JSON type does not reach the client of net/http.  Through its writer the
    status is sent before the type is set: the header fields are those from
    before, whatever the result, and a result that cannot be encoded is answered
    with the status of success. *)
Theorem json_type_not_sent `{!Immediate W} (w : W) (code : Z) (r : result) :
  (200 ≤ code ≤ 999)%Z → sent w = None → sent (writeResponse w code r) = Some (code, headers w).
Proof.
  intros Hc Hs. assert (sent (set_header "Content-Type" json_type (WriteHeader code w)) = Some (code, headers w)) as H.
  { rewrite sent_set. by apply sent_now. }
  unfold writeResponse. destruct (result_json r); [by rewrite sent_write, H|by apply sent_Error].
Qed.

Lemma writeResponse_sent w code r : is_Some (sent (writeResponse w code r)).
Proof. unfold writeResponse. destruct (result_json r); [|unfold Error]; rewrite sent_write; by eexists. Qed.

(** Aborting only adds an empty line.  [Fail] that aborts sends what [Fail]
    sends, and the body gets a newline more. *)
Theorem abort_adds_newline (w : W) (r : option Exception) :
  sent (Fail w r [true]) = sent (Fail w r []) ∧ body (Fail w r [true]) = body (Fail w r []) +:+ String "010" "".
Proof.
  unfold Fail. destruct (buildFailureResponse (default server_error r)) as [c x]. destruct (writeResponse_sent w c x) as [y Hy]. split.
  - rewrite Hy. by apply sent_Error.
  - by rewrite body_Error.
Qed.

(** What [WithStatusCode] answers.  A string is the message of an object, nothing
    and the empty string are "ok", and another value is answered as it is; with a
    status below 200 or from 400 on, the answer is an exception with the code for
    a bad request, and the value in its errors. *)
Theorem status_code_answer (w : W) (code : Z) (l : list data) :
  code ≠ 0%Z →
  WithStatusCode w code l =
  writeResponse w code
    (match l with
     | DString s :: _ => if failed_status code then RException (mkException 0 RequestErr (if String.eqb s "" then "Request error" else s) DNil DNil)
                         else RMessage (if String.eqb s "" then "ok" else s)
     | d :: _ => if failed_status code then RException (mkException 0 RequestErr "Request error" d DNil)
                 else match d with DNil => RMessage "ok" | _ => RData d end
     | [] => if failed_status code then RException (mkException 0 RequestErr "Request error" DNil DNil) else RMessage "ok"
     end).
Proof.
  intros Hc. unfold WithStatusCode. assert ((code =? 0)%Z = false) as H0 by (by apply Z.eqb_neq).
  destruct l as [|[|s|j] l]; unfold newResponse, buildSuccessResponse, buildFailureResponse;
    destruct (failed_status code) eqn:Hf; cbn [orb negb Status Data Code Message Errors]; rewrite ?H0, ?Z.eqb_refl, ?Hf; try done;
    cbn [orb negb Status Data Code Message Errors]; rewrite ?H0, ?Hf; done.
Qed.
End WritingFacts.

(** *** Error codes *)

Definition named_errors : list ((string → list data → Exception) * Z) :=
  [(AlreadyExists, 409); (NotExists, 404); (DBQuery, 500); (Transactions, 500); (UnAuthorized, 401); (BadRequest, 400); (NotFound, 404);
   (Forbidden, 403); (InternalServer, 500); (ServiceUnavailable, 503); (Conflict, 409); (NotAllowed, 405); (Gone, 410)]%Z.

(** What the named errors answer.  Each has its status, as its code the negated
    status and its message word for word, so that the verbs of a format stay and
    the first further argument goes to the errors; without a message it is that
    of a bad request. *)
Theorem named_errors_exact (msg : string) (l : list data) :
  Forall (λ p : (string → list data → Exception) * Z,
    buildFailureResponse (p.1 msg l) =
      (p.2, RException (mkException 0 (- p.2) (if String.eqb msg "" then "Request error" else msg) (default DNil (head l)) DNil))) named_errors.
Proof.
  assert (∀ status code, failed_status status = true → status ≠ 0%Z → code = (- status)%Z →
    buildFailureResponse (newResponse status code msg l) =
      (status, RException (mkException 0 (- status) (if String.eqb msg "" then "Request error" else msg) (default DNil (head l)) DNil))) as H.
  { intros status code Hf Hs ->. unfold newResponse, buildFailureResponse. rewrite Hf. cbn [orb Status Code Message Errors].
    rewrite (proj2 (Z.eqb_neq status 0)) by done. rewrite (proj2 (Z.eqb_neq (- status) 0)) by lia. by destruct l. }
  unfold named_errors. repeat apply list.Forall_cons_2; [..|by constructor]; by apply H.
Qed.

(** Codes and statuses have one text.  The text of a positive code is that of its
    negation, and of the codes of the named errors only that for 410 is unknown. *)
Theorem text_of_codes :
  (∀ code, (0 < code ≤ max_int64)%Z → Text code = Text (- code)) ∧
  Forall (λ p : (string → list data → Exception) * Z, Text p.2 = "Unknown error" ↔ p.2 = 410%Z) named_errors.
Proof.
  split.
  - intros code Hc. unfold Text. rewrite (proj2 (Z.ltb_lt 0 code)) by lia. rewrite (proj2 (Z.ltb_ge 0 (- code))) by lia.
    by rewrite wrap64_id by (unfold min_int64, max_int64 in *; lia).
  - unfold named_errors. repeat apply list.Forall_cons_2; [..|by constructor]; cbn [snd]; (split; [intros H|intros H; by vm_compute]);
      first [reflexivity|vm_compute in H; discriminate|discriminate].
Qed.

(** A required field without a name is said to be empty. *)
Example required_says_empty : FieldIsRequired [] = "empty" ∧ FieldIsRequired ["name"] = "name required".
Proof. done. Qed.

(** ** Writers in memory *)

(** Header fields, what was sent, the status that is kept and the body. *)
Record Memory := mkMemory { m_headers : gmap string string; m_sent : option (Z * gmap string string); m_status : Z; m_body : string }.
Definition no_answer : Memory := mkMemory ∅ None 200 "".

(** With [later] the status is kept until something is written. *)
Definition memory_status (later : bool) (c : Z) (w : Memory) : Memory :=
  match m_sent w with
  | Some _ => w
  | None => if later then mkMemory (m_headers w) None c (m_body w) else mkMemory (m_headers w) (Some (c, m_headers w)) (m_status w) (m_body w)
  end.
Definition memory_write (t : string) (w : Memory) : Memory :=
  mkMemory (m_headers w) (Some (default (m_status w, m_headers w) (m_sent w))) (m_status w) (m_body w +:+ t).

Definition memory_writer (later : bool) : ResponseWriter Memory.
Proof.
  refine {| set_header k v w := mkMemory (<[k := v]> (m_headers w)) (m_sent w) (m_status w) (m_body w);
    del_header k w := mkMemory (delete k (m_headers w)) (m_sent w) (m_status w) (m_body w);
    WriteHeader := memory_status later; Write := memory_write; headers := m_headers; sent := m_sent; pending := m_status; body := m_body |};
  try done; intros c w; unfold memory_status; try (destruct (m_sent w), later; done). intros x Hx. by rewrite Hx.
Defined.

#[export] Instance at_once : ResponseWriter Memory | 10 := memory_writer false.
Definition at_end : ResponseWriter Memory := memory_writer true.

#[export] Instance at_once_immediate : Immediate Memory.
Proof. intros c w _ Hs. cbn in *. unfold memory_status. by rewrite Hs. Qed.
#[export] Instance at_end_deferred : @Deferred Memory at_end.
Proof. split; intros c w; cbn; unfold memory_status; intros; by case_match. Qed.

(** ** The hypotheses can be met *)

Lemma response_exact_witness :
  sent (ResponseWriter := at_end) (writeResponse (ResponseWriter0 := at_end) no_answer 200 (RMessage "ok")) = Some (200%Z, {["Content-Type" := json_type]}) ∧
  sent (ResponseWriter := at_end) (writeResponse (ResponseWriter0 := at_end) no_answer 200 (RData (DValue None))) =
    Some (500%Z, error_headers {["Content-Type" := json_type]}).
Proof.
  split.
  - apply (response_exact (ResponseWriter0 := at_end) no_answer 200 (RMessage "ok")); [lia|done].
  - apply (response_exact (ResponseWriter0 := at_end) no_answer 200 (RData (DValue None))); [lia|done].
Defined.

Lemma json_type_not_sent_witness : sent (writeResponse no_answer 200 (RMessage "ok")) = Some (200%Z, ∅).
Proof. refine (json_type_not_sent (W := Memory) no_answer 200 (RMessage "ok") _ _); [lia|done]. Defined.

Lemma status_code_answer_witness : WithStatusCode no_answer 404 [DString "gone"] = writeResponse no_answer 404 (RException (mkException 0 RequestErr "gone" DNil DNil)).
Proof. by apply (status_code_answer no_answer 404 [DString "gone"]). Defined.
