(* ===== verification/Cookies.v ===== *)
(** * Cookies for tokens and sessions

    Models src/net/cookie.  A response collects the cookies that [http.SetCookie]
    adds to it; [http.Cookie] keeps a domain only if it is a valid one.  What a
    browser makes of them is a class: it keeps one value for each name, domain
    and path, and the domain of a cookie without one is the host. *)

From stdpp Require Import base tactics option list gmap strings numbers.
From Stdlib Require Import ZArith Ascii Lia.
From S2P Require Import Prelude Float64 Base64 Lexer GoStrings ClientInfo.

Open Scope string_scope.

Inductive same_site := NoSameSite | Lax | Strict.
Record Cookie := mkCookie { Name : string; CValue : string; Domain : string; MaxAge : Z; Path : string; Secure : bool; HttpOnly : bool; SameSite : same_site }.

Definition AccessTokenName : string := "access_token".
Definition RefreshTokenName : string := "refresh_token".
Definition RegisterTokenName : string := "register_token".
Definition SessionIDName : string := "session_id".
Definition CSRFTokenName : string := "csrf_token".

Definition AccessTokenMaxAge : Z := 60 * 60 * 24.
Definition RefreshTokenMaxAge : Z := 60 * 60 * 24 * 30.
Definition RegisterTokenMaxAge : Z := 60 * 60.
Definition SessionMaxAge : Z := 60 * 60 * 24.
Definition CSRFTokenMaxAge : Z := 60 * 60 * 24.

Definition formatDomain (domain : string) : string :=
  if negb (String.eqb domain "localhost") && negb (HasPrefix domain ".") then "." +:+ domain else domain.

(** A response: the cookies set so far, in order. *)
Abbreviation response := (list Cookie).
Definition SetCookie (c : Cookie) (w : response) : response := (w ++ [c])%list.

(** ** Setting *)

Definition first_domain (domain : list string) : string :=
  match domain with d :: _ => if String.eqb d "" then "" else formatDomain d | [] => "" end.

Definition SetAccessToken (accessToken domain : string) (w : response) : response :=
  SetCookie (mkCookie AccessTokenName accessToken (if String.eqb domain "" then "" else formatDomain domain) AccessTokenMaxAge "/" true true Lax) w.
(** The domain is not checked for being empty. *)
Definition SetRefreshToken (refreshToken : string) (domain : list string) (w : response) : response :=
  SetCookie (mkCookie RefreshTokenName refreshToken (match domain with d :: _ => formatDomain d | [] => "" end) RefreshTokenMaxAge "/" true true Lax) w.
Definition Set_ (accessToken refreshToken domain : string) (w : response) : response :=
  let w := if String.eqb accessToken "" then w else SetAccessToken accessToken domain w in
  if String.eqb refreshToken "" then w else SetRefreshToken refreshToken [domain] w.
Definition SetRegister (registerToken domain : string) (w : response) : response :=
  SetCookie (mkCookie RegisterTokenName registerToken (if String.eqb domain "" then "" else formatDomain domain) RegisterTokenMaxAge "/" true true Lax) w.

Inductive cookie_error := EEmptySession | EEmptyCSRF | EKeyMissing (key : string) | ENotString (key : string) | ETokensMissing | ENoCookie.

Definition SetSessionID (sessionID : string) (domain : list string) (w : response) : res cookie_error response :=
  if String.eqb sessionID "" then Err EEmptySession
  else Ok (SetCookie (mkCookie SessionIDName sessionID (first_domain domain) SessionMaxAge "/" true true Lax) w).
Definition SetCSRFToken (csrfToken : string) (domain : list string) (w : response) : res cookie_error response :=
  if String.eqb csrfToken "" then Err EEmptyCSRF
  else Ok (SetCookie (mkCookie CSRFTokenName csrfToken (first_domain domain) CSRFTokenMaxAge "/" true false Strict) w).
Definition SetSecureCookie (name value : string) (maxAge : Z) (domain : list string) (w : response) : response :=
  SetCookie (mkCookie name value (first_domain domain) maxAge "/" true true Lax) w.

(** ** Clearing *)

Definition Clear (w : response) : response :=
  SetCookie (mkCookie RefreshTokenName "" "" (-1) "/" false false NoSameSite) (SetCookie (mkCookie AccessTokenName "" "" (-1) "/" false false NoSameSite) w).
Definition ClearRegister (w : response) : response := SetCookie (mkCookie RegisterTokenName "" "" (-1) "/" false false NoSameSite) w.
Definition ClearSessionID (w : response) : response := SetCookie (mkCookie SessionIDName "" "" (-1) "/" true true Lax) w.
Definition ClearCSRFToken (w : response) : response := SetCookie (mkCookie CSRFTokenName "" "" (-1) "/" true false Strict) w.
Definition ClearAll (w : response) : response := ClearCSRFToken (ClearSessionID (ClearRegister (Clear w))).
Definition ClearCookie (name : string) (domain : list string) (w : response) : response :=
  SetCookie (mkCookie name "" (first_domain domain) (-1) "/" true true Lax) w.

(** ** Reading *)

(** A request: its host, without the port or with it, and its cookies. *)
Record request := mkReq { r_Host : string; r_cookies : list (string * string) }.
Definition Get (r : request) (key : string) : res cookie_error string :=
  match List.find (λ c, String.eqb c.1 key) (r_cookies r) with Some c => Ok c.2 | None => Err ENoCookie end.
Definition GetSessionID (r : request) : res cookie_error string := Get r SessionIDName.
Definition GetCSRFToken (r : request) : res cookie_error string := Get r CSRFTokenName.
Definition GetRegister (r : request) (key : string) : res cookie_error string := Get r key.

(** ** From the result of a call *)

Inductive any := AString (s : string) | AOther.
(** The pointer is dereferenced. *)
Definition GetTokenFromResult (result : option (gmap string any)) (key : string) : res cookie_error string :=
  match result with
  | None => Panic
  | Some m => match m !! key with Some (AString token) => Ok token | Some AOther => Err (ENotString key) | None => Err (EKeyMissing key) end
  end.
(** The token, the error being ignored. *)
Definition token_or_empty (result : option (gmap string any)) (key : string) : res cookie_error string :=
  match GetTokenFromResult result key with Err _ => Ok "" | r => r end.
Definition domain_or_host (r : request) (domain : list string) : string := match domain with d :: _ => d | [] => r_Host r end.

Definition SetTokensFromResult (r : request) (result : option (gmap string any)) (domain : list string) (w : response) : res cookie_error response :=
  let formattedDomain := formatDomain (domain_or_host r domain) in
  (let! accessToken := token_or_empty result "access_token" in
   let! refreshToken := token_or_empty result "refresh_token" in
   if String.eqb accessToken "" && String.eqb refreshToken "" then Err ETokensMissing
   else Ok (Set_ accessToken refreshToken formattedDomain w))%go.
Definition SetRegisterTokenFromResult (r : request) (result : option (gmap string any)) (domain : list string) (w : response) : res cookie_error response :=
  let formattedDomain := formatDomain (domain_or_host r domain) in
  (let! token := token_or_empty result "register_token" in Ok (SetRegister token formattedDomain w))%go.
Definition SetSessionFromResult (r : request) (result : option (gmap string any)) (domain : list string) (w : response) : res cookie_error response :=
  (let! sessionID := GetTokenFromResult result "session_id" in SetSessionID sessionID [domain_or_host r domain] w)%go.

(** ** What net/http sends of a cookie *)

(** The loop of [isCookieDomainName]: the last byte, whether a letter was seen and
    the length of the part. *)
Fixpoint domain_name (s : string) (last : ascii) (ok : bool) (partlen : nat) : bool :=
  match s with
  | EmptyString => negb (Ascii.eqb last "-") && (partlen <=? 63)%nat && ok
  | String c s =>
      if isLetter c then domain_name s c true (S partlen)
      else if isDigit c then domain_name s c ok (S partlen)
      else if Ascii.eqb c "-" then negb (Ascii.eqb last ".") && domain_name s c ok (S partlen)
      else if Ascii.eqb c "." then
        negb (Ascii.eqb last "." || Ascii.eqb last "-") && negb ((63 <? partlen) || (partlen =? 0))%nat && domain_name s c ok 0
      else false
  end.
Definition isCookieDomainName (s : string) : bool :=
  negb (String.eqb s "") && (String.length s <=? 255)%nat && domain_name (TrimPrefix s ".") "." false 0.
Definition validCookieDomain (v : string) : bool := isCookieDomainName v || (is_some_b (ParseIP v) && negb (has_byte ":" v)).
(** The domain that is sent, without its leading point; an invalid one is left out. *)
Definition sent_domain (c : Cookie) : string := if validCookieDomain (Domain c) then TrimPrefix (Domain c) "." else "".

(** A browser: the value kept under a name, domain and path, and what receiving a
    cookie from a host does.  [accepts] says whether a host may set cookies for a
    domain; it may for itself. *)
Class Browser (B : Type) := {
  keeps : string → string → string → B → option string;
  receive : string → Cookie → B → B;
  accepts : string → string → bool;
  accepts_own h : accepts h h = true;
  keeps_receive h c b name d path :
    let dom := if String.eqb (sent_domain c) "" then h else sent_domain c in
    keeps name d path (receive h c b) =
    if accepts h dom && String.eqb name (Name c) && String.eqb d dom && String.eqb path (Path c)
    then if (MaxAge c <? 0)%Z then None else Some (CValue c) else keeps name d path b }.

Definition receive_all {B} `{Browser B} (h : string) (w : response) (b : B) : B := foldl (λ b c, receive h c b) b w.
(** The domain under which a browser keeps a cookie for [domain] from a host. *)
Definition kept_domain (h domain : string) : string :=
  let d := if validCookieDomain domain then TrimPrefix domain "." else "" in if String.eqb d "" then h else d.

(** ** Facts *)

Lemma formatDomain_idem d : formatDomain (formatDomain d) = formatDomain d.
Proof.
  unfold formatDomain at 2 3. destruct (String.eqb_spec d "localhost") as [->|Hl]; [done|]. destruct (HasPrefix d ".") eqn:Hp; cbn [andb negb].
  - unfold formatDomain. rewrite Hp. by rewrite andb_false_r.
  - unfold formatDomain. assert (HasPrefix ("." +:+ d) "." = true) as -> by (apply HasPrefix_spec; by exists d). by rewrite andb_false_r.
Qed.

Lemma formatDomain_nonempty d : formatDomain d ≠ "".
Proof. unfold formatDomain. destruct (negb _ && _) eqn:E; [done|]. intros ->. done. Qed.

(** *** What is set *)

Inductive op :=
  | OSet (access refresh domain : string) | OAccess (token domain : string) | ORefresh (token : string) (domain : list string)
  | ORegister (token domain : string) | OSession (id : string) (domain : list string) | OCSRF (token : string) (domain : list string)
  | OSecure (name value : string) (maxAge : Z) (domain : list string) | OTokens (r : request) (result : option (gmap string any)) (domain : list string)
  | ORegisterResult (r : request) (result : option (gmap string any)) (domain : list string)
  | OSessionResult (r : request) (result : option (gmap string any)) (domain : list string).

Definition do_op (o : op) (w : response) : res cookie_error response :=
  match o with
  | OSet a r d => Ok (Set_ a r d w) | OAccess t d => Ok (SetAccessToken t d w) | ORefresh t d => Ok (SetRefreshToken t d w)
  | ORegister t d => Ok (SetRegister t d w) | OSession i d => SetSessionID i d w | OCSRF t d => SetCSRFToken t d w
  | OSecure n v m d => Ok (SetSecureCookie n v m d w) | OTokens r x d => SetTokensFromResult r x d w
  | ORegisterResult r x d => SetRegisterTokenFromResult r x d w | OSessionResult r x d => SetSessionFromResult r x d w
  end.

Definition protected (c : Cookie) : Prop :=
  Secure c = true ∧ SameSite c ≠ NoSameSite ∧ Path c = "/" ∧ (HttpOnly c = true ∨ Name c = CSRFTokenName).

Lemma Set_protected a r d w : ∃ l, Set_ a r d w = (w ++ l)%list ∧ Forall protected l.
Proof.
  unfold Set_, SetAccessToken, SetRefreshToken, SetCookie. destruct (String.eqb a ""), (String.eqb r ""); rewrite <- ?(app_assoc w); cbn [app];
    eexists; try (split; [by rewrite app_nil_r|by constructor]); (split; [done|]); repeat constructor; cbn; by auto.
Qed.

(** Cookies are protected.  Every cookie that a setter adds is only for secure
    connections, not for requests from other sites and for the whole site, and,
    but for the CSRF token, not readable by scripts; nothing else of the response
    changes, and a failing setter adds nothing. *)
Theorem cookies_protected (o : op) (w w' : response) :
  do_op o w = Ok w' → ∃ l, w' = (w ++ l)%list ∧ Forall protected l.
Proof.
  assert (∀ c, protected c → ∃ l, SetCookie c w = (w ++ l)%list ∧ Forall protected l) as Hone by (intros c Hc; exists [c]; auto).
  destruct o as [a r d|t d|t d|t d|i d|t d|n v m d|r x d|r x d|r x d]; cbn [do_op].
  - intros [= <-]. apply Set_protected.
  - intros [= <-]. apply Hone. repeat split; cbn; auto.
  - intros [= <-]. apply Hone. repeat split; cbn; auto.
  - intros [= <-]. apply Hone. repeat split; cbn; auto.
  - unfold SetSessionID. case_match; [done|]. intros [= <-]. apply Hone. repeat split; cbn; auto.
  - unfold SetCSRFToken. case_match; [done|]. intros [= <-]. apply Hone. repeat split; cbn; auto.
  - intros [= <-]. apply Hone. repeat split; cbn; auto.
  - unfold SetTokensFromResult, rbind. do 3 (case_match; try done). intros [= <-]. apply Set_protected.
  - unfold SetRegisterTokenFromResult, rbind. case_match; try done. intros [= <-]. apply Hone. repeat split; cbn; auto.
  - unfold SetSessionFromResult, rbind, SetSessionID. do 2 (case_match; try done). intros [= <-]. apply Hone. repeat split; cbn; auto.
Qed.

(** *** Logging out *)

Section Browsing.
Context {B : Type} `{!Browser B}.

Lemma kept_domain_eq h c : (if String.eqb (sent_domain c) "" then h else sent_domain c) = kept_domain h (Domain c).
Proof. done. Qed.

Lemma keeps_one h c b : accepts h (kept_domain h (Domain c)) = true →
  keeps (Name c) (kept_domain h (Domain c)) (Path c) (receive h c b) = if (MaxAge c <? 0)%Z then None else Some (CValue c).
Proof. intros Ha. rewrite keeps_receive, kept_domain_eq, Ha, !String.eqb_refl. done. Qed.

Lemma keeps_other h c b name d path : name ≠ Name c ∨ d ≠ kept_domain h (Domain c) → keeps name d path (receive h c b) = keeps name d path b.
Proof.
  intros Hn. rewrite keeps_receive, kept_domain_eq. destruct (accepts _ _); [|done]. destruct (String.eqb_spec name (Name c)); [|done].
  destruct (String.eqb_spec d (kept_domain h (Domain c))); [|done]. tauto.
Qed.

(** Logging out keeps the tokens of a domain.  After [Set] of an access token
    for a domain the browser keeps it through [ClearAll], which names no domain,
    unless the domain is the host itself; [ClearCookie] with the domain removes
    it. *)
Theorem logout_keeps_tokens (h domain access refresh : string) (b : B) :
  access ≠ "" → accepts h (kept_domain h (if String.eqb domain "" then "" else formatDomain domain)) = true →
  let d := kept_domain h (if String.eqb domain "" then "" else formatDomain domain) in
  let b1 := receive_all h (Set_ access refresh domain []) b in
  keeps AccessTokenName d "/" b1 = Some access ∧
  keeps AccessTokenName d "/" (receive_all h (ClearAll []) b1) = (if String.eqb d h then None else Some access) ∧
  keeps AccessTokenName d "/" (receive_all h (ClearCookie AccessTokenName [domain] []) b1) = None.
Proof.
  intros Hne Ha d b1. assert (keeps AccessTokenName d "/" b1 = Some access) as H1.
  { unfold b1, Set_. rewrite (proj2 (String.eqb_neq access "")) by done. unfold SetAccessToken, SetRefreshToken, SetCookie.
    set (c := mkCookie AccessTokenName access _ _ _ _ _ _).
    pose proof (keeps_one h c b Ha) as Hc. fold d in Hc. cbn in Hc.
    destruct (String.eqb refresh ""); cbn [app receive_all foldl]; [exact Hc|]. unfold receive_all. cbn [foldl].
    rewrite keeps_other by (left; done). exact Hc. }
  split; [done|]. split.
  - unfold ClearAll, ClearCSRFToken, ClearSessionID, ClearRegister, Clear, SetCookie, receive_all. cbn [app foldl].
    do 4 (rewrite keeps_other by (left; done)). set (c := mkCookie AccessTokenName "" _ _ _ _ _ _).
    assert (kept_domain h (Domain c) = h) as Hk by done. destruct (String.eqb_spec d h) as [->|Hd].
    + pose proof (keeps_one h c b1) as Hc. rewrite Hk in Hc. apply Hc, accepts_own.
    + rewrite keeps_other; [done|]. right. by rewrite Hk.
  - unfold ClearCookie, SetCookie, receive_all. cbn [app foldl]. set (c := mkCookie AccessTokenName "" _ _ _ _ _ _).
    assert (kept_domain h (Domain c) = d) as Hk by done. pose proof (keeps_one h c b1) as Hc. rewrite Hk in Hc. by apply Hc.
Qed.
End Browsing.

(** A registration is never refused.  [SetRegisterTokenFromResult] of a result
    that is there sets a cookie, with an empty value when there is no token or it
    is no string, where [SetTokensFromResult] and [SetSessionFromResult] report
    an error and set nothing. *)
Theorem register_token_unchecked (r : request) (m : gmap string any) (domain : list string) (w : response) :
  let d := formatDomain (domain_or_host r domain) in
  let text key := match m !! key with Some (AString s) => s | _ => "" end in
  SetRegisterTokenFromResult r (Some m) domain w = Ok (SetRegister (text "register_token") d w) ∧
  (text "access_token" = "" → text "refresh_token" = "" → SetTokensFromResult r (Some m) domain w = Err ETokensMissing) ∧
  (text "session_id" = "" → ∃ e, SetSessionFromResult r (Some m) domain w = Err e).
Proof.
  intros d text. unfold SetRegisterTokenFromResult, SetTokensFromResult, SetSessionFromResult, token_or_empty, GetTokenFromResult, text. split_and!.
  - by destruct (m !! "register_token") as [[]|].
  - intros Ha Hr. destruct (m !! "access_token") as [[]|], (m !! "refresh_token") as [[]|]; subst; done.
  - intros Hs. destruct (m !! "session_id") as [[s|]|]; cbn [rbind]; [subst; by eexists..|by eexists].
Qed.

(** ** A browser in memory *)

Definition accepted (h d : string) : bool := String.eqb h d || HasSuffix h ("." +:+ d).
#[export, program] Instance memory_browser : Browser (gmap (string * string * string) string) := {
  keeps name d path b := b !! (name, d, path);
  receive h c b :=
    let dom := if String.eqb (sent_domain c) "" then h else sent_domain c in
    if accepted h dom then if (MaxAge c <? 0)%Z then delete (Name c, dom, Path c) b else <[(Name c, dom, Path c) := CValue c]> b else b;
  accepts := accepted }.
Next Obligation. intros h. unfold accepted. by rewrite String.eqb_refl. Qed.
Next Obligation.
  intros h c b name d path. cbn. set (dom := if String.eqb (sent_domain c) "" then h else sent_domain c).
  destruct (accepted h dom); cbn [andb]; [|done].
  destruct (String.eqb_spec name (Name c)) as [->|], (String.eqb_spec d dom) as [->|], (String.eqb_spec path (Path c)) as [->|]; cbn [andb];
    destruct (MaxAge c <? 0)%Z; rewrite ?lookup_insert_eq, ?lookup_delete_eq, ?lookup_insert_ne, ?lookup_delete_ne by congruence; done.
Qed.

(** Domains that are not sent: a host with a port, an address, the empty one. *)
Example domains_not_sent : sent_domain (mkCookie "a" "b" (formatDomain "localhost:8080") 0 "/" true true Lax) = "" ∧
  sent_domain (mkCookie "a" "b" (formatDomain "127.0.0.1") 0 "/" true true Lax) = "" ∧
  sent_domain (mkCookie "a" "b" (formatDomain "") 0 "/" true true Lax) = "" ∧
  sent_domain (mkCookie "a" "b" (formatDomain "example.com") 0 "/" true true Lax) = "example.com".
Proof. by vm_compute. Qed.

(** ** The hypotheses can be met *)

Lemma cookies_protected_witness : ∃ l, [mkCookie SessionIDName "s1" ".example.com" 86400 "/" true true Lax] = ([] ++ l)%list ∧ Forall protected l.
Proof. by apply (cookies_protected (OSession "s1" ["example.com"]) []). Defined.

Lemma logout_keeps_tokens_witness :
  keeps AccessTokenName "example.com" "/" (receive_all "app.example.com" (ClearAll [])
    (receive_all "app.example.com" (Set_ "t1" "" "example.com" []) (∅ : gmap (string * string * string) string))) = Some "t1".
Proof.
  destruct (logout_keeps_tokens "app.example.com" "example.com" "t1" "" (∅ : gmap (string * string * string) string)) as (_ & H & _);
    [done|by vm_compute|]. exact H.
Defined.
