(* ===== verification/ManagerHttp.v ===== *)
(** * The HTTP interface of the extension manager

    Models src/extension/manager/http.go: which routes there are, and what the
    handlers answer from a view of the manager.  Answers go through [Responses].
    The router and the circuit breakers are a library: routes are the list of
    those registered, breakers are states with counts.  Reports of other
    components are JSON values; so is the clock.  Iteration over a map takes its
    entries in the order of the keys, as its JSON does. *)

From stdpp Require Import base tactics option list gmap strings numbers pretty sorting.
From Stdlib Require Import ZArith SpecFloat Ascii Lia.
From S2P Require Import Prelude Float64 Base64 GoStrings Json FloatText MetricsStore Responses.

Open Scope string_scope.

(** ** The manager as the handlers see it *)

Record Metadata := mkMetadata { Name : string; Version : string; Dependencies : list string; Description : string; Type_ : string; Group : string }.
Record Wrapper := mkWrapper { meta : Metadata; status : string }.
Record MetricsConfig := mkMetricsConfig { FlushInterval : string; BatchSize : Z; Retention : string; Storage : option (string * string) }.
Record DataMetricsConfig := mkDataMetricsConfig { dm_Enabled : bool; StorageType : string; RetentionDays : Z; dm_BatchSize : Z }.
Record Config := mkConfig {
  HotReload : bool; Path : string; Mode : string; MaxPlugins : Z; Metrics : option MetricsConfig;
  GRPC : option bool; Consul : bool; DataMetrics : option DataMetricsConfig }.

(** State and counts of a circuit breaker. *)
Inductive breaker_state := Closed | HalfOpen | Open.
Record breaker := mkBreaker { b_state : breaker_state; Requests : Z; TotalSuccesses : Z; TotalFailures : Z }.

(** [collector]: the collector of metrics, and whether it is enabled;
    [data_health]: the status and report of the data layer; [discovery]: the
    statistics of service discovery. *)
Record View := mkView {
  extensions : gmap string Wrapper; conf : Config; collector : option bool; data_health : option (string * json);
  discovery : option json; breakers : gmap string breaker }.

Definition StatusActive : string := "active".
Definition StatusError : string := "error".

Definition isMetricsEnabled (m : View) : bool := match collector m with Some enabled => enabled | None => false end.

(** *** Values *)

Definition string_le (a b : string) : Prop := String.le a b.
Definition entry_le {A} (x y : string * A) : Prop := String.le x.1 y.1.
#[local] Instance entry_le_dec {A} : RelDecision (@entry_le A) := λ x y, decide (String.le x.1 y.1).
(** The entries of a map in the order of the keys. *)
Definition entries {A} (m : gmap string A) : list (string * A) := merge_sort entry_le (map_to_list m).

Definition jint (z : Z) : json := JNum (pretty z).
Definition jmap {A} (f : A → json) (m : gmap string A) : json := JObj (prod_map id f <$> entries m).
(** An object whose keys are given, some of the values being without JSON. *)
Definition obj (l : list (string * option json)) : option json :=
  fs ← mapM (λ kv : string * option json, j ← kv.2; Some (kv.1, j)) l; Some (JObj (merge_sort entry_le fs)).
(** Numbers that are not finite have no JSON. *)
Definition jfloat (f : float64) : option json :=
  match f with S754_nan | S754_infinity _ => None | _ => Some (JNum (FormatFloat_f f)) end.

Definition nonempty (k s : string) : list (string * json) := if String.eqb s "" then [] else [(k, JStr s)].
Definition metadata_json (x : Metadata) : json :=
  JObj (nonempty "name" (Name x) ++ nonempty "version" (Version x) ++
    match Dependencies x with [] => [] | l => [("dependencies", JArr (JStr <$> l))] end ++
    nonempty "description" (Description x) ++ nonempty "type" (Type_ x) ++ nonempty "group" (Group x))%list.

(** *** Answers *)

(** What a handler does with the writer: [resp.Success], a status and then
    [resp.Success], or [resp.Fail]; a handler can panic. *)
Inductive answer := ASuccess (d : data) | AStatus (code : Z) (d : data) | AFail (e : Exception) | APanic.
Definition respond {W} `{ResponseWriter W} (a : answer) (w : W) : res () W :=
  match a with
  | ASuccess d => Ok (Success w [d])
  | AStatus code d => Ok (Success (WriteHeader code w) [d])
  | AFail e => Ok (Fail w (Some e) [])
  | APanic => Panic
  end.

(** ** Routes *)

Definition extension_routes : list (string * string) :=
  [("GET", "/extensions"); ("GET", "/extensions/status"); ("GET", "/extensions/:name"); ("GET", "/extensions/metadata")].
Definition plugin_routes : list (string * string) := [("POST", "/plugins/load"); ("POST", "/plugins/unload"); ("POST", "/plugins/reload")].
Definition metrics_routes : list (string * string) :=
  (λ p, ("GET", "/metrics/" +:+ p)) <$>
  ["summary"; "system"; "comprehensive"; "extensions"; "extensions/:name"; "data"; "events"; "service-discovery"; "history"; "latest/:name"; "storage"; "config"].
Definition health_routes : list (string * string) :=
  [("GET", "/health"); ("GET", "/health/extensions"); ("GET", "/health/data"); ("GET", "/health/circuit-breakers")].
Definition system_routes : list (string * string) := [("GET", "/system/info"); ("POST", "/system/cross-services/refresh"); ("GET", "/system/config")].

Definition ManageRoutes (m : View) : list (string * string) :=
  (extension_routes ++ (if HotReload (conf m) then plugin_routes else []) ++ (if isMetricsEnabled m then metrics_routes else []) ++
   health_routes ++ system_routes)%list.

(** ** Extensions *)

Definition group_of (x : Metadata) : string := if String.eqb (Group x) "" then "default" else Group x.
Definition type_of (x : Metadata) : string := if String.eqb (Type_ x) "" then "module" else Type_ x.
Definition add_extension (result : gmap string (gmap string (list Metadata))) (ext : Wrapper) : gmap string (gmap string (list Metadata)) :=
  let group := group_of (meta ext) in
  let extType := type_of (meta ext) in
  let inner := default ∅ (result !! group) in
  <[group := <[extType := (default [] (inner !! extType) ++ [meta ext])%list]> inner]> result.
Definition grouped (exts : list Wrapper) : gmap string (gmap string (list Metadata)) := foldl add_extension ∅ exts.
Definition list_extensions (m : View) : answer :=
  ASuccess (DValue (Some (jmap (jmap (λ l, JArr (metadata_json <$> l))) (grouped (entries (extensions m)).*2)))).

Definition GetStatus (m : View) : gmap string string := status <$> extensions m.

(** The counts of the loop over the statuses. *)
Definition count_status (s : Z * Z * Z) (st : string) : Z * Z * Z :=
  let '(active, err, other) := s in
  if String.eqb st StatusActive then (active + 1, err, other)%Z
  else if String.eqb st StatusError then (active, err + 1, other)%Z else (active, err, other + 1)%Z.
Definition status_summary (m : View) : Z * (Z * Z * Z) :=
  let st := GetStatus m in (Z.of_nat (size st), foldl count_status (0, 0, 0)%Z (entries st).*2).
Definition extension_status (m : View) : answer :=
  let '(total, (active, err, other)) := status_summary m in
  ASuccess (DValue (Some (JObj [("extensions", jmap JStr (GetStatus m));
    ("summary", JObj [("active", jint active); ("error", jint err); ("other", jint other); ("total", jint total)])]))).

(** The verb of the message is not replaced: the name goes to the errors. *)
Definition get_extension (name : string) (m : View) : answer :=
  match extensions m !! name with
  | None => AFail (NotFound "Extension '%s' not found" [DString name])
  | Some ext => ASuccess (DValue (Some (JObj [("metadata", metadata_json (meta ext)); ("status", JStr (status ext))])))
  end.
Definition get_metadata (m : View) : answer := ASuccess (DValue (Some (jmap (metadata_json ∘ meta) (extensions m)))).

(** ** Plugins *)

(** [ext]: the extension of plugin files on the platform. *)
Definition plugin_file (m : View) (ext name : string) : string := JoinPath (Path (conf m)) (name +:+ ext).
(** [call]: what [LoadPlugin] of the path, or [UnloadPlugin] or [ReloadPlugin] of
    the name, returns; the error as text. *)
Definition plugin_call (failure done : string) (name : string) (call : option string) : answer :=
  if String.eqb name "" then AFail (BadRequest "Plugin name is required" [])
  else match call with
  | Some err => AFail (InternalServer failure [DString name; DString err])
  | None => ASuccess (DValue (Some (JObj [("message", JStr ("Plugin " +:+ name +:+ " " +:+ done)); ("plugin", JStr name)])))
  end.
Definition load_plugin (m : View) (ext : string) (LoadPlugin : string → option string) (name : string) : answer :=
  plugin_call "Failed to load plugin %s: %v" "loaded successfully" name (LoadPlugin (plugin_file m ext name)).
Definition unload_plugin (UnloadPlugin : string → option string) (name : string) : answer :=
  plugin_call "Failed to unload plugin %s: %v" "unloaded successfully" name (UnloadPlugin name).
Definition reload_plugin (ReloadPlugin : string → option string) (name : string) : answer :=
  plugin_call "Failed to reload plugin %s: %v" "reloaded successfully" name (ReloadPlugin name).

(** ** Metrics *)

Section Queries.
(** [time.Parse] of RFC 3339 and [time.ParseDuration], in nanoseconds. *)
Context (parse_time parse_duration : string → option Z).

Inductive param_error := EStart | EEnd | EInterval | ELimit.

(** The parameters of the query; [get] is [GetQuery]. *)
Definition parseQueryOptions (get : string → option string) (now : Z) : res param_error QueryOptions :=
  let query k := default "" (get k) in
  (let! range :=
     if String.eqb (query "start") "" || String.eqb (query "end") "" then Ok (now - 3600 * second, now)%Z
     else
       let! s := of_opt (parse_time (query "start")) EStart in
       let! e := of_opt (parse_time (query "end")) EEnd in
       Ok (s, e) in
   let! interval := if String.eqb (query "interval") "" then Ok 0%Z else of_opt (parse_duration (query "interval")) EInterval in
   let! limit :=
     if String.eqb (query "limit") "" then Ok 100%Z
     else match ParseInt (query "limit") with
          | Some l => if (l <=? 0)%Z || (10000 <? l)%Z then Err ELimit else Ok l
          | None => Err ELimit
          end in
   Ok (mkQuery (query "extension") (query "metric_type") ∅ range.1 range.2 (default "raw" (get "aggregation")) interval limit))%go.

(** [run]: the query of the collector, its error as text; a query may panic. *)
Definition history (get : string → option string) (now : Z) (error_text : param_error → string) (query_json : QueryOptions → json)
    (run : QueryOptions → res string (list json)) : answer :=
  match parseQueryOptions get now with
  | Ok opts =>
      match run opts with
      | Ok results => ASuccess (DValue (Some (JObj [("count", jint (Z.of_nat (length results))); ("query", query_json opts); ("results", JArr results)])))
      | Err e => AFail (InternalServer "Query failed: %v" [DString e])
      | Panic | NoFuel => APanic
      end
  | Err e => AFail (BadRequest "Invalid query parameters: %v" [DString (error_text e)])
  | Panic | NoFuel => APanic
  end.
End Queries.

Definition latest_limit (get : string → option string) : Z :=
  match ParseInt (default "100" (get "limit")) with
  | Some limit => if (limit <=? 0)%Z || (1000 <? limit)%Z then 100%Z else limit
  | None => 100%Z
  end.
Definition latest (get : string → option string) (run : string → Z → res string (list json)) (name : string) : answer :=
  let limit := latest_limit get in
  match run name limit with
  | Ok snapshots =>
      ASuccess (DValue (Some (JObj [("count", jint (Z.of_nat (length snapshots))); ("extension", JStr name); ("limit", jint limit); ("snapshots", JArr snapshots)])))
  | Err e => AFail (InternalServer "Failed to get latest metrics: %v" [DString e])
  | Panic | NoFuel => APanic
  end.

(** [found]: the metrics of the extension, nil if there are none. *)
Definition extension_metrics (name : string) (found : option json) : answer :=
  match found with Some j => ASuccess (DValue (Some j)) | None => AFail (NotFound "Extension '%s' not found" [DString name]) end.

(** The configuration of metrics is dereferenced. *)
Definition metrics_config (m : View) : answer :=
  match Metrics (conf m) with
  | None => APanic
  | Some c =>
      ASuccess (DValue (Some (JObj ([("batch_size", jint (BatchSize c)); ("enabled", JBool true); ("flush_interval", JStr (FlushInterval c)); ("retention", JStr (Retention c))] ++
        match Storage c with Some (ty, prefix) => [("storage", JObj [("key_prefix", JStr prefix); ("type", JStr ty)])] | None => [] end)%list)))
  end.

(** ** Health *)

Definition getHealthStatus (percentage : float64) : string :=
  if f_leb (f_of_Z 95) percentage then "excellent"
  else if f_leb (f_of_Z 80) percentage then "good"
  else if f_leb (f_of_Z 60) percentage then "degraded"
  else "unhealthy".

Definition active_count (m : View) : nat := length (filter (λ e : string * string, e.2 = StatusActive) (entries (GetStatus m))).
(** Zero by zero is not a number. *)
Definition health_rate (healthy total : nat) : float64 :=
  f_mul (f_div (f_of_Z (Z.of_nat healthy)) (f_of_Z (Z.of_nat total))) (f_of_Z 100).

(** The status and the report; [now] is the clock, [stats] the statistics of the
    storage of metrics. *)
Definition buildSystemHealth (now stats : json) (m : View) : bool * option json :=
  let total := size (GetStatus m) in
  let healthyExts := active_count m in
  let extHealthRate := health_rate healthyExts total in
  let extensions_part := obj [("healthy", Some (jint (Z.of_nat healthyExts))); ("rate", jfloat extHealthRate);
    ("status", Some (JStr (getHealthStatus extHealthRate))); ("total", Some (jint (Z.of_nat total)))] in
  let overallHealthy := negb (healthyExts <? total)%nat &&
    match data_health m with Some (s, _) => String.eqb s "healthy" | None => true end in
  let metrics_part := JObj (("enabled", JBool (isMetricsEnabled m)) ::
    if isMetricsEnabled m then [("stats", stats); ("status", JStr "enabled")]
    else [("reason", JStr (match Metrics (conf m) with Some _ => "configured but disabled" | None => "not configured" end)); ("status", JStr "disabled")]) in
  let discovery_part := JObj (match discovery m with Some cache => [("cache", cache); ("status", JStr "enabled")] | None => [("status", JStr "disabled")] end) in
  let components := obj (match data_health m with Some (_, report) => [("data", Some report)] | None => [] end ++
    [("extensions", extensions_part); ("metrics", Some metrics_part); ("service_discovery", Some discovery_part)])%list in
  (overallHealthy, obj [("components", components); ("extensions", Some (jint (Z.of_nat (size (extensions m)))));
    ("status", Some (JStr (if overallHealthy then "healthy" else "degraded"))); ("timestamp", Some now)]).

Definition health (now stats : json) (m : View) : answer :=
  let (healthy, report) := buildSystemHealth now stats m in
  if healthy then ASuccess (DValue report) else AStatus 503 (DValue report).

Definition health_data (m : View) : answer :=
  match data_health m with
  | None => AFail (ServiceUnavailable "Data layer not initialized" [])
  | Some (s, report) => if String.eqb s "healthy" then ASuccess (DValue (Some report)) else AStatus 503 (DValue (Some report))
  end.

(** *** Circuit breakers *)

Definition state_name (s : breaker_state) : string := match s with Closed => "closed" | HalfOpen => "half-open" | Open => "open" end.
Definition is_open (b : breaker) : bool := match b_state b with Open => true | _ => false end.
Definition open_breakers (m : View) : Z := Z.of_nat (length (filter (λ e : string * breaker, is_open e.2 = true) (entries (breakers m)))).
Definition getCircuitBreakerStatus (m : View) : json :=
  if (size (breakers m) =? 0)%nat then JObj [("status", JStr "no_circuit_breakers"); ("total", jint 0)]
  else
    let total := Z.of_nat (size (breakers m)) in
    JObj [("breakers", jmap (λ b, JObj [("requests", jint (Requests b)); ("state", JStr (state_name (b_state b)));
            ("total_failures", jint (TotalFailures b)); ("total_successes", jint (TotalSuccesses b))]) (breakers m));
      ("closed", jint (total - open_breakers m)); ("open", jint (open_breakers m)); ("total", jint total)].

Definition new_breaker : breaker := mkBreaker Closed 0 0 0.
(** When a breaker trips: [ReadyToTrip] of the counts. *)
Definition ReadyToTrip (requests failures : Z) : bool :=
  (3 <=? requests)%Z && f_leb (f_of_ratio false 6 10) (f_div (f_of_Z failures) (f_of_Z requests)).
(** [RegisterRoutes]: a new breaker for every extension with handlers, under the
    name in its metadata; its routes are registered without it. *)
Definition registerExtensionRoutes (ext : Wrapper) (b : gmap string breaker) : gmap string breaker := <[Name (meta ext) := new_breaker]> b.
Definition RegisterRoutes (has_handlers : string → bool) (m : View) : gmap string breaker :=
  foldl (λ b e, if has_handlers e.1 then registerExtensionRoutes e.2 b else b) (breakers m) (entries (extensions m)).

(** ** System *)

Definition features (m : View) : json :=
  JObj [("consul_enabled", JBool (Consul (conf m))); ("grpc_enabled", JBool (default false (GRPC (conf m))));
    ("hot_reload_enabled", JBool (HotReload (conf m))); ("metrics_enabled", JBool (isMetricsEnabled m))].

(** The storage of the configuration of metrics is dereferenced. *)
Definition system_config (m : View) : answer :=
  let c := conf m in
  let base := [("extension", JObj [("hot_reload", JBool (HotReload c)); ("max_plugins", jint (MaxPlugins c)); ("mode", JStr (Mode c)); ("path", JStr (Path c))]);
    ("features", features m)] in
  let data_part := match DataMetrics c with
    | Some d => if dm_Enabled d then [("data", JObj [("batch_size", jint (dm_BatchSize d)); ("enabled", JBool true); ("retention_days", jint (RetentionDays d)); ("storage_type", JStr (StorageType d))])] else []
    | None => [] end in
  if isMetricsEnabled m then
    match Metrics c with
    | Some mc =>
        match Storage mc with
        | Some (ty, _) =>
            let ext := ("extension", JObj [("batch_size", jint (BatchSize mc)); ("enabled", JBool true); ("flush_interval", JStr (FlushInterval mc));
              ("retention", JStr (Retention mc)); ("storage_type", JStr ty)]) in
            ASuccess (DValue (Some (JObj (base ++ [("metrics", JObj (data_part ++ [ext]))])%list)))
        | None => APanic
        end
    | None => APanic
    end
  else ASuccess (DValue (Some (JObj (base ++ match data_part with [] => [] | _ => [("metrics", JObj data_part)] end)%list))).

(** ** Facts *)

Lemma entries_perm {A} (m : gmap string A) : entries m ≡ₚ map_to_list m.
Proof. apply merge_sort_Permutation. Qed.

Lemma entries_status (m : gmap string Wrapper) (s : string) :
  length (filter (λ e : string * string, e.2 = s) (entries (status <$> m))) = length (filter (λ e : string * Wrapper, status e.2 = s) (entries m)).
Proof.
  rewrite !entries_perm, map_to_list_fmap. generalize (map_to_list m) as l. intros l. induction l as [|[k x] l IH]; [done|].
  cbn [fmap list_fmap]. rewrite !filter_cons. cbn [prod_map fst snd]. destruct (decide (status x = s)); cbn [length]; by rewrite IH.
Qed.

(** *** Health *)

Definition finite (f : float64) : bool := match f with S754_nan | S754_infinity _ => false | _ => true end.
Definition rate_ok (h t : Z) : bool :=
  let r := health_rate (Z.to_nat h) (Z.to_nat t) in
  finite r &&
  String.eqb (getHealthStatus r)
    (if (95 * t <=? 100 * h)%Z then "excellent" else if (80 * t <=? 100 * h)%Z then "good" else if (60 * t <=? 100 * h)%Z then "degraded" else "unhealthy").
Definition max_extensions : nat := 128.

Lemma rates_ok : forallb (λ t, forallb (λ h, rate_ok h t) (seqZ 0 (t + 1))) (seqZ 1 128) = true.
Proof. by vm_compute. Qed.

Lemma rate_is_ok (h t : nat) : (h ≤ t)%nat → (0 < t ≤ max_extensions)%nat → rate_ok (Z.of_nat h) (Z.of_nat t) = true.
Proof.
  intros Hh Ht. unfold max_extensions in Ht. pose proof rates_ok as H. rewrite forallb_forall in H.
  specialize (H (Z.of_nat t)). rewrite forallb_forall in H. apply H; apply list_elem_of_In, elem_of_seqZ; lia.
Qed.

(** What the rate of healthy extensions is called.  For up to 128 extensions,
    not none, the rate in floating point is called by the exact percentage:
    excellent from 95, good from 80, degraded from 60; without extensions it is not
    a number and unhealthy. *)
Theorem health_rate_exact (healthy total : nat) :
  (healthy ≤ total)%nat → (total ≤ max_extensions)%nat →
  getHealthStatus (health_rate healthy total) =
    (if (total =? 0)%nat then "unhealthy" else if (95 * total <=? 100 * healthy)%nat then "excellent"
     else if (80 * total <=? 100 * healthy)%nat then "good" else if (60 * total <=? 100 * healthy)%nat then "degraded" else "unhealthy") ∧
  finite (health_rate healthy total) = negb (total =? 0)%nat.
Proof.
  intros Hh Ht. destruct (Nat.eqb_spec total 0) as [->|Hne].
  - assert (healthy = 0)%nat as -> by lia. by vm_compute.
  - pose proof (rate_is_ok healthy total Hh ltac:(lia)) as H. unfold rate_ok in H. rewrite !Nat2Z.id in H.
    apply andb_true_iff in H as [Hf Hs]. split; [|done]. apply String.eqb_eq in Hs. rewrite Hs.
    assert (∀ k, (Z.of_nat k * Z.of_nat total <=? 100 * Z.of_nat healthy)%Z = (k * total <=? 100 * healthy)%nat) as Hk.
    { intros k. apply eq_bool_prop_intro. rewrite !Is_true_true, Z.leb_le, Nat.leb_le. lia. }
    by rewrite <- !Hk.
Qed.

Lemma active_le (m : View) : (active_count m ≤ size (extensions m))%nat.
Proof.
  unfold active_count. etransitivity; [apply length_filter|]. rewrite entries_perm. unfold GetStatus. by rewrite length_map_to_list, map_size_fmap.
Qed.

Lemma filter_full {A} (P : A → Prop) `{!∀ x, Decision (P x)} (l : list A) : length (filter P l) = length l → ∀ x, x ∈ l → P x.
Proof.
  induction l as [|y l IH]; intros Hl x Hx; [by apply elem_of_nil in Hx|]. rewrite filter_cons in Hl. pose proof (length_filter P l).
  destruct (decide (P y)); cbn [length] in Hl; [|lia]. apply elem_of_cons in Hx as [->|Hx]; [done|]. apply IH; [lia|done].
Qed.

Lemma active_all (m : View) : active_count m = size (extensions m) ↔ ∀ name ext, extensions m !! name = Some ext → status ext = StatusActive.
Proof.
  unfold active_count, GetStatus. rewrite entries_status, entries_perm.
  rewrite <- (length_map_to_list (extensions m)). split.
  - intros H name ext He. apply elem_of_map_to_list in He. by apply (filter_full _ _ H (name, ext)).
  - intros H. rewrite list_filter_all; [done|]. intros [name ext] He%elem_of_map_to_list. by apply (H name).
Qed.

(** When the system is healthy: exactly when every extension is active, and the
    data layer, if there is one, says it is. *)
Theorem system_healthy_iff (now stats : json) (m : View) :
  (buildSystemHealth now stats m).1 = true ↔
  (∀ name ext, extensions m !! name = Some ext → status ext = StatusActive) ∧
  (∀ s report, data_health m = Some (s, report) → s = "healthy").
Proof.
  rewrite <- active_all. unfold buildSystemHealth. cbn [fst]. rewrite andb_true_iff, negb_true_iff, Nat.ltb_ge.
  assert (size (GetStatus m) = size (extensions m)) as -> by (unfold GetStatus; apply map_size_fmap).
  pose proof (active_le m). split.
  - intros [H1 H2]. split; [lia|]. intros s report Hd. rewrite Hd in H2. by apply String.eqb_eq.
  - intros [H1 H2]. split; [lia|]. destruct (data_health m) as [[s report]|]; [|done]. apply String.eqb_eq. by apply (H2 s report).
Qed.

Lemma obj_some l : Forall (λ kv : string * option json, is_Some kv.2) l → is_Some (obj l).
Proof.
  intros H. unfold obj. assert (is_Some (mapM (λ kv : string * option json, j ← kv.2; Some (kv.1, j)) l)) as [fs ->]; [|by eexists].
  apply mapM_is_Some_2. eapply Forall_impl; [exact H|]. intros [k [j|]]; cbn; [intros _; by eexists|by intros [? ?]].
Qed.

Lemma obj_none l k : (k, None) ∈ l → obj l = None.
Proof.
  intros H. unfold obj. assert (mapM (λ kv : string * option json, j ← kv.2; Some (kv.1, j)) l = None) as ->; [|done].
  apply mapM_None_2. apply list.Exists_exists. by exists (k, None).
Qed.

Lemma report_iff (now stats : json) (m : View) : (size (extensions m) ≤ max_extensions)%nat →
  is_Some (buildSystemHealth now stats m).2 ↔ size (extensions m) ≠ 0%nat.
Proof.
  intros Hs. unfold buildSystemHealth. cbn [snd]. assert (size (GetStatus m) = size (extensions m)) as -> by (unfold GetStatus; apply map_size_fmap).
  pose proof (active_le m) as Hle. destruct (decide (size (extensions m) = 0%nat)) as [H0|Hne].
  - assert (active_count m = 0)%nat as -> by lia. rewrite H0. split; [|done]. intros [j Hj]. exfalso.
    rewrite (obj_none _ "components") in Hj; [done|]. match goal with |- ("components", None) ∈ (_, ?x) :: _ => assert (x = None) as ->; [|by left] end.
    apply (obj_none _ "extensions"). apply elem_of_app. right. left.
  - split; [done|]. intros _. pose proof (rate_is_ok (active_count m) (size (extensions m)) Hle ltac:(lia)) as H. unfold rate_ok in H.
    rewrite !Nat2Z.id in H. apply andb_true_iff in H as [Hf _].
    assert (is_Some (jfloat (health_rate (active_count m) (size (extensions m))))) as Hr by (unfold jfloat; destruct (health_rate _ _); try done; by eexists).
    repeat match goal with
    | |- is_Some (obj _) => apply obj_some
    | |- Forall _ (_ ++ _) => apply Forall_app; split
    | |- Forall _ (_ :: _) => apply list.Forall_cons_2
    | |- Forall _ [] => constructor
    | |- is_Some (snd (_, Some _)) => by eexists
    | |- is_Some (snd (_, _)) => cbn [snd]
    end; [destruct (data_health m) as [[s r]|]; repeat constructor; by eexists|done].
Qed.

(** A degraded system is answered as a good one.  Through a writer that keeps
    the status the 503 of a degraded system or data layer is replaced by the 200
    of [resp.Success]; without any extension the report has no JSON, and the
    answer is a 500. *)
Theorem health_status_hidden {W} `{!ResponseWriter W, !Deferred W} (now stats : json) (m : View) (w : W) :
  sent w = None → (size (extensions m) ≤ max_extensions)%nat →
  (∃ w', respond (health now stats m) w = Ok w' ∧ fst <$> sent w' = Some (if (size (extensions m) =? 0)%nat then 500 else 200)%Z) ∧
  (∀ s report, data_health m = Some (s, report) → ∃ w', respond (health_data m) w = Ok w' ∧ fst <$> sent w' = Some 200%Z).
Proof.
  intros Hw Hs. assert (∀ d (v : W), sent v = None → fst <$> sent (Success v [DValue d]) = Some (if d is Some _ then 200 else 500)%Z) as Hsend.
  { intros d v Hv. unfold Success, WithStatusCode, newResponse, buildSuccessResponse. cbn [orb negb failed_status Z.ltb Z.leb Z.compare Pos.compare Pos.compare_cont Z.eqb Status Data Responses.Data].
    unfold writeResponse. cbn [result_json to_json]. destruct d as [j|].
    - rewrite sent_write, sent_set, (sent_later 200 v) by done. cbn. by rewrite pending_set, pending_status.
    - unfold Error. rewrite sent_write, sent_later by (by rewrite !sent_set, sent_del, sent_set, sent_later).
      cbn. rewrite pending_status; [done|lia|]. by rewrite !sent_set, sent_del, sent_set, sent_later. }
  assert (∀ (v : W), sent v = None → sent (WriteHeader 503 v) = None) as Hlater by (intros v; apply sent_later).
  split.
  - pose proof (report_iff now stats m Hs) as Hr. unfold health. destruct (buildSystemHealth now stats m) as [b d]. cbn [snd] in Hr.
    assert ((if d is Some _ then 200 else 500)%Z = (if (size (extensions m) =? 0)%nat then 500 else 200)%Z) as <-.
    { destruct (Nat.eqb_spec (size (extensions m)) 0), d; try done; [|]; exfalso; [|].
      - apply (proj1 Hr); [by eexists|done].
      - destruct (proj2 Hr) as [? ?]; done. }
    destruct b; cbn [respond]; eexists; (split; [done|]); apply Hsend; auto.
  - intros s report Hd. unfold health_data. rewrite Hd. destruct (String.eqb s "healthy"); cbn [respond]; eexists; (split; [done|]); apply (Hsend (Some report)); auto.
Qed.

(** *** Counting and grouping *)

Lemma triple_eq {A} (a b c a' b' c' : A) : a = a' → b = b' → c = c' → (a, b, c) = (a', b', c').
Proof. by intros -> -> ->. Qed.

(** The summary adds up.  The total is the number of extensions, the counts of
    active ones and of errors are those with that status, and the rest is the
    third. *)
Theorem summary_exact (m : View) :
  let '(total, (active, err, other)) := status_summary m in
  total = Z.of_nat (size (extensions m)) ∧ (active + err + other)%Z = total ∧
  active = Z.of_nat (length (filter (λ e : string * Wrapper, status e.2 = StatusActive) (entries (extensions m)))) ∧
  err = Z.of_nat (length (filter (λ e : string * Wrapper, status e.2 = StatusError) (entries (extensions m)))).
Proof.
  unfold status_summary. assert (∀ (l : list (string * string)) a e o, foldl count_status (a, e, o)%Z l.*2 =
    (a + Z.of_nat (length (filter (λ x : string * string, x.2 = StatusActive) l)), e + Z.of_nat (length (filter (λ x : string * string, x.2 = StatusError) l)),
     o + (Z.of_nat (length l) - Z.of_nat (length (filter (λ x : string * string, x.2 = StatusActive) l)) - Z.of_nat (length (filter (λ x : string * string, x.2 = StatusError) l))))%Z) as Hf.
  { intros l. induction l as [|[k s] l IH]; intros a e o; [apply triple_eq; cbn; lia|]. cbn [fmap list_fmap foldl]. unfold count_status at 2.
    rewrite !filter_cons. cbn [snd]. destruct (String.eqb_spec s StatusActive) as [->|Ha].
    - rewrite decide_True by done. rewrite decide_False by done. rewrite IH. cbn [length]. apply triple_eq; lia.
    - rewrite (decide_False (P := s = StatusActive)) by done. destruct (String.eqb_spec s StatusError) as [->|He].
      + rewrite decide_True by done. rewrite IH. cbn [length]. apply triple_eq; lia.
      + rewrite decide_False by done. rewrite IH. cbn [length]. apply triple_eq; lia. }
  rewrite Hf. unfold GetStatus. rewrite !entries_status, map_size_fmap. split; [done|].
  assert (length (entries (status <$> extensions m)) = size (extensions m)) as Hl by (by rewrite entries_perm, length_map_to_list, map_size_fmap).
  rewrite Hl. split_and!; lia.
Qed.

Definition bucket (g t : string) (exts : list Wrapper) : list Metadata := filter (λ x, group_of x = g ∧ type_of x = t) (meta <$> exts).
Definition grouped_at (r : gmap string (gmap string (list Metadata))) (g t : string) : list Metadata := default [] (inner ← r !! g; inner !! t).

Lemma add_extension_at r ext g t : grouped_at (add_extension r ext) g t =
  if decide (group_of (meta ext) = g ∧ type_of (meta ext) = t) then (grouped_at r g t ++ [meta ext])%list else grouped_at r g t.
Proof.
  unfold grouped_at, add_extension. destruct (decide (group_of (meta ext) = g)) as [<-|Hg].
  - rewrite lookup_insert_eq. cbn [mbind option_bind]. destruct (decide (type_of (meta ext) = t)) as [<-|Ht].
    + rewrite decide_True by done. rewrite lookup_insert_eq. cbn. by destruct (r !! group_of (meta ext)); cbn; [|rewrite lookup_empty].
    + rewrite decide_False by tauto. rewrite lookup_insert_ne by done. destruct (r !! group_of (meta ext)); cbn; [done|by rewrite lookup_empty].
  - rewrite lookup_insert_ne by done. by rewrite decide_False by tauto.
Qed.

(** Every extension is listed once.  Under a group and a type the list has
    exactly the metadata with that group and type, "default" and "module" standing
    for empty ones, in the order of the names. *)
Theorem grouping_exact (m : View) (g t : string) :
  grouped_at (grouped (entries (extensions m)).*2) g t = bucket g t (entries (extensions m)).*2.
Proof.
  unfold grouped. generalize (entries (extensions m)).*2 as l. intros l. induction l as [|e l IH] using rev_ind; [done|].
  rewrite foldl_snoc, add_extension_at, IH. unfold bucket. rewrite fmap_app, filter_app. cbn [fmap list_fmap]. rewrite filter_cons, filter_nil.
  destruct (decide _); [done|]. by rewrite app_nil_r.
Qed.

(** *** Plugin files *)

Lemma path_of_append l f ext : path_of (l ++ [f]) +:+ ext = path_of (l ++ [f +:+ ext]).
Proof.
  induction l as [|a l IH]; [done|]. destruct (l ++ [f])%list as [|b r] eqn:E; [by destruct l|].
  destruct (l ++ [f +:+ ext])%list as [|b' r'] eqn:E'; [by destruct l|]. cbn [app]. rewrite E, E'.
  change (path_of (a :: b :: r)) with (a +:+ "/" +:+ path_of (b :: r)). change (path_of (a :: b' :: r')) with (a +:+ "/" +:+ path_of (b' :: r')).
  by rewrite <- IH, !str_app_assoc.
Qed.

Lemma normal_not_up c : normal c = true → pushed c = true.
Proof.
  unfold normal, pushed, skipped. destruct (String.eqb c ""), (String.eqb c "."), (String.eqb c ".."); done.
Qed.

Lemma ups cs rest : Forall (λ c, normal c = true) cs →
  foldl (clean_step true) cs (replicate (length cs) ".." ++ rest)%list = foldl (clean_step true) [] rest.
Proof.
  induction 1 as [|c cs Hc _ IH]; [done|]. cbn [length replicate app foldl]. rewrite clean_step_up_down by (by apply normal_not_up). exact IH.
Qed.

(** Any plugin file can be named.  A name without separators is a file of the
    folder of plugins, but the name is not checked: for every rooted path that
    ends in the extension of plugins there is a name for which that file is
    loaded. *)
Theorem plugin_file_anywhere (m : View) (cs ps : list string) (f ext : string) :
  Path (conf m) = abs_path cs → Forall (λ c, normal c = true) cs → Forall (λ c, normal c = true) ps →
  f ≠ "" → normal (f +:+ ext) = true →
  plugin_file m ext f = abs_path (cs ++ [f +:+ ext]) ∧
  ∃ name, name ≠ "" ∧ plugin_file m ext name = abs_path (ps ++ [f +:+ ext]).
Proof.
  intros Hp Hcs Hps Hf Hfe. assert (has_byte slash (f +:+ ext) = false) as Hb.
  { unfold normal in Hfe. apply negb_true_iff, orb_false_iff in Hfe. tauto. }
  unfold plugin_file. rewrite Hp. split.
  - rewrite JoinPath_abs by done. rewrite Split_plain by done. cbn [foldl]. rewrite clean_step_normal by done.
    by rewrite reverse_cons, reverse_involutive.
  - exists (path_of (replicate (length cs) ".." ++ ps ++ [f])%list). split.
    + destruct cs as [|c cs]; [|cbn; by destruct (replicate (length cs) ".." ++ ps ++ [f])%list]. destruct ps as [|p ps]; [done|].
      apply list.Forall_cons in Hps as [Hp' _]. cbn. destruct (ps ++ [f])%list eqn:E; [by destruct ps|]. by destruct p.
    + rewrite app_assoc, path_of_append, <- app_assoc, JoinPath_abs by done. rewrite (Split_Join slash).
      * rewrite <- (length_reverse cs), ups by (by apply Forall_reverse). rewrite foldl_app, (foldl_normal true ps) by done.
        cbn [foldl]. rewrite clean_step_normal by done. rewrite app_nil_r. by rewrite reverse_cons, reverse_involutive.
      * intros H. apply (f_equal length) in H. rewrite !length_app in H. cbn in H. lia.
      * apply Forall_app. split; [by apply Forall_replicate|]. apply Forall_app. split; [by apply normal_parts|by constructor].
Qed.

(** *** Parameters *)

(** Limits are bounded.  Whatever the client asks for, the latest metrics are
    between 1 and 1000, and a query that is accepted has a limit between 1 and
    10000; it is for the last hour unless both ends of its range are given. *)
Theorem limits_bounded (parse_time parse_duration : string → option Z) (get : string → option string) (now : Z) :
  (1 ≤ latest_limit get ≤ 1000)%Z ∧
  match parseQueryOptions parse_time parse_duration get now with
  | Ok q => (1 ≤ q_Limit q ≤ 10000)%Z ∧
      (get "start" = None ∨ get "end" = None → q_StartTime q = (now - 3600 * second)%Z ∧ q_EndTime q = now)
  | Err _ => True
  | _ => False
  end.
Proof.
  split.
  - unfold latest_limit. destruct (ParseInt _) as [l|]; [|lia]. destruct (Z.leb_spec l 0), (Z.ltb_spec 1000 l); cbn [orb]; lia.
  - unfold parseQueryOptions, rbind, of_opt. destruct (String.eqb (default "" (get "start")) "" || String.eqb (default "" (get "end")) "") eqn:Er.
    + destruct (String.eqb (default "" (get "interval")) ""); [|destruct (parse_duration _); [|done]];
        (destruct (String.eqb (default "" (get "limit")) ""); [cbn; split; [lia|done]|]); destruct (ParseInt _) as [l|]; try done;
        destruct (Z.leb_spec l 0), (Z.ltb_spec 10000 l); cbn [orb]; try done; cbn; (split; [lia|done]).
    + destruct (parse_time (default "" (get "start"))); [|done]. destruct (parse_time (default "" (get "end"))); [|done].
      assert (¬ (get "start" = None ∨ get "end" = None)) as Hn by (intros [H|H]; rewrite H in Er; cbn in Er; rewrite ?orb_true_r in Er; done).
      destruct (String.eqb (default "" (get "interval")) ""); [|destruct (parse_duration _); [|done]];
        (destruct (String.eqb (default "" (get "limit")) ""); [cbn; split; [lia|tauto]|]); destruct (ParseInt _) as [l|]; try done;
        destruct (Z.leb_spec l 0), (Z.ltb_spec 10000 l); cbn [orb]; try done; cbn; (split; [lia|tauto]).
Qed.

(** A short interval brings the handler down.  With the storage in memory, a
    query of the history with a positive interval whose whole seconds are 0
    panics as soon as a stored snapshot matches it, whatever was stored. *)
Theorem history_panics `{SortSlice} (parse_time parse_duration : string → option Z) (get : string → option string) (now : Z)
    (error_text : param_error → string) (query_json : QueryOptions → json) (result_json : AggregatedMetrics → json) (metric_text : metric_error → string)
    (ops : list store_op) (q : QueryOptions) :
  let store := foldl store_step NewMemoryStorage ops in
  let log := foldl log_step [] ops in
  let run q := rmap_err metric_text (let! l := MetricsStore.Query (base.elements (dom (MetricsStore.data store))) (Some q) store in Ok (result_json <$> l))%go in
  Forall (λ s, has_byte ":" (ExtensionName s) = false) log →
  parseQueryOptions parse_time parse_duration get now = Ok q → Validate (Some q) = Ok tt →
  (0 < q_Interval q)%Z → whole_seconds (q_Interval q) = 0%Z → Exists (hit q) log →
  history parse_time parse_duration get now error_text query_json run = APanic.
Proof.
  intros store log run Hpl Hq Hv Hi Hw Hx. unfold history. rewrite Hq. unfold run.
  pose proof (store_run_holds ops _ _ new_holds) as Hm. fold store in Hm. fold log in Hm.
  unfold MetricsStore.Query. rewrite Hv, (short_interval_keys q store log) by (done || (intros key Hk; by apply (key_in store log Hm (base.elements (dom (MetricsStore.data store))))) ).
  rewrite decide_True; [done|]. apply list.Exists_exists in Hx as (s & Hs & Hh). apply list.Exists_exists. exists s.
  split_and!; [done| |done]. apply (key_in store log Hm); [done|]. by exists s.
Qed.

(** When the report of the configuration panics: exactly when metrics are enabled
    without a configuration of metrics, or without one of their storage. *)
Theorem system_config_panics_iff (m : View) :
  system_config m = APanic ↔ isMetricsEnabled m = true ∧ (Metrics (conf m) ≫= Storage) = None.
Proof.
  unfold system_config. destruct (isMetricsEnabled m); [|split; [done|by intros [? _]]].
  destruct (Metrics (conf m)) as [mc|]; cbn; [|done]. destruct (Storage mc) as [[ty p]|]; cbn; split; try done; by intros [_ ?].
Qed.

(** *** Circuit breakers *)

Definition with_handlers (has_handlers : string → bool) (m : View) : list (string * Wrapper) := filter (λ e, has_handlers e.1 = true) (entries (extensions m)).

(** What registering routes does to the breakers.  Under the name of an extension
    with handlers there is a new breaker, closed and without counts; under any
    other the old one. *)
Theorem register_routes_exact (has_handlers : string → bool) (m : View) (name : string) :
  RegisterRoutes has_handlers m !! name =
  if decide (name ∈ (Name ∘ meta ∘ snd) <$> with_handlers has_handlers m) then Some new_breaker else breakers m !! name.
Proof.
  unfold RegisterRoutes, with_handlers. generalize (breakers m) as b. generalize (entries (extensions m)) as l. intros l.
  induction l as [|[n e] l IH]; intros b; [done|]. cbn [foldl fst snd]. rewrite IH, filter_cons. cbn [fst].
  destruct (has_handlers n) eqn:Hn; cbn [fst].
  - rewrite (decide_True (P := true = true)) by done. cbn [fmap list_fmap]. unfold registerExtensionRoutes.
    destruct (decide (name ∈ (Name ∘ meta ∘ snd) <$> filter (λ e0 : string * Wrapper, has_handlers e0.1 = true) l)) as [Hin|Hin].
    + rewrite decide_True; [done|by right].
    + destruct (decide (name = Name (meta e))) as [->|Hne].
      * rewrite lookup_insert_eq, decide_True; [done|by left].
      * rewrite lookup_insert_ne by done. rewrite decide_False; [done|]. intros [?|?]%elem_of_cons; done.
  - by rewrite (decide_False (P := false = true)).
Qed.

(** A breaker that is half open counts as closed. *)
Definition no_config : Config := mkConfig false "/opt/plugins" "file" 10 None None false None.
Example half_open_is_closed : getCircuitBreakerStatus (mkView ∅ no_config None None None {["shop" := mkBreaker HalfOpen 5 2 3]}) =
  JObj [("breakers", JObj [("shop", JObj [("requests", JNum "5"); ("state", JStr "half-open"); ("total_failures", JNum "3"); ("total_successes", JNum "2")])]);
    ("closed", JNum "1"); ("open", JNum "0"); ("total", JNum "1")].
Proof. by vm_compute. Qed.

(** The name of an extension that is not found is not in the message. *)
Example not_found_answer : get_extension "shop" (mkView ∅ no_config None None None ∅) =
  AFail (mkException 404 NothingFound "Extension '%s' not found" (DString "shop") DNil).
Proof. done. Qed.

(** ** The hypotheses can be met *)

Definition one_extension (st : string) : View := mkView {["shop" := mkWrapper (mkMetadata "shop" "1.0" [] "" "" "") st]} no_config None None None ∅.

Lemma health_rate_exact_witness : getHealthStatus (health_rate 19 20) = "excellent" ∧ finite (health_rate 19 20) = true.
Proof. apply (health_rate_exact 19 20); unfold max_extensions; lia. Defined.

Lemma health_status_hidden_witness :
  (∃ w', respond (H := at_end) (health JNull JNull (one_extension "error")) no_answer = Ok w' ∧ fst <$> sent (ResponseWriter := at_end) w' = Some 200%Z) ∧
  (∃ w', respond (H := at_end) (health JNull JNull (mkView ∅ no_config None None None ∅)) no_answer = Ok w' ∧ fst <$> sent (ResponseWriter := at_end) w' = Some 500%Z).
Proof.
  split.
  - refine (proj1 (health_status_hidden (ResponseWriter0 := at_end) JNull JNull (one_extension "error") no_answer _ _)); [done|].
    apply (bool_decide_unpack _). by vm_compute.
  - refine (proj1 (health_status_hidden (ResponseWriter0 := at_end) JNull JNull (mkView ∅ no_config None None None ∅) no_answer _ _)); [done|].
    apply (bool_decide_unpack _). by vm_compute.
Defined.

Lemma plugin_file_anywhere_witness : ∃ name, name ≠ "" ∧ plugin_file (one_extension "active") ".so" name = "/tmp/evil.so".
Proof.
  destruct (plugin_file_anywhere (one_extension "active") ["opt"; "plugins"] ["tmp"] "evil" ".so") as [_ H]; try done; try exact H; by repeat constructor.
Defined.

#[local] Existing Instance merge_sort_slice.

Definition short_query (k : string) : option string :=
  if String.eqb k "interval" then Some "1ms" else if String.eqb k "extension" then Some "auth" else if String.eqb k "aggregation" then Some "sum" else None.

Lemma history_panics_witness :
  history (λ _, None) (λ _, Some 1000000%Z) short_query (3600 * second) (λ _, "") (λ _, JNull)
    (λ q, rmap_err (λ _ : metric_error, "") (let! l := MetricsStore.Query (base.elements (dom (MetricsStore.data (foldl store_step NewMemoryStorage demo_ops))))
      (Some q) (foldl store_step NewMemoryStorage demo_ops) in Ok ((λ _, JNull) <$> l))%go) = APanic.
Proof.
  refine (history_panics (λ _, None) (λ _, Some 1000000%Z) short_query (3600 * second) (λ _, "") (λ _, JNull) (λ _, JNull) (λ _, "") demo_ops
    (mkQuery "auth" "" ∅ 0 (3600 * second) "sum" 1000000 100) _ _ _ _ _ _); try done.
  - repeat constructor.
  - apply list.Exists_exists. exists (demo_snapshot "auth" "calls" 1 (10 * second)). split; [left|]. apply (bool_decide_unpack _). by vm_compute.
Defined.
