(* ===== verification/MongoManager.v ===== *)
(** * The MongoDB manager and its driver

    Models src/data/mongodb/manager.go and driver.go: a master client and the
    clients reads are spread over, the balancers, transactions, health checks
    and closing.  A client is a number, the pointer to its [mongo.Client]; how
    connecting, pinging, starting a session and disconnecting end is an
    argument, and so is the driver's [session.WithTransaction].  The balancers
    are those of src/data/connection/database.go on another type of client. *)

From stdpp Require Import base tactics option list strings numbers.
From Stdlib Require Import ZArith Lia.
From S2P Require Import Prelude Replicas.

(** ** Data *)

Record MongoNode := mkMongoNode { URI : string; Logging : bool; NodeWeight : Z }.
(** Nodes are pointers. *)
Record MongoDB := mkMongoDB { MongoMaster : option MongoNode; MongoSlaves : list (option MongoNode); MongoStrategy : string; MongoMaxRetry : Z }.

Inductive mongo_error := EMasterRequired | ENodeEmpty | EMongoConnect | EMongoPing | EMongoStrategy.

Record Mongo := mkMongo { mmaster : nat; mslaves : list nat; mstrategy : LoadBalancer }.

(** ** Balancers *)

Definition NewMongoRoundRobinBalancer : LoadBalancer := RoundRobinBalancer 0.

(** [node.Weight] of a nil node is a panic. *)
Definition mongo_weight (node : option MongoNode) : res mongo_error Z :=
  match node with Some n => Ok (if (NodeWeight n <=? 0)%Z then 1%Z else NodeWeight n) | None => Panic end.
Fixpoint mongo_weights (nodes : list (option MongoNode)) : res mongo_error (list Z) :=
  match nodes with
  | [] => Ok []
  | n :: nodes' => rbind (mongo_weight n) (λ w, rbind (mongo_weights nodes') (λ ws, Ok (w :: ws)))
  end.
Definition NewMongoWeightBalancer (nodes : list (option MongoNode)) : res mongo_error LoadBalancer :=
  rbind (mongo_weights nodes) (λ ws, Ok (WeightBalancer ws 0)).

(** The loop of [MongoWeightBalancer.Next]. *)
Fixpoint mongo_pick (slaves : list nat) (next : Z) (ws : list Z) (i : nat) (accumulator : Z) : res attempt_error nat :=
  match ws with
  | [] => index slaves 0
  | w :: ws' =>
      let accumulator := wrap64 (accumulator + w) in
      if (wrapu64 accumulator >? next)%Z then index slaves i else mongo_pick slaves next ws' (S i) accumulator
  end.

(** [Next] of the three balancers; [rnd] is what [rand.Intn] draws. *)
Definition MongoNext (rnd : Z) (slaves : list nat) (b : LoadBalancer) : res attempt_error nat * LoadBalancer :=
  if Nat.eqb (length slaves) 0 then (Err ErrNoAvailableSlaves, b)
  else
    match b with
    | RoundRobinBalancer current =>
        let current := wrapu64 (current + 1) in
        let next := (current `mod` Z.of_nat (length slaves))%Z in
        (index slaves (Z.to_nat next), RoundRobinBalancer current)
    | RandomBalancer => (index slaves (Z.to_nat (rnd `mod` Z.of_nat (length slaves))), b)
    | WeightBalancer weights current =>
        let totalWeight := foldl (λ t w, wrap64 (t + w)) 0%Z weights in
        let current := wrapu64 (current + 1) in
        (if (wrapu64 totalWeight =? 0)%Z then Panic
         else mongo_pick slaves (current `mod` wrapu64 totalWeight) weights 0 0, WeightBalancer weights current)
    end.

(** ** The manager *)

(** [newMongoClient]; [connect] is [mongo.Connect], a new client for every
    call, here numbered, and [pings] the ping after it. *)
Definition newMongoClient (connect : string → option nat) (pings : nat → bool) (conf : option MongoNode) : res mongo_error nat :=
  match conf with
  | None => Err ENodeEmpty
  | Some n =>
      if String.eqb (URI n) "" then Err ENodeEmpty
      else match connect (URI n) with None => Err EMongoConnect | Some c => if pings c then Ok c else Err EMongoPing end
  end.

(** The slaves that could be connected, in their order; [i] numbers the call. *)
Fixpoint connect_all (connect : nat → string → option nat) (pings : nat → bool) (i : nat) (nodes : list (option MongoNode)) : list nat :=
  match nodes with
  | [] => []
  | n :: nodes' =>
      match newMongoClient (connect i) pings n with
      | Ok c => c :: connect_all connect pings (S i) nodes'
      | _ => connect_all connect pings (S i) nodes'
      end
  end.

Definition NewMongoManager (connect : nat → string → option nat) (pings : nat → bool) (conf : MongoDB) : res mongo_error Mongo :=
  match MongoMaster conf with
  | None => Err EMasterRequired
  | Some _ =>
      rbind (newMongoClient (connect 0) pings (MongoMaster conf)) (λ master,
        let slaves := or_master master (connect_all connect pings 1 (MongoSlaves conf)) in
        let strategy :=
          if String.eqb (MongoStrategy conf) "round_robin" || String.eqb (MongoStrategy conf) "" then Ok NewMongoRoundRobinBalancer
          else if String.eqb (MongoStrategy conf) "random" then Ok RandomBalancer
          else if String.eqb (MongoStrategy conf) "weight" then NewMongoWeightBalancer (MongoSlaves conf)
          else Err EMongoStrategy in
        rbind strategy (λ b, Ok (mkMongo master slaves b)))
  end.

(** [Master] of a manager that may be nil. *)
Definition MongoMasterOf (m : option Mongo) : option nat := mmaster <$> m.

(** [Slave]; its error is never used. *)
Definition MongoSlave (ping : nat → bool) (rnd : Z) (m : Mongo) : res attempt_error nat * Mongo :=
  if Nat.eqb (length (mslaves m)) 0 then (Ok (mmaster m), m)
  else
    let '(r, b) := MongoNext rnd (mslaves m) (mstrategy m) in
    let m' := mkMongo (mmaster m) (mslaves m) b in
    match r with
    | Ok s => (Ok (if ping s then s else mmaster m), m')
    | Err _ => (Ok (mmaster m), m')
    | r => (r, m')
    end.

(** [WithTransaction]: [start] tells whether a session starts, [run] is the
    driver's [session.WithTransaction], which may call the function it is given
    more than once.  The second result says whether a session was ended. *)
Definition MongoWithTransaction {ctx err : Type} (start : option err) (run : (ctx → option err) → option err) (fn : ctx → option err) : option err * bool :=
  match start with Some e => (Some e, false) | None => (run (λ sessionCtx, fn sessionCtx), true) end.

(** The client that serves a database or a collection, with the names asked for. *)
Definition GetDatabase (ping : nat → bool) (rnd : Z) (name : string) (readOnly : bool) (m : Mongo) : res attempt_error (nat * string) * Mongo :=
  if readOnly then let '(r, m') := MongoSlave ping rnd m in (rbind r (λ s, Ok (s, name)), m')
  else (Ok (mmaster m, name), m).
Definition GetCollection (ping : nat → bool) (rnd : Z) (dbName collName : string) (readOnly : bool) (m : Mongo) : res attempt_error (nat * string * string) * Mongo :=
  if readOnly then let '(r, m') := MongoSlave ping rnd m in (rbind r (λ s, Ok (s, dbName, collName)), m')
  else (Ok (mmaster m, dbName, collName), m).

(** [Health]: [true] when the master answers. *)
Fixpoint healthy (ping : nat → bool) (slaves : list nat) : list nat :=
  match slaves with [] => [] | s :: slaves' => if ping s then s :: healthy ping slaves' else healthy ping slaves' end.
Definition MongoHealth (ping : nat → bool) (m : Mongo) : bool * Mongo :=
  if negb (ping (mmaster m)) then (false, m)
  else (true, mkMongo (mmaster m) (or_master (mmaster m) (healthy ping (mslaves m))) (mstrategy m)).

(** [Close]: the clients it disconnects, in order, and whether all went well. *)
Definition MongoClose (disconnects : nat → bool) (m : Mongo) : list nat * bool :=
  let closed := mmaster m :: List.filter (λ s, negb (Nat.eqb s (mmaster m))) (mslaves m) in
  (closed, forallb disconnects closed).

(** ** The driver *)

Inductive driver_error := EMongoType | EMongoMaster | EMongoURI | EMongoManager (e : mongo_error) | EMongoDown | EMongoClose.

(** [cfg] and [conn] are of any type; [None] is a value of another one.  A nil
    pointer of the right type is not modelled. *)
Definition MongoConnect (connect : nat → string → option nat) (pings : nat → bool) (cfg : option MongoDB) : res driver_error Mongo :=
  match cfg with
  | None => Err EMongoType
  | Some c =>
      match MongoMaster c with
      | None => Err EMongoMaster
      | Some n => if String.eqb (URI n) "" then Err EMongoURI else rmap_err EMongoManager (NewMongoManager connect pings c)
      end
  end.
Definition MongoDriverClose (disconnects : nat → bool) (conn : option Mongo) : list nat * option driver_error :=
  match conn with
  | None => ([], Some EMongoType)
  | Some m => let '(closed, ok) := MongoClose disconnects m in (closed, if ok then None else Some EMongoClose)
  end.
Definition MongoDriverPing (ping : nat → bool) (conn : option Mongo) : option driver_error * option Mongo :=
  match conn with
  | None => (Some EMongoType, None)
  | Some m => let '(ok, m') := MongoHealth ping m in (if ok then None else Some EMongoDown, Some m')
  end.

(** ** Facts *)

(** The balancers are those of the SQL manager. *)
Lemma mongo_pick_eq slaves next ws i acc : mongo_pick slaves next ws i acc = weight_pick slaves next ws i acc.
Proof. revert i acc. induction ws as [|w ws IH]; intros i acc; [done|]. cbn [mongo_pick weight_pick]. rewrite Z.gtb_ltb. by destruct (_ <? _)%Z. Qed.

Lemma MongoNext_eq rnd slaves b : MongoNext rnd slaves b = Next rnd slaves b.
Proof.
  unfold MongoNext, Next. destruct slaves as [|s l] eqn:E; [done|]. cbn [length Nat.eqb]. destruct b; try done.
  unfold total_weight. by rewrite mongo_pick_eq.
Qed.

Lemma healthy_filter ping l : healthy ping l = filter (λ s, ping s = true) l.
Proof.
  induction l as [|s l IH]; [done|]. cbn [healthy]. rewrite filter_cons. destruct (ping s) eqn:E.
  - by rewrite decide_True, IH.
  - by rewrite decide_False.
Qed.

Lemma mongo_weights_ok nodes ws : mongo_weights nodes = Ok ws → length ws = length nodes ∧ Forall (λ w, 0 < w)%Z ws.
Proof.
  revert ws. induction nodes as [|n nodes IH]; intros ws; cbn [mongo_weights]; [by intros [= <-]|].
  destruct n as [n|]; [|done]. cbn [mongo_weight rbind]. destruct (mongo_weights nodes) as [ws'| | |]; cbn [rbind]; try done.
  intros [= <-]. destruct (IH ws' eq_refl) as [Hl Hw]. split; [simpl; by rewrite Hl|]. constructor; [|done].
  destruct (Z.leb_spec (NodeWeight n) 0); lia.
Qed.

Lemma connect_all_spec connect pings i nodes c : c ∈ connect_all connect pings i nodes →
  pings c = true ∧ ∃ j u, i ≤ j ∧ connect j u = Some c.
Proof.
  revert i. induction nodes as [|n nodes IH]; intros i; cbn [connect_all]; [by intros ?%not_elem_of_nil|].
  assert (c ∈ connect_all connect pings (S i) nodes → pings c = true ∧ ∃ j u, i ≤ j ∧ connect j u = Some c) as Hr.
  { intros (Hp & j & u & Hj & Hu)%IH. split; [done|]. exists j, u. split; [lia|done]. }
  destruct n as [n|]; cbn [newMongoClient]; [|done]. destruct (String.eqb _ _); [done|].
  destruct (connect i (URI n)) as [x|] eqn:Hx; [|done]. destruct (pings x) eqn:Hp; [|done].
  intros [->|Hin]%elem_of_cons; [|by apply Hr]. split; [done|]. by exists i, (URI n).
Qed.

Lemma connect_all_length connect pings i nodes : length (connect_all connect pings i nodes) ≤ length nodes.
Proof. revert i. induction nodes as [|n nodes IH]; intros i; [done|]. cbn [connect_all length]. specialize (IH (S i)). destruct (newMongoClient _ _ _); simpl; lia. Qed.

(** Clients of different calls are different. *)
Definition fresh_clients (connect : nat → string → option nat) : Prop := ∀ i j u v c, connect i u = Some c → connect j v = Some c → i = j.

Lemma connect_all_nodup connect pings i nodes : fresh_clients connect → NoDup (connect_all connect pings i nodes).
Proof.
  intros Hf. revert i. induction nodes as [|n nodes IH]; intros i; cbn [connect_all]; [constructor|].
  destruct n as [n|]; cbn [newMongoClient]; [|done]. destruct (String.eqb _ _); [done|].
  destruct (connect i (URI n)) as [x|] eqn:Hx; [|done]. destruct (pings x) eqn:Hp; [|done].
  constructor; [|done]. intros (_ & j & u & Hj & Hu)%connect_all_spec. pose proof (Hf _ _ _ _ _ Hx Hu). lia.
Qed.

Lemma NewMongoManager_facts connect pings conf m : NewMongoManager connect pings conf = Ok m →
  mslaves m = or_master (mmaster m) (connect_all connect pings 1 (MongoSlaves conf)) ∧ mslaves m ≠ [] ∧
  (∃ u, connect 0 u = Some (mmaster m)) ∧
  (MongoStrategy conf = "weight" → ∃ ws, mongo_weights (MongoSlaves conf) = Ok ws ∧ mstrategy m = WeightBalancer ws 0).
Proof.
  unfold NewMongoManager. destruct (MongoMaster conf) as [n|]; [|done]. cbn [newMongoClient].
  destruct (String.eqb (URI n) ""); [done|]. destruct (connect 0 (URI n)) as [x|] eqn:Hx; [|done]. destruct (pings x); [|done]. cbn [rbind].
  assert (∀ l, or_master x l ≠ []) as Hne by (by intros []).
  destruct (String.eqb_spec (MongoStrategy conf) "round_robin") as [E|]; cbn [orb].
  { intros [= <-]. split_and!; cbn [mmaster mslaves]; [done|done|by eexists|by rewrite E]. }
  destruct (String.eqb_spec (MongoStrategy conf) "") as [E|].
  { intros [= <-]. split_and!; cbn [mmaster mslaves]; [done|done|by eexists|by rewrite E]. }
  destruct (String.eqb_spec (MongoStrategy conf) "random") as [E|].
  { intros [= <-]. split_and!; cbn [mmaster mslaves]; [done|done|by eexists|by rewrite E]. }
  destruct (String.eqb_spec (MongoStrategy conf) "weight") as [E|]; [|done].
  unfold NewMongoWeightBalancer. destruct (mongo_weights _) as [ws| | |]; cbn [rbind]; try done.
  intros [= <-]. split_and!; cbn [mmaster mslaves mstrategy]; [done|done|by eexists|]. intros _. by exists ws.
Qed.

(** What the program does with a manager: reads and health checks. *)
Inductive mongo_op := Read (ping : nat → bool) (rnd : Z) | Probe (ping : nat → bool).
Definition run_op (m : Mongo) (o : mongo_op) : Mongo :=
  match o with Read ping rnd => (MongoSlave ping rnd m).2 | Probe ping => (MongoHealth ping m).2 end.
Definition run_ops (m : Mongo) (l : list mongo_op) : Mongo := foldl run_op m l.
(** The results of [n] reads in a row. *)
Fixpoint reads (ping : nat → bool) (n : nat) (m : Mongo) : list (res attempt_error nat) :=
  match n with O => [] | S n' => let (r, m') := MongoSlave ping 0 m in r :: reads ping n' m' end.

Lemma MongoSlave_next ping rnd m : mslaves m ≠ [] →
  MongoSlave ping rnd m =
  (match (Next rnd (mslaves m) (mstrategy m)).1 with
   | Ok s => Ok (if ping s then s else mmaster m) | Err _ => Ok (mmaster m) | r => r
   end, mkMongo (mmaster m) (mslaves m) (Next rnd (mslaves m) (mstrategy m)).2).
Proof.
  intros Hne. unfold MongoSlave. destruct (mslaves m) as [|s l] eqn:E; [done|]. cbn [length Nat.eqb]. rewrite MongoNext_eq.
  by destruct (Next rnd (s :: l) (mstrategy m)) as [[] b].
Qed.

Lemma reads_panic ping n m : mslaves m ≠ [] → Panic ∈ reads ping n m ↔ Panic ∈ picks n (mslaves m) (mstrategy m).
Proof.
  revert m. induction n as [|n IH]; intros m Hne; [done|]. cbn [reads picks]. rewrite MongoSlave_next by done.
  destruct (Next 0 (mslaves m) (mstrategy m)) as [r b]. cbn [fst snd]. rewrite !elem_of_cons, IH by done. cbn [mslaves mstrategy].
  destruct r; split; (intros [?|?]; [done|by right]) || (intros _; by left).
Qed.

(** How a run changes the manager. *)
Lemma run_ops_slaves m l : mslaves m ≠ [] →
  mmaster (run_ops m l) = mmaster m ∧ mslaves (run_ops m l) ≠ [] ∧ length (mslaves (run_ops m l)) ≤ length (mslaves m) ∧
  ((mslaves (run_ops m l)) `sublist_of` (mslaves m) ∨ mslaves (run_ops m l) = [mmaster m]).
Proof.
  intros Hne. unfold run_ops. revert m Hne. induction l as [|o l IH]; intros m Hne; cbn [foldl]; [split_and!; [done..|by left]|].
  assert (mmaster (run_op m o) = mmaster m ∧ mslaves (run_op m o) ≠ [] ∧ length (mslaves (run_op m o)) ≤ length (mslaves m) ∧
    ((mslaves (run_op m o)) `sublist_of` (mslaves m) ∨ mslaves (run_op m o) = [mmaster m])) as (Hm & Hn & Hl & Hs).
  { assert (1 ≤ length (mslaves m)) as H1 by (destruct (mslaves m); simpl; [done|lia]).
    destruct o as [ping rnd|ping]; cbn [run_op].
    - rewrite MongoSlave_next by done. split_and!; [done..|by left].
    - unfold MongoHealth. destruct (ping (mmaster m)); cbn [negb snd mmaster mslaves]; [|split_and!; [done..|by left]].
      rewrite healthy_filter. pose proof (sublist_filter (λ s, ping s = true) (mslaves m)) as Hsub.
      pose proof (sublist_length _ _ Hsub) as Hlen. destruct (filter _ _) as [|x k]; cbn [or_master]; split_and!; try done; [by right|by left]. }
  destruct (IH (run_op m o) Hn) as (Hm' & Hn' & Hl' & Hs'). split_and!; [congruence|done|lia|].
  rewrite Hm in Hs'. destruct Hs' as [Hs'| ->]; [|by right]. destruct Hs as [Hs|Hs]; [left; by etrans|]. rewrite Hs in Hs'.
  destruct (mslaves (foldl _ _ _)) as [|x k]; [done|]. right. apply sublist_cons_r in Hs' as [Hs'|(k' & [= -> ->] & Hs')].
  - by apply sublist_nil_r in Hs'.
  - apply sublist_nil_r in Hs'. by subst.
Qed.

Definition is_read (o : mongo_op) : bool := match o with Read _ _ => true | Probe _ => false end.
Definition count_reads (l : list mongo_op) : Z := Z.of_nat (length (List.filter is_read l)).

(** A balancer by weights keeps its weights, and counts the reads. *)
Lemma run_ops_strategy m l ws c : mslaves m ≠ [] → mstrategy m = WeightBalancer ws c → (0 ≤ c)%Z → (c + count_reads l < 2 ^ 64)%Z →
  mstrategy (run_ops m l) = WeightBalancer ws (c + count_reads l).
Proof.
  unfold run_ops, count_reads. revert m c. induction l as [|o l IH]; intros m c Hne Hs Hc Hl; cbn [foldl]; [by rewrite Z.add_0_r|].
  destruct (run_ops_slaves m [o] Hne) as (_ & Hn & _). unfold run_ops in Hn. cbn [foldl] in Hn. cbn [List.filter] in *.
  destruct o as [ping rnd|ping]; cbn [run_op is_read] in *.
  - cbn [length] in *. rewrite Nat2Z.inj_succ in *. rewrite (IH _ (c + 1)%Z); [f_equal; lia|done| |lia|lia].
    rewrite MongoSlave_next by done. cbn [snd mstrategy]. rewrite Hs. unfold Next. destruct (mslaves m); [done|].
    cbn [snd]. f_equal. unfold wrapu64. rewrite Z.mod_small; lia.
  - rewrite (IH _ c); [done|done| |done|done]. unfold MongoHealth. by destruct (ping (mmaster m)).
Qed.

Lemma weight_pick_fuel slaves next ws i acc : weight_pick slaves next ws i acc ≠ NoFuel.
Proof.
  assert (∀ i, index slaves i ≠ NoFuel) as Hi by (intros j; unfold index; by destruct (_ !! _)).
  revert i acc. induction ws as [|w ws IH]; intros i acc; cbn [weight_pick]; [apply Hi|]. destruct (_ <? _)%Z; [apply Hi|apply IH].
Qed.

Lemma Next_fuel rnd slaves b : (Next rnd slaves b).1 ≠ NoFuel.
Proof.
  unfold Next. destruct slaves as [|x k] eqn:E; [done|]. rewrite <- E.
  assert (∀ i, index slaves i ≠ NoFuel) as Hi by (intros j; unfold index; by destruct (_ !! _)).
  destruct b; cbn [fst]; [apply Hi..|]. destruct (_ =? _)%Z; [done|apply weight_pick_fuel].
Qed.

(** ** Properties *)

(** Reads with the strategy "weight".  After any reads and health checks of a
    manager set up with it, reads stay without a panic for ever exactly when the
    manager still has as many clients to read from as slaves are configured: one
    slave that could not be connected, or one that failed a health check of
    several slaves, and some later read panics. *)
Theorem mongo_weight_safe_iff (connect : nat → string → option nat) (pings : nat → bool) (conf : MongoDB) (m : Mongo) (ws : list Z)
    (l : list mongo_op) (ping : nat → bool) :
  NewMongoManager connect pings conf = Ok m → MongoStrategy conf = "weight" → mongo_weights (MongoSlaves conf) = Ok ws →
  (sum ws ≤ max_int64)%Z → (count_reads l + 1 + sum ws < 2 ^ 64)%Z →
  (∀ n, Panic ∉ reads ping n (run_ops m l)) ↔ length (mslaves (run_ops m l)) = length (MongoSlaves conf).
Proof.
  intros Hnew Hst Hws Hsum Hl. destruct (NewMongoManager_facts _ _ _ _ Hnew) as (Hsl & Hne & _ & Hstrat).
  destruct (Hstrat Hst) as (ws' & Hws' & Hb). rewrite Hws in Hws'. injection Hws' as <-. destruct (mongo_weights_ok _ _ Hws) as [Hlen Hpos].
  destruct (run_ops_slaves m l Hne) as (Hm & Hn & Hle & _). pose proof (sum_nonneg ws Hpos) as H0.
  pose proof (run_ops_strategy m l ws 0 Hne Hb ltac:(lia) ltac:(lia)) as Hb'.
  assert ((∀ n, Panic ∉ reads ping n (run_ops m l)) ↔ (∀ n, Panic ∉ picks n (mslaves (run_ops m l)) (WeightBalancer ws (0 + count_reads l)))) as ->.
  { split; intros H n; specialize (H n); rewrite reads_panic, Hb' in *; done. }
  rewrite weight_picks_iff by (done || (unfold count_reads in *; lia)). rewrite Hlen.
  assert (1 ≤ length (mslaves (run_ops m l))) as H1 by (destruct (mslaves (run_ops m l)); simpl; [done|lia]).
  pose proof (connect_all_length connect pings 1 (MongoSlaves conf)) as Hc. rewrite Hsl in Hle. split.
  - intros [Hnil Hge]. destruct ws as [|w ws]; [done|]. simpl in Hlen.
    destruct (connect_all connect pings 1 (MongoSlaves conf)) as [|x k]; cbn [or_master length] in *; lia.
  - intros Heq. split; [|lia]. intros ->. simpl in Hlen. lia.
Qed.

(** A read is served whatever is down.  [Slave] never returns an error, so the
    error branches of [GetDatabase] and [GetCollection] are dead: the client is
    a slave that just answered, or the master, answering or not.  Only the
    strategy "weight" can panic. *)
Theorem mongo_reads_served (m : Mongo) (ping : nat → bool) (rnd : Z) :
  match (MongoSlave ping rnd m).1 with
  | Ok s => s = mmaster m ∨ (s ∈ mslaves m ∧ ping s = true)
  | Panic => ∃ ws c, mstrategy m = WeightBalancer ws c
  | Err _ | NoFuel => False
  end.
Proof.
  destruct (decide (mslaves m = [])) as [E|Hne]; [unfold MongoSlave; rewrite E; by left|].
  rewrite MongoSlave_next by done. cbn [fst]. pose proof (Next_in rnd (mslaves m) (mstrategy m)) as Hin.
  destruct (Next rnd (mslaves m) (mstrategy m)) as [r b] eqn:HN. cbn [fst] in *. destruct r as [s|e| |].
  - destruct (ping s) eqn:Hp; [right; split; [by apply Hin|done]|by left].
  - by left.
  - destruct (mstrategy m) as [c| |ws c] eqn:Hs; [| |by eauto].
    + rewrite Next_schedule in HN by done. cbn [schedule counter] in HN. injection HN as HN _. exfalso.
      destruct (lookup_lt_is_Some_2 (mslaves m) (Z.to_nat (wrapu64 (c + 1)) `mod` length (Ok (E := attempt_error) <$> mslaves m))) as [x Hx].
      { rewrite length_fmap. apply Nat.mod_upper_bound. by destruct (mslaves m). }
      by rewrite list_lookup_fmap, Hx in HN.
    + exfalso. unfold Next in HN. destruct (mslaves m) as [|x k] eqn:E; [done|]. rewrite <- E in *. injection HN as HN _. unfold index in HN.
      destruct (lookup_lt_is_Some_2 (mslaves m) (Z.to_nat (rnd `mod` Z.of_nat (length (mslaves m))))) as [y Hy]; [|by rewrite Hy in HN].
      pose proof (Z.mod_pos_bound rnd (Z.of_nat (length (mslaves m)))). rewrite E in *. cbn [length] in *. lia.
  - apply (Next_fuel rnd (mslaves m) (mstrategy m)). by rewrite HN.
Qed.

(** Closing.  When all clients are different ones, [Close] disconnects, after
    any reads and health checks, the master and each client it reads from
    exactly once; a client that was missing in some health check is among them
    only if it is the master, so its connection stays open. *)
Theorem mongo_close_exact (connect : nat → string → option nat) (pings : nat → bool) (conf : MongoDB) (m : Mongo)
    (before after : list mongo_op) (ping : nat → bool) (disconnects : nat → bool) :
  NewMongoManager connect pings conf = Ok m → fresh_clients connect → ping (mmaster m) = true →
  let m' := run_ops m (before ++ Probe ping :: after) in
  let closed := (MongoClose disconnects m').1 in
  NoDup closed ∧ (∀ s, s ∈ closed ↔ s = mmaster m ∨ s ∈ mslaves m') ∧ ∀ s, ping s = false → s ∉ closed.
Proof.
  intros Hnew Hf Hp. destruct (NewMongoManager_facts _ _ _ _ Hnew) as (Hsl & Hne & (u & Hu) & _). intros m' closed.
  assert (NoDup (mslaves m)) as Hnd.
  { rewrite Hsl. pose proof (connect_all_nodup connect pings 1 (MongoSlaves conf) Hf).
    destruct (connect_all _ _ _ _); cbn [or_master]; [apply NoDup_singleton|done]. }
  destruct (run_ops_slaves m (before ++ Probe ping :: after) Hne) as (Hm & _ & _ & Hsub). fold m' in Hm, Hsub.
  assert (NoDup (mslaves m')) as Hnd'.
  { destruct Hsub as [Hsub| ->]; [by eapply sublist_NoDup|apply NoDup_singleton]. }
  assert (∀ s, s ∈ closed ↔ s = mmaster m ∨ s ∈ mslaves m') as Hc.
  { intros s. unfold closed, MongoClose. cbn [fst]. rewrite elem_of_cons, Hm, list_elem_of_In, filter_In, <- list_elem_of_In.
    rewrite negb_true_iff, Nat.eqb_neq. destruct (decide (s = mmaster m)); tauto. }
  split_and!; [|done|].
  - unfold closed, MongoClose. cbn [fst]. constructor.
    + rewrite list_elem_of_In, filter_In, negb_true_iff, Nat.eqb_neq. tauto.
    + apply NoDup_ListNoDup, List.NoDup_filter. by apply NoDup_ListNoDup.
  - intros s Hs [->|Hin]%Hc; [congruence|]. revert Hin. unfold m', run_ops. rewrite foldl_app. cbn [foldl].
    destruct (run_ops_slaves m before Hne) as (Hm1 & Hne1 & _). unfold run_ops in Hm1, Hne1. set (m1 := foldl run_op m before) in *.
    assert (mslaves (run_op m1 (Probe ping)) ≠ [] ∧ mmaster (run_op m1 (Probe ping)) = mmaster m ∧ s ∉ mslaves (run_op m1 (Probe ping))) as (Hne2 & Hm2 & Hnot).
    { cbn [run_op]. unfold MongoHealth. rewrite Hm1, Hp. cbn [negb snd mslaves mmaster]. rewrite healthy_filter.
      destruct (filter _ _) as [|x k] eqn:E; cbn [or_master]; split_and!; try done.
      - intros ->%list_elem_of_singleton. congruence.
      - rewrite <- E, list_elem_of_filter. intros [? _]. congruence. }
    destruct (run_ops_slaves (run_op m1 (Probe ping)) after Hne2) as (_ & _ & _ & [Hs2|Hs2]); unfold run_ops in Hs2.
    + intros Hin. apply Hnot. eapply sublist_subseteq; eassumption.
    + rewrite Hs2, Hm2. intros ->%list_elem_of_singleton. congruence.
Qed.

(** *** At concrete inputs *)

Definition node (uri : string) (w : Z) : option MongoNode := Some (mkMongoNode uri false w).
Definition demo_mongo_conf : MongoDB := mkMongoDB (node "m" 0) [node "a" 2; node "b" 0] "weight" 3.
Definition demo_mongo_connect (i : nat) (u : string) : option nat := Some (10 + i).
Definition demo_mongo : Mongo := mkMongo 10 [11; 12] (WeightBalancer [2; 1]%Z 0).
Definition down12 (s : nat) : bool := negb (Nat.eqb s 12).

(** The second slave fails a check, and the third read after it panics. *)
Lemma mongo_weight_safe_iff_witness :
  reads (λ _, true) 3 (run_ops demo_mongo [Probe down12]) = [Ok 11; Panic; Ok 11] ∧
  ¬ ∀ n, Panic ∉ reads (λ _, true) n (run_ops demo_mongo [Probe down12]).
Proof.
  split; [reflexivity|]. intros Hno.
  assert (length (mslaves (run_ops demo_mongo [Probe down12])) = length (MongoSlaves demo_mongo_conf)) as Hx; [|discriminate Hx].
  apply (mongo_weight_safe_iff demo_mongo_connect (λ _, true) demo_mongo_conf demo_mongo [2; 1]%Z [Probe down12] (λ _, true));
    [reflexivity|reflexivity|reflexivity|vm_compute; discriminate|vm_compute; reflexivity|exact Hno].
Defined.

Lemma mongo_close_exact_witness :
  let m' := run_ops demo_mongo ([] ++ [Probe down12; Read (λ _, true) 0]) in
  let closed := (MongoClose (λ _, true) m').1 in
  closed = [10; 11] ∧ NoDup closed ∧ (∀ s, s ∈ closed ↔ s = mmaster demo_mongo ∨ s ∈ mslaves m') ∧ ∀ s, down12 s = false → s ∉ closed.
Proof.
  split; [reflexivity|].
  apply (mongo_close_exact demo_mongo_connect (λ _, true) demo_mongo_conf demo_mongo [] [Read (λ _, true) 0] down12 (λ _, true));
    [reflexivity| |reflexivity]. intros i j u v c. unfold demo_mongo_connect. intros [= <-] [= ?]. lia.
Defined.
