(* ===== verification/JsonText.v ===== *)
(** * JSON texts written by hand

    The programs that build a JSON text with a format string: texts with white
    space around their values, and strings between quotes as they are, without
    escapes.  [decode_text] says what such a text decodes to. *)

From stdpp Require Import base tactics option list strings numbers pretty.
From Stdlib Require Import ZArith Ascii Lia.
From S2P Require Import Prelude Lexer Float64 Base64 GoStrings Json Utils.

Open Scope string_scope.

(** ** Texts *)

(** Members carry the white space before their key. *)
Inductive text :=
| TNum (lit : string) | TStr (s : string) | TArr (l : list text) | TObj (l : list (string * string * text))
| TPad (before after : string) (x : text).

Definition in_quotes (s : string) : string := String dquote (s +:+ String dquote "").
Fixpoint print (x : text) : string :=
  match x with
  | TNum lit => lit
  | TStr s => in_quotes s
  | TArr l => "[" +:+ Join "," (print <$> l) +:+ "]"
  | TObj l => "{" +:+ Join "," ((λ m, m.1.1 +:+ in_quotes m.1.2 +:+ ":" +:+ print m.2) <$> l) +:+ "}"
  | TPad before after x => before +:+ print x +:+ after
  end.
Fixpoint value (x : text) : json :=
  match x with
  | TNum lit => JNum lit
  | TStr s => JStr s
  | TArr l => JArr (value <$> l)
  | TObj l => JObj ((λ m, (m.1.2, value m.2)) <$> l)
  | TPad _ _ x => value x
  end.

(** A byte that stands for itself between quotes. *)
Definition plain_byte (c : ascii) : bool := negb (Ascii.eqb c dquote || Ascii.eqb c backslash || (code_of c <? 32)%Z).
Definition plain (s : string) : bool := valid_utf8 s && str_all plain_byte s.

Definition is_space (s : string) : bool := str_all is_ws s.
Fixpoint well_formed (x : text) : bool :=
  match x with
  | TNum lit => is_number lit
  | TStr s => plain s
  | TArr l => match l with [] => false | _ => forallb well_formed l end
  | TObj l => match l with [] => false | _ => forallb (λ m, is_space m.1.1 && plain m.1.2 && well_formed m.2) l end
  | TPad before after x => is_space before && is_space after && well_formed x
  end.

(** ** Facts *)

Section Induction.
Context (P : text → Prop).
Hypothesis (Hnum : ∀ lit, P (TNum lit)) (Hstr : ∀ s, P (TStr s)) (Harr : ∀ l, Forall P l → P (TArr l))
  (Hobj : ∀ l, Forall (λ m, P m.2) l → P (TObj l)) (Hpad : ∀ b a x, P x → P (TPad b a x)).
Lemma text_ind' x : P x.
Proof.
  revert x. fix IH 1. intros [].
  - apply Hnum.
  - apply Hstr.
  - apply Harr. induction l as [|x l IHl]; constructor; [apply IH|exact IHl].
  - apply Hobj. induction l as [|[k x] l IHl]; constructor; [apply IH|exact IHl].
  - apply Hpad, IH.
Qed.
End Induction.

(** A plain string is read as it is. *)
Lemma unquote_plain n s k t : valid_runes n s = true → str_all plain_byte s = true → (String.length s < k)%nat →
  unquote k (s +:+ String dquote t) = Some (s, t).
Proof.
  revert s k. induction n as [|n IH]; intros [|c s] [|k] Hv Hp Hk; try (simpl in Hk; lia); try done.
  cbn [valid_runes] in Hv. destruct (take_rune (String c s)) as [[r s']|] eqn:Ht; [|done].
  destruct (take_rune_spec _ _ _ Ht) as (Hs & Hu & (c' & r' & -> & Ha)). rewrite str_app_cons in Hs. injection Hs as <- ->.
  cbn [str_all] in Hp. apply andb_true_iff in Hp as [Hc Hp]. rewrite str_all_app in Hp. apply andb_true_iff in Hp as [_ Hp].
  rewrite str_app_cons, str_app_assoc. unfold plain_byte in Hc. rewrite negb_true_iff, !orb_false_iff in Hc. destruct Hc as [[Hq Hb] Hctl].
  cbn [String.length] in Hk. rewrite str_length_app in Hk.
  cbn [unquote]. rewrite Hq, Hb, Hctl. destruct (is_ascii c) eqn:Hasc.
  - rewrite (Ha eq_refl), str_app_nil_l. rewrite IH by (done || lia). done.
  - pose proof (Hu (s' +:+ String dquote t)) as Hu'. rewrite str_app_cons in Hu'. rewrite Hu'. rewrite IH by (done || lia). done.
Qed.

Lemma unquote_quotes s t : plain s = true →
  unquote (S (String.length (s +:+ String dquote t))) (s +:+ String dquote t) = Some (s, t).
Proof.
  intros [Hv Hp]%andb_true_iff. apply (unquote_plain (String.length s)); [done..|]. rewrite str_length_app. simpl. lia.
Qed.

Lemma skip_ws_space w t : is_space w = true → skip_ws (w +:+ t) = skip_ws t.
Proof. induction w as [|c w IH]; [done|]. unfold is_space. cbn [str_all]. intros [Hc Hw]%andb_true_iff. rewrite str_app_cons. cbn [skip_ws]. rewrite Hc. by apply IH. Qed.

Lemma stops_space w t : is_space w = true → stops t = true → stops (w +:+ t) = true.
Proof.
  destruct w as [|c w]; [done|]. unfold is_space. cbn [str_all]. intros [Hc _]%andb_true_iff _. rewrite str_app_cons.
  revert Hc. by destruct c as [[] [] [] [] [] [] [] []].
Qed.

Lemma parse_value_ws n w s : is_space w = true → parse_value n (w +:+ s) = parse_value n s.
Proof. intros Hw. destruct n; cbn [parse_value]; by rewrite skip_ws_space. Qed.

(** What the parser does with the text of a value: the rest may have lost white space. *)
Definition reads (pv : string → option (json * string)) (x : text) : Prop :=
  ∀ u, stops u = true → ∃ u', pv (print x +:+ u) = Some (value x, u') ∧ skip_ws u' = skip_ws u.

Lemma elements_text pv l k t : l ≠ [] → Forall (reads pv) l → (length l ≤ k)%nat →
  elements pv k (Join "," (print <$> l) +:+ String "]" t) = Some (value <$> l, t).
Proof.
  intros Hne Hl. revert k. induction Hl as [|x l Hx Hl IH]; intros [|k] Hk; [done|done|cbn in Hk; lia|].
  rewrite fmap_cons, Join_cons, str_app_assoc. cbn [elements]. destruct l as [|y l].
  - cbn [fmap list_fmap]. rewrite str_app_nil_l. destruct (Hx (String "]" t) eq_refl) as (u' & -> & Hu'). cbn [mbind option_bind]. by rewrite Hu'.
  - rewrite fmap_cons, str_app_assoc. destruct (Hx ("," +:+ Join "," (print y :: (print <$> l)) +:+ String "]" t) eq_refl) as (u' & -> & Hu').
    cbn [mbind option_bind]. rewrite Hu'. rewrite (str_app_cons ","), str_app_nil_l. cbn [skip_ws is_ws existsb Ascii.eqb Bool.eqb orb].
    rewrite <- fmap_cons, IH; [done|done|simpl in *; lia].
Qed.

Definition member_print (m : string * string * text) : string := m.1.1 +:+ in_quotes m.1.2 +:+ ":" +:+ print m.2.
Definition member_value (m : string * string * text) : string * json := (m.1.2, value m.2).

Lemma members_text pv l k t : l ≠ [] → Forall (λ m, is_space m.1.1 = true ∧ plain m.1.2 = true ∧ reads pv m.2) l → (length l ≤ k)%nat →
  members pv k (Join "," (member_print <$> l) +:+ String "}" t) = Some (member_value <$> l, t).
Proof.
  intros Hne Hl. revert k. induction Hl as [|[[w key] x] l (Hw & Hkey & Hx) Hl IH]; intros [|k] Hk; [done|done|simpl in Hk; lia|].
  rewrite fmap_cons, Join_cons, str_app_assoc. cbn [members fst snd] in *. unfold member_print at 1, in_quotes. cbn [fst snd].
  rewrite !str_app_assoc, skip_ws_space by done. rewrite str_app_cons, !str_app_assoc. cbn [skip_ws is_ws existsb dquote Ascii.eqb Bool.eqb orb].
  rewrite (str_app_cons dquote), str_app_nil_l. rewrite unquote_quotes by done. cbn [mbind option_bind].
  rewrite (str_app_cons ":"), str_app_nil_l. cbn [skip_ws is_ws existsb Ascii.eqb Bool.eqb orb].
  destruct l as [|m l].
  - cbn [fmap list_fmap]. rewrite str_app_nil_l. destruct (Hx (String "}" t) eq_refl) as (u' & -> & Hu'). cbn [mbind option_bind]. by rewrite Hu'.
  - rewrite fmap_cons, str_app_assoc.
    destruct (Hx ("," +:+ Join "," (member_print m :: (member_print <$> l)) +:+ String "}" t) eq_refl) as (u' & -> & Hu').
    cbn [mbind option_bind]. rewrite Hu'. rewrite (str_app_cons ","), str_app_nil_l. cbn [skip_ws is_ws existsb Ascii.eqb Bool.eqb orb].
    rewrite <- fmap_cons, IH; [done|done|simpl in *; lia].
Qed.

(** A text is read as its value when nothing in it needs an escape. *)
Lemma parse_text x : well_formed x = true → ∀ n, (depth (value x) ≤ n)%nat → reads (parse_value n) x.
Proof.
  induction x as [lit|s|l IH|l IH|b a x IH] using text_ind'; intros Hp n Hd u Hu; cbn [well_formed print value] in *.
  - exists u. split; [|done]. exact (parse_encode (JNum lit) Hp n (Nat.le_0_l _) u Hu).
  - exists u. split; [|done]. unfold in_quotes. rewrite str_app_cons, str_app_assoc, str_app_cons, str_app_nil_l.
    destruct n; cbn [parse_value skip_ws is_ws existsb dquote Ascii.eqb Bool.eqb orb]; by rewrite unquote_quotes.
  - destruct l as [|x l]; [done|]. destruct n as [|n]; [cbn in Hd; lia|].
    exists u. split; [|done]. rewrite !str_app_cons, !str_app_nil_l, str_app_assoc. rewrite (str_app_cons "]"), str_app_nil_l.
    cbn [parse_value skip_ws is_ws existsb dquote Ascii.eqb Bool.eqb orb].
    assert (Forall (reads (parse_value n)) (x :: l)) as Hall.
    { cbn [depth] in Hd. apply le_S_n in Hd. rewrite max_list_le, !list.Forall_fmap in Hd. rewrite forallb_forall in Hp.
      rewrite list.Forall_forall in IH, Hd |- *. intros y Hy. specialize (Hp y). rewrite <- list_elem_of_In in Hp.
      apply IH; [done|by apply Hp|by apply Hd]. }
    assert (elements (parse_value n) (S (String.length (Join "," (print <$> x :: l) +:+ String "]" u))) (Join "," (print <$> x :: l) +:+ String "]" u) =
      Some (value <$> x :: l, u)) as He.
    { apply elements_text; [done|done|]. rewrite str_length_app. pose proof (Join_length "," (print <$> x :: l)) as HJ. rewrite length_fmap in HJ.
      specialize (HJ ltac:(done)). cbn [String.length]. lia. }
    destruct (CutPrefix "]" (skip_ws (Join "," (print <$> x :: l) +:+ String "]" u))) as [t|] eqn:Hcut; [|by rewrite He].
    exfalso. apply CutPrefix_spec in Hcut. apply list.Forall_cons in Hall as [Hx _]. rewrite fmap_cons, Join_cons, str_app_assoc in Hcut.
    destruct (Hx (match l with [] => "" | _ => "," +:+ Join "," (print <$> l) end +:+ String "]" u)) as (u' & Hr & _).
    { by destruct l. }
    assert ((match print <$> l with [] => "" | _ :: _ => "," +:+ Join "," (print <$> l) end) = match l with [] => "" | _ => "," +:+ Join "," (print <$> l) end) as Hm by (by destruct l).
    rewrite Hm in Hcut. revert Hr. destruct n; cbn [parse_value]; rewrite Hcut; done.
  - destruct l as [|m l]; [done|]. destruct n as [|n]; [cbn in Hd; lia|].
    exists u. split; [|done]. rewrite !str_app_cons, !str_app_nil_l, str_app_assoc. rewrite (str_app_cons "}"), str_app_nil_l.
    cbn [parse_value skip_ws is_ws existsb dquote Ascii.eqb Bool.eqb orb].
    change ((λ m : string * string * text, m.1.1 +:+ in_quotes m.1.2 +:+ ":" +:+ print m.2) <$> m :: l) with (member_print <$> m :: l).
    change ((λ m : string * string * text, (m.1.2, value m.2)) <$> m :: l) with (member_value <$> m :: l) in *.
    assert (Forall (λ m, is_space m.1.1 = true ∧ plain m.1.2 = true ∧ reads (parse_value n) m.2) (m :: l)) as Hall.
    { cbn [depth] in Hd. apply le_S_n in Hd. rewrite max_list_le, !list.Forall_fmap in Hd. rewrite forallb_forall in Hp.
      rewrite list.Forall_forall in IH, Hd |- *. intros y Hy. specialize (Hp y). rewrite <- list_elem_of_In in Hp.
      specialize (Hp Hy). rewrite !andb_true_iff in Hp. destruct Hp as [[Hw Hk] Hv]. split_and!; [done..|]. apply IH; [done..|]. by apply Hd. }
    assert (CutPrefix "}" (skip_ws (Join "," (member_print <$> m :: l) +:+ String "}" u)) = None) as ->.
    { apply list.Forall_cons in Hall as [(Hw & _) _]. rewrite fmap_cons, Join_cons, str_app_assoc. unfold member_print at 1.
      by rewrite !str_app_assoc, skip_ws_space. }
    rewrite members_text; [done|done|done|].
    rewrite str_length_app. pose proof (Join_length "," (member_print <$> m :: l)) as HJ. rewrite length_fmap in HJ.
    specialize (HJ ltac:(done)). cbn [String.length]. lia.
  - rewrite !andb_true_iff in Hp. destruct Hp as [[Hb Ha] Hx].
    destruct (IH Hx n Hd (a +:+ u)) as (u' & Hr & Hu'); [by apply stops_space|].
    exists u'. split; [|by rewrite Hu', skip_ws_space]. rewrite !str_app_assoc, parse_value_ws by done. exact Hr.
Qed.

Lemma decode_text x : well_formed x = true → (depth (value x) ≤ max_depth)%nat → decode (print x) = Some (value x).
Proof.
  intros Hw Hd. unfold decode. destruct (parse_text x Hw max_depth Hd "" eq_refl) as (u' & Hr & Hu'). rewrite str_app_nil_r in Hr.
  rewrite Hr. cbn [mbind option_bind]. by rewrite Hu'.
Qed.
