(* ===== verification/SearchAdapters.v ===== *)
(** * Adapters of the search engines

    Models src/data/elasticsearch/adapter.go and client/client.go,
    src/data/opensearch/adapter.go and client/client.go and
    src/data/meilisearch/adapter.go with the part of client/client.go it uses:
    what a request of src/data/search becomes for each engine, and what an
    answer becomes for the caller.  The libraries of the engines are arguments:
    how each of their calls ends.  A document is the JSON value that
    [json.Marshal] makes of it, [None] when it fails.  The two adapters that send
    JSON build it with the same format strings. *)

From stdpp Require Import base tactics option list gmap strings numbers pretty.
From Stdlib Require Import ZArith Ascii Lia.
From S2P Require Import Prelude Float64 Base64 Lexer GoStrings Json JsonText Utils.

Open Scope string_scope.

(** ** Requests *)

(** The filter, its values printed with %v, in the order the map is ranged over. *)
Record Request := mkRequest { RIndex : string; RQuery : string; RFilter : list (string * string); RFrom : Z; RSize : Z }.
Record IndexSettings := mkSettings {
  Shards : Z; Replicas : Z; RefreshInterval : string; SearchableFields : list string; FilterableFields : list string }.
Record Hit := mkHit { HID : string; HScore : float64; HSource : list (string * json) }.
Record Response := mkResponse { Total : Z; Hits : list Hit }.
Abbreviation document := (option json).

Inductive adapter_error := EUnavailable | ERawNil | ECall | EStatus | EDecode | EMarshal | EEngine | ENoIDs.

(** An answer of an engine over HTTP. *)
Record Answer := mkAnswer { StatusCode : Z; Body : string }.
Definition IsError (a : Answer) : bool := (299 <? StatusCode a)%Z.

(** ** Texts sent to Elasticsearch and OpenSearch *)

Fixpoint tabs (n : nat) : string := match n with O => "" | S n' => String "009" (tabs n') end.
Definition nl (n : nat) : string := String "010" (tabs n).
Definition colon (k v : string) : string := in_quotes k +:+ ": " +:+ v.

Definition default_searchable : list string := ["title^2"; "content"; "details"; "name"; "description"].
Definition default_filterable : list string := ["id"; "user_id"; "type"; "status"; "created_at"; "updated_at"].

Definition buildFieldsArray (fields : list string) : string := "[" +:+ Join "," (in_quotes <$> fields) +:+ "]".

Definition filter_query (fv : string * string) : string := "{" +:+ colon "term" ("{" +:+ colon fv.1 (in_quotes fv.2) +:+ "}") +:+ "}".

Definition buildQuery (req : Request) : string :=
  let fields := buildFieldsArray default_searchable in
  match RFilter req with
  | [] =>
      "{" +:+ nl 3 +:+ colon "query" ("{" +:+ nl 4 +:+ colon "multi_match" ("{" +:+
        nl 5 +:+ colon "query" (in_quotes (RQuery req)) +:+ "," +:+ nl 5 +:+ colon "fields" fields +:+
        nl 4 +:+ "}") +:+ nl 3 +:+ "}") +:+ "," +:+
      nl 3 +:+ colon "from" (pretty (RFrom req)) +:+ "," +:+ nl 3 +:+ colon "size" (pretty (RSize req)) +:+ nl 2 +:+ "}"
  | filter =>
      "{" +:+ nl 2 +:+ colon "query" ("{" +:+ nl 3 +:+ colon "bool" ("{" +:+ nl 4 +:+ colon "must" ("{" +:+
        nl 5 +:+ colon "multi_match" ("{" +:+
        nl 6 +:+ colon "query" (in_quotes (RQuery req)) +:+ "," +:+ nl 6 +:+ colon "fields" fields +:+
        nl 5 +:+ "}") +:+ nl 4 +:+ "}") +:+ "," +:+
        nl 4 +:+ colon "filter" ("[" +:+ Join "," (filter_query <$> filter) +:+ "]") +:+
        nl 3 +:+ "}") +:+ nl 2 +:+ "}") +:+ "," +:+
      nl 2 +:+ colon "from" (pretty (RFrom req)) +:+ "," +:+ nl 2 +:+ colon "size" (pretty (RSize req)) +:+ nl 1 +:+ "}"
  end.

Definition TrimSuffix (suffix s : string) : string :=
  let n := String.length s - String.length suffix in
  if (Nat.leb (String.length suffix) (String.length s) && String.eqb (str_drop n s) suffix)%nat then String.substring 0 n s else s.

(** The type each field gets; [built] is the map so far. *)
Definition put_text (built : gmap string string) (field : string) : gmap string string := <[TrimSuffix "^2" field := "text"]> built.
Definition put_filter (built : gmap string string) (field : string) : gmap string string :=
  <[field := if String.eqb field "created_at" || String.eqb field "updated_at" then "long" else "keyword"]> built.
Definition properties (searchable filterable : list string) : gmap string string :=
  foldl put_filter (foldl put_text ∅ searchable) filterable.

(** Settings over the defaults: shards, replicas, refresh interval and fields. *)
Definition effective (settings : option IndexSettings) : IndexSettings :=
  match settings with
  | None => mkSettings 1 0 "1s" default_searchable default_filterable
  | Some s =>
      mkSettings (if (0 <? Shards s)%Z then Shards s else 1) (if (0 <=? Replicas s)%Z then Replicas s else 0)
        (if String.eqb (RefreshInterval s) "" then "1s" else RefreshInterval s)
        (match SearchableFields s with [] => default_searchable | l => l end)
        (match FilterableFields s with [] => default_filterable | l => l end)
  end.
Definition properties_of (settings : option IndexSettings) : gmap string string :=
  properties (SearchableFields (effective settings)) (FilterableFields (effective settings)).

(** [buildSettings]; [props] are the properties in the order the map is ranged over. *)
Definition property_text (p : string * string) : string := colon p.1 ("{" +:+ colon "type" (in_quotes p.2) +:+ "}").
Definition buildSettings (props : list (string * string)) (settings : option IndexSettings) : string :=
  let s := effective settings in
  "{" +:+ nl 2 +:+ colon "settings" ("{" +:+
    nl 3 +:+ colon "number_of_shards" (pretty (Shards s)) +:+ "," +:+
    nl 3 +:+ colon "number_of_replicas" (pretty (Replicas s)) +:+ "," +:+
    nl 3 +:+ colon "refresh_interval" (in_quotes (RefreshInterval s)) +:+ nl 2 +:+ "}") +:+ "," +:+
  nl 2 +:+ colon "mappings" ("{" +:+ nl 3 +:+ colon "properties" ("{" +:+ nl 4 +:+ Join "," (property_text <$> props) +:+
    nl 3 +:+ "}") +:+ nl 2 +:+ "}") +:+ nl 1 +:+ "}".

Definition newline : ascii := "010".
Definition bulk_action (index : string) : string :=
  "{" +:+ in_quotes "index" +:+ ":{" +:+ in_quotes "_index" +:+ ":" +:+ in_quotes index +:+ "}}".
Definition delete_action (index id : string) : string :=
  "{" +:+ in_quotes "delete" +:+ ":{" +:+ in_quotes "_index" +:+ ":" +:+ in_quotes index +:+ "," +:+ in_quotes "_id" +:+ ":" +:+ in_quotes id +:+ "}}".
Definition os_action : string := "{" +:+ in_quotes "index" +:+ ":{}}".

(** The lines of a bulk request, in order; a document that cannot be printed ends it. *)
Fixpoint bulk_body (action : string) (documents : list document) : res adapter_error string :=
  match documents with
  | [] => Ok ""
  | None :: _ => Err EMarshal
  | Some j :: documents' =>
      rbind (bulk_body action documents') (λ rest, Ok (action +:+ String newline (encode j +:+ String newline rest)))
  end.
Fixpoint delete_body (index : string) (ids : list string) : string :=
  match ids with [] => "" | id :: ids' => delete_action index id +:+ String newline (delete_body index ids') end.

(** ** Calls to an engine *)

Inductive call :=
| CSearch (index body : string) | CIndex (index id body : string) | CDelete (index id : string) | CBulk (index body : string) (refresh : bool)
| CExists (index : string) | CCreate (index body : string) | CInfo.

(** The adapter's client is nil, the library's client in it is nil, or both are there. *)
Inductive presence := NoClient | NoRaw | Ready.

(** What an operation sends, in order, and how it ends. *)
Abbreviation outcome A := (list call * res adapter_error A)%type.

Definition guarded {A} (p : presence) (k : outcome A) : outcome A :=
  match p with NoClient => ([], Err EUnavailable) | NoRaw => ([], Err ERawNil) | Ready => k end.
(** The check of the adapter alone, and that of the client it calls. *)
Definition available {A} (p : presence) (k : outcome A) : outcome A := match p with NoClient => ([], Err EUnavailable) | _ => k end.
Definition connected {A} (p : presence) (k : outcome A) : outcome A := match p with Ready => k | _ => ([], Err ERawNil) end.

(** ** Elasticsearch *)

Section Elasticsearch.
Context (client : presence) (answer : call → option Answer).

(** [client.Search] decodes the body of the answer into an [esapi.Response], by
    [decode_response]: its status code and its body, nil or not. *)
Context (decode_response : string → option (Z * option string)).

Definition set_score (j : json) (h : Hit) : option Hit :=
  match j with JNum lit => f ← ParseFloat lit; Some (mkHit (HID h) f (HSource h)) | JNull => Some h | _ => None end.
Definition set_source (j : json) (h : Hit) : option Hit :=
  match j with JObj l => Some (mkHit (HID h) (HScore h) (HSource h ++ l)%list) | JNull => Some (mkHit (HID h) (HScore h) []) | _ => None end.
Definition hit_fields : list (string * (json → Hit → option Hit)) :=
  [("_id", set_string (λ s h, mkHit s (HScore h) (HSource h))); ("_score", set_score); ("_source", set_source)].
Definition no_hit : Hit := mkHit "" f_zero [].
Definition decode_hit (j : json) : option Hit :=
  match j with JObj l => decode_struct hit_fields l no_hit | JNull => Some no_hit | _ => None end.
(** A structure that is no pointer: null leaves it. *)
Definition set_struct {T} (fields : list (string * (json → T → option T))) (j : json) (t : T) : option T :=
  match j with JObj l => decode_struct fields l t | JNull => Some t | _ => None end.
Definition hits_fields : list (string * (json → Response → option Response)) :=
  [("total", set_struct [("value", set_int64 (λ z r, mkResponse z (Hits r)))]);
   ("hits", λ j r, match j with JArr l => hs ← mapM decode_hit l; Some (mkResponse (Total r) hs) | JNull => Some (mkResponse (Total r) []) | _ => None end)].
Definition decode_hits (body : string) : option Response :=
  j ← decode body; set_struct [("hits", set_struct hits_fields)] j (mkResponse 0 []).

(** [client.Search] and [Adapter.Search]. *)
Definition es_client_search (index q : string) : outcome (Z * option string) :=
  connected client
    ([CSearch index q],
     match answer (CSearch index q) with
     | None => Err ECall
     | Some a => match decode_response (Body a) with None => Err EDecode | Some r => Ok r end
     end).
Definition es_Search (req : Request) : outcome Response :=
  available client
    (let '(sent, r) := es_client_search (RIndex req) (buildQuery req) in
     (sent, rbind r (λ '(status, body),
        match body with
        | None => Panic
        | Some b => if (status =? 200)%Z then match decode_hits b with None => Err EDecode | Some resp => Ok resp end else Err EStatus
        end))).

(** An answer that only counts by its status. *)
Definition es_done (c : call) : outcome () :=
  ([c], match answer c with None => Err ECall | Some a => if IsError a then Err EStatus else Ok tt end).

Definition es_IndexDocument (index id : string) (d : document) : outcome () :=
  connected client (match d with None => ([], Err EMarshal) | Some j => es_done (CIndex index id (encode j +:+ String newline "")) end).
Definition es_DeleteDocument (index id : string) : outcome () := connected client (es_done (CDelete index id)).
Definition es_Index (index id : string) (d : document) : outcome () := available client (es_IndexDocument index id d).
Definition es_Delete (index id : string) : outcome () := available client (es_DeleteDocument index id).
Definition es_BulkIndex (index : string) (documents : list document) : outcome () :=
  guarded client (match bulk_body (bulk_action index) documents with Ok b => es_done (CBulk index b true) | _ => ([], Err EMarshal) end).
Definition es_BulkDelete (index : string) (ids : list string) : outcome () :=
  guarded client (es_done (CBulk index (delete_body index ids) true)).
Definition es_IndexExists (index : string) : outcome bool :=
  guarded client ([CExists index], match answer (CExists index) with None => Err ECall | Some a => Ok (StatusCode a =? 200)%Z end).
Definition es_CreateIndex (props : list (string * string)) (index : string) (settings : option IndexSettings) : outcome () :=
  guarded client (es_done (CCreate index (buildSettings props settings))).
Definition es_Health : outcome () := guarded client (es_done CInfo).
End Elasticsearch.

(** ** OpenSearch *)

(** Why a call of the library failed, by the type of the error it carries. *)
Inductive os_error := OAlreadyExists | ONotFound | OOther.

Section OpenSearch.
Context (client : presence) (fails : call → option os_error).
(** A search: whether the answer says errors, the total and the hits with their
    sources; the status of an existence check. *)
Context (searched : string → string → option (bool * Z * list (string * float64 * json))) (exists_status : string → option Z).

(** [c == nil || c.client == nil], in the client; the adapter asks before. *)
Definition os_done (c : call) : outcome () := ([c], match fails c with Some _ => Err ECall | None => Ok tt end).

Definition os_buildQuery : Request → string := buildQuery.
Definition os_buildFieldsArray : list string → string := buildFieldsArray.
Definition os_buildSettings : list (string * string) → option IndexSettings → string := buildSettings.

(** [convert.ToJSONMap] of a raw message, its error dropped. *)
Definition os_source (j : json) : list (string * json) := match j with JObj l => l | _ => [] end.
Definition os_client_Search (index q : string) : outcome (bool * Z * list (string * float64 * json)) :=
  connected client ([CSearch index q], match searched index q with None => Err ECall | Some r => Ok r end).
Definition os_Search (req : Request) : outcome Response :=
  available client
    (let '(sent, r) := os_client_Search (RIndex req) (os_buildQuery req) in
     (sent, rbind r (λ '(errors, total, hits),
        if errors : bool then Err EEngine
        else Ok (mkResponse total ((λ '(id, score, source), mkHit id score (os_source source)) <$> hits))))).
Definition os_IndexDocument (index id : string) (d : document) : outcome () :=
  connected client (match d with None => ([], Err EMarshal) | Some j => os_done (CIndex index id (encode j)) end).
Definition os_Index (index id : string) (d : document) : outcome () := available client (os_IndexDocument index id d).
Definition os_DeleteDocument (index id : string) : outcome () := connected client (os_done (CDelete index id)).
Definition os_Delete (index id : string) : outcome () := available client (os_DeleteDocument index id).
Definition os_client_BulkIndex (index : string) (documents : list document) : outcome () :=
  connected client (match bulk_body os_action documents with Ok b => os_done (CBulk index b false) | _ => ([], Err EMarshal) end).
Definition os_BulkIndex (index : string) (documents : list document) : outcome () := available client (os_client_BulkIndex index documents).
(** One deletion after the other, up to the first that fails. *)
Fixpoint os_BulkDelete (index : string) (ids : list string) : outcome () :=
  match client with
  | NoClient => ([], Err EUnavailable)
  | _ =>
      match ids with
      | [] => ([], Ok tt)
      | id :: ids' =>
          match os_DeleteDocument index id with
          | (sent, Ok _) => let '(sent', r) := os_BulkDelete index ids' in ((sent ++ sent')%list, r)
          | o => o
          end
      end
  end.
Definition os_client_IndexExists (index : string) : outcome bool :=
  connected client ([CExists index], match exists_status index with None => Err ECall | Some s => Ok (s =? 200)%Z end).
Definition os_IndexExists (index : string) : outcome bool := available client (os_client_IndexExists index).
Definition os_client_CreateIndex (index mappings : string) : outcome () :=
  connected client
    ([CCreate index mappings],
     match fails (CCreate index mappings) with Some OAlreadyExists | None => Ok tt | Some _ => Err ECall end).
Definition os_CreateIndex (props : list (string * string)) (index : string) (settings : option IndexSettings) : outcome () :=
  available client (os_client_CreateIndex index (os_buildSettings props settings)).
(** [DeleteIndex]: an index that is not there is deleted. *)
Definition os_DeleteIndex (delete_fails : string → option os_error) (index : string) : res adapter_error () :=
  match client with
  | Ready => match delete_fails index with Some ONotFound | None => Ok tt | Some _ => Err ECall end
  | _ => Err ERawNil
  end.
Definition os_client_Health : outcome () := connected client (os_done CInfo).
Definition os_Health : outcome () := available client os_client_Health.
End OpenSearch.

(** ** Meilisearch *)

(** A document: a map, by its address, or another value.  The arguments of type
    any are a slice of any, a slice of maps, or one value. *)
Inductive ms_doc := MsMap (p : nat) | MsValue (v : nat).
Inductive ms_any := AnySlice (l : list ms_doc) | AnyMaps (l : list nat) | AnyOne (d : ms_doc).
Inductive ms_call :=
| MAdd (index : string) (docs : list ms_doc) (primaryKey : option string) | MUpdate (index : string) (docs : list ms_doc) (primaryKey : option string)
| MDelete (index id : string) | MDeleteMany (index : string) (ids : list string) | MDeleteAll (index : string)
| MStats (index : string) | MSearch (index q : string) (filter : option string) (offset limit : Z)
| MSearchable (index : string) (fields : list string) | MFilterable (index : string) (fields : list string) | MHealth.
Abbreviation ms_outcome A := (list ms_call * res adapter_error A)%type.

Section Meilisearch.
(** [fails]: the text of the error of a call that fails. *)
Context (client : presence) (fails : ms_call → option string).
(** The hits of a search with their members printed, and the estimated total;
    the address of a new document. *)
Context (searched : ms_call → option (list (list (string * string)) * Z)) (dummy : nat).

Definition ms_done (c : ms_call) : ms_outcome () := ([c], match fails c with Some _ => Err ECall | None => Ok tt end).
Definition ms_guarded {A} (k : ms_outcome A) : ms_outcome A :=
  match client with NoClient => ([], Err EUnavailable) | NoRaw => ([], Err ERawNil) | Ready => k end.

(** The switch on the type of the documents, in [AddDocuments] and [UpdateDocuments]. *)
Definition ms_documents (documents : ms_any) : list ms_doc :=
  match documents with AnySlice l => l | AnyMaps l => MsMap <$> l | AnyOne d => [d] end.
Definition primary_key (primaryKey : list string) : option string :=
  match primaryKey with k :: _ => if String.eqb k "" then None else Some k | [] => None end.
Definition AddDocuments (index : string) (documents : ms_any) (primaryKey : list string) : ms_outcome () :=
  ms_guarded (ms_done (MAdd index (ms_documents documents) (primary_key primaryKey))).
Definition UpdateDocuments (index : string) (documents : ms_any) (primaryKey : list string) : ms_outcome () :=
  ms_guarded (ms_done (MUpdate index (ms_documents documents) (primary_key primaryKey))).
Definition IndexDocuments (index : string) (documents : ms_any) (primaryKey : list string) : ms_outcome () :=
  AddDocuments index documents primaryKey.

Definition DeleteDocument (index id : string) : ms_outcome () := ms_guarded (ms_done (MDelete index id)).
Definition DeleteDocuments (index : string) (ids : list string) : ms_outcome () :=
  ms_guarded
    match ids with
    | [] => ([], Err ENoIDs)
    | [id] => DeleteDocument index id
    | _ => ms_done (MDeleteMany index ids)
    end.
Definition DeleteAllDocuments (index : string) : ms_outcome () := ms_guarded (ms_done (MDeleteAll index)).

(** The filter is a condition on strings, the values between single quotes. *)
Definition ms_condition (fv : string * string) : string := fv.1 +:+ " = '" +:+ fv.2 +:+ "'".
Definition ms_filter (filter : list (string * string)) : option string :=
  match filter with [] => None | _ => Some (Join " AND " (ms_condition <$> filter)) end.
(** The identifiers of the hits, and the total. *)
Definition ms_Search (req : Request) : ms_outcome (list string * Z) :=
  let c := MSearch (RIndex req) (RQuery req) (ms_filter (RFilter req)) (RFrom req) (RSize req) in
  ms_guarded ([c],
    match searched c with
    | None => Err ECall
    | Some (hits, total) => Ok ((λ hit, match List.find (λ kv, String.eqb kv.1 "id") hit with Some kv => kv.2 | None => "" end) <$> hits, total)
    end).

(** [Index] writes the identifier into the caller's map. *)
Abbreviation heap := (gmap nat (gmap string string)).
Definition ms_Index (h : heap) (index id : string) (d : ms_doc) : ms_outcome () * heap :=
  match client with
  | NoClient => (([], Err EUnavailable), h)
  | _ =>
      let h' := match d with MsMap p => if String.eqb id "" then h else alter (λ m, <["id" := id]> m) p h | MsValue _ => h end in
      (IndexDocuments index (AnySlice [d]) [], h')
  end.
Definition ms_Delete (index id : string) : ms_outcome () := ms_guarded (DeleteDocuments index [id]).
Definition ms_BulkIndex (index : string) (documents : list ms_doc) : ms_outcome () := ms_guarded (IndexDocuments index (AnySlice documents) []).
Definition ms_BulkDelete (index : string) (ids : list string) : ms_outcome () := ms_guarded (DeleteDocuments index ids).

(** An index is taken not to exist by the text of the error. *)
Definition ms_IndexExists (index : string) : ms_outcome bool :=
  ms_guarded ([MStats index],
    match fails (MStats index) with
    | None => Ok true
    | Some text => if Contains text "index_not_found" || Contains text "not found" then Ok false else Err ECall
    end).

Definition init_id (index : string) : string := "init_doc_" +:+ index.
(** The new index is made by a document that is deleted again, 100 ms later; the
    errors of what follows the document are dropped. *)
Definition ms_CreateIndex (index : string) (settings : option IndexSettings) : ms_outcome () :=
  match client with
  | NoClient => ([], Err EUnavailable)
  | _ =>
      match IndexDocuments index (AnySlice [MsMap dummy]) ["id"] with
      | (sent, Ok _) =>
          let searchable := match settings with Some s => match SearchableFields s with [] => default_searchable | l => l end | None => default_searchable end in
          let filterable := match settings with Some s => match FilterableFields s with [] => default_filterable | l => l end | None => default_filterable end in
          ((sent ++ (DeleteDocuments index [init_id index]).1 ++ [MSearchable index searchable; MFilterable index filterable])%list, Ok tt)
      | o => o
      end
  end.
Definition ms_Health : ms_outcome () := ms_guarded (ms_done MHealth).
End Meilisearch.

(** ** The texts as JSON *)

Definition member (n : nat) (k : string) (after : string) (x : text) : string * string * text := (nl n, k, TPad " " after x).

(** The condition on the query, at a depth, with more members after the query. *)
Definition match_text (d : nat) (q : string) (more : list (string * string * text)) : text :=
  TObj (member d "query" "" (TStr q) :: more ++ [member d "fields" (nl (d - 1)) (TArr (TStr <$> default_searchable))])%list.
Definition filter_text (fv : string * string) : text :=
  TObj [("", "term", TPad " " "" (TObj [("", fv.1, TPad " " "" (TStr fv.2))]))].
Definition query_text (q : string) (more : list (string * string * text)) (filter : list (string * string)) (from size : Z) : text :=
  match filter with
  | [] => TObj [member 3 "query" "" (TObj [member 4 "multi_match" (nl 3) (match_text 5 q more)]);
                member 3 "from" "" (TNum (pretty from)); member 3 "size" (nl 2) (TNum (pretty size))]
  | _ => TObj [member 2 "query" "" (TObj [member 3 "bool" (nl 2)
                 (TObj [member 4 "must" "" (TObj [member 5 "multi_match" (nl 4) (match_text 6 q more)]);
                        member 4 "filter" (nl 3) (TArr (filter_text <$> filter))])]);
               member 2 "from" "" (TNum (pretty from)); member 2 "size" (nl 1) (TNum (pretty size))]
  end.

Lemma Join_cons2 sep x y l : Join sep (x :: y :: l) = x +:+ sep +:+ Join sep (y :: l).
Proof. done. Qed.

Lemma print_filter l : Join "," (print <$> (filter_text <$> l)) = Join "," (filter_query <$> l).
Proof.
  f_equal. rewrite <- list_fmap_compose. apply list_fmap_ext. intros _ [f v] _. unfold filter_text, filter_query, compose, colon.
  cbn [print fmap list_fmap Join fst snd]. rewrite !str_app_assoc. reflexivity.
Qed.

(** A query that closes its quotes and adds a member of its own. *)
Definition injected (q k v : string) : string := (q +:+ String dquote "," +:+ in_quotes k +:+ ":" +:+ String dquote v)%string.

Lemma quotes_injected q k v : in_quotes (injected q k v) = in_quotes q +:+ "," +:+ in_quotes k +:+ ":" +:+ in_quotes v.
Proof. unfold injected, in_quotes. by repeat progress rewrite ?str_app_assoc, ?str_app_cons, ?str_app_nil_l. Qed.

(** Both sides of an equation of texts, written out. *)
Ltac print_text :=
  unfold buildQuery, query_text, match_text, member, buildFieldsArray, colon; cbn [RFilter RQuery RFrom RSize];
  match goal with |- context [match ?f with [] => _ | _ => _ end] => destruct f end;
  [cbn [print fmap list_fmap Join fst snd app default_searchable]; rewrite ?quotes_injected, !str_app_assoc; reflexivity|];
  match goal with |- context [filter_text <$> ?l] =>
    let Hf := fresh in let F := fresh in let Q := fresh in
    pose proof (print_filter l) as Hf; generalize dependent (filter_text <$> l); generalize (filter_query <$> l); intros Q F Hf;
    cbn [print fmap list_fmap Join fst snd app default_searchable] in Hf |- *; rewrite Hf, ?quotes_injected, !str_app_assoc; reflexivity
  end.

Lemma print_query q filter from size i : print (query_text q [] filter from size) = buildQuery (mkRequest i q filter from size).
Proof. print_text. Qed.

Lemma print_injected q k v filter from size i :
  print (query_text q [("", k, TStr v)] filter from size) = buildQuery (mkRequest i (injected q k v) filter from size).
Proof. print_text. Qed.

Definition match_value (q : string) (more : list (string * json)) : json :=
  JObj (("query", JStr q) :: more ++ [("fields", JArr (JStr <$> default_searchable))])%list.
Definition filter_value (fv : string * string) : json := JObj [("term", JObj [(fv.1, JStr fv.2)])].
(** What a request means. *)
Definition query_value (q : string) (more : list (string * json)) (filter : list (string * string)) (from size : Z) : json :=
  let m := JObj [("multi_match", match_value q more)] in
  JObj [("query", match filter with [] => m | _ => JObj [("bool", JObj [("must", m); ("filter", JArr (filter_value <$> filter))])] end);
        ("from", JNum (pretty from)); ("size", JNum (pretty size))].

Definition plain_filter (filter : list (string * string)) : bool := forallb (λ fv, plain fv.1 && plain fv.2) filter.

Lemma fields_value (l : list string) : value <$> (TStr <$> l) = JStr <$> l.
Proof. by rewrite <- list_fmap_compose. Qed.

Lemma query_text_spec q more filter from size : plain q = true → plain_filter filter = true →
  forallb (λ m, is_space m.1.1 && plain m.1.2 && well_formed m.2) more = true → forallb (λ m, Nat.eqb (depth (value m.2)) 0) more = true →
  decode (print (query_text q more filter from size)) = Some (query_value q (member_value <$> more) filter from size).
Proof.
  intros Hq Hf Hm Hd.
  assert (∀ d, well_formed (match_text d q more) = true) as Hw.
  { intros d. unfold match_text. cbn [well_formed forallb member fst snd]. rewrite forallb_app, Hm, Hq. cbn [forallb member fst snd well_formed].
    assert (∀ n, is_space (nl n) = true) as -> by (intros n; unfold nl, is_space; cbn [str_all]; induction n; done).
    assert (is_space (nl (d - 1)) = true) as ->; [|done]. generalize (d - 1)%nat as n. intros n. unfold nl, is_space. cbn [str_all]. induction n; done. }
  assert (∀ d, value (match_text d q more) = match_value q (member_value <$> more)) as Hv.
  { intros d. unfold match_text, match_value. cbn [value fmap list_fmap member fst snd]. f_equal. f_equal. rewrite fmap_app. done. }
  assert (value (query_text q more filter from size) = query_value q (member_value <$> more) filter from size) as Hval.
  { unfold query_text, query_value. destruct filter as [|fv filter]; cbn [value fmap list_fmap member fst snd]; rewrite Hv; [done|].
    do 5 f_equal. by rewrite <- list_fmap_compose. }
  assert (depth (match_value q (member_value <$> more)) ≤ 2)%nat as Hmd.
  { unfold match_value. cbn [depth]. apply le_n_S. rewrite max_list_le, list.Forall_fmap, list.Forall_cons, list.Forall_app. split_and!.
    - simpl. lia.
    - rewrite list.Forall_fmap. rewrite forallb_forall in Hd. apply list.Forall_forall. intros m Hin. specialize (Hd m). rewrite <- list_elem_of_In in Hd.
      specialize (Hd Hin). apply Nat.eqb_eq in Hd. unfold compose. cbn [member_value snd]. lia.
    - repeat constructor. }
  rewrite <- Hval. apply decode_text.
  - unfold query_text. destruct filter as [|fv filter]; cbn [well_formed forallb member fst snd]; rewrite Hw, ?is_number_pretty; [reflexivity|].
    assert (forallb well_formed (filter_text <$> fv :: filter) = true) as Hff; [|cbn [fmap list_fmap] in *; rewrite Hff; reflexivity].
    unfold plain_filter in Hf. rewrite forallb_forall in Hf. apply forallb_forall. intros x Hx%list_elem_of_In.
    apply list_elem_of_fmap in Hx as (fv' & -> & Hin%list_elem_of_In). specialize (Hf _ Hin). apply andb_true_iff in Hf as [H1 H2].
    unfold filter_text. cbn [well_formed forallb fst snd]. by rewrite H1, H2.
  - rewrite Hval. transitivity 6%nat; [|vm_compute; lia]. unfold query_value. destruct filter as [|fv filter].
    + cbn [depth fmap list_fmap snd max_list foldr]. unfold id. lia.
    + assert (∀ x, x ∈ filter_value <$> fv :: filter → depth x = 2%nat) as Hdf by (intros x (? & -> & _)%list_elem_of_fmap; done).
      assert (depth (JArr (filter_value <$> fv :: filter)) ≤ 3)%nat as Ha.
      { cbn [depth]. apply le_n_S, max_list_le. rewrite list.Forall_fmap. apply list.Forall_forall. intros x Hx. unfold compose. by rewrite Hdf. }
      cbn [depth fmap list_fmap snd max_list foldr] in Ha |- *. unfold id in *. lia.
Qed.

(** *** Settings *)

(** White space before the first member and after the last. *)
Definition pad_first (w : string) (l : list (string * string * text)) : list (string * string * text) :=
  match l with [] => [] | m :: l' => (w +:+ m.1.1, m.1.2, m.2) :: l' end.
Fixpoint pad_last (w : string) (l : list (string * string * text)) : list (string * string * text) :=
  match l with [] => [] | m :: l' => match l' with [] => [(m.1, TPad "" w m.2)] | _ => m :: pad_last w l' end end.

Definition member_ok (m : string * string * text) : bool := is_space m.1.1 && plain m.1.2 && well_formed m.2.

Lemma pad_first_spec w l : l ≠ [] → is_space w = true →
  Join "," (member_print <$> pad_first w l) = w +:+ Join "," (member_print <$> l) ∧ member_value <$> pad_first w l = member_value <$> l ∧
  (forallb member_ok l = true → forallb member_ok (pad_first w l) = true) ∧ pad_first w l ≠ [].
Proof.
  intros Hl Hw. destruct l as [|m l]; [done|]. cbn [pad_first]. split_and!; [|done| |done].
  - rewrite !fmap_cons, !Join_cons. unfold member_print. cbn [fst snd]. rewrite !str_app_assoc. reflexivity.
  - cbn [forallb]. unfold member_ok at 1 3. cbn [fst snd]. unfold is_space in *. rewrite str_all_app, Hw. intros H. exact H.
Qed.

Lemma pad_last_spec w l : l ≠ [] → is_space w = true →
  Join "," (member_print <$> pad_last w l) = Join "," (member_print <$> l) +:+ w ∧ member_value <$> pad_last w l = member_value <$> l ∧
  (forallb member_ok l = true → forallb member_ok (pad_last w l) = true) ∧ pad_last w l ≠ [].
Proof.
  intros Hl Hw. induction l as [|m l IH]; [done|]. cbn [pad_last]. destruct l as [|m' l].
  - split_and!; [|done| |done].
    + cbn [fmap list_fmap Join]. unfold member_print. cbn [fst snd print]. by rewrite str_app_nil_l, !str_app_assoc.
    + cbn [forallb]. unfold member_ok. cbn [fst snd well_formed]. rewrite Hw. intros H. exact H.
  - destruct (IH ltac:(done)) as (H1 & H2 & H3 & H4). split_and!; [|cbn [fmap list_fmap] in *; by rewrite H2| |done].
    + rewrite fmap_cons, Join_cons, fmap_cons, (Join_cons _ (member_print m)), !str_app_assoc. f_equal. rewrite fmap_cons, <- fmap_cons.
      destruct (pad_last w (m' :: l)) as [|x k]; [done|]. cbn [fmap list_fmap] in *. by rewrite H1, !str_app_assoc.
    + cbn [forallb] in *. intros [-> Hr]%andb_true_iff. by apply H3.
Qed.

Definition property_member (p : string * string) : string * string * text := ("", p.1, TPad " " "" (TObj [("", "type", TPad " " "" (TStr p.2))])).
Definition settings_of (fields : list (string * string * text)) (s : IndexSettings) : text :=
  TObj [member 2 "settings" "" (TObj [member 3 "number_of_shards" "" (TNum (pretty (Shards s))); member 3 "number_of_replicas" "" (TNum (pretty (Replicas s)));
          member 3 "refresh_interval" (nl 2) (TStr (RefreshInterval s))]);
        member 2 "mappings" (nl 1) (TObj [member 3 "properties" (nl 2) (TObj fields)])].
Definition settings_text (props : list (string * string)) : IndexSettings → text :=
  settings_of (pad_first (nl 4) (pad_last (nl 3) (property_member <$> props))).

Definition settings_value (props : list (string * string)) (s : IndexSettings) : json :=
  JObj [("settings", JObj [("number_of_shards", JNum (pretty (Shards s))); ("number_of_replicas", JNum (pretty (Replicas s)));
                           ("refresh_interval", JStr (RefreshInterval s))]);
        ("mappings", JObj [("properties", JObj ((λ p, (p.1, JObj [("type", JStr p.2)])) <$> props))])].

Lemma nl_space n : is_space (nl n) = true.
Proof. unfold nl, is_space. cbn [str_all]. induction n; done. Qed.

Lemma print_settings props settings : props ≠ [] → print (settings_text props (effective settings)) = buildSettings props settings.
Proof.
  intros Hp. unfold buildSettings. generalize (effective settings) as s. intros s. unfold settings_text, settings_of, member, colon.
  destruct (pad_last_spec (nl 3) (property_member <$> props)) as (HL & _ & _ & HN); [by destruct props|apply nl_space|].
  destruct (pad_first_spec (nl 4) (pad_last (nl 3) (property_member <$> props)) HN (nl_space 4)) as (HF & _). rewrite HL in HF.
  assert (member_print <$> (property_member <$> props) = property_text <$> props) as HP.
  { rewrite <- list_fmap_compose. apply list_fmap_ext. intros _ [k v] _. unfold compose, member_print, property_member, property_text, colon.
    cbn [fst snd print fmap list_fmap Join]. rewrite !str_app_assoc. reflexivity. }
  rewrite HP in HF. clear HL HP HN. generalize dependent (pad_first (nl 4) (pad_last (nl 3) (property_member <$> props))). intros F HF.
  change ((λ m : string * string * text, m.1.1 +:+ in_quotes m.1.2 +:+ ":" +:+ print m.2)) with member_print.
  generalize dependent (property_text <$> props). intros Q HF. cbn [print].
  change (λ m : string * string * text, m.1.1 +:+ in_quotes m.1.2 +:+ ":" +:+ print m.2) with member_print. unfold member_print at 1.
  cbn [fmap list_fmap Join fst snd print].
  change (λ m : string * string * text, m.1.1 +:+ in_quotes m.1.2 +:+ ":" +:+ print m.2) with member_print.
  cbn [fmap list_fmap] in HF. rewrite HF, !str_app_assoc. reflexivity.
Qed.

Lemma settings_decode props settings : props ≠ [] → forallb (λ p, plain p.1 && plain p.2) props = true → plain (RefreshInterval (effective settings)) = true →
  decode (buildSettings props settings) = Some (settings_value props (effective settings)).
Proof.
  intros Hne Hp Hr. rewrite <- print_settings by done. generalize dependent (effective settings). intros s Hr.
  destruct (pad_last_spec (nl 3) (property_member <$> props)) as (_ & HL & HW & HN); [by destruct props|apply nl_space|].
  destruct (pad_first_spec (nl 4) (pad_last (nl 3) (property_member <$> props)) HN (nl_space 4)) as (_ & HF & HW' & HN'). rewrite HL in HF.
  assert (forallb member_ok (property_member <$> props) = true) as Hok.
  { rewrite forallb_forall in Hp. apply forallb_forall. intros x Hx%list_elem_of_In. apply list_elem_of_fmap in Hx as (p & -> & Hin%list_elem_of_In).
    specialize (Hp _ Hin). apply andb_true_iff in Hp as [H1 H2]. unfold member_ok, property_member. cbn [fst snd well_formed forallb]. by rewrite H1, H2. }
  apply HW, HW' in Hok. unfold settings_text. remember (pad_first _ _) as F eqn:EF. clear EF.
  assert (member_value <$> (property_member <$> props) = (λ p, (p.1, JObj [("type", JStr p.2)])) <$> props) as HV by (by rewrite <- list_fmap_compose).
  rewrite HV in HF.
  assert (value (settings_of F s) = settings_value props s) as Hval.
  { unfold settings_of, settings_value, member. cbn [value fmap list_fmap fst snd]. do 8 f_equal. exact HF. }
  rewrite <- Hval. apply decode_text.
  - unfold settings_of, member. cbn [well_formed forallb fst snd]. rewrite Hr, !is_number_pretty. unfold member_ok in Hok.
    destruct F as [|f F]; [done|]. rewrite Hok. done.
  - rewrite Hval. transitivity 6%nat; [|vm_compute; lia]. unfold settings_value. cbn [depth fmap list_fmap snd max_list_with foldr].
    assert (max_list ((λ kv : string * json, depth kv.2) <$> ((λ p : string * string, (p.1, JObj [("type", JStr p.2)])) <$> props)) ≤ 1)%nat as Hm.
    { apply max_list_le. rewrite !list.Forall_fmap. apply list.Forall_forall. intros p _. unfold compose. simpl. lia. }
    cbn [depth fmap list_fmap snd max_list_with] in *. unfold id in *. lia.
Qed.

(** *** Lines *)

Lemma no_newline_byte c : plain_byte c = true → Ascii.eqb c newline = false.
Proof. by destruct c as [[] [] [] [] [] [] [] []]. Qed.

Lemma high_no_newline c lo hi : (128 ≤ lo)%Z → in_range lo hi c = true → Ascii.eqb c newline = false.
Proof.
  unfold in_range. intros Hlo [Hc%Z.leb_le _]%andb_true_iff. destruct (Ascii.eqb_spec c newline) as [->|]; [|done].
  exfalso. revert Hc. change (code_of newline) with 10%Z. lia.
Qed.

Lemma has_byte_cons b c s : has_byte b (String c s) = Ascii.eqb c b || has_byte b s.
Proof. done. Qed.

Lemma rune_no_newline c s r t : is_ascii c = false → take_rune (String c s) = Some (r, t) → has_byte newline r = false.
Proof.
  intros Hc. unfold take_rune. rewrite Hc. destruct (lead c) as [[[n lo] hi]|] eqn:Hl; [|done]. cbn [mbind option_bind].
  assert (Ascii.eqb c newline = false) as Hn by (by destruct (Ascii.eqb_spec c newline) as [->|]).
  assert (128 ≤ lo)%Z as Hlo.
  { unfold lead in Hl. repeat case_match; simplify_eq; lia. }
  destruct n as [|[|[|[|n]]]]; [done| | | |done]; destruct s as [|b s]; try done.
  - destruct (in_range lo hi b) eqn:Hb; [|done]. intros [= <- <-]. rewrite !has_byte_cons, Hn. by rewrite (high_no_newline b lo hi).
  - destruct s as [|b2 s]; [done|]. destruct (in_range lo hi b) eqn:Hb; [|done]. destruct (in_range 128 191 b2) eqn:Hb2; [|done].
    intros [= <- <-]. rewrite !has_byte_cons, Hn. by rewrite (high_no_newline b lo hi), (high_no_newline b2 128 191).
  - destruct s as [|b2 [|b3 s]]; [done..|]. destruct (in_range lo hi b) eqn:Hb; [|done]. destruct (in_range 128 191 b2) eqn:Hb2; [|done].
    destruct (in_range 128 191 b3) eqn:Hb3; [|done]. intros [= <- <-]. rewrite !has_byte_cons, Hn.
    by rewrite (high_no_newline b lo hi), (high_no_newline b2 128 191), (high_no_newline b3 128 191).
Qed.

Lemma escape_no_newline c : is_ascii c = true → has_byte newline (escape_byte c) = false.
Proof. by destruct c as [[] [] [] [] [] [] [] []]. Qed.

Lemma quote_no_newline n s : has_byte newline (quote_runes n s) = false.
Proof.
  revert s. induction n as [|n IH]; intros [|c s]; try done. cbn [quote_runes]. destruct (is_ascii c) eqn:Hc.
  - by rewrite has_byte_app, escape_no_newline, IH.
  - destruct (take_rune (String c s)) as [[r t]|] eqn:Ht; [|by rewrite has_byte_app, IH].
    rewrite has_byte_app, IH, orb_false_r. unfold escape_rune. destruct (String.eqb r _); [done|]. destruct (String.eqb r _); [done|].
    by eapply rune_no_newline.
Qed.

Lemma digits_no_newline s ds t : span_digits s = (ds, t) → has_byte newline ds = false.
Proof.
  revert ds. induction s as [|c s IH]; intros ds; cbn [span_digits]; [by intros [= <-]|].
  destruct (isDigit c) eqn:Hc; [|by intros [= <- _]]. destruct (span_digits s) as [ds' t'] eqn:Hs. unfold prepend. cbn [fst snd].
  intros [= <- <-]. rewrite str_app_cons, str_app_nil_l, has_byte_cons, (IH ds' eq_refl), orb_false_r.
  by destruct (Ascii.eqb_spec c newline) as [->|].
Qed.

Lemma digits1_no_newline pre s x t : has_byte newline pre = false → digits1 pre s = Some (x, t) → has_byte newline x = false.
Proof.
  intros Hp. unfold digits1. destruct (span_digits s) as [ds t'] eqn:Hs. destruct (String.eqb ds ""); [done|]. intros [= <- _].
  by rewrite has_byte_app, Hp, (digits_no_newline _ _ _ Hs).
Qed.

Lemma number_no_newline lit : is_number lit = true → has_byte newline lit = false.
Proof.
  unfold is_number, scan_number. destruct (scan_sign lit) as [m s0] eqn:Hm.
  assert (has_byte newline m = false) as H0.
  { destruct lit as [|c lit]; cbn [scan_sign] in Hm; [by injection Hm as <- _|]. destruct (Ascii.eqb c "-"); by injection Hm as <- _. }
  destruct (scan_int s0) as [[i s1]|] eqn:Hi; [|done]. cbn [mbind option_bind].
  assert (has_byte newline i = false) as H1.
  { destruct s0 as [|c s0]; [done|]. cbn [scan_int] in Hi. destruct (Ascii.eqb c "0"); [by injection Hi as <- _|].
    destruct (isDigit c); [|done]. injection Hi as Hi. exact (digits_no_newline (String c s0) _ _ Hi). }
  destruct (scan_frac s1) as [[f s2]|] eqn:Hf; [|done]. cbn [mbind option_bind].
  assert (has_byte newline f = false) as H2.
  { destruct s1 as [|c s1]; cbn [scan_frac] in Hf; [by injection Hf as <- _|]. destruct (Ascii.eqb c "."); [eapply digits1_no_newline; [|exact Hf]; done|by injection Hf as <- _]. }
  destruct (scan_exp s2) as [[e s3]|] eqn:He; [|done]. cbn [mbind option_bind].
  assert (has_byte newline e = false) as H3.
  { destruct s2 as [|c s2]; cbn [scan_exp] in He; [by injection He as <- _|].
    destruct (Ascii.eqb c "e" || Ascii.eqb c "E") eqn:Hce; [|by injection He as <- _].
    assert (Ascii.eqb c newline = false) as Hc by (apply orb_true_iff in Hce as [->%Ascii.eqb_eq| ->%Ascii.eqb_eq]; done).
    destruct s2 as [|d s2]; [done|]. destruct (Ascii.eqb d "+" || Ascii.eqb d "-") eqn:Hd; eapply digits1_no_newline; [|exact He| |exact He].
    - apply orb_true_iff in Hd as [->%Ascii.eqb_eq| ->%Ascii.eqb_eq]; by rewrite !has_byte_cons, Hc.
    - by rewrite has_byte_cons, Hc. }
  intros Heq. assert (m +:+ i +:+ f +:+ e = lit) as <-.
  { apply andb_true_iff in Heq as [Heq _]. by apply String.eqb_eq. }
  by rewrite !has_byte_app, H0, H1, H2, H3.
Qed.

Lemma join_no_newline sep ss : has_byte newline sep = false → Forall (λ s, has_byte newline s = false) ss → has_byte newline (Join sep ss) = false.
Proof.
  intros Hsep. induction 1 as [|s ss Hs Hss IH]; [done|]. rewrite Join_cons, has_byte_app, Hs. destruct ss; [done|]. by rewrite has_byte_app, Hsep, IH.
Qed.

Lemma quoted_no_newline s : has_byte newline (quote s) = false.
Proof. unfold quote. by rewrite has_byte_cons, has_byte_app, quote_no_newline. Qed.

(** What [json.Marshal] prints is one line. *)
Lemma encode_no_newline j : printable j = true → has_byte newline (encode j) = false.
Proof.
  induction j as [|[]|lit|s|l IH|l IH] using json_ind'; intros Hp; cbn [encode printable] in *; try done.
  - by apply number_no_newline.
  - apply quoted_no_newline.
  - rewrite !has_byte_app, join_no_newline; [done|done|]. apply list.Forall_fmap. rewrite list.Forall_forall in IH |- *. rewrite forallb_forall in Hp.
    intros x Hx. apply IH; [done|]. apply Hp. by apply list_elem_of_In.
  - rewrite !has_byte_app, join_no_newline; [done|done|]. apply list.Forall_fmap. rewrite list.Forall_forall in IH |- *. rewrite forallb_forall in Hp.
    intros x Hx. specialize (Hp x). rewrite <- list_elem_of_In in Hp. apply andb_true_iff in Hp as [_ Hv]; [|done].
    unfold compose. by rewrite !has_byte_app, quoted_no_newline, IH.
Qed.

Lemma plain_no_newline s : plain s = true → has_byte newline s = false.
Proof.
  intros [_ Hp]%andb_true_iff. induction s as [|c s IH]; [done|]. cbn [str_all] in Hp. apply andb_true_iff in Hp as [Hc Hp].
  by rewrite has_byte_cons, no_newline_byte, IH.
Qed.

(** The lines of a bulk request: an action before every document, and an empty last line. *)
Lemma bulk_lines action docs : has_byte newline action = false → forallb printable docs = true →
  ∃ b, bulk_body action (Some <$> docs) = Ok b ∧ Split newline b = (concat ((λ j, [action; encode j]) <$> docs) ++ [""])%list.
Proof.
  intros Ha. induction docs as [|j docs IH]; intros Hp; [by exists ""|]. cbn [forallb] in Hp. apply andb_true_iff in Hp as [Hj Hp].
  destruct (IH Hp) as (b & Hb & Hs). rewrite fmap_cons. cbn [bulk_body]. rewrite Hb. cbn [rbind]. eexists. split; [done|].
  rewrite !Split_app, !Split_plain by (done || by apply encode_no_newline). rewrite Hs. done.
Qed.

Lemma bulk_stops action docs : None ∈ docs → bulk_body action docs = Err EMarshal.
Proof.
  induction docs as [|[j|] docs IH]; intros Hn; [by apply not_elem_of_nil in Hn| |done].
  apply elem_of_cons in Hn as [?|Hn]; [done|]. cbn [bulk_body]. by rewrite IH.
Qed.

(** *** Types of fields *)

Lemma put_text_lookup l m f : foldl put_text m l !! f = if bool_decide (f ∈ TrimSuffix "^2" <$> l) then Some "text" else m !! f.
Proof.
  revert m. induction l as [|x l IH]; intros m; [done|]. cbn [foldl fmap list_fmap]. rewrite IH. unfold put_text.
  destruct (decide (f ∈ TrimSuffix "^2" <$> l)) as [Hin|Hin].
  - rewrite !bool_decide_eq_true_2; [done|by right|done].
  - rewrite bool_decide_eq_false_2 by done. destruct (decide (f = TrimSuffix "^2" x)) as [->|Hne].
    + rewrite lookup_insert_eq, bool_decide_eq_true_2; [done|by left].
    + rewrite lookup_insert_ne, bool_decide_eq_false_2; [done| |done]. intros [?|?]%elem_of_cons; done.
Qed.

Definition filter_type (f : string) : string := if String.eqb f "created_at" || String.eqb f "updated_at" then "long" else "keyword".
Lemma put_filter_lookup l m f : foldl put_filter m l !! f = if bool_decide (f ∈ l) then Some (filter_type f) else m !! f.
Proof.
  revert m. induction l as [|x l IH]; intros m; [done|]. cbn [foldl]. rewrite IH. unfold put_filter.
  destruct (decide (f ∈ l)) as [Hin|Hin].
  - rewrite !bool_decide_eq_true_2; [done|by right|done].
  - rewrite bool_decide_eq_false_2 by done. destruct (decide (f = x)) as [->|Hne].
    + rewrite lookup_insert_eq, bool_decide_eq_true_2; [done|by left].
    + rewrite lookup_insert_ne, bool_decide_eq_false_2; [done| |done]. intros [?|?]%elem_of_cons; done.
Qed.

Lemma effective_fields settings : SearchableFields (effective settings) ≠ [].
Proof. destruct settings as [s|]; [|done]. cbn [effective SearchableFields]. by destruct (SearchableFields s). Qed.

Lemma properties_nonempty settings : properties_of settings ≠ ∅.
Proof.
  intros He. pose proof (effective_fields settings) as Hne. unfold properties_of, properties in He.
  destruct (SearchableFields (effective settings)) as [|f l] eqn:E; [done|].
  assert ((∅ : gmap string string) !! TrimSuffix "^2" f = None) as Hn by done. rewrite <- He in Hn. rewrite put_filter_lookup, put_text_lookup in Hn.
  destruct (bool_decide _); [done|]. rewrite bool_decide_eq_true_2 in Hn; [done|]. left.
Qed.

Lemma quotes_no_newline s : has_byte newline (in_quotes s) = has_byte newline s.
Proof. unfold in_quotes. rewrite has_byte_cons, has_byte_app. by rewrite orb_false_r. Qed.

(** ** Properties *)

(** C27: A request becomes the query it means.  For a query and a filter without
    quotes, backslashes and control characters, the text that Elasticsearch and
    OpenSearch are sent decodes to the condition on the query in the searchable
    fields, the terms of the filter in their order, and the page, whatever the
    numbers. *)
Theorem search_query_exact (i q : string) (filter : list (string * string)) (from size : Z) :
  plain q = true → plain_filter filter = true →
  decode (buildQuery (mkRequest i q filter from size)) = Some (query_value q [] filter from size) ∧
  os_buildQuery (mkRequest i q filter from size) = buildQuery (mkRequest i q filter from size).
Proof. intros Hq Hf. split; [|done]. rewrite <- print_query. by apply (query_text_spec q []). Qed.

(** A query is not escaped.  Whoever writes the query can add members to the
    condition: a query that closes its quotes and goes on with a member of its
    own decodes to the condition with that member in it. *)
Theorem search_query_injected (i q k v : string) (filter : list (string * string)) (from size : Z) :
  plain q = true → plain k = true → plain v = true → plain_filter filter = true →
  decode (buildQuery (mkRequest i (injected q k v) filter from size)) = Some (query_value q [(k, JStr v)] filter from size).
Proof.
  intros Hq Hk Hv Hf. rewrite <- print_injected. apply (query_text_spec q [("", k, TStr v)]); [done..| |done].
  cbn [forallb fst snd well_formed]. by rewrite Hk, Hv.
Qed.

(** The settings of a new index.  In whatever order the fields come out of the
    map, the text decodes to the settings over the defaults with one property
    per field: a filterable field is a keyword, or a long for the two times,
    even when it is searchable too, and any other searchable field is a text,
    without its boost. *)
Theorem index_settings_exact (settings : option IndexSettings) (props : list (string * string)) (f : string) :
  props ≡ₚ map_to_list (properties_of settings) → forallb (λ p, plain p.1 && plain p.2) props = true →
  plain (RefreshInterval (effective settings)) = true →
  decode (buildSettings props settings) = Some (settings_value props (effective settings)) ∧
  NoDup props.*1 ∧
  ∀ ty, (f, ty) ∈ props ↔
    (f ∈ FilterableFields (effective settings) ∧ ty = filter_type f) ∨
    ((f ∉ FilterableFields (effective settings)) ∧ ty = "text" ∧ (f ∈ (TrimSuffix "^2" <$> SearchableFields (effective settings)))).
Proof.
  intros Hp Hpl Hr. split_and!.
  - apply settings_decode; [|done..]. intros ->. apply Permutation_nil_l in Hp. symmetry in Hp. by apply map_to_list_empty_iff, properties_nonempty in Hp.
  - rewrite Hp. apply NoDup_fst_map_to_list.
  - intros ty. rewrite Hp, elem_of_map_to_list. unfold properties_of, properties. rewrite put_filter_lookup, put_text_lookup.
    rewrite lookup_empty. destruct (bool_decide_reflect (f ∈ FilterableFields (effective settings))) as [Hf|Hf].
    + split; [intros [= <-]; by left|]. intros [[_ ->]|[? _]]; done.
    + destruct (bool_decide_reflect (f ∈ (TrimSuffix "^2" <$> SearchableFields (effective settings)))) as [Hs|Hs].
      * split; [intros [= <-]; right; done|]. intros [[? _]|(_ & -> & _)]; done.
      * split; [done|]. intros [[? _]|(_ & _ & ?)]; done.
Qed.

(** A bulk request carries every document.  The lines of what Elasticsearch is
    sent decode, two by two, to the action on the index and the document, in
    order, with an empty line at the end; a document that cannot be printed, at
    whatever place, stops all: nothing is sent. *)
Theorem es_bulk_exact (answer : call → option Answer) (index : string) (docs : list json) :
  plain index = true → forallb printable docs = true → Forall (λ j, (depth j ≤ max_depth)%nat) docs →
  (∃ body, (es_BulkIndex Ready answer index (Some <$> docs)).1 = [CBulk index body true] ∧
    (decode <$> Split newline body) =
      (concat ((λ j, [Some (JObj [("index", JObj [("_index", JStr index)])]); Some j]) <$> docs) ++ [None])%list) ∧
  ∀ l, None ∈ l → es_BulkIndex Ready answer index l = ([], Err EMarshal).
Proof.
  intros Hi Hp Hd. split; [|intros l Hl; unfold es_BulkIndex; cbn [guarded]; by rewrite bulk_stops].
  assert (bulk_action index = print (TObj [("", "index", TObj [("", "_index", TStr index)])])) as Ha.
  { unfold bulk_action. cbn [print fmap list_fmap Join fst snd]. rewrite !str_app_assoc. reflexivity. }
  destruct (bulk_lines (bulk_action index) docs) as (b & Hb & Hs); [|done|].
  { unfold bulk_action. rewrite !has_byte_app, !quotes_no_newline, (plain_no_newline index Hi). reflexivity. }
  exists b. unfold es_BulkIndex. cbn [guarded]. rewrite Hb. split; [done|]. rewrite Hs, fmap_app. f_equal. clear Hb Hs.
  induction docs as [|j docs IH]; [done|]. cbn [forallb] in Hp. apply andb_true_iff in Hp as [Hj Hp]. apply list.Forall_cons in Hd as [Hdj Hd].
  rewrite !fmap_cons. cbn [concat]. rewrite fmap_app, IH by done. cbn [fmap list_fmap app].
  rewrite Ha, decode_text; [|cbn [well_formed forallb fst snd]; by rewrite Hi|vm_compute; lia].
  by rewrite decode_encode_json.
Qed.

(** Elasticsearch is never searched.  The client decodes the body of the answer
    into the library's response type and passes that on; a decoded value has no
    body of its own, as encoding/json makes no value of an interface type with
    methods, and the adapter closes that body.  So a search that reaches the engine ends in an
    error, or in a panic when the answer is a JSON object, and never in hits. *)
Theorem es_search_never_answers (client : presence) (answer : call → option Answer) (decode_response : string → option (Z * option string))
    (req : Request) :
  (∀ s status body, decode_response s = Some (status, body) → body = None) →
  (∀ r, (es_Search client answer decode_response req).2 ≠ Ok r) ∧
  ((es_Search client answer decode_response req).2 = Panic ↔
   client = Ready ∧ ∃ a, answer (CSearch (RIndex req) (buildQuery req)) = Some a ∧ is_Some (decode_response (Body a))).
Proof.
  intros Hno. unfold es_Search, es_client_search, available, connected. destruct client; [split; [done|split; [done|by intros [? _]]]..|].
  destruct (answer (CSearch (RIndex req) (buildQuery req))) as [a|] eqn:Ha; cbn [snd].
  2: { split; [done|]. split; [done|]. intros (_ & a & [=] & _). }
  destruct (decode_response (Body a)) as [[st body]|] eqn:Hd; cbn [rbind snd].
  - rewrite (Hno _ _ _ Hd). split; [done|]. split; [|done]. intros _. split; [done|]. exists a. split; [done|]. by rewrite Hd.
  - split; [done|]. split; [done|]. intros (_ & a' & [= <-] & [x Hx]). congruence.
Qed.

(** Deletions one by one.  OpenSearch is sent a deletion for the identifiers up
    to the first that fails, in order, and the rest stays; all are deleted
    exactly when none fails. *)
Theorem os_bulk_delete_prefix (fails : call → option os_error) (index : string) (ids : list string) :
  let '(sent, r) := os_BulkDelete Ready fails index ids in
  ∃ done rest, ids = (done ++ rest)%list ∧
    (r = Ok tt ∧ rest = [] ∧ sent = CDelete index <$> done ∧ Forall (λ id, fails (CDelete index id) = None) done ∨
     ∃ bad rest', rest = bad :: rest' ∧ r = Err ECall ∧ sent = CDelete index <$> (done ++ [bad])%list ∧
       is_Some (fails (CDelete index bad)) ∧ Forall (λ id, fails (CDelete index id) = None) done).
Proof.
  induction ids as [|id ids IH]; cbn [os_BulkDelete]; [exists [], []; split; [done|]; by left|].
  unfold os_DeleteDocument, connected, os_done. destruct (fails (CDelete index id)) as [e|] eqn:He.
  - exists [], (id :: ids). split; [done|]. right. exists id, ids. rewrite He. by split_and!.
  - destruct (os_BulkDelete Ready fails index ids) as [sent r]. destruct IH as (d & rest & -> & IH). exists (id :: d), rest. split; [done|].
    destruct IH as [(-> & -> & -> & Hd)|(bad & rest' & -> & -> & -> & Hb & Hd)].
    + left. split_and!; [done..|]. by constructor.
    + right. exists bad, rest'. split_and!; [done..|]. by constructor.
Qed.

(** A new index of Meilisearch.  It is reported exactly when its first document
    was added; whether that document is deleted again and whether the fields are
    set does not count.  The searchable fields are sent with their boosts, which
    the other engines strip, so without settings "title" is not among them. *)
Theorem ms_index_created (fails : ms_call → option string) (dummy : nat) (index : string) (settings : option IndexSettings) :
  ((ms_CreateIndex Ready fails dummy index settings).2 = Ok tt ↔ fails (MAdd index [MsMap dummy] (Some "id")) = None) ∧
  (fails (MAdd index [MsMap dummy] (Some "id")) = None →
    (ms_CreateIndex Ready fails dummy index settings).1 =
      [MAdd index [MsMap dummy] (Some "id"); MDelete index (init_id index); MSearchable index (SearchableFields (effective settings));
       MFilterable index (FilterableFields (effective settings))]) ∧
  ("title" ∉ SearchableFields (effective None)) ∧ properties_of None !! "title" = Some "text".
Proof.
  split_and!; [| | |by vm_compute].
  - unfold ms_CreateIndex, IndexDocuments, AddDocuments, ms_guarded, ms_done. cbn [ms_documents primary_key String.eqb Ascii.eqb Bool.eqb].
    by destruct (fails _).
  - intros Hf. unfold ms_CreateIndex, IndexDocuments, AddDocuments, ms_guarded, ms_done. cbn [ms_documents primary_key String.eqb Ascii.eqb Bool.eqb].
    rewrite Hf. by destruct settings.
  - cbn [effective SearchableFields]. by apply (bool_decide_unpack _).
Qed.

(** Indexing writes into the caller's map.  After [Index] with an identifier a
    document that is a map has it as its "id", whatever it held there before,
    even when nothing could be sent; every other map stays. *)
Theorem ms_index_marks_document (client : presence) (fails : ms_call → option string) (h : gmap nat (gmap string string)) (index id : string)
    (p : nat) (m : gmap string string) :
  client ≠ NoClient → id ≠ "" → h !! p = Some m →
  (ms_Index client fails h index id (MsMap p)).2 !! p = Some (<["id" := id]> m) ∧
  ∀ p', p' ≠ p → (ms_Index client fails h index id (MsMap p)).2 !! p' = h !! p'.
Proof.
  intros Hc Hid Hm. unfold ms_Index. destruct client; [done|..]; cbn [snd]; destruct (String.eqb_spec id ""); try done;
    (split; [by rewrite lookup_alter_eq, Hm|intros p' Hp'; by rewrite lookup_alter_ne]).
Qed.

(** *** At concrete inputs *)

Lemma search_query_exact_witness :
  decode (buildQuery (mkRequest "notes" "red fox" [("user_id", "u1")] 20 10)) = Some (query_value "red fox" [] [("user_id", "u1")] 20 10) ∧
  os_buildQuery (mkRequest "notes" "red fox" [("user_id", "u1")] 20 10) = buildQuery (mkRequest "notes" "red fox" [("user_id", "u1")] 20 10).
Proof. apply (search_query_exact "notes" "red fox" [("user_id", "u1")] 20 10); vm_compute; reflexivity. Defined.

Lemma search_query_injected_witness :
  decode (buildQuery (mkRequest "notes" (injected "x" "type" "phrase") [] 0 10)) = Some (query_value "x" [("type", JStr "phrase")] [] 0 10).
Proof. apply (search_query_injected "notes" "x" "type" "phrase" [] 0 10); vm_compute; reflexivity. Defined.

Definition demo_props : list (string * string) := map_to_list (properties_of None).
Lemma index_settings_exact_witness :
  decode (buildSettings demo_props None) = Some (settings_value demo_props (effective None)) ∧ ("title", "text") ∈ demo_props.
Proof.
  destruct (index_settings_exact None demo_props "title") as (H & _ & Hf); [reflexivity|vm_compute; reflexivity|vm_compute; reflexivity|].
  split; [exact H|]. apply Hf. right. split_and!; [|reflexivity|]; by apply (bool_decide_unpack _).
Defined.

Lemma es_bulk_exact_witness :
  ∃ body, (es_BulkIndex Ready (λ _, None) "notes" (Some <$> [JObj [("a", JNum "1")]; JStr "b"])).1 = [CBulk "notes" body true] ∧
    (decode <$> Split newline body) = [Some (JObj [("index", JObj [("_index", JStr "notes")])]); Some (JObj [("a", JNum "1")]);
       Some (JObj [("index", JObj [("_index", JStr "notes")])]); Some (JStr "b"); None].
Proof.
  apply (es_bulk_exact (λ _, None) "notes" [JObj [("a", JNum "1")]; JStr "b"]); [vm_compute; reflexivity|vm_compute; reflexivity|].
  repeat (apply list.Forall_cons; split; [apply Nat.leb_le; vm_compute; reflexivity|]). apply list.Forall_nil_2.
Defined.

Lemma es_search_never_answers_witness :
  let answer := λ _ : call, Some (mkAnswer 200 "{}") in
  (es_Search Ready answer (λ _, Some (0%Z, None)) (mkRequest "notes" "fox" [] 0 10)).2 = Panic.
Proof.
  intros answer. apply (es_search_never_answers Ready answer (λ _, Some (0%Z, None)) (mkRequest "notes" "fox" [] 0 10)).
  - by intros s status body [= _ <-].
  - split; [reflexivity|]. exists (mkAnswer 200 "{}"). split; [reflexivity|]. by eexists.
Defined.

Lemma ms_index_marks_document_witness :
  let h : gmap nat (gmap string string) := {[7 := {["id" := "old"]}]} in
  (ms_Index NoRaw (λ _, None) h "notes" "n1" (MsMap 7)).2 !! 7 = Some (<["id" := "n1"]> {["id" := "old"]}).
Proof. intros h. apply (ms_index_marks_document NoRaw (λ _, None) h "notes" "n1" 7 {["id" := "old"]}); [done|done|reflexivity]. Defined.
