(* ===== verification/Subsystems.v ===== *)
(** * The subsystems of the extension manager

    Models src/extension/manager/manager.go beside the phases of [Lifecycle], and
    src/extension/manager/metrics.go with src/extension/plugin/manager.go: how
    the manager is set up over its parts, what it reports of them and how it is
    cleaned up.  The parts are those of the other files: the collector of
    [Collector], the discovery of [Discovery], the monitor of [Sandbox].  Maps of
    configurations are in a store, as the configuration of the plugins is shared
    with the configuration it was read from. *)

From stdpp Require Import base tactics option list gmap strings numbers.
From Stdlib Require Import ZArith Lia.
From S2P Require Import Prelude MetricsStore Collector Discovery Sandbox DataMetrics.

Open Scope string_scope.

(** ** Configurations of plugins *)

Section PluginConfigs.
Context {V : Type}.
Abbreviation maps := (gmap nat (gmap string V)) (only parsing).

(** [cfg]: the address of the map, [None] when it is nil. *)
Record PluginManager := mkPM { cfg : option nat; maxPlugins : Z }.

Definition map_at (h : maps) (p : option nat) : gmap string V := default ∅ (p ≫= λ a, h !! a).

(** [NewManager]: the map of the configuration itself. *)
Definition NewPluginManager (PluginConfig : option nat) (MaxPlugins : Z) : PluginManager := mkPM PluginConfig MaxPlugins.
Definition GetPluginConfig (name : string) (pm : PluginManager) (h : maps) : option V := map_at h (cfg pm) !! name.
Definition SetPluginConfig (name : string) (v : V) (pm : PluginManager) (h : maps) : PluginManager * maps :=
  match cfg pm with
  | Some a => (pm, alter (λ m, <[name := v]> m) a h)
  | None => let a := fresh (dom h) in (mkPM (Some a) (maxPlugins pm), <[a := {[name := v]}]> h)
  end.
Definition RemovePluginConfig (name : string) (pm : PluginManager) (h : maps) : maps :=
  match cfg pm with Some a => alter (delete name) a h | None => h end.
Definition GetAllPluginConfigs (pm : PluginManager) (h : maps) : gmap string V := map_at h (cfg pm).
Definition GetMaxPlugins (pm : PluginManager) : Z := maxPlugins pm.
End PluginConfigs.

(** ** Setting up *)

(** The metrics configuration: with its storage, type and key prefix, and the
    retention time, when it can be read. *)
Record MetricsConf := mkMetricsConf { collector_conf : MetricsConfig; storage_conf : option (string * string); retention_conf : option Z }.
Record ExtConf := mkExtConf {
  x_Metrics : option MetricsConf; x_EnableSandbox : option bool; x_Performance : option PerformanceConfig;
  x_PluginConfig : option nat; x_MaxPlugins : Z }.

(** What [GetRedis] answers: nil, a value of another type, or a client, and
    whether it answers a ping. *)
Inductive redis_value := RedisNil | RedisOther | RedisClient (pings : bool).

(** [initDataLayerWithRetry]: [opens i] is the data layer the attempt [i] opens,
    if it succeeds; the waits between the attempts are in nanoseconds. *)
Fixpoint data_retry {D} (opens : nat → option D) (left attempt : nat) : list Z * option D :=
  match left with
  | O => ([], None)
  | S left' =>
      match opens attempt with
      | Some d => ([], Some d)
      | None =>
          let '(waits, r) := data_retry opens left' (S attempt) in
          ((match left' with O => [] | _ => [2 * second * Z.shiftl 1 (Z.of_nat attempt)]%Z end ++ waits)%list, r)
      end
  end.
Definition initDataLayerWithRetry {D} (opens : nat → option D) : list Z * option D := data_retry opens 3 0.

Definition week : Z := 7 * 24 * 3600 * second.
(** The prefix and the retention time the storage is upgraded with, if it is. *)
Definition upgradeMetricsStorageIfAvailable (conf : ExtConf) (collector : option Collector) (redis : redis_value) : option (string * Z) :=
  match collector with
  | None => None
  | Some c =>
      if negb (IsEnabled c) then None
      else
        match x_Metrics conf with
        | None => None
        | Some mc =>
            match storage_conf mc with
            | None => None
            | Some (storageType, keyPrefix) =>
                if negb (String.eqb storageType "redis") && negb (String.eqb storageType "auto") then None
                else
                  match redis with
                  | RedisClient true => Some (if String.eqb keyPrefix "" then "ncore_ext" else keyPrefix, default week (retention_conf mc))
                  | _ => None
                  end
            end
        end
  end.

(** An extension as the manager uses it. *)
Record Ext := mkExt {
  ext_name : string; ext_status : string; needs_discovery : bool; handlers : option nat; services : option nat }.

Section Manager.
Context {A D V : Type} `{Consul A}.

Record Mgr := mkMgr {
  conf : ExtConf; exts : gmap string Ext; initialized : bool; cancelled : bool;
  serviceDiscovery : option (ServiceDiscovery (A := A)); grpcServer : bool; grpcRegistry : bool;
  circuitBreakers : gmap string nat; crossServices : gmap string nat; data : option D; collector : option Collector;
  upgraded : option (string * Z); sandbox : bool; resourceMonitor : option ResourceMonitor; pm : option PluginManager }.

(** [initServiceDiscovery]: without a configuration there is none; an error is
    only logged. *)
Definition initServiceDiscovery (consul_conf : bool) (client : option A) : option (ServiceDiscovery (A := A)) :=
  if consul_conf then NewServiceDiscovery <$> client else None.

(** The sandbox, the monitor and the manager of plugins. *)
Definition initOptionalComponents (conf : ExtConf) : bool * option ResourceMonitor * option PluginManager :=
  (default false (x_EnableSandbox conf), NewResourceMonitor <$> x_Performance conf, Some (NewPluginManager (x_PluginConfig conf) (x_MaxPlugins conf))).

(** [NewManager] with [initSubsystems]; [None] when
    the data layer could not be opened.  [redis_of] is [GetRedis] of a data layer. *)
Definition NewManager (conf : ExtConf) (consul_conf : bool) (client : option A) (opens : nat → option D) (redis_of : D → redis_value) (now : Z) :
    res () (option Mgr) :=
  rbind (NewCollector (collector_conf <$> x_Metrics conf) now) (λ c,
    match (initDataLayerWithRetry opens).2 with
    | None => Ok None
    | Some d =>
        let '(sandbox, monitor, plugins) := initOptionalComponents conf in
        Ok (Some (mkMgr conf ∅ false false (initServiceDiscovery consul_conf client) false false ∅ ∅ (Some d) (Some c)
          (upgradeMetricsStorageIfAvailable conf (Some c) (redis_of d))
          sandbox monitor plugins))
    end).

(** ** Looking up *)

Inductive lookup_error := ENoExtension | ENoHandler | ENoService.
Definition GetExtensionByName (name : string) (m : Mgr) : res lookup_error Ext :=
  match exts m !! name with None => Err ENoExtension | Some e => Ok e end.
Definition ListExtensions (m : Mgr) : gmap string Ext := exts m.
Definition GetHandlerByName (name : string) (m : Mgr) : res lookup_error nat :=
  match exts m !! name with
  | None => Err ENoExtension
  | Some e => match handlers e with None => Err ENoHandler | Some h => Ok h end
  end.
Definition ListHandlers (m : Mgr) : gmap string nat := omap handlers (exts m).
Definition GetServiceByName (name : string) (m : Mgr) : res lookup_error nat :=
  match exts m !! name with
  | None => Err ENoExtension
  | Some e => match services e with None => Err ENoService | Some s => Ok s end
  end.
Definition ListServices (m : Mgr) : gmap string nat := omap services (exts m).
Definition GetMetadata (m : Mgr) : gmap string string := ext_name <$> exts m.
Definition GetStatus (m : Mgr) : gmap string string := ext_status <$> exts m.
Definition GetData (m : Mgr) : option D := data m.
Definition is_active (e : Ext) : bool := String.eqb (ext_status e) "active".
(** [order]: the extensions in the order the map is ranged over. *)
Definition IsFullyInitialized (order : list Ext) (m : Mgr) : bool := if negb (initialized m) then false else forallb is_active order.
Definition countActiveExtensions (order : list Ext) : nat := length (List.filter is_active order).

(** ** Reports *)

(** A value of type any in a report. *)
Inductive sval := SInt (z : Z) | SInt64 (z : Z) | SBool (b : bool) | SStr (s : string) | SOther | SMapAny.

(** The registrations, deregistrations and health checks counted. *)
Definition GetCacheStats (counts : Z * Z * Z) (sd : ServiceDiscovery (A := A)) : gmap string sval :=
  let c := serviceCache sd in
  list_to_map [("size", SInt (Z.of_nat (base.size (Discovery.services c)))); ("ttl_seconds", SOther); ("last_update", SOther); ("cache_hits", SInt64 (hits c));
    ("cache_misses", SInt64 (misses c)); ("hit_rate", SOther); ("updates", SInt64 (updates c)); ("evictions", SInt64 (evictions c));
    ("age_seconds", SOther); ("is_expired", SOther); ("registrations", SInt64 counts.1.1); ("deregistrations", SInt64 counts.1.2);
    ("lookups", SInt64 (lookups sd)); ("health_checks", SInt64 counts.2); ("errors", SInt64 (errors sd))].
Definition GetServiceCacheStats (counts : Z * Z * Z) (m : Mgr) : gmap string sval :=
  match serviceDiscovery m with
  | None => {["status" := SStr "not_initialized"]}
  | Some sd => <["status" := SStr "active"]> (GetCacheStats counts sd)
  end.

(** The values that [updateSystemMetrics] reads from the cache's report. *)
Definition read_int (k : string) (stats : gmap string sval) : Z := match stats !! k with Some (SInt z) => z | _ => 0 end.
Definition read_int64 (k : string) (stats : gmap string sval) : Z := match stats !! k with Some (SInt64 z) => z | _ => 0 end.
Definition updateSystemMetrics (mem gor gc now : Z) (counts : Z * Z * Z) (m : Mgr) (w : World) : World :=
  match collector m with
  | None => w
  | Some _ =>
      if negb (IsEnabled (coll w)) then w
      else
        let w := UpdateSystemMetrics mem gor gc now w in
        match serviceDiscovery m with
        | None => w
        | Some sd =>
            let cacheStats := GetCacheStats counts sd in
            UpdateServiceDiscoveryMetrics (read_int "total" cacheStats) (read_int64 "cache_hits" cacheStats) (read_int64 "cache_misses" cacheStats) now w
        end
  end.

(** [GetStats] of the data layer: with a collector of its own or without. *)
Definition data_stats (with_collector : bool) : gmap string sval :=
  if with_collector then
    {["database" := SMapAny; "redis" := SMapAny; "mongodb" := SMapAny; "search" := SMapAny; "messaging" := SMapAny; "health" := SOther; "timestamp" := SOther]}
  else {["status" := SStr "metrics_unavailable"; "timestamp" := SOther]}.
Definition GetDataMetrics (stats : D → gmap string sval) (m : Mgr) : gmap string sval :=
  match data m with None => {["status" := SStr "unavailable"; "timestamp" := SOther]} | Some d => stats d end.
Definition getDataLayerStatus (stats : D → gmap string sval) (m : Mgr) : string :=
  match data m with
  | None => "unavailable"
  | Some d => match stats d !! "status" with Some (SStr s) => s | _ => "unknown" end
  end.
Definition getMessagingStatus (available : D → bool) (m : Mgr) : bool * gmap string bool :=
  match data m with None => (false, ∅) | Some d => (available d, {["rabbitmq" := false; "kafka" := false]}) end.
Definition isDataMetricsEnabled (stats : D → gmap string sval) (m : Mgr) : bool :=
  match data m with
  | None => false
  | Some d =>
      match stats d !! "status" with
      | Some (SStr s) => negb (String.eqb s "metrics_unavailable")
      | _ => match stats d !! "database" with Some SMapAny => true | _ => false end
      end
  end.

Definition IsMetricsEnabled (m : Mgr) : bool := match collector m with Some c => IsEnabled c | None => false end.
(** The fields of [GetMetrics]; the configuration of the storage is not checked
    before its type is read. *)
Definition GetMetrics (m : Mgr) : res () (gmap string sval) :=
  if negb (IsMetricsEnabled m) then Ok {["enabled" := SBool false; "timestamp" := SOther]}
  else
    let result := {["enabled" := SBool true; "timestamp" := SOther; "system" := SOther; "extensions" := SOther; "storage" := SMapAny]} in
    match x_Metrics (conf m) with
    | None => Ok result
    | Some mc => match storage_conf mc with None => Panic | Some _ => Ok (<["config" := SMapAny]> result) end
    end.
Definition GetSystemMetrics (stats : D → gmap string sval) (m : Mgr) : res () (gmap string sval) :=
  rbind (GetMetrics m) (λ _, Ok (<["extension" := SMapAny]> (<["data" := SMapAny]> (<["events" := SMapAny]>
    (match serviceDiscovery m with Some _ => {["service_discovery" := SMapAny]} | None => ∅ end))))).
Definition GetComprehensiveMetrics (order : list Ext) (stats : D → gmap string sval) (m : Mgr) : res () (Z * nat * string * bool * bool) :=
  let summary := (Z.of_nat (base.size (exts m)), countActiveExtensions order, getDataLayerStatus stats m, IsMetricsEnabled m, isDataMetricsEnabled stats m) in
  rbind (GetMetrics m) (λ _, Ok summary).

(** What the manager tells the collector, if there is one. *)
Definition track (c : Collector.call) (m : Mgr) : list Collector.call := match collector m with Some _ => [c] | None => [] end.
Definition trackExtensionLoaded (name : string) (duration : Z) := track (CLoaded name duration).
Definition trackExtensionInitialized (name : string) (duration : Z) (failed : bool) := track (CInitialized name duration failed).
Definition trackExtensionUnloaded (name : string) := track (CUnloaded name).
Definition trackServiceCall (name : string) (success : bool) := track (CCount (CServiceCall success) name).
Definition trackEventPublished (name eventType : string) := track (CCount (CEventPublished eventType) name).
Definition trackEventReceived (name eventType : string) := track (CCount (CEventReceived eventType) name).
Definition trackCircuitBreakerTripped (name : string) := track (CCount CTripped name).

(** ** Cleaning up *)

Inductive action :=
| ACancel | AStopCollector | APreCleanup (name : string) | ACleanup (name : string) | AUnloaded (name : string) | ADeregister (name : string)
| AStopServer | ACloseRegistry | AClearCache | ACloseData.

Definition has_collector (m : Mgr) : bool := is_some_b (collector m).

(** How a call of an extension ends: with or without an error, in a panic, or never. *)
Inductive outcome := Returned (failed : bool) | Panics | Hangs.
(** How [Cleanup] ends. *)
Inductive ending := Finished | Panicked | Blocked.

Definition cleanup_discovery (sd : option (ServiceDiscovery (A := A))) (e : string * Ext) : option (ServiceDiscovery (A := A)) :=
  match sd with
  | Some sd => Some (if needs_discovery e.2 then (DeregisterService (ext_name e.2) sd).2 else sd)
  | None => None
  end.

Abbreviation maps := (gmap nat (gmap string V)) (only parsing).

Section Running.
(** [pre n] and [clean n]: how [PreCleanup] and [Cleanup] of the extension [n] end. *)
Context (pre clean : string → outcome).

(** One round of [cleanupExtensions]; the errors of the extension and of the
    discovery are logged, a panic is not recovered. *)
Definition cleanup_round (tracked : bool) (e : string * Ext) (sd : option (ServiceDiscovery (A := A))) :
    list action * ending * option (ServiceDiscovery (A := A)) :=
  match pre e.1 with
  | Panics => ([APreCleanup e.1], Panicked, sd)
  | Hangs => ([APreCleanup e.1], Blocked, sd)
  | Returned _ =>
      match clean e.1 with
      | Panics => ([APreCleanup e.1; ACleanup e.1], Panicked, sd)
      | Hangs => ([APreCleanup e.1; ACleanup e.1], Blocked, sd)
      | Returned _ =>
          (([APreCleanup e.1; ACleanup e.1] ++ (if tracked then [AUnloaded (ext_name e.2)] else []) ++
             (if is_some_b sd && needs_discovery e.2 then [ADeregister (ext_name e.2)] else []))%list,
           Finished, cleanup_discovery sd e)
      end
  end.

(** [order]: the extensions as the loop ranges over them. *)
Fixpoint cleanupExtensions (tracked : bool) (order : list (string * Ext)) (sd : option (ServiceDiscovery (A := A))) :
    list action * ending * option (ServiceDiscovery (A := A)) :=
  match order with
  | [] => ([], Finished, sd)
  | e :: order' =>
      let '(acts, r, sd) := cleanup_round tracked e sd in
      match r with
      | Finished => let '(acts', r', sd') := cleanupExtensions tracked order' sd in ((acts ++ acts')%list, r', sd')
      | _ => (acts, r, sd)
      end
  end.

Definition with_parts (sd : option (ServiceDiscovery (A := A))) (server registry : bool) (rm : option ResourceMonitor) (m : Mgr) : Mgr :=
  mkMgr (conf m) (exts m) (initialized m) (cancelled m) sd server registry (circuitBreakers m) (crossServices m) (data m)
    (collector m) (upgraded m) (sandbox m) rm (pm m).

(** The servers and the cache, after the extensions. *)
Definition close_servers (m : Mgr) (sd : option (ServiceDiscovery (A := A))) : list action :=
  (if grpcServer m then [AStopServer] else []) ++ (if grpcRegistry m then [ACloseRegistry] else []) ++ (match sd with Some _ => [AClearCache] | None => [] end).

(** [names]: the extensions once more, as the second loop ranges over them. *)
Definition cleanupSubsystems (order : list (string * Ext)) (names : list string) (m : Mgr) (h : maps) : list action * ending * Mgr * maps :=
  let '(acts, r, sd) := cleanupExtensions (has_collector m) order (serviceDiscovery m) in
  match r with
  | Finished =>
      let '(rm, h) := match resourceMonitor m, pm m with
        | Some rm, Some p => (Some (foldl (λ rm n, MonitorCleanup n rm) rm names), foldl (λ h n, RemovePluginConfig n p h) h names)
        | rm, _ => (rm, h)
        end in
      ((acts ++ close_servers m sd)%list, Finished, with_parts (ClearCache <$> sd) false false rm m, h)
  | _ => (acts, r, with_parts sd (grpcServer m) (grpcRegistry m) (resourceMonitor m) m, h)
  end.

(** The manager once its context is cancelled and its collector marked as stopped. *)
Definition with_stopped (m : Mgr) : Mgr :=
  mkMgr (conf m) (exts m) (initialized m) true (serviceDiscovery m) (grpcServer m) (grpcRegistry m) (circuitBreakers m) (crossServices m) (data m)
    (set_stopped <$> collector m) (upgraded m) (sandbox m) (resourceMonitor m) (pm m).
Definition with_nothing (m : Mgr) : Mgr :=
  mkMgr (conf m) ∅ false (cancelled m) (serviceDiscovery m) (grpcServer m) (grpcRegistry m) ∅ ∅ (data m)
    (collector m) (upgraded m) (sandbox m) (resourceMonitor m) (pm m).

(** [stops]: whether [Stop] of the collector returns, which waits for the flush
    goroutine while it holds the mutex that goroutine may ask for. *)
Definition Cleanup (stops : bool) (order : list (string * Ext)) (names : list string) (m : Mgr) (h : maps) : list action * ending * Mgr * maps :=
  let before := ([ACancel] ++ (if has_collector m then [AStopCollector] else []))%list in
  if has_collector m && negb stops then (before, Blocked, with_stopped m, h)
  else
    let '(acts, r, m', h') := cleanupSubsystems order names (with_stopped m) h in
    match r with
    | Finished => ((before ++ acts ++ match data m with Some _ => [ACloseData] | None => [] end)%list, Finished, with_nothing m', h')
    | _ => ((before ++ acts)%list, r, m', h')
    end.
End Running.

(** What the actions do to the collector; [Stop] has returned before the next. *)
Definition collect (now : Z) (w : World) (a : action) : World :=
  match a with
  | AStopCollector => set_coll (set_stopped (coll w)) w
  | AUnloaded n => if IsEnabled (coll w) && negb (String.eqb n "") then ExtensionUnloaded n now w else w
  | _ => w
  end.

(** ** Facts *)

Lemma removed_configs names (p : PluginManager) (h : maps) a k :
  cfg p = Some a →
  map_at (foldl (λ h n, RemovePluginConfig n p h) h names) (Some a) !! k = if bool_decide (k ∈ names) then None else map_at h (Some a) !! k.
Proof.
  intros Hp. revert h. induction names as [|n names IH]; intros h; [done|]. cbn [foldl]. rewrite IH.
  assert (map_at (RemovePluginConfig n p h) (Some a) = delete n (map_at h (Some a))) as ->.
  { unfold RemovePluginConfig, map_at. rewrite Hp. cbn [mbind option_bind]. rewrite lookup_alter_eq. destruct (h !! a); cbn; [done|]. by rewrite delete_empty. }
  destruct (decide (k ∈ names)) as [Hk|Hk].
  - rewrite !bool_decide_eq_true_2; [done|by right|done].
  - rewrite bool_decide_eq_false_2 by done. destruct (decide (k = n)) as [->|Hne].
    + rewrite lookup_delete_eq, bool_decide_eq_true_2; [done|by left].
    + rewrite lookup_delete_ne by done. rewrite bool_decide_eq_false_2; [done|]. intros [?|?]%elem_of_cons; done.
Qed.

Lemma elem_of_concat {B} (x : B) (ls : list (list B)) : x ∈ concat ls ↔ ∃ l, x ∈ l ∧ l ∈ ls.
Proof.
  rewrite list_elem_of_In, in_concat. split; intros (l & H1 & H2); exists l; [|by rewrite <- !list_elem_of_In].
  by rewrite !list_elem_of_In.
Qed.

Definition is_extension_action (a : action) : bool := match a with APreCleanup _ | ACleanup _ => true | _ => false end.

(** How an extension ends its clean-up, and the calls it gets. *)
Definition ending_of (pre clean : string → outcome) (n : string) : ending :=
  match pre n with Panics => Panicked | Hangs => Blocked
  | Returned _ => match clean n with Panics => Panicked | Hangs => Blocked | Returned _ => Finished end end.
Definition calls_of (e : string * Ext) : list action := [APreCleanup e.1; ACleanup e.1].
Definition cut_calls (pre : string → outcome) (e : string * Ext) : list action :=
  match pre e.1 with Returned _ => calls_of e | _ => [APreCleanup e.1] end.
Definition is_closing (a : action) : bool := match a with AStopServer | ACloseRegistry | AClearCache | ACloseData => true | _ => false end.

Section Tracing.
Context (pre clean : string → outcome).

(** What the loop over the extensions does: the calls of those before the first
    that panics or hangs, and its own. *)
Lemma cleanup_trace tracked order sd :
  let '(acts, r, sd') := cleanupExtensions pre clean tracked order sd in
  let calls := List.filter is_extension_action acts in
  is_some_b sd' = is_some_b sd ∧ List.filter is_closing acts = [] ∧
  match r with
  | Finished =>
      calls = concat (calls_of <$> order) ∧ Forall (λ e, ending_of pre clean e.1 = Finished) order ∧
      (∀ d, ADeregister d ∈ acts ↔ is_some_b sd = true ∧ ∃ e, e ∈ order ∧ needs_discovery e.2 = true ∧ ext_name e.2 = d)
  | _ => ∃ done e rest, order = (done ++ e :: rest)%list ∧ Forall (λ e, ending_of pre clean e.1 = Finished) done ∧
      ending_of pre clean e.1 = r ∧ calls = (concat (calls_of <$> done) ++ cut_calls pre e)%list
  end.
Proof.
  revert sd. induction order as [|e order IH]; intros sd; cbn [cleanupExtensions].
  { split_and!; try done. intros d. split; [by intros ?%elem_of_nil|]. by intros (_ & e & ?%elem_of_nil & _). }
  unfold cleanup_round. destruct (pre e.1) as [b1| |] eqn:Hp.
  2,3: (split_and!; [done..|]; exists [], e, order; unfold ending_of, cut_calls; rewrite Hp; by split_and!).
  destruct (clean e.1) as [b2| |] eqn:Hc.
  2,3: (split_and!; [done..|]; exists [], e, order; unfold ending_of, cut_calls; rewrite Hp, Hc; by split_and!).
  specialize (IH (cleanup_discovery sd e)). destruct (cleanupExtensions pre clean tracked order (cleanup_discovery sd e)) as [[acts r] sd'].
  destruct IH as (Hsd & Hcl & IH). assert (ending_of pre clean e.1 = Finished) as He by (unfold ending_of; by rewrite Hp, Hc).
  assert (is_some_b (cleanup_discovery sd e) = is_some_b sd) as Hsd' by (by destruct sd). rewrite Hsd' in Hsd, IH.
  set (round := ([APreCleanup e.1; ACleanup e.1] ++ _)%list).
  assert (List.filter is_extension_action round = calls_of e ∧ List.filter is_closing round = []) as [Hr Hr'].
  { unfold round. by destruct tracked, (is_some_b sd && needs_discovery e.2). }
  split_and!; [done|by rewrite List.filter_app, Hr', Hcl|]. destruct r.
  - destruct IH as (Hcalls & Hall & Hd). split_and!; [by rewrite List.filter_app, Hr, Hcalls|by constructor|].
    intros d. rewrite elem_of_app, Hd. assert (ADeregister d ∈ round ↔ is_some_b sd = true ∧ needs_discovery e.2 = true ∧ ext_name e.2 = d) as ->.
    { unfold round. rewrite !elem_of_app, !elem_of_cons, elem_of_nil. destruct tracked, (is_some_b sd), (needs_discovery e.2); cbn [andb];
        rewrite ?elem_of_cons, ?elem_of_nil; intuition (try congruence). }
    split.
    + intros [(? & ? & ?)|(? & e' & ? & ? & ?)]; (split; [done|]); [exists e|exists e']; (split_and!; [|done..]); [by left|by right].
    + intros (? & e' & [->|Hin]%elem_of_cons & ? & ?); [by left|right; split; [done|]; by exists e'].
  - destruct IH as (done & x & rest & -> & Hall & Hx & Hcalls). exists (e :: done), x, rest.
    split_and!; [done|by constructor|done|by rewrite List.filter_app, Hr, Hcalls].
  - destruct IH as (done & x & rest & -> & Hall & Hx & Hcalls). exists (e :: done), x, rest.
    split_and!; [done|by constructor|done|by rewrite List.filter_app, Hr, Hcalls].
Qed.

End Tracing.

(** The calls of extensions with different names are different, and made to them only. *)
Lemma calls_distinct (done : list (string * Ext)) (last : list action) :
  NoDup done.*1 → NoDup last → (∀ a n, a ∈ last → a = APreCleanup n ∨ a = ACleanup n → n ∉ done.*1) →
  (∀ a, a ∈ last → is_extension_action a = true) → NoDup (concat (calls_of <$> done) ++ last)%list.
Proof.
  intros Hnd Hl Hnot Hext. apply list.NoDup_app. split_and!; [| |done].
  - clear Hnot. induction done as [|e done IH]; [constructor|]. rewrite fmap_cons in Hnd. apply list.NoDup_cons in Hnd as [Hni Hnd]. rewrite fmap_cons. cbn [concat].
    apply list.NoDup_app. split_and!; [|intros a Ha (l & Hin & (x & -> & Hx)%list_elem_of_fmap)%elem_of_concat|by apply IH].
    + repeat constructor; by rewrite ?elem_of_cons, ?elem_of_nil; intuition.
    + apply Hni. apply list_elem_of_fmap. exists x. split; [|done]. revert Ha Hin. unfold calls_of. rewrite !elem_of_cons, elem_of_nil. intuition congruence.
  - intros a (l & Hin & (x & -> & Hx)%list_elem_of_fmap)%elem_of_concat Ha. apply (Hnot a x.1 Ha).
    + revert Hin. unfold calls_of. rewrite !elem_of_cons, elem_of_nil. tauto.
    + apply list_elem_of_fmap. by exists x.
Qed.
Lemma called_extensions (done : list (string * Ext)) n :
  (APreCleanup n ∈ concat (calls_of <$> done) ↔ n ∈ done.*1) ∧ (ACleanup n ∈ concat (calls_of <$> done) ↔ n ∈ done.*1).
Proof.
  rewrite !elem_of_concat, !list_elem_of_fmap. split; split.
  1,3: intros (l & Hin & (x & -> & Hx)%list_elem_of_fmap); exists x; split; [|done]; revert Hin; unfold calls_of; rewrite !elem_of_cons, elem_of_nil; intuition congruence.
  all: intros (x & -> & Hx); exists (calls_of x); (split; [|by apply list_elem_of_fmap_2]); unfold calls_of; rewrite !elem_of_cons; auto.
Qed.
Lemma cut_calls_of (pre : string → outcome) e a n : a ∈ cut_calls pre e → a = APreCleanup n ∨ a = ACleanup n → n = e.1.
Proof. unfold cut_calls, calls_of. destruct (pre e.1); rewrite !elem_of_cons, ?elem_of_nil; intuition congruence. Qed.
Lemma cut_calls_NoDup (pre : string → outcome) e : NoDup (cut_calls pre e) ∧ ∀ a, a ∈ cut_calls pre e → is_extension_action a = true.
Proof.
  unfold cut_calls, calls_of. destruct (pre e.1); (split; [repeat constructor; rewrite ?elem_of_cons, ?elem_of_nil; intuition congruence|]);
    intros a; rewrite !elem_of_cons, ?elem_of_nil; intuition (by subst).
Qed.
Lemma collect_stopped now acts w : stopped (coll w) = true →
  view (foldl (collect now) w acts) = view w ∧ stopped (coll (foldl (collect now) w acts)) = true.
Proof.
  revert w. induction acts as [|a acts IH]; intros w Hs; [done|]. cbn [foldl].
  assert (view (collect now w a) = view w ∧ stopped (coll (collect now w a)) = true) as [Hv Hs'].
  { destruct a; try done. cbn [collect]. unfold IsEnabled. by rewrite Hs, andb_false_r. }
  destruct (IH _ Hs') as [Hv' Hs'']. split; [congruence|done].
Qed.

(** ** Properties *)

(** The data layer is tried three times.  The first attempt that succeeds is
    used, after two seconds, or two and four; there is a manager exactly when one
    of them does, unless the flush interval makes the collector panic. *)
Theorem data_layer_retried (conf : ExtConf) (consul_conf : bool) (client : option A) (opens : nat → option D) (redis_of : D → redis_value) (now : Z) :
  (∃ waits r, initDataLayerWithRetry opens = (waits, r) ∧
    ((∃ d, opens 0 = Some d ∧ r = Some d ∧ waits = []) ∨
     (∃ d, opens 0 = None ∧ opens 1 = Some d ∧ r = Some d ∧ waits = [2 * second]%Z) ∨
     (∃ d, opens 0 = None ∧ opens 1 = None ∧ opens 2 = Some d ∧ r = Some d ∧ waits = [2 * second; 4 * second]%Z) ∨
     (opens 0 = None ∧ opens 1 = None ∧ opens 2 = None ∧ r = None ∧ waits = [2 * second; 4 * second]%Z))) ∧
  match NewManager conf consul_conf client opens redis_of now with
  | Ok (Some m) => data m = (initDataLayerWithRetry opens).2 ∧ is_Some (data m) ∧ exts m = ∅ ∧ initialized m = false
  | Ok None => (initDataLayerWithRetry opens).2 = None
  | Panic => NewCollector (collector_conf <$> x_Metrics conf) now = Panic
  | _ => False
  end.
Proof.
  split.
  - unfold initDataLayerWithRetry. cbn [data_retry]. destruct (opens 0) as [d|] eqn:E0; [eexists _, _; split; [done|]; left; by exists d|].
    destruct (opens 1) as [d|] eqn:E1; [eexists _, _; split; [done|]; right; left; exists d; by split_and!|].
    destruct (opens 2) as [d|] eqn:E2; eexists _, _; (split; [done|]); right; right; [left; exists d|right]; by split_and!.
  - unfold NewManager. destruct (NewCollector (collector_conf <$> x_Metrics conf) now) as [c|[]| |] eqn:Hc; cbn [rbind].
    + destruct (initDataLayerWithRetry opens).2 as [d|]; [|done]. cbn [data exts initialized]. by split_and!.
    + revert Hc. unfold NewCollector. by repeat case_match.
    + done.
    + revert Hc. unfold NewCollector. by repeat case_match.
Qed.

(** C6: Cleaning up, in any order the map of the extensions is ranged over and
    however their functions end.  No extension is called twice and no other is.
    When [Cleanup] returns, every extension was prepared and then cleaned, errors
    notwithstanding, those that need it were deregistered, the servers were
    stopped and the data layer closed after them, and the manager is empty.
    Otherwise the collector or an extension hung or panicked: the extensions
    before it in the order were cleaned, the ones after it were not called, nothing
    was stopped or closed, and the manager still has its extensions. *)
Theorem cleanup_exact (pre clean : string → outcome) (stops : bool) (order : list (string * Ext)) (names : list string) (m : Mgr) (h : maps) :
  order ≡ₚ map_to_list (exts m) →
  let '(acts, r, m', _) := Cleanup pre clean stops order names m h in
  let calls := List.filter is_extension_action acts in
  NoDup calls ∧ (∀ n, APreCleanup n ∈ calls ∨ ACleanup n ∈ calls → is_Some (exts m !! n)) ∧
  match r with
  | Finished =>
      (has_collector m = true → stops = true) ∧ calls = concat (calls_of <$> order) ∧
      (∀ n, is_Some (exts m !! n) → ending_of pre clean n = Finished ∧ APreCleanup n ∈ calls ∧ ACleanup n ∈ calls) ∧
      (∀ d, ADeregister d ∈ acts ↔ serviceDiscovery m ≠ None ∧ ∃ n e, exts m !! n = Some e ∧ needs_discovery e = true ∧ ext_name e = d) ∧
      (∃ l, List.filter is_closing l = [] ∧ acts = (l ++ (if grpcServer m then [AStopServer] else []) ++ (if grpcRegistry m then [ACloseRegistry] else []) ++
        (if is_some_b (serviceDiscovery m) then [AClearCache] else []) ++ (if is_some_b (data m) then [ACloseData] else []))%list) ∧
      exts m' = ∅ ∧ initialized m' = false ∧ cancelled m' = true ∧ circuitBreakers m' = ∅ ∧ crossServices m' = ∅ ∧
      grpcServer m' = false ∧ grpcRegistry m' = false ∧ IsMetricsEnabled m' = false
  | _ =>
      (has_collector m = true ∧ stops = false ∧ r = Blocked ∧ calls = [] ∨
       ∃ done e rest, order = (done ++ e :: rest)%list ∧ Forall (λ e, ending_of pre clean e.1 = Finished) done ∧
         ending_of pre clean e.1 = r ∧ calls = (concat (calls_of <$> done) ++ cut_calls pre e)%list) ∧
      List.filter is_closing acts = [] ∧ exts m' = exts m ∧ initialized m' = initialized m ∧ cancelled m' = true ∧
      circuitBreakers m' = circuitBreakers m ∧ crossServices m' = crossServices m ∧ grpcServer m' = grpcServer m ∧ grpcRegistry m' = grpcRegistry m
  end.
Proof.
  intros Hord. unfold Cleanup. destruct (has_collector m && negb stops) eqn:Hst.
  { apply andb_true_iff in Hst as [Hc Hs%negb_true_iff]. rewrite Hc. split_and!; try done.
    - constructor.
    - intros n [Hn|Hn]; by apply elem_of_nil in Hn.
    - left. by split_and!. }
  assert (NoDup order.*1) as Hnd by (rewrite Hord; apply NoDup_fst_map_to_list).
  assert (∀ n, n ∈ order.*1 ↔ is_Some (exts m !! n)) as Hin.
  { intros n. rewrite Hord, list_elem_of_fmap. split.
    - intros ([k e] & -> & He%elem_of_map_to_list). by exists e.
    - intros [e He]. exists (n, e). split; [done|]. by apply elem_of_map_to_list. }
  assert (has_collector m = true → stops = true) as Hstop by (intros Hc; rewrite Hc in Hst; by apply negb_false_iff in Hst).
  unfold cleanupSubsystems. cbn [serviceDiscovery with_stopped].
  pose proof (cleanup_trace pre clean (has_collector (with_stopped m)) order (serviceDiscovery m)) as Ht.
  destruct (cleanupExtensions pre clean (has_collector (with_stopped m)) order (serviceDiscovery m)) as [[acts r] sd]. destruct Ht as (Hsd & Hcl & Ht).
  set (before := ([ACancel] ++ if has_collector m then [AStopCollector] else [])%list).
  assert (List.filter is_extension_action before = [] ∧ List.filter is_closing before = []) as [Hb Hb'] by (unfold before; by destruct (has_collector m)).
  assert (r ≠ Finished → (∃ done e rest, order = (done ++ e :: rest)%list ∧ Forall (λ e, ending_of pre clean e.1 = Finished) done ∧
         ending_of pre clean e.1 = r ∧ List.filter is_extension_action acts = (concat (calls_of <$> done) ++ cut_calls pre e)%list) →
      NoDup (List.filter is_extension_action (before ++ acts)%list) ∧
      (∀ n, APreCleanup n ∈ List.filter is_extension_action (before ++ acts)%list ∨ ACleanup n ∈ List.filter is_extension_action (before ++ acts)%list → is_Some (exts m !! n))) as Hcut.
  { intros _ (done & e & rest & Ho & _ & _ & Hcalls). rewrite List.filter_app, Hb, Hcalls. cbn [app].
    rewrite Ho, fmap_app, fmap_cons in Hnd. apply list.NoDup_app in Hnd as (Hnd1 & Hdis & _). destruct (cut_calls_NoDup pre e) as [Hn1 Hn2]. split.
    - apply calls_distinct; [done..| |done]. intros a n Ha Han Hd. rewrite (cut_calls_of pre e a n Ha Han) in Hd. apply (Hdis _ Hd). by left.
    - intros n Hn. apply Hin. rewrite Ho, fmap_app, fmap_cons. rewrite !elem_of_app in Hn. rewrite elem_of_app, elem_of_cons.
      destruct (called_extensions done n) as [H1 H2]. rewrite H1, H2 in Hn.
      destruct Hn as [[?|Ha]|[?|Ha]]; [by left| |by left|]; right; left; eapply cut_calls_of; eauto. }
  destruct r.
  - destruct Ht as (Hcalls & Hall & Hd). clear Hcut.
    destruct (match resourceMonitor (with_stopped m) with Some _ => _ | None => _ end) as [rm h'].
    assert (List.filter is_extension_action (before ++ (acts ++ close_servers (with_stopped m) sd) ++ match data m with Some _ => [ACloseData] | None => [] end)%list = concat (calls_of <$> order)) as ->.
    { rewrite !List.filter_app, Hb, Hcalls. unfold close_servers. cbn [grpcServer grpcRegistry with_stopped].
      destruct (grpcServer m), (grpcRegistry m), sd, (data m); cbn [List.filter is_extension_action app]; by rewrite ?app_nil_r. }
    split_and!; try done.
    + rewrite <- (app_nil_r (concat _)). apply calls_distinct; [done|constructor|intros a n Ha; by apply elem_of_nil in Ha|intros a Ha; by apply elem_of_nil in Ha].
    + intros n Hn. destruct (called_extensions order n) as [H1 H2]. rewrite H1, H2 in Hn. apply Hin. tauto.
    + intros n Hn%Hin. destruct (called_extensions order n) as [-> ->]. split_and!; [|done..].
      apply list_elem_of_fmap in Hn as (e & -> & He). by apply (proj1 (list.Forall_forall _ _) Hall).
    + intros d. rewrite !elem_of_app, Hd. unfold before, close_servers. cbn [grpcServer grpcRegistry with_stopped].
      transitivity (is_some_b (serviceDiscovery m) = true ∧ (∃ e : string * Ext, e ∈ order ∧ needs_discovery e.2 = true ∧ ext_name e.2 = d)).
      * split; [|tauto]. destruct (has_collector m), (grpcServer m), (grpcRegistry m), sd, (data m); rewrite ?elem_of_app, ?elem_of_cons, ?elem_of_nil;
          intuition discriminate.
      * assert (is_some_b (serviceDiscovery m) = true ↔ serviceDiscovery m ≠ None) as -> by (by destruct (serviceDiscovery m)).
        apply and_iff_compat_l. split.
        -- intros ([n e] & He & ? & ?). rewrite Hord in He. apply elem_of_map_to_list in He. by exists n, e.
        -- intros (n & e & He & ? & ?). exists (n, e). split; [|done]. rewrite Hord. by apply elem_of_map_to_list.
    + exists (before ++ acts)%list. rewrite List.filter_app, Hb', Hcl. split; [reflexivity|]. rewrite <- !app_assoc. do 2 f_equal.
      unfold close_servers. cbn [grpcServer grpcRegistry with_stopped]. rewrite <- Hsd. by destruct (grpcServer m), (grpcRegistry m), sd, (data m).
    + unfold IsMetricsEnabled. cbn [collector with_nothing with_parts with_stopped]. destruct (collector m) as [c|]; [|done].
      unfold IsEnabled. cbn. by rewrite andb_false_r.
  - destruct (Hcut ltac:(done) Ht) as [H1 H2]. split_and!; try done; [|by rewrite List.filter_app, Hb', Hcl].
    right. by rewrite List.filter_app, Hb.
  - destruct (Hcut ltac:(done) Ht) as [H1 H2]. split_and!; try done; [|by rewrite List.filter_app, Hb', Hcl].
    right. by rewrite List.filter_app, Hb.
Qed.

(** Unloading is not recorded.  The collector is stopped before the extensions
    are cleaned up, so nothing that is tracked of them reaches its buffer or its
    storage, though it is tracked of every extension when [Cleanup] returns. *)
Theorem unloading_not_recorded (pre clean : string → outcome) (order : list (string * Ext)) (names : list string) (m : Mgr) (h : maps) (now : Z) (w : World) :
  collector m = Some (coll w) →
  let '(acts, r, _, _) := Cleanup pre clean true order names m h in
  let w' := foldl (collect now) w acts in
  (r = Finished → Forall (λ e, AUnloaded (ext_name e.2) ∈ acts) order) ∧
  storage (coll w') = storage (coll w) ∧ batchBuffer (coll w') = batchBuffer (coll w) ∧ Collector.recorded w' = Collector.recorded w.
Proof.
  intros Hc. unfold Cleanup, has_collector. rewrite Hc. cbn [is_some_b andb negb app]. unfold cleanupSubsystems. cbn [serviceDiscovery with_stopped].
  assert (has_collector (with_stopped m) = true) as -> by (unfold has_collector; cbn [collector with_stopped]; by rewrite Hc).
  assert (∀ sd, let '(acts, r, _) := cleanupExtensions pre clean true order sd in r = Finished → Forall (λ e, AUnloaded (ext_name e.2) ∈ acts) order) as Hu.
  { induction order as [|e order IH]; intros sd; cbn [cleanupExtensions]; [constructor|]. unfold cleanup_round.
    destruct (pre e.1); [|done..]. destruct (clean e.1); [|done..]. specialize (IH (cleanup_discovery sd e)).
    destruct (cleanupExtensions pre clean true order (cleanup_discovery sd e)) as [[acts r] sd']. intros Hr. constructor.
    - rewrite !elem_of_app. left. right. left. by left.
    - eapply list.Forall_impl; [by apply IH|]. intros x Hx. rewrite elem_of_app. by right. }
  specialize (Hu (serviceDiscovery m)). destruct (cleanupExtensions pre clean true order (serviceDiscovery m)) as [[acts r] sd].
  assert (∀ rest, let w' := foldl (collect now) w (ACancel :: AStopCollector :: rest) in
    storage (coll w') = storage (coll w) ∧ batchBuffer (coll w') = batchBuffer (coll w) ∧ Collector.recorded w' = Collector.recorded w) as Hw.
  { intros rest. cbn [foldl collect]. destruct (collect_stopped now rest (set_coll (set_stopped (coll w)) w)) as [Hv _]; [done|].
    unfold view in Hv. by injection Hv as H1 H2 _ H3. }
  destruct r.
  - destruct (match resourceMonitor (with_stopped m) with Some _ => _ | None => _ end) as [rm h']. split; [|apply Hw].
    intros _. eapply list.Forall_impl; [by apply Hu|]. intros x Hx. do 2 right. rewrite !elem_of_app. by left; left.
  - split; [done|apply Hw].
  - split; [done|apply Hw].
Qed.

(** Cleaning up edits the configuration.  A manager keeps the configurations of
    the plugins in the map of its configuration; with a monitor, when [Cleanup]
    returns that map has none for the extensions there were, and all the others. *)
Theorem cleanup_edits_configuration (pre clean : string → outcome) (stops : bool) (order : list (string * Ext)) (names : list string) (m : Mgr) (h : maps)
    (p : PluginManager) (k : string) :
  names ≡ₚ (map_to_list (exts m)).*1 → pm m = Some p → resourceMonitor m ≠ None → cfg p = x_PluginConfig (conf m) →
  let '(_, r, _, h') := Cleanup pre clean stops order names m h in
  r = Finished → map_at h' (x_PluginConfig (conf m)) !! k = match exts m !! k with Some _ => None | None => map_at h (x_PluginConfig (conf m)) !! k end.
Proof.
  intros Hn Hp Hr Hc. unfold Cleanup. destruct (has_collector m && negb stops); [done|]. unfold cleanupSubsystems.
  destruct (cleanupExtensions _ _ _ _ _) as [[acts r] sd]. destruct r; [|done..]. cbn [resourceMonitor pm with_stopped].
  destruct (resourceMonitor m) as [rm|]; [|done]. rewrite Hp. intros _.
  destruct (x_PluginConfig (conf m)) as [a|]; [|by destruct (exts m !! k)]. rewrite removed_configs by done.
  assert (k ∈ names ↔ is_Some (exts m !! k)) as Hk.
  { rewrite Hn, list_elem_of_fmap. split.
    - intros ([k' e] & -> & He%elem_of_map_to_list). by exists e.
    - intros [e He]. exists (k, e). split; [done|]. by apply elem_of_map_to_list. }
  destruct (exts m !! k) as [e|] eqn:E.
  - rewrite bool_decide_eq_true_2; [done|]. by apply Hk.
  - rewrite bool_decide_eq_false_2; [done|]. rewrite Hk. by intros [? ?].
Qed.

(** The number of registered services.  While the collector runs, the metrics of
    the system say after every update how often the cache was hit and missed, but
    that no service is registered, whatever the cache holds: its report has no
    field of the name that is read. *)
Theorem services_reported_none (mem gor gc now : Z) (counts : Z * Z * Z) (m : Mgr) (w : World) (sd : ServiceDiscovery (A := A)) :
  collector m = Some (coll w) → IsEnabled (coll w) = true → serviceDiscovery m = Some sd →
  let s := Collector.system (coll (updateSystemMetrics mem gor gc now counts m w)) in
  ServicesRegistered s = 0%Z ∧ ServiceCacheHits s = hits (serviceCache sd) ∧ ServiceCacheMisses s = misses (serviceCache sd).
Proof.
  intros Hc He Hs s. subst s. unfold updateSystemMetrics. rewrite Hc, He, Hs. cbn [negb].
  assert (read_int "total" (GetCacheStats counts sd) = 0%Z ∧ read_int64 "cache_hits" (GetCacheStats counts sd) = hits (serviceCache sd) ∧
    read_int64 "cache_misses" (GetCacheStats counts sd) = misses (serviceCache sd)) as (-> & -> & ->).
  { unfold read_int, read_int64, GetCacheStats. cbn [list_to_map].
    repeat (rewrite lookup_insert_ne by done || rewrite lookup_insert_eq). done. }
  assert (∀ t x w, Collector.system (coll (Collector.record t x w)) = Collector.system (coll w)) as Hrec.
  { intros t x w0. unfold Collector.record, storeSnapshotUnsafe. cbn [coll]. unfold accepting, flushUnsafe. by repeat case_match. }
  unfold UpdateServiceDiscoveryMetrics. rewrite !Hrec. done.
Qed.

(** The status of the data layer says nothing of its health: it is "unknown" as
    long as the layer has a collector of its own, and "metrics_unavailable"
    without; its metrics count as enabled exactly with the collector. *)
Theorem data_status_uninformative (with_collector : D → bool) (m : Mgr) :
  getDataLayerStatus (data_stats ∘ with_collector) m =
    match data m with None => "unavailable" | Some d => if with_collector d then "unknown" else "metrics_unavailable" end ∧
  isDataMetricsEnabled (data_stats ∘ with_collector) m = match data m with None => false | Some d => with_collector d end.
Proof. unfold getDataLayerStatus, isDataMetricsEnabled, data_stats, compose. destruct (data m) as [d|]; [|done]. by destruct (with_collector d). Qed.

(** The reports panic exactly while metrics are collected without a configuration
    of their storage. *)
Theorem reports_panic_iff (order : list Ext) (stats : D → gmap string sval) (m : Mgr) :
  let bad := IsMetricsEnabled m = true ∧ ∃ mc, x_Metrics (conf m) = Some mc ∧ storage_conf mc = None in
  (GetMetrics m = Panic ↔ bad) ∧ (GetSystemMetrics stats m = Panic ↔ bad) ∧ (GetComprehensiveMetrics order stats m = Panic ↔ bad).
Proof.
  intros bad. assert (GetMetrics m = Panic ↔ bad) as Hg.
  { unfold GetMetrics, bad. destruct (IsMetricsEnabled m); cbn [negb]; [|by split; [|intros [? _]]].
    destruct (x_Metrics (conf m)) as [mc|]; [|split; [done|by intros (_ & ? & [=] & _)]].
    destruct (storage_conf mc) eqn:E; split; try done; [intros (_ & ? & [= <-] & ?); congruence|]. intros _. split; [done|]. by exists mc. }
  assert (∀ (B : Type) (k : gmap string sval → res () B), (∀ x, k x ≠ Panic) → rbind (GetMetrics m) k = Panic ↔ GetMetrics m = Panic) as Hb.
  { intros B k Hk. destruct (GetMetrics m); cbn [rbind]; [|done..]. split; [intros H1; by apply Hk in H1|done]. }
  split_and!; [done|..].
  - unfold GetSystemMetrics. by rewrite Hb.
  - unfold GetComprehensiveMetrics. by rewrite Hb.
Qed.
End Manager.

(** The storage of the collector is upgraded exactly while it is enabled, for the
    types "redis" and "auto", when the data layer has a client that answers; the
    key prefix and the retention time have defaults. *)
Theorem storage_upgraded_iff (conf : ExtConf) (c : Collector) (redis : redis_value) (prefix : string) (retention : Z) :
  upgradeMetricsStorageIfAvailable conf (Some c) redis = Some (prefix, retention) ↔
  IsEnabled c = true ∧ redis = RedisClient true ∧
  ∃ mc ty p, x_Metrics conf = Some mc ∧ storage_conf mc = Some (ty, p) ∧ (ty = "redis" ∨ ty = "auto") ∧
    prefix = (if String.eqb p "" then "ncore_ext" else p) ∧ retention = default week (retention_conf mc).
Proof.
  unfold upgradeMetricsStorageIfAvailable. destruct (IsEnabled c); cbn [negb]; [|by split; [|intros [? _]]].
  destruct (x_Metrics conf) as [mc|]; [|split; [done|by intros (_ & _ & ? & ? & ? & [=] & _)]].
  destruct (storage_conf mc) as [[ty p]|] eqn:E; [|split; [done|intros (_ & _ & ? & ? & ? & [= <-] & ? & _); congruence]].
  destruct (negb (String.eqb ty "redis") && negb (String.eqb ty "auto")) eqn:Et.
  - split; [done|]. intros (_ & _ & mc' & ty' & p' & [= <-] & E' & Hty & _). rewrite E in E'. injection E' as <- <-. exfalso. destruct Hty as [->| ->]; done.
  - assert (ty = "redis" ∨ ty = "auto") as Hty.
    { apply andb_false_iff in Et as [Et|Et]; apply negb_false_iff, String.eqb_eq in Et; auto. }
    split.
    + destruct redis as [| |[]]; try done. intros [= <- <-]. split_and!; [done..|]. by exists mc, ty, p.
    + intros (_ & -> & mc' & ty' & p' & [= <-] & E' & _ & -> & ->). rewrite E in E'. by injection E' as <- <-.
Qed.

(** The configurations of the plugins are one map, shared with the configuration
    they come from: what is set or removed is read back there, and nowhere else.
    A manager made without a map makes one of its own. *)
Theorem plugin_configs_shared {V : Type} (p : PluginManager) (h : gmap nat (gmap string V)) (name k : string) (v : V) :
  (∀ a, cfg p = Some a → is_Some (h !! a)) →
  let '(p', h') := SetPluginConfig name v p h in
  GetPluginConfig k p' h' = (if decide (k = name) then Some v else GetPluginConfig k p h) ∧
  GetPluginConfig k p (RemovePluginConfig name p h) = (if decide (k = name) then None else GetPluginConfig k p h) ∧
  (cfg p ≠ None → cfg p' = cfg p) ∧ (∀ a, is_Some (h !! a) → cfg p ≠ Some a → h' !! a = h !! a) ∧ GetMaxPlugins p' = GetMaxPlugins p.
Proof.
  intros Ha. unfold SetPluginConfig, RemovePluginConfig, GetPluginConfig, GetMaxPlugins, map_at. destruct (cfg p) as [a|] eqn:E; cbn [mbind option_bind].
  - destruct (Ha a eq_refl) as [mp Hmp]. rewrite E. cbn [mbind option_bind]. rewrite !lookup_alter_eq, Hmp. cbn [default from_option fmap option_fmap option_map id].
    split_and!; [| |done| |done].
    + destruct (decide (k = name)) as [->|]; [by rewrite lookup_insert_eq|by rewrite lookup_insert_ne].
    + destruct (decide (k = name)) as [->|]; [by rewrite lookup_delete_eq|by rewrite lookup_delete_ne].
    + intros a' _ Hne. rewrite lookup_alter_ne; [done|congruence].
  - cbn [cfg maxPlugins mbind option_bind]. rewrite lookup_insert_eq. cbn [default from_option id]. split_and!; [| |done| |done].
    + destruct (decide (k = name)) as [->|]; [by rewrite lookup_singleton_eq|by rewrite lookup_singleton_ne].
    + by destruct (decide (k = name)).
    + intros a' Ha' _. rewrite lookup_insert_ne; [done|]. intros <-. apply (is_fresh (dom h)). by apply elem_of_dom.
Qed.

(** *** At concrete inputs *)

Definition demo_ext (name : string) : Ext := mkExt name "active" true None None.
Definition demo_conf : ExtConf := mkExtConf (Some (mkMetricsConf (mkMC true None 3) None None)) None (Some (mkPerf 100 50)) (Some 5%nat) 0.
Definition demo_collector : Collector :=
  mkColl ∅ (mkSys 0 0 0 0 0 0) (Some NewMemoryStorage) true false [] 3 0 true true.
Definition demo_sd : ServiceDiscovery (A := gmap string AgentService) := NewServiceDiscovery demo_agent.
Definition demo_mgr : Mgr (A := gmap string AgentService) (D := ()) :=
  mkMgr demo_conf {["shop" := demo_ext "shop"]} true false (Some demo_sd) true false ∅ ∅ (Some tt) (Some demo_collector) None false
    (Some (NewResourceMonitor (mkPerf 100 50))) (Some (NewPluginManager (Some 5%nat) 0)).
Definition demo_maps : gmap nat (gmap string nat) := {[5%nat := {["shop" := 1%nat; "mail" := 2%nat]}]}.

(** Two extensions, of which one returns an error and the other panics. *)
Definition demo_two : Mgr (A := gmap string AgentService) (D := ()) :=
  mkMgr demo_conf {["shop" := demo_ext "shop"; "mail" := demo_ext "mail"]} true false (Some demo_sd) true false ∅ ∅ (Some tt) (Some demo_collector) None false
    (Some (NewResourceMonitor (mkPerf 100 50))) (Some (NewPluginManager (Some 5%nat) 0)).
Definition demo_order : list (string * Ext) := map_to_list {["shop" := demo_ext "shop"; "mail" := demo_ext "mail"]}.
Definition fine (n : string) : outcome := Returned (String.eqb n "mail").
Definition panics_at (x : string) (n : string) : outcome := if String.eqb n x then Panics else Returned false.

Lemma cleanup_exact_witness :
  (Cleanup fine fine true demo_order ["shop"; "mail"] demo_two demo_maps).1.1.2 = Finished ∧
  NoDup (List.filter is_extension_action (Cleanup fine (panics_at "shop") true demo_order ["shop"; "mail"] demo_two demo_maps).1.1.1) ∧
  (Cleanup fine (panics_at "shop") true demo_order ["shop"; "mail"] demo_two demo_maps).1.1.2 = Panicked.
Proof.
  split; [vm_compute; reflexivity|]. split; [|vm_compute; reflexivity].
  pose proof (cleanup_exact fine (panics_at "shop") true demo_order ["shop"; "mail"] demo_two demo_maps (reflexivity _)) as H.
  destruct (Cleanup fine (panics_at "shop") true demo_order ["shop"; "mail"] demo_two demo_maps) as [[[acts r] m'] h']. exact (proj1 H).
Defined.

Lemma unloading_not_recorded_witness :
  let w := new_world demo_collector in
  let w' := foldl (collect 9) w (Cleanup fine fine true demo_order ["shop"; "mail"] demo_two demo_maps).1.1.1 in
  storage (coll w') = storage (coll w) ∧ batchBuffer (coll w') = batchBuffer (coll w) ∧ Collector.recorded w' = Collector.recorded w.
Proof.
  intros w w'. pose proof (unloading_not_recorded fine fine demo_order ["shop"; "mail"] demo_two demo_maps 9 w eq_refl) as H. subst w'.
  destruct (Cleanup fine fine true demo_order ["shop"; "mail"] demo_two demo_maps) as [[[acts r] m'] h']. exact (proj2 H).
Defined.

Lemma cleanup_edits_configuration_witness :
  map_at (Cleanup fine fine true [("shop", demo_ext "shop")] ["shop"] demo_mgr demo_maps).2 (Some 5%nat) !! "shop" = None.
Proof.
  pose proof (cleanup_edits_configuration fine fine true [("shop", demo_ext "shop")] ["shop"] demo_mgr demo_maps (NewPluginManager (Some 5%nat) 0) "shop") as H.
  specialize (H ltac:(reflexivity) ltac:(reflexivity) ltac:(discriminate) ltac:(reflexivity)).
  exact (H eq_refl).
Defined.

Lemma services_reported_none_witness :
  ServicesRegistered (Collector.system (coll (updateSystemMetrics 1 2 3 9 (4, 0, 0)%Z demo_mgr (new_world demo_collector)))) = 0%Z.
Proof. apply (services_reported_none 1 2 3 9 (4, 0, 0)%Z demo_mgr (new_world demo_collector) demo_sd); reflexivity. Defined.

Lemma plugin_configs_shared_witness :
  GetPluginConfig "mail" (NewPluginManager (Some 5%nat) 0) (SetPluginConfig "shop" 7%nat (NewPluginManager (Some 5%nat) 0) demo_maps).2 = Some 2%nat.
Proof.
  destruct (plugin_configs_shared (NewPluginManager (Some 5%nat) 0) demo_maps "shop" "mail" 7%nat) as [H _]; [|exact H].
  intros a [= <-]. by eexists.
Defined.
