(* ===== verification/Convert.v ===== *)
(** * Conversions

    Models src/utils/convert: type.go, numeric.go, json.go, map.go and the parts
    of time.go that do not depend on a time zone.  A value of type any is an
    [any]; maps and slices of values are what encoding/json makes and takes, so
    that a map is a list of members with distinct keys.  [fmt.Sprintf] with %v of
    what is no string, number or boolean is an argument, and so is the reading of
    times. *)

From stdpp Require Import base tactics option list gmap strings numbers pretty sorting.
From Stdlib Require Import ZArith Ascii Lia SpecFloat.
From S2P Require Import Prelude Float64 Base64 Lexer GoStrings Json FloatText MetricsStore ManagerHttp.

Open Scope string_scope.

(** ** Values *)

Inductive any :=
| ANil | AString (s : string) | ABool (b : bool) | AInt (z : Z) | AInt64 (z : Z) | AFloat (f : float64)
| AMap (l : list (string * any)) | ASlice (l : list any) | ANilMap | ANilSlice | AOther (n : nat).

Inductive convert_error :=
| EFormat (value : string) | EUnsupported (ty : string) | ECannot | ERange | EElement (index : nat) | EMarshal | EUnmarshal.

(** A member of a map, the last of its key. *)
Definition set_key {A} (k : string) (v : A) (l : list (string * A)) : list (string * A) :=
  (List.filter (λ m, negb (String.eqb m.1 k)) l ++ [(k, v)])%list.

(** [json.Unmarshal] into a value of type any. *)
Fixpoint of_json (j : json) : option any :=
  match j with
  | JNull => Some ANil
  | JBool b => Some (ABool b)
  | JNum lit => AFloat <$> ParseFloat lit
  | JStr s => Some (AString s)
  | JArr l => ASlice <$> mapM of_json l
  | JObj l => ms ← mapM (λ m, v ← of_json m.2; Some (m.1, v)) l; Some (AMap (foldl (λ acc m, set_key m.1 m.2 acc) [] ms))
  end.

(** A float in JSON: without an exponent from 1e-6 up to 1e21, and with the
    shortest exponent otherwise. *)
Definition clean_exponent (s : string) : string :=
  let n := String.length s in
  match str_drop (n - 4) s with
  | String "e" (String "-" (String "0" (String d EmptyString))) => String.substring 0 (n - 2) s +:+ String d ""
  | _ => s
  end.
Definition json_float (f : float64) : option string :=
  match f with
  | S754_nan | S754_infinity _ => None
  | _ =>
      let a := f_abs f in
      let small := match ParseFloat "1e-6" with Some x => f_ltb a x | None => false end in
      let large := match ParseFloat "1e21" with Some x => f_leb x a | None => false end in
      Some (if negb (f_eqb a f_zero) && (small || large) then clean_exponent (FormatFloat format_e "0e+00" f) else FormatFloat_f f)
  end.

(** [json.Marshal]; a value of another type has no JSON here. *)
Fixpoint to_json (v : any) : option json :=
  match v with
  | ANil | ANilMap | ANilSlice => Some JNull
  | AString s => Some (JStr s)
  | ABool b => Some (JBool b)
  | AInt z | AInt64 z => Some (JNum (pretty z))
  | AFloat f => JNum <$> json_float f
  | AMap l => ms ← mapM (λ m, j ← to_json m.2; Some (m.1, j)) l; Some (JObj (merge_sort entry_le ms))
  | ASlice l => JArr <$> mapM to_json l
  | AOther _ => None
  end.

(** ** numeric.go *)

Definition Int64ToInt (n : Z) : res convert_error Z := if (max_int64 <? n)%Z || (n <? min_int64)%Z then Err ERange else Ok n.
Definition IntToInt64 (n : Z) : Z := n.
Definition IntToString (n : Z) : string := pretty n.
Definition Int64ToString (n : Z) : string := pretty n.
Definition Float64ToString (n : float64) : string := FormatFloat_f n.
Definition parsed {A} (o : option A) (s : string) : res convert_error A := of_opt o (EFormat s).
Definition StringToInt (s : string) : res convert_error Z := parsed (ParseInt s) s.
Definition StringToInt64 (s : string) : res convert_error Z := parsed (ParseInt s) s.
Definition StringToFloat64 (s : string) : res convert_error float64 := parsed (ParseFloat s) s.
(** [strconv.ParseInt(s, 10, 32)]: out of range as an error. *)
Definition StringToInt32 (s : string) : res convert_error Z :=
  parsed (n ← ParseInt s; if (- 2 ^ 31 <=? n)%Z && (n <? 2 ^ 31)%Z then Some n else None) s.
Definition Max (a b : Z) : Z := if (b <? a)%Z then a else b.
Definition Min (a b : Z) : Z := if (a <? b)%Z then a else b.

(** ** type.go *)

Definition true_texts : list string := ["true"; "1"; "yes"; "on"].
Definition false_texts : list string := ["false"; "0"; "no"; "off"].
Definition is_text (l : list string) (s : string) : bool := existsb (String.eqb s) l.

(** [json.Unmarshal] into a map or a slice; null makes it nil. *)
Definition unmarshal_map (s : string) : option (option (list (string * any))) :=
  j ← decode s; v ← of_json j; match v with AMap l => Some (Some l) | ANil => Some None | _ => None end.
Definition unmarshal_slice (s : string) : option (option (list any)) :=
  j ← decode s; v ← of_json j; match v with ASlice l => Some (Some l) | ANil => Some None | _ => None end.
Definition map_value (m : option (list (string * any))) : any := match m with Some l => AMap l | None => ANilMap end.
Definition slice_value (m : option (list any)) : any := match m with Some l => ASlice l | None => ANilSlice end.

(** [int64(f)] on amd64: what does not fit is the least int64. *)
Definition int64_of_float (f : float64) : Z :=
  match f with
  | S754_nan | S754_infinity _ => min_int64
  | _ => let n := f_to_int64 f in if (min_int64 <=? n)%Z && (n <=? max_int64)%Z then n else min_int64
  end.

Definition ConvertValue (typeStr value : string) : res convert_error any :=
  if String.eqb typeStr "string" then Ok (AString value)
  else if String.eqb typeStr "number" then
    match ParseFloat value with
    | Some f => if f_eqb (f_of_Z (int64_of_float f)) f then Ok (AInt64 (int64_of_float f)) else Ok (AFloat f)
    | None => Err (EFormat value)
    end
  else if String.eqb typeStr "boolean" then
    if is_text true_texts value then Ok (ABool true) else if is_text false_texts value then Ok (ABool false) else Err (EFormat value)
  else if String.eqb typeStr "object" then match unmarshal_map value with Some m => Ok (map_value m) | None => Err EUnmarshal end
  else if String.eqb typeStr "array" then match unmarshal_slice value with Some l => Ok (slice_value l) | None => Err EUnmarshal end
  else Err (EUnsupported typeStr).

Definition IsValidType (typeStr : string) : bool := is_text ["string"; "number"; "boolean"; "object"; "array"] typeStr.

Definition FormatBool (b : bool) : string := if b then "true" else "false".

Definition ToInt (v : any) : res convert_error Z :=
  match v with
  | AInt z | AInt64 z => Ok z
  | AFloat f => Ok (int64_of_float f)
  | AString s => parsed (ParseInt s) s
  | ABool b => Ok (if b then 1 else 0)%Z
  | _ => Err ECannot
  end.
Definition ToFloat (v : any) : res convert_error float64 :=
  match v with
  | AFloat f => Ok f
  | AInt z | AInt64 z => Ok (f_of_Z z)
  | AString s => parsed (ParseFloat s) s
  | ABool b => Ok (if b then f_of_Z 1 else f_zero)
  | _ => Err ECannot
  end.
Definition ToBool (v : any) : res convert_error bool :=
  match v with
  | ABool b => Ok b
  | AInt z | AInt64 z => Ok (negb (z =? 0)%Z)
  | AFloat f => Ok (negb (f_eqb f f_zero))
  | AString s =>
      if is_text true_texts s then Ok true else if is_text (false_texts ++ [""])%list s then Ok false else Err (EFormat s)
  | _ => Err ECannot
  end.
(** The map or slice itself is returned, not a copy. *)
Definition ToObject (v : any) : res convert_error any :=
  match v with
  | AMap l => Ok (AMap l)
  | ANilMap => Ok ANilMap
  | AString s => match unmarshal_map s with Some m => Ok (map_value m) | None => Err EUnmarshal end
  | _ => Err ECannot
  end.
Definition ToArray (v : any) : res convert_error any :=
  match v with
  | ASlice l => Ok (ASlice l)
  | ANilSlice => Ok ANilSlice
  | AString s => match unmarshal_slice s with Some l => Ok (slice_value l) | None => Err EUnmarshal end
  | _ => Err ECannot
  end.

(** Arrays of one type. *)
Inductive array :=
| Strings (l : list string) | Ints (l : list Z) | Int64s (l : list Z) | Floats (l : list float64) | Bools (l : list bool) | Anys (l : list any).

Section Format.
(** [fmt.Sprintf("%v", v)]. *)
Context (format_v : any → string).

Definition ToString (v : any) : string :=
  match v with
  | ANil => ""
  | AString s => s
  | ABool b => FormatBool b
  | AInt z | AInt64 z => pretty z
  | AFloat f => FormatFloat_f f
  | AMap _ | ASlice _ | ANilMap | ANilSlice => match to_json v with Some j => encode j | None => format_v v end
  | AOther _ => format_v v
  end.

(** What [ToStringArray] is given: nil, an array of one type, or another value
    with the JSON it has, if any. *)
Inductive array_arg := NoArray | Array (a : array) | OtherArray (j : option json).
Definition strings_of (a : array) : list string :=
  match a with
  | Strings l => l | Ints l => IntToString <$> l | Int64s l => Int64ToString <$> l | Floats l => FormatFloat_f <$> l
  | Bools l => FormatBool <$> l | Anys l => ToString <$> l
  end.
Definition ToStringArray (arr : array_arg) : option (list string) :=
  match arr with
  | NoArray => None
  | Array a => Some (strings_of a)
  | OtherArray (Some j) =>
      match of_json j with Some (ASlice l) => Some (strings_of (Anys l)) | Some ANil => Some [] | _ => Some [] end
  | OtherArray None => Some []
  end.
End Format.

(** The elements, converted one by one; the first that fails is named. *)
Fixpoint convert_elements {A} (convert : string → res convert_error A) (i : nat) (arr : list string) : res convert_error (list A) :=
  match arr with
  | [] => Ok []
  | val :: arr' =>
      match convert val with
      | Ok x => rbind (convert_elements convert (S i) arr') (λ l, Ok (x :: l))
      | _ => Err (EElement i)
      end
  end.
Definition FromStringArray (arr : option (list string)) (targetType : string) : res convert_error (option array) :=
  match arr with
  | None => Ok None
  | Some arr =>
      if String.eqb targetType "string" then Ok (Some (Strings arr))
      else if String.eqb targetType "int" then rbind (convert_elements StringToInt 0 arr) (λ l, Ok (Some (Ints l)))
      else if String.eqb targetType "int64" then rbind (convert_elements StringToInt64 0 arr) (λ l, Ok (Some (Int64s l)))
      else if String.eqb targetType "float64" then rbind (convert_elements StringToFloat64 0 arr) (λ l, Ok (Some (Floats l)))
      else if String.eqb targetType "bool" then rbind (convert_elements (λ s, ToBool (AString s)) 0 arr) (λ l, Ok (Some (Bools l)))
      else Err (EUnsupported targetType)
  end.

(** The type parameter of [ToTypedArray]. *)
Inductive target := TString | TInt | TInt64 | TFloat64 | TBool | TOther.
Definition ToTypedArray (T : target) (arr : option (list string)) : res convert_error (option array) :=
  match arr with
  | None => Ok None
  | Some arr =>
      match T with
      | TString => Ok (Some (Strings arr))
      | TInt => rbind (convert_elements StringToInt 0 arr) (λ l, Ok (Some (Ints l)))
      | TInt64 => rbind (convert_elements StringToInt64 0 arr) (λ l, Ok (Some (Int64s l)))
      | TFloat64 => rbind (convert_elements StringToFloat64 0 arr) (λ l, Ok (Some (Floats l)))
      | TBool => rbind (convert_elements (λ s, ToBool (AString s)) 0 arr) (λ l, Ok (Some (Bools l)))
      | TOther => Err (EUnsupported "")
      end
  end.

(** ** json.go *)

(** The JSON text of a value, and a value read from a text by [read]; an empty
    text leaves the target [old] alone. *)
Definition ToJSON (v : any) : res convert_error string :=
  match v with
  | ANil => Ok ""
  | _ => match to_json v with Some j => Ok (encode j) | None => Err EMarshal end
  end.
Definition StringifyJSON (v : any) : string := match ToJSON v with Ok s => s | _ => "" end.
Definition MustToJSON (v : any) : res convert_error string := match ToJSON v with Err _ => Panic | r => r end.

Section FromJSON.
(** [json.Unmarshal(data, v)] for the type of [v]: the new target, and what is
    left of the old one when it fails. *)
Context {T : Type} (unmarshal : T → string → T + T).

Definition JSONUnmarshal (s : string) (old : T) : bool * T := match unmarshal old s with inl v => (true, v) | inr v => (false, v) end.
Definition FromJSON (s : string) (old : T) : option convert_error * T :=
  if String.eqb s "" then (None, old)
  else match unmarshal old s with inl v => (None, v) | inr v => (Some EUnmarshal, v) end.
Definition ParseJSON (s : string) (old : T) : bool * T := let '(e, v) := FromJSON s old in (negb (from_option (λ _, true) false e), v).
Definition MustFromJSON (s : string) (old : T) : res convert_error T := let '(e, v) := FromJSON s old in match e with Some _ => Panic | None => Ok v end.
Definition FromJSONMap (m : any) (old : T) : option convert_error * T :=
  match m with
  | ANilMap => (None, old)
  | _ =>
      match to_json m with
      | None => (Some EMarshal, old)
      | Some j => match unmarshal old (encode j) with inl v => (None, v) | inr v => (Some EUnmarshal, v) end
      end
  end.
End FromJSON.

(** A map as it is, and another value through its JSON; the JSON null leaves a
    nil map. *)
Definition ToJSONMap (v : any) : res convert_error any :=
  match v with
  | ANil => Ok ANilMap
  | AMap _ | ANilMap => Ok v
  | _ =>
      match to_json v with
      | None => Err EMarshal
      | Some j => match unmarshal_map (encode j) with Some m => Ok (map_value m) | None => Err EUnmarshal end
      end
  end.

(** ** map.go *)

Definition ToSyncMap {T} (m : gmap string T) : gmap string T := map_fold (λ k v sm, <[k := v]> sm) ∅ m.
(** A sync.Map has keys and values of any type; the ones that fit are kept. *)
Definition FromSyncMap {K V T} (key : K → option string) (value : V → option T) (sm : list (K * V)) : gmap string T :=
  foldl (λ m kv, match key kv.1, value kv.2 with Some k, Some v => <[k := v]> m | _, _ => m end) ∅ sm.

(** ** pointer.go *)

Definition ToPointer {T} (v : T) : option T := Some v.
Definition ToValue {T} (v : option T) : res convert_error T := match v with Some x => Ok x | None => Panic end.

(** ** time.go *)

Definition timeLayout : string := "2006-01-02 15:04:05".
Definition timeFormats : list string :=
  ["2006-01"; "2006-01-02"; "2006-01-02 15:04:05"; "2006.01"; "2006.01.02"; "2006.01.02 15:04:05"; "2006/01"; "2006/01/02"; "2006/01/02 15:04:05";
   "200601"; "20060102"; "20060102150405"; "2006-01-02T15:04:05Z"; "Mon Jan _2 15:04:05 2006"; "Mon Jan _2 15:04:05 MST 2006";
   "Mon Jan 02 15:04:05 -0700 2006"; "02 Jan 06 15:04 MST"; "02 Jan 06 15:04 -0700"; "Monday, 02-Jan-06 15:04:05 MST";
   "Mon, 02 Jan 2006 15:04:05 MST"; "Mon, 02 Jan 2006 15:04:05 -0700"; "2006-01-02T15:04:05Z07:00"; "2006-01-02T15:04:05.999999999Z07:00";
   "3:04PM"; "Jan _2 15:04:05"; "Jan _2 15:04:05.000"; "Jan _2 15:04:05.000000"; "Jan _2 15:04:05.000000000"].

Definition millisecond : Z := 1000000.
Definition UnixMilli (t : Z) : Z := (t / millisecond)%Z.
Definition UnixMilliToTime (i : option Z) : option Z := (λ ms, ms * millisecond)%Z <$> i.
Definition UnixSecToTime (sec : Z) : Z := (sec * second)%Z.

(** [n.Int64()] with the error dropped: the nearest int64 of a number out of
    range, and 0 of a text that is no integer. *)
Definition Int64_value (s : string) : Z :=
  match ParseInt s with
  | Some n => n
  | None =>
      let '(neg, body) :=
        match s with
        | String c s' => if Ascii.eqb c "-" then (true, s') else if Ascii.eqb c "+" then (false, s') else (false, s)
        | EmptyString => (false, s)
        end in
      if String.eqb body "" then 0%Z
      else match read_digits body 0 with Some _ => if neg then min_int64 else max_int64 | None => 0%Z end
  end.
Inductive milli_arg := MFloat (f : float64) | MNumber (s : string) | MOther.
Definition ToUnixMilli (v : milli_arg) : Z :=
  match v with MFloat f => int64_of_float f | MNumber s => Int64_value s | MOther => 0%Z end.

Section Times.
(** [time.ParseInLocation] in the local zone, [t.Format], [time.Parse] with
    RFC3339, and 23:59:59 of the local day of an instant. *)
Context (parse_in : string → string → option Z) (format_time : string → Z → string) (parse_rfc3339 : string → option Z) (end_of_day : Z → Z).

Fixpoint first_parse (formats : list string) (str : string) : option Z :=
  match formats with
  | [] => None
  | format :: formats' => match parse_in format str with Some t => Some t | None => first_parse formats' str end
  end.
Definition ParseLocalTime (str : string) : res convert_error Z := parsed (first_parse timeFormats str) str.
Definition ParseTimePtr (timeStr : string) : option Z := match ParseLocalTime timeStr with Ok t => Some t | _ => None end.

Definition layout_of (layout : list string) : string :=
  match layout with l :: _ => if String.eqb l "" then timeLayout else l | [] => timeLayout end.
Definition FormatTime (t : option Z) (layout : list string) : option string := format_time (layout_of layout) <$> t.
Definition UnixMilliToString (t : option Z) (layout : list string) : option string := format_time (layout_of layout) <$> UnixMilliToTime t.

(** A nil time leaves the zero time. *)
Inductive day_arg := DString (s : string) | DTime (t : option Z) | DOther.
Definition AdjustToEndOfDay (value : day_arg) : res convert_error Z :=
  match value with
  | DString v => rbind (parsed (parse_rfc3339 v) v) (λ t, Ok (UnixMilli (end_of_day t)))
  | DTime (Some t) => Ok (UnixMilli (end_of_day t))
  | DTime None => Ok (UnixMilli zero_time)
  | DOther => Err ECannot
  end.
End Times.

(** ** Properties *)

Lemma convert_elements_ok {A} (convert : string → res convert_error A) i arr xs :
  Forall2 (λ s x, convert s = Ok x) arr xs → convert_elements convert i arr = Ok xs.
Proof. intros H. revert i. induction H as [|s x arr xs Hx _ IH]; intros i; [done|]. cbn. by rewrite Hx, IH. Qed.

Lemma convert_elements_texts {A} (convert : string → res convert_error A) (text : A → string) i xs :
  Forall (λ x, convert (text x) = Ok x) xs → convert_elements convert i (text <$> xs) = Ok xs.
Proof. intros H. apply convert_elements_ok. induction H; constructor; auto. Qed.

Lemma convert_elements_inv {A} (convert : string → res convert_error A) i arr : (∀ s, convert s = Panic → False) → (∀ s, convert s = NoFuel → False) →
  (∃ xs, convert_elements convert i arr = Ok xs ∧ Forall2 (λ s x, convert s = Ok x) arr xs) ∨
  (∃ k s e, convert_elements convert i arr = Err (EElement (i + k)) ∧ arr !! k = Some s ∧ convert s = Err e ∧
    Forall (λ s', ∃ x, convert s' = Ok x) (take k arr)).
Proof.
  intros Hp Hn. revert i. induction arr as [|s arr IH]; intros i; [left; exists []; split; [done|constructor]|].
  cbn [convert_elements]. destruct (convert s) as [x|e| |] eqn:Hs; [|right|by apply Hp in Hs|by apply Hn in Hs].
  - destruct (IH (S i)) as [(xs & -> & Hxs)|(k & s' & e & -> & Hk & He & Hpre)].
    + left. exists (x :: xs). split; [done|by constructor].
    + right. exists (S k), s', e. rewrite Nat.add_succ_r. repeat split; try done. cbn. constructor; eauto.
  - exists 0, s, e. rewrite Nat.add_0_r. by repeat split.
Qed.

Lemma parsed_no_panic {A} (o : option A) s : (parsed o s = Panic → False) ∧ (parsed o s = NoFuel → False).
Proof. by destruct o. Qed.
Lemma ToBool_no_panic v : (ToBool v = Panic → False) ∧ (ToBool v = NoFuel → False).
Proof. destruct v; cbn; try done; repeat case_match; done. Qed.

(** The name of the type of an array, and the arrays whose texts are read back. *)
Definition type_name (a : array) : string :=
  match a with Strings _ => "string" | Ints _ => "int" | Int64s _ => "int64" | Floats _ => "float64" | Bools _ => "bool" | Anys _ => "any" end.
Definition int64 (z : Z) : Prop := (min_int64 ≤ z ≤ max_int64)%Z.
Definition typed (a : array) : Prop :=
  match a with
  | Strings _ | Bools _ => True
  | Ints l | Int64s l => Forall int64 l
  | Floats l => Forall (λ f, ParseFloat (FormatFloat_f f) = Some f) l
  | Anys _ => False
  end.

Lemma read_elements {A} (o : string → option A) text i xs :
  Forall (λ x, o (text x) = Some x) xs → convert_elements (λ s, parsed (o s) s) i (text <$> xs) = Ok xs.
Proof. intros H. apply convert_elements_texts. eapply Forall_impl; [exact H|]. intros x Hx. cbn. by rewrite Hx. Qed.

Lemma read_ints i l : Forall int64 l → convert_elements StringToInt i (IntToString <$> l) = Ok l.
Proof. intros H. apply (read_elements ParseInt). eapply Forall_impl; [exact H|]. intros z Hz. by apply ParseInt_pretty. Qed.

Lemma read_bools i l : convert_elements (λ s, ToBool (AString s)) i (FormatBool <$> l) = Ok l.
Proof. apply convert_elements_texts. apply Forall_true. by intros []. Qed.

(** An array of strings, integers, booleans or floating-point numbers printed by
    [ToStringArray] is read back by [FromStringArray] under the name of its type:
    every int64 and int, and every float whose text reads back. *)
Theorem string_array_roundtrip format_v a : typed a →
  ∃ ss, ToStringArray format_v (Array a) = Some ss ∧ FromStringArray (Some ss) (type_name a) = Ok (Some a).
Proof.
  intros Ha. exists (strings_of format_v a). split; [done|]. destruct a as [l|l|l|l|l|l]; cbn [typed] in Ha; [done| | | | |done]; cbn [strings_of type_name].
  - unfold FromStringArray. cbn [String.eqb Ascii.eqb Bool.eqb]. by rewrite (read_ints 0 l Ha).
  - unfold FromStringArray. cbn [String.eqb Ascii.eqb Bool.eqb]. pose proof (read_ints 0 l Ha) as H. unfold StringToInt, IntToString in H.
    unfold StringToInt64, Int64ToString. by rewrite H.
  - unfold FromStringArray. cbn [String.eqb Ascii.eqb Bool.eqb].
    pose proof (read_elements ParseFloat FormatFloat_f 0 l Ha) as H. unfold StringToFloat64. by rewrite H.
  - unfold FromStringArray. cbn [String.eqb Ascii.eqb Bool.eqb]. by rewrite (read_bools 0 l).
Qed.
Lemma string_array_roundtrip_witness :
  ToStringArray (λ _, "?") (Array (Ints [max_int64; -5; 0]%Z)) = Some ["9223372036854775807"; "-5"; "0"] ∧
  FromStringArray (Some ["9223372036854775807"; "-5"; "0"]) "int" = Ok (Some (Ints [max_int64; -5; 0]%Z)).
Proof.
  destruct (string_array_roundtrip (λ _, "?") (Ints [max_int64; -5; 0]%Z)) as (ss & Hs & Hr).
  - repeat (constructor; [split; vm_compute; discriminate|]). constructor.
  - assert (ToStringArray (λ _, "?") (Array (Ints [max_int64; -5; 0]%Z)) = Some ["9223372036854775807"; "-5"; "0"]) as H by (vm_compute; reflexivity).
    rewrite H in Hs. injection Hs as <-. split; [exact H|exact Hr].
Defined.

Definition target_name (T : target) : string :=
  match T with TString => "string" | TInt => "int" | TInt64 => "int64" | TFloat64 => "float64" | TBool => "bool" | TOther => "" end.
(** The generic [ToTypedArray] and [FromStringArray] with the name of the type
    do the same, errors included. *)
Theorem typed_array_equiv T arr : ToTypedArray T arr = FromStringArray arr (target_name T).
Proof. by destruct arr as [arr|], T. Qed.

(** An array of numbers is read as far as its first element that is no number:
    either every element is read, or the error names the first one that is not. *)
Theorem first_bad_element arr :
  (∃ xs, FromStringArray (Some arr) "int" = Ok (Some (Ints xs)) ∧ Forall2 (λ s x, ParseInt s = Some x) arr xs) ∨
  (∃ k s, FromStringArray (Some arr) "int" = Err (EElement k) ∧ arr !! k = Some s ∧ ParseInt s = None ∧
    Forall (λ s', is_Some (ParseInt s')) (take k arr)).
Proof.
  assert (∀ s x, StringToInt s = Ok x ↔ ParseInt s = Some x) as Hok.
  { intros s x. unfold StringToInt, parsed. destruct (ParseInt s); cbn; split; congruence. }
  unfold FromStringArray. cbn [String.eqb Ascii.eqb Bool.eqb].
  destruct (convert_elements_inv StringToInt 0 arr) as [(xs & -> & H)|(k & s & e & -> & Hk & He & H)];
    [intros s; apply parsed_no_panic|intros s; apply parsed_no_panic|left|right].
  - exists xs. split; [done|]. eapply Forall2_impl; [exact H|]. intros. by apply Hok.
  - exists k, s. repeat split; [done| |].
    + unfold StringToInt, parsed in He. by destruct (ParseInt s).
    + eapply Forall_impl; [exact H|]. intros s' [x Hx]. exists x. by apply Hok.
Qed.

(** The texts of [ConvertValue] and [ToBool] for booleans: [ToBool] takes the
    empty text as false, [ConvertValue] takes it as an error, and they agree on
    every other text. *)
Theorem boolean_texts s :
  ConvertValue "boolean" s =
    if String.eqb s "" then Err (EFormat s) else match ToBool (AString s) with Ok b => Ok (ABool b) | Err e => Err e | _ => Panic end.
Proof.
  unfold ConvertValue, ToBool. cbn [String.eqb Ascii.eqb Bool.eqb].
  assert (is_text (false_texts ++ [""])%list s = is_text false_texts s || String.eqb s "") as ->.
  { unfold is_text. rewrite existsb_app. f_equal. apply orb_false_r. }
  destruct (String.eqb_spec s "") as [->|]; [done|]. rewrite orb_false_r. by repeat case_match.
Qed.

(** [StringToInt32] reads the int64 that fit in 32 bits and refuses the others,
    and [Int64ToInt] refuses none. *)
Theorem narrow_ints s n : (StringToInt32 s = Ok n ↔ StringToInt64 s = Ok n ∧ (- 2 ^ 31 ≤ n < 2 ^ 31)%Z) ∧ (int64 n → Int64ToInt n = Ok n).
Proof.
  split.
  - unfold StringToInt32, StringToInt64, parsed. destruct (ParseInt s) as [m|]; cbn [mbind option_bind of_opt]; [|split; [done|intros [H _]; done]].
    destruct (Z.leb_spec (- 2 ^ 31) m), (Z.ltb_spec m (2 ^ 31)); cbn [andb of_opt]; split; try done.
    all: first [intros [= ->]; split; [done|lia] | intros [[= ->] ?]; first [done|lia]].
  - unfold int64, Int64ToInt. intros H. destruct (Z.ltb_spec max_int64 n), (Z.ltb_spec n min_int64); cbn; (lia || done).
Qed.
Lemma narrow_ints_witness : StringToInt32 "2147483648" = Err (EFormat "2147483648") ∧ Int64ToInt 2147483648 = Ok 2147483648%Z.
Proof.
  split; [vm_compute; reflexivity|]. apply (narrow_ints "2147483648" 2147483648). split; vm_compute; discriminate.
Defined.

Definition fits {K V T} (key : K → option string) (value : V → option T) (kv : K * V) : option (string * T) := k ← key kv.1; v ← value kv.2; Some (k, v).
Lemma FromSyncMap_omap {K V T} (key : K → option string) (value : V → option T) l :
  FromSyncMap key value l = list_to_map (reverse (omap (fits key value) l)).
Proof.
  unfold FromSyncMap, list_to_map. generalize (∅ : gmap string T). induction l as [|[k v] l IH]; intros m; [done|].
  cbn [foldl omap list_omap]. rewrite IH. unfold fits at 2. cbn [fst snd].
  destruct (key k) as [k'|]; cbn [mbind option_bind]; [|done]. destruct (value v) as [v'|]; cbn [mbind option_bind]; [|done].
  by rewrite reverse_cons, foldr_app.
Qed.

Lemma ToSyncMap_id {T} (m : gmap string T) : ToSyncMap m = m.
Proof. unfold ToSyncMap. by apply (map_fold_weak_ind (λ r m, r = m)); [|intros k v m' r _ ->]. Qed.

(** A map stored in a sync.Map and taken out, in any order of its entries, is
    the map again, and entries whose key or value has another type are left out. *)
Theorem sync_map_roundtrip {T} (m : gmap string T) (l extra : list (option string * option T)) :
  l ≡ₚ (prod_map Some Some <$> map_to_list (ToSyncMap m)) ++ extra → Forall (λ e, e.1 = None ∨ e.2 = None) extra → FromSyncMap id id l = m.
Proof.
  rewrite ToSyncMap_id, FromSyncMap_omap. intros Hl Hx. symmetry. apply list_to_map_flip. rewrite reverse_Permutation, Hl, omap_app.
  assert (omap (fits id id) extra = []) as ->.
  { clear Hl. induction Hx as [|[[k|] [v|]] ex [He|He] _ IH]; [done|try discriminate He; exact IH..]. }
  rewrite app_nil_r. clear. induction (map_to_list m) as [|[k v] kvs IH]; [done|]. cbn. by rewrite <- IH.
Qed.
Lemma sync_map_roundtrip_witness :
  FromSyncMap id id [(Some "b", Some 2%Z); (None, Some 7%Z); (Some "c", None); (Some "a", Some 1%Z)] = ({["a" := 1%Z; "b" := 2%Z]} : gmap string Z).
Proof.
  apply (sync_map_roundtrip ({["a" := 1%Z; "b" := 2%Z]} : gmap string Z) _ [(None, Some 7%Z); (Some "c", None)]).
  - assert ((prod_map Some Some <$> map_to_list (ToSyncMap ({["a" := 1%Z; "b" := 2%Z]} : gmap string Z)))
      ≡ₚ [(Some "a", Some 1%Z); (Some "b", Some 2%Z)]) as -> by (vm_compute; first [reflexivity|apply perm_swap]). apply (Permutation_app_comm [(Some "b", Some 2%Z); (None, Some 7%Z); (Some "c", None)] [(Some "a", Some 1%Z)]).
  - apply List.Forall_cons; [by left|]. apply List.Forall_cons; [by right|]. apply List.Forall_nil.
Defined.

(** *** Times *)

(** A text is read with the first of the layouts that fits it, and fails when
    none does. *)
Theorem ParseLocalTime_first parse_in str : 
  match ParseLocalTime parse_in str with
  | Ok t => ∃ i format, timeFormats !! i = Some format ∧ parse_in format str = Some t ∧ Forall (λ f, parse_in f str = None) (take i timeFormats)
  | _ => Forall (λ f, parse_in f str = None) timeFormats
  end.
Proof.
  unfold ParseLocalTime, parsed. induction timeFormats as [|f fs IH]; cbn [first_parse of_opt]; [constructor|].
  destruct (parse_in f str) as [t|] eqn:Hf; cbn [of_opt].
  - exists 0, f. by repeat split.
  - destruct (first_parse parse_in fs str) as [t|]; cbn [of_opt] in *; [|by constructor].
    destruct IH as (i & f' & Hi & Ht & Hp). exists (S i), f'. repeat split; [done..|]. by constructor.
Qed.

(** Milliseconds survive the conversion to an instant and back, and so do the
    ones of a number that JSON decodes. *)
Theorem milliseconds_roundtrip ms : UnixMilli <$> UnixMilliToTime (Some ms) = Some ms ∧ (int64 ms → ToUnixMilli (MNumber (pretty ms)) = ms).
Proof.
  split.
  - unfold UnixMilli, millisecond. cbn. f_equal. apply Z.div_mul. lia.
  - intros H. unfold ToUnixMilli, Int64_value. by rewrite (ParseInt_pretty ms H).
Qed.
Lemma milliseconds_roundtrip_witness : ToUnixMilli (MNumber "1700000000123") = 1700000000123%Z.
Proof. apply (milliseconds_roundtrip 1700000000123). split; vm_compute; discriminate. Defined.

(** A floating-point number loses the odd milliseconds above 2^53; a number out of
    range is the nearest int64 as a json.Number and the least one as a float. *)
Example number_limits :
  ConvertValue "number" "9007199254740993" = Ok (AInt64 9007199254740992) ∧ ConvertValue "number" "-0" = Ok (AInt64 0) ∧
  ConvertValue "number" "0.5" = Ok (AFloat (of_decimal 5 (-1))) ∧ ToUnixMilli (MNumber "9223372036854775808") = max_int64 ∧
  (ToUnixMilli ∘ MFloat <$> ParseFloat "9223372036854775808") = Some min_int64 ∧ ToUnixMilli (MNumber "1e3") = 0%Z.
Proof. vm_compute. repeat split. Qed.

(** *** Values through JSON *)

Section any_ind.
Context (P : any → Prop).
Hypothesis (Hleaf : ∀ v, match v with AMap _ | ASlice _ => True | _ => P v end)
  (Hmap : ∀ l, Forall (λ m, P m.2) l → P (AMap l)) (Hslice : ∀ l, Forall P l → P (ASlice l)).
Lemma any_ind' v : P v.
Proof.
  revert v. fix IH 1. intros v. destruct v as [|s|b|z|z|f|l|l| | |n]; try exact (Hleaf ANil); try exact (Hleaf (AString s)); try exact (Hleaf (ABool b)).
  - exact (Hleaf (AInt z)).
  - exact (Hleaf (AInt64 z)).
  - exact (Hleaf (AFloat f)).
  - apply Hmap. induction l as [|[k v] l IHl]; constructor; [apply IH|exact IHl].
  - apply Hslice. induction l as [|v l IHl]; constructor; [apply IH|exact IHl].
  - exact (Hleaf ANilMap).
  - exact (Hleaf ANilSlice).
  - exact (Hleaf (AOther n)).
Qed.
End any_ind.

(** Keys in strictly ascending order. *)
Fixpoint ascending (ks : list string) : bool :=
  match ks with [] => true | k :: ks' => forallb (λ k', String.leb k k' && negb (String.eqb k k')) ks' && ascending ks' end.

(** Numbers whose text is a JSON number that reads back. *)
Definition reads_back (f : float64) : bool :=
  match json_float f with Some t => is_number t && bool_decide (ParseFloat t = Some f) | None => false end.

(** The values that encoding/json makes: no integers, valid strings, and the keys
    of a map listed in order. *)
Fixpoint clean (v : any) : bool :=
  match v with
  | ANil | ABool _ => true
  | AString s => valid_utf8 s
  | AFloat f => reads_back f
  | AMap l => ascending l.*1 && forallb (λ m, valid_utf8 m.1 && clean m.2) l
  | ASlice l => forallb clean l
  | _ => false
  end.
Fixpoint nesting (v : any) : nat :=
  match v with
  | AMap l => S (max_list ((λ m, nesting m.2) <$> l))
  | ASlice l => S (max_list (nesting <$> l))
  | _ => 0
  end.

Lemma ascending_sorted {A} (l : list (string * A)) : ascending l.*1 = true → StronglySorted entry_le l ∧ NoDup l.*1.
Proof.
  induction l as [|[k v] l IH]; [repeat constructor|]. cbn [ascending fmap list_fmap fst]. intros [Hk Hl]%andb_true_iff.
  destruct (IH Hl) as [Hs Hn]. rewrite forallb_forall in Hk.
  assert (∀ m, m ∈ l → String.leb k m.1 = true ∧ k ≠ m.1) as H.
  { intros m Hm. specialize (Hk m.1). destruct (String.leb k m.1), (String.eqb_spec k m.1); cbn in Hk; split; try done; exfalso;
      discriminate Hk; apply list_elem_of_In, list_elem_of_fmap; eauto. }
  split; constructor; [done| |..|done].
  - apply list.Forall_forall. intros m Hm. destruct (H m Hm) as [Hle _]. unfold entry_le, String.le. cbn. by rewrite Hle.
  - intros ([k' v'] & -> & Hm)%list_elem_of_fmap. by destruct (H _ Hm).
Qed.

Lemma merge_sort_ascending {A} (l : list (string * A)) : ascending l.*1 = true → merge_sort entry_le l = l.
Proof.
  intros [Hs Hn]%ascending_sorted. apply (StronglySorted_unique_strong entry_le); [|apply StronglySorted_merge_sort|done|apply merge_sort_Permutation].
  - intros [k x] [k' y] Hx Hy Hxy Hyx. rewrite merge_sort_Permutation in Hx. assert (k = k') as <- by (by apply (anti_symm String.le)).
    f_equal. apply (elem_of_list_to_map_1 (M := gmap string)) in Hx, Hy; [|done..]. congruence.
  - intros x y z. apply (transitivity (R := String.le)).
  - intros x y. apply (total String.le).
Qed.

Lemma foldl_set_key {A} (ms acc : list (string * A)) : NoDup (acc.*1 ++ ms.*1) → foldl (λ acc m, set_key m.1 m.2 acc) acc ms = (acc ++ ms)%list.
Proof.
  revert acc. induction ms as [|[k v] ms IH]; intros acc H; cbn [foldl fst snd]; [by rewrite app_nil_r|].
  assert (set_key k v acc = acc ++ [(k, v)])%list as ->.
  { unfold set_key. f_equal. apply forallb_filter_id, forallb_forall. intros m Hm%list_elem_of_In. apply negb_true_iff, String.eqb_neq. intros Hk.
    apply NoDup_app in H as (_ & H & _). apply (H m.1); [by apply list_elem_of_fmap_2|]. rewrite Hk. cbn. left. }
  rewrite IH, <- app_assoc; [done|]. rewrite fmap_app, <- app_assoc. exact H.
Qed.

(** What is shown of a value: it has a JSON that can be printed, as deep as the
    value, and the JSON makes the value again. *)
Definition through_json (v : any) : Prop := ∃ j, to_json v = Some j ∧ printable j = true ∧ depth j = nesting v ∧ of_json j = Some v.

Lemma clean_slice l : Forall through_json l → ∃ js, mapM to_json l = Some js ∧ forallb printable js = true ∧ depth <$> js = nesting <$> l ∧ mapM of_json js = Some l.
Proof.
  induction 1 as [|v l (j & Hj & Hp & Hd & Ho) _ (js & Hjs & Hps & Hds & Hos)]; [by exists []|].
  exists (j :: js). rewrite !fmap_cons, Hd, Hds. cbn [mapM forallb]. by rewrite Hj, Hjs, Hp, Ho, Hos.
Qed.
Lemma clean_members l : Forall (λ m, valid_utf8 m.1 = true ∧ through_json m.2) l →
  ∃ js, mapM (λ m, j ← to_json m.2; Some (m.1, j)) l = Some js ∧ forallb (λ kv, valid_utf8 kv.1 && printable kv.2) js = true ∧ js.*1 = l.*1 ∧
    (λ kv, depth kv.2) <$> js = (λ m, nesting m.2) <$> l ∧ mapM (λ m, v ← of_json m.2; Some (m.1, v)) js = Some l.
Proof.
  induction 1 as [|[k v] l [Hk (j & Hj & Hp & Hd & Ho)] _ (js & Hjs & Hps & Hks & Hds & Hos)]; [by exists []|]. cbn [fst snd] in *.
  exists ((k, j) :: js). rewrite !fmap_cons. cbn [mapM forallb fst snd]. by rewrite Hj, Hjs, Hk, Hp, Hd, Hds, Hks, Ho, Hos.
Qed.

Lemma clean_through v : clean v = true → through_json v.
Proof.
  revert v. apply (any_ind' (λ v, clean v = true → through_json v)); [intros v|intros l IH|intros l IH].
  - destruct v as [|s|b|z|z|f|l|l| | |n]; try done; intros H; cbn [clean] in H.
    + by exists JNull.
    + by exists (JStr s).
    + by exists (JBool b).
    + unfold reads_back in H. destruct (json_float f) as [t|] eqn:Ht; [|done]. apply andb_true_iff in H as [Hn Hr%bool_decide_eq_true].
      exists (JNum t). cbn [to_json of_json printable]. by rewrite Ht, Hr.
  - cbn [clean]. intros [Ha Hl]%andb_true_iff. rewrite forallb_forall in Hl.
    destruct (clean_members l) as (js & Hjs & Hps & Hks & Hds & Hos).
    { apply list.Forall_forall. intros m Hm. destruct (proj1 (andb_true_iff _ _) (Hl m (proj1 (list_elem_of_In _ _) Hm))) as [Hk Hv].
      split; [done|]. rewrite list.Forall_forall in IH. by apply IH. }
    exists (JObj js). cbn [to_json of_json printable depth nesting]. rewrite Hjs, Hos, Hps, Hds. cbn [mbind option_bind].
    rewrite (merge_sort_ascending js) by (by rewrite Hks). repeat split. f_equal. f_equal. apply (foldl_set_key l []). by apply ascending_sorted.
  - cbn [clean]. rewrite forallb_forall. intros Hl.
    destruct (clean_slice l) as (js & Hjs & Hps & Hds & Hos).
    { apply list.Forall_forall. intros m Hm. rewrite list.Forall_forall in IH. apply IH; [done|]. by apply Hl, list_elem_of_In. }
    exists (JArr js). cbn [to_json of_json printable depth nesting]. rewrite Hjs, Hos. cbn [fmap option_fmap option_map printable depth]. by rewrite Hps, Hds.
Qed.

(** C9: A map or an array of JSON values printed by [ToString] or [ToJSON] is read
    back by [ToObject] and [ToArray], and by [ConvertValue] under its type name,
    up to the nesting that encoding/json accepts. *)
Theorem container_roundtrip format_v v : clean v = true → (nesting v ≤ max_depth)%nat →
  match v with
  | AMap _ => ToObject (AString (ToString format_v v)) = Ok v ∧ ConvertValue "object" (ToString format_v v) = Ok v ∧ ToJSON v = Ok (ToString format_v v)
  | ASlice _ => ToArray (AString (ToString format_v v)) = Ok v ∧ ConvertValue "array" (ToString format_v v) = Ok v ∧ ToJSON v = Ok (ToString format_v v)
  | _ => True
  end.
Proof.
  intros (j & Hj & Hp & Hd & Ho)%clean_through Hn. rewrite <- Hd in Hn. pose proof (decode_encode_json j Hp Hn) as Hdec.
  destruct v; try done; unfold ConvertValue, ToString, ToJSON, ToObject, ToArray, unmarshal_map, unmarshal_slice; cbn [String.eqb Ascii.eqb Bool.eqb];
    rewrite Hj, Hdec; cbn [mbind option_bind]; by rewrite Ho.
Qed.
Definition sample : any := AMap [("a", ASlice [ANil; ABool true; AFloat (of_decimal 25 (-1))]); ("b", AMap [("c", AString "x")])].
Lemma container_roundtrip_witness :
  ToString (λ _, "?") sample = Join "" ["{"; quote "a"; ":[null,true,2.5],"; quote "b"; ":{"; quote "c"; ":"; quote "x"; "}}"] ∧
  ToObject (AString (ToString (λ _, "?") sample)) = Ok sample.
Proof.
  split; [vm_compute; reflexivity|]. assert (clean sample = true) as Hc by (vm_compute; reflexivity).
  assert (nesting sample ≤ max_depth)%nat as Hn by (apply Nat.leb_le; vm_compute; reflexivity).
  exact (proj1 (container_roundtrip (λ _, "?") sample Hc Hn)).
Defined.
