(* ===== verification/Tokens.v ===== *)
(** * JWT tokens

    Models src/security/jwt (jwt.go, helper.go, provider.go).  Claims are written
    and read as JSON texts, so that numbers come back as float64 and integers
    beyond 2^53 may come back rounded.  Signing and verifying is a library: the
    class [Signer] has its two functions and what is documented of them, that a
    signed token verifies under the same secret and gives what its text says,
    unless it has expired or is not valid yet.  Times are in nanoseconds since
    1970.  The values of claims are the types that the helpers know; another type,
    and a number that is not finite or a nesting beyond what encoding/json reads,
    is not covered. *)

From stdpp Require Import base tactics option list gmap strings numbers pretty sorting.
From Stdlib Require Import ZArith Ascii Lia SpecFloat.
From S2P Require Import Prelude Lexer Float64 Base64 GoStrings Json FloatText MetricsStore ManagerHttp Convert.

Open Scope string_scope.

(** ** Values and claims *)

(** A float32 is given by its value; a map is its members, of distinct keys. *)
Inductive any :=
| ANil | AStr (s : string) | ABool (b : bool)
| AFloat64 (f : float64) | AFloat32 (f : float64) | AInt (z : Z) | AInt64 (z : Z) | AInt32 (z : Z)
| AStrs (l : list string) | AList (l : list any) | AMap (m : list (string * any)).

Abbreviation claims := (gmap string any).

Definition to_map (m : list (string * any)) : claims := foldl (λ m kv, <[kv.1 := kv.2]> m) ∅ m.

(** ** encoding/json *)

(** A float32 in JSON: the shortest digits that give the float32 back. *)
Definition json_float32 (f : float64) : option string :=
  match f with
  | S754_nan | S754_infinity _ => None
  | S754_zero s => Some (if s then "-0" else "0")
  | S754_finite s m e =>
      let '(ds, dp) := digits_in of_decimal32 m e in
      Some ((if s then "-" else "") +:+
        if (dp - 1 <? -6)%Z || (21 <=? dp - 1)%Z then clean_exponent (format_e ds dp) else format_f ds dp)
  end.

Fixpoint to_json (v : any) : option json :=
  match v with
  | ANil => Some JNull
  | AStr s => Some (JStr s)
  | ABool b => Some (JBool b)
  | AFloat64 f => JNum <$> json_float f
  | AFloat32 f => JNum <$> json_float32 f
  | AInt z | AInt64 z | AInt32 z => Some (JNum (pretty z))
  | AStrs l => Some (JArr (JStr <$> l))
  | AList l => JArr <$> mapM to_json l
  | AMap m => ms ← mapM (λ kv, j ← to_json kv.2; Some (kv.1, j)) m; Some (JObj (merge_sort entry_le ms))
  end.

Fixpoint of_json (j : json) : option any :=
  match j with
  | JNull => Some ANil
  | JBool b => Some (ABool b)
  | JNum lit => AFloat64 <$> ParseFloat lit
  | JStr s => Some (AStr s)
  | JArr l => AList <$> mapM of_json l
  | JObj l => ms ← mapM (λ m, v ← of_json m.2; Some (m.1, v)) l; Some (AMap (foldl (λ acc m, set_key m.1 m.2 acc) [] ms))
  end.

(** [json.Marshal] of claims and [json.Unmarshal] into claims. *)
Definition marshal_claims (c : claims) : option string := encode <$> to_json (AMap (map_to_list c)).
Definition unmarshal_claims (text : string) : option claims :=
  j ← decode text; v ← of_json j; match v with AMap m => Some (to_map m) | ANil => Some ∅ | _ => None end.

(** ** helper.go *)

Definition GetString (data : claims) (key : string) : string :=
  match data !! key with Some (AStr s) => s | _ => "" end.
Definition GetBool (data : claims) (key : string) : bool :=
  match data !! key with Some (ABool b) => b | _ => false end.
Definition GetInt64 (data : claims) (key : string) : Z :=
  match data !! key with
  | Some (AInt64 z | AInt z | AInt32 z) => z
  | Some (AFloat64 f) => int64_of_float f
  | _ => 0%Z
  end.
Definition GetInt := GetInt64.
Definition GetFloat64 (data : claims) (key : string) : float64 :=
  match data !! key with
  | Some (AFloat64 f | AFloat32 f) => f
  | Some (AInt64 z | AInt z) => f_of_Z z
  | _ => f_zero
  end.
Definition strings_of (l : list any) : list string := omap (λ v, match v with AStr s => Some s | _ => None end) l.
Definition GetStringSlice (data : claims) (key : string) : list string :=
  match data !! key with Some (AList l) => strings_of l | _ => [] end.
Definition GetMap (data : claims) (key : string) : claims :=
  match data !! key with Some (AMap m) => to_map m | _ => ∅ end.

Definition GetTokenID (c : claims) : string := GetString c "jti".
Definition GetSubject (c : claims) : string := GetString c "sub".
Definition GetIssuer (c : claims) : string := GetString c "iss".
Definition GetAudience (c : claims) : list string := GetStringSlice c "aud".

(** [time.Unix(s, 0)], which counts seconds from the year one in an int64, and
    [t.Sub(u)], which saturates. *)
Definition epoch : Z := 62135596800.
Definition time_Unix (s : Z) : Z := ((wrap64 (s + epoch) - epoch) * second)%Z.
Definition time_Sub (t u : Z) : Z := Z.max min_int64 (Z.min max_int64 (t - u)).

(** A time claim; [None] is the zero time. *)
Definition time_claim (c : claims) (key : string) : option Z :=
  let t := GetFloat64 c key in if f_ltb f_zero t then Some (time_Unix (int64_of_float t)) else None.
Definition GetExpiration (c : claims) : option Z := time_claim c "exp".
Definition GetIssuedAt (c : claims) : option Z := time_claim c "iat".
Definition GetNotBefore (c : claims) : option Z := time_claim c "nbf".

Definition GetPayload (c : claims) : claims := GetMap c "payload".
Definition GetPayloadString (c : claims) : string → string := GetString (GetPayload c).
Definition GetPayloadBool (c : claims) : string → bool := GetBool (GetPayload c).
Definition GetPayloadInt (c : claims) : string → Z := GetInt (GetPayload c).
Definition GetPayloadStringSlice (c : claims) : string → list string := GetStringSlice (GetPayload c).
Definition HasPayloadValue (c : claims) (key : string) : bool := is_some_b (GetPayload c !! key).

Definition IsAccessToken (c : claims) : bool := String.eqb (GetSubject c) "access".
Definition IsRefreshToken (c : claims) : bool := String.eqb (GetSubject c) "refresh".

Definition IsTokenExpired (now : Z) (c : claims) : bool :=
  match GetExpiration c with Some exp => (exp <? now)%Z | None => false end.
Definition IsTokenActive (now : Z) (c : claims) : bool :=
  match GetNotBefore c with Some nbf => (nbf <? now)%Z | None => true end.
Definition IsTokenStale (now : Z) (c : claims) (stale : Z) : bool :=
  match GetIssuedAt c with Some iat => (stale <? time_Sub now iat)%Z | None => true end.

Inductive token_error :=
| ErrNeedTokenProvider | ErrInvalidToken | ErrTokenExpired | ErrTokenParsing | ENotYetValid | EEncoding | ETokenType (expected actual : string).

Definition ValidateTokenType (c : claims) (expected : string) : res token_error () :=
  if String.eqb (GetSubject c) expected then Ok tt else Err (ETokenType expected (GetSubject c)).
Definition ValidateTokenTiming (now : Z) (c : claims) : res token_error () :=
  if match GetExpiration c with Some exp => (exp <? now)%Z | None => false end then Err ErrTokenExpired
  else if match GetNotBefore c with Some nbf => (now <? nbf)%Z | None => false end then Err ENotYetValid
  else Ok tt.

Definition ContainsValue (slice : list string) (value : string) : bool := existsb (λ item, String.eqb item value) slice.
Definition ContainsAnyValue (slice values : list string) : bool :=
  existsb (λ item, existsb (String.eqb item) values) slice.

(** ** The library *)

(** Whether the library finds claims in time: "exp" and "nbf" are absent, zero, or
    on the right side of the clock; parts of a second are cut off. *)
Definition numeric_date (f : float64) : Z := time_Unix (int64_of_float (f_floor f)).
Definition timely (now : Z) (c : claims) : bool :=
  match c !! "exp" with Some (AFloat64 e) => f_eqb e f_zero || (now <? numeric_date e)%Z | Some _ => false | None => true end &&
  match c !! "nbf" with Some (AFloat64 n) => f_eqb n f_zero || (numeric_date n <=? now)%Z | Some _ => false | None => true end.

(** [sign] takes the JSON text of the claims. *)
Class Signer (T : Type) := {
  sign : string → string → T;
  verify : string → Z → T → res token_error claims;
  verify_signed secret now text c : unmarshal_claims text = Some c → timely now c = true → verify secret now (sign secret text) = Ok c;
  verify_untimely secret now text c : unmarshal_claims text = Some c → timely now c = false → is_Err (verify secret now (sign secret text)) = true }.

(** ** jwt.go *)

Definition Hour : Z := 3600 * second.
Definition DefaultAccessTokenExpire : Z := 2 * Hour.
Definition DefaultRefreshTokenExpire : Z := 7 * 24 * Hour.
Definition DefaultRegisterTokenExpire : Z := 30 * 60 * second.

Record TokenConfig := mkTokenConfig { AccessTokenExpiry : Z; RefreshTokenExpiry : Z; RegisterTokenExpiry : Z; Expiry : Z }.
Record TokenManager := mkManager { secret : string; accessTokenExpiry : Z; refreshTokenExpiry : Z; registerTokenExpiry : Z }.

Definition positive_or (x d : Z) : Z := if (0 <? x)%Z then x else d.

Definition NewTokenManager (secret : string) (config : option TokenConfig) : TokenManager :=
  let get f d := match config with Some c => positive_or (f c) d | None => d end in
  mkManager secret (get AccessTokenExpiry DefaultAccessTokenExpire) (get RefreshTokenExpiry DefaultRefreshTokenExpire)
    (get RegisterTokenExpiry DefaultRegisterTokenExpire).

Definition SetSecret (s : string) (tm : TokenManager) : TokenManager :=
  mkManager s (accessTokenExpiry tm) (refreshTokenExpiry tm) (registerTokenExpiry tm).
Definition SetAccessTokenExpiry (x : Z) (tm : TokenManager) : TokenManager :=
  mkManager (secret tm) (positive_or x (accessTokenExpiry tm)) (refreshTokenExpiry tm) (registerTokenExpiry tm).
Definition SetRefreshTokenExpiry (x : Z) (tm : TokenManager) : TokenManager :=
  mkManager (secret tm) (accessTokenExpiry tm) (positive_or x (refreshTokenExpiry tm)) (registerTokenExpiry tm).
Definition SetRegisterTokenExpiry (x : Z) (tm : TokenManager) : TokenManager :=
  mkManager (secret tm) (accessTokenExpiry tm) (refreshTokenExpiry tm) (positive_or x (registerTokenExpiry tm)).

Section Manager.
Context {T : Type} `{Signer T}.
Implicit Types (tm : TokenManager) (token : T) (payload : claims).

Definition token_claims (now : Z) (jti subject : string) payload (expiry : Z) : claims :=
  let c := {["jti" := AStr jti; "sub" := AStr subject; "iat" := AInt64 (Unix now); "exp" := AInt64 (Unix (now + expiry))]} : claims in
  if decide (payload = ∅) then c else <["payload" := AMap (map_to_list payload)]> c.

Definition generateToken tm (now : Z) (jti subject : string) payload (expiry : Z) : res token_error T :=
  if String.eqb (secret tm) "" then Err ErrNeedTokenProvider
  else
    match marshal_claims (token_claims now jti subject payload expiry) with
    | Some text => Ok (sign (secret tm) text)
    | None => Err EEncoding
    end.

Definition expiry_of (default : Z) (config : option TokenConfig) : Z :=
  match config with Some c => positive_or (Expiry c) default | None => default end.

Definition GenerateAccessToken tm now jti payload config : res token_error T :=
  generateToken tm now jti "access" payload (expiry_of (accessTokenExpiry tm) config).
Definition GenerateRefreshToken tm now jti payload config : res token_error T :=
  generateToken tm now jti "refresh" payload (expiry_of (refreshTokenExpiry tm) config).
Definition GenerateRegisterToken tm now jti payload subject config : res token_error T :=
  generateToken tm now jti subject payload (expiry_of (registerTokenExpiry tm) config).

Definition ValidateToken tm (now : Z) token : res token_error claims :=
  if String.eqb (secret tm) "" then Err ErrNeedTokenProvider else verify (secret tm) now token.
Definition DecodeToken := ValidateToken.

Definition payload_of (c : claims) : claims := match c !! "payload" with Some (AMap m) => to_map m | _ => ∅ end.
Definition ManagerGetPayload tm now token : res token_error claims :=
  rbind (DecodeToken tm now token) (λ c, Ok (payload_of c)).

Definition ManagerIsTokenExpired tm now token : bool :=
  match DecodeToken tm now token with
  | Ok c => match c !! "exp" with Some (AFloat64 e) => (time_Unix (int64_of_float e) <? now)%Z | _ => true end
  | _ => true
  end.

Definition GetTokenExpiry tm now token : res token_error Z :=
  rbind (DecodeToken tm now token) (λ c,
    match c !! "exp" with Some (AFloat64 e) => Ok (time_Unix (int64_of_float e)) | _ => Err ErrTokenParsing end).

(** The token to use from now on, and whether it is a new one; the two clock
    readings are taken as one. *)
Definition RefreshTokenIfNeeded tm now token (refreshThreshold : Z) : res token_error (T * bool) :=
  rbind (DecodeToken tm now token) (λ c,
    match c !! "exp" with
    | Some (AFloat64 e) =>
        if (refreshThreshold <? time_Sub (time_Unix (int64_of_float e)) now)%Z then Ok (token, false)
        else
          let jti := GetString c "jti" in
          rbind (GenerateAccessToken tm now jti (payload_of c) None) (λ t, Ok (t, true))
    | _ => Err ErrTokenParsing
    end).
End Manager.

(** ** provider.go *)

Record JWTConfig := mkJWTConfig { cfg_Secret : string; cfg_Access : string; cfg_Refresh : string; cfg_Register : string }.

Definition ProvideTokenManager (cfg : option JWTConfig) : TokenManager :=
  match cfg with
  | None => NewTokenManager "" None
  | Some c =>
      if String.eqb (cfg_Secret c) "" then NewTokenManager "" None
      else
        let pick s d := if String.eqb s "" then 0%Z else d in
        NewTokenManager (cfg_Secret c) (Some (mkTokenConfig (pick (cfg_Access c) DefaultAccessTokenExpire)
          (pick (cfg_Refresh c) DefaultRefreshTokenExpire) (pick (cfg_Register c) DefaultRegisterTokenExpire) 0))
  end.


(** ** Facts *)

(** *** Numbers *)

Lemma f_of_Z_small z : (Z.abs z < 2 ^ 53)%Z →
  int64_of_float (f_of_Z z) = z ∧ int64_of_float (f_floor (f_of_Z z)) = z ∧ f_is_inf (f_of_Z z) = false ∧
  f_ltb f_zero (f_of_Z z) = (0 <? z)%Z ∧ f_eqb (f_of_Z z) f_zero = (z =? 0)%Z.
Proof.
  intros Hz. destruct (decide (z = 0%Z)) as [->|Hnz]; [by split_and!|].
  assert (∃ s p m e, f_of_Z z = S754_finite s m e ∧ z = (if s then Zneg p else Zpos p) ∧ (e ≤ 0)%Z ∧ Zpos m = (Zpos p * 2 ^ (- e))%Z ∧
    (∀ s', binary_normalize prec emax z 0 s' = S754_finite s m e)) as (s & p & m & e & Hf & Hs & He & Hm & Hn).
  { destruct z as [|p|p]; [done| |].
    - destruct (round_small false p ltac:(lia)) as (m' & e' & Hr' & He' & Hm'). by exists false, p, m', e'.
    - destruct (round_small true p ltac:(lia)) as (m' & e' & Hr' & He' & Hm'). by exists true, p, m', e'. }
  assert ((f_trunc_parts m e) = (Zpos p, 0%Z)) as Hp.
  { unfold f_trunc_parts. destruct (Z.leb_spec 0 e).
    - assert (e = 0%Z) as -> by lia. rewrite Z.shiftl_0_r. f_equal. lia.
    - rewrite Z.shiftr_div_pow2, Hm, Z.div_mul, Z.mod_mul by (try lia; apply Z.pow_nonzero; lia). done. }
  assert (f_to_int64 (f_of_Z z) = z) as Hi by (rewrite Hf; unfold f_to_int64; rewrite Hp; by destruct s).
  assert (int64_of_float (f_of_Z z) = z) as Hi64.
  { unfold int64_of_float. rewrite Hi, Hf. unfold min_int64, max_int64.
    destruct (Z.leb_spec (- 2 ^ 63) z), (Z.leb_spec z (2 ^ 63 - 1)); cbn [andb]; lia. }
  assert (f_floor (f_of_Z z) = f_of_Z z) as Hfl.
  { rewrite Hf at 1. unfold f_floor, f_map_integer. rewrite Hp. cbn [Z.eqb negb]. rewrite andb_false_r.
    replace (if s then (- Zpos p)%Z else Zpos p) with z by (rewrite Hs; by destruct s). by rewrite Hn, <- Hf. }
  rewrite Hfl, Hi64, Hf. subst z. by destruct s.
Qed.

Lemma digit_plain c : isDigit c = true → Ascii.eqb c "_" = false ∧ Ascii.eqb c "." = false ∧ Ascii.eqb c "+" = false ∧ Ascii.eqb c "-" = false ∧
  Ascii.eqb (lower_ascii c) "i" = false ∧ Ascii.eqb (lower_ascii c) "n" = false ∧ Ascii.eqb (lower_ascii c) "x" = false.
Proof. destruct c as [[] [] [] [] [] [] [] []]; (done || by split_and!). Qed.

Lemma read_mantissa_go x s : read_mantissa false (pretty_N_go x s) (mkMant 0 0 false false false) =
  read_mantissa false s (mkMant (Z.of_N x) 0 (0 <? x)%N false false).
Proof.
  revert s. induction (N.lt_wf_0 x) as [x _ IH]. intros s. destruct (decide (x = 0)%N) as [->|Hx]; [by rewrite pretty_N_go_0|].
  rewrite pretty_N_go_step, IH by (try apply N.div_lt; lia). cbn [read_mantissa].
  destruct (pretty_digit (x `mod` 10)) as [Hd Hv]; [by apply N.mod_lt|]. destruct (digit_plain _ Hd) as (-> & -> & _).
  rewrite Hd. cbn [orb]. unfold hex_val. rewrite Hd, Hv. cbn [mt_val mt_frac mt_dot mt_under].
  replace (Z.of_N (x `div` 10) * 10 + Z.of_N (x `mod` 10))%Z with (Z.of_N x) by (pose proof (N.div_mod' x 10); lia).
  assert ((0 <? x)%N = true) as -> by (apply N.ltb_lt; lia). done.
Qed.

Lemma parse_digits (neg : bool) (p : positive) : f_is_inf (f_of_Z (if neg then Zneg p else Zpos p)) = false →
  ParseFloat (if neg then String "-" (pretty (N.pos p)) else pretty (N.pos p)) = Some (f_of_Z (if neg then Zneg p else Zpos p)).
Proof.
  intros Hf. pose proof (read_mantissa_go (N.pos p) "") as Hr. cbn [read_mantissa] in Hr. destruct (pretty_go_digit (N.pos p) "") as (c & t & E & Hc); [lia|].
  change (pretty (N.pos p)) with (pretty_N_go (N.pos p) ""). rewrite E in *.
  destruct (digit_plain c Hc) as (_ & _ & Hplus & Hminus & Hi & Hn & _).
  assert (∀ n : bool, drop_sign (if n then String "-" (String c t) else String c t) = (n, String c t)) as Hsign.
  { intros []; [done|]. unfold drop_sign. destruct c as [[] [] [] [] [] [] [] []]; done. }
  assert (special_float (if neg then String "-" (String c t) else String c t) = None) as Hs.
  { unfold special_float. rewrite Hsign. cbn [str_map String.eqb]. rewrite Hi. cbn [orb].
    assert (String.eqb (str_map lower_ascii (if neg then String "-" (String c t) else String c t)) "nan" = false) as ->; [|done].
    destruct neg; cbn [str_map String.eqb]; [done|]. by rewrite Hn. }
  assert (base_prefix (String c t) = None) as Hb.
  { destruct (decide (c = "0"%char)) as [->|Hc0].
    - destruct t as [|x t]; [done|]. cbn [base_prefix]. cbn [read_mantissa] in Hr.
      destruct (Ascii.eqb (lower_ascii x) "x") eqn:Hx; [|done]. exfalso.
      assert (isDigit x = false) as Hd. { destruct (isDigit x) eqn:Hd; [|done]. destruct (digit_plain x Hd) as (_ & _ & _ & _ & _ & _ & H). congruence. }
      assert (Ascii.eqb x "_" = false ∧ Ascii.eqb x "." = false) as [H1 H2].
      { split; apply Ascii.eqb_neq; intros ->; discriminate Hx. }
      cbn in Hr. rewrite H1, H2, Hd in Hr. discriminate Hr.
    - unfold base_prefix. destruct c as [[] [] [] [] [] [] [] []]; (done || by destruct Hc0). }
  unfold ParseFloat. rewrite Hs, Hsign, Hb, Hr. cbn [mt_digits mt_under negb mbind option_bind orb andb N.ltb N.compare].
  assert (assemble neg false (mkMant (Z.of_N (N.pos p)) 0 true false false) 0 = f_of_Z (if neg then Zneg p else Zpos p)) as ->.
  { unfold assemble. cbn [mt_val mt_frac Z.of_N]. cbn [Z.sub Z.add Z.opp]. rewrite Z.mul_1_r. by destruct neg. }
  by rewrite Hf.
Qed.

Lemma ParseFloat_pretty z : f_is_inf (f_of_Z z) = false → ParseFloat (pretty z) = Some (f_of_Z z).
Proof. destruct z as [|p|p]; intros Hz; [done|exact (parse_digits false p Hz)|exact (parse_digits true p Hz)]. Qed.

(** *** Values through JSON *)

(** The text of a number that JSON reads as a float64. *)
Definition read_number (t : option string) : option float64 := t ← t; if is_number t then ParseFloat t else None.

(** A value that can be written and read: strings and keys are valid UTF-8, keys
    distinct, numbers finite and the text of a float64 its own. *)
Fixpoint writable (v : any) : bool :=
  match v with
  | ANil | ABool _ => true
  | AStr s => valid_utf8 s
  | AFloat64 f => reads_back f
  | AFloat32 f => is_some_b (read_number (json_float32 f))
  | AInt z | AInt64 z | AInt32 z => negb (f_is_inf (f_of_Z z))
  | AStrs l => forallb valid_utf8 l
  | AList l => forallb writable l
  | AMap m => bool_decide (NoDup m.*1) && forallb (λ kv, valid_utf8 kv.1 && writable kv.2) m
  end.
Fixpoint levels (v : any) : nat :=
  match v with
  | AMap m => S (max_list ((λ kv, levels kv.2) <$> m))
  | AList l => S (max_list (levels <$> l))
  | AStrs _ => 1
  | _ => 0
  end.

(** What comes back: numbers are float64, slices []any, the members of a map in
    the order of their keys. *)
Fixpoint received (v : any) : any :=
  match v with
  | AFloat32 f => AFloat64 (default f (read_number (json_float32 f)))
  | AInt z | AInt64 z | AInt32 z => AFloat64 (f_of_Z z)
  | AStrs l => AList (AStr <$> l)
  | AList l => AList (received <$> l)
  | AMap m => AMap (merge_sort entry_le ((λ kv, (kv.1, received kv.2)) <$> m))
  | _ => v
  end.

Section value_ind.
Context (P : any → Prop).
Hypothesis (Hleaf : ∀ v, match v with AMap _ | AList _ => True | _ => P v end)
  (Hmap : ∀ m, Forall (λ kv, P kv.2) m → P (AMap m)) (Hlist : ∀ l, Forall P l → P (AList l)).
Lemma value_ind v : P v.
Proof.
  revert v. fix IH 1. intros [|s|b|f|f|z|z|z|l|l|m];
    [exact (Hleaf ANil)|exact (Hleaf (AStr s))|exact (Hleaf (ABool b))|exact (Hleaf (AFloat64 f))|exact (Hleaf (AFloat32 f))|
     exact (Hleaf (AInt z))|exact (Hleaf (AInt64 z))|exact (Hleaf (AInt32 z))|exact (Hleaf (AStrs l))|apply Hlist|apply Hmap].
  - induction l as [|v l IHl]; constructor; [apply IH|exact IHl].
  - induction m as [|[k v] m IHm]; constructor; [apply IH|exact IHm].
Qed.
End value_ind.

Lemma sort_members {A B} (f : A → B) (m : list (string * A)) : NoDup m.*1 →
  merge_sort entry_le ((λ kv, (kv.1, f kv.2)) <$> m) = (λ kv, (kv.1, f kv.2)) <$> merge_sort entry_le m.
Proof.
  intros Hn. assert (∀ l : list (string * A), ((λ kv, (kv.1, f kv.2)) <$> l).*1 = l.*1) as Hk by (intros l; by rewrite <- list_fmap_compose).
  apply (StronglySorted_unique_strong entry_le).
  - intros [k x] [k' y] Hx Hy Hxy Hyx. rewrite merge_sort_Permutation in Hx. rewrite merge_sort_Permutation in Hy.
    assert (k = k') as <- by (by apply (anti_symm String.le)). f_equal.
    apply (elem_of_list_to_map_1 (M := gmap string)) in Hx, Hy; [congruence|by rewrite Hk..].
  - apply StronglySorted_merge_sort; [intros x y z; apply (transitivity (R := String.le))|intros x y; apply (total String.le)].
  - assert (StronglySorted entry_le (merge_sort entry_le m)) as Hs
      by (apply StronglySorted_merge_sort; [intros x y z; apply (transitivity (R := String.le))|intros x y; apply (total String.le)]).
    induction Hs as [|kv l _ IH Hl]; [constructor|]. rewrite fmap_cons. constructor; [exact IH|]. by apply Forall_fmap.
  - rewrite !merge_sort_Permutation. done.
Qed.

(** What is shown of a value: its JSON can be printed, is as deep as the value and
    makes what is received. *)
Definition travels (v : any) : Prop := ∃ j, to_json v = Some j ∧ printable j = true ∧ depth j = levels v ∧ of_json j = Some (received v).

Lemma travels_number t f : read_number t = Some f → ∃ lit, t = Some lit ∧ is_number lit = true ∧ ParseFloat lit = Some f.
Proof. unfold read_number. destruct t as [lit|]; [|done]. cbn [mbind option_bind]. destruct (is_number lit) eqn:H; [|done]. by exists lit. Qed.

Lemma travels_leaf v : match v with AMap _ | AList _ => True | _ => writable v = true → travels v end.
Proof.
  assert (∀ z, f_is_inf (f_of_Z z) = false → printable (JNum (pretty z)) = true ∧ of_json (JNum (pretty z)) = Some (AFloat64 (f_of_Z z))) as Hint.
  { intros z Hz. cbn [printable of_json]. by rewrite is_number_pretty, (ParseFloat_pretty z Hz). }
  destruct v as [|s|b|f|f|z|z|z|l|l|m]; try done; cbn [writable]; intros Hw.
  - by exists JNull.
  - by exists (JStr s).
  - by exists (JBool b).
  - unfold reads_back in Hw. destruct (json_float f) as [t|] eqn:Ht; [|done]. apply andb_true_iff in Hw as [Hn Hr%bool_decide_eq_true].
    exists (JNum t). cbn [to_json of_json printable depth levels received]. by rewrite Ht, Hr.
  - destruct (read_number (json_float32 f)) as [g|] eqn:Hg; [|done]. destruct (travels_number _ _ Hg) as (t & Ht & Hn & Hr).
    exists (JNum t). cbn [to_json of_json printable depth levels received]. by rewrite Hg, Ht, Hr.
  - apply negb_true_iff in Hw. exists (JNum (pretty z)). by destruct (Hint z Hw) as [-> ->].
  - apply negb_true_iff in Hw. exists (JNum (pretty z)). by destruct (Hint z Hw) as [-> ->].
  - apply negb_true_iff in Hw. exists (JNum (pretty z)). by destruct (Hint z Hw) as [-> ->].
  - exists (JArr (JStr <$> l)). cbn [to_json of_json printable depth levels received]. split_and!; [done| | |].
    + rewrite forallb_forall in Hw. apply forallb_forall. intros x Hx%list_elem_of_In. apply list_elem_of_fmap in Hx as (s & -> & Hs).
      by apply Hw, list_elem_of_In.
    + f_equal. induction l as [|s l IH]; [done|]. cbn [forallb] in Hw. apply andb_true_iff in Hw as [_ Hw]. rewrite !fmap_cons. cbn [max_list depth]. by rewrite IH.
    + assert (mapM of_json (JStr <$> l) = Some (AStr <$> l)) as ->; [|done]. clear Hw. induction l as [|s l IH]; [done|]. rewrite !fmap_cons. cbn [mapM of_json]. by rewrite IH.
Qed.

Lemma travels_list l : Forall travels l → ∃ js, mapM to_json l = Some js ∧ forallb printable js = true ∧ depth <$> js = levels <$> l ∧
  mapM of_json js = Some (received <$> l).
Proof.
  induction 1 as [|v l (j & Hj & Hp & Hd & Ho) _ (js & Hjs & Hps & Hds & Hos)]; [by exists []|].
  exists (j :: js). rewrite !fmap_cons, Hd, Hds. cbn [mapM forallb]. by rewrite Hj, Hjs, Hp, Ho, Hos.
Qed.
Lemma travels_members (m : list (string * any)) : Forall (λ kv, valid_utf8 kv.1 = true ∧ travels kv.2) m →
  ∃ f, mapM (λ kv, j ← to_json kv.2; Some (kv.1, j)) m = Some ((λ kv, (kv.1, f kv.2)) <$> m) ∧
    Forall (λ kv, valid_utf8 kv.1 = true ∧ printable (f kv.2) = true ∧ depth (f kv.2) = levels kv.2 ∧ of_json (f kv.2) = Some (received kv.2)) m.
Proof.
  intros H. exists (λ v, default JNull (to_json v)). induction H as [|[k v] m [Hk (j & Hj & Hp & Hd & Ho)] _ [IH1 IH2]]; [by split|]. cbn [fst snd] in *. split.
  - cbn [mapM fst snd]. rewrite Hj, IH1. cbn [mbind option_bind]. rewrite fmap_cons. cbn [fst snd]. by rewrite Hj.
  - constructor; [|done]. cbn [fst snd]. by rewrite Hj.
Qed.

Lemma writable_travels v : writable v = true → travels v.
Proof.
  revert v. apply (value_ind (λ v, writable v = true → travels v)); [exact travels_leaf|intros m IH|intros l IH]; cbn [writable].
  - rewrite andb_true_iff, bool_decide_eq_true, forallb_forall. intros [Hnd Hw]. destruct (travels_members m) as (f & Hf & Hall).
    { apply list.Forall_forall. intros kv Hkv. destruct (proj1 (andb_true_iff _ _) (Hw kv (proj1 (list_elem_of_In _ _) Hkv))) as [Hk Hv].
      split; [done|]. rewrite list.Forall_forall in IH. by apply IH. }
    exists (JObj (merge_sort entry_le ((λ kv, (kv.1, f kv.2)) <$> m))). cbn [to_json of_json printable depth levels received]. rewrite Hf. cbn [mbind option_bind].
    rewrite !sort_members by done. pose proof (merge_sort_Permutation entry_le m) as Hperm. split_and!; [done| | |].
    + apply forallb_forall. intros x Hx%list_elem_of_In. apply list_elem_of_fmap in Hx as (kv & -> & Hkv). rewrite Hperm in Hkv.
      rewrite list.Forall_forall in Hall. destruct (Hall kv Hkv) as (H1 & H2 & _). cbn [fst snd]. by rewrite H1, H2.
    + f_equal. rewrite <- list_fmap_compose. rewrite Hperm. f_equal. apply list_fmap_ext. intros i kv Hkv%list_elem_of_lookup_2.
      rewrite list.Forall_forall in Hall. by destruct (Hall kv Hkv) as (_ & _ & H3 & _).
    + assert (mapM (λ m, v ← of_json m.2; Some (m.1, v)) ((λ kv, (kv.1, f kv.2)) <$> merge_sort entry_le m) =
        Some ((λ kv, (kv.1, received kv.2)) <$> merge_sort entry_le m)) as ->.
      { rewrite <- Hperm in Hall. clear - Hall. revert Hall. generalize (merge_sort entry_le m). intros ms Hall. induction Hall as [|[k v] l (_ & _ & _ & Ho) _ IHl]; [done|]. rewrite !fmap_cons. cbn [mapM fst snd] in *.
        rewrite Ho. cbn [mbind option_bind]. by rewrite IHl. }
      cbn [mbind option_bind]. f_equal. f_equal. apply (foldl_set_key _ []). rewrite <- list_fmap_compose. cbn. change (NoDup (merge_sort entry_le m).*1). by rewrite Hperm.
  - rewrite forallb_forall. intros Hw. destruct (travels_list l) as (js & Hjs & Hps & Hds & Hos).
    { apply list.Forall_forall. intros v Hv. rewrite list.Forall_forall in IH. apply IH; [done|]. by apply Hw, list_elem_of_In. }
    exists (JArr js). cbn [to_json of_json printable depth levels received]. rewrite Hjs, Hos. cbn [fmap option_fmap option_map printable depth]. by rewrite Hps, Hds.
Qed.

Lemma sort_perm {A} (l k : list (string * A)) : l ≡ₚ k → NoDup l.*1 → merge_sort entry_le l = merge_sort entry_le k.
Proof.
  intros Hp Hn. assert (∀ m : list (string * A), StronglySorted entry_le (merge_sort entry_le m)) as Hs
    by (intros m; apply StronglySorted_merge_sort; [intros x y z; apply (transitivity (R := String.le))|intros x y; apply (total String.le)]).
  apply (StronglySorted_unique_strong entry_le); [|apply Hs..|by rewrite !merge_sort_Permutation].
  intros [i x] [j y] Hx Hy Hxy Hyx. rewrite merge_sort_Permutation in Hx, Hy. rewrite <- Hp in Hy.
  assert (i = j) as <- by (by apply (anti_symm String.le)). f_equal.
  apply (elem_of_list_to_map_1 (M := gmap string)) in Hx, Hy; [congruence|done..].
Qed.

(** Receiving what was received changes nothing more. *)
Lemma received_twice v : writable v = true → received (received v) = received v.
Proof.
  revert v. apply (value_ind (λ v, writable v = true → received (received v) = received v)); [intros v|intros m IH|intros l IH]; cbn [writable].
  - destruct v as [| | | | | | | |l| |]; try done. intros _. cbn [received]. f_equal. rewrite <- list_fmap_compose. by apply list_fmap_ext.
  - rewrite andb_true_iff, bool_decide_eq_true, forallb_forall. intros [Hn Hw]. cbn [received]. f_equal.
    rewrite (sort_perm _ ((λ kv, (kv.1, received kv.2)) <$> ((λ kv, (kv.1, received kv.2)) <$> m))).
    + f_equal. rewrite <- list_fmap_compose. apply list_fmap_ext. intros i [k v] Hkv%list_elem_of_lookup_2. cbn. f_equal. rewrite list.Forall_forall in IH.
      apply (IH (k, v)); [done|]. destruct (proj1 (andb_true_iff _ _) (Hw (k, v) (proj1 (list_elem_of_In _ _) Hkv))) as [_ Hv]. exact Hv.
    + by rewrite merge_sort_Permutation.
    + rewrite <- list_fmap_compose. cbn. change (NoDup (merge_sort entry_le ((λ kv, (kv.1, received kv.2)) <$> m)).*1).
      rewrite merge_sort_Permutation, <- list_fmap_compose. exact Hn.
  - rewrite forallb_forall. intros Hw. cbn [received]. f_equal. rewrite <- list_fmap_compose. apply list_fmap_ext. intros i v Hv%list_elem_of_lookup_2.
    rewrite list.Forall_forall in IH. cbn. apply IH; [done|]. by apply Hw, list_elem_of_In.
Qed.

Lemma to_map_lookup (m : list (string * any)) : NoDup m.*1 → to_map m = list_to_map m.
Proof.
  intros Hn. unfold to_map. assert (∀ acc : claims, foldl (λ m kv, <[kv.1 := kv.2]> m) acc m = list_to_map m ∪ acc) as Hf.
  { induction m as [|[k' v] m IH]; intros acc; cbn [foldl]; [exact (eq_sym (left_id_L ∅ (∪) acc))|].
    rewrite fmap_cons in Hn. apply list.NoDup_cons in Hn as [Hk Hn]. rewrite IH by done. cbn [fst snd list_to_map foldr].
    rewrite <- insert_union_l, insert_union_r; [done|]. by apply not_elem_of_list_to_map_1. }
  by rewrite Hf, (right_id_L ∅ (∪)).
Qed.

Lemma to_map_received (c : claims) : to_map (merge_sort entry_le ((λ kv, (kv.1, received kv.2)) <$> map_to_list c)) = received <$> c.
Proof.
  assert (((λ kv : string * any, (kv.1, received kv.2)) <$> map_to_list c).*1 = (map_to_list c).*1) as Hk by (by rewrite <- list_fmap_compose).
  assert (NoDup (merge_sort entry_le ((λ kv : string * any, (kv.1, received kv.2)) <$> map_to_list c)).*1) as Hn
    by (rewrite merge_sort_Permutation, Hk; apply NoDup_fst_map_to_list).
  rewrite to_map_lookup by done. rewrite (list_to_map_proper _ ((λ kv, (kv.1, received kv.2)) <$> map_to_list c)) by (done || apply merge_sort_Permutation).
  rewrite <- (list_to_map_to_list c) at 2. by rewrite <- list_to_map_fmap.
Qed.

(** Claims that can be written and read, with less than [n] levels each. *)
Definition writable_claims (n : nat) (c : claims) : Prop :=
  map_Forall (λ k v, valid_utf8 k = true ∧ writable v = true ∧ (levels v < n)%nat) c.

Lemma claims_writable n c : writable_claims n c → (0 < n)%nat → writable (AMap (map_to_list c)) = true ∧ (levels (AMap (map_to_list c)) ≤ n)%nat.
Proof.
  intros Hc H0. split; cbn [writable levels].
  - apply andb_true_iff. split; [apply bool_decide_eq_true, NoDup_fst_map_to_list|]. apply forallb_forall. intros [k v] Hkv%list_elem_of_In.
    apply elem_of_map_to_list in Hkv. destruct (Hc k v Hkv) as (H1 & H2 & _). cbn [fst snd]. by rewrite H1, H2.
  - destruct n as [|n]; [lia|]. apply le_n_S, max_list_le, list.Forall_forall. intros x ([k v] & -> & Hkv)%list_elem_of_fmap.
    apply elem_of_map_to_list in Hkv. destruct (Hc k v Hkv) as (_ & _ & H3). cbn [snd]. lia.
Qed.

(** What is written of claims is read as what is received of them. *)
Lemma claims_travel c : writable_claims max_depth c → ∃ text, marshal_claims c = Some text ∧ unmarshal_claims text = Some (received <$> c).
Proof.
  intros Hc. destruct (claims_writable max_depth c Hc) as [Hw Hl]; [apply Nat.ltb_lt; vm_compute; reflexivity|].
  destruct (writable_travels _ Hw) as (j & Hj & Hp & Hd & Ho). rewrite <- Hd in Hl. exists (encode j). unfold marshal_claims, unmarshal_claims.
  rewrite Hj, (decode_encode_json j Hp Hl). split; [done|]. cbn [mbind option_bind]. rewrite Ho. cbn [received mbind option_bind]. by rewrite to_map_received.
Qed.

(** *** Times *)

Lemma time_Unix_id s : (Z.abs s < 2 ^ 53)%Z → time_Unix s = (s * second)%Z.
Proof. intros Hs. unfold time_Unix, epoch. rewrite wrap64_id by (unfold min_int64, max_int64; lia). f_equal. lia. Qed.

Lemma Unix_small t : (- 2 ^ 64 ≤ t ≤ 2 ^ 64)%Z → (Z.abs (Unix t) < 2 ^ 53)%Z.
Proof.
  intros Ht. unfold Unix, second. pose proof (Z.div_mod t 1000000000). pose proof (Z.mod_pos_bound t 1000000000). lia.
Qed.

(** The moment a token of that age and lifetime stops being valid. *)
Definition expires_at (now expiry : Z) : Z := (Unix (now + expiry) * second)%Z.

Lemma expires_bounds now expiry : (now + expiry - second < expires_at now expiry ≤ now + expiry)%Z.
Proof. unfold expires_at, Unix, second. pose proof (Z.div_mod (now + expiry) 1000000000). pose proof (Z.mod_pos_bound (now + expiry) 1000000000). lia. Qed.

Section Facts.
Context {T : Type} `{Signer T}.
Implicit Types (tm : TokenManager) (payload : claims).

(** What a token is made from: instants and lifetimes that fit, texts in UTF-8, a
    payload that can be written and read. *)
Definition fine (now : Z) (jti subject : string) payload (expiry : Z) : Prop :=
  int64 now ∧ int64 expiry ∧ valid_utf8 jti = true ∧ valid_utf8 subject = true ∧ writable_claims (max_depth - 1) payload.

(** The claims of a token as they come back. *)
Definition decoded (now : Z) (jti subject : string) payload (expiry : Z) : claims :=
  received <$> token_claims now jti subject payload expiry.

Lemma token_claims_writable now jti subject payload expiry : fine now jti subject payload expiry →
  writable_claims max_depth (token_claims now jti subject payload expiry).
Proof.
  intros (Hnow & Hx & Hj & Hs & Hp). assert (1 < max_depth)%nat as Hd by (apply Nat.ltb_lt; vm_compute; reflexivity).
  assert (∀ t, (- 2 ^ 64 ≤ t ≤ 2 ^ 64)%Z → writable (AInt64 (Unix t)) = true) as Hint.
  { intros t Ht. cbn [writable]. by destruct (f_of_Z_small (Unix t) (Unix_small t Ht)) as (_ & _ & -> & _). }
  unfold int64, min_int64, max_int64 in *.
  assert (writable_claims max_depth {["jti" := AStr jti; "sub" := AStr subject; "iat" := AInt64 (Unix now); "exp" := AInt64 (Unix (now + expiry))]}) as Hc.
  { unfold writable_claims. repeat (apply map_Forall_insert_2; [split_and!; [done|cbn [writable]; try done; apply Hint; lia|cbn [levels]; lia]|]).
    apply map_Forall_empty. }
  unfold token_claims. case_decide; [exact Hc|]. apply map_Forall_insert_2; [|exact Hc].
  destruct (claims_writable (max_depth - 1) payload Hp) as [Hw Hl]; [lia|]. split_and!; [done|exact Hw|lia].
Qed.

Lemma decoded_fields now jti subject payload expiry :
  let c := decoded now jti subject payload expiry in
  c !! "jti" = Some (AStr jti) ∧ c !! "sub" = Some (AStr subject) ∧ c !! "iat" = Some (AFloat64 (f_of_Z (Unix now))) ∧
  c !! "exp" = Some (AFloat64 (f_of_Z (Unix (now + expiry)))) ∧ c !! "nbf" = None ∧
  payload_of c = received <$> payload ∧ GetPayload c = received <$> payload.
Proof.
  intros c. unfold c, decoded, token_claims, GetPayload, GetMap, payload_of. case_decide as Hp.
  - subst payload. by split_and!.
  - rewrite fmap_insert. cbn [received]. split_and!; try reflexivity; rewrite lookup_insert_eq; apply to_map_received.
Qed.

Lemma decode_generated tm now jti subject payload expiry : fine now jti subject payload expiry → Unix (now + expiry) ≠ 0%Z → secret tm ≠ "" →
  ∃ token, generateToken tm now jti subject payload expiry = Ok token ∧ ∀ now',
  if decide (now' < expires_at now expiry)%Z then DecodeToken tm now' token = Ok (decoded now jti subject payload expiry)
  else is_Err (DecodeToken tm now' token) = true.
Proof.
  intros Hfine Hx Hsec. destruct (claims_travel _ (token_claims_writable _ _ _ _ _ Hfine)) as (text & Htext & Hback). fold (decoded now jti subject payload expiry) in Hback.
  unfold generateToken, DecodeToken, ValidateToken. destruct (String.eqb_spec (secret tm) ""); [done|]. rewrite Htext. eexists. split; [reflexivity|]. intros now'.
  destruct (decoded_fields now jti subject payload expiry) as (_ & _ & _ & He & Hn & _). destruct Hfine as (Hnow & Hexp & _).
  assert (Z.abs (Unix (now + expiry)) < 2 ^ 53)%Z as Hsmall by (apply Unix_small; unfold int64, min_int64, max_int64 in *; lia).
  destruct (f_of_Z_small _ Hsmall) as (_ & Hfl & _ & _ & Hz).
  assert (timely now' (decoded now jti subject payload expiry) = (now' <? expires_at now expiry)%Z) as Ht.
  { unfold timely, numeric_date. rewrite He, Hn, andb_true_r, Hz, Hfl, time_Unix_id by done. by destruct (Z.eqb_spec (Unix (now + expiry)) 0). }
  case_decide as Hd; [eapply verify_signed|eapply verify_untimely]; try exact Hback; rewrite Ht; [by apply Z.ltb_lt|by apply Z.ltb_ge, Z.le_ngt].
Qed.

Lemma expires_nonzero now expiry : (0 < expires_at now expiry)%Z → Unix (now + expiry) ≠ 0%Z.
Proof. unfold expires_at. intros Hp Hz. rewrite Hz in Hp. lia. Qed.

(** The expiration and the issue of a token. *)
Lemma decoded_times now jti subject payload expiry : int64 now → int64 expiry → (0 < expires_at now expiry)%Z →
  let c := decoded now jti subject payload expiry in
  (∀ s, c !! "exp" = Some (AFloat64 s) → time_Unix (int64_of_float s) = expires_at now expiry) ∧
  GetExpiration c = Some (expires_at now expiry) ∧ GetIssuedAt c = (if (0 <? Unix now)%Z then Some (Unix now * second)%Z else None).
Proof.
  intros Hnow Hx Hp c. destruct (decoded_fields now jti subject payload expiry) as (_ & _ & Hi & He & _). fold c in Hi, He. unfold int64, min_int64, max_int64 in *.
  pose proof (Unix_small (now + expiry) ltac:(lia)) as Hs. pose proof (Unix_small now ltac:(lia)) as Hs'.
  destruct (f_of_Z_small _ Hs) as (H1 & _ & _ & H2 & _). destruct (f_of_Z_small _ Hs') as (H3 & _ & _ & H4 & _).
  unfold GetExpiration, GetIssuedAt, time_claim, GetFloat64. rewrite Hi, He, H2, H4, H1, H3, !time_Unix_id by done. split_and!; [|by unfold expires_at in *; destruct (Z.ltb_spec 0 (Unix (now + expiry))); [|unfold second in Hp; lia]|done].
  intros s [= <-]. by rewrite H1, time_Unix_id.
Qed.

(** What refreshing does with a token generated with the same secret. *)
Lemma refresh_step tm now jti subject payload expiry token now' threshold : fine now jti subject payload expiry →
  generateToken tm now jti subject payload expiry = Ok token → (0 < expires_at now expiry)%Z → (0 ≤ now' < expires_at now expiry)%Z →
  (expires_at now expiry ≤ max_int64)%Z →
  if decide (threshold < expires_at now expiry - now')%Z
  then RefreshTokenIfNeeded tm now' token threshold = Ok (token, false)
  else RefreshTokenIfNeeded tm now' token threshold =
    rbind (generateToken tm now' jti "access" (received <$> payload) (accessTokenExpiry tm)) (λ t, Ok (t, true)).
Proof.
  intros Hfine Hg Hp Hn Hmax. assert (secret tm ≠ "") as Hsec by (intros Hs; revert Hg; unfold generateToken; by rewrite Hs).
  destruct (decode_generated tm _ _ _ _ _ Hfine (expires_nonzero _ _ Hp) Hsec) as (token' & Hg' & Hd). rewrite Hg in Hg'. injection Hg' as <-.
  specialize (Hd now'). rewrite decide_True in Hd by lia. unfold RefreshTokenIfNeeded. rewrite Hd. cbn [rbind].
  destruct (decoded_fields now jti subject payload expiry) as (Hj & _ & _ & He & _ & Hpl & _).
  destruct (decoded_times now jti subject payload expiry (proj1 Hfine) (proj1 (proj2 Hfine)) Hp) as (Hx & _). rewrite He, (Hx _ He).
  assert (time_Sub (expires_at now expiry) now' = expires_at now expiry - now')%Z as -> by (unfold time_Sub, min_int64, max_int64 in *; lia).
  case_decide as Ht.
  - assert ((threshold <? expires_at now expiry - now')%Z = true) as -> by (by apply Z.ltb_lt). done.
  - assert ((threshold <? expires_at now expiry - now')%Z = false) as -> by (by apply Z.ltb_ge, Z.nlt_ge). rewrite Hpl.
    unfold GetString. rewrite Hj. done.
Qed.
End Facts.

Section Properties.
Context {T : Type} `{Signer T}.
Implicit Types (tm : TokenManager) (payload : claims).

(** ** Properties *)

(** What the helpers find of a payload in the claims of its token.  An integer
    comes back as the nearest float64, cut to an int64: itself below 2^53. *)
Definition comes_back payload (c : claims) : Prop :=
  GetPayload c = received <$> payload ∧
  (∀ k, HasPayloadValue c k = is_some_b (payload !! k)) ∧
  ∀ k v, payload !! k = Some v →
    match v with
    | AStr s => GetPayloadString c k = s
    | ABool b => GetPayloadBool c k = b
    | AInt z | AInt64 z | AInt32 z => GetPayloadInt c k = int64_of_float (f_of_Z z) ∧ ((Z.abs z < 2 ^ 53)%Z → GetPayloadInt c k = z)
    | AFloat64 f => GetFloat64 (GetPayload c) k = f
    | AStrs l => GetPayloadStringSlice c k = l
    | _ => True
    end.

Lemma strings_of_strings l : strings_of (AStr <$> l) = l.
Proof. induction l as [|s l IH]; [done|]. rewrite fmap_cons. unfold strings_of in *. cbn [omap list_omap]. by rewrite IH. Qed.

Lemma payload_comes_back now jti subject payload expiry : comes_back payload (decoded now jti subject payload expiry).
Proof.
  destruct (decoded_fields now jti subject payload expiry) as (_ & _ & _ & _ & _ & _ & Hp). split_and!; [done| |].
  - intros k. unfold HasPayloadValue. rewrite Hp, lookup_fmap. by destruct (payload !! k).
  - intros k v Hv. unfold GetPayloadString, GetPayloadBool, GetPayloadInt, GetInt, GetPayloadStringSlice, GetString, GetBool, GetInt64, GetFloat64, GetStringSlice.
    rewrite Hp, lookup_fmap, Hv. destruct v; cbn [fmap option_fmap option_map received]; try done; [..|apply strings_of_strings];
      split; try done; intros Hz; apply (f_of_Z_small _ Hz).
Qed.

(** C28: Tokens round trip until they expire.  From a manager with a secret, an
    identifier and a subject in UTF-8 and a payload that JSON can carry, a token is
    generated, and until the second in which its lifetime ends it decodes to them:
    the identifier and the subject as they are, the payload as JSON brings it back,
    which for the helpers means the same strings, booleans and string lists, and
    the same integers below 2^53 (a larger one may be rounded to a float64).  The
    last second may be missing up to a nanosecond, since the claim is in whole
    seconds.  From then on the token is refused and counts as expired. *)
Theorem token_roundtrip tm (now : Z) (jti subject : string) payload (expiry : Z) :
  fine now jti subject payload expiry → (0 < expires_at now expiry)%Z →
  (now + expiry - second < expires_at now expiry ≤ now + expiry)%Z ∧
  if decide (secret tm = "") then generateToken tm now jti subject payload expiry = Err ErrNeedTokenProvider
  else ∃ token, generateToken tm now jti subject payload expiry = Ok token ∧ ∀ now',
    if decide (now' < expires_at now expiry)%Z then
      ∃ c, DecodeToken tm now' token = Ok c ∧ GetTokenID c = jti ∧ GetSubject c = subject ∧
        GetIssuedAt c = (if (0 <? Unix now)%Z then Some (Unix now * second)%Z else None) ∧ GetExpiration c = Some (expires_at now expiry) ∧
        comes_back payload c ∧ ManagerGetPayload tm now' token = Ok (GetPayload c) ∧
        ManagerIsTokenExpired tm now' token = false ∧ GetTokenExpiry tm now' token = Ok (expires_at now expiry)
    else is_Err (DecodeToken tm now' token) = true ∧ ManagerIsTokenExpired tm now' token = true.
Proof.
  intros Hf Hp. split; [apply expires_bounds|]. case_decide as Hsec; [unfold generateToken; by rewrite Hsec|].
  destruct (decode_generated tm _ _ _ _ _ Hf (expires_nonzero _ _ Hp) Hsec) as (token & Hg & Hd). exists token. split; [exact Hg|]. intros now'. specialize (Hd now').
  destruct (decoded_fields now jti subject payload expiry) as (Hj & Hs & _ & He & _ & Hpl & Hpl').
  destruct (decoded_times now jti subject payload expiry (proj1 Hf) (proj1 (proj2 Hf)) Hp) as (Hx & Hexp & Hiat). case_decide as Hn.
  - exists (decoded now jti subject payload expiry). unfold GetTokenID, GetSubject, GetString, ManagerGetPayload, ManagerIsTokenExpired, GetTokenExpiry.
    rewrite Hd, Hj, Hs, Hpl'. cbn [rbind]. rewrite He, (Hx _ He), Hpl. split_and!; try done; [apply payload_comes_back|apply Z.ltb_ge; lia].
  - split; [done|]. unfold ManagerIsTokenExpired. by destruct (DecodeToken tm now' token).
Qed.

(** Refreshing at regular intervals [d], [n] times. *)
Fixpoint refresh_every tm (d threshold : Z) (n : nat) (now : Z) (token : T) : res token_error T :=
  match n with
  | O => Ok token
  | S n' => rbind (RefreshTokenIfNeeded tm (now + d) token threshold) (λ p, refresh_every tm d threshold n' (now + d) p.1)
  end.

Lemma received_payload n payload : writable_claims n payload → received <$> (received <$> payload) = received <$> payload.
Proof.
  intros Hp. rewrite <- map_fmap_compose. apply map_fmap_ext. intros k v Hv. cbn. apply received_twice. by destruct (Hp k v Hv) as (_ & Hw & _).
Qed.

(** C33: Any token becomes an access token, and a session never ends.  A token of
    any subject — a refresh token, or one for registration — that is refreshed
    before it expires, and not too early for the threshold, gives a token with
    subject "access", the same identifier and a full lifetime of access; and so on
    for any number of rounds at an interval [d], as long as each comes before the
    lifetime ends and within the threshold, and the clock does not run out of its
    64 bits. *)
Theorem session_never_ends tm (now d threshold : Z) (jti subject : string) payload (expiry : Z) (token : T) (n : nat) :
  fine now jti subject payload expiry → writable_claims (max_depth - 1) (received <$> payload) →
  generateToken tm now jti subject payload expiry = Ok token → (0 ≤ now)%Z → (second ≤ d)%Z →
  (now + d < expires_at now expiry ≤ max_int64)%Z → (expires_at now expiry - (now + d) ≤ threshold)%Z →
  (d + second ≤ accessTokenExpiry tm)%Z → (accessTokenExpiry tm - d ≤ threshold)%Z →
  (now + Z.of_nat (S n) * d + accessTokenExpiry tm ≤ max_int64)%Z →
  ∃ token' c, refresh_every tm d threshold (S n) now token = Ok token' ∧
    DecodeToken tm (now + Z.of_nat (S n) * d) token' = Ok c ∧ IsAccessToken c = true ∧ GetTokenID c = jti ∧
    GetExpiration c = Some (expires_at (now + Z.of_nat (S n) * d) (accessTokenExpiry tm)).
Proof.
  intros Hf Hpl Hg Hnow Hd He Ht Ha1 Ha2 Hmax. assert (second = 1000000000)%Z as Hs by done.
  assert (secret tm ≠ "") as Hsec by (intros E; revert Hg; unfold generateToken; by rewrite E).
  revert now subject payload expiry token Hf Hpl Hg Hnow He Ht Hmax. induction n as [|n IH]; intros now subject payload expiry token Hf Hpl Hg Hnow He Ht Hmax.
  all: pose proof (refresh_step tm now jti subject payload expiry token (now + d) threshold Hf Hg ltac:(lia) ltac:(lia) ltac:(lia)) as Hr;
    rewrite decide_False in Hr by lia; pose proof (expires_bounds (now + d) (accessTokenExpiry tm)) as Hb;
    assert (0 < expires_at (now + d) (accessTokenExpiry tm))%Z as Hpos by lia;
    assert (fine (now + d) jti "access" (received <$> payload) (accessTokenExpiry tm)) as Hf'
      by (destruct Hf as (_ & _ & Hj & _); unfold fine, int64, min_int64, max_int64 in *; split_and!; first [done|lia]);
    destruct (decode_generated tm _ _ _ _ _ Hf' (expires_nonzero _ _ Hpos) Hsec) as (token' & Hg' & Hdec);
    rewrite Hg' in Hr; cbn [refresh_every]; rewrite Hr; cbn [rbind fst].
  - specialize (Hdec (now + d)%Z). rewrite decide_True in Hdec by lia.
    destruct (decoded_fields (now + d) jti "access" (received <$> payload) (accessTokenExpiry tm)) as (Hj & Hsub & _).
    destruct (decoded_times (now + d) jti "access" (received <$> payload) (accessTokenExpiry tm) (proj1 Hf') (proj1 (proj2 Hf')) Hpos) as (_ & Hexp & _).
    replace (now + Z.of_nat 1 * d)%Z with (now + d)%Z by lia. eexists _, _. split; [done|]. split; [exact Hdec|].
    unfold IsAccessToken, GetTokenID, GetSubject, GetString. rewrite Hj, Hsub. by split_and!.
  - destruct (IH (now + d)%Z "access" (received <$> payload) (accessTokenExpiry tm) token' Hf') as (t & c & H1 & H2);
      [rewrite (received_payload (max_depth - 1)); [done|apply Hf]|exact Hg'|lia..|].
    exists t, c. replace (now + Z.of_nat (S (S n)) * d)%Z with (now + d + Z.of_nat (S n) * d)%Z by lia. by split.
Qed.

(** Where the checks of the times disagree.  [ValidateTokenTiming] accepts
    what is neither expired nor inactive, and also claims that become valid at
    this very moment, which [IsTokenActive] does not; claims without an
    expiration count as unexpired in the helpers and as expired in the manager;
    and at the moment of expiration the helpers still accept what the library
    refuses. *)
Theorem timing_checks_disagree tm (now : Z) (c : claims) (text : string) :
  (ValidateTokenTiming now c = Ok tt ↔ IsTokenExpired now c = false ∧ (IsTokenActive now c = true ∨ GetNotBefore c = Some now)) ∧
  (secret tm ≠ "" → unmarshal_claims text = Some c → c !! "exp" = None → c !! "nbf" = None →
    IsTokenExpired now c = false ∧ ManagerIsTokenExpired tm now (sign (secret tm) text) = true ∧
    DecodeToken tm now (sign (secret tm) text) = Ok c) ∧
  (∀ e, secret tm ≠ "" → unmarshal_claims text = Some c → c !! "exp" = Some (AFloat64 (f_of_Z e)) → (0 < e < 2 ^ 53)%Z → now = (e * second)%Z →
    IsTokenExpired now c = false ∧ is_Err (DecodeToken tm now (sign (secret tm) text)) = true).
Proof.
  split_and!.
  - unfold ValidateTokenTiming, IsTokenExpired, IsTokenActive.
    destruct (match GetExpiration c with Some exp => (exp <? now)%Z | None => false end); [by split; [|intros [? _]]|].
    destruct (GetNotBefore c) as [nbf|]; [|split; [split; [done|by left]|done]].
    destruct (Z.ltb_spec now nbf), (Z.ltb_spec nbf now); try lia.
    + split; [done|]. intros [_ [?|[= ->]]]; [done|lia].
    + split; [|done]. intros _. split; [done|by left].
    + split; [|done]. intros _. split; [done|]. right. f_equal. lia.
  - intros Hs Htext He Hn. unfold ManagerIsTokenExpired, DecodeToken, ValidateToken. destruct (String.eqb_spec (secret tm) ""); [done|].
    assert (timely now c = true) as Ht by (unfold timely; by rewrite He, Hn).
    rewrite (verify_signed _ _ _ _ Htext Ht), He. split_and!; [|done..].
    unfold IsTokenExpired, GetExpiration, time_claim, GetFloat64. by rewrite He.
  - intros e Hs Htext He H0 Hnow. destruct (f_of_Z_small e) as (Hi & Hfl & _ & Hlt & Hz); [lia|]. split.
    + unfold IsTokenExpired, GetExpiration, time_claim, GetFloat64. rewrite He, Hlt, Hi, time_Unix_id by lia. destruct (0 <? e)%Z; [|done]. apply Z.ltb_ge. lia.
    + unfold DecodeToken, ValidateToken. destruct (String.eqb_spec (secret tm) ""); [done|]. eapply verify_untimely; [exact Htext|].
      unfold timely, numeric_date. rewrite He, Hfl, Hz, time_Unix_id by lia.
      assert ((e =? 0)%Z = false ∧ (now <? e * second)%Z = false) as [-> ->]; [|done]. split; [apply Z.eqb_neq; lia|apply Z.ltb_ge; lia].
Qed.
End Properties.

(** The durations of the configuration are ignored.  Whatever its strings
    say, [ProvideTokenManager] makes the manager with the default lifetimes. *)
Theorem configured_lifetimes_ignored (c : JWTConfig) :
  ProvideTokenManager (Some c) = mkManager (cfg_Secret c) DefaultAccessTokenExpire DefaultRefreshTokenExpire DefaultRegisterTokenExpire.
Proof.
  destruct c as [s a r g]. unfold ProvideTokenManager. cbn [cfg_Secret cfg_Access cfg_Refresh cfg_Register].
  destruct (String.eqb_spec s "") as [->|_]; [done|]. unfold NewTokenManager. cbn [AccessTokenExpiry RefreshTokenExpiry RegisterTokenExpiry].
  by destruct (String.eqb a ""), (String.eqb r ""), (String.eqb g "").
Qed.

(** ** A library without cryptography *)

(** Tokens carry their secret and their text. *)
#[global, program] Instance plain_signer : Signer (string * string) := {
  sign secret text := (secret, text);
  verify secret now token :=
    if String.eqb token.1 secret then
      match unmarshal_claims token.2 with
      | Some c => if timely now c then Ok c else Err ErrTokenExpired
      | None => Err ErrInvalidToken
      end
    else Err ErrInvalidToken }.
Next Obligation. intros s now text c Hc Ht. cbn [fst snd]. by rewrite String.eqb_refl, Hc, Ht. Qed.
Next Obligation. intros s now text c Hc Ht. cbn [fst snd]. by rewrite String.eqb_refl, Hc, Ht. Qed.

Definition demo_manager : TokenManager := NewTokenManager "s3cret" None.

(** A user with roles, an identifier beyond 2^53, a score and a nested map. *)
Definition demo_payload : claims :=
  {["roles" := AStrs ["admin"; "editor"]; "id" := AInt64 9007199254740993; "age" := AInt 42; "score" := AFloat64 (of_decimal 25 (-1));
    "ratio" := AFloat32 (of_decimal32 1 (-1)); "org" := AMap [("name", AStr "acme"); ("active", ABool true)]]}.

Lemma demo_fine subject : valid_utf8 subject = true → fine 1500000000 "42" subject demo_payload DefaultRegisterTokenExpire.
Proof.
  intros Hs. unfold fine. split_and!; [split; vm_compute; discriminate|split; vm_compute; discriminate|done|exact Hs|].
  assert (10 < max_depth - 1)%nat as Hd by (apply Nat.ltb_lt; vm_compute; reflexivity). unfold writable_claims, demo_payload.
  repeat (apply map_Forall_insert_2; [split_and!; [done|vm_compute; reflexivity|cbn; lia]|]). apply map_Forall_empty.
Qed.

Lemma token_roundtrip_witness :
  ∃ token : string * string, generateToken demo_manager 1500000000 "42" "register" demo_payload DefaultRegisterTokenExpire = Ok token ∧
    ∃ c, DecodeToken demo_manager 2000000000 token = Ok c ∧ GetSubject c = "register" ∧ GetPayloadInt c "age" = 42%Z ∧
      GetPayloadInt c "id" = 9007199254740992%Z ∧ GetPayloadStringSlice c "roles" = ["admin"; "editor"].
Proof.
  destruct (token_roundtrip (T := string * string) demo_manager 1500000000 "42" "register" demo_payload DefaultRegisterTokenExpire) as [_ Hr].
  - apply demo_fine. reflexivity.
  - reflexivity.
  - rewrite decide_False in Hr by discriminate. destruct Hr as (token & Hg & Hr). exists token. split; [exact Hg|]. specialize (Hr 2000000000%Z).
    rewrite decide_True in Hr by reflexivity. destruct Hr as (c & Hc & _ & Hs & _ & _ & (_ & _ & Hv) & _). exists c. split; [exact Hc|]. split; [exact Hs|].
    split; [apply (Hv "age" (AInt 42) eq_refl); reflexivity|]. split; [|exact (Hv "roles" (AStrs ["admin"; "editor"]) eq_refl)].
    destruct (Hv "id" (AInt64 9007199254740993) eq_refl) as [Hid _]. rewrite Hid. vm_compute. reflexivity.
Defined.

Definition demo_token (subject : string) : string * string :=
  ("s3cret", default "" (marshal_claims (token_claims 1500000000 "42" subject demo_payload DefaultRegisterTokenExpire))).

Lemma session_never_ends_witness :
  ∃ token' c, refresh_every demo_manager (10 * 60 * second) (2 * Hour) 6 1500000000 (demo_token "register") = Ok token' ∧
    DecodeToken demo_manager (1500000000 + 6 * (10 * 60 * second)) token' = Ok c ∧ IsAccessToken c = true.
Proof.
  destruct (session_never_ends (T := string * string) demo_manager 1500000000 (10 * 60 * second) (2 * Hour) "42" "register" demo_payload DefaultRegisterTokenExpire
    (demo_token "register") 5) as (t & c & H1 & H2 & H3 & _).
  - apply demo_fine. reflexivity.
  - assert (10 < max_depth - 1)%nat as Hd by (apply Nat.ltb_lt; vm_compute; reflexivity). unfold demo_payload. rewrite !fmap_insert, map_fmap_singleton.
    repeat (apply map_Forall_insert_2; [split_and!; [done|vm_compute; reflexivity|cbn; lia]|]). apply map_Forall_singleton. split_and!; [done|vm_compute; reflexivity|].
    replace (levels _) with 1%nat by (vm_compute; reflexivity). lia.
  - vm_compute. reflexivity.
  - vm_compute. discriminate.
  - vm_compute. discriminate.
  - split; vm_compute; [reflexivity|discriminate].
  - vm_compute. discriminate.
  - vm_compute. discriminate.
  - vm_compute. discriminate.
  - vm_compute. discriminate.
  - exists t, c. split; [exact H1|]. split; [exact H2|exact H3].
Defined.

Lemma timing_checks_disagree_witness :
  let text := default "" (marshal_claims {["exp" := AInt64 5]}) in
  ∃ c, unmarshal_claims text = Some c ∧ IsTokenExpired (5 * second) c = false ∧
    is_Err (DecodeToken (T := string * string) demo_manager (5 * second) (sign "s3cret" text)) = true.
Proof.
  intros text. assert (unmarshal_claims text = Some {["exp" := AFloat64 (f_of_Z 5)]}) as Hc by (vm_compute; reflexivity).
  exists {["exp" := AFloat64 (f_of_Z 5)]}. split; [exact Hc|].
  destruct (timing_checks_disagree (T := string * string) demo_manager (5 * second) {["exp" := AFloat64 (f_of_Z 5)]} text) as (_ & _ & H).
  apply (H 5%Z); [discriminate|exact Hc|reflexivity|lia|reflexivity].
Defined.

(** Float32 values travel as their shortest texts. *)
Example single_texts : json_float32 (of_decimal32 1 (-1)) = Some "0.1" ∧ json_float32 (of_decimal32 16777217 0) = Some "16777216" ∧
  json_float32 (of_decimal32 123456789 0) = Some "123456790" ∧ json_float32 (of_decimal32 1 21) = Some "1e+21" ∧
  json_float32 (of_decimal32 15 (-8)) = Some "1.5e-7".
Proof. vm_compute. repeat split. Qed.
