(* ===== verification/ObjectStore.v ===== *)
(** * Object storage: configuration and drivers

    Models src/oss/oss.go: the validation of a configuration, which also rewrites
    it, the registry of drivers and the choice of a store.  The rewritten
    configuration is the result; on an error it is only trimmed.  Parsing and printing a URL are arguments, as are the
    drivers; the local store is the one of FileStore. *)

From stdpp Require Import base tactics option list gmap strings.
From Stdlib Require Import ZArith Ascii Lia.
From S2P Require Import Prelude Lexer Base64 GoStrings FileStore Paging.

Open Scope string_scope.

(** ** Configurations *)

Record Config := mkConfig {
  Provider : string; ID : string; Secret : string; Region : string; Bucket : string; Endpoint : string;
  ServiceAccountJSON : string; SharedFolder : string; OtpCode : string; Debug : bool; AppID : string }.
#[global] Instance config_eq_dec : EqDecision Config.
Proof. solve_decision. Defined.

Inductive oss_error :=
| EProviderRequired | ERequired (provider : string) | EUnsupported (provider : string)
| EEndpointEmpty | EUrl | EHostEmpty | EScheme | EBucketRequired | EAppIDRequired | EAppIDMismatch
| ENilConfig | EFileSystem | EDriverNotFound (name : string) | EConnect.
#[global] Instance oss_error_eq_dec : EqDecision oss_error.
Proof. solve_decision. Defined.

Definition with_provider (p : string) (c : Config) : Config :=
  mkConfig p (ID c) (Secret c) (Region c) (Bucket c) (Endpoint c) (ServiceAccountJSON c) (SharedFolder c) (OtpCode c) (Debug c) (AppID c).
Definition with_region (r : string) (c : Config) : Config :=
  mkConfig (Provider c) (ID c) (Secret c) r (Bucket c) (Endpoint c) (ServiceAccountJSON c) (SharedFolder c) (OtpCode c) (Debug c) (AppID c).
Definition with_bucket (b a : string) (c : Config) : Config :=
  mkConfig (Provider c) (ID c) (Secret c) (Region c) b (Endpoint c) (ServiceAccountJSON c) (SharedFolder c) (OtpCode c) (Debug c) a.
Definition with_endpoint (e : string) (c : Config) : Config :=
  mkConfig (Provider c) (ID c) (Secret c) (Region c) (Bucket c) e (ServiceAccountJSON c) (SharedFolder c) (OtpCode c) (Debug c) (AppID c).

Definition empty (s : string) : bool := String.eqb s "".
Definition or_default (d s : string) : string := if empty s then d else s.
(** The lower case of Paging, exact up to characters that no provider's name has. *)
Definition trim_config (c : Config) : Config :=
  mkConfig (ToLower (TrimSpace (Provider c))) (TrimSpace (ID c)) (TrimSpace (Secret c)) (TrimSpace (Region c)) (TrimSpace (Bucket c))
    (TrimSpace (Endpoint c)) (TrimSpace (ServiceAccountJSON c)) (SharedFolder c) (OtpCode c) (Debug c) (TrimSpace (AppID c)).

(** *** Tencent buckets *)

(** The parts before and after the last dash. *)
Fixpoint last_dash (s : string) : option (string * string) :=
  match s with
  | EmptyString => None
  | String c s' =>
      match last_dash s' with
      | Some (a, b) => Some (String c a, b)
      | None => if Ascii.eqb c "-" then Some (EmptyString, s') else None
      end
  end.
Fixpoint all_digits (s : string) : bool := match s with EmptyString => true | String c s' => isDigit c && all_digits s' end.
(** A bucket with a number after its last dash, both parts not empty. *)
Definition bucket_suffix (bucket : string) : option (string * string) :=
  match last_dash bucket with
  | Some (name, app) => if negb (empty name) && negb (empty app) && all_digits app then Some (name, app) else None
  | None => None
  end.
Definition normalizeTencentBucketAndAppID (bucket appID : string) : res oss_error (string * string) :=
  let bucket := TrimSpace bucket in
  let appID := TrimSpace appID in
  if empty bucket then Err EBucketRequired
  else match bucket_suffix bucket with
  | None => if empty appID then Err EAppIDRequired else Ok (bucket, appID)
  | Some (name, suffixAppID) =>
      if empty appID then Ok (name, suffixAppID)
      else if String.eqb suffixAppID appID then Ok (name, appID) else Err EAppIDMismatch
  end.

(** *** Endpoints *)

Record Url := mkUrl { u_scheme : string; u_host : string; u_path : string; u_rest : string }.
Fixpoint drop_slashes (s : string) : string := match s with String c s' => if Ascii.eqb c slash then drop_slashes s' else s | EmptyString => s end.
(** [strings.TrimRight(path, "/")]. *)
Definition trim_slashes (s : string) : string := str_rev (drop_slashes (str_rev s "")) "".

Section Urls.
(** [url.Parse] and [u.String()]. *)
Context (url_parse : string → option Url) (url_text : Url → string).

Definition normalizeHTTPEndpoint (endpoint : string) : res oss_error string :=
  let endpoint := TrimSpace endpoint in
  if empty endpoint then Err EEndpointEmpty
  else
    let endpoint := if Contains endpoint "://" then endpoint else "https://" +:+ endpoint in
    match url_parse endpoint with
    | None => Err EUrl
    | Some u =>
        if empty (u_host u) then Err EHostEmpty
        else if negb (String.eqb (u_scheme u) "http") && negb (String.eqb (u_scheme u) "https") then Err EScheme
        else Ok (url_text (mkUrl (u_scheme u) (u_host u) (trim_slashes (u_path u)) (u_rest u)))
    end.

Definition is_one (l : list string) (s : string) : bool := existsb (String.eqb s) l.
Definition any_empty (l : list string) : bool := existsb empty l.

(** The switch of [Validate], on a trimmed configuration. *)
Definition check_provider (c : Config) : res oss_error Config :=
  let p := Provider c in
  let keys := [ID c; Secret c; Bucket c] in
  if is_one ["filesystem"; "local"] p then Ok (with_provider "filesystem" (with_bucket (or_default "./uploads" (Bucket c)) (AppID c) c))
  else if is_one ["aliyun"; "aliyun-oss"; "oss"] p then
    if any_empty keys then Err (ERequired "aliyun") else Ok (with_provider "aliyun" (with_region (or_default "cn-hangzhou" (Region c)) c))
  else if is_one ["s3"; "aws-s3"; "aws"] p then
    if any_empty keys then Err (ERequired "s3") else Ok (with_provider "s3" (with_region (or_default "us-east-1" (Region c)) c))
  else if is_one ["r2"; "cloudflare-r2"] p then
    if any_empty (keys ++ [Endpoint c]) then Err (ERequired "r2")
    else rbind (normalizeHTTPEndpoint (Endpoint c)) (λ e, Ok (with_provider "s3" (with_region (or_default "auto" (Region c)) (with_endpoint e c))))
  else if is_one ["b2"; "backblaze-b2"] p then
    if any_empty (keys ++ [Endpoint c; Region c]) then Err (ERequired "b2")
    else rbind (normalizeHTTPEndpoint (Endpoint c)) (λ e, Ok (with_provider "s3" (with_endpoint e c)))
  else if is_one ["azure"; "azure-blob"] p then
    if any_empty keys then Err (ERequired "azure")
    else if empty (Endpoint c) then Ok (with_provider "azure" c)
    else rbind (normalizeHTTPEndpoint (Endpoint c)) (λ e, Ok (with_provider "azure" (with_endpoint e c)))
  else if is_one ["tencent"; "tencent-cos"; "cos"] p then
    if any_empty keys then Err (ERequired "tencent")
    else rbind (normalizeTencentBucketAndAppID (Bucket c) (AppID c)) (λ '(b, a),
      Ok (with_provider "tencent" (with_region (or_default "ap-guangzhou" (Region c)) (with_bucket b a c))))
  else if is_one ["minio"] p then
    if any_empty (keys ++ [Endpoint c]) then Err (ERequired "minio") else Ok (with_provider "minio" c)
  else if is_one ["qiniu"] p then
    if any_empty keys then Err (ERequired "qiniu") else Ok (with_provider "qiniu" (with_region (or_default "cn-east-1" (Region c)) c))
  else if is_one ["gcs"; "google"; "google-cloud"] p then
    if empty (Bucket c) then Err (ERequired "gcs")
    else if empty (Secret c) && empty (ServiceAccountJSON c) then Err (ERequired "gcs") else Ok (with_provider "gcs" c)
  else if is_one ["synology"] p then
    if any_empty (keys ++ [Endpoint c]) then Err (ERequired "synology") else Ok (with_provider "synology" c)
  else Err (EUnsupported p).

Definition Validate (c : Config) : res oss_error Config :=
  let c := trim_config c in
  if empty (Provider c) then Err EProviderRequired else check_provider c.

(** ** Drivers *)

(** A driver connects, with an error or a store; [Driver] stands for what it is. *)
Context {Driver Store : Type} (name_of : Driver → string) (connect : Driver → Config → option Store).

Definition RegisterDriver (driver : Driver) (registry : gmap string Driver) : res oss_error (gmap string Driver) :=
  match registry !! name_of driver with Some _ => Panic | None => Ok (<[name_of driver := driver]> registry) end.
Definition GetDriver (name : string) (registry : gmap string Driver) : res oss_error Driver :=
  match registry !! name with Some d => Ok d | None => Err (EDriverNotFound name) end.

(** A local store, by its folder, or the one of a driver. *)
Inductive storage := Local (root : string) | Remote (s : Store).
(** The configuration behind the pointer is rewritten, also when connecting fails. *)
Definition NewStorage (cwd : string) (registry : gmap string Driver) (c : option Config) (fs : fsys) : res oss_error storage * option Config * fsys :=
  match c with
  | None => (Err ENilConfig, None, fs)
  | Some c0 =>
      match Validate c0 with
      | Ok c =>
          if String.eqb (Provider c) "filesystem" || String.eqb (Provider c) "local" then
            let '(r, fs') := NewFileSystem cwd (Bucket c) fs in
            (match r with Ok root => Ok (Local root) | _ => Err EFileSystem end, Some c, fs')
          else
            (rbind (GetDriver (Provider c) registry) (λ d, of_opt (Remote <$> connect d c) EConnect), Some c, fs)
      | Err e => (Err e, Some (trim_config c0), fs)
      | _ => (Panic, Some (trim_config c0), fs)
      end
  end.
End Urls.

(** ** Properties *)

(** *** Trimming *)

Lemma strip_prefix_spec p s r : strip_prefix p s = Some r ↔ s = p +:+ r.
Proof.
  revert s. induction p as [|a p IH]; intros s; [cbn; split; [by intros [= ->]|by intros ->]|].
  destruct s as [|b s]; cbn [strip_prefix]; [split; [done|by intros [=]]|].
  change (String a p +:+ r) with (String a (p +:+ r)). destruct (Ascii.eqb_spec a b) as [->|Hab].
  - rewrite IH. split; [by intros ->|by intros [= ->]].
  - split; [done|intros [= ? ?]; congruence].
Qed.
Lemma first_prefix_None ps s : first_prefix ps s = None ↔ Forall (λ p, strip_prefix p s = None) ps.
Proof.
  induction ps as [|p ps IH]; cbn [first_prefix]; [split; [constructor|done]|]. rewrite list.Forall_cons.
  destruct (strip_prefix p s); [split; [done|by intros [? _]]|]. rewrite IH. split; [done|by intros [_ ?]].
Qed.
Lemma first_prefix_Some ps s r : first_prefix ps s = Some r → ∃ p, p ∈ ps ∧ s = p +:+ r.
Proof.
  induction ps as [|p ps IH]; cbn [first_prefix]; [done|]. destruct (strip_prefix p s) as [r'|] eqn:Hp.
  - intros [= <-]. exists p. split; [left|by apply strip_prefix_spec].
  - intros (q & Hq & ->)%IH. exists q. split; [by right|done].
Qed.
Lemma first_prefix_app ps s t : first_prefix ps (s +:+ t) = None → first_prefix ps s = None.
Proof.
  rewrite !first_prefix_None. intros H. eapply Forall_impl; [exact H|]. intros p Hp. cbn.
  destruct (strip_prefix p s) as [r|] eqn:Hs; [|done]. apply strip_prefix_spec in Hs as ->.
  assert (strip_prefix p ((p +:+ r) +:+ t) = Some (r +:+ t)) as Hr by (apply strip_prefix_spec; by rewrite str_app_assoc).
  congruence.
Qed.

Lemma trim_left_spec ps n s : Forall (λ p, p ≠ "") ps → (String.length s ≤ n)%nat →
  ∃ a, s = a +:+ trim_left n ps s ∧ first_prefix ps (trim_left n ps s) = None.
Proof.
  intros Hps. revert s. induction n as [|n IH]; intros s Hn; cbn [trim_left].
  - exists "". split; [done|]. destruct s; [|cbn in Hn; lia]. apply first_prefix_None. eapply Forall_impl; [exact Hps|]. by intros [] ?.
  - destruct (first_prefix ps s) as [r|] eqn:Hr; [|by exists ""].
    apply first_prefix_Some in Hr as (p & Hp & ->). rewrite list.Forall_forall in Hps. specialize (Hps p Hp).
    destruct (IH r) as (a & Ha & Hf); [rewrite str_length_app in Hn; destruct p; [done|cbn in Hn; lia]|].
    exists (p +:+ a). split; [|done]. by rewrite str_app_assoc, <- Ha.
Qed.
Lemma trim_left_fixed ps n s : first_prefix ps s = None → trim_left n ps s = s.
Proof. intros H. destruct n; cbn [trim_left]; [done|]. by rewrite H. Qed.

Lemma str_rev_concat a b : str_rev (a +:+ b) "" = str_rev b "" +:+ str_rev a "".
Proof.
  induction a as [|c a IH]; [cbn; by rewrite str_app_nil_r|]. change (String c a +:+ b) with (String c (a +:+ b)). cbn [str_rev].
  by rewrite (str_rev_app (a +:+ b)), (str_rev_app a), IH, str_app_assoc.
Qed.
Lemma str_rev_length s : String.length (str_rev s "") = String.length s.
Proof. induction s as [|c s IH]; [done|]. cbn [str_rev]. rewrite str_rev_app, str_length_app, IH. cbn. lia. Qed.

Lemma spaces_nonempty : Forall (λ p, p ≠ "") spaces.
Proof. apply (list.Forall_impl (λ p, negb (empty p) = true)); [apply forallb_Forall; vm_compute; reflexivity|]. by intros [] H. Qed.
Lemma rev_nonempty : Forall (λ p, p ≠ "") ((λ p, str_rev p "") <$> spaces).
Proof. apply (list.Forall_impl (λ p, negb (empty p) = true)); [apply forallb_Forall; vm_compute; reflexivity|]. by intros [] H. Qed.

Lemma TrimSpace_trim s : TrimSpace (TrimSpace s) = TrimSpace s.
Proof.
  unfold TrimSpace at 2 3. destruct (trim_left_spec spaces (String.length s) s spaces_nonempty) as (a & Ha & Hl); [done|].
  set (l := trim_left _ spaces s) in *. set (rs := (λ p, str_rev p "") <$> spaces).
  destruct (trim_left_spec rs (String.length l) (str_rev l "") rev_nonempty) as (b & Hb & Hr); [by rewrite str_rev_length|].
  set (r := trim_left _ rs _) in *. unfold TrimSpace.
  assert (l = str_rev r "" +:+ str_rev b "") as Hlr by (by rewrite <- str_rev_concat, <- Hb, str_rev_rev).
  rewrite (trim_left_fixed spaces); [|by rewrite Hlr in Hl; apply first_prefix_app in Hl].
  by rewrite str_rev_rev, (trim_left_fixed rs).
Qed.

(** *** The table of providers *)

Inductive kind := Filesystem | Aliyun | S3 | R2 | B2 | Azure | Tencent | MinIO | Qiniu | GCS | Synology.
Definition kinds : list kind := [Filesystem; Aliyun; S3; R2; B2; Azure; Tencent; MinIO; Qiniu; GCS; Synology].
Definition aliases (k : kind) : list string :=
  match k with
  | Filesystem => ["filesystem"; "local"] | Aliyun => ["aliyun"; "aliyun-oss"; "oss"] | S3 => ["s3"; "aws-s3"; "aws"]
  | R2 => ["r2"; "cloudflare-r2"] | B2 => ["b2"; "backblaze-b2"] | Azure => ["azure"; "azure-blob"] | Tencent => ["tencent"; "tencent-cos"; "cos"]
  | MinIO => ["minio"] | Qiniu => ["qiniu"] | GCS => ["gcs"; "google"; "google-cloud"] | Synology => ["synology"]
  end.
Definition driver_of (k : kind) : string :=
  match k with
  | Filesystem => "filesystem" | Aliyun => "aliyun" | S3 | R2 | B2 => "s3" | Azure => "azure" | Tencent => "tencent" | MinIO => "minio"
  | Qiniu => "qiniu" | GCS => "gcs" | Synology => "synology"
  end.
Definition error_name (k : kind) : string := match k with R2 => "r2" | B2 => "b2" | _ => driver_of k end.
Definition kind_of (p : string) : option kind := List.find (λ k, is_one (aliases k) p) kinds.
(** The fields that must not be empty; one of the keys of a service account will do. *)
Definition required (k : kind) (c : Config) : list string :=
  match k with
  | Filesystem => []
  | Aliyun | S3 | Azure | Tencent | Qiniu => [ID c; Secret c; Bucket c]
  | R2 | MinIO | Synology => [ID c; Secret c; Bucket c; Endpoint c]
  | B2 => [ID c; Secret c; Bucket c; Endpoint c; Region c]
  | GCS => [Bucket c; if empty (Secret c) then ServiceAccountJSON c else Secret c]
  end.
Definition region_default (k : kind) (r : string) : string :=
  match k with
  | Aliyun => or_default "cn-hangzhou" r | S3 => or_default "us-east-1" r | R2 => or_default "auto" r
  | Tencent => or_default "ap-guangzhou" r | Qiniu => or_default "cn-east-1" r | _ => r
  end.

Section Reference.
Context (url_parse : string → option Url) (url_text : Url → string).

Definition rewritten_endpoint (k : kind) (e : string) : res oss_error string :=
  match k with
  | R2 | B2 => normalizeHTTPEndpoint url_parse url_text e
  | Azure => if empty e then Ok e else normalizeHTTPEndpoint url_parse url_text e
  | _ => Ok e
  end.
Definition rewritten_bucket (k : kind) (b a : string) : res oss_error (string * string) :=
  match k with Filesystem => Ok (or_default "./uploads" b, a) | Tencent => normalizeTencentBucketAndAppID b a | _ => Ok (b, a) end.

Lemma empty_alias p : empty p = true → kind_of p = None.
Proof. unfold empty. by intros ->%String.eqb_eq. Qed.

Lemma config_eta c : mkConfig (Provider c) (ID c) (Secret c) (Region c) (Bucket c) (Endpoint c) (ServiceAccountJSON c) (SharedFolder c) (OtpCode c) (Debug c) (AppID c) = c.
Proof. by destruct c. Qed.

(** [Validate] is the table of the providers: the name, trimmed and in lower case,
    is an alias of a kind; the fields the kind requires are there; its endpoint
    and its bucket are rewritten; the region gets the default of the kind, and the
    provider the name of its driver. *)
Definition validated (c : Config) : res oss_error Config :=
  match kind_of (Provider c) with
  | None => Err (if empty (Provider c) then EProviderRequired else EUnsupported (Provider c))
  | Some k =>
      if any_empty (required k c) then Err (ERequired (error_name k))
      else
        rbind (rewritten_endpoint k (Endpoint c)) (λ e,
        rbind (rewritten_bucket k (Bucket c) (AppID c)) (λ '(b, a),
        Ok (mkConfig (driver_of k) (ID c) (Secret c) (region_default k (Region c)) b e (ServiceAccountJSON c) (SharedFolder c) (OtpCode c) (Debug c) a)))
  end.
Lemma Validate_table c : Validate url_parse url_text c = validated (trim_config c).
Proof.
  rename c into c1. unfold Validate, validated. set (c := trim_config c1). destruct (empty (Provider c)) eqn:He; [by rewrite (empty_alias _ He)|]. unfold check_provider, kind_of, kinds.
  cbn [List.find aliases]. subst c. destruct (trim_config c1) as [p id sec reg buc en sa sf otp dbg app].
  cbn [Provider ID Secret Region Bucket Endpoint ServiceAccountJSON SharedFolder OtpCode Debug AppID].
  cbn [Provider] in He. repeat (destruct (is_one _ p); [clear He|]); [..|done];
    cbn [required error_name driver_of rewritten_endpoint rewritten_bucket region_default
      Provider ID Secret Region Bucket Endpoint ServiceAccountJSON SharedFolder OtpCode Debug AppID].
  all: try (destruct (any_empty _); [done|]); try done.
  all: try (by destruct (normalizeHTTPEndpoint _ _ en)).
  all: try (destruct (empty en); [done|]; by destruct (normalizeHTTPEndpoint _ _ en)).
  all: try (by destruct (normalizeTencentBucketAndAppID buc app) as [[]| | |]).
  unfold any_empty. cbn [existsb]. destruct (empty buc); [done|]. destruct (empty sec) eqn:Hs; [by destruct (empty sa)|]. by rewrite Hs.
Qed.

(** *** Validating again *)

Lemma digit_spaces c s ps : isDigit c = true → ps = spaces ∨ ps = (λ p, str_rev p "") <$> spaces → first_prefix ps (String c s) = None.
Proof.
  intros Hc Hps. apply first_prefix_None.
  assert (Forall (λ p, match p with String a _ => negb (isDigit a) | _ => false end = true) ps) as H
    by (destruct Hps as [-> | ->]; apply forallb_Forall; vm_compute; reflexivity).
  eapply Forall_impl; [exact H|]. intros [|a p] Ha; [done|]. cbn [strip_prefix]. destruct (Ascii.eqb_spec a c) as [->|]; [|done]. by rewrite Hc in Ha.
Qed.
Lemma all_digits_app a b : all_digits (a +:+ b) = all_digits a && all_digits b.
Proof. induction a as [|c a IH]; [done|]. change (String c a +:+ b) with (String c (a +:+ b)). cbn [all_digits]. by rewrite IH, andb_assoc. Qed.
Lemma all_digits_rev s : all_digits (str_rev s "") = all_digits s.
Proof. induction s as [|c s IH]; [done|]. cbn [str_rev]. rewrite str_rev_app, all_digits_app, IH. cbn. rewrite andb_true_r. apply andb_comm. Qed.
Lemma trim_digits ps n s : all_digits s = true → ps = spaces ∨ ps = (λ p, str_rev p "") <$> spaces → trim_left n ps s = s.
Proof.
  intros Hs Hps. destruct s as [|c s].
  - destruct n; [done|]. cbn [trim_left]. by destruct Hps as [-> | ->].
  - apply trim_left_fixed, digit_spaces; [|done]. by apply andb_true_iff in Hs as [? _].
Qed.
Lemma TrimSpace_digits s : all_digits s = true → TrimSpace s = s.
Proof. intros Hs. unfold TrimSpace. rewrite (trim_digits spaces) by auto. rewrite trim_digits; [apply str_rev_rev|by rewrite all_digits_rev|by right]. Qed.

Lemma last_dash_spec s a b : last_dash s = Some (a, b) → s = a +:+ "-" +:+ b.
Proof.
  revert a b. induction s as [|c s IH]; intros a b; [done|]. cbn [last_dash]. destruct (last_dash s) as [[a' b']|].
  - intros [= <- <-]. by rewrite (IH a' b').
  - destruct (Ascii.eqb_spec c "-") as [->|]; [|done]. by intros [= <- <-].
Qed.
Lemma bucket_suffix_spec s a b : bucket_suffix s = Some (a, b) → s = a +:+ "-" +:+ b ∧ a ≠ "" ∧ b ≠ "" ∧ all_digits b = true.
Proof.
  unfold bucket_suffix. destruct (last_dash s) as [[a' b']|] eqn:Hd; [|done]. apply last_dash_spec in Hd.
  destruct (empty a') eqn:Ha, (empty b') eqn:Hb, (all_digits b') eqn:Hg; cbn; try done. intros [= <- <-].
  unfold empty in *. apply String.eqb_neq in Ha, Hb. done.
Qed.

(** The bucket and the number that Tencent's are split into make the full name
    of the bucket with a dash: the name given when it has the number, and the
    name and the number given otherwise; none of the two is empty. *)
Theorem tencent_full_name bucket appID b a :
  normalizeTencentBucketAndAppID bucket appID = Ok (b, a) →
  b +:+ "-" +:+ a = match bucket_suffix (TrimSpace bucket) with Some _ => TrimSpace bucket | None => TrimSpace bucket +:+ "-" +:+ TrimSpace appID end ∧
  b ≠ "" ∧ a ≠ "" ∧ (TrimSpace appID = "" ∨ a = TrimSpace appID).
Proof.
  unfold normalizeTencentBucketAndAppID. destruct (empty (TrimSpace bucket)) eqn:Hb; [done|]. unfold empty in *. apply String.eqb_neq in Hb.
  destruct (bucket_suffix (TrimSpace bucket)) as [[name app]|] eqn:Hs.
  - apply bucket_suffix_spec in Hs as (Hs & Hn & Ha & _). destruct (String.eqb_spec (TrimSpace appID) "") as [He|He]; [|destruct (String.eqb_spec app (TrimSpace appID)) as [<-|]; [|done]];
      intros [= <- <-]; rewrite Hs; auto.
  - destruct (String.eqb_spec (TrimSpace appID) "") as [He|He]; [done|]. intros [= <- <-]. auto.
Qed.

Lemma kind_driver k : kind_of (driver_of k) = Some (match k with R2 | B2 => S3 | _ => k end).
Proof. by destruct k. Qed.
Lemma driver_trim k : ToLower (TrimSpace (driver_of k)) = driver_of k.
Proof. destruct k; vm_compute; reflexivity. Qed.
Lemma empty_default d s : empty d = false → empty (or_default d s) = false.
Proof. unfold or_default. destruct (empty s) eqn:Hs; [done|]. by rewrite Hs. Qed.
Lemma or_default_idem d s : empty d = false → or_default d (or_default d s) = or_default d s.
Proof. intros Hd. unfold or_default at 1. by rewrite empty_default. Qed.
Lemma or_default_trim d s : TrimSpace d = d → TrimSpace (or_default d (TrimSpace s)) = or_default d (TrimSpace s).
Proof. intros Hd. unfold or_default. case_match; [done|apply TrimSpace_trim]. Qed.

Lemma region_trim k r : TrimSpace (region_default k (TrimSpace r)) = region_default k (TrimSpace r).
Proof. destruct k; try apply TrimSpace_trim; apply or_default_trim; vm_compute; reflexivity. Qed.
Lemma region_idem k r : (k = B2 → empty r = false) →
  region_default (match k with R2 | B2 => S3 | _ => k end) (region_default k r) = region_default k r.
Proof.
  destruct k; cbn [region_default]; intros H; try done; try (by apply or_default_idem).
  - unfold or_default at 1. by rewrite empty_default.
  - unfold or_default. by rewrite H.
Qed.

(** What the endpoints that [normalizeHTTPEndpoint] makes have: they are trimmed and stay as they are. *)
Context (url_stable : ∀ e e', normalizeHTTPEndpoint url_parse url_text e = Ok e' →
  TrimSpace e' = e' ∧ normalizeHTTPEndpoint url_parse url_text e' = Ok e').

Lemma endpoint_stable k e e' : rewritten_endpoint k (TrimSpace e) = Ok e' →
  TrimSpace e' = e' ∧ rewritten_endpoint (match k with R2 | B2 => S3 | _ => k end) e' = Ok e' ∧ (empty (TrimSpace e) = false → empty e' = false).
Proof.
  assert (∀ e', normalizeHTTPEndpoint url_parse url_text e' = Ok e' → TrimSpace e' = e' → empty e' = false) as Hne.
  { intros x Hx Ht. unfold normalizeHTTPEndpoint in Hx. rewrite Ht in Hx. by destruct (empty x). }
  destruct k; cbn [rewritten_endpoint]; try (intros [= <-]; repeat split; [apply TrimSpace_trim|done]).
  1, 2: intros H; destruct (url_stable _ _ H) as [Ht Hn]; repeat split; auto.
  destruct (empty (TrimSpace e)) eqn:He; [intros [= <-]; rewrite He; repeat split; auto using TrimSpace_trim|].
  intros H. destruct (url_stable _ _ H) as [Ht Hn]. rewrite (Hne e') by done. auto.
Qed.

Lemma bucket_stable k b a b' a' : rewritten_bucket k (TrimSpace b) (TrimSpace a) = Ok (b', a') →
  (k = Tencent → TrimSpace b' = b' ∧ bucket_suffix b' = None) →
  TrimSpace b' = b' ∧ TrimSpace a' = a' ∧ rewritten_bucket (match k with R2 | B2 => S3 | _ => k end) b' a' = Ok (b', a') ∧
  (empty (TrimSpace b) = false → empty b' = false).
Proof.
  intros H Ht. destruct k; cbn [rewritten_bucket] in *; try (injection H as <- <-; rewrite !TrimSpace_trim; done).
  - injection H as <- <-. rewrite TrimSpace_trim, or_default_trim, or_default_idem by (vm_compute; reflexivity). repeat split.
    intros Hb. unfold or_default. by rewrite Hb.
  - destruct (Ht eq_refl) as [Hb Hs]. unfold normalizeTencentBucketAndAppID in *. rewrite !TrimSpace_trim in H. rewrite Hb, Hs.
    destruct (empty (TrimSpace b)) eqn:He; [done|].
    assert (TrimSpace a' = a' ∧ empty a' = false ∧ empty b' = false) as (-> & -> & ->).
    { destruct (bucket_suffix (TrimSpace b)) as [[n app]|] eqn:Hn.
      - apply bucket_suffix_spec in Hn as (_ & Hn & Ha & Hd). apply String.eqb_neq in Hn, Ha. fold (empty n) in Hn. fold (empty app) in Ha.
        destruct (empty (TrimSpace a)); [injection H as <- <-; auto using TrimSpace_digits|].
        destruct (String.eqb_spec app (TrimSpace a)) as [->|]; [|done]. injection H as <- <-. auto using TrimSpace_trim.
      - destruct (empty (TrimSpace a)) eqn:Ha; [done|]. injection H as <- <-. auto using TrimSpace_trim. }
    done.
Qed.

(** Validating a configuration again changes nothing, but for Tencent's buckets
    whose name ends in a number before its last one. *)
Theorem revalidation c c' : Validate url_parse url_text c = Ok c' →
  (Provider c' = "tencent" → TrimSpace (Bucket c') = Bucket c' ∧ bucket_suffix (Bucket c') = None) →
  Validate url_parse url_text c' = Ok c'.
Proof.
  rewrite !Validate_table. unfold validated at 1. set (c1 := trim_config c). destruct (kind_of (Provider c1)) as [k|]; [|done].
  destruct (any_empty (required k c1)) eqn:Hreq; [done|]. intros H Ht.
  apply rbind_Ok_inv in H as (e & He & H). apply rbind_Ok_inv in H as ([b a] & Hb & H). injection H as <-. cbn [Provider Bucket] in Ht.
  destruct (endpoint_stable k (Endpoint c) e He) as (Het & Her & Hee).
  destruct (bucket_stable k (Bucket c) (AppID c) b a Hb) as (Hbt & Hat & Hbr & Hbe); [by intros ->; apply Ht|].
  unfold trim_config. cbn [Provider ID Secret Region Bucket Endpoint ServiceAccountJSON SharedFolder OtpCode Debug AppID c1].
  rewrite driver_trim, !TrimSpace_trim, region_trim, Hbt, Het, Hat. unfold validated. cbn [Provider]. rewrite kind_driver.
  cbn [ID Secret Region Bucket Endpoint ServiceAccountJSON SharedFolder OtpCode Debug AppID].
  assert (any_empty (required (match k with R2 | B2 => S3 | _ => k end)
    (mkConfig (driver_of k) (ID c1) (Secret c1) (region_default k (Region c1)) b e (ServiceAccountJSON c1) (SharedFolder c1) (OtpCode c1) (Debug c1) a)) = false) as Hreq'.
  { clear -Hreq Hee Hbe. unfold any_empty in *. destruct k; cbn [required existsb ID Secret Bucket Endpoint Region ServiceAccountJSON] in *;
      repeat match goal with H : _ || _ = false |- _ => apply orb_false_iff in H as [? ?] end;
      repeat (apply orb_false_iff; split); auto. }
  subst c1. unfold trim_config in Hreq'. cbn [ID Secret Region Bucket Endpoint ServiceAccountJSON SharedFolder OtpCode Debug AppID Provider] in *.
  rewrite Hreq', Her. cbn [rbind]. rewrite Hbr. cbn [rbind]. rewrite region_idem; [by destruct k|].
  intros ->. unfold any_empty in Hreq. cbn [required existsb Region ID Secret Bucket Endpoint] in Hreq.
  repeat match goal with H : _ || _ = false |- _ => apply orb_false_iff in H as [? ?] end. done.
Qed.

(** A configuration is accepted exactly when its provider is an alias of a kind,
    what the kind requires is there, and its endpoint and bucket can be rewritten. *)
Theorem accepted_iff c : (∃ c', Validate url_parse url_text c = Ok c') ↔
  ∃ k, kind_of (ToLower (TrimSpace (Provider c))) = Some k ∧ Forall (λ s, s ≠ "") (required k (trim_config c)) ∧
    is_Ok (rewritten_endpoint k (TrimSpace (Endpoint c))) = true ∧ is_Ok (rewritten_bucket k (TrimSpace (Bucket c)) (TrimSpace (AppID c))) = true.
Proof.
  rewrite Validate_table. unfold validated. change (Provider (trim_config c)) with (ToLower (TrimSpace (Provider c))).
  change (Endpoint (trim_config c)) with (TrimSpace (Endpoint c)). change (Bucket (trim_config c)) with (TrimSpace (Bucket c)).
  change (AppID (trim_config c)) with (TrimSpace (AppID c)).
  assert (∀ l, any_empty l = false ↔ Forall (λ s, s ≠ "") l) as Hany.
  { induction l as [|s l IH]; [by split; [constructor|]|]. unfold any_empty in *. cbn [existsb]. rewrite orb_false_iff, IH, list.Forall_cons. unfold empty.
    by rewrite String.eqb_neq. }
  destruct (kind_of _) as [k|]; [|split; [by intros [? ?]|by intros (? & ? & _)]].
  destruct (any_empty (required k (trim_config c))) eqn:Hreq.
  - split; [by intros [? ?]|]. intros (k' & [= <-] & H & _). apply Hany in H. congruence.
  - apply Hany in Hreq. split.
    + intros [c' H]. exists k. apply rbind_Ok_inv in H as (e & He & H). apply rbind_Ok_inv in H as ([b a] & Hb & H). by rewrite He, Hb.
    + intros (k' & [= <-] & _ & He & Hb). destruct (rewritten_endpoint _ _) as [e| | |]; [|done..]. cbn [rbind].
      destruct (rewritten_bucket _ _ _) as [[b a]| | |]; [|done..]. cbn [rbind]. by eexists.
Qed.
End Reference.

(** *** Examples *)

Definition one_url (s : string) : option Url := if String.eqb s "https://r2.example" then Some (mkUrl "https" "r2.example" "" "") else None.
Definition plain_text (u : Url) : string := u_scheme u +:+ "://" +:+ u_host u +:+ u_path u.
Lemma one_url_stable e e' : normalizeHTTPEndpoint one_url plain_text e = Ok e' →
  TrimSpace e' = e' ∧ normalizeHTTPEndpoint one_url plain_text e' = Ok e'.
Proof.
  unfold normalizeHTTPEndpoint, one_url. destruct (empty _); [done|]. destruct (String.eqb _ "https://r2.example"); [|done].
  assert (plain_text (mkUrl "https" "r2.example" (trim_slashes "") "") = "https://r2.example") as Ht by (vm_compute; reflexivity).
  cbn [u_host u_scheme u_path u_rest empty String.eqb Ascii.eqb Bool.eqb negb andb]. rewrite Ht. intros [= <-]. split; vm_compute; reflexivity.
Qed.
Definition bare (provider bucket endpoint app : string) : Config := mkConfig provider "ak" "sk" "" bucket endpoint "" "" "" false app.
Definition r2_config : Config := mkConfig "s3" "ak" "sk" "auto" "b" "https://r2.example" "" "" "" false "".
Lemma revalidation_witness :
  Validate one_url plain_text (bare " R2 " "b" "r2.example" "") = Ok r2_config ∧ Validate one_url plain_text r2_config = Ok r2_config.
Proof.
  assert (Validate one_url plain_text (bare " R2 " "b" "r2.example" "") = Ok r2_config) as H by (vm_compute; reflexivity).
  split; [exact H|]. apply (revalidation one_url plain_text one_url_stable _ _ H). intros Hp. discriminate Hp.
Defined.

Lemma tencent_full_name_witness :
  normalizeTencentBucketAndAppID " media-1250 " "" = Ok ("media", "1250") ∧ "media" +:+ "-" +:+ "1250" = TrimSpace " media-1250 ".
Proof.
  assert (normalizeTencentBucketAndAppID " media-1250 " "" = Ok ("media", "1250")) as H by (vm_compute; reflexivity).
  split; [exact H|]. exact (proj1 (tencent_full_name _ _ _ _ H)).
Defined.

(** A name with two numbers loses both when it is validated twice: the second
    time is an error, or, for equal numbers, another bucket. *)
Theorem tencent_validated_twice url_parse url_text :
  let again r := rbind r (Validate url_parse url_text) in
  Bucket <$> (match Validate url_parse url_text (bare "cos" "a-1-2" "" "") with Ok c => Some c | _ => None end) = Some "a-1" ∧
  again (Validate url_parse url_text (bare "cos" "a-1-2" "" "")) = Err EAppIDMismatch ∧
  Bucket <$> (match again (Validate url_parse url_text (bare "cos" "a-1-1" "" "")) with Ok c => Some c | _ => None end) = Some "a".
Proof. vm_compute. repeat split. Qed.

(** *** Drivers *)

Section Registry.
Context {Driver Store : Type} (name_of : Driver → string) (connect : Driver → Config → option Store).

(** Drivers registered one after the other are found under their names and no
    others are; registering a name twice panics. *)
Theorem registry_exact (ds : list Driver) :
  match foldl (λ r d, rbind r (RegisterDriver name_of d)) (Ok ∅) ds with
  | Ok registry => NoDup (name_of <$> ds) ∧ ∀ name d, GetDriver name registry = Ok d ↔ d ∈ ds ∧ name_of d = name
  | Panic => ¬ NoDup (name_of <$> ds)
  | _ => False
  end.
Proof.
  induction ds as [|d ds IH] using rev_ind; cbn [foldl]; [split; [constructor|]; intros name d; split; [done|by intros [H%elem_of_nil _]]|].
  rewrite foldl_app, fmap_app. cbn [foldl]. destruct (foldl _ _ ds) as [m| | |]; cbn [rbind]; [|done| |done].
  2: { by intros [? _]%NoDup_app. }
  destruct IH as [Hnd IH]. unfold RegisterDriver. destruct (m !! name_of d) as [d'|] eqn:Hm.
  - intros (_ & H & _)%NoDup_app. destruct (proj1 (IH (name_of d) d')) as [Hd Hn]; [unfold GetDriver; by rewrite Hm|].
    apply (H (name_of d')); [by apply list_elem_of_fmap_2|]. rewrite Hn. cbn. left.
  - split.
    + apply NoDup_app. split; [done|]. split; [|repeat constructor; by intros ?%elem_of_nil]. intros n (d' & -> & Hd')%list_elem_of_fmap [He|[]%elem_of_nil]%elem_of_cons.
      assert (GetDriver (name_of d') m = Ok d') as Hg by (by apply IH). unfold GetDriver in Hg. by rewrite He, Hm in Hg.
    + intros name d'. rewrite elem_of_app, list_elem_of_singleton. unfold GetDriver. destruct (decide (name_of d = name)) as [<-|Hn].
      * rewrite lookup_insert_eq. split; [intros [= <-]; auto|]. intros [[Hd|Hd] He]; [|by subst d'].
        assert (GetDriver (name_of d') m = Ok d') as Hg by (by apply IH). unfold GetDriver in Hg. by rewrite He, Hm in Hg.
      * rewrite lookup_insert_ne by done. specialize (IH name d'). unfold GetDriver in IH. rewrite IH. split; [intros [? ?]; auto|].
        intros [[Hd|Hd] He]; [done|by subst d'].
Qed.

(** The store of a valid configuration is the local one exactly for the local
    kind; every other kind is connected by the driver registered for it, with the
    rewritten configuration, and without one there is an error. *)
Theorem new_storage_by_kind url_parse url_text cwd registry c c' fs :
  Validate url_parse url_text c = Ok c' →
  NewStorage url_parse url_text connect cwd registry (Some c) fs =
    if String.eqb (Provider c') "filesystem" then
      (match (NewFileSystem cwd (Bucket c') fs).1 with Ok root => Ok (Local root) | _ => Err EFileSystem end, Some c', (NewFileSystem cwd (Bucket c') fs).2)
    else (match registry !! Provider c' with
          | Some d => of_opt (Remote <$> connect d c') EConnect
          | None => Err (EDriverNotFound (Provider c'))
          end, Some c', fs).
Proof.
  intros H. unfold NewStorage. rewrite H. assert (String.eqb (Provider c') "local" = false) as ->.
  { rewrite Validate_table in H. unfold validated in H. destruct (kind_of _) as [k|]; [|done]. destruct (any_empty _); [done|].
    apply rbind_Ok_inv in H as (e & _ & H). apply rbind_Ok_inv in H as ([b a] & _ & H). injection H as <-. by destruct k. }
  rewrite orb_false_r. destruct (String.eqb _ "filesystem"); [by destruct (NewFileSystem _ _ _)|]. unfold GetDriver. by destruct (registry !! _).
Qed.
End Registry.
Lemma new_storage_by_kind_witness :
  NewStorage one_url plain_text (λ (_ : unit) c, Some (Bucket c)) "/srv" {["s3" := ()]} (Some (bare "aws" " b " "" "")) ∅ =
    (Ok (Remote "b"), Some (mkConfig "s3" "ak" "sk" "us-east-1" "b" "" "" "" "" false ""), ∅) ∧
  (NewStorage one_url plain_text (λ (_ : unit) c, Some (Bucket c)) "/srv" {["s3" := ()]} (Some (bare "local" "data" "" "")) ∅).1 =
    (Ok (Local "/srv/data"), Some (mkConfig "filesystem" "ak" "sk" "" "data" "" "" "" "" false "")).
Proof.
  split.
  - rewrite (new_storage_by_kind (λ (_ : unit) c, Some (Bucket c)) one_url plain_text "/srv" {["s3" := ()]} (bare "aws" " b " "" "")
      (mkConfig "s3" "ak" "sk" "us-east-1" "b" "" "" "" "" false "") ∅); [|vm_compute; reflexivity]. vm_compute. reflexivity.
  - vm_compute. reflexivity.
Defined.
