(* ===== verification/Brokers.v ===== *)
(** * Message brokers

    Models src/data/kafka/kafka.go, src/data/kafka/driver.go,
    src/data/rabbitmq/rabbitmq.go and src/data/rabbitmq/driver.go: publishing
    with retries, the readers and the consumer loop of Kafka, publishing with
    confirmation and the consumer loop of RabbitMQ, closing, and the drivers.
    What the clients of the two brokers answer are arguments; a connection, a
    writer or a reader is a number, and the calls made to them are listed.
    Durations are in nanoseconds. *)

From stdpp Require Import base tactics option list gmap strings sorting.
From Stdlib Require Import ZArith Lia.
From S2P Require Import Prelude GoStrings.

Open Scope string_scope.

(** The messaging configuration behind a pointer that may be nil. *)
Record Messaging := mkMessaging { Enabled : bool; PublishTimeout : Z; CrossRegionMode : bool; RetryAttempts : Z; RetryBackoffMax : Z; FallbackToMemory : bool }.
Definition default_messaging : Messaging := mkMessaging false 30000000000 false 3 30000000000 true.

Module Kafka.

Inductive error :=
| ENotConnected | ENoWriter | ENoReader | ETimeout | EAttempts (n : Z) | EClose (n : nat)
| EConfigType | ENoBrokers | EDial | EConnType.

(** The calls to the client, by the number of the object. *)
Inductive action :=
| AWrite (writer : nat) | ACloseWriter (writer : nat) | ACloseReader (reader : nat) | ACloseConn (conn : nat) | ACommit (offset : Z).

Record Kafka := mkKafka {
  conn : option nat; brokers : list string; messaging : option Messaging; writer : option nat; readers : gmap string nat;
  fresh : nat (* the next number *) }.

Definition with_writer (w : option nat) (n : nat) (s : Kafka) : Kafka := mkKafka (conn s) (brokers s) (messaging s) w (readers s) n.
Definition with_readers (r : gmap string nat) (n : nat) (s : Kafka) : Kafka := mkKafka (conn s) (brokers s) (messaging s) (writer s) r n.

(** [New] of a connection and the text of its remote address. *)
Definition New (c : option (nat * string)) : option Kafka :=
  match c with
  | None => None
  | Some (c, remote) =>
      Some (mkKafka (Some c) (if String.eqb remote "" then [] else [remote]) (Some default_messaging) (Some (S c)) ∅ (S (S c)))
  end.
Definition NewWithConfig (c : option (nat * string)) (m : option Messaging) : option Kafka :=
  (λ k, mkKafka (conn k) (brokers k) m (writer k) (readers k) (fresh k)) <$> New c.

Definition IsConnected (s : option Kafka) : bool := match s with Some k => bool_decide (is_Some (conn k)) | None => false end.

(** ** Publishing *)

Definition getWriter (s : Kafka) : option nat * Kafka :=
  match writer s with
  | Some w => (Some w, s)
  | None => if decide (brokers s = []) then (None, s) else (Some (fresh s), with_writer (Some (fresh s)) (S (fresh s)) s)
  end.

Definition first_backoff : Z := 100000000.
Definition next_backoff (max backoff : Z) : Z := let b := wrap64 (backoff * 2) in if (max <? b)%Z then max else b.

Section Publish.
(** Attempt [i] takes a time and succeeds or not; the context of the caller ends
    at [cancel], if it does, and the timeout at [deadline]. *)
Context (write : nat → Z * bool) (cancel : option Z) (deadline : Z).

Definition expired (now : Z) : bool := (deadline <=? now)%Z || match cancel with Some t => (t <=? now)%Z | None => false end.

(** The loop from [attempt] on with [left] retries: the outcome, the attempts
    made and the waits. *)
Fixpoint publish_loop (left : nat) (max : Z) (attempt : nat) (backoff now : Z) (total : Z) : res error () * list nat * list Z :=
  let '(d, ok) := write attempt in
  let now := (now + d)%Z in
  if ok then (Ok (), [attempt], [])
  else if expired now then (Err ETimeout, [attempt], [])
  else match left with
  | O => (Err (EAttempts total), [attempt], [])
  | S left' =>
      let '(r, l, w) := publish_loop left' max (S attempt) (next_backoff max backoff) (now + Z.max 0 backoff) total in (r, attempt :: l, backoff :: w)
  end.
End Publish.

(** [PublishMessage] at [now]; without messaging configuration it panics. *)
Definition PublishMessage (write : nat → Z * bool) (cancel : option Z) (now : Z) (s : option Kafka) : res error () * list nat * list Z * option Kafka :=
  match s with
  | None => (Err ENotConnected, [], [], None)
  | Some k =>
      if negb (IsConnected s) then (Err ENotConnected, [], [], s)
      else
        let '(w, k') := getWriter k in
        match w, messaging k' with
        | None, _ => (Err ENoWriter, [], [], Some k')
        | Some _, None => (Panic, [], [], Some k')
        | Some _, Some m =>
            if (RetryAttempts m <? 0)%Z then (Err (EAttempts (wrap64 (RetryAttempts m + 1))), [], [], Some k')
            else (publish_loop write cancel (now + PublishTimeout m) (Z.to_nat (RetryAttempts m)) (RetryBackoffMax m) 0 first_backoff now
                    (wrap64 (RetryAttempts m + 1)), Some k')
        end
  end.

(** ** Readers *)

Definition reader_key (topic groupID : string) : string := topic +:+ ":" +:+ groupID.
(** The look-up under the read lock, and the second one under the write lock. *)
Definition reader_fast (key : string) (s : Kafka) : option nat := readers s !! key.
Definition reader_slow (key : string) (s : Kafka) : nat * Kafka :=
  match readers s !! key with
  | Some r => (r, s)
  | None => (fresh s, with_readers (<[key := fresh s]> (readers s)) (S (fresh s)) s)
  end.
Definition getReader (topic groupID : string) (s : Kafka) : nat * Kafka :=
  match reader_fast (reader_key topic groupID) s with Some r => (r, s) | None => reader_slow (reader_key topic groupID) s end.
Definition closeReader (topic groupID : string) (s : Kafka) : list action * Kafka :=
  match readers s !! reader_key topic groupID with
  | Some r => ([ACloseReader r], with_readers (delete (reader_key topic groupID) (readers s)) (fresh s) s)
  | None => ([], s)
  end.

(** ** Consuming *)

(** What a fetch gives, and one turn of the loop: whether the context is done,
    the fetch, and whether the handler and the commit succeed. *)
Inductive fetched := Message (offset : Z) | EOF | Canceled | DeadlineExceeded | OtherError.
Record turn := mkTurn { done_ : bool; fetch : fetched; handled : bool }.

(** The loop over its turns: the offsets handled and committed, in order, and how it
    stands: running, ended with its reader closed, or ended with it left. *)
Inductive consumer := Running | EndedClosed | EndedLeft.
Fixpoint consume (turns : list turn) : list (Z * bool) * list Z * consumer :=
  match turns with
  | [] => ([], [], Running)
  | t :: turns' =>
      if done_ t then ([], [], EndedClosed)
      else match fetch t with
      | EOF | Canceled => ([], [], EndedLeft)
      | DeadlineExceeded | OtherError => consume turns'
      | Message offset =>
          let '(h, c, e) := consume turns' in
          if handled t then ((offset, true) :: h, offset :: c, e) else ((offset, false) :: h, c, e)
      end
  end.

(** [ConsumeMessages] starts the loop with its reader. *)
Definition ConsumeMessages (topic groupID : string) (s : option Kafka) : res error nat * option Kafka :=
  match s with
  | None => (Err ENotConnected, None)
  | Some k => if IsConnected s then let '(r, k') := getReader topic groupID k in (Ok r, Some k') else (Err ENotConnected, s)
  end.
(** The end of the goroutine. *)
Definition after_consumer (topic groupID : string) (e : consumer) (s : Kafka) : list action * Kafka :=
  match e with EndedClosed => closeReader topic groupID s | _ => ([], s) end.

(** ** Closing *)

Section Close.
(** Whether closing an object succeeds. *)
Context (closes : action → bool).
Definition failures (l : list action) : nat := length (List.filter (λ a, negb (closes a)) l).
Definition close_actions (s : Kafka) : list action :=
  (match writer s with Some w => [ACloseWriter w] | None => [] end ++ (ACloseReader <$> (map_to_list (readers s)).*2) ++
   match conn s with Some c => [ACloseConn c] | None => [] end)%list.
Definition Close (s : Kafka) : res error () * list action * Kafka :=
  let l := close_actions s in
  (if failures l =? 0 then Ok () else Err (EClose (failures l)), l, mkKafka None (brokers s) (messaging s) None ∅ (fresh s))%nat.
End Close.

(** ** The driver *)

Inductive any_config := CKafka (brokers : list string) | COther.
Inductive any_conn := VKafka (s : Kafka) | VConn (c : nat) | VOther.
(** [kafka.DialContext] of the first broker: a connection and its remote address. *)
Definition Connect (dial : string → option (nat * string)) (cfg : any_config) : res error (option Kafka) :=
  match cfg with
  | COther => Err EConfigType
  | CKafka [] => Err ENoBrokers
  | CKafka (b :: _) => match dial b with Some c => Ok (New (Some c)) | None => Err EDial end
  end.
Definition DriverClose (closes : action → bool) (c : any_conn) : res error () * list action :=
  match c with
  | VKafka s => let '(r, l, _) := Close closes s in (r, l)
  | VConn c => (if closes (ACloseConn c) then Ok () else Err (EClose 1), [ACloseConn c])
  | VOther => (Err EConnType, [])
  end.
End Kafka.

Module RabbitMQ.

Inductive error :=
| ENotConnected | EChannel | EExchange | EQueue | EBind | EConfirm | EPublish | EConfirmClosed | ENack | EConfirmTimeout
| EQos | EConsume | EClose | EConfigType | EUrlEmpty | EDial | EConnType.

Inductive action :=
| AOpen | ACloseChannel | AExchange (name : string) | AQueue (name : string) | ABind (queue key exchange : string)
| AConfirm | APublish (exchange key body : string) | AQos | AConsume (queue : string) | AAck (tag : nat) | ACloseConn.

(** A connection, if any, and whether it is closed. *)
Record RabbitMQ := mkRabbit { conn : option bool; messaging : option Messaging }.
Definition NewRabbitMQ (conn : option bool) : RabbitMQ := mkRabbit conn (Some default_messaging).
Definition NewRabbitMQWithConfig (conn : option bool) (m : option Messaging) : RabbitMQ := mkRabbit conn m.
Definition IsConnected (s : RabbitMQ) : bool := match conn s with Some closed => negb closed | None => false end.

(** The calls to the client succeed or not. *)
Section Calls.
Context (succeeds : action → bool).

(** One call after the other, up to the first that fails, which gives its error. *)
Fixpoint calls (l : list (action * error)) : list action * option error :=
  match l with
  | [] => ([], None)
  | (a, e) :: l' => if succeeds a then let '(done, r) := calls l' in (a :: done, r) else ([a], Some e)
  end.

(** The broker names a queue as it was declared, the name being not empty. *)
Definition ensureExchangeAndQueue (exchangeName queueName : string) : list (action * error) :=
  [(AExchange exchangeName, EExchange); (AQueue queueName, EQueue); (ABind queueName queueName exchangeName, EBind)].

(** What comes of waiting for the confirmation. *)
Inductive confirmation := Confirmed (ack : bool) | ConfirmClosed | ConfirmTimeout.
Definition confirmed (c : confirmation) : res error () :=
  match c with
  | Confirmed true => Ok () | Confirmed false => Err ENack | ConfirmClosed => Err EConfirmClosed | ConfirmTimeout => Err EConfirmTimeout
  end.

(** The channel is closed when [PublishMessage] returns, also when it panics
    for want of a messaging configuration. *)
Definition PublishMessage (exchange routingKey body : string) (wait : confirmation) (s : RabbitMQ) : res error () * list action :=
  if negb (IsConnected s) then (Err ENotConnected, [])
  else if negb (succeeds AOpen) then (Err EChannel, [AOpen])
  else
    let '(l, e) := calls (ensureExchangeAndQueue exchange routingKey ++ [(AConfirm, EConfirm)]) in
    match e with
    | Some e => (Err e, [AOpen] ++ l ++ [ACloseChannel])%list
    | None =>
        match messaging s with
        | None => (Panic, [AOpen] ++ l ++ [ACloseChannel])%list
        | Some _ =>
            let p := APublish exchange routingKey body in
            (if succeeds p then confirmed wait else Err EPublish, [AOpen] ++ l ++ [p; ACloseChannel])%list
        end
    end.

(** The deliveries, with the outcome of the handler: each is acknowledged. *)
Definition consume_loop (deliveries : list (nat * bool)) : list action := (λ d, AAck d.1) <$> deliveries.
(** On success the channel is left to the goroutine, which closes it at the end
    of the deliveries. *)
Definition ConsumeMessages (queue : string) (s : RabbitMQ) : res error () * list action :=
  if negb (IsConnected s) then (Err ENotConnected, [])
  else if negb (succeeds AOpen) then (Err EChannel, [AOpen])
  else
    let '(l, e) := calls (ensureExchangeAndQueue queue queue ++ [(AQos, EQos); (AConsume queue, EConsume)]) in
    match e with
    | Some e => (Err e, [AOpen] ++ l ++ [ACloseChannel])%list
    | None => (Ok (), AOpen :: l)
    end.
Definition consumer (deliveries : list (nat * bool)) : list action := (consume_loop deliveries ++ [ACloseChannel])%list.

Definition Close (s : RabbitMQ) : res error () * list action :=
  if negb (IsConnected s) then (Ok (), []) else (if succeeds ACloseConn then Ok () else Err EClose, [ACloseConn]).
End Calls.

(** ** The driver *)

Record Config := mkConfig { URL : string; Username : string; Password : string; Vhost : string; ConnectionTimeout : Z; HeartbeatInterval : Z }.
Inductive any_config := CRabbit (c : Config) | COther.
Inductive any_conn := VService (s : RabbitMQ) | VConn | VOther.

Section Driver.
(** [u.String()] of a URL with the scheme amqp, and [amqp.Dial]. *)
Context (url_text : string → option (string * string) → string → string) (dial : string → bool).

(** The path has a slash more than the virtual host, which may begin with one. *)
Definition connection_url (c : Config) : string :=
  if HasPrefix (URL c) "amqp://" || HasPrefix (URL c) "amqps://" then URL c
  else url_text (URL c) (if String.eqb (Username c) "" && String.eqb (Password c) "" then None else Some (Username c, Password c))
         (if String.eqb (Vhost c) "" then "" else "/" +:+ Vhost c).
Definition Connect (cfg : any_config) : res error any_conn :=
  match cfg with
  | COther => Err EConfigType
  | CRabbit c =>
      if String.eqb (URL c) "" then Err EUrlEmpty
      else if dial (connection_url c) then Ok (VService (NewRabbitMQ (Some false))) else Err EDial
  end.
(** Only a bare connection is closed. *)
Definition DriverClose (closes : bool) (c : any_conn) : res error () * list action :=
  match c with
  | VConn => (if closes then Ok () else Err EClose, [ACloseConn])
  | _ => (Err EConnType, [])
  end.
End Driver.
End RabbitMQ.

(** ** Properties *)

Import Kafka.

(** *** Publishing to Kafka *)

Fixpoint backoffs (max b : Z) (n : nat) : list Z := match n with O => [] | S n' => b :: backoffs max (next_backoff max b) n' end.

Lemma publish_loop_spec write cancel deadline left max attempt b now total :
  let '(r, l, w) := publish_loop write cancel deadline left max attempt b now total in
  ∃ n, (n ≤ left)%nat ∧ l = seq attempt (S n) ∧ w = backoffs max b n ∧
    Forall (λ i, (write i).2 = false) (seq attempt n) ∧
    match r with
    | Ok _ => (write (attempt + n)%nat).2 = true
    | Err ETimeout => (write (attempt + n)%nat).2 = false
    | Err (EAttempts t) => (write (attempt + n)%nat).2 = false ∧ n = left ∧ t = total
    | _ => False
    end.
Proof.
  revert attempt b now. induction left as [|left IH]; intros attempt b now; cbn [publish_loop]; destruct (write attempt) as [d ok] eqn:Hw.
  - destruct ok; [|destruct (expired _ _ _)]; exists 0%nat; rewrite Nat.add_0_r, Hw; cbn; repeat split; constructor.
  - destruct ok; [exists 0%nat; rewrite Nat.add_0_r, Hw; cbn; repeat split; [lia|constructor]|].
    destruct (expired _ _ _); [exists 0%nat; rewrite Nat.add_0_r, Hw; cbn; repeat split; [lia|constructor]|].
    specialize (IH (S attempt) (next_backoff max b) (now + d + Z.max 0 b)%Z).
    destruct (publish_loop _ _ _ left _ _ _ _ _) as [[r l] w]. destruct IH as (n & Hn & -> & -> & Hf & Hr).
    exists (S n). rewrite Nat.add_succ_r. split; [lia|]. split; [done|]. split; [done|]. split; [constructor; [by rewrite Hw|done]|].
    destruct r as [|[]| |]; try done. destruct Hr as (? & -> & ?). done.
Qed.

Lemma backoffs_double max b n : (0 ≤ b ≤ max)%Z → (max < 2 ^ 62)%Z → backoffs max b n = (λ i, Z.min max (b * 2 ^ Z.of_nat i))%Z <$> seq 0 n.
Proof.
  revert b. induction n as [|n IH]; intros b Hb Hm; [done|]. cbn [backoffs seq fmap list_fmap].
  assert (next_backoff max b = Z.min max (b * 2))%Z as Hnb.
  { unfold next_backoff. rewrite wrap64_id by (unfold min_int64, max_int64; lia). destruct (Z.ltb_spec max (b * 2)); lia. }
  f_equal; [cbn; lia|]. rewrite Hnb, IH by lia. rewrite <- (fmap_S_seq 0 n), <- list_fmap_compose.
  apply list_fmap_ext. intros i x _. cbn [compose]. rewrite Nat2Z.inj_succ, Z.pow_succ_r by lia. pose proof (Z.pow_pos_nonneg 2 (Z.of_nat x)). nia.
Qed.

(** A connected service with messaging configuration tries at most once more than
    the retries, in a row and only after failures, waits 0.1 s, 0.2 s, 0.4 s, ... in
    between, up to the longest wait, and succeeds exactly when the last attempt does;
    it gives up before the last retry only when the time is over. *)
Theorem kafka_publish_retries write cancel now k m : is_Some (conn k) → messaging k = Some m → (writer k ≠ None ∨ brokers k ≠ []) →
  (0 ≤ RetryAttempts m < max_int64)%Z → (first_backoff ≤ RetryBackoffMax m < 2 ^ 62)%Z →
  ∃ n r, (n ≤ Z.to_nat (RetryAttempts m))%nat ∧
    (PublishMessage write cancel now (Some k)).1 =
      (r, seq 0 (S n), (λ i, Z.min (RetryBackoffMax m) (first_backoff * 2 ^ Z.of_nat i))%Z <$> seq 0 n) ∧
    Forall (λ i, (write i).2 = false) (seq 0 n) ∧
    if (write n).2 then r = Ok () else r = Err ETimeout ∨ r = Err (EAttempts (RetryAttempts m + 1)) ∧ n = Z.to_nat (RetryAttempts m).
Proof.
  intros Hc Hm Hw Hr Hb. unfold PublishMessage. unfold IsConnected. rewrite bool_decide_true by done. cbn [negb].
  assert (∃ w k', getWriter k = (Some w, k') ∧ messaging k' = Some m) as (w & k' & -> & Hm').
  { unfold getWriter. destruct (writer k) as [w|]; [eauto|]. destruct Hw as [?|?]; [done|]. rewrite decide_False by done. eauto. }
  rewrite Hm'. assert ((RetryAttempts m <? 0)%Z = false) as -> by lia. rewrite wrap64_id by (unfold min_int64, max_int64 in *; lia). cbn [fst].
  pose proof (publish_loop_spec write cancel (now + PublishTimeout m) (Z.to_nat (RetryAttempts m)) (RetryBackoffMax m) 0 first_backoff now (RetryAttempts m + 1)) as H.
  destruct (publish_loop _ _ _ _ _ _ _ _ _) as [[r l] ws]. destruct H as (n & Hn & -> & -> & Hf & Ho). exists n, r. cbn [fst] in *. rewrite Nat.add_0_l in Ho.
  split; [done|]. rewrite backoffs_double by (unfold first_backoff in *; lia). split; [done|]. split; [done|].
  destruct r as [[]|e| |]; [by rewrite Ho| |done|done]. destruct e; try done; [rewrite Ho; by left|].
  destruct Ho as (-> & -> & ->). by right.
Qed.
Definition service : Kafka := mkKafka (Some 0%nat) ["b:9092"] (Some default_messaging) (Some 1%nat) ∅ 2.
Lemma kafka_publish_retries_witness :
  (PublishMessage (λ i, (1000000, Nat.eqb i 2)%Z) None 0 (Some service)).1 = (Ok (), [0; 1; 2]%nat, [100000000; 200000000]%Z) ∧
  ∃ n r, (n ≤ 3)%nat ∧ (PublishMessage (λ i, (1000000, Nat.eqb i 2)%Z) None 0 (Some service)).1.1.1 = r ∧ if Nat.eqb n 2 then r = Ok () else r ≠ Ok ().
Proof.
  split; [vm_compute; reflexivity|].
  destruct (kafka_publish_retries (λ i, (1000000, Nat.eqb i 2)%Z) None 0 service default_messaging) as (n & r & Hn & He & _ & Hr).
  - by exists 0%nat.
  - reflexivity.
  - left. discriminate.
  - split; vm_compute; congruence.
  - split; vm_compute; congruence.
  - exists n, r. split; [exact Hn|]. split; [by rewrite He|]. cbn [snd] in Hr. destruct (Nat.eqb n 2); [exact Hr|].
    destruct Hr as [-> | [-> _]]; discriminate.
Defined.

(** *** Consuming from Kafka *)

Definition messages (turns : list turn) : list (Z * bool) :=
  omap (λ t, match fetch t with Message o => Some (o, handled t) | _ => None end) turns.
Definition ends (t : turn) : bool := done_ t || match fetch t with EOF | Canceled => true | _ => false end.

Lemma consume_running turns turns' : Forall (λ t, ends t = false) turns →
  consume (turns ++ turns') =
    let '(h, c, e) := consume turns' in (messages turns ++ h, (filter (λ m, m.2 = true) (messages turns)).*1 ++ c, e)%list.
Proof.
  induction 1 as [|t turns Ht _ IH]; [cbn [app]; by destruct (consume turns') as [[h c] e]|]. cbn [app consume]. unfold ends in Ht.
  destruct (done_ t); [done|]. destruct (consume turns') as [[h c] e]. unfold messages. cbn [omap list_omap].
  destruct (fetch t); try done; rewrite IH; try done. destruct (handled t); [by rewrite filter_cons_True|by rewrite filter_cons_False].
Qed.

(** The messages handled are the ones fetched until the context is done, the
    reader is closed or the context ends the fetch; the offsets committed are the
    ones of the messages whose handler succeeded, in order.  The reader is closed
    only when the end is seen between two fetches: the context ending a fetch leaves it. *)
Theorem kafka_consumed_exact turns t rest : Forall (λ t, ends t = false) turns → ends t = true →
  consume (turns ++ t :: rest) =
    (messages turns, (filter (λ m, m.2 = true) (messages turns)).*1, if done_ t then EndedClosed else EndedLeft).
Proof.
  intros H Ht. rewrite consume_running by done. cbn [consume]. unfold ends in Ht.
  destruct (done_ t); [by rewrite !app_nil_r|]. destruct (fetch t); try done; by rewrite !app_nil_r.
Qed.

(** After a message whose handler failed a later one of the same partition is
    committed, and with it the failed one: the position of the group is past it. *)
Theorem kafka_failed_skipped turns i j o o' : Forall (λ t, ends t = false) turns → (i < j)%nat →
  messages turns !! i = Some (o, false) → messages turns !! j = Some (o', true) →
  StronglySorted Z.lt (messages turns).*1 →
  let committed := (consume turns).1.2 in (o ∉ committed) ∧ (o' ∈ committed) ∧ (o < o')%Z.
Proof.
  intros H Hij Hi Hj Hs. pose proof (consume_running turns [] H) as Hc. rewrite app_nil_r in Hc. rewrite Hc. cbn [consume fst snd]. rewrite !app_nil_r.
  assert (∀ a b x y, (a < b)%nat → (messages turns).*1 !! a = Some x → (messages turns).*1 !! b = Some y → (x < y)%Z) as Hlt.
  { clear -Hs. induction Hs as [|z l _ IH Hz]; intros a b x y Hab Ha Hb; [done|]. destruct b as [|b]; [lia|]. cbn in Hb. destruct a as [|a].
    - injection Ha as <-. rewrite list.Forall_forall in Hz. apply Hz. by eapply list_elem_of_lookup_2.
    - cbn in Ha. eapply (IH a b); [lia|done..]. }
  assert ((messages turns).*1 !! i = Some o ∧ (messages turns).*1 !! j = Some o') as [Hi' Hj'] by (by rewrite !list_lookup_fmap, Hi, Hj).
  split; [|split; [|by eapply Hlt]].
  - intros ([o1 b] & -> & Hb)%list_elem_of_fmap. apply list_elem_of_filter in Hb as [Hb Hm]. cbn in *. subst b.
    apply list_elem_of_lookup in Hm as [k Hk]. assert ((messages turns).*1 !! k = Some o1) as Hk' by (by rewrite list_lookup_fmap, Hk).
    destruct (Nat.lt_trichotomy i k) as [Hik|[->|Hik]]; [pose proof (Hlt _ _ _ _ Hik Hi' Hk'); lia|congruence|pose proof (Hlt _ _ _ _ Hik Hk' Hi'); lia].
  - apply list_elem_of_fmap. exists (o', true). split; [done|]. apply list_elem_of_filter. split; [done|]. by eapply list_elem_of_lookup_2.
Qed.
Lemma kafka_failed_skipped_witness :
  let turns := [mkTurn false (Message 7) false; mkTurn false DeadlineExceeded true; mkTurn false (Message 8) true] in
  (consume turns).1.2 = [8%Z] ∧ (7%Z ∉ (consume turns).1.2).
Proof.
  split; [vm_compute; reflexivity|].
  apply (kafka_failed_skipped [mkTurn false (Message 7) false; mkTurn false DeadlineExceeded true; mkTurn false (Message 8) true] 0 1 7 8).
  - apply List.Forall_forall. intros t Ht. repeat destruct Ht as [<-|Ht]; [reflexivity..|destruct Ht].
  - apply Nat.lt_0_1.
  - reflexivity.
  - reflexivity.
  - repeat constructor.
Defined.
Lemma kafka_consumed_exact_witness :
  consume [mkTurn false (Message 1) true; mkTurn false Canceled true; mkTurn false (Message 2) true] = ([(1, true)], [1], EndedLeft)%Z.
Proof. apply (kafka_consumed_exact [mkTurn false (Message 1) true] (mkTurn false Canceled true)); [repeat constructor|reflexivity]. Defined.

(** *** Readers and closing *)

(** A step of some goroutine of the service: the read-locked and the write-locked part of
    [getReader], [closeReader], [getWriter] and [Close]. *)
Inductive op := OFast (key : string) | OSlow (key : string) | OCloseReader (topic groupID : string) | OWriter | OClose.
Definition op_step (o : op) (s : Kafka) : list action * Kafka :=
  match o with
  | OFast _ => ([], s)
  | OSlow key => ([], (reader_slow key s).2)
  | OCloseReader t g => closeReader t g s
  | OWriter => ([], (getWriter s).2)
  | OClose => let '(_, l, s') := Close (λ _, true) s in (l, s')
  end.
Definition run_ops (os : list op) (s : Kafka) : list action * Kafka :=
  foldl (λ ls o, let '(l, s') := op_step o ls.2 in (ls.1 ++ l, s')%list) ([], s) os.
(** The numbers that calls close. *)
Definition closed_numbers (l : list action) : list nat :=
  omap (λ a, match a with ACloseWriter n | ACloseReader n | ACloseConn n => Some n | _ => None end) l.
Definition held (s : Kafka) : list nat := closed_numbers (close_actions s).

(** Every number given out is held or was closed, and none is both or twice. *)
Definition ledger (first : nat) (ls : list action * Kafka) : Prop := closed_numbers ls.1 ++ held ls.2 ≡ₚ seq first (fresh ls.2 - first) ∧ (first ≤ fresh ls.2)%nat.

Lemma closed_numbers_app l l' : closed_numbers (l ++ l') = (closed_numbers l ++ closed_numbers l')%list.
Proof. apply omap_app. Qed.
Lemma closed_readers l : closed_numbers (ACloseReader <$> l) = l.
Proof. induction l as [|n l IH]; [done|]. cbn. by f_equal. Qed.
Definition opt_list (o : option nat) : list nat := match o with Some n => [n] | None => [] end.
Lemma held_parts s : held s = (opt_list (writer s) ++ (map_to_list (readers s)).*2 ++ opt_list (conn s))%list.
Proof. unfold held, close_actions. rewrite !closed_numbers_app, closed_readers. by destruct (writer s), (conn s). Qed.

Lemma seq_grow first n : (first ≤ n)%nat → seq first (S n - first) = (seq first (n - first) ++ [n])%list.
Proof. intros H. replace (S n - first)%nat with (S (n - first)) by lia. rewrite seq_S. do 3 f_equal. lia. Qed.

Lemma ledger_step first l s o : ledger first (l, s) → let '(l', s') := op_step o s in ledger first (l ++ l', s')%list.
Proof.
  unfold ledger. cbn [fst snd]. intros [H Hf]. rewrite held_parts in H. destruct o as [key|key|t g| |]; cbn [op_step].
  - rewrite app_nil_r, held_parts. done.
  - rewrite app_nil_r, held_parts. unfold reader_slow. destruct (readers s !! key) eqn:Hk; [done|]. cbn [snd with_readers writer readers conn fresh]. split; [|lia].
    rewrite seq_grow by done. rewrite <- H, map_to_list_insert by done. cbn [fmap list_fmap snd]. clear. solve_Permutation.
  - unfold closeReader. destruct (readers s !! reader_key t g) as [r|] eqn:Hk; [|by rewrite app_nil_r, held_parts].
    rewrite held_parts. cbn [with_readers writer readers conn fresh]. split; [|done]. rewrite <- H, closed_numbers_app. cbn [closed_numbers omap list_omap].
    rewrite <- (map_to_list_delete _ _ _ Hk). cbn [fmap list_fmap snd]. clear. solve_Permutation.
  - rewrite app_nil_r, held_parts. unfold getWriter. destruct (writer s) eqn:Hw; cbn [snd]; [by rewrite Hw|]. case_decide; cbn [snd with_writer writer readers conn fresh]; [by rewrite Hw|].
    split; [|lia]. rewrite seq_grow by done. rewrite <- H. cbn [opt_list]. clear. solve_Permutation.
  - unfold Close. cbn [fresh]. rewrite held_parts. cbn [writer readers conn opt_list]. rewrite map_to_list_empty, closed_numbers_app. cbn [fmap list_fmap app]. rewrite app_nil_r.
    split; [|done]. fold (held s). by rewrite held_parts.
Qed.

Lemma ledger_run first os ls : ledger first ls → ledger first (foldl (λ ls o, let '(l, s') := op_step o ls.2 in (ls.1 ++ l, s')%list) ls os).
Proof.
  revert ls. induction os as [|o os IH]; intros [l s] H; cbn [foldl]; [done|]. apply IH. pose proof (ledger_step first l s o H) as Hs. cbn [fst snd].
  by destruct (op_step o s).
Qed.

(** C7: However the goroutines of a service interleave, the connection, the writers and
    the readers it makes are closed at most once, and exactly the others are
    held; closing the service closes all of them. *)
Theorem kafka_closes_once c remote s os : New (Some (c, remote)) = Some s →
  let '(l, s') := run_ops os s in
  NoDup (closed_numbers l ++ held s') ∧ (closed_numbers l ++ held s' ≡ₚ seq c (fresh s' - c)) ∧
  (closed_numbers (run_ops (os ++ [OClose]) s).1 ≡ₚ seq c (fresh s' - c)) ∧ held (run_ops (os ++ [OClose]) s).2 = [].
Proof.
  intros [= <-]. set (s0 := mkKafka _ _ _ _ _ _).
  assert (∀ os, ledger c (run_ops os s0)) as H.
  { intros os'. apply ledger_run. unfold ledger. cbn [fst snd]. rewrite held_parts. cbn [writer readers conn opt_list fresh s0]. rewrite map_to_list_empty.
    cbn [closed_numbers omap list_omap fmap list_fmap app]. replace (S (S c) - c)%nat with 2%nat by lia. split; [apply perm_swap|lia]. }
  pose proof (H os) as [Hp _]. pose proof (H (os ++ [OClose])%list) as [Hc _]. unfold run_ops in Hc |- *. rewrite foldl_app in Hc |- *. cbn [foldl] in Hc |- *.
  change (foldl _ ([], s0) os) with (run_ops os s0) in Hc |- *. destruct (run_ops os s0) as [l s']. cbn [fst snd] in *.
  cbn [op_step fst snd] in Hc |- *. unfold Close in *. cbn [fst snd fresh] in *.
  assert (held (mkKafka None (brokers s') (messaging s') None ∅ (fresh s')) = []) as Hh by (by rewrite held_parts).
  rewrite Hh in Hc |- *. rewrite app_nil_r in Hc. repeat split; [|done|done]. rewrite Hp. apply NoDup_seq.
Qed.
Lemma kafka_closes_once_witness :
  (run_ops [OFast "a:g"; OSlow "a:g"; OSlow "a:g"; OCloseReader "a" "g"; OSlow "a:g"; OClose] (mkKafka (Some 0%nat) ["b"] (Some default_messaging) (Some 1%nat) ∅ 2)).1 =
    [ACloseReader 2; ACloseWriter 1; ACloseReader 3; ACloseConn 0]%nat ∧
  closed_numbers (run_ops ([OFast "a:g"; OSlow "a:g"; OSlow "a:g"; OCloseReader "a" "g"; OSlow "a:g"] ++ [OClose])
    (mkKafka (Some 0%nat) ["b"] (Some default_messaging) (Some 1%nat) ∅ 2)).1 ≡ₚ [0; 1; 2; 3]%nat.
Proof.
  split; [vm_compute; reflexivity|].
  exact (proj1 (proj2 (proj2 (kafka_closes_once 0 "b" (mkKafka (Some 0%nat) ["b"] (Some default_messaging) (Some 1%nat) ∅ 2)
    [OFast "a:g"; OSlow "a:g"; OSlow "a:g"; OCloseReader "a" "g"; OSlow "a:g"] eq_refl)))).
Defined.

(** Two goroutines that both missed a reader get the same one. *)
Theorem reader_shared key s : let '(r, s1) := reader_slow key s in reader_slow key s1 = (r, s1) ∧ reader_fast key s1 = Some r.
Proof.
  unfold reader_slow, reader_fast. destruct (readers s !! key) as [r|] eqn:Hk; [by rewrite Hk|]. cbn [with_readers readers]. by rewrite lookup_insert_eq.
Qed.

(** A publisher that saw the connection before [Close] makes a writer after it, on
    a service that is no longer connected. *)
Theorem writer_after_close s w s' : brokers s ≠ [] → getWriter (Close (λ _, true) s).2 = (w, s') → w = Some (fresh s) ∧ held s' = [fresh s] ∧ IsConnected (Some s') = false.
Proof.
  intros Hb. unfold Close, getWriter. cbn [snd writer brokers fresh]. rewrite decide_False by done. intros [= <- <-]. repeat split.
Qed.
Lemma writer_after_close_witness : held (getWriter (Close (λ _, true) service).2).2 = [2%nat].
Proof.
  destruct (getWriter (Close (λ _, true) service).2) as [w s'] eqn:H. exact (proj1 (proj2 (writer_after_close service w s' ltac:(discriminate) H))).
Defined.

(** What the driver of Kafka connects it closes: the writer, and the connection. *)
Theorem kafka_driver_closes dial cfg s : Connect dial cfg = Ok (Some s) →
  ∃ b bs c remote, cfg = CKafka (b :: bs) ∧ dial b = Some (c, remote) ∧ DriverClose (λ _, true) (VKafka s) = (Ok (), [ACloseWriter (S c); ACloseConn c]).
Proof.
  destruct cfg as [[|b bs]|]; cbn [Connect]; try done. destruct (dial b) as [[c remote]|] eqn:Hd; [|done]. intros [= <-]. by exists b, bs, c, remote.
Qed.
Lemma kafka_driver_closes_witness : Connect (λ _, Some (4%nat, "b:9092")) (CKafka ["b:9092"]) = Ok (New (Some (4%nat, "b:9092"))) ∧
  ∃ s, New (Some (4%nat, "b:9092")) = Some s ∧ DriverClose (λ _, true) (VKafka s) = (Ok (), [ACloseWriter 5; ACloseConn 4]%nat).
Proof.
  split; [reflexivity|]. eexists. split; [reflexivity|].
  destruct (kafka_driver_closes (λ _, Some (4%nat, "b:9092")) (CKafka ["b:9092"]) _ eq_refl) as (b & bs & c & remote & _ & [= <- _] & H). exact H.
Defined.

(** *** RabbitMQ *)

Ltac all_cons := repeat match goal with H : Forall _ (_ :: _) |- _ => apply list.Forall_cons in H as [? H] end; cbn [fst] in *.

Section Rabbit.
Context (succeeds : RabbitMQ.action → bool).

Lemma calls_spec l : let '(done, e) := RabbitMQ.calls succeeds l in
  match e with None => Forall (λ c, succeeds c.1 = true) l ∧ done = l.*1 | Some _ => ¬ Forall (λ c, succeeds c.1 = true) l end ∧
  ∃ rest, l.*1 = (done ++ rest)%list.
Proof.
  induction l as [|[a e] l IH]; cbn [RabbitMQ.calls]; [split; [split; constructor|by exists []]|]. destruct (succeeds a) eqn:Ha.
  - destruct (RabbitMQ.calls succeeds l) as [done [e'|]]; destruct IH as [IH [rest Hr]].
    + split; [by intros [_ ?]%list.Forall_cons|]. exists rest. cbn [fmap list_fmap fst app]. f_equal. exact Hr.
    + destruct IH as [IH ->]. split; [split; [by constructor|done]|]. exists rest. cbn. f_equal. exact Hr.
  - split; [by intros [H _]%list.Forall_cons; cbn in H; congruence|]. by exists l.*1.
Qed.

(** The channel that [PublishMessage] opens is closed at the end whatever happens,
    and the message counts as published exactly when the connection is open, every
    call succeeds and the broker confirms it. *)
Theorem rabbit_publish_exact exchange key body wait s :
  let '(r, l) := RabbitMQ.PublishMessage succeeds exchange key body wait s in
  (r = Ok () ↔ RabbitMQ.IsConnected s = true ∧ RabbitMQ.messaging s ≠ None ∧ wait = RabbitMQ.Confirmed true ∧
    Forall (λ a, succeeds a = true) [RabbitMQ.AOpen; RabbitMQ.AExchange exchange; RabbitMQ.AQueue key; RabbitMQ.ABind key key exchange; RabbitMQ.AConfirm;
      RabbitMQ.APublish exchange key body]) ∧
  (l = [] ∨ l = [RabbitMQ.AOpen] ∧ succeeds RabbitMQ.AOpen = false ∨ ∃ l', l = (RabbitMQ.AOpen :: l' ++ [RabbitMQ.ACloseChannel])%list).
Proof.
  unfold RabbitMQ.PublishMessage. destruct (RabbitMQ.IsConnected s); cbn [negb]; [|split; [by split; [|intros [? _]]|by left]].
  destruct (succeeds RabbitMQ.AOpen) eqn:Ho; cbn [negb].
  2: { split; [split; [done|]|auto]. intros (_ & _ & _ & H). apply list.Forall_cons in H as [H _]. congruence. }
  pose proof (calls_spec (RabbitMQ.ensureExchangeAndQueue exchange key ++ [(RabbitMQ.AConfirm, RabbitMQ.EConfirm)])) as Hc.
  destruct (RabbitMQ.calls _ _) as [l [e|]]; destruct Hc as [Hc _]; cbn [RabbitMQ.ensureExchangeAndQueue app] in Hc.
  - split; [|by right; right; exists l]. split; [done|]. intros (_ & _ & _ & H). destruct Hc.
    all_cons. by repeat constructor.
  - destruct Hc as [Hc ->]. destruct (RabbitMQ.messaging s) as [m|].
    + split; [|right; right; by eexists [_; _; _; _; _]].
      all_cons. destruct (succeeds (RabbitMQ.APublish exchange key body)) eqn:Hp.
      * split; [|intros (_ & _ & -> & _); done]. destruct wait as [[]| |]; cbn; try done. intros _. by repeat (split || constructor).
      * split; [done|]. intros (_ & _ & _ & Hx). all_cons. congruence.
    + split; [split; [done|by intros (_ & [] & _)]|]. right; right. by eexists [_; _; _; _].
Qed.

(** A consumer's channel is closed when it cannot be set up, and is left to the
    goroutine when it can. *)
Theorem rabbit_consume_channel queue s :
  let '(r, l) := RabbitMQ.ConsumeMessages succeeds queue s in
  match r with
  | Ok _ => l = [RabbitMQ.AOpen; RabbitMQ.AExchange queue; RabbitMQ.AQueue queue; RabbitMQ.ABind queue queue queue; RabbitMQ.AQos; RabbitMQ.AConsume queue] ∧ Forall (λ a, succeeds a = true) l
  | Err _ => l = [] ∨ l = [RabbitMQ.AOpen] ∧ succeeds RabbitMQ.AOpen = false ∨ ∃ l', l = (RabbitMQ.AOpen :: l' ++ [RabbitMQ.ACloseChannel])%list
  | _ => False
  end.
Proof.
  unfold RabbitMQ.ConsumeMessages. destruct (RabbitMQ.IsConnected s); cbn [negb]; [|by left]. destruct (succeeds RabbitMQ.AOpen) eqn:Ho; cbn [negb]; [|by right; left].
  pose proof (calls_spec (RabbitMQ.ensureExchangeAndQueue queue queue ++ [(RabbitMQ.AQos, RabbitMQ.EQos); (RabbitMQ.AConsume queue, RabbitMQ.EConsume)])) as Hc.
  destruct (RabbitMQ.calls _ _) as [l [e|]]; destruct Hc as [Hc _]; cbn [RabbitMQ.ensureExchangeAndQueue app] in Hc; [right; right; by exists l|]. destruct Hc as [Hc ->]. split; [done|].
  all_cons. by repeat constructor.
Qed.
End Rabbit.

(** Every delivery is acknowledged, also one whose handler failed: the message is lost. *)
Theorem rabbit_failed_acked deliveries tag : (tag, false) ∈ deliveries → RabbitMQ.AAck tag ∈ RabbitMQ.consume_loop deliveries.
Proof. intros H. apply list_elem_of_fmap. by exists (tag, false). Qed.
Lemma rabbit_failed_acked_witness : RabbitMQ.AAck 2 ∈ RabbitMQ.consume_loop [(1%nat, true); (2%nat, false)].
Proof. apply (rabbit_failed_acked _ 2). right. left. Defined.

(** What the driver of RabbitMQ connects it cannot close: it asks for the bare
    connection, which it does not return. *)
Theorem rabbit_driver_never_closes url_text dial cfg c closes : RabbitMQ.Connect url_text dial cfg = Ok c →
  RabbitMQ.DriverClose closes c = (Err RabbitMQ.EConnType, []).
Proof.
  destruct cfg as [cfg|]; cbn [RabbitMQ.Connect]; [|done]. destruct (String.eqb _ _); [done|]. destruct (dial _); [|done]. by intros [= <-].
Qed.
Lemma rabbit_driver_never_closes_witness :
  RabbitMQ.DriverClose true (RabbitMQ.VService (RabbitMQ.NewRabbitMQ (Some false))) = (Err RabbitMQ.EConnType, []).
Proof.
  apply (rabbit_driver_never_closes (λ h _ p, "amqp://" +:+ h +:+ p) (λ _, true) (RabbitMQ.CRabbit (RabbitMQ.mkConfig "mq:5672" "" "" "" 0 0)) _ true). reflexivity.
Defined.
