(* ===== verification/RedisDriver.v ===== *)
(** * The Redis driver of the data layer

    Models src/data/redis/driver.go: connecting, the commands that tell a collector
    of their outcome, and the storage of the metrics of the data layer in sorted
    sets, one for each type of metric.  The server is the class [Redis] of
    [RedisCache], the text of a metric a [Codec], and metrics and requests are
    those of [DataMetrics].  Scores are whole seconds; a bound at infinity is one
    that no int64 passes. *)

From stdpp Require Import base tactics option list gmap strings numbers sorting.
From Stdlib Require Import ZArith Ascii Lia.
From S2P Require Import Prelude GoStrings MetricsStore RedisCache RedisMetrics DataMetrics.

Open Scope string_scope.

Inductive driver_error := EConfigType | EAddr | EPing | EConnType | EClose.

(** ** The driver *)

(** The configuration of Redis, from src/data/config/redis.go. *)
Record Config := mkConfig { Addr : string; Username : string; Password : string; Db : Z; ReadTimeout : Z; WriteTimeout : Z; DialTimeout : Z }.
Inductive any_config := CRedis (c : Config) | COther.
(** A client by its number, or another value. *)
Inductive any_conn := VClient (n : nat) | VOther.
Inductive client_call := CNew (c : Config) | CPing | CClose.

(** A client that does not answer is closed again. *)
Definition Connect (ping : bool) (fresh : nat) (cfg : any_config) : res driver_error any_conn * list client_call :=
  match cfg with
  | COther => (Err EConfigType, [])
  | CRedis c =>
      if String.eqb (Addr c) "" then (Err EAddr, [])
      else if ping then (Ok (VClient fresh), [CNew c; CPing]) else (Err EPing, [CNew c; CPing; CClose])
  end.
Definition DriverClose (closes : bool) (conn : any_conn) : res driver_error () * list client_call :=
  match conn with VOther => (Err EConnType, []) | VClient _ => (if closes then Ok () else Err EClose, [CClose]) end.
Definition Ping (answers : bool) (conn : any_conn) : res driver_error () * list client_call :=
  match conn with VOther => (Err EConnType, []) | VClient _ => (if answers then Ok () else Err EPing, [CPing]) end.

(** ** Commands with a collector *)

Section Collector.
Context {W : Type} `{Redis W}.
Implicit Types (w : W) (now : Z).

(** A collector: none, one of the commands only, or a whole one. *)
Inductive collector := NoCollector | CacheOnly (l : list call) | Full (l : list call).
Definition tell (c : call) (k : collector) : collector :=
  match k with NoCollector => NoCollector | CacheOnly l => CacheOnly (l ++ [c]) | Full l => Full (l ++ [c]) end%list.
Record CacheCollector := NewCacheCollector { c_collector : collector }.

(** A command and its telling: [redis.Nil] is an error of the command as well. *)
Definition told (name : string) (run : W → reply * W) (c : CacheCollector) w : reply * W * CacheCollector :=
  let (r, w) := run w in (r, w, NewCacheCollector (tell (RedisCommand name (negb (is_error r))) (c_collector c))).

Definition Get now (key : string) := told "get" (exec now (RedisCache.Get key)).
(** The text that the client makes of the value. *)
Definition Set_ now (key value : string) (expiration : Z) := told "set" (exec now (RedisCache.Set_ key value expiration)).
Definition HGet now (key field : string) := told "hget" (exec now (RedisCache.HGet key field)).

(** The commands of several keys or fields are arguments. *)
Context (del : list string → W → reply * W) (hset : string → list (string * string) → W → reply * W) (hdel : string → list string → W → reply * W).
Definition Del (keys : list string) := told "del" (del keys).
Definition HSet (key : string) (values : list (string * string)) := told "hset" (hset key values).
Definition HDel (key : string) (fields : list string) := told "hdel" (hdel key fields).
Definition CollectorPing (answers : bool) (c : CacheCollector) : bool * CacheCollector :=
  (answers, NewCacheCollector (tell (RedisCommand "ping" answers) (c_collector c))).
(** The connections of the pool, for a whole collector only. *)
Definition PoolStats (stats : option Z) (c : CacheCollector) : option Z * CacheCollector :=
  (stats, match stats, c_collector c with
          | Some n, Full _ => NewCacheCollector (tell (RedisConnections n) (c_collector c))
          | _, _ => c
          end).
End Collector.

(** ** The storage of metrics *)

Section Storage.
Context {W : Type} `{Redis W} `{Codec Metric}.
Implicit Types (r : RedisStorage) (w : W) (now : Z).

Definition type_key r (type : string) : string := keyPrefix r +:+ ":metrics:" +:+ type.
Definition text_of (m : Metric) : option (string * Z) := s ← marshal m; Some (s, Unix (m_Timestamp m)).

(** The commands of the pipeline: a metric without a text is left out. *)
Definition put_metric r (m : Metric) : list command :=
  match text_of m with Some x => [ZAdd (type_key r (Type_ m)) [x]; Expire_ (type_key r (Type_ m)) (retention r)] | None => [] end.
Definition Store now r (metricsData : list Metric) w : bool * W := exec_all now (metricsData ≫= put_metric r) w.

Definition matchesLabels (m : Metric) (labels : list (string * string)) : bool :=
  forallb (λ kv, match m_Labels m with Some l => String.eqb (default "" (l !! kv.1)) kv.2 | None => false end) labels.

Definition score_min (t : Z) : Z := if IsZero t then min_int64 else Unix t.
Definition score_max (t : Z) : Z := if IsZero t then max_int64 else Unix t.
Definition metrics_of (rep : reply) : list Metric := match rep with RList l => omap (λ o, s ← o; unmarshal s) l | _ => [] end.

(** [None] is an error of the server. *)
Definition Query now r (q : QueryRequest) w : option (list Metric) * W :=
  let (rep, w) := exec now (ZRangeByScore (type_key r (r_Type q)) (score_min (r_Start q)) (score_max (r_End q))) w in
  (match rep with
   | RList _ =>
       let result := List.filter (λ m, matchesLabels m (r_Labels q)) (metrics_of rep) in
       Some (if (0 <? r_Limit q)%Z && (r_Limit q <? Z.of_nat (length result))%Z then take (Z.to_nat (r_Limit q)) result else result)
   | _ => None
   end, w).

(** The collector of the data layer over this storage: its flush stores the
    buffer, and what fails to be stored is dropped. *)
Record RedisDataCollector := mkDataCollector { base : DataCollector; storage : RedisStorage }.
Definition NewDataCollectorWithRedis (prefix : string) (retention batchSize : Z) : RedisDataCollector :=
  mkDataCollector (NewDataCollector (if (batchSize <=? 0)%Z then 100 else batchSize)) (NewRedisStorage prefix retention).
Definition flush now (c : RedisDataCollector) w : RedisDataCollector * W :=
  let (l, b) := flush_take (base c) in (mkDataCollector b (storage c), match l with [] => w | _ => (Store now (storage c) l w).2 end).
(** Each of its calls is the one of the collector it wraps. *)
Definition collect now (c : call) (s : RedisDataCollector) w : RedisDataCollector * W :=
  let (full, b) := recordMetric (recorded c now) (count_call c (base s)) in
  if full : bool then flush now (mkDataCollector b (storage s)) w else (mkDataCollector b (storage s), w).
Definition GetStats (c : RedisDataCollector) := DataMetrics.GetStats (base c).
(** Closing the storage does nothing. *)
Definition Close now (c : RedisDataCollector) w : RedisDataCollector * W := flush now c w.
End Storage.

(** ** Properties *)

Section Facts.
Context {W : Type} `{Redis W} `{Codec Metric}.
Implicit Types (r : RedisStorage) (w : W) (now : Z).

#[local] Instance type_key_inj r : Inj (=) (=) (type_key r).
Proof. intros a b Hab. unfold type_key in Hab. by apply (inj (String.append _)), (inj (String.append _)) in Hab. Qed.

Lemma text_of_back m x t : text_of m = Some (x, t) → unmarshal x = Some m ∧ t = Unix (m_Timestamp m).
Proof. unfold text_of. destruct (marshal m) as [s|] eqn:Hs; [|done]. cbn. intros [= <- <-]. split; [by apply marshal_back|done]. Qed.

(** Nothing expires before [until], and the set of a type holds the texts of the
    metrics of the log with their seconds. *)
Definition holds r (log : list Metric) (k : string) (z : gmap string Z) : Prop :=
  ∀ x t, z !! x = Some t ↔ ∃ m, m ∈ log ∧ type_key r (Type_ m) = k ∧ text_of m = Some (x, t).
Record keeps r (until : Z) (log : list Metric) (d : keys) : Prop := {
  k_expiry k e t : d !! k = Some e → e_expires e = Some t → (until ≤ t)%Z;
  k_sets k : ∃ z, as_zset (d !! k) = Some z ∧ holds r log k z }.

Lemma keeps_live now until r log d k : keeps r until log d → (now < until)%Z → live now d !! k = d !! k.
Proof.
  intros Hk Hn. rewrite live_lookup. destruct (d !! k) as [e|] eqn:Hd; [|done]. cbn [mbind option_bind].
  destruct (e_expires e) as [t|] eqn:He; [|done]. pose proof (k_expiry _ _ _ _ Hk k e t Hd He). by rewrite (proj2 (Z.ltb_lt now t)) by lia.
Qed.

Lemma keeps_log r until log log' d : (∀ m, is_Some (text_of m) → m ∈ log ↔ m ∈ log') → keeps r until log d → keeps r until log' d.
Proof.
  intros Hl [Hk1 Hk2]. split; [done|]. intros k. destruct (Hk2 k) as (z & Hz & Hh). exists z. split; [done|]. intros x t. rewrite (Hh x t).
  split; intros (m & Hm & Hk & Ht); exists m; (split; [|done]); by apply (Hl m).
Qed.

Lemma holds_insert r log m x t k z : text_of m = Some (x, t) → holds r log k z →
  holds r (log ++ [m]) k (if decide (k = type_key r (Type_ m)) then <[x := t]> z else z).
Proof.
  intros Ht Hz y u. case_decide as Hk.
  - destruct (decide (y = x)) as [->|Hy].
    + rewrite lookup_insert_eq. split; [intros [= <-]; exists m; rewrite elem_of_app; split; [right; left|done]|].
      intros (m' & _ & _ & Ht'). apply text_of_back in Ht as [Hm ->], Ht' as [Hm' ->]. rewrite Hm in Hm'. by injection Hm' as ->.
    + rewrite lookup_insert_ne, (Hz y u) by done. split; intros (m' & Hm & Hk' & Ht'); exists m'; (split; [|done]); rewrite elem_of_app in *; [by left|].
      destruct Hm as [Hm|Hm]; [done|]. apply list_elem_of_singleton in Hm as ->. rewrite Ht in Ht'. by injection Ht' as ->.
  - rewrite (Hz y u). split; intros (m' & Hm & Hk' & Ht'); exists m'; (split; [|done]); rewrite elem_of_app in *; [by left|].
    destruct Hm as [Hm|Hm]; [done|]. apply list_elem_of_singleton in Hm as ->. by destruct Hk.
Qed.

(** The two commands of one metric. *)
Lemma keeps_metric now until r log d m : keeps r until log d → (now < until)%Z → (until ≤ now + in_seconds (retention r))%Z →
  keeps r until (log ++ [m]) (foldl (λ d c, (sem now c d).2) d (put_metric r m)).
Proof.
  intros Hk Hn Hu. unfold put_metric. destruct (text_of m) as [[x t]|] eqn:Ht.
  2: { cbn [foldl]. apply (keeps_log r until log); [|done]. intros m' Hm'. rewrite elem_of_app, list_elem_of_singleton. split; [auto|].
       intros [?| ->]; [done|]. rewrite Ht in Hm'. by destruct Hm'. }
  cbn [foldl]. set (k := type_key r (Type_ m)). destruct (k_sets _ _ _ _ Hk k) as (z & Hz & Hh). cbn [sem].
  rewrite (keeps_live now until r log d k), Hz by done. cbn [snd].
  assert (list_to_map (rev [(x, t)]) ∪ z = <[x := t]> z) as -> by (cbn; by rewrite <- insert_union_l, (left_id_L ∅ (∪))).
  assert (put_zset k (<[x := t]> z) (live now d) = <[k := mkEntry (VZSet (<[x := t]> z)) (d !! k ≫= e_expires)]> (live now d)) as ->.
  { unfold put_zset. rewrite decide_False by apply insert_non_empty. by rewrite (keeps_live now until r log d k). }
  set (d1 := <[k := _]> (live now d)).
  assert (live now d1 !! k = Some (mkEntry (VZSet (<[x := t]> z)) (d !! k ≫= e_expires))) as Hl1.
  { rewrite live_lookup. unfold d1. rewrite lookup_insert_eq. cbn [mbind option_bind e_expires]. destruct (d !! k) as [e|] eqn:Hd; [|done]. cbn.
    destruct (e_expires e) as [u|] eqn:He; [|done]. pose proof (k_expiry _ _ _ _ Hk k e u Hd He). by rewrite (proj2 (Z.ltb_lt now u)) by lia. }
  rewrite Hl1. cbn [snd e_value]. destruct (Z.ltb_spec 0 (in_seconds (retention r))); [|lia]. cbn [snd].
  assert (∀ k', k' ≠ k → live now d1 !! k' = d !! k') as Hother.
  { intros k' Hne. rewrite live_lookup. unfold d1. rewrite lookup_insert_ne by done. rewrite (keeps_live now until r log d k') by done.
    rewrite <- (keeps_live now until r log d k') at 2 by done. by rewrite live_lookup. }
  split.
  - intros k' e u. destruct (decide (k' = k)) as [->|Hne]; [rewrite lookup_insert_eq; intros [= <-] [= <-]; lia|].
    rewrite lookup_insert_ne, Hother by done. apply (k_expiry _ _ _ _ Hk).
  - intros k'. destruct (decide (k' = k)) as [->|Hne].
    + rewrite lookup_insert_eq. exists (<[x := t]> z). split; [done|]. pose proof (holds_insert r log m x t k z Ht Hh) as Hi. by rewrite decide_True in Hi.
    + rewrite lookup_insert_ne, Hother by done. destruct (k_sets _ _ _ _ Hk k') as (z' & Hz' & Hh'). exists z'. split; [done|].
      pose proof (holds_insert r log m x t k' z' Ht Hh') as Hi. by rewrite decide_False in Hi.
Qed.

Lemma keeps_metrics now until r l log d : keeps r until log d → (now < until)%Z → (until ≤ now + in_seconds (retention r))%Z →
  keeps r until (log ++ l) (foldl (λ d c, (sem now c d).2) d (l ≫= put_metric r)).
Proof.
  revert log d. induction l as [|m l IH]; intros log d Hk Hn Hu; [by rewrite app_nil_r|].
  change ((m :: l) ≫= put_metric r) with (put_metric r m ++ (l ≫= put_metric r))%list. rewrite foldl_app, (cons_middle m log l), (assoc_L (++)). apply IH; [|done..]. by apply keeps_metric.
Qed.

(** Batches stored at their times, none with an error. *)
Fixpoint run_stores r (os : list (Z * list Metric)) w : option W :=
  match os with
  | [] => Some w
  | (now, l) :: os => match Store now r l w with (true, w) => run_stores r os w | _ => None end
  end.

Lemma run_stores_keeps r until os log w w' : Forall (λ o, until - in_seconds (retention r) ≤ o.1 < until)%Z os → keeps r until log (view w) →
  run_stores r os w = Some w' → keeps r until (log ++ concat os.*2) (view w').
Proof.
  intros Hos. revert log w. induction Hos as [|[now l] os Ho _ IH]; intros log w Hk; cbn [run_stores fmap list_fmap concat snd]; [intros [= <-]; by rewrite app_nil_r|].
  cbn in Ho. unfold Store. destruct (exec_all now _ w) as [[] w1] eqn:Hall; [|done]. rewrite (assoc_L (++)). apply IH.
  rewrite (exec_all_view _ _ _ _ Hall). apply keeps_metrics; [done|lia..].
Qed.

Definition by_seconds (x y : Metric) : Prop := (Unix (m_Timestamp x) ≤ Unix (m_Timestamp y))%Z.

(** What a list of members and scores makes: the metrics of the log with them. *)
Lemma metrics_of_ranked r log k z ps : holds r log k z → (∀ p, p ∈ ps → z !! p.1 = Some p.2) → NoDup ps →
  StronglySorted zle ps →
  let l := omap (λ o, s ← o; unmarshal s) (Some <$> ps.*1) in
  (∀ m, m ∈ l ↔ ∃ p, p ∈ ps ∧ m ∈ log ∧ type_key r (Type_ m) = k ∧ text_of m = Some p) ∧ NoDup l ∧ StronglySorted by_seconds l.
Proof.
  intros Hz. induction ps as [|[x t] ps IH]; intros Hps Hnd Hs; cbn [fmap list_fmap omap list_omap fst].
  - split; [|split; constructor]. intros m. split; [by intros ?%elem_of_nil|by intros (p & ?%elem_of_nil & _)].
  - assert (z !! x = Some t) as Hx by (apply (Hps (x, t)); left). apply Hz in Hx as (m & Hm & Hk & Ht). pose proof (text_of_back _ _ _ Ht) as [Hu ->].
    cbn [mbind option_bind]. rewrite Hu. apply NoDup_cons in Hnd as [Hni Hnd]. apply StronglySorted_inv in Hs as [Hs' Hle].
    destruct IH as (He & Hn & Ho); [intros p Hp; apply Hps; by right|done..|].
    assert (∀ m' p, m' ∈ log → type_key r (Type_ m') = k → text_of m' = Some p → p = (x, Unix (m_Timestamp m)) ↔ m' = m) as Huniq.
    { intros m' [y u] _ _ Ht'. split; [intros [= -> ->]|intros ->; congruence]. apply text_of_back in Ht' as [Hu' _]. congruence. }
    split; [|split].
    + intros m'. rewrite elem_of_cons, He. split.
      * intros [->|(p & Hp & Hr)]; [eexists; split; [left|done]|exists p; split; [by right|done]].
      * intros (p & [->|Hp]%elem_of_cons & Hl & Hk' & Ht'); [left; by apply (Huniq m' _ Hl Hk' Ht')|right; eauto].
    + constructor; [|done]. intros Hin. apply He in Hin as (p & Hp & Hl & Hk' & Ht'). destruct Hni.
      by rewrite (proj2 (Huniq m p Hl Hk' Ht') eq_refl) in Hp.
    + constructor; [done|]. apply list.Forall_forall. intros m' Hm'. apply He in Hm' as ([y u] & Hp & Hl & Hk' & Ht').
      rewrite list.Forall_forall in Hle. specialize (Hle _ Hp). apply text_of_back in Ht' as [_ ->]. unfold by_seconds. unfold zle in Hle. cbn in Hle. lia.
Qed.

#[local] Instance zle_trans : Transitive zle.
Proof.
  intros [x t] [y u] [v k]. unfold zle. cbn. intros [H1|[-> H1]] [H2|[<- H2]]; [left; lia..|]. right. split; [done|].
  apply Is_true_true. change (String.le x v). trans y; by apply Is_true_true.
Qed.
#[local] Instance zle_total : base.Total zle.
Proof.
  intros [x t] [y u]. unfold zle. cbn. destruct (Z.lt_total t u) as [?|[->|?]]; [by left; left| |by right; left].
  destruct (String.leb_total x y); [left|right]; by right.
Qed.

Lemma sorted_bool_filter {A} (R : relation A) (f : A → bool) l : StronglySorted R l → StronglySorted R (List.filter f l).
Proof.
  induction 1 as [|x l Hl IH Hx]; cbn [List.filter]; [constructor|]. destruct (f x); [|done]. constructor; [done|].
  apply list.Forall_forall. intros y Hy. apply list_elem_of_In, filter_In in Hy as [Hy%list_elem_of_In _]. rewrite list.Forall_forall in Hx. by apply Hx.
Qed.

(** C8: After batches stored on an empty server, none with an error and all within the
    retention time in whole seconds, a query without a limit gives the metrics of its type with
    its labels whose second is within the bounds, each once and in the order of
    their seconds. *)
Theorem stored_metrics_queried r (t0 : Z) os w w' now q l w'' :
  view w = ∅ → Forall (λ o, t0 ≤ o.1 < t0 + in_seconds (retention r))%Z os → run_stores r os w = Some w' → (now < t0 + in_seconds (retention r))%Z →
  (r_Limit q ≤ 0)%Z → Query now r q w' = (Some l, w'') →
  (∀ m, m ∈ l ↔ m ∈ concat os.*2 ∧ is_Some (marshal m) ∧ Type_ m = r_Type q ∧
    (score_min (r_Start q) ≤ Unix (m_Timestamp m) ≤ score_max (r_End q))%Z ∧ matchesLabels m (r_Labels q) = true) ∧
  NoDup l ∧ StronglySorted by_seconds l.
Proof.
  intros Hw Hos Hrun Hn Hlim. assert (keeps r (t0 + in_seconds (retention r)) (concat os.*2) (view w')) as Hk.
  { apply (run_stores_keeps r _ os [] w); [eapply list.Forall_impl; [exact Hos|intros; cbn in *; lia]| |done]. rewrite Hw. split; [by intros ? ? ? ?%lookup_empty_Some|].
    intros k. exists ∅. rewrite lookup_empty. split; [done|]. intros x t. rewrite lookup_empty. split; [done|by intros (m & ?%elem_of_nil & _)]. }
  unfold Query. set (c := ZRangeByScore _ _ _). destruct (exec now c w') as [rep w1] eqn:He. pose proof (exec_ok now c w') as Hok. rewrite He in Hok. cbn [fst snd] in Hok.
  intros Hq. assert (rep ≠ RFail) as Hrep by (intros ->; done). destruct (Hok Hrep) as [Hsem _]. unfold c in Hsem. cbn [sem] in Hsem.
  rewrite (keeps_live now _ r _ _ _ Hk Hn) in Hsem. destruct (k_sets _ _ _ _ Hk (type_key r (r_Type q))) as (z & Hz & Hh). rewrite Hz in Hsem. cbn [fst] in Hsem. subst rep.
  assert ((0 <? r_Limit q)%Z = false) as Hlim' by lia. rewrite Hlim' in Hq. cbn [andb] in Hq. injection Hq as <- _.
  set (zr := in_scores _ _ z). pose proof (merge_sort_Permutation zle (map_to_list zr)) as Hp.
  destruct (metrics_of_ranked r (concat os.*2) (type_key r (r_Type q)) z (merge_sort zle (map_to_list zr)) Hh) as (Hel & Hnd & Hs).
  { intros [x t] Hin. rewrite Hp in Hin. apply elem_of_map_to_list in Hin. unfold zr, in_scores in Hin. by apply map_lookup_filter_Some in Hin as [? _]. }
  { rewrite Hp. apply NoDup_map_to_list. }
  { by apply StronglySorted_merge_sort; apply _. }
  unfold metrics_of, ranked. split; [|split].
  - intros m. rewrite list_elem_of_In, filter_In, <- list_elem_of_In, Hel. split.
    + intros [([x t] & Hin & Hm & Hk' & Ht) Hlab]. rewrite Hp in Hin. apply elem_of_map_to_list in Hin. unfold zr, in_scores in Hin.
      apply map_lookup_filter_Some in Hin as [_ Hr]. cbn in Hr. pose proof (text_of_back _ _ _ Ht) as [_ ->]. split_and!; [done| |by apply (inj (type_key r))|lia..|done].
      unfold text_of in Ht. destruct (marshal m); [by eexists|done].
    + intros (Hm & [x Hx] & Hty & Hr & Hlab). split; [|done]. exists (x, Unix (m_Timestamp m)).
      assert (text_of m = Some (x, Unix (m_Timestamp m))) as Ht by (unfold text_of; by rewrite Hx). split_and!; [|done|by rewrite Hty|done].
      rewrite Hp. apply elem_of_map_to_list. unfold zr, in_scores. apply map_lookup_filter_Some. split; [|done].
      apply Hh. exists m. split_and!; [done|by rewrite Hty|done].
  - by apply NoDup_ListNoDup, List.NoDup_filter, NoDup_ListNoDup.
  - by apply sorted_bool_filter.
Qed.
End Facts.

(** A command that finds nothing is told as failed, and so counted as an error of
    Redis by the collector of the data layer. *)
Theorem missing_key_counted `{Redis W} now key (c : CacheCollector) (w : W) :
  live now (view w) !! key = None → (exec now (RedisCache.Get key) w).1 ≠ RFail →
  let '(r, _, c') := Get now key c w in
  r = RNil ∧ c_collector c' = tell (RedisCommand "get" false) (c_collector c) ∧ bumped (RedisCommand "get" false) = [redisCommands; redisErrors].
Proof.
  intros Hk Hr. unfold Get, told. pose proof (exec_ok now (RedisCache.Get key) w Hr) as [He _]. destruct (exec now _ w) as [r w']. cbn [fst] in He. subst r.
  cbn [sem fst]. by rewrite Hk.
Qed.
Lemma missing_key_counted_witness : (let '(r, _, c') := Get (W := keys) 0 "a" (NewCacheCollector (Full [])) ∅ in (r, c_collector c')) = (RNil, Full [RedisCommand "get" false]).
Proof.
  assert (live 0 (view (∅ : keys)) !! "a" = None) as H1 by (vm_compute; reflexivity).
  assert ((exec 0 (RedisCache.Get "a") (∅ : keys)).1 ≠ RFail) as H2 by (vm_compute; discriminate).
  pose proof (missing_key_counted 0 "a" (NewCacheCollector (Full [])) (∅ : keys) H1 H2) as H.
  destruct (Get 0 "a" (NewCacheCollector (Full [])) (∅ : keys)) as [[r w'] c']. destruct H as (-> & -> & _). reflexivity.
Defined.

(** Connecting makes a client only for an address, and closes one that does not
    answer; what it gives can be pinged and closed. *)
Theorem driver_connects ping fresh cfg :
  let '(r, l) := Connect ping fresh cfg in
  match r with
  | Ok c => ping = true ∧ (∃ cfg', cfg = CRedis cfg' ∧ Addr cfg' ≠ "") ∧ (DriverClose true c).1 = Ok () ∧ (Ping true c).1 = Ok () ∧ CClose ∉ l
  | _ => l = [] ∨ ∃ cfg', l = [CNew cfg'; CPing; CClose]
  end.
Proof.
  destruct cfg as [c|]; cbn [Connect]; [|by left]. destruct (String.eqb_spec (Addr c) "") as [|Ha]; [by left|].
  destruct ping; [|by right; exists c]. split_and!; [done|by exists c|done|done|]. intros [?|[?|?%elem_of_nil]%elem_of_cons]%elem_of_cons; done.
Qed.

(** *** A server in memory *)

#[export] Instance metric_dec : EqDecision Metric.
Proof. solve_decision. Defined.

Definition hit (v t : Z) : Metric := mkMetric "hit" v None (t * second).
(** Texts of two metrics. *)
#[export, program] Instance hit_codec : Codec Metric := {
  marshal m := if decide (m = hit 1 100) then Some "one" else if decide (m = hit 2 900) then Some "two" else None;
  unmarshal s := if String.eqb s "one" then Some (hit 1 100) else if String.eqb s "two" then Some (hit 2 900) else None }.
Next Obligation. intros m s. cbn. repeat case_decide; intros; simplify_eq; done. Qed.
Next Obligation. done. Qed.

Definition hits_storage : RedisStorage := NewRedisStorage "app" (1000 * second).
Definition hits (now : list Z) : list (Z * list Metric) := zip ((λ t, t * second)%Z <$> now) [[hit 1 100]; [hit 2 900]].
Definition answer (now : Z) (type : string) : option (list Metric) :=
  w ← run_stores hits_storage (hits [100; 900]%Z) (∅ : keys); (Query (now * second) hits_storage (mkRequest type zero_time zero_time [] 0) w).1.

Lemma stored_metrics_queried_witness : answer 950 "hit" = Some [hit 1 100; hit 2 900] ∧
  ∃ w', run_stores hits_storage (hits [100; 900]%Z) (∅ : keys) = Some w' ∧
    NoDup (default [] (Query (950 * second) hits_storage (mkRequest "hit" zero_time zero_time [] 0) w').1).
Proof.
  split; [vm_compute; reflexivity|].
  destruct (run_stores hits_storage (hits [100; 900]%Z) (∅ : keys)) as [w'|] eqn:Hrun; [|vm_compute in Hrun; discriminate Hrun]. exists w'. split; [reflexivity|].
  destruct (Query (950 * second) hits_storage (mkRequest "hit" zero_time zero_time [] 0) w') as [[l|] w''] eqn:Hq; [|apply NoDup_nil_2].
  exact (proj1 (proj2 (stored_metrics_queried hits_storage (100 * second) (hits [100; 900]%Z) (∅ : keys) w' (950 * second)
    (mkRequest "hit" zero_time zero_time [] 0) l w'' eq_refl ltac:(repeat constructor; vm_compute; congruence) Hrun
    ltac:(vm_compute; reflexivity) ltac:(vm_compute; congruence) Hq))).
Defined.

(** A metric outlives its retention time as long as others of its type come, and
    a request for every type finds none. *)
Theorem retention_of_the_type : answer 1500 "hit" = Some [hit 1 100; hit 2 900] ∧ answer 1950 "hit" = Some [] ∧ answer 950 "" = Some [].
Proof. vm_compute. repeat split. Qed.
