(* ===== verification/ExtConfig.v ===== *)
(** * Configuration of the extensions

    Models src/extension/config/config.go: reading the configuration of the
    extension manager from its source, validating it, and durations in days and
    weeks, with [time.ParseDuration] of the Go library.  The source (viper) is the
    record of [OAuthConfig] with more accessors.  The configuration of plugins is
    passed on as it is. *)

From stdpp Require Import base tactics option list gmap strings numbers pretty.
From Stdlib Require Import ZArith Ascii Lia SpecFloat.
From S2P Require Import Prelude Lexer Float64 Base64 GoStrings Sandbox OAuthConfig.

Open Scope string_scope.

(** ** [time.ParseDuration] *)

Definition nanosecond : Z := 1.
Definition microsecond : Z := 1000.
Definition millisecond : Z := 1000000.
Definition second : Z := 1000000000.
Definition minute : Z := 60 * second.
Definition hour : Z := 60 * minute.
Definition day : Z := 24 * hour.

(** The two spellings of the micro sign are two bytes each. *)
Definition micro1 : string := String "194" (String "181" "s").
Definition micro2 : string := String "206" (String "188" "s").
Definition unit_map : list (string * Z) :=
  [("ns", nanosecond); ("us", microsecond); (micro1, microsecond); (micro2, microsecond); ("ms", millisecond); ("s", second); ("m", minute); ("h", hour)].
Definition unit_of (u : string) : option Z := snd <$> List.find (λ p, String.eqb p.1 u) unit_map.

(** The digits at the start, with their value; [None] above 2^63. *)
Fixpoint leading_int (s : string) (x : Z) : option (Z * string) :=
  match s with
  | String c s' =>
      if isDigit c then
        if (Z.quot (2 ^ 63) 10 <? x)%Z then None
        else let x' := (x * 10 + digit_val c)%Z in if (2 ^ 63 <? x')%Z then None else leading_int s' x'
      else Some (x, s)
  | EmptyString => Some (x, s)
  end.
(** The digits of a fraction, as far as they fit, with the power of ten. *)
Fixpoint leading_fraction (s : string) (x : Z) (scale : float64) (overflow : bool) : Z * float64 * string :=
  match s with
  | String c s' =>
      if isDigit c then
        if overflow then leading_fraction s' x scale true
        else if (Z.quot (2 ^ 63 - 1) 10 <? x)%Z then leading_fraction s' x scale true
        else let y := (x * 10 + digit_val c)%Z in
             if (2 ^ 63 <? y)%Z then leading_fraction s' x scale true else leading_fraction s' y (f_mul scale (f_of_Z 10)) false
      else (x, scale, s)
  | EmptyString => (x, scale, s)
  end.
(** The bytes up to a point or a digit. *)
Fixpoint unit_text (s : string) : string * string :=
  match s with
  | String c s' => if Ascii.eqb c "." || isDigit c then ("", s) else let '(u, r) := unit_text s' in (String c u, r)
  | EmptyString => ("", "")
  end.
Definition whole_part (f : float64) : Z :=
  match f with S754_finite sg m e => let n := (f_trunc_parts m e).1 in if sg then (- n)%Z else n | _ => 0%Z end.

(** One number with its unit: its length and the rest. *)
Definition one_part (s : string) : option (Z * string) :=
  match s with
  | String c _ =>
      if negb (Ascii.eqb c "." || isDigit c) then None
      else
        '(v, s1) ← leading_int s 0;
        let pre := negb (String.length s1 =? String.length s)%nat in
        let '(f, scale, s2, post) :=
          match s1 with
          | String c1 s1' =>
              if Ascii.eqb c1 "." then
                let '(f, scale, s2) := leading_fraction s1' 0 (f_of_Z 1) false in (f, scale, s2, negb (String.length s2 =? String.length s1')%nat)
              else (0%Z, f_of_Z 1, s1, false)
          | EmptyString => (0%Z, f_of_Z 1, s1, false)
          end in
        if negb pre && negb post then None
        else
          let '(u, s3) := unit_text s2 in
          if String.eqb u "" then None
          else
            unit ← unit_of u;
            if (Z.quot (2 ^ 63) unit <? v)%Z then None
            else
              let v := (v * unit)%Z in
              let v := if (0 <? f)%Z then (v + whole_part (f_mul (f_of_Z f) (f_div (f_of_Z unit) scale)))%Z else v in
              if (2 ^ 63 <? v)%Z then None else Some (v, s3)
  | EmptyString => None
  end.
Fixpoint parts_of (fuel : nat) (s : string) (d : Z) : option Z :=
  match s, fuel with
  | EmptyString, _ => Some d
  | _, O => None
  | _, S fuel' => '(v, s') ← one_part s; let d := (d + v)%Z in if (2 ^ 63 <? d)%Z then None else parts_of fuel' s' d
  end.
Definition ParseDuration (s : string) : option Z :=
  let '(neg, body) :=
    match s with
    | String c s' => if Ascii.eqb c "-" then (true, s') else if Ascii.eqb c "+" then (false, s') else (false, s)
    | EmptyString => (false, s)
    end in
  if String.eqb body "0" then Some 0%Z
  else if String.eqb body "" then None
  else
    d ← parts_of (String.length body) body 0;
    if neg then Some (- d)%Z else if (2 ^ 63 - 1 <? d)%Z then None else Some d.

(** The rest after the last byte, when it is [c]. *)
Fixpoint cut_last (c : ascii) (s : string) : option string :=
  match s with
  | EmptyString => None
  | String a EmptyString => if Ascii.eqb a c then Some "" else None
  | String a s' => String a <$> cut_last c s'
  end.

(** With days and weeks; the product wraps. *)
Definition parseDuration (s : string) : option Z :=
  match cut_last "d" s with
  | Some t => n ← ParseInt t; Some (wrap64 (wrap64 (n * 24) * hour))
  | None =>
      match cut_last "w" s with
      | Some t => n ← ParseInt t; Some (wrap64 (wrap64 (wrap64 (n * 7) * 24) * hour))
      | None => ParseDuration s
      end
  end.

(** ** The configuration *)

Record PerformanceConfig := mkPerformance { MaxMemoryMB : Z; MaxCPUPercent : Z; GarbageCollectInterval : string; MaxConcurrentLoads : Z }.
Record StorageConfig := mkStorage { Type_ : string; KeyPrefix : string; Options : option (gmap string string) }.
Record MetricsConfig := mkMetrics { Enabled : bool; FlushInterval : string; BatchSize : Z; Retention : string; Storage : option StorageConfig }.
(** [PluginConfig] is named by the key it is read from. *)
Record Config := mkConfig {
  Mode : string; Path : string; Includes : option (list string); Excludes : option (list string); HotReload : bool;
  MaxPlugins : Z; PluginConfig : string; Security : option SecurityConfig; Performance : option PerformanceConfig; Metrics : option MetricsConfig }.

Definition BuiltInMode : string := "c2hlbgo".
Definition IsBuiltInMode (c : Config) : bool := String.eqb (Mode c) BuiltInMode.

Inductive config_error := EMaxPlugins | EGCInterval | EFlushInterval | ERetention | EBatchSize.

Definition GetRetentionDuration (m : MetricsConfig) : option Z :=
  if String.eqb (Retention m) "" then Some (168 * hour)%Z else parseDuration (Retention m).

(** A text that is not empty and cannot be parsed. *)
Definition unparsed (parse : string → option Z) (s : string) : bool := negb (String.eqb s "") && negb (is_some_b (parse s)).

Definition ValidateMetrics (m : MetricsConfig) : res config_error () :=
  if negb (Enabled m) then Ok ()
  else if unparsed ParseDuration (FlushInterval m) then Err EFlushInterval
  else if unparsed parseDuration (Retention m) then Err ERetention
  else if (BatchSize m <=? 0)%Z then Err EBatchSize
  else Ok ().
Definition Validate (c : Config) : res config_error () :=
  if (MaxPlugins c <=? 0)%Z then Err EMaxPlugins
  else if match Performance c with Some p => unparsed ParseDuration (GarbageCollectInterval p) | None => false end then Err EGCInterval
  else match Metrics c with Some m => ValidateMetrics m | None => Ok () end.

(** ** Reading *)

(** The accessors of [OAuthConfig], and those of numbers and durations. *)
Record Source := mkSource { viper : Viper; GetInt : string → Z; GetDuration : string → Z; GetFloat64 : string → float64 }.

Section Reading.
Context (v : Source).

Definition getStringWithDefault (key defaultValue : string) : string := if IsSet (viper v) key then GetString (viper v) key else defaultValue.
Definition getIntWithDefault (key : string) (defaultValue : Z) : Z := if IsSet (viper v) key then GetInt v key else defaultValue.
Definition getBoolWithDefault (key : string) (defaultValue : bool) : bool := if IsSet (viper v) key then GetBool (viper v) key else defaultValue.
Definition getStringSliceWithDefault (key : string) (defaultValue : list string) : option (list string) :=
  if IsSet (viper v) key then GetStringSlice (viper v) key else Some defaultValue.

Definition getDefaultPath (isDev : bool) : string := if isDev then "./plugins" else "/opt/ncore/plugins".

Definition blocked_default : list string := [".exe"; ".bat"; ".cmd"].
Definition getSecurityConfig (isDev : bool) : SecurityConfig :=
  if negb (IsSet (viper v) "extension.security") then mkSecurity false [] blocked_default [] false isDev
  else
    mkSecurity (getBoolWithDefault "extension.security.enable_sandbox" false)
      (elems (GetStringSlice (viper v) "extension.security.allowed_paths"))
      (elems (getStringSliceWithDefault "extension.security.blocked_extensions" blocked_default))
      (elems (GetStringSlice (viper v) "extension.security.trusted_sources"))
      (getBoolWithDefault "extension.security.require_signature" false)
      (getBoolWithDefault "extension.security.allow_unsafe" isDev).

Definition getPerformanceConfig (isDev : bool) : PerformanceConfig :=
  mkPerformance (getIntWithDefault "extension.performance.max_memory_mb" (if isDev then 512 else 256)%Z)
    (getIntWithDefault "extension.performance.max_cpu_percent" (if isDev then 50 else 30)%Z)
    (getStringWithDefault "extension.performance.gc_interval" (if isDev then "5m" else "10m"))
    (getIntWithDefault "extension.performance.max_concurrent_loads" (if isDev then 5 else 3)%Z).

Definition getMetricsConfig (isDev : bool) : MetricsConfig :=
  mkMetrics (getBoolWithDefault "extension.metrics.enabled" false)
    (getStringWithDefault "extension.metrics.flush_interval" (if isDev then "30s" else "60s"))
    (getIntWithDefault "extension.metrics.batch_size" (if isDev then 50 else 100)%Z)
    (getStringWithDefault "extension.metrics.retention" (if isDev then "24h" else "7d"))
    (Some (if IsSet (viper v) "extension.metrics.storage" then
       mkStorage (getStringWithDefault "extension.metrics.storage.type" "auto") (getStringWithDefault "extension.metrics.storage.key_prefix" "ncore_ext")
         (GetStringMapString (viper v) "extension.metrics.storage.options")
     else mkStorage "auto" "ncore_ext" (Some ∅))).

Definition is_development (env : string) : bool := String.eqb env "development" || String.eqb env "dev".
Definition read_config : Config :=
  let isDev := is_development (getStringWithDefault "environment" "production") in
  let mode := getStringWithDefault "extension.mode" "file" in
  mkConfig mode (getStringWithDefault "extension.path" (getDefaultPath isDev)) (GetStringSlice (viper v) "extension.includes")
    (GetStringSlice (viper v) "extension.excludes") (String.eqb mode BuiltInMode || getBoolWithDefault "extension.hot_reload" false)
    (getIntWithDefault "extension.max_plugins" 20) "extension.plugin_config"
    (Some (getSecurityConfig isDev)) (Some (getPerformanceConfig isDev)) (Some (getMetricsConfig isDev)).

(** An invalid configuration panics. *)
Definition GetConfig : res config_error Config := match Validate read_config with Ok _ => Ok read_config | _ => Panic end.
End Reading.

(** ** Properties *)

Example durations :
  ParseDuration "1h30m" = Some (90 * minute)%Z ∧ ParseDuration "1.5s" = Some 1500000000%Z ∧ ParseDuration "-.5ms" = Some (-500000)%Z ∧
  ParseDuration "100ms2s" = Some 2100000000%Z ∧ ParseDuration "10" = None ∧ ParseDuration "1d" = None ∧ ParseDuration "." = None ∧ ParseDuration "" = None ∧
  ParseDuration "+0" = Some 0%Z ∧ ParseDuration "9223372036854775807ns" = Some max_int64 ∧ ParseDuration "9223372036854775808ns" = None ∧
  ParseDuration "-9223372036854775808ns" = Some min_int64 ∧ ParseDuration (String.append "3" micro1) = Some 3000%Z ∧
  parseDuration "2w" = Some (14 * day)%Z ∧ parseDuration "1.5d" = None ∧ parseDuration "90s" = Some (90 * second)%Z.
Proof. vm_compute. repeat split. Qed.

Lemma wrap64_mul_l a b : wrap64 (wrap64 a * b) = wrap64 (a * b).
Proof.
  unfold wrap64. f_equal. rewrite Z.mul_sub_distr_r, <- (Z.add_mod_idemp_l (a * b)) by lia.
  replace ((a + 2 ^ 63) `mod` 2 ^ 64 * b - 2 ^ 63 * b + 2 ^ 63)%Z with ((a + 2 ^ 63) `mod` 2 ^ 64 * b + (2 ^ 63 - 2 ^ 63 * b))%Z by lia.
  rewrite <- Z.add_mod_idemp_l, Z.mul_mod_idemp_l, Z.add_mod_idemp_l by lia. rewrite Z.add_mod_idemp_l by lia. f_equal. lia.
Qed.

Lemma cut_last_app c s : cut_last c (s +:+ String c "") = Some s.
Proof.
  induction s as [|a s IH]; [change ("" +:+ String c "") with (String c ""); cbn [cut_last]; by rewrite Ascii.eqb_refl|]. change (String a s +:+ String c "") with (String a (s +:+ String c "")).
  cbn [cut_last]. rewrite IH. by destruct s.
Qed.

Lemma read_digits_le s x v : (0 ≤ x)%Z → read_digits s x = Some v → (x ≤ v)%Z.
Proof.
  revert x. induction s as [|c s IH]; intros x Hx; cbn [read_digits]; [by intros [= ->]|]. destruct (isDigit c) eqn:Hc; [|done].
  intros H. assert (0 ≤ digit_val c)%Z by (by destruct c as [[] [] [] [] [] [] [] []]; vm_compute). specialize (IH (x * 10 + digit_val c)%Z ltac:(lia) H). lia.
Qed.

Lemma leading_int_digits s t x v : (0 ≤ x)%Z → read_digits s x = Some v → (v ≤ 2 ^ 63)%Z → match t with String c _ => isDigit c = false | _ => True end →
  leading_int (s +:+ t) x = Some (v, t).
Proof.
  revert x. induction s as [|c s IH]; intros x Hx; cbn [read_digits].
  - intros [= ->] _ Ht. destruct t as [|c t]; [done|]. change ("" +:+ String c t) with (String c t). cbn [leading_int]. by rewrite Ht.
  - destruct (isDigit c) eqn:Hc; [|done]. intros H Hv Ht. change (String c s +:+ t) with (String c (s +:+ t)). cbn [leading_int]. rewrite Hc.
    assert (0 ≤ digit_val c)%Z by (by destruct c as [[] [] [] [] [] [] [] []]; vm_compute).
    pose proof (read_digits_le s (x * 10 + digit_val c)%Z v ltac:(lia) H). assert ((Z.quot (2 ^ 63) 10 <? x)%Z = false) as -> by (change (Z.quot (2 ^ 63) 10) with 922337203685477580%Z; lia).
    assert ((2 ^ 63 <? x * 10 + digit_val c)%Z = false) as -> by lia. by apply IH; [lia|..].
Qed.

Lemma one_part_digits c ds v u unit a t : isDigit c = true → read_digits (String c ds) 0 = Some v → (v ≤ 2 ^ 63)%Z →
  isDigit a = false → Ascii.eqb a "." = false → unit_text (String a t) = (u, "") → u ≠ "" → unit_of u = Some unit →
  (v ≤ Z.quot (2 ^ 63) unit)%Z → (v * unit ≤ 2 ^ 63)%Z → one_part (String c ds +:+ String a t) = Some (v * unit, "")%Z.
Proof.
  intros Hc Hv Hb Ha Hdot Ht Hu Hunit Hq Hm. change (String c ds +:+ String a t) with (String c (ds +:+ String a t)). unfold one_part.
  rewrite Hc, orb_true_r. cbn [negb]. change (String c (ds +:+ String a t)) with (String c ds +:+ String a t).
  rewrite (leading_int_digits (String c ds) (String a t) 0 v) by done. cbn [mbind option_bind]. rewrite Hdot.
  assert ((String.length (String a t) =? String.length (String c ds +:+ String a t))%nat = false) as ->.
  { apply Nat.eqb_neq. rewrite str_length_app. cbn. lia. }
  cbn [negb andb]. rewrite Ht. destruct (String.eqb_spec u ""); [done|]. rewrite Hunit. cbn [mbind option_bind].
  assert ((Z.quot (2 ^ 63) unit <? v)%Z = false) as -> by lia. cbn [Z.ltb Z.compare]. assert ((2 ^ 63 <? v * unit)%Z = false) as -> by lia. done.
Qed.

(** Days are 24 hours up to the largest duration, of 106751 days; more wrap around
    to other durations, also negative ones, where hours are refused. *)
Theorem parse_days_exact n : (min_int64 ≤ n ≤ max_int64)%Z →
  parseDuration (pretty n +:+ "d") = Some (wrap64 (n * day)) ∧
  ((- 106751 ≤ n ≤ 106751)%Z ↔ wrap64 (n * day) = (n * day)%Z) ∧
  ((0 ≤ n ≤ 106751)%Z → ParseDuration (pretty (24 * n)%Z +:+ "h") = parseDuration (pretty n +:+ "d")).
Proof.
  intros Hn. assert (parseDuration (pretty n +:+ "d") = Some (wrap64 (n * day))) as Hd.
  { unfold parseDuration. rewrite cut_last_app, ParseInt_pretty by done. cbn [mbind option_bind]. rewrite wrap64_mul_l. do 2 f_equal. unfold day. lia. }
  split; [done|]. split.
  - unfold day, hour, minute, second. split; [intros H; apply wrap64_id; unfold min_int64, max_int64; lia|].
    intros H. pose proof (wrap64_range (n * (24 * (60 * (60 * 1000000000)))))%Z as Hr. rewrite H in Hr. unfold min_int64, max_int64 in Hr. lia.
  - intros Hr. rewrite Hd, wrap64_id by (unfold min_int64, max_int64, day, hour, minute, second; lia).
    assert (∃ c s, pretty (24 * n)%Z = String c s ∧ isDigit c = true ∧ read_digits (pretty (24 * n)%Z) 0 = Some (24 * n)%Z) as (c & s & Hp & Hc & Hv).
    { destruct (24 * n)%Z as [|p|p] eqn:Hp; [by exists "0"%char, ""| |lia]. change (pretty (Z.pos p)) with (pretty_N_go (N.pos p) "").
      destruct (pretty_go_digit (N.pos p) "") as (c & t & E & Hc); [lia|]. exists c, t. split; [done|]. split; [done|]. by rewrite read_digits_go. }
    unfold ParseDuration. rewrite Hp. change (String c s +:+ "h") with (String c (s +:+ "h")).
    cbv beta iota.
    destruct (Ascii.eqb_spec c "-") as [->|_]; [done|]. destruct (Ascii.eqb_spec c "+") as [->|_]; [done|].
    cbv beta iota. assert (String.eqb (String c (s +:+ "h")) "0" = false) as ->.
    { apply String.eqb_neq. intros [= -> H]. by destruct s. }
    change (String.eqb (String c (s +:+ "h")) "") with false. cbv iota.
    change (String.length (String c (s +:+ "h"))) with (S (String.length (s +:+ "h"))). cbn [parts_of].
    change (String c (s +:+ "h")) with (String c s +:+ "h"). rewrite (one_part_digits c s (24 * n) "h" hour "h" ""); [|try first [done|by rewrite <- Hp|change (Z.quot (2 ^ 63) hour) with 2562047%Z; lia|unfold hour, minute, second; lia]..].
    cbn [mbind option_bind]. rewrite Z.add_0_l. assert ((2 ^ 63 <? 24 * n * hour)%Z = false) as -> by (unfold hour, minute, second; lia).
    assert (∀ k d, parts_of k "" d = Some d) as Hparts by (by intros []). rewrite Hparts. cbn [mbind option_bind].
    assert ((2 ^ 63 - 1 <? 24 * n * hour)%Z = false) as -> by (unfold hour, minute, second; lia). f_equal. unfold day. lia.
Qed.
Lemma parse_days_exact_witness : parseDuration "106751d" = Some (106751 * day)%Z ∧ ParseDuration "2562024h" = parseDuration "106751d" ∧
  parseDuration "106752d" = Some (-9223371273709551616)%Z.
Proof.
  assert (min_int64 ≤ 106751 ≤ max_int64)%Z as Hn by (split; vm_compute; discriminate).
  split; [vm_compute; reflexivity|]. split; [|vm_compute; reflexivity].
  exact (proj2 (proj2 (parse_days_exact 106751 Hn)) ltac:(split; vm_compute; discriminate)).
Defined.

(** The fuel of [ParseDuration] is enough: each part takes a byte. *)
Lemma unit_text_app s : let '(u, r) := unit_text s in s = u +:+ r.
Proof.
  induction s as [|c s IH]; [done|]. cbn [unit_text]. destruct (_ || _); [done|]. destruct (unit_text s) as [u r]. by rewrite IH.
Qed.
Lemma leading_int_shorter s x v r : leading_int s x = Some (v, r) → (String.length r ≤ String.length s)%nat.
Proof.
  revert x. induction s as [|c s IH]; intros x; cbn [leading_int]; [by intros [= <- <-]|]. destruct (isDigit c); [|by intros [= <- <-]].
  destruct (_ <? x)%Z; [done|]. destruct (_ <? _)%Z; [done|]. intros H%IH. cbn. lia.
Qed.
Lemma leading_fraction_shorter s x sc o : (String.length (leading_fraction s x sc o).2 ≤ String.length s)%nat.
Proof.
  revert x sc o. induction s as [|c s IH]; intros x sc o; cbn [leading_fraction]; [done|]. destruct (isDigit c); [|done].
  repeat case_match; etrans; try apply IH; cbn; lia.
Qed.
Lemma one_part_shorter s v r : one_part s = Some (v, r) → (String.length r < String.length s)%nat.
Proof.
  unfold one_part. destruct s as [|c s]; [done|]. destruct (negb _); [done|]. destruct (leading_int (String c s) 0) as [[v1 s1]|] eqn:Hl; [|done].
  apply leading_int_shorter in Hl. cbn [mbind option_bind].
  set (q := match s1 with String c1 s1' => _ | EmptyString => _ end). assert (String.length q.1.2 ≤ String.length s1)%nat as Hq.
  { unfold q. destruct s1 as [|c1 s1']; [done|]. destruct (Ascii.eqb c1 "."); [|done]. pose proof (leading_fraction_shorter s1' 0 (f_of_Z 1) false) as H.
    destruct (leading_fraction s1' 0 (f_of_Z 1) false) as [[f sc] s2]. cbn in *. lia. }
  destruct q as [[[f sc] s2] post]. cbn [fst snd] in Hq. destruct (negb _ && negb post); [done|]. pose proof (unit_text_app s2) as Hu.
  destruct (unit_text s2) as [u s3]. destruct (String.eqb_spec u "") as [|Hne]; [done|]. destruct (unit_of u); [|done]. cbn [mbind option_bind].
  destruct (_ <? v1)%Z; [done|]. destruct (_ <? _)%Z; [done|]. intros [= _ <-]. rewrite Hu, str_length_app in Hq. destruct u; [done|]. cbn in *. lia.
Qed.
Lemma parts_fuel fuel s d : (String.length s ≤ fuel)%nat → parts_of fuel s d = parts_of (String.length s) s d.
Proof.
  revert s d. induction fuel as [fuel IH] using lt_wf_ind. intros s d Hf. destruct s as [|c s]; [by destruct fuel|]. destruct fuel as [|fuel]; [cbn in Hf; lia|].
  cbn [parts_of String.length]. destruct (one_part (String c s)) as [[v r]|] eqn:Hp; [|done]. apply one_part_shorter in Hp. cbn in Hp, Hf. cbn [mbind option_bind].
  destruct (_ <? _)%Z; [done|]. rewrite (IH fuel) by lia. rewrite (IH (String.length s)) by lia. done.
Qed.

(** A retention time of too many days passes the validation and is negative. *)
Theorem retention_wraps :
  let m := mkMetrics true "" 1 "106752d" None in
  ValidateMetrics m = Ok () ∧ GetRetentionDuration m = Some (-9223371273709551616)%Z ∧ ValidateMetrics (mkMetrics true "" 1 "-1d" None) = Ok ().
Proof. vm_compute. repeat split. Qed.

Section Loading.
Context (v : Source).
Abbreviation set := (IsSet (viper v)).

(** The settings that make reading the configuration panic. *)
Definition bad_metrics : Prop :=
  set "extension.metrics.enabled" = true ∧ GetBool (viper v) "extension.metrics.enabled" = true ∧
  (set "extension.metrics.flush_interval" = true ∧ unparsed ParseDuration (GetString (viper v) "extension.metrics.flush_interval") = true ∨
   set "extension.metrics.retention" = true ∧ unparsed parseDuration (GetString (viper v) "extension.metrics.retention") = true ∨
   set "extension.metrics.batch_size" = true ∧ (GetInt v "extension.metrics.batch_size" ≤ 0)%Z).
Definition bad_settings : Prop :=
  set "extension.max_plugins" = true ∧ (GetInt v "extension.max_plugins" ≤ 0)%Z ∨
  set "extension.performance.gc_interval" = true ∧ unparsed ParseDuration (GetString (viper v) "extension.performance.gc_interval") = true ∨
  bad_metrics.

(** A default is never at fault. *)
Lemma string_fault (parse : string → option Z) key d : unparsed parse d = false →
  unparsed parse (getStringWithDefault v key d) = true ↔ set key = true ∧ unparsed parse (GetString (viper v) key) = true.
Proof. intros Hd. unfold getStringWithDefault. destruct (set key); [tauto|]. rewrite Hd. split; [done|by intros [? _]]. Qed.
Lemma int_fault key d : (0 < d)%Z → (getIntWithDefault v key d <=? 0)%Z = true ↔ set key = true ∧ (GetInt v key ≤ 0)%Z.
Proof. intros Hd. unfold getIntWithDefault. destruct (set key); [rewrite Z.leb_le; tauto|]. rewrite Z.leb_le. split; [lia|by intros [? _]]. Qed.

Lemma metrics_fault isDev : ValidateMetrics (getMetricsConfig v isDev) ≠ Ok () ↔ bad_metrics.
Proof.
  unfold ValidateMetrics, bad_metrics, getMetricsConfig. cbn [Enabled FlushInterval Retention BatchSize].
  pose proof (string_fault ParseDuration "extension.metrics.flush_interval" (if isDev then "30s" else "60s") ltac:(destruct isDev; vm_compute; reflexivity)) as Hf.
  pose proof (string_fault parseDuration "extension.metrics.retention" (if isDev then "24h" else "7d") ltac:(destruct isDev; vm_compute; reflexivity)) as Hr.
  pose proof (int_fault "extension.metrics.batch_size" (if isDev then 50 else 100)%Z ltac:(destruct isDev; lia)) as Hb.
  unfold getBoolWithDefault. destruct (set "extension.metrics.enabled"), (GetBool (viper v) "extension.metrics.enabled"); cbn [negb]; try (split; [done|intros (? & ? & _); done]).
  destruct (unparsed ParseDuration _) eqn:E1; [|destruct (unparsed parseDuration _) eqn:E2; [|destruct (_ <=? 0)%Z eqn:E3]]; split.
  - intros _. split_and!; [done..|]. left. by apply Hf.
  - done.
  - intros _. split_and!; [done..|]. right; left. by apply Hr.
  - done.
  - intros _. split_and!; [done..|]. right; right. by apply Hb.
  - done.
  - intros []; done.
  - intros (_ & _ & [H|[H|H]]); [apply Hf in H|apply Hr in H|apply Hb in H]; congruence.
Qed.

Lemma GetConfig_faults : (GetConfig v = Panic ↔ bad_settings) ∧ (GetConfig v = Ok (read_config v) ∨ GetConfig v = Panic).
Proof.
  split; [|unfold GetConfig; destruct (Validate _) as [[]| | |]; auto].
  set (isDev := is_development (getStringWithDefault v "environment" "production")).
  pose proof (int_fault "extension.max_plugins" 20 ltac:(lia)) as Hm.
  pose proof (string_fault ParseDuration "extension.performance.gc_interval" (if isDev then "5m" else "10m") ltac:(destruct isDev; vm_compute; reflexivity)) as Hg.
  pose proof (metrics_fault isDev) as Hx. unfold GetConfig, Validate, bad_settings, read_config. fold isDev.
  cbn [MaxPlugins Performance Metrics getPerformanceConfig GarbageCollectInterval].
  destruct (getIntWithDefault v "extension.max_plugins" 20 <=? 0)%Z eqn:E1; [split; [left; by apply Hm|done]|].
  destruct (unparsed ParseDuration _) eqn:E2; [split; [right; left; by apply Hg|done]|].
  destruct (ValidateMetrics _) as [[]|e| |] eqn:E3; (split; [intros H|intros H]); try done.
  - destruct H as [H|[H|H]]; [apply Hm in H; congruence|apply Hg in H; congruence|]. by apply Hx in H.
  - right; right. by apply Hx.
  - right; right. by apply Hx.
  - right; right. by apply Hx.
Qed.
(** Reading the configuration panics exactly on a number of plugins, an interval, a
    retention time or a batch size that is set and wrong, those of the metrics only
    when they are enabled; otherwise it is the configuration read. *)
Theorem ext_config_panics_iff : (GetConfig v = Panic ↔ bad_settings) ∧ (GetConfig v = Ok (read_config v) ∨ GetConfig v = Panic).
Proof. exact GetConfig_faults. Qed.
End Loading.

(** A source in which nothing is set, in an environment. *)
Definition bare_source (env : string) : Source :=
  mkSource (mkViper (λ k, if String.eqb k "environment" then env else "") (λ _, false) (λ _, None) (λ _, None)
    (λ k, String.eqb k "environment") (λ _, [])) (λ _, 0%Z) (λ _, 0%Z) (λ _, f_zero).
(** The defaults: no sandbox and no signatures in either environment, and unsafe
    plugins allowed in development only. *)
Theorem ext_config_defaults :
  GetConfig (bare_source "production") = Ok (mkConfig "file" "/opt/ncore/plugins" None None false 20 "extension.plugin_config"
    (Some (mkSecurity false [] blocked_default [] false false)) (Some (mkPerformance 256 30 "10m" 3))
    (Some (mkMetrics false "60s" 100 "7d" (Some (mkStorage "auto" "ncore_ext" (Some ∅)))))) ∧
  GetConfig (bare_source "dev") = Ok (mkConfig "file" "./plugins" None None false 20 "extension.plugin_config"
    (Some (mkSecurity false [] blocked_default [] false true)) (Some (mkPerformance 512 50 "5m" 5))
    (Some (mkMetrics false "30s" 50 "24h" (Some (mkStorage "auto" "ncore_ext" (Some ∅)))))).
Proof. vm_compute. split; reflexivity. Qed.
