(* ===== verification/Settings.v ===== *)
(** * Configuration of the application

    Models src/config (config.go and the readers of its parts), src/data/config and
    src/logging/logger/config/config.go: what is read from the source of settings
    (viper, the record of [ExtConfig] with the lengths of its lists), with the
    defaults and the fallbacks to older names, and the global configuration with
    its initialisation, look-up and reloading.  Reading and finding files are
    arguments. *)

From stdpp Require Import base tactics option list gmap strings numbers pretty.
From Stdlib Require Import ZArith Ascii Lia.
From S2P Require Import Prelude Float64 GoStrings ObjectStore Brokers RedisDriver MongoManager OAuthConfig ExtConfig.

Open Scope string_scope.

(** ** Environments *)

(** [strings.ToLower] of the environment is an argument. *)
Definition IsProd (lower : string → string) (environment : string) (envs : list string) : bool :=
  let envs := match envs with [] => ["prod"; "release"; "production"] | _ => envs end in
  let currentEnv := lower environment in
  String.eqb currentEnv "" || existsb (λ env, String.eqb currentEnv (lower env)) envs.

(** ** The parts of the configuration *)

(** Addresses and an account of a search engine or a database. *)
Record Account := mkAccount { Addresses : option (list string); AUsername : string; APassword : string; InsecureSkipTLS : bool }.
Record HostKey := mkHostKey { Host : string; APIKey : string }.
Record IndexSettings := mkIndexSettings {
  Shards : Z; Replicas_ : Z; RefreshInterval : string; SearchableFields : option (list string); FilterableFields : option (list string) }.
Record Search := mkSearch {
  IndexPrefix : string; DefaultEngine : string; AutoCreateIndex : bool; IndexSettings_ : IndexSettings; Meili : HostKey; Elastic : Account; Opens : Account }.
Record DBNode := mkDBNode {
  DDriver : string; DSource : string; DLogging : bool; MaxIdleConn : Z; MaxOpenConn : Z; ConnMaxLifeTime : Z; DWeight : Z }.
Record Database := mkDatabase { DMaster : DBNode; DSlaves : list DBNode; Migrate : bool; DStrategy : string; DMaxRetry : Z }.
Record DataMetrics := mkDataMetrics { MEnabled : bool; StorageType : string; MKeyPrefix : string; RetentionDays : Z; MBatchSize : Z }.
Record KafkaConfig := mkKafkaConfig {
  KBrokers : option (list string); ClientID_ : string; ConsumerGroup : string; Topic : string; KReadTimeout : Z; KWriteTimeout : Z; KConnectTimeout : Z }.
Record Neo4j := mkNeo4j { NURI : string; NUsername : string; NPassword : string }.
Record Data := mkData {
  Database_ : Database; Redis_ : RedisDriver.Config; Search_ : Search; MongoDB_ : MongoDB; Neo4j_ : Neo4j; RabbitMQ_ : RabbitMQ.Config;
  Kafka_ : KafkaConfig; Metrics_ : DataMetrics; Messaging_ : Messaging }.

(** The masking of the log; the model of the masking in [Desensitizer] takes a length
    that is not negative and the compiled patterns. *)
Record Masking := mkMasking {
  MaskEnabled : bool; SensitiveFields : option (list string); CustomPatterns : option (list string); PreservePrefix : Z; PreserveSuffix : Z;
  MaskChar : string; UseFixedLength : bool; FixedMaskLength : Z; ExactFieldMatch : bool; EnableDefaultPatterns : bool }.
Record LoggerConfig := mkLogger {
  Level : Z; LPath : string; Format : string; Output : string; OutputFile : string; IndexName : string; DateSuffix : string; RotateDaily : bool;
  LMasking : Masking; LMeili : option HostKey; LElastic : option Account; LOpens : option Account }.

Section Reading.
(** The settings, and the length of a list of settings: [None] when there is none
    or it is no list. *)
Context (v : Source) (length_of : string → option nat).
Implicit Types key : string.
#[local] Abbreviation isSet := (IsSet (viper v)).
#[local] Abbreviation str := (GetString (viper v)).
#[local] Abbreviation bool_ := (GetBool (viper v)).
#[local] Abbreviation slice := (GetStringSlice (viper v)).

Definition getStringOrDefault key (defaultValue : string) : string := if isSet key then str key else defaultValue.
Definition getIntOrDefault key (defaultValue : Z) : Z := if isSet key then GetInt v key else defaultValue.
Definition getBoolOrDefault key (defaultValue : bool) : bool := if isSet key then bool_ key else defaultValue.
Definition getDurationOrDefault key (defaultValue : Z) : Z := if isSet key then GetDuration v key else defaultValue.
Definition getFloat64OrDefault key (defaultValue : float64) : float64 := if isSet key then GetFloat64 v key else defaultValue.
Definition getUint32OrDefault key (defaultValue : Z) : Z := if isSet key then (GetInt v key `mod` 2 ^ 32)%Z else defaultValue.

(** The setting, or the older one when it is empty. *)
Definition str_or key older : string := if String.eqb (str key) "" then str older else str key.
Definition slice_or key older : option (list string) := match elems (slice key) with [] => slice older | _ => slice key end.

(** *** src/data/config/search.go *)

Definition searchable_default : list string := ["title"; "content"; "details"; "name"; "description"].
Definition filterable_default : list string := ["id"; "user_id"; "type"; "status"; "created_at"; "updated_at"].
Definition getDefaultIndexSettings : IndexSettings := mkIndexSettings 1 0 "1s" (Some searchable_default) (Some filterable_default).
Definition fields_or (l : option (list string)) (defaults : list string) : option (list string) := match elems l with [] => Some defaults | _ => l end.
Definition getSearchIndexSettings : IndexSettings :=
  if negb (isSet "data.search.index_settings") then getDefaultIndexSettings
  else mkIndexSettings (getIntOrDefault "data.search.index_settings.shards" 1) (getIntOrDefault "data.search.index_settings.replicas" 0)
         (getStringOrDefault "data.search.index_settings.refresh_interval" "1s")
         (fields_or (slice "data.search.index_settings.searchable_fields") searchable_default)
         (fields_or (slice "data.search.index_settings.filterable_fields") filterable_default).

Context (lower : string → string).
Definition getDefaultIndexPrefix : string :=
  let appName := str "app_name" in
  let environment := str "environment" in
  if negb (String.eqb appName "") && negb (String.eqb environment "") then lower (appName +:+ "-" +:+ environment)
  else if negb (String.eqb appName "") then lower appName
  else "".
Definition getSearchIndexPrefix : string := getStringOrDefault "data.search.index_prefix" getDefaultIndexPrefix.
Definition getSearchDefaultEngine : string := getStringOrDefault "data.search.default_engine" "elasticsearch".
Definition getSearchAutoCreateIndex : bool := getBoolOrDefault "data.search.auto_create_index" true.
Definition getOpenSearchConfigs : Account :=
  mkAccount (slice_or "data.search.opensearch.addresses" "data.opensearch.addresses") (str_or "data.search.opensearch.username" "data.opensearch.username")
    (str_or "data.search.opensearch.password" "data.opensearch.password")
    (if isSet "data.search.opensearch.insecure_skip_tls" then bool_ "data.search.opensearch.insecure_skip_tls" else bool_ "data.opensearch.insecure_skip_tls").
Definition getElasticsearchConfigs : Account :=
  mkAccount (slice_or "data.search.elasticsearch.addresses" "data.elasticsearch.addresses") (str_or "data.search.elasticsearch.username" "data.elasticsearch.username")
    (str_or "data.search.elasticsearch.password" "data.elasticsearch.password") false.
Definition getMeilisearchConfigs : HostKey :=
  mkHostKey (str_or "data.search.meilisearch.host" "data.meilisearch.host") (str_or "data.search.meilisearch.api_key" "data.meilisearch.api_key").
Definition getSearchConfig : Search :=
  if negb (isSet "data.search") then
    mkSearch getDefaultIndexPrefix "elasticsearch" true getDefaultIndexSettings getMeilisearchConfigs getElasticsearchConfigs getOpenSearchConfigs
  else
    mkSearch getSearchIndexPrefix getSearchDefaultEngine getSearchAutoCreateIndex getSearchIndexSettings getMeilisearchConfigs getElasticsearchConfigs getOpenSearchConfigs.

(** *** src/data/config/messaging.go *)

Definition getMessagingCrossRegionMode : bool := getBoolOrDefault "data.messaging.cross_region_mode" false.
Definition getMessagingPublishTimeout : Z :=
  getDurationOrDefault "data.messaging.publish_timeout" (if getMessagingCrossRegionMode then 60 * second else 30 * second)%Z.
Definition getMessagingEnabled : bool := getBoolOrDefault "data.messaging.enabled" true.
Definition getMessagingRetryAttempts : Z := getIntOrDefault "data.messaging.retry_attempts" 3.
Definition getMessagingRetryBackoffMax : Z := getDurationOrDefault "data.messaging.retry_backoff_max" (30 * second)%Z.
Definition getMessagingFallbackToMemory : bool := getBoolOrDefault "data.messaging.fallback_to_memory" true.
Definition getMessagingConfig : Messaging :=
  mkMessaging getMessagingEnabled getMessagingPublishTimeout getMessagingCrossRegionMode getMessagingRetryAttempts getMessagingRetryBackoffMax
    getMessagingFallbackToMemory.
Definition HasQueueConfig : bool := isSet "data.rabbitmq.url" || isSet "data.kafka.brokers".

(** *** The other parts of src/data/config *)

Definition indexed (prefix : string) (i : nat) (field : string) : string := prefix +:+ "." +:+ pretty (N.of_nat i) +:+ "." +:+ field.
Definition node_at (key : string → string) : DBNode :=
  mkDBNode (str (key "driver")) (str (key "source")) (bool_ (key "logging")) (GetInt v (key "max_idle_conn")) (GetInt v (key "max_open_conn"))
    (GetDuration v (key "max_life_time")) (GetInt v (key "weight")).
Definition getMasterConfig : DBNode := node_at (λ f, "data.database.master." +:+ f).
Definition getSlaveConfigs : list DBNode :=
  match length_of "data.database.slaves" with None => [] | Some n => (λ i, node_at (indexed "data.database.slaves" i)) <$> seq 0 n end.
Definition getDatabaseConfig : Database :=
  mkDatabase getMasterConfig getSlaveConfigs (bool_ "data.database.migrate") (str "data.database.strategy") (GetInt v "data.database.max_retry").

(** The weight of the master is not read. *)
Definition mongo_node_at (key : string → string) : MongoNode := mkMongoNode (str (key "uri")) (bool_ (key "logging")) (GetInt v (key "weight")).
Definition getMongoSlaveConfigs : list MongoNode :=
  match length_of "data.mongodb.slaves" with
  | None => []
  | Some n =>
      i ← seq 0 n;
      let slave := mongo_node_at (indexed "data.mongodb.slaves" i) in
      if String.eqb (URI slave) "" then []
      else [if (NodeWeight slave <=? 0)%Z then mkMongoNode (URI slave) (Logging slave) 1 else slave]
  end.
Definition getMongoDBConfigs : MongoDB :=
  mkMongoDB (Some (mkMongoNode (str "data.mongodb.master.uri") (bool_ "data.mongodb.master.logging") 0)) (Some <$> getMongoSlaveConfigs)
    (str "data.mongodb.strategy") (GetInt v "data.mongodb.max_retry").

Definition getRedisConfigs : RedisDriver.Config :=
  RedisDriver.mkConfig (str "data.redis.addr") (str "data.redis.username") (str "data.redis.password") (GetInt v "data.redis.db")
    (GetDuration v "data.redis.read_timeout") (GetDuration v "data.redis.write_timeout") (GetDuration v "data.redis.dial_timeout").
Definition getKafkaConfigs : KafkaConfig :=
  mkKafkaConfig (slice "data.kafka.brokers") (str "data.kafka.client_id") (str "data.kafka.consumer_group") (str "data.kafka.topic")
    (GetDuration v "data.kafka.read_timeout") (GetDuration v "data.kafka.write_timeout") (GetDuration v "data.kafka.connect_timeout").
Definition getRabbitMQConfigs : RabbitMQ.Config :=
  RabbitMQ.mkConfig (str "data.rabbitmq.url") (str "data.rabbitmq.username") (str "data.rabbitmq.password") (str "data.rabbitmq.vhost")
    (GetDuration v "data.rabbitmq.connection_timeout") (GetDuration v "data.rabbitmq.heartbeat_interval").
Definition getNeo4jConfigs : Neo4j := mkNeo4j (str "data.neo4j.uri") (str "data.neo4j.username") (str "data.neo4j.password").
Definition getMetricsConfig : DataMetrics :=
  let enabled := bool_ "data.metrics.enabled" in
  let storageType := str "data.metrics.storage_type" in
  mkDataMetrics enabled
    (if String.eqb storageType "" then
       if enabled && isSet "data.redis.addr" && negb (String.eqb (str "data.redis.addr") "") then "redis" else "memory"
     else storageType)
    (getStringOrDefault "data.metrics.key_prefix" "ncore_data") (getIntOrDefault "data.metrics.retention_days" 7) (getIntOrDefault "data.metrics.batch_size" 100).
Definition getDataConfig : Data :=
  mkData getDatabaseConfig getRedisConfigs getSearchConfig getMongoDBConfigs getNeo4jConfigs getRabbitMQConfigs getKafkaConfigs getMetricsConfig getMessagingConfig.

(** *** src/logging/logger/config *)

Definition sensitive_default : list string :=
  ["password"; "passwd"; "pwd"; "token"; "access_token"; "refresh_token"; "auth_token"; "secret"; "api_key"; "apikey"; "credit_card"; "card_number"].
(** Without a section, and with one in which parts are missing. *)
Definition getDesensitizationConfigs : Masking :=
  if negb (isSet "logger.desensitization") then mkMasking true (Some sensitive_default) None 0 0 "*" true 6 false false
  else
    let fixed := GetInt v "logger.desensitization.fixed_mask_length" in
    mkMasking (bool_ "logger.desensitization.enabled") (fields_or (slice "logger.desensitization.sensitive_fields") sensitive_default)
      (slice "logger.desensitization.custom_patterns") (GetInt v "logger.desensitization.preserve_prefix")
      (GetInt v "logger.desensitization.preserve_suffix") (or_default "*" (str "logger.desensitization.mask_char"))
      (bool_ "logger.desensitization.use_fixed_length") (if (fixed =? 0)%Z then 8%Z else fixed)
      (getBoolOrDefault "logger.desensitization.exact_field_match" false) (getBoolOrDefault "logger.desensitization.enable_default_patterns" false).

Definition getDateSuffixPattern : string := getStringOrDefault "logger.date_suffix" "2006-01-02".
Definition getRotateDaily : bool := getBoolOrDefault "logger.rotate_daily" true.
Definition logger_meilisearch : option HostKey :=
  if negb (isSet "logger.meilisearch") then None else Some (mkHostKey (str "logger.meilisearch.host") (str "logger.meilisearch.api_key")).
Definition logger_elasticsearch : option Account :=
  if negb (isSet "logger.elasticsearch") then None
  else Some (mkAccount (slice "logger.elasticsearch.addresses") (str "logger.elasticsearch.username") (str "logger.elasticsearch.password") false).
Definition logger_opensearch : option Account :=
  if negb (isSet "logger.opensearch") then None
  else Some (mkAccount (slice "logger.opensearch.addresses") (str "logger.opensearch.username") (str "logger.opensearch.password")
    (bool_ "logger.opensearch.insecure_skip_tls")).
Definition getLoggerConfig : option LoggerConfig :=
  if negb (isSet "logger") then None
  else
    let base := lower (or_default "app" (str "app_name") +:+ "-" +:+ or_default "default" (str "environment") +:+ "-logs") in
    Some (mkLogger (GetInt v "logger.level") (str "logger.path") (str "logger.format") (str "logger.output") (str "logger.output_file")
      (if isSet "logger.index_name" && negb (String.eqb (str "logger.index_name") "") then str "logger.index_name" else base)
      getDateSuffixPattern getRotateDaily getDesensitizationConfigs logger_meilisearch logger_elasticsearch logger_opensearch).
(** The text of a time in a layout is an argument. *)
Definition BuildIndexName (c : LoggerConfig) (format : string → string) : string :=
  if negb (RotateDaily c) then IndexName c else IndexName c +:+ "-" +:+ format (DateSuffix c).

(** *** The other parts of src/config *)

Record JWT := mkJWT { JSecret : string; Expiry : Z }.
Record Auth := mkAuth { JWT_ : JWT; Casbin : string * string; Whitelist : option (list string); MaxSessions : Z; SessionCleanupInterval : Z }.
(** The secret of the environment variable [JWT_SECRET] comes first. *)
Definition getJWT (env_secret : string) : JWT := mkJWT (if String.eqb env_secret "" then str "auth.jwt.secret" else env_secret) (GetDuration v "auth.jwt.expiry").
Definition getCasbin : string * string := (str "auth.casbin.path", str "auth.casbin.model").
Definition getWhitelist : option (list string) := slice "auth.whitelist".
Definition getAuth (env_secret : string) : Auth :=
  mkAuth (getJWT env_secret) getCasbin getWhitelist (GetInt v "auth.max_sessions")
    (GetInt v "auth.session_cleanup_interval").

Record Consul := mkConsul {
  Address : string; Scheme : string; DefaultTags : option (list string); DefaultMeta : option (gmap string string); HealthCheck : bool; CheckInterval : string; Timeout_ : string }.
Definition getConsulConfig : Consul :=
  mkConsul (str "consul.address") (str "consul.scheme") (slice "consul.discovery.default_tags") (GetStringMapString (viper v) "consul.discovery.default_meta")
    (bool_ "consul.discovery.health_check") (or_default "10s" (str "consul.discovery.check_interval")) (or_default "5s" (str "consul.discovery.timeout")).

Record GRPC := mkGRPC {
  GEnabled : bool; GHost : string; GPort : Z; TLSEnabled : bool; CertFile : string; KeyFile : string; CAFile : string;
  MaxConnIdle : Z; MaxConnAge : Z; KeepaliveTime : Z; KeepaliveTimeout : Z; MaxConcurrentStreams : Z; MaxRecvMsgSize : Z; MaxSendMsgSize : Z }.
Definition getGRPCConfig : GRPC :=
  mkGRPC (bool_ "grpc.enabled") (str "grpc.host") (GetInt v "grpc.port") (bool_ "grpc.tls_enabled") (str "grpc.cert_file") (str "grpc.key_file") (str "grpc.ca_file")
    (GetDuration v "grpc.max_conn_idle") (GetDuration v "grpc.max_conn_age") (getDurationOrDefault "grpc.keepalive_time" (2 * hour)%Z)
    (getDurationOrDefault "grpc.keepalive_timeout" (20 * second)%Z) (getUint32OrDefault "grpc.max_concurrent_streams" 100)
    (getIntOrDefault "grpc.max_recv_msg_size" (4 * 1024 * 1024)%Z) (getIntOrDefault "grpc.max_send_msg_size" (4 * 1024 * 1024)%Z).

Record Sentry := mkSentry { SEndpoint : string; SEnvironment : string; Release : string; SampleRate : float64 }.
Record Tracer := mkTracer {
  TEndpoint : string; ServiceName : string; ServiceVersion : string; TEnvironment : string; SamplingRate : float64; MaxExportBatchSize : Z; BatchTimeout : Z;
  ExportTimeout : Z; MaxQueueSize : Z; MaxAttributes : Z; MaxAttributeLength : Z; MaxEventsPerSpan : Z; MaxLinksPerSpan : Z; TTLSEnabled : bool;
  InsecureSkipVerify : bool; TLSCertFile : string; TLSKeyFile : string; TLSCAFile : string; Headers : option (gmap string string) }.
Definition getSentryConfig : Sentry :=
  mkSentry (str "observes.sentry.endpoint") (str "observes.sentry.environment") (str "observes.sentry.release")
    (getFloat64OrDefault "observes.sentry.sample_rate" (f_of_Z 1)).
Definition getTracerConfig : Tracer :=
  mkTracer (str "observes.tracer.endpoint") (str "observes.tracer.service_name") (str "observes.tracer.service_version") (str "observes.tracer.environment")
    (getFloat64OrDefault "observes.tracer.sampling_rate" (f_of_Z 1)) (getIntOrDefault "observes.tracer.max_export_batch_size" 512)
    (getDurationOrDefault "observes.tracer.batch_timeout" (5 * second)%Z) (getDurationOrDefault "observes.tracer.export_timeout" (30 * second)%Z)
    (getIntOrDefault "observes.tracer.max_queue_size" 2048) (getIntOrDefault "observes.tracer.max_attributes" 128)
    (getIntOrDefault "observes.tracer.max_attribute_length" 1024) (getIntOrDefault "observes.tracer.max_events_per_span" 128)
    (getIntOrDefault "observes.tracer.max_links_per_span" 128) (bool_ "observes.tracer.tls_enabled") (bool_ "observes.tracer.insecure_skip_verify")
    (str "observes.tracer.tls_cert_file") (str "observes.tracer.tls_key_file") (str "observes.tracer.tls_ca_file")
    (GetStringMapString (viper v) "observes.tracer.headers").
Definition getObservesConfig : Sentry * Tracer := (getSentryConfig, getTracerConfig).

Definition getFrontendConfig : string * string := (str "frontend.sign_in_url", str "frontend.sign_up_url").

Definition getStorageConfig : ObjectStore.Config :=
  ObjectStore.mkConfig (str "storage.provider") (str "storage.id") (str "storage.secret") (str "storage.region") (str "storage.bucket") (str "storage.endpoint")
    (str "storage.service_account_json") (str "storage.shared_folder") (str "storage.otp_code") (bool_ "storage.debug") (str "storage.app_id").

Record Email := mkEmail {
  EProvider_ : string; Mailgun : string * string * string; Aliyun_ : string * string * string; NetEase : string * string * string * string * string;
  SendGrid : string * string; SMTP : string * string * string * string * string; TencentCloud : string * string * string }.
Definition getMailgunConfig := (str "email.mailgun.key", str "email.mailgun.domain", str "email.mailgun.from").
Definition getAliyunConfig := (str "email.aliyun.id", str "email.aliyun.secret", str "email.aliyun.account").
Definition getNetEaseConfig :=
  (str "email.netease.username", str "email.netease.password", str "email.netease.from", str "email.netease.smtp_host", str "email.netease.smtp_port").
Definition getSendGridConfig := (str "email.sendgrid.key", str "email.sendgrid.from").
Definition getSMTPConfig := (str "email.smtp.host", str "email.smtp.port", str "email.smtp.username", str "email.smtp.password", str "email.smtp.from").
Definition getTencentCloudConfig := (str "email.tencent_cloud.id", str "email.tencent_cloud.secret", str "email.tencent_cloud.from").
Definition getEmailConfig : Email :=
  mkEmail (str "email.provider") getMailgunConfig getAliyunConfig getNetEaseConfig getSendGridConfig getSMTPConfig getTencentCloudConfig.

(** ** The whole configuration *)

Record AppConfig := mkApp {
  AppName : string; Environment : string; Protocol : string; Domain : string; AHost : string; Port : Z; GRPC_ : GRPC; Consul_ : Consul;
  Observes : Sentry * Tracer; Extension : ExtConfig.Config; Auth_ : Auth; Frontend : string * string; Logger : option LoggerConfig; Data_ : Data;
  Storage_ : ObjectStore.Config; OAuth : OAuthConfig.Config; Email_ : Email }.

(** What is made of a source: an invalid configuration of the extensions panics. *)
Definition read_app (env_secret : string) : res string AppConfig :=
  match ExtConfig.GetConfig v with
  | Ok ext =>
      Ok (mkApp (str "app_name") (str "environment") (str "server.protocol") (str "server.domain") (str "server.host") (GetInt v "server.port")
        getGRPCConfig getConsulConfig getObservesConfig ext (getAuth env_secret) getFrontendConfig getLoggerConfig getDataConfig getStorageConfig
        (OAuthConfig.GetConfig (viper v)) getEmailConfig)
  | _ => Panic
  end.
End Reading.

(** [LoadConfig]: a path that is given is read, otherwise the usual folders and
    the one of the executable are searched; [None] is no readable file. *)
Definition LoadConfig (lower : string → string) (env_secret : string) (path : string) (executable : bool) (file : option (Source * (string → option nat))) :
    res string AppConfig :=
  if String.eqb path "" && negb executable then Err "failed to get executable path"
  else match file with
  | None => Err "failed to read config file"
  | Some (v, length_of) => read_app v length_of lower env_secret
  end.

(** ** The global configuration *)

(** The configuration, and whether the once of [Init] was used; [C] is the type of
    configurations and a load ends as [res string C]. *)
Section Global.
Context {C : Type}.
Record Global := mkGlobal { config : option C; once : bool }.
Definition no_config : Global := mkGlobal None false.

(** [Init]: what is loaded the first time, and nil without an error later, also
    after a panic. *)
Definition Init (load : res string C) (g : Global) : res string (option C) * Global :=
  if once g then (Ok None, g)
  else match load with
  | Ok c => (Ok (Some c), mkGlobal (Some c) true)
  | Err e => (Err e, mkGlobal (config g) true)
  | _ => (Panic, mkGlobal (config g) true)
  end.
Definition GetConfig (load : res string C) (g : Global) : res string (option C) * Global :=
  match config g with
  | Some c => (Ok (Some c), g)
  | None =>
      let '(r, g) := Init load g in
      match r with
      | Ok c => (Ok c, mkGlobal c (once g))
      | Err e => (Err e, mkGlobal None (once g))
      | _ => (Panic, g)
      end
  end.
(** [Reload] and a change seen by [Watch], which calls back with the result. *)
Definition Reload (load : res string C) (g : Global) : res string () * Global :=
  match load with
  | Ok c => (Ok (), mkGlobal (Some c) (once g))
  | Err e => (Err e, g)
  | _ => (Panic, g)
  end.
Definition on_change (load : res string C) (g : Global) : res string (option C) * Global :=
  let '(r, g') := Reload load g in
  (match r with Ok _ => Ok (config g') | Err _ => Ok None | _ => Panic end, g').

(** The providers give parts of a configuration, nil of none. *)
Definition provide {P} (part : C → P) (cfg : option C) : option P := part <$> cfg.

Inductive call := CInit (load : res string C) | CGet (load : res string C) | CReload (load : res string C).
Definition run_call (c : call) (g : Global) : Global :=
  match c with CInit l => (Init l g).2 | CGet l => (GetConfig l g).2 | CReload l => (Reload l g).2 end.
End Global.
Arguments Global : clear implicits.

(** ** Properties *)

(** *** The global configuration *)

Section GlobalFacts.
Context {C : Type}.
Implicit Types (g : Global C) (cs : list (@call C)).

(** The configuration of the calls made: of the first loading and of every
    reloading that succeeds the last one. *)
Fixpoint loaded cs (used : bool) (c : option C) : option C :=
  match cs with
  | [] => c
  | CReload l :: cs' => loaded cs' used (match l with Ok c' => Some c' | _ => c end)
  | CInit l :: cs' => if used then loaded cs' true c else loaded cs' true (match l with Ok c' => Some c' | _ => c end)
  | CGet l :: cs' =>
      match c with
      | Some _ => loaded cs' used c
      | None => if used then loaded cs' true c else loaded cs' true (match l with Ok c' => Some c' | _ => None end)
      end
  end.

Lemma run_calls_loaded cs g : config (foldl (λ g c, run_call c g) g cs) = loaded cs (once g) (config g).
Proof.
  revert g. induction cs as [|c cs IH]; intros [c0 o]; cbn [foldl loaded]; [done|]. rewrite IH. clear IH.
  destruct c as [l|l|l]; cbn [run_call].
  - unfold Init. cbn [once config]. destruct o; [done|]. by destruct l.
  - unfold GetConfig, Init. cbn [once config]. destruct c0 as [c0|]; [done|]. destruct o; [done|]. by destruct l.
  - unfold Reload. cbn [once config]. by destruct l.
Qed.

(** Whatever is called, the configuration is the one loaded last, and a loading
    that fails leaves it as it was. *)
Theorem last_loaded cs : config (foldl (λ g c, run_call c g) no_config cs) = loaded cs false None.
Proof. apply run_calls_loaded. Qed.

(** After a first loading that failed, [GetConfig] gives nil without an error
    whatever could be loaded, until a reloading succeeds; and [Init] gives nil
    the second time even after a loading that succeeded. *)
Theorem nil_after_failure e load (cs : list (res string C)) :
  (GetConfig (Err e) (no_config (C := C))).1 = Err e ∧
  (GetConfig load (foldl (λ g l, (GetConfig l g).2) (GetConfig (Err e) no_config).2 cs)).1 = Ok None ∧
  ∀ c : C, (Init load (Init (Ok c) no_config).2).1 = Ok None.
Proof.
  split_and!; [done| |done]. cbn [GetConfig no_config config Init once snd].
  assert (foldl (λ g l, (GetConfig l g).2) (mkGlobal None true) cs = mkGlobal (C := C) None true) as -> by (by induction cs).
  done.
Qed.
End GlobalFacts.

(** A change of the file that makes the settings of the extensions invalid panics in
    the goroutine of the watcher, though [Reload] has an error to return. *)
Theorem reload_panics_iff lower env_secret path executable v length_of (g : Global AppConfig) :
  executable = true ∨ path ≠ "" →
  (on_change (LoadConfig lower env_secret path executable (Some (v, length_of))) g).1 = Panic ↔ bad_settings v.
Proof.
  intros He. unfold LoadConfig. assert (String.eqb path "" && negb executable = false) as ->.
  { destruct He as [->|Hp]; [apply andb_false_r|]. apply String.eqb_neq in Hp. by rewrite Hp. }
  unfold read_app. destruct (GetConfig_faults v) as [Hf [Hok|Hp]].
  - rewrite Hok in Hf |- *. rewrite <- Hf. done.
  - rewrite Hp in Hf |- *. rewrite <- Hf. done.
Qed.
Definition no_plugins : Source :=
  mkSource (viper (bare_source "dev")) (λ _, 0%Z) (λ _, 0%Z) (λ _, f_zero).
Definition zero_plugins : Source :=
  mkSource (mkViper (λ _, "") (λ _, false) (λ _, None) (λ _, None) (λ k, String.eqb k "extension.max_plugins") (λ _, [])) (λ _, 0%Z) (λ _, 0%Z) (λ _, f_zero).
Lemma reload_panics_iff_witness :
  (on_change (LoadConfig id "" "app.yaml" false (Some (zero_plugins, λ _, None))) no_config).1 = Panic ∧
  (on_change (LoadConfig id "" "app.yaml" false (Some (no_plugins, λ _, None))) no_config).1 ≠ Panic.
Proof.
  split.
  - apply (reload_panics_iff id "" "app.yaml" false zero_plugins (λ _, None) no_config); [right; discriminate|]. left. split; [reflexivity|vm_compute; discriminate].
  - intros H. apply (reload_panics_iff id "" "app.yaml" false no_plugins (λ _, None) no_config) in H; [|right; discriminate].
    destruct H as [[H _]|[[H _]|[H _]]]; discriminate H.
Defined.

(** *** The parts *)

(** The slaves of MongoDB are the listed ones with an address, in order, with
    weights of at least one. *)
Theorem mongo_slaves_exact v length_of :
  let at_ i := mongo_node_at v (indexed "data.mongodb.slaves" i) in
  let l := getMongoSlaveConfigs v length_of in
  URI <$> l = List.filter (λ u, negb (String.eqb u "")) ((λ i, URI (at_ i)) <$> seq 0 (default 0%nat (length_of "data.mongodb.slaves"))) ∧
  Forall (λ n, URI n ≠ "" ∧ (1 ≤ NodeWeight n)%Z) l ∧
  (∀ n, n ∈ l → ∃ i, (i < default 0%nat (length_of "data.mongodb.slaves"))%nat ∧ URI n = URI (at_ i) ∧ NodeWeight n = Z.max 1 (NodeWeight (at_ i))).
Proof.
  intros at_ l. unfold l, getMongoSlaveConfigs. destruct (length_of _) as [n|]; cbn [default]; [|split_and!; [done|constructor|by intros ? ?%elem_of_nil]].
  assert (∀ k, let l := seq 0 n ≫= λ i, let slave := mongo_node_at v (indexed "data.mongodb.slaves" i) in
      if String.eqb (URI slave) "" then [] else [if (NodeWeight slave <=? 0)%Z then mkMongoNode (URI slave) (Logging slave) 1 else slave] in
    (k ∈ l → ∃ i, (i < n)%nat ∧ URI (at_ i) ≠ "" ∧ URI k = URI (at_ i) ∧ NodeWeight k = Z.max 1 (NodeWeight (at_ i)))) as Hel.
  { intros k l' (i & Hk & Hi%elem_of_seq)%list_elem_of_bind. exists i. fold (at_ i) in Hk. cbv zeta in Hk. destruct (String.eqb_spec (URI (at_ i)) "") as [|Hu]; [by apply elem_of_nil in Hk|].
    apply list_elem_of_singleton in Hk as ->. destruct (Z.leb_spec (NodeWeight (at_ i)) 0); cbn [URI NodeWeight]; fold (at_ i); split_and!; (done || lia). }
  split_and!.
  - change (id n) with n. clear Hel. induction (seq 0 n) as [|i is_ IH]; [reflexivity|].
    rewrite bind_cons, fmap_app, IH, fmap_cons. cbv zeta. fold (at_ i). cbn [List.filter].
    destruct (String.eqb_spec (URI (at_ i)) ""); cbn [negb]; [done|]. destruct (_ <=? 0)%Z; reflexivity.
  - apply list.Forall_forall. intros k (i & _ & Hu & -> & ->)%Hel. split; [done|lia].
  - intros k (i & Hi & _ & H)%Hel. by exists i.
Qed.

(** Masking is on without a section for it, with six mask characters, and off with an
    empty section, with eight. *)
Theorem masking_defaults_differ v : (∀ k, k ≠ "logger.desensitization" → IsSet (viper v) k = false) →
  (∀ k, GetString (viper v) k = "" ∧ GetBool (viper v) k = false ∧ GetStringSlice (viper v) k = None ∧ GetInt v k = 0%Z) →
  getDesensitizationConfigs v =
    if IsSet (viper v) "logger.desensitization"
    then mkMasking false (Some sensitive_default) None 0 0 "*" false 8 false false
    else mkMasking true (Some sensitive_default) None 0 0 "*" true 6 false false.
Proof.
  intros Hs Hz. unfold getDesensitizationConfigs, getBoolOrDefault, fields_or. destruct (IsSet (viper v) "logger.desensitization"); [|done]. cbn [negb].
  rewrite !Hs by done. repeat match goal with |- context [GetInt v ?k] => rewrite (proj2 (proj2 (proj2 (Hz k)))) end.
  repeat match goal with |- context [GetBool (viper v) ?k] => rewrite (proj1 (proj2 (Hz k))) end.
  repeat match goal with |- context [GetStringSlice (viper v) ?k] => rewrite (proj1 (proj2 (proj2 (Hz k)))) end.
  by rewrite (proj1 (Hz _)).
Qed.
Definition empty_section : Source :=
  mkSource (mkViper (λ _, "") (λ _, false) (λ _, None) (λ _, None) (λ k, String.eqb k "logger.desensitization") (λ _, [])) (λ _, 0%Z) (λ _, 0%Z) (λ _, f_zero).
Lemma masking_defaults_differ_witness : FixedMaskLength (getDesensitizationConfigs empty_section) = 8%Z.
Proof.
  rewrite (masking_defaults_differ empty_section); [reflexivity| |].
  - intros k Hk. apply String.eqb_neq. exact Hk.
  - intros k. repeat split.
Defined.

(** An environment counts as production when it is empty or, in lower case, one of
    three names. *)
Theorem production_iff lower environment : (∀ e, e ∈ ["prod"; "release"; "production"] → lower e = e) →
  IsProd lower environment [] = true ↔ lower environment ∈ [""; "prod"; "release"; "production"].
Proof.
  intros Hl. pose proof (Hl "prod" ltac:(repeat constructor)) as H1. pose proof (Hl "release" ltac:(repeat constructor)) as H2.
  pose proof (Hl "production" ltac:(repeat constructor)) as H3. clear Hl.
  unfold IsProd. rewrite orb_true_iff. cbn [existsb]. rewrite H1, H2, H3, !orb_true_iff, !String.eqb_eq, !elem_of_cons, elem_of_nil. intuition congruence.
Qed.
Lemma production_iff_witness : IsProd id "release" [] = true ∧ IsProd id "staging" [] = false.
Proof. split; [|reflexivity]. apply (production_iff id "release"); [intros; reflexivity|]. right. right. left. Defined.

(** Without settings the messages of brokers are published within 30 seconds, with three
    retries, and within a minute across regions. *)
Theorem messaging_defaults v : (∀ k, k ≠ "data.messaging.cross_region_mode" → IsSet (viper v) k = false) →
  getMessagingConfig v = (let cross := getMessagingCrossRegionMode v in mkMessaging true ((if cross then 60 else 30) * second)%Z cross 3 (30 * second)%Z true).
Proof.
  intros Hs. unfold getMessagingConfig, getMessagingPublishTimeout, getMessagingEnabled, getMessagingRetryAttempts, getMessagingRetryBackoffMax, getMessagingFallbackToMemory, getBoolOrDefault, getDurationOrDefault, getIntOrDefault. rewrite !Hs by done. cbv zeta.
  by destruct (getMessagingCrossRegionMode v).
Qed.
Definition nothing_set : Source :=
  mkSource (mkViper (λ _, "") (λ _, false) (λ _, None) (λ _, None) (λ _, false) (λ _, [])) (λ _, 0%Z) (λ _, 0%Z) (λ _, f_zero).
Lemma messaging_defaults_witness : getMessagingConfig nothing_set = mkMessaging true 30000000000 false 3 30000000000 true.
Proof. rewrite (messaging_defaults nothing_set); [reflexivity|intros; reflexivity]. Defined.
